(* ===== verification/_CoqProject ===== *)
-Q . S2P
Prelude.v
HostFloat.v
Rv32State.v
Rv32Decode.v
Rv32Bits.v
Rv32Float.v
Rv32Exec.v
Rv32FloatProps.v
Rv32Safe.v
Rv32Machine.v
Rv32Isa.v
Rv32Arith.v
Rv32Word.v
Rv32Rvc.v
Rv32Refine.v
Rv32Theorems.v
Rv32Elf.v
NcState.v
NcOps.v
NcProto.v
NcApi.v
NcInv.v
NcChan.v
NcRecv.v
NcFrag.v
NcSafe.v
NcFeed.v
NcSend.v
NcPublic.v
NcQueue.v
NcReach.v
NcStream.v
NcTheorems.v
NcTimers.v
NcLimits.v
NcReassembly.v
Gc.v
GcInv.v
GcCollect.v
GcAlloc.v
GcMake.v
GcSim.v
GcTheorems.v
Regalloc.v
RegallocInv.v
RegallocAlloc.v
RegallocTheorems.v
Microser.v
MicroserTheorems.v
Scheme.v
SchemeLex.v
SchemeData.v
SchemeRead.v
SchemePrint.v
SchemeRound.v
SchemeTheorems.v
CfState.v
CfOps.v
CfInt.v
CfExec.v
CfFrame.v
CfSafe.v
CfUser.v
CfFlags.v
CfMem.v
CfEmac.v
CfAlu.v
Triton.v
CfTheorems.v
