(* ===== verification/Prelude.v ===== *)
(** * A verification of programs of the mechanical researcher

    The repository collects articles with demonstration programs in C.  This
    development covers the following of them function by function:

    - the RISC-V emulator, src/rv32-emulator/demo: the interpreter (rv32.c,
      rv32.h), the flat machine with its system calls (machine.c, machine.h)
      and the ELF loader (elf_loader.c);
    - the channel protocol of src/netchan-v2/demo: reliable and unreliable
      message channels over datagrams (netchan.c, netchan.h, nc_addr.h);
    - parts of src/portable-compiler/demo: the garbage collector of the
      TinScheme front end (scheme/gc.c, gc.h), its lexer, reader and printer
      (scheme/lex.c, parse.c, print.c, scheme.h, and the print mode of main.c),
      and the intermediate representation with the register allocator
      (ir/ir.c, ir.h, backend/regalloc_cf.c);
    - the serialiser of src/serialization-formats/demo (microser.h, and the
      code that microser-gen.sh generates);
    - the ColdFire emulator of src/coldfire-emulator/demo (coldfire.c,
      coldfire.h), of which the other ColdFire and Triton articles have copies,
      and the console that uses it, src/triton-system-emulator/demo (triton.c,
      triton.h): its memory bus, serial port and start.

    ** How C is modelled

    An unsigned integer of [w] bits is an integer of [Z] in range; wherever an
    expression of the source can leave the range, the wrap-around of its type
    is written out ([u8], [u16], [u32], [u64], and [s8], [s16], [s32] for
    casts to signed types).  A function with effects is a computation of the
    monad [M S] defined below, a partial function on states: [None] is
    undefined behaviour, such as an access outside an array or a shift by too
    many bits, so "the computation returns" is part of every safety theorem.
    Loops whose bound is not evident take fuel, and running out of it is
    [None] as well; the theorems show that the fuel given in the definitions is
    enough.  Program logic is a weakest precondition [wp] over this monad, with
    the rules at the end of this file and the range hints of the database
    [word].

    ** The emulator

    Rv32State holds the processor record, one function per field assignment,
    the trace ring and the table of callbacks.  Rv32Decode has the fields and
    immediates of instruction words and the expansion of compressed
    instructions, Rv32Bits the bit-manipulation helpers, Rv32Float the
    single-precision arithmetic, which the source computes in double precision
    and rounds itself (HostFloat has the [double] and [float] of the host, which
    are SpecFloat's, and their conversions; both emulators use it).  Rv32Exec has the bus,
    traps, interrupts, CSRs, the instructions, [rv_step] and [rv_run],
    polymorphic in the state of the host and parametrised by its callbacks.
    Rv32Machine instantiates them with the flat memory and the system calls,
    Rv32Elf adds the loader over the bytes of a file.

    - Rv32Safe and Rv32FloatProps: every instruction returns and keeps the
      ranges of the registers (theorems C2, C3, C13).
    - Rv32Isa is an independent reference for the integer instructions over
      bit-level definitions, Rv32Rvc the tables of the compressed ones;
      Rv32Arith, Rv32Word and Rv32Refine show that the interpreter refines
      them (C1, C4, C5).
    - Rv32Theorems collects these and: trap entry and return (C6, C7),
      interrupt priorities (C8), the CSR round trip (C9), load reserved and
      store conditional (C11), system calls (C17), and, without a number, the
      memory round trip, the arithmetic of the F extension, classification,
      splitting of runs, the trace ring, and the endless trap loop of a machine
      without handler.  Rv32Elf has the safety of the loader and the overflow of
      its bounds check (C19, C20).

    ** netchan

    NcState has the constants and structures; a pointer to a channel is its
    index in [chan_pool], a pointer into the message pool an offset of
    [pool_store], a NULL pointer is [None].  NcOps has the primitives and the
    [world] of a connection: the object itself and the readings of the clock
    and of the random sources.  NcProto has the handlers of the frames and the
    parser, NcApi the public functions.  Both ends run the same code; what the
    network may do is expressed by feeding packets in any order.

    - NcInv states the invariant: rings and tables in range, and each of the 64
      buffers of the pool owned exactly once.  An operation on one channel
      takes it out of the invariant and puts it back ([open_world],
      [close_world]).  NcChan, NcRecv, NcFrag, NcQueue, NcSafe, NcFeed, NcSend
      and NcPublic execute every function symbolically against it; NcReach
      closes it under all sequences of calls (C21, C22 in NcTheorems).
    - NcStream relates the receiving end of a reliable channel to the stream of
      messages of the sender: in order, at most once, and complete (C23, C24).
      The receive queue and the send queue are specified as lists, [inbox] and
      [outbox]; acknowledgements and writing are C25 and C26.
      The event ring refines a bounded queue (C28).  NcReassembly shows that
      fragments are put together to the message that was split (C35).
    - NcTimers bounds the retransmissions of a message (C29); NcLimits runs
      both ends at the limits of the protocol and shows what goes wrong there
      (C32 and the examples around it).

    The one assumption about packets is [frames_fit]: no fragment of a
    fragmented message is longer than the receiver's own [max_frag_payload].
    The code does not check it, and C32 shows what happens without it.

    ** The garbage collector

    Gc models gc.c over a process memory: the heap descriptor, the objects by
    address, and the variables whose addresses are on the root stack.  The
    [malloc] of the C library is a parameter; the class [Malloc] of GcAlloc
    says what it may return.

    - GcInv has the invariant (the list of all objects is exactly what is
      allocated, its length is [count], values point to objects) and the
      reachability relation; GcCollect executes mark and sweep.  C36: a
      collection keeps exactly the objects that are reachable from the roots.
    - GcAlloc and GcMake execute the allocators.  GcSim has the abstract
      machine, a store that only grows, and the simulation: C37 (GcTheorems)
      shows that a program on the collected heap reads the same values as on
      the abstract one, whenever collections happen.

    ** The TinScheme reader and printer

    Scheme models the lexer as a state over the bytes of the source, the reader
    over the lexer and the memory of Gc, and the printer, which appends to the
    output.  [die] and [exit] are a result.  Locals that the code registers as
    roots before they have a value hold what the parameter [uninit] says; the
    theorems assume that this is no dangling pointer ([harmless]), and
    [unset_root_dereferenced] shows what happens otherwise.

    - SchemeLex: the lexer never reads outside of the source and moves on.
    - SchemeData: trees, their representation by objects that are used once,
      and list segments.  SchemeRead has a reference reader that returns trees
      and shows that the reader on the heap refines it, through every
      collection (C30 in SchemeTheorems), with the specifications of the
      allocators from GcMake.
    - SchemePrint and SchemeRound: the printer writes the text of a tree, and
      the lexer and the reference reader get the tree back.  C31 is the whole
      of [tinscheme -p], C33 the round trip of a datum through [scm_print] and
      [scm_read]; a corollary says that [tinscheme -p] is idempotent.

    ** The register allocator

    Regalloc has the instructions, [ir_emit] and [regalloc] over the arrays of
    the function; [qsort] is a parameter whose promise is the class [Qsort] of
    RegallocAlloc: a sorted permutation.  RegallocInv has the live ranges and
    the loops, RegallocAlloc the invariant of the main loop.  C38
    (RegallocTheorems): temporaries whose ranges overlap never share a
    register or a spill slot, and every defined temporary has one of both.
    C39: for every meaning of the instructions, the code over registers and
    spill slots computes what the code over temporaries does, in runs where a
    backward jump ends the life of the temporaries: the range of a temporary
    ends at its last textual use, and the front ends keep values that cross a
    loop in local slots.

    ** Microser

    Microser has the writers, the readers and the generated encoder and
    decoder as functions of the fields of a message; MicroserTheorems has the
    wire format and the round trip through a decoder of any version (C40).

    ** The ColdFire emulator and the Triton console

    CfState has the processor record, the trace ring, the callbacks of the host
    ([cf_callbacks]: the bus and the hypercall) and [CImpl], what C leaves to
    its implementation where the source relies on it: signed overflow, shifts
    and conversions out of range, and the bits of the NaNs that arithmetic
    makes.  [std_c] is the standard, for which the overflows are undefined,
    [wrap_c] a two's complement machine; [CTotal] says that they are all
    defined.  CfOps has the bus wrappers, the flags, exceptions and the
    effective addresses, CfInt the integer instructions by opcode group, CfExec
    the multiply-accumulate and floating-point units, [cf_step], [cf_run] and
    the public functions.

    - CfFrame goes through every instruction once, for any two properties of
      states: one that elementary steps keep ([frame]), and one that holds
      after an exception.  CfSafe instantiates it with the ranges of the
      registers, on any bus with the laws [BusLaws]; CfUser with what a user
      program may not change.  These are C12, every run is defined and keeps
      the ranges, and C14, a step in user mode is confined.
    - CfFlags and CfAlu: the condition codes of [cmp], [sub] and [add] as
      instruction words (C10), and the shifts against closed forms (C18).
    - CfMem: a bus that is a memory ([RamBus]); an exception and [rte] restore
      the interrupted processor (C15).  CfEmac: the accumulators (C16).
    - Triton has the arrays of the console, the bus dispatch and the start:
      accesses stay within the arrays except at the end of the address space
      (C27), and the machine starts at the vectors of its ROM (C34).
    - CfTheorems states these, and runs small programs that show where the
      emulator differs from the instruction set ([invalid_mode_escapes] and the
      lemmas at its end).

    The confinement assumes that the addressing modes of the instruction exist:
    for the modes 7.5 to 7.7 the emulator takes the exception and then executes
    the instruction in supervisor mode.

    ** Fuel

    [ff1_loop] gets 32 steps for the 32 bits of a word; the loops of the shifts
    and [cf_run_loop] run for their count.

    [mark_val] gets one more level than there are objects and marks one in
    each; [sweep] and [destroy_loop] get one more step than there are objects;
    [decode_loop] gets one more iteration than the message has bytes; the loops
    of the lexer get one more than the source has bytes, the reader twice as
    many, two for each byte and one for a token that was peeked ([rem]); the
    printer gets one more than there are objects.
    [deliver_loop] gets 65 iterations and clears one of 64 slots in each;
    [advance_head] and [next_sendable] get 65 for a ring of 64; [parse_loop]
    gets one more iteration than the packet has bytes and consumes at least one
    byte in each; [write_loop] of the machine gets the size of the memory; the
    loops of the bit helpers run over the 32 bits of a word.

    ** Bounds

    The theorems on the collector hold while there are fewer than 2^30
    objects, so that [count * 2] is an [int]; those on the allocator for fewer
    than 2^29 temporaries and 2^31 instructions; those on the reader for sources
    of less than 2^26 bytes whose number literals have at most 15 digits, since
    the code does not check the overflow of a longer one.

    ** Not modelled

    The programs around these cores do input and output (sockets, terminals,
    files, debuggers) or are superseded copies.  The other programs of the
    repository are not modelled: the rasteriser, the audio mixer and the display
    of the Triton console, TinC, the lowering and the assembler output of the
    compiler, the display protocol, and the encryption and the other transports of
    netchan, which rest on a vendored library.  Within the files that are
    modelled, the functions that only print or free memory are left out, the
    depth of the C stack is not bounded ([mark_val] is recursive), and
    [netchan_close] is modelled but has no theorem. *)

From stdpp Require Export base list numbers strings.
From Stdlib Require Export ZArith Lia Btauto.

#[global] Open Scope Z_scope.

(** ** Machine words

    A [uint8_t], [uint16_t], [uint32_t] or [uint64_t] is an integer of [Z] in
    its range; an operation of C that can leave the range is followed by the
    wrap-around function of its width.  An [int32_t] is an integer of [Z] in
    the signed range, and [s32] is the cast that C programs of this
    repository use to get one from a [uint32_t]. *)

Definition u8 (z : Z) : Z := z mod 256.
Definition u16 (z : Z) : Z := z mod 65536.
Definition u32 (z : Z) : Z := z mod 4294967296.
Definition u64 (z : Z) : Z := z mod 18446744073709551616.

Definition s8 (z : Z) : Z := let v := u8 z in if v <? 128 then v else v - 256.
Definition s16 (z : Z) : Z := let v := u16 z in if v <? 32768 then v else v - 65536.
Definition s32 (z : Z) : Z := let v := u32 z in if v <? 2147483648 then v else v - 4294967296.

#[global] Arguments u8 : simpl never.
#[global] Arguments u16 : simpl never.
#[global] Arguments u32 : simpl never.
#[global] Arguments u64 : simpl never.
#[global] Arguments Nat.modulo : simpl never.
#[global] Arguments Nat.div : simpl never.

(** Bitwise complement of an unsigned 32-bit value ([~x]). *)
Definition not32 (z : Z) : Z := 4294967295 - u32 z.

Declare Scope word_scope.
Delimit Scope word_scope with word.
Infix ">>" := Z.shiftr (at level 38, left associativity) : word_scope.
Infix "<<" := Z.shiftl (at level 38, left associativity) : word_scope.
Infix ".&" := Z.land (at level 40, left associativity) : word_scope.
Infix ".^" := Z.lxor (at level 45, left associativity) : word_scope.
Infix ".|" := Z.lor (at level 51, left associativity) : word_scope.
#[global] Open Scope word_scope.

(** [uN r w]: [r] is in the range of a [w]-bit unsigned integer. *)
Definition inw (w z : Z) : Prop := 0 <= z < 2 ^ w.
Abbreviation in8 := (inw 8).
Abbreviation in16 := (inw 16).
Abbreviation in32 := (inw 32).
Abbreviation in64 := (inw 64).

(** [z] is non-zero, the truth value C gives an integer. *)
Definition nz (z : Z) : bool := negb (z =? 0).

(** ** State with undefined behaviour

    A computation that works on a state and may perform undefined behaviour
    of C (an access outside an array, a conversion out of range): [None] is
    undefined behaviour, never an error the program reports. *)

Definition M (S A : Type) : Type := S → option (A * S).

#[global] Instance M_ret {S} : MRet (M S) := λ A a s, Some (a, s).
#[global] Instance M_bind {S} : MBind (M S) := λ A B f m s,
  match m s with Some (a, s') => f a s' | None => None end.

Definition ub {S A} : M S A := λ _, None.
Definition mget {S} : M S S := λ s, Some (s, s).
Definition mgets {S A} (f : S → A) : M S A := λ s, Some (f s, s).
Definition mmod {S} (f : S → S) : M S unit := λ s, Some (tt, f s).

(** Weakest precondition: [m] is free of undefined behaviour from [s] and its
    result and final state satisfy [Q]. *)
Definition wp {S A} (m : M S A) (Q : A → S → Prop) (s : S) : Prop :=
  match m s with Some (a, s') => Q a s' | None => False end.

(** ** Words: ranges and conversions *)

Lemma inw_mod w z : 0 <= w → inw w (z mod 2 ^ w).
Proof. intros. apply Z.mod_pos_bound. lia. Qed.

Lemma inw_iff_mod w z : 0 <= w → inw w z ↔ z mod 2 ^ w = z.
Proof.
  intros Hw. split; [apply Z.mod_small|].
  intros <-. by apply inw_mod.
Qed.

Lemma inw_mono w w' z : w <= w' → inw w z → inw w' z.
Proof.
  intros Hw [? Hz]. split; [done|].
  assert (2 ^ w <= 2 ^ w') by (apply Z.pow_le_mono_r; lia). lia.
Qed.

Lemma inw_testbit w z :
  0 <= w → (∀ i, w <= i → Z.testbit z i = false) → inw w z.
Proof.
  intros Hw Hi. apply inw_iff_mod; [done|].
  apply Z.bits_inj'. intros i Hi0.
  destruct (decide (i < w)).
  - by rewrite Z.mod_pow2_bits_low by lia.
  - rewrite Z.mod_pow2_bits_high by lia. by rewrite Hi by lia.
Qed.

Lemma testbit_inw w z i : inw w z → 0 <= w <= i → Z.testbit z i = false.
Proof.
  intros Hz ?. rewrite <-(proj1 (inw_iff_mod w z ltac:(lia)) Hz).
  apply Z.mod_pow2_bits_high. lia.
Qed.

Lemma inw_nonneg_w w z : inw w z → 0 <= w.
Proof.
  intros [? H]. destruct (decide (0 <= w)) as [|Hw]; [done|].
  rewrite Z.pow_neg_r in H by lia. lia.
Qed.

Lemma inw_lor w a b : inw w a → inw w b → inw w (a .| b).
Proof.
  intros Ha Hb. pose proof (inw_nonneg_w _ _ Ha).
  apply inw_testbit; [done|]. intros i Hi.
  by rewrite Z.lor_spec, !(testbit_inw w).
Qed.

Lemma inw_lxor w a b : inw w a → inw w b → inw w (a .^ b).
Proof.
  intros Ha Hb. pose proof (inw_nonneg_w _ _ Ha).
  apply inw_testbit; [done|]. intros i Hi.
  by rewrite Z.lxor_spec, !(testbit_inw w).
Qed.

Lemma inw_land_l w a b : inw w a → inw w (a .& b).
Proof.
  intros Ha. pose proof (inw_nonneg_w _ _ Ha).
  apply inw_testbit; [done|]. intros i Hi.
  by rewrite Z.land_spec, (testbit_inw w a).
Qed.

Lemma inw_land_r w a b : inw w b → inw w (a .& b).
Proof. rewrite Z.land_comm. apply inw_land_l. Qed.

Lemma inw_shiftr w a n : 0 <= n → inw w a → inw w (a >> n).
Proof.
  intros Hn Ha. pose proof (inw_nonneg_w _ _ Ha).
  apply inw_testbit; [done|]. intros i Hi.
  rewrite Z.shiftr_spec by lia. apply (testbit_inw w); [done|lia].
Qed.

Lemma inw_shiftl w a n : 0 <= n → inw (w - n) a → inw w (a << n).
Proof.
  intros Hn Ha. pose proof (inw_nonneg_w _ _ Ha).
  apply inw_testbit; [lia|]. intros i Hi.
  rewrite Z.shiftl_spec by lia. apply (testbit_inw (w - n)); [done|lia].
Qed.

Lemma inw_b2z w b : 1 <= w → inw w (Z.b2z b).
Proof. intros. apply (inw_mono 1); [done|]. destruct b; split; simpl; lia. Qed.

Lemma u8_in z : in8 (u8 z). Proof. by apply (inw_mod 8). Qed.
Lemma u16_in z : in16 (u16 z). Proof. by apply (inw_mod 16). Qed.
Lemma u32_in z : in32 (u32 z). Proof. by apply (inw_mod 32). Qed.
Lemma u64_in z : in64 (u64 z). Proof. by apply (inw_mod 64). Qed.

Lemma u32_small z : in32 z → u32 z = z.
Proof. intros. by apply Z.mod_small. Qed.

Lemma u32_u32 z : u32 (u32 z) = u32 z.
Proof. apply u32_small, u32_in. Qed.

Lemma not32_in z : in32 (not32 z).
Proof. unfold not32. pose proof (u32_in z). unfold inw in *. lia. Qed.

Lemma s32_range z : - 2 ^ 31 <= s32 z < 2 ^ 31.
Proof. unfold s32. pose proof (u32_in z). unfold inw in *. case_match; lia. Qed.

Lemma u32_s32 z : u32 (s32 z) = u32 z.
Proof.
  unfold s32. case_match; [apply u32_u32|].
  unfold u32. rewrite Zminus_mod, Z.mod_mod by lia.
  change (4294967296 mod 4294967296) with 0.
  rewrite Z.sub_0_r. apply Z.mod_mod. lia.
Qed.

Lemma u32_add_l a b : u32 (u32 a + b) = u32 (a + b).
Proof. unfold u32. by rewrite Zplus_mod_idemp_l. Qed.
Lemma u32_add_r a b : u32 (a + u32 b) = u32 (a + b).
Proof. unfold u32. by rewrite Zplus_mod_idemp_r. Qed.

Lemma not32_spec z : in32 z → not32 z = u32 (Z.lnot z).
Proof.
  intros Hz. unfold not32. rewrite u32_small by done.
  unfold u32, inw, Z.lnot in *. rewrite <-(Z_mod_plus_full _ 1).
  rewrite Z.mod_small; lia.
Qed.

(** A mask that starts at bit [k]. *)
Lemma land_shifted a m k : 0 <= k → a .& (m << k) = ((a >> k) .& m) << k.
Proof.
  intros Hk. apply Z.bits_inj'. intros n Hn. rewrite Z.land_spec, !Z.shiftl_spec by lia.
  destruct (decide (n < k)); [by rewrite !(Z.testbit_neg_r _ (n - k)), andb_false_r by lia|].
  rewrite Z.land_spec, Z.shiftr_spec by lia. by replace (n - k + k) with n by lia.
Qed.

(** A word put together from a multiple of [2 ^ n] and [n] low bits. *)
Lemma lor_low a b n : 0 <= n → inw n b → (a * 2 ^ n) .| b = a * 2 ^ n + b.
Proof.
  intros Hn H. symmetry. apply Z.add_nocarry_lor.
  apply Z.bits_inj'. intros i Hi. rewrite Z.land_spec, Z.bits_0. destruct (decide (i < n)).
  - rewrite Z.mul_pow2_bits_low by lia. done.
  - rewrite (testbit_inw n b) by (done || lia). apply andb_false_r.
Qed.

Lemma join16 v : u16 ((u8 (v >> 8) << 8) .| u8 v) = u16 v.
Proof.
  rewrite Z.shiftl_mul_pow2 by lia. rewrite lor_low by (lia || apply u8_in).
  rewrite Z.shiftr_div_pow2 by lia. unfold u8, u16. change (2 ^ 8) with 256. Z.to_euclidean_division_equations. lia.
Qed.

Lemma join32 v : u32 (u8 (v >> 24) << 24) .| (u8 (v >> 16) << 16) .| (u8 (v >> 8) << 8) .| u8 v = u32 v.
Proof.
  rewrite u32_small by (apply inw_shiftl; [lia|apply u8_in]).
  pose proof (u8_in (v >> 24)) as H3. pose proof (u8_in (v >> 16)) as H2. pose proof (u8_in (v >> 8)) as H1.
  pose proof (u8_in v) as H0. unfold inw in *. rewrite !Z.shiftl_mul_pow2 by lia.
  rewrite lor_low by (unfold inw; lia).
  replace (u8 (v >> 24) * 2 ^ 24 + u8 (v >> 16) * 2 ^ 16) with ((u8 (v >> 24) * 2 ^ 8 + u8 (v >> 16)) * 2 ^ 16) by lia.
  rewrite lor_low by (unfold inw; lia).
  replace (_ + u8 (v >> 8) * 2 ^ 8) with (((u8 (v >> 24) * 2 ^ 8 + u8 (v >> 16)) * 2 ^ 8 + u8 (v >> 8)) * 2 ^ 8) by lia.
  rewrite lor_low by (unfold inw; lia).
  rewrite !Z.shiftr_div_pow2 by lia. unfold u8, u32.
  change (2 ^ 24) with 16777216. change (2 ^ 16) with 65536. change (2 ^ 8) with 256. Z.to_euclidean_division_equations. lia.
Qed.

(** Ranges are proved by [auto with word]. *)
Create HintDb word discriminated.
#[export] Hint Resolve u8_in u16_in u32_in u64_in not32_in inw_lor inw_lxor : word.
#[export] Hint Extern 1 (inw _ (Z.b2z _)) => apply inw_b2z; lia : word.
#[export] Hint Extern 2 (inw _ (Z.land _ _)) => first
  [ apply inw_land_r; solve [unfold inw; lia] | apply inw_land_l; solve [auto with word]
  | apply inw_land_r; solve [auto with word] ] : word.
#[export] Hint Extern 2 (inw _ (Z.shiftr _ _)) => apply inw_shiftr; [lia|] : word.
#[export] Hint Extern 3 (inw _ _) => unfold inw; lia : word.
#[export] Hint Extern 3 (inw _ (if ?b then _ else _)) => destruct b : word.

(** ** Rules of the weakest precondition *)

Section wp.
Context {S : Type}.
Implicit Types s : S.

Lemma wp_ret {A} (a : A) (Q : A → S → Prop) s : Q a s → wp (mret a) Q s.
Proof. done. Qed.

Lemma wp_bind {A B} (m : M S A) (k : A → M S B) (Q : B → S → Prop) s :
  wp m (λ a, wp (k a) Q) s → wp (m ≫= k) Q s.
Proof. unfold wp, mbind, M_bind. by destruct (m s) as [[]|]. Qed.

Lemma wp_mono {A} (m : M S A) (P Q : A → S → Prop) s :
  wp m P s → (∀ a s', P a s' → Q a s') → wp m Q s.
Proof. unfold wp. destruct (m s) as [[]|]; naive_solver. Qed.

Lemma wp_get (Q : S → S → Prop) s : Q s s → wp mget Q s.
Proof. done. Qed.

Lemma wp_gets {A} (f : S → A) (Q : A → S → Prop) s : Q (f s) s → wp (mgets f) Q s.
Proof. done. Qed.

Lemma wp_mod f (Q : unit → S → Prop) s : Q tt (f s) → wp (mmod f) Q s.
Proof. done. Qed.

Lemma wp_if {A} (b : bool) (m1 m2 : M S A) (Q : A → S → Prop) s :
  (b = true → wp m1 Q s) → (b = false → wp m2 Q s) → wp (if b then m1 else m2) Q s.
Proof. destruct b; auto. Qed.

Lemma wp_run {A} (m : M S A) (Q : A → S → Prop) s :
  wp m Q s ↔ ∃ a s', m s = Some (a, s') ∧ Q a s'.
Proof. unfold wp. destruct (m s) as [[]|]; naive_solver. Qed.

Lemma bind_run {A B} (m : M S A) (k : A → M S B) s1 a s2 :
  m s1 = Some (a, s2) → (m ≫= k) s1 = k a s2.
Proof. intros E. unfold mbind, M_bind. by rewrite E. Qed.

Lemma wp_and {A} (m : M S A) (P Q : A → S → Prop) s :
  wp m P s → wp m Q s → wp m (λ a s', P a s' ∧ Q a s') s.
Proof. unfold wp. by destruct (m s) as [[]|]. Qed.
End wp.

(** One step of symbolic execution.  [wp_go lem] also uses the rules that
    the tactic [lem] applies for the operations of a component. *)
Ltac wp_prim :=
  lazymatch goal with
  | |- wp (mret _) _ _ => apply wp_ret
  | |- wp (mbind _ _) _ _ => apply wp_bind
  | |- wp mget _ _ => apply wp_get
  | |- wp (mgets _) _ _ => apply wp_gets
  | |- wp (mmod _) _ _ => apply wp_mod
  | |- wp (if _ then _ else _) _ _ => apply wp_if; intros ?
  end.

(** ** Arrays and loops of C *)

Definition aget {A} (l : list A) (i : Z) : option A :=
  if 0 <=? i then l !! Z.to_nat i else None.

Definition aset {A} (l : list A) (i : Z) (x : A) : option (list A) :=
  if (0 <=? i) && (i <? Z.of_nat (length l)) then Some (<[Z.to_nat i := x]> l) else None.

(** The bytes [l[i .. i + n)], and the array after [bs] is copied to [l + i]. *)
Definition aslice {A} (l : list A) (i n : Z) : option (list A) :=
  if (0 <=? i) && (0 <=? n) && (i + n <=? Z.of_nat (length l))
  then Some (take (Z.to_nat n) (drop (Z.to_nat i) l)) else None.

Definition asplice {A} (l : list A) (i : Z) (bs : list A) : option (list A) :=
  if (0 <=? i) && (i + Z.of_nat (length bs) <=? Z.of_nat (length l))
  then Some (take (Z.to_nat i) l ++ bs ++ drop (Z.to_nat i + length bs) l) else None.

(** [None] is an access out of range. *)
Definition must {S A} (o : option A) : M S A := λ s,
  match o with Some a => Some (a, s) | None => None end.

(** The value of an [int] expression: overflow is undefined behaviour. *)
Definition int {S} (z : Z) : M S Z :=
  if (- 2 ^ 31 <=? z) && (z <? 2 ^ 31) then mret z else ub.

(** The same for a [long] of 64 bits. *)
Definition long {S} (z : Z) : M S Z :=
  if (- 2 ^ 63 <=? z) && (z <? 2 ^ 63) then mret z else ub.

(** A [for] loop over the values of [l]: the body maps the loop-carried value
    to [inl] of the next one, or to [inr] of the last one ([break]). *)
Fixpoint mloop {S A} (l : list Z) (body : Z → A → M S (A + A)) (a : A) : M S A :=
  match l with
  | [] => mret a
  | i :: l =>
      r ← body i a;
      match r with inl a => mloop l body a | inr a => mret a end
  end.

(** A [for] loop without [break] and without a loop-carried value. *)
Fixpoint mfor {S} (l : list Z) (body : Z → M S unit) : M S unit :=
  match l with
  | [] => mret tt
  | i :: l => body i;; mfor l body
  end.

(** Sequencing of operations that may call [exit], which is the result [None]. *)
Definition on_exit {S A B} (m : M S (option A)) (k : A → M S (option B)) : M S (option B) :=
  m ≫= λ r, match r with Some a => k a | None => mret None end.

Notation "x ⇐ m ; k" := (on_exit m (λ x, k))
  (at level 20, m at level 100, k at level 200, only parsing).

(** [while] loops: the body maps the loop-carried value to [inl] of the next
    one, or to [inr] of the result; [ewhile] when it may call [exit]. *)
Fixpoint mwhile {S A B} (fuel : nat) (body : A → M S (A + B)) (a : A) : M S B :=
  match fuel with
  | O => ub
  | Datatypes.S fuel =>
      r ← body a;
      match r with inl a => mwhile fuel body a | inr b => mret b end
  end.

Fixpoint ewhile {S A B} (fuel : nat) (body : A → M S (option (A + B))) (a : A) : M S (option B) :=
  match fuel with
  | O => ub
  | Datatypes.S fuel =>
      r ⇐ body a;
      match r with inl a => ewhile fuel body a | inr b => mret (Some b) end
  end.

(** [0, 1, ..., n - 1] *)
Definition upto (n : Z) : list Z := seqZ 0 n.

Lemma aget_lookup {A} (l : list A) i : 0 <= i → aget l i = l !! Z.to_nat i.
Proof. intros. unfold aget. by destruct (Z.leb_spec 0 i); [|lia]. Qed.

Lemma aget_in {A} (l : list A) i :
  0 <= i < Z.of_nat (length l) → ∃ x, aget l i = Some x ∧ l !! Z.to_nat i = Some x.
Proof.
  intros. rewrite aget_lookup by lia.
  destruct (lookup_lt_is_Some_2 l (Z.to_nat i)) as [x Hx]; [lia|]. eauto.
Qed.

Lemma aset_in {A} (l : list A) i x :
  0 <= i < Z.of_nat (length l) → aset l i x = Some (<[Z.to_nat i := x]> l).
Proof.
  intros. unfold aset. destruct (Z.leb_spec 0 i); [|lia].
  by destruct (Z.ltb_spec i (Z.of_nat (length l))); [|lia].
Qed.

Lemma aslice_in {A} (l : list A) i n :
  0 <= i → 0 <= n → i + n <= Z.of_nat (length l) →
  aslice l i n = Some (take (Z.to_nat n) (drop (Z.to_nat i) l)).
Proof.
  intros. unfold aslice. destruct (Z.leb_spec 0 i), (Z.leb_spec 0 n); try lia. simpl.
  by destruct (Z.leb_spec (i + n) (Z.of_nat (length l))); [|lia].
Qed.

Lemma asplice_in {A} (l : list A) i bs :
  0 <= i → i + Z.of_nat (length bs) <= Z.of_nat (length l) →
  asplice l i bs = Some (take (Z.to_nat i) l ++ bs ++ drop (Z.to_nat i + length bs) l).
Proof.
  intros. unfold asplice. destruct (Z.leb_spec 0 i); [|lia]. simpl.
  by destruct (Z.leb_spec (i + Z.of_nat (length bs)) (Z.of_nat (length l))); [|lia].
Qed.

Lemma asplice_cons {A} (l : list A) i b bs :
  0 <= i → i + Z.of_nat (length (b :: bs)) <= Z.of_nat (length l) →
  asplice l i (b :: bs) = (l ← aset l i b; asplice l (i + 1) bs).
Proof.
  intros Hi Hl. simpl in Hl. rewrite aset_in by lia. simpl.
  rewrite !asplice_in by (rewrite ?length_insert; simpl; lia). f_equal.
  replace (Z.to_nat (i + 1)) with (S (Z.to_nat i)) by lia.
  erewrite take_S_r; [|apply list_lookup_insert_eq; lia]. rewrite take_insert_ge by lia.
  rewrite drop_insert_lt by lia. rewrite <-app_assoc. simpl. by rewrite Nat.add_succ_r.
Qed.

Lemma asplice_nil {A} (l : list A) i : 0 <= i <= Z.of_nat (length l) → asplice l i [] = Some l.
Proof.
  intros Hi. rewrite asplice_in by (simpl; lia). simpl. by rewrite Nat.add_0_r, take_drop.
Qed.

Lemma wp_must {S A} (o : option A) a (Q : A → S → Prop) s : o = Some a → Q a s → wp (must o) Q s.
Proof. by intros ->. Qed.

Lemma wp_some {S A} (a : A) (Q : A → S → Prop) s : Q a s → wp (must (Some a)) Q s.
Proof. done. Qed.

Lemma wp_int {S} z (Q : Z → S → Prop) s : - 2 ^ 31 <= z < 2 ^ 31 → Q z s → wp (int z) Q s.
Proof. intros Hz HQ. unfold int. apply wp_if; intros Hi; [done|lia]. Qed.

Lemma wp_long {S} z (Q : Z → S → Prop) s : - 2 ^ 63 <= z < 2 ^ 63 → Q z s → wp (long z) Q s.
Proof. intros Hz HQ. unfold long. apply wp_if; intros Hi; [done|lia]. Qed.

Lemma wp_on_exit {S A B} (m : M S (option A)) (k : A → M S (option B)) (Q : option B → S → Prop) s :
  wp m (λ r s', match r with Some a => wp (k a) Q s' | None => Q None s' end) s → wp (on_exit m k) Q s.
Proof.
  intros H. apply wp_bind. eapply wp_mono; [exact H|]. intros [a|] s' Hs; [done|]. by apply wp_ret.
Qed.

(** A loop with the invariant [P] and the measure [f]. *)
Lemma wp_mwhile {S A B} (P : A → S → Prop) (f : A → S → nat) fuel (body : A → M S (A + B))
    (Q : B → S → Prop) a s :
  P a s → (f a s < fuel)%nat →
  (∀ a s, P a s → wp (body a) (λ r s', match r with
     | inl a' => P a' s' ∧ (f a' s' < f a s)%nat
     | inr b => Q b s' end) s) →
  wp (mwhile fuel body a) Q s.
Proof.
  intros HP Hf Hb. revert a s HP Hf. induction fuel as [|fuel IH]; intros a s HP Hf; [lia|].
  simpl. apply wp_bind. eapply wp_mono; [by apply Hb|]. intros [a'|b] s' HQ; [|by apply wp_ret].
  destruct HQ as [HP' Hf']. apply IH; [done|lia].
Qed.

Lemma wp_ewhile {S A B} (P : A → S → Prop) (f : A → S → nat) fuel (body : A → M S (option (A + B)))
    (Q : option B → S → Prop) a s :
  P a s → (f a s < fuel)%nat →
  (∀ a s, P a s → wp (body a) (λ r s', match r with
     | Some (inl a') => P a' s' ∧ (f a' s' < f a s)%nat
     | Some (inr b) => Q (Some b) s'
     | None => Q None s' end) s) →
  wp (ewhile fuel body a) Q s.
Proof.
  intros HP Hf Hb. revert a s HP Hf. induction fuel as [|fuel IH]; intros a s HP Hf; [lia|].
  simpl. apply wp_on_exit. eapply wp_mono; [by apply Hb|]. intros [[a'|b]|] s' HQ; [|by apply wp_ret|done].
  destruct HQ as [HP' Hf']. apply IH; [done|lia].
Qed.

Lemma wp_mfor {S} (l : list Z) (body : Z → M S unit) (P : S → Prop) (Q : unit → S → Prop) s :
  P s → (∀ i s, i ∈ l → P s → wp (body i) (λ _, P) s) → (∀ s, P s → Q tt s) → wp (mfor l body) Q s.
Proof.
  revert s. induction l as [|i l IH]; intros s HP Hb HQ; simpl; [apply wp_ret, HQ, HP|].
  apply wp_bind. eapply wp_mono; [apply Hb; [apply list_elem_of_here|done]|]. intros [] s' HP'.
  apply IH; [done| |done]. intros j s2 Hj. by apply Hb, list_elem_of_further.
Qed.

Lemma wp_mloop {S A} (l : list Z) (body : Z → A → M S (A + A)) (P : A → S → Prop)
    (Q : A → S → Prop) a s :
  P a s →
  (∀ i a s, i ∈ l → P a s → wp (body i a) (λ r s', match r with inl a => P a s' | inr a => Q a s' end) s) →
  (∀ a s, P a s → Q a s) → wp (mloop l body a) Q s.
Proof.
  revert a s. induction l as [|i l IH]; intros a s HP Hb HQ; simpl; [apply wp_ret, HQ, HP|].
  apply wp_bind. eapply wp_mono; [apply Hb; [apply list_elem_of_here|done]|]. intros [a'|a'] s' HP'; [|by apply wp_ret].
  apply IH; [done| |done]. intros j a2 s2 Hj. by apply Hb, list_elem_of_further.
Qed.

(** A loop whose body keeps [P], whether it goes on or breaks. *)
Lemma wp_mloop_inv {S A} (l : list Z) (body : Z → A → M S (A + A)) (P : A → S → Prop)
    (Q : A → S → Prop) a s :
  P a s →
  (∀ i a s, i ∈ l → P a s → wp (body i a) (λ r s', match r with inl a => P a s' | inr a => P a s' end) s) →
  (∀ a s, P a s → Q a s) → wp (mloop l body a) Q s.
Proof. intros HP Hb HQ. eapply wp_mono; [|exact HQ]. by apply (wp_mloop _ _ P). Qed.

Lemma upto_S n : 0 <= n → upto (n + 1) = upto n ++ [n].
Proof. intros. unfold upto. rewrite seqZ_app by lia. done. Qed.

(** A [for] loop from 0 to [n]: [P i a] holds before the turn [i]. *)
Lemma wp_mloop_upto {S A} n (body : Z → A → M S (A + A)) (P : Z → A → S → Prop)
    (Q : A → S → Prop) a s :
  0 <= n → P 0 a s →
  (∀ i a s, 0 <= i < n → P i a s →
    wp (body i a) (λ r s', match r with inl a => P (i + 1) a s' | inr a => Q a s' end) s) →
  (∀ a s, P n a s → Q a s) → wp (mloop (upto n) body a) Q s.
Proof.
  intros Hn HP Hb HQ. unfold upto. set (k := 0) in *. assert (Hk : 0 <= k) by done.
  replace n with (k + Z.of_nat (Z.to_nat n)) in HQ, Hb by lia.
  replace n with (Z.of_nat (Z.to_nat n)) by lia.
  clearbody k. generalize dependent (Z.to_nat n). intros m. clear n Hn.
  revert k a s Hk HP. induction m as [|m IH]; intros k a s Hk HP Hb HQ.
  - apply wp_ret, HQ. by replace (k + Z.of_nat 0) with k by lia.
  - rewrite seqZ_cons by lia. simpl. apply wp_bind. eapply wp_mono; [apply Hb; [lia|done]|].
    intros [a'|a'] s' HP'; [|by apply wp_ret].
    replace (Z.pred (Z.of_nat (Datatypes.S m))) with (Z.of_nat m) by lia.
    replace (Z.succ k) with (k + 1) by lia.
    apply (IH (k + 1)); [lia|done| |].
    + intros i a2 s2 Hi. apply Hb. lia.
    + intros a2 s2 H2. apply HQ. by replace (k + Z.of_nat (Datatypes.S m)) with (k + 1 + Z.of_nat m) by lia.
Qed.

Lemma mfor_mloop {S} l (body : Z → M S unit) s :
  mfor l body s = mloop l (λ i _, body i;; mret (inl tt)) tt s.
Proof.
  revert s. induction l as [|i l IH]; intros s; [done|]. simpl. unfold mbind, M_bind.
  destruct (body i s) as [[[] s']|]; simpl; [apply IH|done].
Qed.

Lemma wp_mfor_upto {S} n (body : Z → M S unit) (P : Z → S → Prop) (Q : unit → S → Prop) s :
  0 <= n → P 0 s → (∀ i s, 0 <= i < n → P i s → wp (body i) (λ _, P (i + 1)) s) →
  (∀ s, P n s → Q tt s) → wp (mfor (upto n) body) Q s.
Proof.
  intros Hn HP Hb HQ. unfold wp. rewrite mfor_mloop.
  apply (wp_mloop_upto _ _ (λ i _, P i)); [done|done| |by intros []].
  intros i [] s' Hi HP'. apply wp_bind. eapply wp_mono; [by apply Hb|]. done.
Qed.
