(* ===== verification/HostFloat.v ===== *)
(** * The [double] and [float] of the host

    Both emulators of the repository compute with the floating point of the
    machine they run on.  A [double] is a value of the Standard Library's
    executable model of IEEE 754 ([SpecFloat], 53-bit mantissa, round to
    nearest even), a [float] the same with a 24-bit mantissa; both without NaN
    payloads.  The file has the operations, the bit patterns, and the lemmas
    that results keep their mantissa and exponent in range. *)

From S2P Require Import Prelude.
From Stdlib Require Export SpecFloat.

(** ** Operations *)

Definition double : Type := spec_float.
Definition float : Type := spec_float.

Definition d_add : double → double → double := SFadd 53 1024.
Definition d_sub : double → double → double := SFsub 53 1024.
Definition d_mul : double → double → double := SFmul 53 1024.
Definition d_div : double → double → double := SFdiv 53 1024.

(** The conversions [(double)n], [(double)f] and [(float)d]. *)
Definition d_of_Z (n : Z) : double := binary_normalize 53 1024 n 0 false.

Definition d_of_f (x : float) : double :=
  match x with
  | S754_finite s m e => binary_round 53 1024 s m e
  | _ => x
  end.

Definition f_of_d (x : double) : float :=
  match x with
  | S754_finite s m e => binary_round 24 128 s m e
  | _ => x
  end.

#[global] Arguments d_add : simpl never.
#[global] Arguments d_sub : simpl never.
#[global] Arguments d_mul : simpl never.
#[global] Arguments d_div : simpl never.
#[global] Arguments d_of_Z : simpl never.

(** Truncation toward zero, and the casts to integer types: undefined when
    the truncated value does not fit. *)
Definition d_trunc (x : double) : option Z :=
  match x with
  | S754_zero _ => Some 0
  | S754_finite s m e =>
      let t := if 0 <=? e then Z.pos m * 2 ^ e else Z.pos m / 2 ^ (- e) in
      Some (if s then - t else t)
  | _ => None
  end.

Definition d_to_int (lo hi : Z) (x : double) : option Z :=
  match d_trunc x with
  | Some t => if (lo <=? t) && (t <=? hi) then Some t else None
  | None => None
  end.

Definition d_to_int64 : double → option Z := d_to_int (- 2 ^ 63) (2 ^ 63 - 1).
Definition d_to_uint32 : double → option Z := d_to_int 0 (2 ^ 32 - 1).
Definition d_to_int32 : double → option Z := d_to_int (- 2 ^ 31) (2 ^ 31 - 1).

(** ** Bit patterns *)

Definition sign_bit (s : bool) : Z := if s then 0x8000000000000000 else 0.

Definition d_bits (x : double) : Z :=
  match x with
  | S754_zero s => sign_bit s
  | S754_infinity s => sign_bit s .| 0x7ff0000000000000
  | S754_nan => 0x7ff8000000000000
  | S754_finite s m e =>
      if Z.pos m <? 2 ^ 52 then sign_bit s .| Z.pos m
      else sign_bit s .| ((e + 1075) << 52) .| (Z.pos m - 2 ^ 52)
  end.

Definition d_from_bits (b : Z) : double :=
  let s := nz (b >> 63) in
  let ex := (b >> 52) .& 0x7ff in
  let man := b .& 0xfffffffffffff in
  if ex =? 0x7ff then (if man =? 0 then S754_infinity s else S754_nan)
  else if ex =? 0 then
    match man with Z.pos m => S754_finite s m (-1074) | _ => S754_zero s end
  else
    match man + 2 ^ 52 with
    | Z.pos m => S754_finite s m (ex - 1075)
    | _ => S754_nan
    end.

Definition F32_CANON_NAN : Z := 0x7fc00000.

Definition f32_bits (x : float) : Z :=
  let sign s := if s : bool then 0x80000000 else 0 in
  match x with
  | S754_zero s => sign s
  | S754_infinity s => sign s .| 0x7f800000
  | S754_nan => F32_CANON_NAN
  | S754_finite s m e =>
      if Z.pos m <? 2 ^ 23 then sign s .| Z.pos m
      else sign s .| ((e + 150) << 23) .| (Z.pos m - 2 ^ 23)
  end.

Definition f32_val (b : Z) : float :=
  let s := nz (b >> 31) in
  let ex := (b >> 23) .& 0xff in
  let man := b .& 0x7fffff in
  if ex =? 0xff then (if man =? 0 then S754_infinity s else S754_nan)
  else if ex =? 0 then
    match man with Z.pos m => S754_finite s m (-149) | _ => S754_zero s end
  else
    match man + 2 ^ 23 with
    | Z.pos m => S754_finite s m (ex - 150)
    | _ => S754_nan
    end.

(** ** Bounds on the rounding function of the host *)

Lemma digits2_log2 p : Z.pos (digits2_pos p) = Z.log2 (Z.pos p) + 1.
Proof.
  induction p as [p IH|p IH|]; simpl digits2_pos; [..|done].
  - rewrite Pos2Z.inj_succ, IH. change (Z.pos p~1) with (2 * Z.pos p + 1).
    rewrite Z.log2_succ_double by lia. lia.
  - rewrite Pos2Z.inj_succ, IH. change (Z.pos p~0) with (2 * Z.pos p).
    rewrite Z.log2_double by lia. lia.
Qed.

Lemma Zdigits2_nonneg m : 0 <= Zdigits2 m.
Proof. destruct m; simpl; lia. Qed.

Lemma Zdigits2_lt m j : 0 <= m → 0 <= j → m < 2 ^ j ↔ Zdigits2 m <= j.
Proof.
  intros Hm Hj. destruct m as [|p|p]; [|simpl Zdigits2|lia].
  - simpl. split; [done|]. intros _. apply Z.pow_pos_nonneg; lia.
  - rewrite digits2_log2, Z.log2_lt_pow2 by lia. lia.
Qed.

Lemma shr_1_m r : 0 <= r.(shr_m) → (shr_1 r).(shr_m) = r.(shr_m) / 2.
Proof.
  destruct r as [m ? ?]; simpl. intros Hm.
  destruct m as [|[p|p|]|p]; simpl; [done|..|lia].
  - change (Z.pos p~1) with (2 * Z.pos p + 1).
    rewrite Z.add_comm, Z.mul_comm, Z.div_add; [done|lia].
  - change (Z.pos p~0) with (2 * Z.pos p). by rewrite Z.mul_comm, Z.div_mul.
  - done.
Qed.

Lemma iter_shr_m p r :
  0 <= r.(shr_m) → (iter_pos shr_1 p r).(shr_m) = r.(shr_m) / 2 ^ Z.pos p.
Proof.
  revert r. induction p as [p IH|p IH|]; intros r Hr; simpl iter_pos.
  - assert (0 <= (shr_1 r).(shr_m)) by (rewrite shr_1_m by done; apply Z.div_pos; lia).
    rewrite !IH, shr_1_m; [|done..|rewrite IH by done; apply Z.div_pos; lia].
    rewrite !Z.div_div by lia. f_equal.
    rewrite (Pos2Z.inj_xI p), <-!Z.pow_add_r by lia.
    change 2 with (2 ^ 1) at 1. rewrite <-Z.pow_add_r by lia. f_equal. lia.
  - rewrite !IH; [|done|rewrite IH by done; apply Z.div_pos; lia].
    rewrite Z.div_div, <-Z.pow_add_r by lia. do 2 f_equal. lia.
  - by rewrite shr_1_m.
Qed.

Section Rounding.
Context (prec emax : Z) (Hprec : 0 < prec).

Lemma shr_record_m m l : (shr_record_of_loc m l).(shr_m) = m.
Proof. by destruct l as [|[]]. Qed.

(** What [shr_fexp] does to a non-negative mantissa. *)
Lemma shr_fexp_spec m e l :
  0 <= m →
  let r := shr_fexp prec emax m e l in
  let n := Z.max 0 (fexp prec emax (Zdigits2 m + e) - e) in
  r.1.(shr_m) = m / 2 ^ n ∧ r.2 = e + n.
Proof.
  intros Hm. simpl. unfold shr_fexp, shr.
  set (d := fexp prec emax (Zdigits2 m + e) - e).
  destruct d as [|p|p] eqn:Hd; simpl fst; simpl snd; rewrite ?shr_record_m.
  - by rewrite Z.div_1_r, Z.add_0_r.
  - by rewrite iter_shr_m, shr_record_m by (by rewrite shr_record_m).
  - by rewrite Z.div_1_r, Z.add_0_r.
Qed.

Lemma shr_fexp_range m e l :
  0 <= m → let r := shr_fexp prec emax m e l in
  0 <= r.1.(shr_m) < 2 ^ prec ∧ emin prec emax <= r.2.
Proof.
  intros Hm. destruct (shr_fexp_spec m e l Hm) as [H1 H2]. simpl. rewrite H1, H2.
  pose proof (Zdigits2_nonneg m). clear H1 H2.
  set (n := Z.max 0 _).
  assert (0 <= n ∧ Zdigits2 m <= prec + n ∧ emin prec emax <= e + n) as (Hn & Hd & He).
  { unfold n, fexp. lia. }
  split; [|done]. split; [apply Z.div_pos; lia|].
  apply Z.div_lt_upper_bound; [lia|]. rewrite <-Z.pow_add_r, Zdigits2_lt by lia. lia.
Qed.

Lemma shr_fexp_digits m e l k :
  0 <= m → Zdigits2 m + e <= k → emin prec emax <= k → e <= k →
  let r := shr_fexp prec emax m e l in
  0 <= k - r.2 ∧ 0 <= r.1.(shr_m) < 2 ^ (k - r.2).
Proof.
  intros Hm Hk Hmin He. destruct (shr_fexp_spec m e l Hm) as [H1 H2]. simpl. rewrite H1, H2.
  pose proof (Zdigits2_nonneg m). clear H1 H2. set (n := Z.max 0 _).
  assert (0 <= n ∧ e + n <= k) as (Hn & Hk') by (unfold n, fexp; lia).
  split; [lia|]. split; [apply Z.div_pos; lia|].
  apply Z.div_lt_upper_bound; [lia|]. rewrite <-Z.pow_add_r, Zdigits2_lt by lia. lia.
Qed.

Lemma round_nearest_even_bound m l : 0 <= m → 0 <= round_nearest_even m l <= m + 1.
Proof. intros. destruct l as [|[]]; simpl; [lia| |lia..]. case_match; lia. Qed.

(** A mantissa within [prec] bits and an exponent in range, or a special
    value that is not a NaN. *)
Definition okf (x : spec_float) : Prop :=
  match x with
  | S754_nan => False
  | S754_finite _ m e => Z.pos m < 2 ^ prec ∧ emin prec emax <= e <= emax - prec
  | _ => True
  end.

Lemma binary_round_aux_ok s m e l : 0 <= m → okf (binary_round_aux prec emax s m e l).
Proof.
  intros Hm. unfold binary_round_aux.
  destruct (shr_fexp prec emax m e l) as [r1 e1] eqn:E1.
  pose proof (shr_fexp_range m e l Hm) as H1. rewrite E1 in H1. simpl in H1.
  pose proof (round_nearest_even_bound r1.(shr_m) (loc_of_shr_record r1)).
  set (m2 := round_nearest_even _ _) in *.
  pose proof (shr_fexp_range m2 e1 loc_Exact ltac:(lia)) as H2.
  destruct (shr_fexp prec emax m2 e1 loc_Exact) as [r2 e2]. simpl in H2.
  destruct (shr_m r2) as [|p|p] eqn:E2; [done| |lia].
  case_match; simpl; [|done]. split; lia.
Qed.

(** Zero or finite, of magnitude below [2 ^ k]. *)
Definition below (k : Z) (x : spec_float) : Prop :=
  match x with
  | S754_zero _ => True
  | S754_finite _ m e => Zdigits2 (Z.pos m) + e <= k
  | _ => False
  end.

Lemma below_mono k k' x : k <= k' → below k x → below k' x.
Proof. destruct x; simpl; intros; try done. lia. Qed.

Lemma binary_round_aux_below s m e l k :
  0 <= m → Zdigits2 m + e <= k → emin prec emax <= k → e <= k →
  k + 1 <= emax - prec →
  below (k + 1) (binary_round_aux prec emax s m e l).
Proof.
  intros Hm Hk Hmin He Hmax. unfold binary_round_aux.
  destruct (shr_fexp prec emax m e l) as [r1 e1] eqn:E1.
  pose proof (shr_fexp_digits m e l k Hm Hk Hmin He) as H1. rewrite E1 in H1. simpl in H1.
  pose proof (round_nearest_even_bound r1.(shr_m) (loc_of_shr_record r1)).
  set (m2 := round_nearest_even _ _) in *.
  assert (Zdigits2 m2 + e1 <= k + 1).
  { assert (Zdigits2 m2 <= k + 1 - e1); [|lia].
    apply Zdigits2_lt; [lia..|].
    replace (k + 1 - e1) with ((k - e1) + 1) by lia. rewrite Z.pow_add_r by lia. lia. }
  pose proof (shr_fexp_digits m2 e1 loc_Exact (k + 1) ltac:(lia) ltac:(lia) ltac:(lia)
                ltac:(lia)) as H2.
  destruct (shr_fexp prec emax m2 e1 loc_Exact) as [r2 e2]. simpl in H2.
  destruct (shr_m r2) as [|p|p] eqn:E2; [done| |lia].
  rewrite (proj2 (Z.leb_le _ _)) by lia. unfold below.
  assert (Zdigits2 (Z.pos p) <= k + 1 - e2); [|lia]. apply Zdigits2_lt; lia.
Qed.

Lemma shl_align_digits mx ex ex' :
  let r := shl_align mx ex ex' in
  Zdigits2 (Z.pos r.1) + r.2 = Zdigits2 (Z.pos mx) + ex ∧ r.2 <= Z.max ex ex' ∧ r.2 <= ex.
Proof.
  unfold shl_align. destruct (ex' - ex) as [|p|p] eqn:E; simpl fst; simpl snd; [lia..|].
  assert (Z.pos (Pos.iter xO mx p) = Z.pos mx * 2 ^ Z.pos p) as Hm.
  { rewrite <-Z.shiftl_mul_pow2 by lia. simpl Z.shiftl.
    by apply (Pos.iter_swap_gen _ _ Z.pos). }
  assert (Zdigits2 (Z.pos (Pos.iter xO mx p)) = Zdigits2 (Z.pos mx) + Z.pos p); [|lia].
  simpl Zdigits2. rewrite !digits2_log2, Hm, Z.log2_mul_pow2; lia.
Qed.

Lemma binary_round_ok s m e : okf (binary_round prec emax s m e).
Proof. unfold binary_round. case_match. by apply binary_round_aux_ok. Qed.

Lemma binary_round_below s m e k :
  Zdigits2 (Z.pos m) + e <= k → emin prec emax <= k → k + 1 <= emax - prec →
  below (k + 1) (binary_round prec emax s m e).
Proof.
  intros Hk Hmin Hmax. unfold binary_round.
  pose proof (shl_align_digits m e (fexp prec emax (Z.pos (digits2_pos m) + e))) as Hs.
  destruct (shl_align _ _ _) as [mz ez]. simpl in Hs. simpl Zdigits2 in *.
  apply binary_round_aux_below; simpl Zdigits2; lia.
Qed.

Lemma binary_normalize_ok m e s : okf (binary_normalize prec emax m e s).
Proof. destruct m; simpl; [done|apply binary_round_ok..]. Qed.

Lemma binary_normalize_below m e s k :
  Zdigits2 m + e <= k → emin prec emax <= k → k + 1 <= emax - prec →
  below (k + 1) (binary_normalize prec emax m e s).
Proof. intros. destruct m; simpl; [done|by apply binary_round_below..]. Qed.
End Rounding.

(** ** The operations on [double] *)

Abbreviation okd := (okf 53 1024).

Lemma Zdigits2_abs_lt m j : 0 <= j → Z.abs m < 2 ^ j ↔ Zdigits2 m <= j.
Proof.
  intros Hj. rewrite (Zdigits2_lt (Z.abs m)) by lia. by destruct m.
Qed.

Definition finite_nz (x : double) : Prop :=
  match x with S754_finite _ m e => Z.pos m < 2 ^ 53 | _ => False end.

Lemma d_mul_ok x y : okd x → finite_nz y → okd (d_mul x y).
Proof. unfold d_mul. destruct x, y; simpl; try done. intros. apply binary_round_aux_ok; lia. Qed.

Lemma d_opp_ok x : okd x → okd (SFopp x).
Proof. by destruct x. Qed.

Lemma d_add_ok k x y : okd x → below k y → okd y → okd (d_add x y).
Proof.
  unfold d_add. destruct x, y; simpl; try done; intros; [by repeat case_match..|].
  by apply binary_normalize_ok.
Qed.

Lemma d_sub_ok k x y : okd x → below k y → okd y → okd (d_sub x y).
Proof.
  unfold d_sub. destruct x, y; simpl; try done; intros; [by repeat case_match..|].
  by apply binary_normalize_ok.
Qed.

Lemma shl_align_lt m e ez k :
  Zdigits2 (Z.pos m) + e <= k → ez <= e → ez <= k →
  Z.pos (shl_align m e ez).1 < 2 ^ (k - ez).
Proof.
  intros Hk Hez Hk'. pose proof (shl_align_digits m e ez) as (Hd & _ & He). simpl in Hd, He.
  apply Zdigits2_lt; [lia..|].
  assert ((shl_align m e ez).2 = ez).
  { unfold shl_align. destruct (ez - e) eqn:E; simpl; lia. }
  simpl Zdigits2 in *. lia.
Qed.

(** Addition and subtraction of bounded values are bounded. *)
Section Sums.
Context (k : Z) (Hk : 0 <= k <= 900).

Lemma aligned_sum s1 m1 e1 s2 m2 e2 (op : Z → Z → Z) :
  (∀ a b, Z.abs (op a b) <= Z.abs a + Z.abs b) →
  Zdigits2 (Z.pos m1) + e1 <= k → Zdigits2 (Z.pos m2) + e2 <= k →
  let ez := Z.min e1 e2 in
  below (k + 2) (binary_normalize 53 1024
    (op (cond_Zopp s1 (Z.pos (shl_align m1 e1 ez).1))
        (cond_Zopp s2 (Z.pos (shl_align m2 e2 ez).1))) ez false).
Proof.
  intros Hop H1 H2 ez. replace (k + 2) with (k + 1 + 1) by lia.
  simpl Zdigits2 in H1, H2.
  assert (ez <= k) by lia.
  pose proof (shl_align_lt m1 e1 ez k ltac:(simpl Zdigits2; lia) ltac:(lia) ltac:(lia)).
  pose proof (shl_align_lt m2 e2 ez k ltac:(simpl Zdigits2; lia) ltac:(lia) ltac:(lia)).
  apply binary_normalize_below; [lia| |unfold emin; lia..].
  enough (Zdigits2 (op (cond_Zopp s1 (Z.pos (shl_align m1 e1 ez).1))
        (cond_Zopp s2 (Z.pos (shl_align m2 e2 ez).1))) <= k + 1 - ez) by lia.
  apply Zdigits2_abs_lt; [lia|].
  eapply Z.le_lt_trans; [apply Hop|].
  replace (k + 1 - ez) with (1 + (k - ez)) by lia.
  rewrite Z.pow_add_r by lia. unfold cond_Zopp. destruct s1, s2; lia.
Qed.

Lemma d_add_below x y : below k x → below k y → below (k + 2) (d_add x y).
Proof.
  intros Hx Hy; destruct x, y; try done; unfold d_add;
    first [apply (aligned_sum _ _ _ _ _ _ Z.add); [lia|done..]
          |apply (below_mono k); [lia|done]
          |by unfold SFadd; repeat case_match].
Qed.

Lemma d_sub_below x y : below k x → below k y → below (k + 2) (d_sub x y).
Proof.
  intros Hx Hy; destruct x, y; try done; unfold d_sub;
    first [apply (aligned_sum _ _ _ _ _ _ Z.sub); [lia|done..]
          |apply (below_mono k); [lia|done]
          |by unfold SFsub; repeat case_match].
Qed.
End Sums.

Lemma d_mul_below k1 k2 x y :
  0 <= k1 → 0 <= k2 → k1 + k2 <= 900 →
  below k1 x → below k2 y → below (k1 + k2 + 1) (d_mul x y).
Proof.
  intros Hk1 Hk2 Hk. destruct x as [| | |s1 m1 e1], y as [| | |s2 m2 e2]; try done; intros Hx Hy.
  unfold below in Hx, Hy. unfold d_mul, SFmul.
  assert (Zdigits2 (Z.pos (m1 * m2)) <= Zdigits2 (Z.pos m1) + Zdigits2 (Z.pos m2)).
  { apply Zdigits2_lt; [simpl; lia..|]. rewrite Pos2Z.inj_mul, Z.pow_add_r by (simpl; lia).
    apply Z.mul_lt_mono_nonneg; [lia| |lia|]; apply Zdigits2_lt; simpl; lia. }
  simpl Zdigits2 in *. apply binary_round_aux_below; unfold emin; simpl Zdigits2; lia.
Qed.

Lemma d_of_Z_ok n : okd (d_of_Z n).
Proof. by apply binary_normalize_ok. Qed.

Lemma d_of_Z_below n k : 0 <= k <= 900 → Z.abs n < 2 ^ k → below (k + 1) (d_of_Z n).
Proof.
  intros Hk Hn. apply binary_normalize_below; [lia| |unfold emin; lia..].
  apply Zdigits2_abs_lt in Hn; lia.
Qed.

(** ** Results as bit patterns *)

Lemma f32_bits_in x : okf 24 128 x → in32 (f32_bits x).
Proof.
  assert (∀ s : bool, in32 (if s then 0x80000000 else 0)) as Hs.
  { intros []; by vm_compute. }
  destruct x as [s|s| |s m e]; simpl okf; intros Hx; [apply Hs| |by vm_compute|].
  - apply inw_lor; [apply Hs|by vm_compute].
  - destruct Hx as [Hm He]. unfold emin in He. unfold f32_bits.
    destruct (Z.ltb_spec (Z.pos m) (2 ^ 23)).
    + apply inw_lor; [apply Hs|unfold inw; lia].
    + apply inw_lor; [apply inw_lor; [apply Hs|]|unfold inw; lia].
      apply inw_shiftl; [lia|]. unfold inw. lia.
Qed.

Lemma f_of_d_ok x : okd x → okf 24 128 (f_of_d x).
Proof. destruct x; simpl; try done. intros _. by apply binary_round_ok. Qed.


(** ** Values with NaN

    A value in range, or a NaN; what the operations give on every operand. *)

Definition okn (prec emax : Z) (x : spec_float) : Prop :=
  match x with S754_nan => True | _ => okf prec emax x end.

Lemma okf_okn prec emax x : okf prec emax x → okn prec emax x.
Proof. by destruct x. Qed.

Section Total.
Context (prec emax : Z) (Hprec : 0 < prec).
Abbreviation okp := (okn prec emax).

Lemma SFadd_okn x y : okp x → okp y → okp (SFadd prec emax x y).
Proof.
  destruct x, y; simpl; intros; try done; [by repeat case_match..|].
  by apply okf_okn, binary_normalize_ok.
Qed.

Lemma SFsub_okn x y : okp x → okp y → okp (SFsub prec emax x y).
Proof.
  destruct x, y; simpl; intros; try done; [by repeat case_match..|].
  by apply okf_okn, binary_normalize_ok.
Qed.

Lemma SFmul_okn x y : okp x → okp y → okp (SFmul prec emax x y).
Proof. destruct x, y; simpl; intros; try done. by apply okf_okn, binary_round_aux_ok. Qed.

Lemma SFdiv_okn x y : okp x → okp y → okp (SFdiv prec emax x y).
Proof.
  destruct x as [| | |s1 m1 e1], y as [| | |s2 m2 e2]; simpl; intros; try done.
  unfold SFdiv_core_binary. set (m' := match _ with Z0 => _ | Zpos _ => _ | Zneg _ => _ end).
  destruct (Z.div_eucl m' (Z.pos m2)) as [q r] eqn:E. apply okf_okn, binary_round_aux_ok; [done|].
  assert (q = m' / Z.pos m2) as -> by (unfold Z.div; by rewrite E).
  apply Z.div_pos; [|lia]. unfold m'. case_match; [lia| |lia].
  rewrite Z.shiftl_mul_pow2 by lia. lia.
Qed.

Lemma SFsqrt_okn x : okp x → okp (SFsqrt prec emax x).
Proof.
  destruct x as [|[]| |[] m e]; simpl; intros; try done. unfold SFsqrt_core_binary.
  set (m' := match _ with Z0 => _ | Zpos _ => _ | Zneg _ => _ end).
  destruct (Z.sqrtrem m') as [q r] eqn:E. apply okf_okn, binary_round_aux_ok; [done|].
  pose proof (Z.sqrtrem_sqrt m') as Hs. rewrite E in Hs. simpl in Hs. subst. apply Z.sqrt_nonneg.
Qed.
End Total.

Lemma sign_bit_in s : in64 (sign_bit s).
Proof. destruct s; by vm_compute. Qed.

Lemma d_bits_in x : okn 53 1024 x → in64 (d_bits x).
Proof.
  pose proof sign_bit_in as Hs.
  destruct x as [s|s| |s m e]; simpl okn; intros Hx; [apply Hs| |by vm_compute|].
  - apply inw_lor; [apply Hs|by vm_compute].
  - destruct Hx as [Hm He]. unfold emin in He. unfold d_bits.
    destruct (Z.ltb_spec (Z.pos m) (2 ^ 52)).
    + apply inw_lor; [apply Hs|unfold inw; lia].
    + apply inw_lor; [apply inw_lor; [apply Hs|]|unfold inw; lia].
      apply inw_shiftl; [lia|]. unfold inw. lia.
Qed.

Lemma d_from_bits_okn b : okn 53 1024 (d_from_bits b).
Proof.
  unfold d_from_bits. assert (inw 52 (b .& 0xfffffffffffff)) as Hm by (apply inw_land_r; by vm_compute).
  assert (inw 11 ((b >> 52) .& 0x7ff)) as He by (apply inw_land_r; by vm_compute).
  cbv zeta. set (man := b .& 0xfffffffffffff) in *. set (ex := (b >> 52) .& 0x7ff) in *.
  unfold inw in *. destruct (Z.eqb_spec ex 0x7ff); [by case_match|].
  destruct (Z.eqb_spec ex 0).
  - destruct man as [|m|m]; [done| |done]. simpl. unfold emin. lia.
  - destruct (man + 2 ^ 52) as [|m|m] eqn:E; [done| |done]. simpl. unfold emin. lia.
Qed.

Lemma d_of_f_okn x : okn 53 1024 (d_of_f x).
Proof. destruct x; simpl; try done. by apply okf_okn, binary_round_ok. Qed.

Lemma f_of_d_okn x : okn 24 128 (f_of_d x).
Proof. destruct x; simpl; try done. by apply okf_okn, binary_round_ok. Qed.
