(* ===== verification/Rv32State.v ===== *)
(** * The state of the RV32 emulator: src/rv32-emulator/demo/rv32.h

    The constants of the header, the diagnostic trace ring, the processor
    state [rv_cpu] with one assignment function per field, the table of host
    callbacks, and the invariant [wf_cpu] that every operation keeps. *)

From S2P Require Import Prelude.

(** ** Trace ring buffer *)

Inductive rv_trace_type : Type :=
  | RV_TR_NONE | RV_TR_ILLEGAL | RV_TR_FETCH_FAULT | RV_TR_LOAD_FAULT
  | RV_TR_STORE_FAULT | RV_TR_LOAD_MISALIGN | RV_TR_STORE_MISALIGN
  | RV_TR_ECALL | RV_TR_EBREAK | RV_TR_CSR | RV_TR_TRAP
  | RV_TR_DOUBLE_FAULT | RV_TR_INTERRUPT.

Definition RV_TRACE_NOTE_SIZE : nat := 48.
Definition RV_TRACE_CAPACITY : Z := 64.

(** The [note] of an event is the C string its buffer holds. *)
Record rv_trace_event : Type := mk_event {
  ev_pc : Z;
  ev_addr : Z;
  ev_insn : Z;
  ev_type : rv_trace_type;
  ev_note : string
}.

Record rv_trace : Type := mk_trace {
  events : list rv_trace_event;
  head : Z;
  total : Z
}.

Definition rv_trace_init : rv_trace :=
  mk_trace (replicate 64 (mk_event 0 0 0 RV_TR_NONE EmptyString)) 0 0.

Definition rv_trace_push (t : rv_trace) (type : rv_trace_type) (pc insn addr : Z)
    (note : option string) : rv_trace :=
  let note := match note with
              | Some n =>
                  let len := String.length n in
                  let len := if (RV_TRACE_NOTE_SIZE <=? len)%nat
                             then (RV_TRACE_NOTE_SIZE - 1)%nat else len in
                  String.substring 0 len n
              | None => EmptyString
              end in
  mk_trace (<[Z.to_nat (t.(head) .& (RV_TRACE_CAPACITY - 1)) := mk_event pc addr insn type note]>
              t.(events))
    (u32 (t.(head) + 1)) (u32 (t.(total) + 1)).

Definition rv_trace_count (t : rv_trace) : Z :=
  let n := t.(head) in if n <? RV_TRACE_CAPACITY then n else RV_TRACE_CAPACITY.

Definition rv_trace_overflowed (t : rv_trace) : bool := RV_TRACE_CAPACITY <? t.(total).

(** [None] is the NULL the C function returns past the newest event. *)
Definition rv_trace_peek (t : rv_trace) (i : Z) : option rv_trace_event :=
  let n := rv_trace_count t in
  if n <=? i then None
  else
    let start := if t.(head) <=? RV_TRACE_CAPACITY then 0 else t.(head) in
    t.(events) !! Z.to_nat (u32 (start + i) .& (RV_TRACE_CAPACITY - 1)).

Definition rv_trace_clear (t : rv_trace) : rv_trace := mk_trace t.(events) 0 0.

(** ** Constants *)

Definition RV_MSTATUS_MIE : Z := 1 << 3.
Definition RV_MSTATUS_MPIE : Z := 1 << 7.
Definition RV_MSTATUS_MPP : Z := 3 << 11.
Definition RV_MSTATUS_FS : Z := 3 << 13.

Definition RV_FFLAG_NX : Z := 1.
Definition RV_FFLAG_UF : Z := 2.
Definition RV_FFLAG_OF : Z := 4.
Definition RV_FFLAG_DZ : Z := 8.
Definition RV_FFLAG_NV : Z := 16.

Definition RV_RM_RNE : Z := 0.
Definition RV_RM_RTZ : Z := 1.
Definition RV_RM_RDN : Z := 2.
Definition RV_RM_RUP : Z := 3.
Definition RV_RM_RMM : Z := 4.
Definition RV_RM_DYN : Z := 7.

Definition RV_CAUSE_INSN_MISALIGNED : Z := 0.
Definition RV_CAUSE_INSN_ACCESS_FAULT : Z := 1.
Definition RV_CAUSE_ILLEGAL_INSN : Z := 2.
Definition RV_CAUSE_BREAKPOINT : Z := 3.
Definition RV_CAUSE_LOAD_MISALIGNED : Z := 4.
Definition RV_CAUSE_LOAD_ACCESS_FAULT : Z := 5.
Definition RV_CAUSE_STORE_MISALIGNED : Z := 6.
Definition RV_CAUSE_STORE_ACCESS_FAULT : Z := 7.
Definition RV_CAUSE_ECALL_M : Z := 11.

Definition RV_CAUSE_INTERRUPT : Z := 0x80000000.
Definition RV_IRQ_SOFT : Z := 3.
Definition RV_IRQ_TIMER : Z := 7.
Definition RV_IRQ_EXT : Z := 11.
Definition RV_MIP_MSIP : Z := 1 << RV_IRQ_SOFT.
Definition RV_MIP_MTIP : Z := 1 << RV_IRQ_TIMER.
Definition RV_MIP_MEIP : Z := 1 << RV_IRQ_EXT.

Definition RV_CSR_FFLAGS : Z := 0x001.
Definition RV_CSR_FRM : Z := 0x002.
Definition RV_CSR_FCSR : Z := 0x003.
Definition RV_CSR_CYCLE : Z := 0xC00.
Definition RV_CSR_TIME : Z := 0xC01.
Definition RV_CSR_INSTRET : Z := 0xC02.
Definition RV_CSR_CYCLEH : Z := 0xC80.
Definition RV_CSR_TIMEH : Z := 0xC81.
Definition RV_CSR_INSTRETH : Z := 0xC82.
Definition RV_CSR_MSTATUS : Z := 0x300.
Definition RV_CSR_MISA : Z := 0x301.
Definition RV_CSR_MIE : Z := 0x304.
Definition RV_CSR_MTVEC : Z := 0x305.
Definition RV_CSR_MSCRATCH : Z := 0x340.
Definition RV_CSR_MEPC : Z := 0x341.
Definition RV_CSR_MCAUSE : Z := 0x342.
Definition RV_CSR_MTVAL : Z := 0x343.
Definition RV_CSR_MIP : Z := 0x344.
Definition RV_CSR_MCYCLE : Z := 0xB00.
Definition RV_CSR_MINSTRET : Z := 0xB02.
Definition RV_CSR_MCYCLEH : Z := 0xB80.
Definition RV_CSR_MINSTRETH : Z := 0xB82.
Definition RV_CSR_MVENDORID : Z := 0xF11.
Definition RV_CSR_MARCHID : Z := 0xF12.
Definition RV_CSR_MIMPID : Z := 0xF13.
Definition RV_CSR_MHARTID : Z := 0xF14.

(** ** The processor

    The fields of [struct rv_cpu], in its order.  The [int] fields are used
    as truth values only.  The callback pointers are in the table
    [rv_callbacks] below. *)

Record rv_cpu : Type := mk_cpu {
  x : list Z;
  pc : Z;
  f : list Z;
  fcsr : Z;
  mstatus : Z;
  mtvec : Z;
  mepc : Z;
  mcause : Z;
  mtval : Z;
  mscratch : Z;
  mie : Z;
  mip : Z;
  mcycle : Z;
  minstret : Z;
  halted : bool;
  in_trap : bool;
  trap_misaligned : bool;
  waiting : bool;
  zcmp : bool;
  atomics : bool;
  res_addr : Z;
  res_valid : bool;
  bitmanip : bool;
  zcb : bool;
  cycles : Z;
  trace : rv_trace
}.

(** Assignments [cpu->field = v]. *)
Definition with_x (v : list Z) (c : rv_cpu) : rv_cpu :=
  mk_cpu v c.(pc) c.(f) c.(fcsr) c.(mstatus) c.(mtvec) c.(mepc) c.(mcause) c.(mtval)
    c.(mscratch) c.(mie) c.(mip) c.(mcycle) c.(minstret) c.(halted) c.(in_trap)
    c.(trap_misaligned) c.(waiting) c.(zcmp) c.(atomics) c.(res_addr) c.(res_valid) c.(bitmanip)
    c.(zcb) c.(cycles) c.(trace).
Definition with_pc (v : Z) (c : rv_cpu) : rv_cpu :=
  mk_cpu c.(x) v c.(f) c.(fcsr) c.(mstatus) c.(mtvec) c.(mepc) c.(mcause) c.(mtval) c.(mscratch)
    c.(mie) c.(mip) c.(mcycle) c.(minstret) c.(halted) c.(in_trap) c.(trap_misaligned)
    c.(waiting) c.(zcmp) c.(atomics) c.(res_addr) c.(res_valid) c.(bitmanip) c.(zcb) c.(cycles)
    c.(trace).
Definition with_f (v : list Z) (c : rv_cpu) : rv_cpu :=
  mk_cpu c.(x) c.(pc) v c.(fcsr) c.(mstatus) c.(mtvec) c.(mepc) c.(mcause) c.(mtval)
    c.(mscratch) c.(mie) c.(mip) c.(mcycle) c.(minstret) c.(halted) c.(in_trap)
    c.(trap_misaligned) c.(waiting) c.(zcmp) c.(atomics) c.(res_addr) c.(res_valid) c.(bitmanip)
    c.(zcb) c.(cycles) c.(trace).
Definition with_fcsr (v : Z) (c : rv_cpu) : rv_cpu :=
  mk_cpu c.(x) c.(pc) c.(f) v c.(mstatus) c.(mtvec) c.(mepc) c.(mcause) c.(mtval) c.(mscratch)
    c.(mie) c.(mip) c.(mcycle) c.(minstret) c.(halted) c.(in_trap) c.(trap_misaligned)
    c.(waiting) c.(zcmp) c.(atomics) c.(res_addr) c.(res_valid) c.(bitmanip) c.(zcb) c.(cycles)
    c.(trace).
Definition with_mstatus (v : Z) (c : rv_cpu) : rv_cpu :=
  mk_cpu c.(x) c.(pc) c.(f) c.(fcsr) v c.(mtvec) c.(mepc) c.(mcause) c.(mtval) c.(mscratch)
    c.(mie) c.(mip) c.(mcycle) c.(minstret) c.(halted) c.(in_trap) c.(trap_misaligned)
    c.(waiting) c.(zcmp) c.(atomics) c.(res_addr) c.(res_valid) c.(bitmanip) c.(zcb) c.(cycles)
    c.(trace).
Definition with_mtvec (v : Z) (c : rv_cpu) : rv_cpu :=
  mk_cpu c.(x) c.(pc) c.(f) c.(fcsr) c.(mstatus) v c.(mepc) c.(mcause) c.(mtval) c.(mscratch)
    c.(mie) c.(mip) c.(mcycle) c.(minstret) c.(halted) c.(in_trap) c.(trap_misaligned)
    c.(waiting) c.(zcmp) c.(atomics) c.(res_addr) c.(res_valid) c.(bitmanip) c.(zcb) c.(cycles)
    c.(trace).
Definition with_mepc (v : Z) (c : rv_cpu) : rv_cpu :=
  mk_cpu c.(x) c.(pc) c.(f) c.(fcsr) c.(mstatus) c.(mtvec) v c.(mcause) c.(mtval) c.(mscratch)
    c.(mie) c.(mip) c.(mcycle) c.(minstret) c.(halted) c.(in_trap) c.(trap_misaligned)
    c.(waiting) c.(zcmp) c.(atomics) c.(res_addr) c.(res_valid) c.(bitmanip) c.(zcb) c.(cycles)
    c.(trace).
Definition with_mcause (v : Z) (c : rv_cpu) : rv_cpu :=
  mk_cpu c.(x) c.(pc) c.(f) c.(fcsr) c.(mstatus) c.(mtvec) c.(mepc) v c.(mtval) c.(mscratch)
    c.(mie) c.(mip) c.(mcycle) c.(minstret) c.(halted) c.(in_trap) c.(trap_misaligned)
    c.(waiting) c.(zcmp) c.(atomics) c.(res_addr) c.(res_valid) c.(bitmanip) c.(zcb) c.(cycles)
    c.(trace).
Definition with_mtval (v : Z) (c : rv_cpu) : rv_cpu :=
  mk_cpu c.(x) c.(pc) c.(f) c.(fcsr) c.(mstatus) c.(mtvec) c.(mepc) c.(mcause) v c.(mscratch)
    c.(mie) c.(mip) c.(mcycle) c.(minstret) c.(halted) c.(in_trap) c.(trap_misaligned)
    c.(waiting) c.(zcmp) c.(atomics) c.(res_addr) c.(res_valid) c.(bitmanip) c.(zcb) c.(cycles)
    c.(trace).
Definition with_mscratch (v : Z) (c : rv_cpu) : rv_cpu :=
  mk_cpu c.(x) c.(pc) c.(f) c.(fcsr) c.(mstatus) c.(mtvec) c.(mepc) c.(mcause) c.(mtval) v
    c.(mie) c.(mip) c.(mcycle) c.(minstret) c.(halted) c.(in_trap) c.(trap_misaligned)
    c.(waiting) c.(zcmp) c.(atomics) c.(res_addr) c.(res_valid) c.(bitmanip) c.(zcb) c.(cycles)
    c.(trace).
Definition with_mie (v : Z) (c : rv_cpu) : rv_cpu :=
  mk_cpu c.(x) c.(pc) c.(f) c.(fcsr) c.(mstatus) c.(mtvec) c.(mepc) c.(mcause) c.(mtval)
    c.(mscratch) v c.(mip) c.(mcycle) c.(minstret) c.(halted) c.(in_trap) c.(trap_misaligned)
    c.(waiting) c.(zcmp) c.(atomics) c.(res_addr) c.(res_valid) c.(bitmanip) c.(zcb) c.(cycles)
    c.(trace).
Definition with_mip (v : Z) (c : rv_cpu) : rv_cpu :=
  mk_cpu c.(x) c.(pc) c.(f) c.(fcsr) c.(mstatus) c.(mtvec) c.(mepc) c.(mcause) c.(mtval)
    c.(mscratch) c.(mie) v c.(mcycle) c.(minstret) c.(halted) c.(in_trap) c.(trap_misaligned)
    c.(waiting) c.(zcmp) c.(atomics) c.(res_addr) c.(res_valid) c.(bitmanip) c.(zcb) c.(cycles)
    c.(trace).
Definition with_mcycle (v : Z) (c : rv_cpu) : rv_cpu :=
  mk_cpu c.(x) c.(pc) c.(f) c.(fcsr) c.(mstatus) c.(mtvec) c.(mepc) c.(mcause) c.(mtval)
    c.(mscratch) c.(mie) c.(mip) v c.(minstret) c.(halted) c.(in_trap) c.(trap_misaligned)
    c.(waiting) c.(zcmp) c.(atomics) c.(res_addr) c.(res_valid) c.(bitmanip) c.(zcb) c.(cycles)
    c.(trace).
Definition with_minstret (v : Z) (c : rv_cpu) : rv_cpu :=
  mk_cpu c.(x) c.(pc) c.(f) c.(fcsr) c.(mstatus) c.(mtvec) c.(mepc) c.(mcause) c.(mtval)
    c.(mscratch) c.(mie) c.(mip) c.(mcycle) v c.(halted) c.(in_trap) c.(trap_misaligned)
    c.(waiting) c.(zcmp) c.(atomics) c.(res_addr) c.(res_valid) c.(bitmanip) c.(zcb) c.(cycles)
    c.(trace).
Definition with_halted (v : bool) (c : rv_cpu) : rv_cpu :=
  mk_cpu c.(x) c.(pc) c.(f) c.(fcsr) c.(mstatus) c.(mtvec) c.(mepc) c.(mcause) c.(mtval)
    c.(mscratch) c.(mie) c.(mip) c.(mcycle) c.(minstret) v c.(in_trap) c.(trap_misaligned)
    c.(waiting) c.(zcmp) c.(atomics) c.(res_addr) c.(res_valid) c.(bitmanip) c.(zcb) c.(cycles)
    c.(trace).
Definition with_in_trap (v : bool) (c : rv_cpu) : rv_cpu :=
  mk_cpu c.(x) c.(pc) c.(f) c.(fcsr) c.(mstatus) c.(mtvec) c.(mepc) c.(mcause) c.(mtval)
    c.(mscratch) c.(mie) c.(mip) c.(mcycle) c.(minstret) c.(halted) v c.(trap_misaligned)
    c.(waiting) c.(zcmp) c.(atomics) c.(res_addr) c.(res_valid) c.(bitmanip) c.(zcb) c.(cycles)
    c.(trace).
Definition with_trap_misaligned (v : bool) (c : rv_cpu) : rv_cpu :=
  mk_cpu c.(x) c.(pc) c.(f) c.(fcsr) c.(mstatus) c.(mtvec) c.(mepc) c.(mcause) c.(mtval)
    c.(mscratch) c.(mie) c.(mip) c.(mcycle) c.(minstret) c.(halted) c.(in_trap) v c.(waiting)
    c.(zcmp) c.(atomics) c.(res_addr) c.(res_valid) c.(bitmanip) c.(zcb) c.(cycles) c.(trace).
Definition with_waiting (v : bool) (c : rv_cpu) : rv_cpu :=
  mk_cpu c.(x) c.(pc) c.(f) c.(fcsr) c.(mstatus) c.(mtvec) c.(mepc) c.(mcause) c.(mtval)
    c.(mscratch) c.(mie) c.(mip) c.(mcycle) c.(minstret) c.(halted) c.(in_trap)
    c.(trap_misaligned) v c.(zcmp) c.(atomics) c.(res_addr) c.(res_valid) c.(bitmanip) c.(zcb)
    c.(cycles) c.(trace).
Definition with_zcmp (v : bool) (c : rv_cpu) : rv_cpu :=
  mk_cpu c.(x) c.(pc) c.(f) c.(fcsr) c.(mstatus) c.(mtvec) c.(mepc) c.(mcause) c.(mtval)
    c.(mscratch) c.(mie) c.(mip) c.(mcycle) c.(minstret) c.(halted) c.(in_trap)
    c.(trap_misaligned) c.(waiting) v c.(atomics) c.(res_addr) c.(res_valid) c.(bitmanip)
    c.(zcb) c.(cycles) c.(trace).
Definition with_atomics (v : bool) (c : rv_cpu) : rv_cpu :=
  mk_cpu c.(x) c.(pc) c.(f) c.(fcsr) c.(mstatus) c.(mtvec) c.(mepc) c.(mcause) c.(mtval)
    c.(mscratch) c.(mie) c.(mip) c.(mcycle) c.(minstret) c.(halted) c.(in_trap)
    c.(trap_misaligned) c.(waiting) c.(zcmp) v c.(res_addr) c.(res_valid) c.(bitmanip) c.(zcb)
    c.(cycles) c.(trace).
Definition with_res_addr (v : Z) (c : rv_cpu) : rv_cpu :=
  mk_cpu c.(x) c.(pc) c.(f) c.(fcsr) c.(mstatus) c.(mtvec) c.(mepc) c.(mcause) c.(mtval)
    c.(mscratch) c.(mie) c.(mip) c.(mcycle) c.(minstret) c.(halted) c.(in_trap)
    c.(trap_misaligned) c.(waiting) c.(zcmp) c.(atomics) v c.(res_valid) c.(bitmanip) c.(zcb)
    c.(cycles) c.(trace).
Definition with_res_valid (v : bool) (c : rv_cpu) : rv_cpu :=
  mk_cpu c.(x) c.(pc) c.(f) c.(fcsr) c.(mstatus) c.(mtvec) c.(mepc) c.(mcause) c.(mtval)
    c.(mscratch) c.(mie) c.(mip) c.(mcycle) c.(minstret) c.(halted) c.(in_trap)
    c.(trap_misaligned) c.(waiting) c.(zcmp) c.(atomics) c.(res_addr) v c.(bitmanip) c.(zcb)
    c.(cycles) c.(trace).
Definition with_bitmanip (v : bool) (c : rv_cpu) : rv_cpu :=
  mk_cpu c.(x) c.(pc) c.(f) c.(fcsr) c.(mstatus) c.(mtvec) c.(mepc) c.(mcause) c.(mtval)
    c.(mscratch) c.(mie) c.(mip) c.(mcycle) c.(minstret) c.(halted) c.(in_trap)
    c.(trap_misaligned) c.(waiting) c.(zcmp) c.(atomics) c.(res_addr) c.(res_valid) v c.(zcb)
    c.(cycles) c.(trace).
Definition with_zcb (v : bool) (c : rv_cpu) : rv_cpu :=
  mk_cpu c.(x) c.(pc) c.(f) c.(fcsr) c.(mstatus) c.(mtvec) c.(mepc) c.(mcause) c.(mtval)
    c.(mscratch) c.(mie) c.(mip) c.(mcycle) c.(minstret) c.(halted) c.(in_trap)
    c.(trap_misaligned) c.(waiting) c.(zcmp) c.(atomics) c.(res_addr) c.(res_valid) c.(bitmanip)
    v c.(cycles) c.(trace).
Definition with_cycles (v : Z) (c : rv_cpu) : rv_cpu :=
  mk_cpu c.(x) c.(pc) c.(f) c.(fcsr) c.(mstatus) c.(mtvec) c.(mepc) c.(mcause) c.(mtval)
    c.(mscratch) c.(mie) c.(mip) c.(mcycle) c.(minstret) c.(halted) c.(in_trap)
    c.(trap_misaligned) c.(waiting) c.(zcmp) c.(atomics) c.(res_addr) c.(res_valid) c.(bitmanip)
    c.(zcb) v c.(trace).
Definition with_trace (v : rv_trace) (c : rv_cpu) : rv_cpu :=
  mk_cpu c.(x) c.(pc) c.(f) c.(fcsr) c.(mstatus) c.(mtvec) c.(mepc) c.(mcause) c.(mtval)
    c.(mscratch) c.(mie) c.(mip) c.(mcycle) c.(minstret) c.(halted) c.(in_trap)
    c.(trap_misaligned) c.(waiting) c.(zcmp) c.(atomics) c.(res_addr) c.(res_valid) c.(bitmanip)
    c.(zcb) c.(cycles) v.

(** ** Host callbacks

    [B] is the host state behind [bus_ctx] and [ecall_ctx].  A callback may
    update it, and [None] is undefined behaviour inside the callback.  A NULL
    [probe] or [ecall] pointer is the outer [None]. *)

Record rv_callbacks (B : Type) : Type := mk_callbacks {
  read8 : B → Z → option (Z * B);
  read16 : B → Z → option (Z * B);
  read32 : B → Z → option (Z * B);
  write8 : B → Z → Z → option B;
  write16 : B → Z → Z → option B;
  write32 : B → Z → Z → option B;
  probe : option (B → Z → Z → bool → bool);
  ecall : option (rv_cpu → B → option (Z * (rv_cpu * B)))
}.
Arguments mk_callbacks {B}.
Arguments read8 {B}. Arguments read16 {B}. Arguments read32 {B}.
Arguments write8 {B}. Arguments write16 {B}. Arguments write32 {B}.
Arguments probe {B}. Arguments ecall {B}.

(** The processor together with the host state, on which the interpreter
    runs. *)
Record sys (B : Type) : Type := mk_sys { cpu : rv_cpu; bus : B }.
Arguments mk_sys {B}. Arguments cpu {B}. Arguments bus {B}.

(** ** Invariant *)

Record wf_cpu (c : rv_cpu) : Prop := {
  wf_x_len : length c.(x) = 32%nat;
  wf_x : Forall in32 c.(x);
  wf_f_len : length c.(f) = 32%nat;
  wf_f : Forall in32 c.(f);
  wf_pc : in32 c.(pc);
  wf_fcsr : in8 c.(fcsr);
  wf_mstatus : in32 c.(mstatus);
  wf_mtvec : in32 c.(mtvec);
  wf_mepc : in32 c.(mepc);
  wf_mcause : in32 c.(mcause);
  wf_mtval : in32 c.(mtval);
  wf_mscratch : in32 c.(mscratch);
  wf_mie : in32 c.(mie);
  wf_mip : in32 c.(mip);
  wf_mcycle : in64 c.(mcycle);
  wf_minstret : in64 c.(minstret);
  wf_res_addr : in32 c.(res_addr);
  wf_cycles : in64 c.(cycles);
  wf_trace : length c.(trace).(events) = 64%nat;
  wf_head : in32 c.(trace).(head)
}.

(** Every assignment of an in-range value keeps the invariant. *)
Ltac wf_set := intros; match goal with H : wf_cpu _ |- _ => destruct H; constructor; simpl; auto end.

Lemma wf_with_x v c : length v = 32%nat → Forall in32 v → wf_cpu c → wf_cpu (with_x v c).
Proof. wf_set. Qed.
Lemma wf_with_pc v c : in32 v → wf_cpu c → wf_cpu (with_pc v c).
Proof. wf_set. Qed.
Lemma wf_with_f v c : length v = 32%nat → Forall in32 v → wf_cpu c → wf_cpu (with_f v c).
Proof. wf_set. Qed.
Lemma wf_with_fcsr v c : in8 v → wf_cpu c → wf_cpu (with_fcsr v c).
Proof. wf_set. Qed.
Lemma wf_with_mstatus v c : in32 v → wf_cpu c → wf_cpu (with_mstatus v c).
Proof. wf_set. Qed.
Lemma wf_with_mtvec v c : in32 v → wf_cpu c → wf_cpu (with_mtvec v c).
Proof. wf_set. Qed.
Lemma wf_with_mepc v c : in32 v → wf_cpu c → wf_cpu (with_mepc v c).
Proof. wf_set. Qed.
Lemma wf_with_mcause v c : in32 v → wf_cpu c → wf_cpu (with_mcause v c).
Proof. wf_set. Qed.
Lemma wf_with_mtval v c : in32 v → wf_cpu c → wf_cpu (with_mtval v c).
Proof. wf_set. Qed.
Lemma wf_with_mscratch v c : in32 v → wf_cpu c → wf_cpu (with_mscratch v c).
Proof. wf_set. Qed.
Lemma wf_with_mie v c : in32 v → wf_cpu c → wf_cpu (with_mie v c).
Proof. wf_set. Qed.
Lemma wf_with_mip v c : in32 v → wf_cpu c → wf_cpu (with_mip v c).
Proof. wf_set. Qed.
Lemma wf_with_mcycle v c : in64 v → wf_cpu c → wf_cpu (with_mcycle v c).
Proof. wf_set. Qed.
Lemma wf_with_minstret v c : in64 v → wf_cpu c → wf_cpu (with_minstret v c).
Proof. wf_set. Qed.
Lemma wf_with_halted v c : wf_cpu c → wf_cpu (with_halted v c).
Proof. wf_set. Qed.
Lemma wf_with_in_trap v c : wf_cpu c → wf_cpu (with_in_trap v c).
Proof. wf_set. Qed.
Lemma wf_with_trap_misaligned v c : wf_cpu c → wf_cpu (with_trap_misaligned v c).
Proof. wf_set. Qed.
Lemma wf_with_waiting v c : wf_cpu c → wf_cpu (with_waiting v c).
Proof. wf_set. Qed.
Lemma wf_with_zcmp v c : wf_cpu c → wf_cpu (with_zcmp v c).
Proof. wf_set. Qed.
Lemma wf_with_atomics v c : wf_cpu c → wf_cpu (with_atomics v c).
Proof. wf_set. Qed.
Lemma wf_with_res_addr v c : in32 v → wf_cpu c → wf_cpu (with_res_addr v c).
Proof. wf_set. Qed.
Lemma wf_with_res_valid v c : wf_cpu c → wf_cpu (with_res_valid v c).
Proof. wf_set. Qed.
Lemma wf_with_bitmanip v c : wf_cpu c → wf_cpu (with_bitmanip v c).
Proof. wf_set. Qed.
Lemma wf_with_zcb v c : wf_cpu c → wf_cpu (with_zcb v c).
Proof. wf_set. Qed.
Lemma wf_with_cycles v c : in64 v → wf_cpu c → wf_cpu (with_cycles v c).
Proof. wf_set. Qed.
Lemma wf_with_trace v c : length v.(events) = 64%nat → in32 v.(head) → wf_cpu c → wf_cpu (with_trace v c).
Proof. wf_set. Qed.

#[export] Hint Resolve
  wf_with_x wf_with_pc wf_with_f wf_with_fcsr wf_with_mstatus wf_with_mtvec wf_with_mepc
  wf_with_mcause wf_with_mtval wf_with_mscratch wf_with_mie wf_with_mip wf_with_mcycle
  wf_with_minstret wf_with_halted wf_with_in_trap wf_with_trap_misaligned wf_with_waiting
  wf_with_zcmp wf_with_atomics wf_with_res_addr wf_with_res_valid wf_with_bitmanip
  wf_with_zcb wf_with_cycles wf_with_trace : word.
#[export] Hint Resolve
  wf_x_len wf_x wf_f_len wf_f wf_pc wf_fcsr wf_mstatus wf_mtvec wf_mepc wf_mcause wf_mtval
  wf_mscratch wf_mie wf_mip wf_mcycle wf_minstret wf_res_addr wf_cycles wf_trace wf_head : word.

(** ** The trace ring against the list of the events pushed

    [trace_of t l]: the ring [t] was last cleared before the events [l] were
    pushed, oldest first. *)

Definition trace_of (t : rv_trace) (l : list rv_trace_event) : Prop :=
  t.(head) = Z.of_nat (length l) ∧ t.(total) = Z.of_nat (length l) ∧
  length t.(events) = 64%nat ∧
  ∀ k, (k < length l ≤ k + 64)%nat → t.(events) !! (k mod 64)%nat = l !! k.

Lemma land_63 z : 0 <= z → Z.to_nat (z .& (RV_TRACE_CAPACITY - 1)) = (Z.to_nat z mod 64)%nat.
Proof.
  intros Hz. change (RV_TRACE_CAPACITY - 1) with (Z.ones 6).
  rewrite Z.land_ones by lia. change (2 ^ 6) with (Z.of_nat 64).
  rewrite Z2Nat.inj_mod by lia. by rewrite Nat2Z.id.
Qed.

Lemma trace_of_clear t : length t.(events) = 64%nat → trace_of (rv_trace_clear t) [].
Proof. intros. split_and!; simpl; [done..|]. intros; lia. Qed.

Lemma trace_of_push t l type pc insn addr note :
  trace_of t l → Z.of_nat (length l) + 1 < 2 ^ 32 →
  ∃ e, trace_of (rv_trace_push t type pc insn addr note) (l ++ [e]) ∧
       e.(ev_pc) = pc ∧ e.(ev_insn) = insn ∧ e.(ev_addr) = addr ∧ e.(ev_type) = type.
Proof.
  intros (Hh & Ht & Hlen & Hk) Hb. unfold rv_trace_push.
  eexists (mk_event pc addr insn type _); split; [|done].
  split_and!; simpl.
  - rewrite u32_small, length_app; simpl; unfold inw; lia.
  - rewrite u32_small, length_app; simpl; unfold inw; lia.
  - by rewrite length_insert.
  - intros k. rewrite length_app. simpl. intros Hkl.
    rewrite land_63, Hh, Nat2Z.id by lia.
    destruct (decide (k = length l)) as [->|Hne].
    + rewrite list_lookup_insert_eq, list_lookup_middle; [done|done|].
      rewrite Hlen. apply Nat.mod_upper_bound. lia.
    + rewrite list_lookup_insert_ne, lookup_app_l; [apply Hk; lia|lia|].
      intros Heq.
      pose proof (Nat.div_mod_eq (length l) 64). pose proof (Nat.div_mod_eq k 64). lia.
Qed.

Lemma trace_of_count t l :
  trace_of t l → rv_trace_count t = Z.of_nat (Nat.min (length l) 64).
Proof.
  intros (Hh & _). unfold rv_trace_count, RV_TRACE_CAPACITY. rewrite Hh.
  case_match; lia.
Qed.

Lemma trace_of_peek t l i :
  trace_of t l → Z.of_nat (length l) + 64 < 2 ^ 32 → 0 <= i →
  rv_trace_peek t i =
    if i <? Z.of_nat (Nat.min (length l) 64)
    then l !! (length l - Nat.min (length l) 64 + Z.to_nat i)%nat else None.
Proof.
  intros Htr Hb Hi. unfold rv_trace_peek. rewrite (trace_of_count t l Htr).
  destruct Htr as (Hh & _ & Hlen & Hk).
  destruct (Z.leb_spec (Z.of_nat (Nat.min (length l) 64)) i) as [Hle|Hlt].
  { by rewrite (proj2 (Z.ltb_ge _ _)) by lia. }
  rewrite (proj2 (Z.ltb_lt _ _)) by lia.
  rewrite <-Hk by lia. rewrite Hh. unfold RV_TRACE_CAPACITY at 1.
  rewrite u32_small by (unfold inw; case_match; lia).
  rewrite land_63 by (case_match; lia). f_equal.
  destruct (Z.leb_spec (Z.of_nat (length l)) 64).
  - f_equal. lia.
  - rewrite Nat.min_r, Z2Nat.inj_add, Nat2Z.id by lia.
    replace (length l + Z.to_nat i)%nat with (length l - 64 + Z.to_nat i + 1 * 64)%nat by lia.
    by rewrite Nat.Div0.mod_add.
Qed.
