(* ===== verification/Rv32Decode.v ===== *)
(** * Instruction words: src/rv32-emulator/demo/rv32.c, decoding half

    Field extraction, the immediate decoders, the instruction builders and
    the expanders that rewrite a 16-bit encoding of the C and Zcb extensions
    as one 32-bit instruction, and the pure part of Zcmp. *)

From S2P Require Import Prelude.

(** ** Fields and opcodes *)

Definition OPCODE (i : Z) : Z := i .& 0x7f.
Definition RD (i : Z) : Z := (i >> 7) .& 0x1f.
Definition FUNCT3 (i : Z) : Z := (i >> 12) .& 0x07.
Definition RS1 (i : Z) : Z := (i >> 15) .& 0x1f.
Definition RS2 (i : Z) : Z := (i >> 20) .& 0x1f.
Definition RS3 (i : Z) : Z := (i >> 27) .& 0x1f.
Definition FUNCT7 (i : Z) : Z := (i >> 25) .& 0x7f.

Definition OP_LOAD : Z := 0x03.
Definition OP_LOAD_FP : Z := 0x07.
Definition OP_AMO : Z := 0x2f.
Definition OP_MISC_MEM : Z := 0x0f.
Definition OP_IMM : Z := 0x13.
Definition OP_AUIPC : Z := 0x17.
Definition OP_STORE : Z := 0x23.
Definition OP_STORE_FP : Z := 0x27.
Definition OP_REG : Z := 0x33.
Definition OP_LUI : Z := 0x37.
Definition OP_MADD : Z := 0x43.
Definition OP_MSUB : Z := 0x47.
Definition OP_NMSUB : Z := 0x4b.
Definition OP_NMADD : Z := 0x4f.
Definition OP_FP : Z := 0x53.
Definition OP_BRANCH : Z := 0x63.
Definition OP_JALR : Z := 0x67.
Definition OP_JAL : Z := 0x6f.
Definition OP_SYSTEM : Z := 0x73.

(** ** Immediate decoders: [int32_t] results *)

Definition imm_i (i : Z) : Z := s32 i >> 20.

Definition imm_s (i : Z) : Z := (s32 i >> 25 << 5) .| ((i >> 7) .& 0x1f).

Definition imm_b (i : Z) : Z :=
  (s32 i >> 31 << 12) .| (((i >> 25) .& 0x3f) << 5) .|
  (((i >> 8) .& 0x0f) << 1) .| (((i >> 7) .& 0x01) << 11).

Definition imm_u (i : Z) : Z := s32 (i .& 0xfffff000).

Definition imm_j (i : Z) : Z :=
  (s32 i >> 31 << 20) .| (((i >> 21) .& 0x3ff) << 1) .|
  (((i >> 20) .& 0x01) << 11) .| (((i >> 12) .& 0xff) << 12).

(** ** Instruction builders *)

Definition enc_i (imm rs1 f3 rd op : Z) : Z :=
  u32 (((imm .& 0xfff) << 20) .| (rs1 << 15) .| (f3 << 12) .| (rd << 7) .| op).

Definition enc_s (imm rs2 rs1 f3 op : Z) : Z :=
  u32 ((((imm >> 5) .& 0x7f) << 25) .| (rs2 << 20) .| (rs1 << 15) .|
       (f3 << 12) .| ((imm .& 0x1f) << 7) .| op).

Definition enc_b (imm rs2 rs1 f3 op : Z) : Z :=
  u32 ((((imm >> 12) .& 1) << 31) .| (((imm >> 5) .& 0x3f) << 25) .|
       (rs2 << 20) .| (rs1 << 15) .| (f3 << 12) .|
       (((imm >> 1) .& 0xf) << 8) .| (((imm >> 11) .& 1) << 7) .| op).

Definition enc_j (imm rd op : Z) : Z :=
  u32 ((((imm >> 20) .& 1) << 31) .| (((imm >> 1) .& 0x3ff) << 21) .|
       (((imm >> 11) .& 1) << 20) .| (((imm >> 12) .& 0xff) << 12) .|
       (rd << 7) .| op).

Definition enc_r (f7 rs2 rs1 f3 rd op : Z) : Z :=
  u32 ((f7 << 25) .| (rs2 << 20) .| (rs1 << 15) .| (f3 << 12) .| (rd << 7) .| op).

(** ** Compressed instructions *)

Definition CRS1P (c : Z) : Z := ((c >> 7) .& 7) + 8.
Definition CRS2P (c : Z) : Z := ((c >> 2) .& 7) + 8.
Definition CRD (c : Z) : Z := (c >> 7) .& 0x1f.
Definition CRS2 (c : Z) : Z := (c >> 2) .& 0x1f.

Definition rv_expand_zcb (c : Z) : Z :=
  if negb (((c >> 13) .& 7) =? 4) then 0
  else if (c .& 3) =? 0 then
    if nz (c .& 0x1000) then 0
    else
      let sel := (c >> 10) .& 3 in
      if sel =? 0 then                                            (* c.lbu *)
        let imm := ((c >> 6) .& 1) .| (((c >> 5) .& 1) << 1) in
        enc_i imm (CRS1P c) 4 (CRS2P c) OP_LOAD
      else if sel =? 1 then                              (* c.lhu and c.lh *)
        let imm := ((c >> 5) .& 1) << 1 in
        enc_i imm (CRS1P c) (if nz ((c >> 6) .& 1) then 1 else 5) (CRS2P c) OP_LOAD
      else if sel =? 2 then                                        (* c.sb *)
        let imm := ((c >> 6) .& 1) .| (((c >> 5) .& 1) << 1) in
        enc_s imm (CRS2P c) (CRS1P c) 0 OP_STORE
      else                                                         (* c.sh *)
        if nz (c .& 0x40) then 0
        else
          let imm := ((c >> 5) .& 1) << 1 in
          enc_s imm (CRS2P c) (CRS1P c) 1 OP_STORE
  else if negb ((c .& 3) =? 1) || negb (((c >> 10) .& 7) =? 7) then 0
  else if ((c >> 5) .& 3) =? 2 then                               (* c.mul *)
    enc_r 0x01 (CRS2P c) (CRS1P c) 0 (CRS1P c) OP_REG
  else if negb (((c >> 5) .& 3) =? 3) then 0
  else
    let sel := (c >> 2) .& 7 in
    if sel =? 0 then enc_i 0xff (CRS1P c) 7 (CRS1P c) OP_IMM   (* c.zext.b *)
    else if sel =? 1 then                                      (* c.sext.b *)
      enc_i ((0x30 << 5) .| 4) (CRS1P c) 1 (CRS1P c) OP_IMM
    else if sel =? 2 then                                      (* c.zext.h *)
      enc_r 0x04 0 (CRS1P c) 4 (CRS1P c) OP_REG
    else if sel =? 3 then                                      (* c.sext.h *)
      enc_i ((0x30 << 5) .| 5) (CRS1P c) 1 (CRS1P c) OP_IMM
    else if sel =? 5 then enc_i 0xfff (CRS1P c) 4 (CRS1P c) OP_IMM (* c.not *)
    else 0.

(** Quadrant 0 of [rv_expand_c]. *)
Definition expand_c_q0 (c f3 : Z) : Z :=
  if f3 =? 0 then                                            (* c.addi4spn *)
    let imm := (((c >> 7) .& 0x0f) << 6) .| (((c >> 11) .& 3) << 4) .|
               (((c >> 5) .& 1) << 3) .| (((c >> 6) .& 1) << 2) in
    if imm =? 0 then 0 else enc_i imm 2 0 (CRS2P c) OP_IMM
  else if (f3 =? 2) || (f3 =? 3) then                      (* c.lw / c.flw *)
    let imm := (((c >> 10) .& 7) << 3) .| (((c >> 6) .& 1) << 2) .|
               (((c >> 5) .& 1) << 6) in
    enc_i imm (CRS1P c) 2 (CRS2P c) (if f3 =? 2 then OP_LOAD else OP_LOAD_FP)
  else if (f3 =? 6) || (f3 =? 7) then                      (* c.sw / c.fsw *)
    let imm := (((c >> 10) .& 7) << 3) .| (((c >> 6) .& 1) << 2) .|
               (((c >> 5) .& 1) << 6) in
    enc_s imm (CRS2P c) (CRS1P c) 2 (if f3 =? 6 then OP_STORE else OP_STORE_FP)
  else 0.

(** The jump offset of c.j and c.jal, sign-extended. *)
Definition cj_imm (c : Z) : Z :=
  let imm := (((c >> 12) .& 1) << 11) .| (((c >> 11) .& 1) << 4) .|
             (((c >> 9) .& 3) << 8) .| (((c >> 8) .& 1) << 10) .|
             (((c >> 7) .& 1) << 6) .| (((c >> 6) .& 1) << 7) .|
             (((c >> 3) .& 7) << 1) .| (((c >> 2) .& 1) << 5) in
  if nz (imm .& 0x800) then imm .| 0xfffff000 else imm.

(** The six-bit immediate of c.addi, c.li and c.andi, sign-extended. *)
Definition ci_imm (c : Z) : Z :=
  ((c >> 2) .& 0x1f) .| (if nz ((c >> 12) .& 1) then 0xffffffe0 else 0).

(** Quadrant 1 of [rv_expand_c]. *)
Definition expand_c_q1 (c f3 : Z) : Z :=
  if f3 =? 0 then enc_i (ci_imm c) (CRD c) 0 (CRD c) OP_IMM      (* c.addi *)
  else if f3 =? 1 then enc_j (cj_imm c) 1 OP_JAL                  (* c.jal *)
  else if f3 =? 2 then enc_i (ci_imm c) 0 0 (CRD c) OP_IMM         (* c.li *)
  else if f3 =? 3 then
    let rd := CRD c in
    if rd =? 2 then                                          (* c.addi16sp *)
      let imm := (((c >> 12) .& 1) << 9) .| (((c >> 6) .& 1) << 4) .|
                 (((c >> 5) .& 1) << 6) .| (((c >> 3) .& 3) << 7) .|
                 (((c >> 2) .& 1) << 5) in
      if imm =? 0 then 0
      else
        let imm := if nz (imm .& 0x200) then imm .| 0xfffffc00 else imm in
        enc_i imm 2 0 2 OP_IMM
    else                                                          (* c.lui *)
      let imm := (((c >> 12) .& 1) << 17) .| (((c >> 2) .& 0x1f) << 12) in
      if imm =? 0 then 0
      else
        let imm := if nz (imm .& 0x20000) then imm .| 0xfffc0000 else imm in
        (imm .& 0xfffff000) .| (rd << 7) .| OP_LUI
  else if f3 =? 4 then
    let sel := (c >> 10) .& 3 in
    if (sel =? 0) || (sel =? 1) then                   (* c.srli / c.srai *)
      if nz (c .& 0x1000) then 0
      else
        let imm := (c >> 2) .& 0x1f in
        enc_i (imm .| (if nz ((c >> 10) .& 1) then 0x400 else 0)) (CRS1P c) 5
              (CRS1P c) OP_IMM
    else if sel =? 2 then enc_i (ci_imm c) (CRS1P c) 7 (CRS1P c) OP_IMM
    else if nz (c .& 0x1000) then 0
    else
      let op := (c >> 5) .& 3 in
      if op =? 0 then enc_r 0x20 (CRS2P c) (CRS1P c) 0 (CRS1P c) OP_REG
      else if op =? 1 then enc_r 0x00 (CRS2P c) (CRS1P c) 4 (CRS1P c) OP_REG
      else if op =? 2 then enc_r 0x00 (CRS2P c) (CRS1P c) 6 (CRS1P c) OP_REG
      else enc_r 0x00 (CRS2P c) (CRS1P c) 7 (CRS1P c) OP_REG
  else if f3 =? 5 then enc_j (cj_imm c) 0 OP_JAL                    (* c.j *)
  else                                             (* c.beqz (6), c.bnez (7) *)
    let imm := (((c >> 12) .& 1) << 8) .| (((c >> 10) .& 3) << 3) .|
               (((c >> 5) .& 3) << 6) .| (((c >> 3) .& 3) << 1) .|
               (((c >> 2) .& 1) << 5) in
    let imm := if nz (imm .& 0x100) then imm .| 0xfffffe00 else imm in
    enc_b imm 0 (CRS1P c) (if f3 =? 6 then 0 else 1) OP_BRANCH.

(** Quadrant 2 of [rv_expand_c]. *)
Definition expand_c_q2 (c f3 : Z) : Z :=
  if f3 =? 0 then                                                (* c.slli *)
    if nz (c .& 0x1000) then 0
    else enc_i ((c >> 2) .& 0x1f) (CRD c) 1 (CRD c) OP_IMM
  else if (f3 =? 2) || (f3 =? 3) then                  (* c.lwsp / c.flwsp *)
    if (f3 =? 2) && (CRD c =? 0) then 0
    else
      let imm := (((c >> 12) .& 1) << 5) .| (((c >> 4) .& 7) << 2) .|
                 (((c >> 2) .& 3) << 6) in
      enc_i imm 2 2 (CRD c) (if f3 =? 2 then OP_LOAD else OP_LOAD_FP)
  else if f3 =? 4 then
    if (c .& 0x1000) =? 0 then
      if CRS2 c =? 0 then                                          (* c.jr *)
        if CRD c =? 0 then 0 else enc_i 0 (CRD c) 0 0 OP_JALR
      else enc_r 0 (CRS2 c) 0 0 (CRD c) OP_REG                     (* c.mv *)
    else if CRS2 c =? 0 then
      if CRD c =? 0 then enc_i 1 0 0 0 OP_SYSTEM               (* c.ebreak *)
      else enc_i 0 (CRD c) 0 1 OP_JALR                           (* c.jalr *)
    else enc_r 0 (CRS2 c) (CRD c) 0 (CRD c) OP_REG                (* c.add *)
  else if (f3 =? 6) || (f3 =? 7) then                  (* c.swsp / c.fswsp *)
    let imm := (((c >> 9) .& 0xf) << 2) .| (((c >> 7) .& 3) << 6) in
    enc_s imm (CRS2 c) 2 2 (if f3 =? 6 then OP_STORE else OP_STORE_FP)
  else 0.

Definition rv_expand_c (c : Z) : Z :=
  let op := c .& 3 in
  let f3 := (c >> 13) .& 7 in
  if c =? 0 then 0
  else if op =? 0 then expand_c_q0 c f3
  else if op =? 1 then expand_c_q1 c f3
  else if op =? 2 then expand_c_q2 c f3
  else 0.

(** ** Zcmp: register lists and frame sizes *)

Definition zcmp_sreg : list Z := [8; 9; 18; 19; 20; 21; 22; 23; 24; 25; 26; 27].

Definition zcmp_regs (rlist : Z) : list Z :=
  if rlist <? 4 then []
  else
    let count := if rlist =? 15 then 12 else rlist - 4 in
    1 :: take (Z.to_nat count) zcmp_sreg.

Definition zcmp_stack_adj (rlist spimm : Z) : Z :=
  let base := if rlist <=? 7 then 16
              else if rlist <=? 11 then 32
              else if rlist <=? 14 then 48
              else 64 in
  u32 (base + spimm * 16).

Definition is_zcmp (insn : Z) : bool :=
  if negb ((insn .& 0xe003) =? 0xa002) then false
  else if ((insn >> 10) .& 7) =? 3 then true
  else ((insn >> 11) .& 3) =? 3.
