(* ===== verification/Rv32Bits.v ===== *)
(** * Zba, Zbb and Zbs: src/rv32-emulator/demo/rv32.c, bit manipulation

    The pure functions behind the bit-manipulation extensions and the two
    decoders that recognise their encodings.  [__builtin_clz],
    [__builtin_ctz] and [__builtin_popcount] are given by the loops of the
    portable branch of the same functions. *)

From S2P Require Import Prelude Rv32Decode.

Definition rotr32 (v n : Z) : Z :=
  let n := n .& 31 in
  if nz n then (v >> n) .| u32 (v << (32 - n)) else v.

Definition rotl32 (v n : Z) : Z :=
  let n := n .& 31 in
  if nz n then u32 (v << n) .| (v >> (32 - n)) else v.

(** The loop [while (!(v & 0x80000000u)) { v <<= 1; n++; }] of [clz32].  At
    most 31 iterations run for a non-zero word. *)
Fixpoint clz_loop (fuel : nat) (v n : Z) : Z :=
  match fuel with
  | O => n
  | S fuel => if nz (v .& 0x80000000) then n else clz_loop fuel (u32 (v << 1)) (n + 1)
  end.

Definition clz32 (v : Z) : Z := if v =? 0 then 32 else clz_loop 32 v 0.

(** The loop [while (!(v & 1)) { v >>= 1; n++; }] of [ctz32]. *)
Fixpoint ctz_loop (fuel : nat) (v n : Z) : Z :=
  match fuel with
  | O => n
  | S fuel => if nz (v .& 1) then n else ctz_loop fuel (v >> 1) (n + 1)
  end.

Definition ctz32 (v : Z) : Z := if v =? 0 then 32 else ctz_loop 32 v 0.

(** The loop [while (v) { v &= v - 1; n++; }] of [cpop32]: each iteration
    clears the lowest set bit, so 32 iterations are enough. *)
Fixpoint cpop_loop (fuel : nat) (v n : Z) : Z :=
  match fuel with
  | O => n
  | S fuel => if nz v then cpop_loop fuel (v .& (v - 1)) (n + 1) else n
  end.

Definition cpop32 (v : Z) : Z := cpop_loop 32 v 0.

Definition orcb32 (v : Z) : Z :=
  foldl (λ out i, if nz ((v >> i) .& 0xff) then out .| (0xff << i) else out)
    0 [0; 8; 16; 24].

Definition rev8_32 (v : Z) : Z :=
  (v >> 24) .| ((v >> 8) .& 0xff00) .| (u32 (v << 8) .& 0xff0000) .| u32 (v << 24).

(** [Some out] is the return value 1 with the result in [*out]; [None] is the
    return value 0. *)
Definition bitmanip_reg (insn f3 f7 a b : Z) : option Z :=
  let shamt := b .& 31 in
  let sa := s32 a in
  let sb := s32 b in
  if f7 =? 0x04 then
    if (f3 =? 4) && (RS2 insn =? 0) then Some (a .& 0xffff) else None (* zext.h *)
  else if f7 =? 0x05 then
    if f3 =? 4 then Some (if sa <? sb then a else b)               (* min *)
    else if f3 =? 5 then Some (if a <? b then a else b)           (* minu *)
    else if f3 =? 6 then Some (if sb <? sa then a else b)          (* max *)
    else if f3 =? 7 then Some (if b <? a then a else b)           (* maxu *)
    else None
  else if f7 =? 0x10 then
    if f3 =? 2 then Some (u32 (u32 (a << 1) + b))               (* sh1add *)
    else if f3 =? 4 then Some (u32 (u32 (a << 2) + b))          (* sh2add *)
    else if f3 =? 6 then Some (u32 (u32 (a << 3) + b))          (* sh3add *)
    else None
  else if f7 =? 0x14 then
    if f3 =? 1 then Some (a .| (1 << shamt)) else None            (* bset *)
  else if f7 =? 0x20 then
    if f3 =? 4 then Some (not32 (a .^ b))                         (* xnor *)
    else if f3 =? 6 then Some (a .| not32 b)                       (* orn *)
    else if f3 =? 7 then Some (a .& not32 b)                      (* andn *)
    else None
  else if f7 =? 0x24 then
    if f3 =? 1 then Some (a .& not32 (1 << shamt))                (* bclr *)
    else if f3 =? 5 then Some ((a >> shamt) .& 1)                 (* bext *)
    else None
  else if f7 =? 0x30 then
    if f3 =? 1 then Some (rotl32 a shamt)                          (* rol *)
    else if f3 =? 5 then Some (rotr32 a shamt)                     (* ror *)
    else None
  else if f7 =? 0x34 then
    if f3 =? 1 then Some (a .^ (1 << shamt)) else None            (* binv *)
  else None.

Definition bitmanip_imm (insn f3 f7 a : Z) : option Z :=
  let shamt := RS2 insn in
  if f7 =? 0x14 then
    if f3 =? 1 then Some (a .| (1 << shamt))                     (* bseti *)
    else if (f3 =? 5) && (shamt =? 0x07) then Some (orcb32 a)    (* orc.b *)
    else None
  else if f7 =? 0x24 then
    if f3 =? 1 then Some (a .& not32 (1 << shamt))               (* bclri *)
    else if f3 =? 5 then Some ((a >> shamt) .& 1)                (* bexti *)
    else None
  else if f7 =? 0x30 then
    if f3 =? 5 then Some (rotr32 a shamt)                         (* rori *)
    else if f3 =? 1 then
      if shamt =? 0x00 then Some (clz32 a)
      else if shamt =? 0x01 then Some (ctz32 a)
      else if shamt =? 0x02 then Some (cpop32 a)
      else if shamt =? 0x04 then Some (u32 (s8 a))              (* sext.b *)
      else if shamt =? 0x05 then Some (u32 (s16 a))             (* sext.h *)
      else None
    else None
  else if f7 =? 0x34 then
    if f3 =? 1 then Some (a .^ (1 << shamt))                     (* binvi *)
    else if (f3 =? 5) && (shamt =? 0x18) then Some (rev8_32 a)    (* rev8 *)
    else None
  else None.
