(* ===== verification/Rv32Float.v ===== *)
(** * Single-precision arithmetic: src/rv32-emulator/demo/rv32.c, F extension

    The emulator computes every single-precision result in double precision
    and rounds it with [f32_round].  [double] and [float] are those of the host
    (HostFloat), without NaN payloads, which the source never looks at.  A
    conversion of a NaN or out-of-range [double] to an integer type is
    undefined behaviour.

    The functions that take [rv_cpu *cpu] only to accrue exception flags are
    computations on [rv_cpu]. *)

From S2P Require Import Prelude HostFloat Rv32State.

(** ** Constants *)

Definition d_zero : double := S754_zero false.
Definition d_half : double := S754_finite false 4503599627370496 (-53).
Definition d_one : double := S754_finite false 4503599627370496 (-52).

(** ** Portable double-precision helpers *)

Definition d_abs (x : double) : double := SFabs x.
Definition d_sqrt (x : double) : double := SFsqrt 53 1024 x.

Definition d_is_inf (x : double) : bool :=
  (d_bits x .& 0x7fffffffffffffff) =? 0x7ff0000000000000.

Definition d_floor (x : double) : option double :=
  if SFleb (d_of_Z 4503599627370496) (d_abs x) then Some x
  else
    t ← d_to_int64 x;
    let t := d_of_Z t in
    Some (if SFltb x t then d_sub t d_one else t).

Definition d_ceil (x : double) : option double :=
  if SFleb (d_of_Z 4503599627370496) (d_abs x) then Some x
  else
    t ← d_to_int64 x;
    let t := d_of_Z t in
    Some (if SFltb t x then d_add t d_one else t).

Definition d_is_odd (x : double) : option bool :=
  if SFleb (d_of_Z 9007199254740992) (d_abs x) then Some false
  else
    t ← d_to_int64 x;
    Some (nz (t .& 1)).

(** The result and the value stored in [*e]. *)
Definition d_frexp (x : double) : double * Z :=
  let b := d_bits x in
  let ex := (b >> 52) .& 0x7ff in
  if SFeqb x d_zero || (ex =? 0x7ff) then (x, 0)
  else
    let '(b, ex, e) :=
      if ex =? 0 then
        let x := d_mul x (d_of_Z 18014398509481984) in
        let b := d_bits x in
        (b, (b >> 52) .& 0x7ff, -54)
      else (b, ex, 0) in
    (d_from_bits ((b .& 0x800fffffffffffff) .| (1022 << 52)), e + ex - 1022).

(** The loops [while (n > 1000)] and [while (n < -1000)] of [d_ldexp]; every
    iteration moves [n] by 1000 towards zero. *)
Fixpoint d_ldexp_down (fuel : nat) (x : double) (n : Z) : double * Z :=
  match fuel with
  | O => (x, n)
  | S fuel =>
      if 1000 <? n
      then d_ldexp_down fuel (d_mul x (d_from_bits ((1023 + 1000) << 52))) (n - 1000)
      else (x, n)
  end.

Fixpoint d_ldexp_up (fuel : nat) (x : double) (n : Z) : double * Z :=
  match fuel with
  | O => (x, n)
  | S fuel =>
      if n <? -1000
      then d_ldexp_up fuel (d_mul x (d_from_bits ((1023 - 1000) << 52))) (n + 1000)
      else (x, n)
  end.

Definition d_ldexp (x : double) (n : Z) : double :=
  let fuel := Z.to_nat (Z.abs n / 1000 + 1) in
  let '(x, n) := d_ldexp_down fuel x n in
  let '(x, n) := d_ldexp_up fuel x n in
  d_mul x (d_from_bits ((1023 + n) << 52)).

(** The result and the value stored in [*err]. *)
Definition two_product (x y : double) : double * double :=
  let splitter := d_of_Z 134217729 in
  let p := d_mul x y in
  let cx := d_mul splitter x in
  let cy := d_mul splitter y in
  let xh := d_sub cx (d_sub cx x) in
  let xl := d_sub x xh in
  let yh := d_sub cy (d_sub cy y) in
  let yl := d_sub y yh in
  (p, d_add (d_add (d_add (d_sub (d_mul xh yh) p) (d_mul xh yl)) (d_mul xl yh))
            (d_mul xl yl)).

Definition remainder_exact (a x y : double) : double :=
  let '(p, err) := two_product x y in
  d_sub (d_sub a p) err.

(** The result and the value stored in [*err]. *)
Definition two_sum (x y : double) : double * double :=
  let s := d_add x y in
  let bv := d_sub s x in
  (s, d_add (d_sub x (d_sub s bv)) (d_sub y bv)).

(** ** Bit patterns of single precision *)

Inductive frac_pos : Type := FRAC_ZERO | FRAC_BELOW_HALF | FRAC_HALF | FRAC_ABOVE_HALF.

Definition f32_is_nan (b : Z) : bool :=
  ((b .& 0x7f800000) =? 0x7f800000) && negb ((b .& 0x007fffff) =? 0).
Definition f32_is_snan (b : Z) : bool := f32_is_nan b && ((b .& 0x00400000) =? 0).
Definition f32_is_inf (b : Z) : bool := (b .& 0x7fffffff) =? 0x7f800000.
Definition f32_is_zero (b : Z) : bool := (b .& 0x7fffffff) =? 0.
Definition f32_sign (b : Z) : bool := nz (b >> 31).

(** ** Flags and rounding mode *)

Definition fflags_set (flags : Z) : M rv_cpu unit :=
  mmod (λ c, with_fcsr (c.(fcsr) .| (flags .& 0x1f)) c).

(** [None] is the return value -1. *)
Definition resolve_rm (c : rv_cpu) (rm : Z) : option Z :=
  let rm := if rm =? RV_RM_DYN then (c.(fcsr) >> 5) .& 7 else rm in
  if RV_RM_RMM <? rm then None else Some rm.

Definition lift_opt {S A} (o : option A) : M S A := λ s,
  match o with Some a => Some (a, s) | None => None end.

(** ** Rounding to single precision *)

Definition frac_is (a b : frac_pos) : bool :=
  match a, b with
  | FRAC_ZERO, FRAC_ZERO | FRAC_BELOW_HALF, FRAC_BELOW_HALF
  | FRAC_HALF, FRAC_HALF | FRAC_ABOVE_HALF, FRAC_ABOVE_HALF => true
  | _, _ => false
  end.

(** The classification of the discarded part, with [ip] as it is left. *)
Definition f32_frac (fr lo_mag ip : double) : double * frac_pos :=
  if SFeqb fr d_zero then
    if SFeqb lo_mag d_zero then (ip, FRAC_ZERO)
    else if SFltb d_zero lo_mag then (ip, FRAC_BELOW_HALF)
    else (d_sub ip d_one, FRAC_ABOVE_HALF)
  else if SFltb fr d_half then (ip, FRAC_BELOW_HALF)
  else if SFltb d_half fr then (ip, FRAC_ABOVE_HALF)
  else if SFltb d_zero lo_mag then (ip, FRAC_ABOVE_HALF)
  else if SFltb lo_mag d_zero then (ip, FRAC_BELOW_HALF)
  else (ip, FRAC_HALF).

(** The [switch (rm)] that decides whether to round away from zero. *)
Definition f32_round_up (rm : Z) (sign : bool) (frac : frac_pos) (ip : double) : option bool :=
  let inexact := negb (frac_is frac FRAC_ZERO) in
  if rm =? RV_RM_RNE then
    if frac_is frac FRAC_ABOVE_HALF then Some true
    else if frac_is frac FRAC_HALF then d_is_odd ip
    else Some false
  else if rm =? RV_RM_RTZ then Some false
  else if rm =? RV_RM_RDN then Some (sign && inexact)
  else if rm =? RV_RM_RUP then Some (negb sign && inexact)
  else Some (frac_is frac FRAC_ABOVE_HALF || frac_is frac FRAC_HALF).

(** The result on overflow. *)
Definition f32_overflow (rm : Z) (sign : bool) : Z :=
  if rm =? RV_RM_RTZ then (if sign then 0xff7fffff else 0x7f7fffff)
  else if rm =? RV_RM_RDN then (if sign then 0xff800000 else 0x7f7fffff)
  else if rm =? RV_RM_RUP then (if sign then 0xff7fffff else 0x7f800000)
  else (if sign then 0xff800000 else 0x7f800000).

Definition f32_round (hi lo : double) (rm : Z) (sign_of_zero : bool) : M rv_cpu Z :=
  if negb (SFeqb hi hi) then mret F32_CANON_NAN
  else if SFeqb hi d_zero && SFeqb lo d_zero then
    mret (if sign_of_zero then 0x80000000 else 0)
  else
    let '(hi, lo) := if SFeqb hi d_zero then (lo, d_zero) else (hi, lo) in
    let sign := SFltb hi d_zero in
    let a := if sign then SFopp hi else hi in
    let lo_mag := if sign then SFopp lo else lo in
    if d_is_inf a then mret (if sign then 0xff800000 else 0x7f800000)
    else
      let '(m, e) := d_frexp a in
      let e := if SFeqb m d_half && SFltb lo_mag d_zero then e - 1 else e in
      let p := if e <? -125 then 24 + (e + 125) else 24 in
      let '(p, e) := if p <=? 0 then (0, -149) else (p, e) in
      let scaled := d_ldexp a (p - e) in
      ip ← lift_opt (d_floor scaled);
      let fr := d_sub scaled ip in
      let '(ip, frac) := f32_frac fr lo_mag ip in
      let inexact := negb (frac_is frac FRAC_ZERO) in
      up ← lift_opt (f32_round_up rm sign frac ip);
      let ip := if up : bool then d_add ip d_one else ip in
      let mag := d_ldexp ip (e - p) in
      if SFleb (d_ldexp d_one 128) mag then
        fflags_set (RV_FFLAG_OF .| RV_FFLAG_NX);;
        mret (f32_overflow rm sign)
      else
        (if inexact then
           fflags_set RV_FFLAG_NX;;
           (if SFltb mag (d_ldexp d_one (-126)) then fflags_set RV_FFLAG_UF else mret tt)
         else mret tt);;
        if SFeqb mag d_zero then mret (if sign then 0x80000000 else 0)
        else mret (f32_bits (f_of_d (if sign then SFopp mag else mag))).

(** ** Arithmetic *)

(** [Some out] is the return value 1 with [*out] set. *)
Definition fp_nan2 (a b : Z) : M rv_cpu (option Z) :=
  (if f32_is_snan a || f32_is_snan b then fflags_set RV_FFLAG_NV else mret tt);;
  mret (if f32_is_nan a || f32_is_nan b then Some F32_CANON_NAN else None).

Definition fp_add (a b rm : Z) : M rv_cpu Z :=
  out ← fp_nan2 a b;
  match out with
  | Some out => mret out
  | None =>
      if f32_is_inf a || f32_is_inf b then
        if f32_is_inf a && f32_is_inf b && negb (Bool.eqb (f32_sign a) (f32_sign b)) then
          fflags_set RV_FFLAG_NV;; mret F32_CANON_NAN
        else mret (if f32_is_inf a then a else b)
      else if f32_is_zero a && f32_is_zero b then
        if Bool.eqb (f32_sign a) (f32_sign b) then mret a
        else mret (if rm =? RV_RM_RDN then 0x80000000 else 0)
      else
        let '(hi, lo) := two_sum (d_of_f (f32_val a)) (d_of_f (f32_val b)) in
        f32_round hi lo rm (rm =? RV_RM_RDN)
  end.

Definition fp_mul (a b rm : Z) : M rv_cpu Z :=
  out ← fp_nan2 a b;
  match out with
  | Some out => mret out
  | None =>
      let sign := xorb (f32_sign a) (f32_sign b) in
      if f32_is_inf a || f32_is_inf b then
        if f32_is_zero a || f32_is_zero b then
          fflags_set RV_FFLAG_NV;; mret F32_CANON_NAN
        else mret (if sign then 0xff800000 else 0x7f800000)
      else if f32_is_zero a || f32_is_zero b then
        mret (if sign then 0x80000000 else 0)
      else
        f32_round (d_mul (d_of_f (f32_val a)) (d_of_f (f32_val b))) d_zero rm sign
  end.

Definition fp_div (a b rm : Z) : M rv_cpu Z :=
  out ← fp_nan2 a b;
  match out with
  | Some out => mret out
  | None =>
      let sign := xorb (f32_sign a) (f32_sign b) in
      if f32_is_inf a && f32_is_inf b then
        fflags_set RV_FFLAG_NV;; mret F32_CANON_NAN
      else if f32_is_zero a && f32_is_zero b then
        fflags_set RV_FFLAG_NV;; mret F32_CANON_NAN
      else if f32_is_inf a then mret (if sign then 0xff800000 else 0x7f800000)
      else if f32_is_inf b || f32_is_zero a then mret (if sign then 0x80000000 else 0)
      else if f32_is_zero b then
        fflags_set RV_FFLAG_DZ;; mret (if sign then 0xff800000 else 0x7f800000)
      else
        let da := d_of_f (f32_val a) in
        let db := d_of_f (f32_val b) in
        let q := d_div da db in
        let r := remainder_exact da q db in
        f32_round q (if SFeqb r d_zero then d_zero
                     else if SFltb db d_zero then SFopp r else r) rm sign
  end.

Definition fp_sqrt (a rm : Z) : M rv_cpu Z :=
  (if f32_is_snan a then fflags_set RV_FFLAG_NV else mret tt);;
  if f32_is_nan a then mret F32_CANON_NAN
  else if f32_is_zero a then mret a
  else if f32_sign a then fflags_set RV_FFLAG_NV;; mret F32_CANON_NAN
  else if f32_is_inf a then mret a
  else
    let da := d_of_f (f32_val a) in
    let q := d_sqrt da in
    let r := remainder_exact da q q in
    f32_round q r rm false.

Definition fp_fma (a b c rm : Z) : M rv_cpu Z :=
  (if f32_is_snan a || f32_is_snan b || f32_is_snan c
   then fflags_set RV_FFLAG_NV else mret tt);;
  let psign := xorb (f32_sign a) (f32_sign b) in
  let invalid := (f32_is_inf a && f32_is_zero b) || (f32_is_zero a && f32_is_inf b) in
  if invalid then fflags_set RV_FFLAG_NV;; mret F32_CANON_NAN
  else if f32_is_nan a || f32_is_nan b || f32_is_nan c then mret F32_CANON_NAN
  else if f32_is_inf a || f32_is_inf b then
    if f32_is_inf c && negb (Bool.eqb (f32_sign c) psign) then
      fflags_set RV_FFLAG_NV;; mret F32_CANON_NAN
    else mret (if psign then 0xff800000 else 0x7f800000)
  else if f32_is_inf c then mret c
  else
    let p := d_mul (d_of_f (f32_val a)) (d_of_f (f32_val b)) in
    if SFeqb p d_zero && f32_is_zero c then
      if Bool.eqb psign (f32_sign c) then mret (if psign then 0x80000000 else 0)
      else mret (if rm =? RV_RM_RDN then 0x80000000 else 0)
    else
      let '(hi, err) := two_sum p (d_of_f (f32_val c)) in
      f32_round hi err rm (rm =? RV_RM_RDN).

Definition fp_minmax (a b : Z) (is_max : bool) : M rv_cpu Z :=
  (if f32_is_snan a || f32_is_snan b then fflags_set RV_FFLAG_NV else mret tt);;
  mret (
    if f32_is_nan a && f32_is_nan b then F32_CANON_NAN
    else if f32_is_nan a then b
    else if f32_is_nan b then a
    else if f32_is_zero a && f32_is_zero b then
      let sa := f32_sign a in
      if is_max then (if sa then b else a) else (if sa then a else b)
    else
      let fa := f32_val a in
      let fb := f32_val b in
      if is_max then (if SFltb fb fa then a else b)
      else (if SFltb fa fb then a else b)).

(** ** Conversions and classification *)

Definition round_integral (d : double) (rm : Z) : option double :=
  f ← d_floor d;
  let diff := d_sub d f in
  if rm =? RV_RM_RTZ then (if SFltb d d_zero then d_ceil d else Some f)
  else if rm =? RV_RM_RDN then Some f
  else if rm =? RV_RM_RUP then d_ceil d
  else if rm =? RV_RM_RMM then
    Some (if SFltb d_half diff then d_add f d_one
          else if SFltb diff d_half then f
          else if SFltb d d_zero then f else d_add f d_one)
  else
    if SFltb d_half diff then Some (d_add f d_one)
    else if SFltb diff d_half then Some f
    else odd ← d_is_odd f; Some (if odd : bool then d_add f d_one else f).

Definition fp_to_int (a : Z) (is_unsigned : bool) (rm : Z) : M rv_cpu Z :=
  if f32_is_nan a then
    fflags_set RV_FFLAG_NV;;
    mret (if is_unsigned then 0xffffffff else 0x7fffffff)
  else
    let lim_lo := if is_unsigned then d_zero else d_of_Z (-2147483648) in
    let lim_hi := if is_unsigned then d_of_Z 4294967295 else d_of_Z 2147483647 in
    if f32_is_inf a then
      fflags_set RV_FFLAG_NV;;
      mret (if f32_sign a then (if is_unsigned then 0 else 0x80000000)
            else (if is_unsigned then 0xffffffff else 0x7fffffff))
    else
      let d := d_of_f (f32_val a) in
      r ← lift_opt (round_integral d rm);
      if SFltb r lim_lo then
        fflags_set RV_FFLAG_NV;;
        mret (if is_unsigned then 0 else 0x80000000)
      else if SFltb lim_hi r then
        fflags_set RV_FFLAG_NV;;
        mret (if is_unsigned then 0xffffffff else 0x7fffffff)
      else
        (if negb (SFeqb r d) then fflags_set RV_FFLAG_NX else mret tt);;
        if is_unsigned then lift_opt (d_to_uint32 r)
        else i ← lift_opt (d_to_int32 r); mret (u32 i).

Definition fp_class (a : Z) : Z :=
  let sign := f32_sign a in
  let exp := (a >> 23) .& 0xff in
  let man := a .& 0x7fffff in
  if exp =? 0xff then
    if man =? 0 then (if sign then 1 << 0 else 1 << 7)
    else (if nz (man .& 0x400000) then 1 << 9 else 1 << 8)
  else if exp =? 0 then
    if man =? 0 then (if sign then 1 << 3 else 1 << 4)
    else (if sign then 1 << 2 else 1 << 5)
  else (if sign then 1 << 1 else 1 << 6).
