(* ===== verification/Rv32Exec.v ===== *)
(** * The interpreter: src/rv32-emulator/demo/rv32.c

    Traps, interrupts, the memory bus, CSRs, Zcmp, instruction execution and
    the public API.  Everything that can reach a register array by index or
    call a host callback is a computation on [sys B] whose [None] is
    undefined behaviour; [rv_trap] and the other functions that only assign
    fields are functions on [rv_cpu]. *)

From S2P Require Import Prelude HostFloat Rv32State Rv32Decode Rv32Bits Rv32Float.

(** ** Traps and interrupts *)

Definition push_trace (type : rv_trace_type) (pc insn addr : Z) (note : option string)
    (c : rv_cpu) : rv_cpu :=
  with_trace (rv_trace_push c.(trace) type pc insn addr note) c.

Definition rv_trap (cause tval : Z) (c : rv_cpu) : rv_cpu :=
  let is_irq := nz (cause .& RV_CAUSE_INTERRUPT) in
  if c.(in_trap) then
    let c := push_trace RV_TR_DOUBLE_FAULT c.(pc) 0 tval (Some "double fault"%string) c in
    with_halted true c
  else
    let c := with_mepc c.(pc) c in
    let c := with_mcause cause c in
    let c := with_mtval tval c in
    let c := with_res_valid false c in
    let c := with_mstatus (c.(mstatus) .& not32 RV_MSTATUS_MPIE) c in
    let c := if nz (c.(mstatus) .& RV_MSTATUS_MIE)
             then with_mstatus (c.(mstatus) .| RV_MSTATUS_MPIE) c else c in
    let c := with_mstatus (c.(mstatus) .& not32 RV_MSTATUS_MIE) c in
    let c := with_mstatus (c.(mstatus) .| RV_MSTATUS_MPP) c in
    let c := with_waiting false c in
    let base := c.(mtvec) .& not32 3 in
    let base := if ((c.(mtvec) .& 3) =? 1) && is_irq
                then u32 (base + u32 ((cause .& not32 RV_CAUSE_INTERRUPT) * 4)) else base in
    let c := with_pc base c in
    let c := with_in_trap true c in
    push_trace (if is_irq then RV_TR_INTERRUPT else RV_TR_TRAP) c.(mepc) 0 tval None c.

Definition rv_set_irq (cause : Z) (level : bool) (c : rv_cpu) : rv_cpu :=
  let bit := 1 << (cause .& 31) in
  if level then with_mip (c.(mip) .| bit) c
  else with_mip (c.(mip) .& not32 bit) c.

Definition rv_irq_pending (c : rv_cpu) : Z :=
  let ready := c.(mip) .& c.(mie) in
  if (c.(mstatus) .& RV_MSTATUS_MIE) =? 0 then 0
  else if nz (ready .& RV_MIP_MEIP) then RV_CAUSE_INTERRUPT .| RV_IRQ_EXT
  else if nz (ready .& RV_MIP_MSIP) then RV_CAUSE_INTERRUPT .| RV_IRQ_SOFT
  else if nz (ready .& RV_MIP_MTIP) then RV_CAUSE_INTERRUPT .| RV_IRQ_TIMER
  else 0.

(** ** CSR access: [None] is the return value -1 *)

Definition csr_read (c : rv_cpu) (csr : Z) : option Z :=
  if csr =? RV_CSR_FFLAGS then Some (c.(fcsr) .& 0x1f)
  else if csr =? RV_CSR_FRM then Some ((c.(fcsr) >> 5) .& 7)
  else if csr =? RV_CSR_FCSR then Some (c.(fcsr) .& 0xff)
  else if (csr =? RV_CSR_CYCLE) || (csr =? RV_CSR_MCYCLE) then Some (u32 c.(mcycle))
  else if (csr =? RV_CSR_CYCLEH) || (csr =? RV_CSR_MCYCLEH) then Some (u32 (c.(mcycle) >> 32))
  else if csr =? RV_CSR_TIME then Some (u32 c.(mcycle))
  else if csr =? RV_CSR_TIMEH then Some (u32 (c.(mcycle) >> 32))
  else if (csr =? RV_CSR_INSTRET) || (csr =? RV_CSR_MINSTRET) then Some (u32 c.(minstret))
  else if (csr =? RV_CSR_INSTRETH) || (csr =? RV_CSR_MINSTRETH)
       then Some (u32 (c.(minstret) >> 32))
  else if csr =? RV_CSR_MSTATUS then Some c.(mstatus)
  else if csr =? RV_CSR_MISA then
    Some ((1 << 30) .| (1 << 8) .| (1 << 12) .| (1 << 5) .| (1 << 2) .|
          (if c.(atomics) then 1 << 0 else 0) .| (if c.(bitmanip) then 1 << 1 else 0))
  else if csr =? RV_CSR_MIE then Some c.(mie)
  else if csr =? RV_CSR_MTVEC then Some c.(mtvec)
  else if csr =? RV_CSR_MSCRATCH then Some c.(mscratch)
  else if csr =? RV_CSR_MEPC then Some c.(mepc)
  else if csr =? RV_CSR_MCAUSE then Some c.(mcause)
  else if csr =? RV_CSR_MTVAL then Some c.(mtval)
  else if csr =? RV_CSR_MIP then Some c.(mip)
  else if (csr =? RV_CSR_MVENDORID) || (csr =? RV_CSR_MARCHID) || (csr =? RV_CSR_MIMPID) ||
          (csr =? RV_CSR_MHARTID) then Some 0
  else None.

Definition csr_write (c : rv_cpu) (csr val : Z) : option rv_cpu :=
  if csr =? RV_CSR_FFLAGS then
    Some (with_fcsr ((c.(fcsr) .& not32 0x1f) .| (val .& 0x1f)) c)
  else if csr =? RV_CSR_FRM then
    Some (with_fcsr ((c.(fcsr) .& not32 0xe0) .| ((val .& 7) << 5)) c)
  else if csr =? RV_CSR_FCSR then Some (with_fcsr (val .& 0xff) c)
  else if csr =? RV_CSR_MSTATUS then Some (with_mstatus val c)
  else if csr =? RV_CSR_MIE then Some (with_mie val c)
  else if csr =? RV_CSR_MTVEC then Some (with_mtvec val c)
  else if csr =? RV_CSR_MSCRATCH then Some (with_mscratch val c)
  else if csr =? RV_CSR_MEPC then Some (with_mepc (val .& not32 1) c)
  else if csr =? RV_CSR_MCAUSE then Some (with_mcause val c)
  else if csr =? RV_CSR_MTVAL then Some (with_mtval val c)
  else if csr =? RV_CSR_MIP then Some (with_mip val c)
  else if csr =? RV_CSR_MCYCLE then
    Some (with_mcycle ((c.(mcycle) .& 0xffffffff00000000) .| val) c)
  else if csr =? RV_CSR_MCYCLEH then
    Some (with_mcycle ((c.(mcycle) .& 0xffffffff) .| (val << 32)) c)
  else if csr =? RV_CSR_MINSTRET then
    Some (with_minstret ((c.(minstret) .& 0xffffffff00000000) .| val) c)
  else if csr =? RV_CSR_MINSTRETH then
    Some (with_minstret ((c.(minstret) .& 0xffffffff) .| (val << 32)) c)
  else if csr =? RV_CSR_MISA then Some c
  else None.

(** ** Integer arithmetic of [exec]

    The M extension and the register-register base operations, as the
    [switch (f3)] of [OP_REG] computes them. *)

Definition m_ext (f3 a b : Z) : Z :=
  let sa := s32 a in
  let sb := s32 b in
  if f3 =? 0 then u32 (a * b)                                      (* mul *)
  else if f3 =? 1 then u32 ((sa * sb) >> 32)                      (* mulh *)
  else if f3 =? 2 then u32 ((sa * b) >> 32)                     (* mulhsu *)
  else if f3 =? 3 then u32 ((a * b) >> 32)                       (* mulhu *)
  else if f3 =? 4 then                                             (* div *)
    if b =? 0 then 0xffffffff
    else if (a =? 0x80000000) && (b =? 0xffffffff) then 0x80000000
    else u32 (Z.quot sa sb)
  else if f3 =? 5 then (if b =? 0 then 0xffffffff else a / b)     (* divu *)
  else if f3 =? 6 then                                             (* rem *)
    if b =? 0 then a
    else if (a =? 0x80000000) && (b =? 0xffffffff) then 0
    else u32 (Z.rem sa sb)
  else (if b =? 0 then a else a mod b).                           (* remu *)

(** [None] is [goto zb_reg]. *)
Definition base_reg (f3 f7 a b : Z) : option Z :=
  let sa := s32 a in
  let sb := s32 b in
  if negb (f7 =? 0) && negb (f7 =? 0x20) then None
  else if f3 =? 0 then Some (if f7 =? 0x20 then u32 (a - b) else u32 (a + b))
  else if f3 =? 1 then if negb (f7 =? 0) then None else Some (u32 (a << (b .& 0x1f)))
  else if f3 =? 2 then if negb (f7 =? 0) then None else Some (Z.b2z (sa <? sb))
  else if f3 =? 3 then if negb (f7 =? 0) then None else Some (Z.b2z (a <? b))
  else if f3 =? 4 then if negb (f7 =? 0) then None else Some (a .^ b)
  else if f3 =? 5 then
    if f7 =? 0 then Some (a >> (b .& 0x1f)) else Some (u32 (sa >> (b .& 0x1f)))
  else if f3 =? 6 then if negb (f7 =? 0) then None else Some (a .| b)
  else if negb (f7 =? 0) then None else Some (a .& b).

(** The [switch (f3)] of [OP_IMM]; [None] is [goto zb_imm]. *)
Definition base_imm (f3 f7 a imm : Z) : option Z :=
  let sa := s32 a in
  let shamt := u32 imm .& 0x1f in
  if f3 =? 0 then Some (u32 (a + u32 imm))                        (* addi *)
  else if f3 =? 2 then Some (Z.b2z (sa <? imm))                   (* slti *)
  else if f3 =? 3 then Some (Z.b2z (a <? u32 imm))               (* sltiu *)
  else if f3 =? 4 then Some (a .^ u32 imm)                        (* xori *)
  else if f3 =? 6 then Some (a .| u32 imm)                         (* ori *)
  else if f3 =? 7 then Some (a .& u32 imm)                        (* andi *)
  else if f3 =? 1 then
    if negb (f7 =? 0) then None else Some (u32 (a << shamt))      (* slli *)
  else
    if f7 =? 0 then Some (a >> shamt)                             (* srli *)
    else if f7 =? 0x20 then Some (u32 (sa >> shamt))              (* srai *)
    else None.

(** The condition of a branch; [None] is the illegal [funct3]. *)
Definition branch_taken (f3 a b : Z) : option bool :=
  let sa := s32 a in
  let sb := s32 b in
  if f3 =? 0 then Some (a =? b)
  else if f3 =? 1 then Some (negb (a =? b))
  else if f3 =? 4 then Some (sa <? sb)
  else if f3 =? 5 then Some (sb <=? sa)
  else if f3 =? 6 then Some (a <? b)
  else if f3 =? 7 then Some (b <=? a)
  else None.

(** The new memory value of an AMO; [None] is the illegal [funct5]. *)
Definition amo_op (funct5 old b : Z) : option Z :=
  if funct5 =? 0x00 then Some (u32 (old + b))
  else if funct5 =? 0x01 then Some b
  else if funct5 =? 0x04 then Some (old .^ b)
  else if funct5 =? 0x08 then Some (old .| b)
  else if funct5 =? 0x0c then Some (old .& b)
  else if funct5 =? 0x10 then Some (if s32 old <? s32 b then old else b)
  else if funct5 =? 0x14 then Some (if s32 b <? s32 old then old else b)
  else if funct5 =? 0x18 then Some (if old <? b then old else b)
  else if funct5 =? 0x1c then Some (if b <? old then old else b)
  else None.

Section Interp.
Context {B : Type} (cb : rv_callbacks B).

(** ** Primitive steps *)

Definition on_cpu (g : rv_cpu → rv_cpu) : M (sys B) unit :=
  mmod (λ s, mk_sys (g s.(cpu)) s.(bus)).

Definition get_cpu : M (sys B) rv_cpu := mgets cpu.

(** [cpu->x[i]] and [cpu->f[i]]: an index outside the array is undefined. *)
Definition rd_x (i : Z) : M (sys B) Z := λ s,
  match s.(cpu).(x) !! Z.to_nat i with Some v => Some (v, s) | None => None end.

Definition wr_x (i v : Z) : M (sys B) unit := λ s,
  match s.(cpu).(x) !! Z.to_nat i with
  | Some _ => Some (tt, mk_sys (with_x (<[Z.to_nat i := v]> s.(cpu).(x)) s.(cpu)) s.(bus))
  | None => None
  end.

Definition rd_f (i : Z) : M (sys B) Z := λ s,
  match s.(cpu).(f) !! Z.to_nat i with Some v => Some (v, s) | None => None end.

Definition wr_f (i v : Z) : M (sys B) unit := λ s,
  match s.(cpu).(f) !! Z.to_nat i with
  | Some _ => Some (tt, mk_sys (with_f (<[Z.to_nat i := v]> s.(cpu).(f)) s.(cpu)) s.(bus))
  | None => None
  end.

(** A floating-point computation, which works on the processor alone. *)
Definition on_fp {A} (m : M rv_cpu A) : M (sys B) A := λ s,
  match m s.(cpu) with Some (a, c) => Some (a, mk_sys c s.(bus)) | None => None end.

Definition bus_rd (rd : B → Z → option (Z * B)) (addr : Z) : M (sys B) Z := λ s,
  match rd s.(bus) addr with Some (v, b) => Some (v, mk_sys s.(cpu) b) | None => None end.

Definition bus_wr (wr : B → Z → Z → option B) (addr val : Z) : M (sys B) unit := λ s,
  match wr s.(bus) addr val with Some b => Some (tt, mk_sys s.(cpu) b) | None => None end.

(** [cpu->probe && cpu->probe(cpu->bus_ctx, addr, size, is_write)] *)
Definition probe_rejects (addr size : Z) (is_write : bool) : M (sys B) bool :=
  mgets (λ s, match cb.(probe) with
              | Some p => p s.(bus) addr size is_write
              | None => false
              end).

(** ** Memory bus *)

(** The loop [for (i = 0; i < size; i++)] of a misaligned read. *)
Fixpoint read_bytes (n : nat) (i addr v : Z) : M (sys B) Z :=
  match n with
  | O => mret v
  | S n =>
      b ← bus_rd cb.(read8) (u32 (addr + i));
      read_bytes n (i + 1) addr (v .| u32 ((b .& 0xff) << (8 * i)))
  end.

Fixpoint write_bytes (n : nat) (i addr val : Z) : M (sys B) unit :=
  match n with
  | O => mret tt
  | S n =>
      bus_wr cb.(write8) (u32 (addr + i)) ((val >> (8 * i)) .& 0xff);;
      write_bytes n (i + 1) addr val
  end.

(** [Some v] is the return value 0 with [*out = v], [None] the return value
    -1 after a trap. *)
Definition mem_read (addr size : Z) : M (sys B) (option Z) :=
  c ← get_cpu;
  if c.(trap_misaligned) && nz (addr .& (size - 1)) then
    on_cpu (push_trace RV_TR_LOAD_MISALIGN c.(pc) 0 addr None);;
    on_cpu (rv_trap RV_CAUSE_LOAD_MISALIGNED addr);;
    mret None
  else
    rejected ← probe_rejects addr size false;
    if rejected : bool then
      on_cpu (push_trace RV_TR_LOAD_FAULT c.(pc) 0 addr None);;
      on_cpu (rv_trap RV_CAUSE_LOAD_ACCESS_FAULT addr);;
      mret None
    else if (addr .& (size - 1)) =? 0 then
      if size =? 1 then v ← bus_rd cb.(read8) addr; mret (Some (v .& 0xff))
      else if size =? 2 then v ← bus_rd cb.(read16) addr; mret (Some (v .& 0xffff))
      else v ← bus_rd cb.(read32) addr; mret (Some v)
    else v ← read_bytes (Z.to_nat size) 0 addr 0; mret (Some v).

(** [true] is the return value -1 after a trap. *)
Definition mem_write (addr size val : Z) : M (sys B) bool :=
  c ← get_cpu;
  if c.(trap_misaligned) && nz (addr .& (size - 1)) then
    on_cpu (push_trace RV_TR_STORE_MISALIGN c.(pc) 0 addr None);;
    on_cpu (rv_trap RV_CAUSE_STORE_MISALIGNED addr);;
    mret true
  else
    rejected ← probe_rejects addr size true;
    if rejected : bool then
      on_cpu (push_trace RV_TR_STORE_FAULT c.(pc) 0 addr None);;
      on_cpu (rv_trap RV_CAUSE_STORE_ACCESS_FAULT addr);;
      mret true
    else if (addr .& (size - 1)) =? 0 then
      (if size =? 1 then bus_wr cb.(write8) addr (val .& 0xff)
       else if size =? 2 then bus_wr cb.(write16) addr (val .& 0xffff)
       else bus_wr cb.(write32) addr val);;
      mret false
    else write_bytes (Z.to_nat size) 0 addr val;; mret false.

(** ** Zcmp *)

(** The store loop of cm.push: [true] when a store trapped. *)
Fixpoint push_regs (regs : list Z) (i addr : Z) : M (sys B) bool :=
  match regs with
  | [] => mret false
  | r :: regs =>
      v ← rd_x r;
      trapped ← mem_write (u32 (addr + i * 4)) 4 v;
      if trapped : bool then mret true else push_regs regs (i + 1) addr
  end.

(** The load loop of cm.pop: [true] when a load trapped. *)
Fixpoint pop_regs (regs : list Z) (i addr : Z) : M (sys B) bool :=
  match regs with
  | [] => mret false
  | r :: regs =>
      v ← mem_read (u32 (addr + i * 4)) 4;
      match v with
      | None => mret true
      | Some v => wr_x r v;; pop_regs regs (i + 1) addr
      end
  end.

(** [zcmp_sreg[r]] *)
Definition sreg (r : Z) : M (sys B) Z := lift_opt (zcmp_sreg !! Z.to_nat r).

(** [Some next] is the return value 0 with [*next], [None] the return value
    -1. *)
Definition exec_zcmp (insn next : Z) : M (sys B) (option Z) :=
  if ((insn >> 10) .& 7) =? 3 then
    let r1 := (insn >> 7) .& 7 in
    let r2 := (insn >> 2) .& 7 in
    if r1 =? r2 then mret None
    else
      let sel := (insn >> 5) .& 3 in
      if sel =? 1 then                                       (* cm.mvsa01 *)
        s1 ← sreg r1; v ← rd_x 10; wr_x s1 v;;
        s2 ← sreg r2; v ← rd_x 11; wr_x s2 v;;
        mret (Some next)
      else if sel =? 3 then                                  (* cm.mva01s *)
        s1 ← sreg r1; v ← rd_x s1; wr_x 10 v;;
        s2 ← sreg r2; v ← rd_x s2; wr_x 11 v;;
        mret (Some next)
      else mret None
  else
    let funct5 := (insn >> 8) .& 0x1f in
    let rlist := (insn >> 4) .& 0x0f in
    let spimm := (insn >> 2) .& 0x03 in
    let regs := zcmp_regs rlist in
    let n := Z.of_nat (length regs) in
    if n =? 0 then mret None
    else
      let adj := zcmp_stack_adj rlist spimm in
      if funct5 =? 0x18 then                                   (* cm.push *)
        sp ← rd_x 2;
        trapped ← push_regs regs 0 (u32 (sp - n * 4));
        if trapped : bool then mret (Some next)
        else
          sp ← rd_x 2; wr_x 2 (u32 (sp - adj));;
          mret (Some next)
      else if (funct5 =? 0x1a) || (funct5 =? 0x1c) || (funct5 =? 0x1e) then
        sp ← rd_x 2;
        trapped ← pop_regs regs 0 (u32 (sp + adj - n * 4));
        if trapped : bool then mret (Some next)
        else
          sp ← rd_x 2; wr_x 2 (u32 (sp + adj));;
          (if funct5 =? 0x1c then wr_x 10 0 else mret tt);;
          if negb (funct5 =? 0x1a) then ra ← rd_x 1; mret (Some ra)
          else mret (Some next)
      else mret None.

(** ** Instruction execution *)

Definition illegal (insn : Z) : M (sys B) unit :=
  c ← get_cpu;
  on_cpu (push_trace RV_TR_ILLEGAL c.(pc) insn 0 None);;
  on_cpu (rv_trap RV_CAUSE_ILLEGAL_INSN insn).

(** [illegal(cpu, insn); return next;] *)
Definition illegal_ret (insn next : Z) : M (sys B) Z := illegal insn;; mret next.

(** The end of [exec] that every [break] reaches. *)
Definition fin (next : Z) : M (sys B) Z := wr_x 0 0;; mret next.

(** [if (mem_read(cpu, addr, size, &val)) return next;] *)
Definition load_then (addr size next : Z) (k : Z → M (sys B) Z) : M (sys B) Z :=
  v ← mem_read addr size;
  match v with None => mret next | Some v => k v end.

Definition exec_load (insn next rd f3 a : Z) : M (sys B) Z :=
  let addr := u32 (a + u32 (imm_i insn)) in
  if f3 =? 0 then load_then addr 1 next (λ v, wr_x rd (u32 (s8 v));; fin next)
  else if f3 =? 1 then load_then addr 2 next (λ v, wr_x rd (u32 (s16 v));; fin next)
  else if f3 =? 2 then load_then addr 4 next (λ v, wr_x rd v;; fin next)
  else if f3 =? 4 then load_then addr 1 next (λ v, wr_x rd (v .& 0xff);; fin next)
  else if f3 =? 5 then load_then addr 2 next (λ v, wr_x rd (v .& 0xffff);; fin next)
  else illegal_ret insn next.

Definition exec_store (insn next f3 a b : Z) : M (sys B) Z :=
  let addr := u32 (a + u32 (imm_s insn)) in
  if f3 =? 0 then mem_write addr 1 b;; fin next
  else if f3 =? 1 then mem_write addr 2 b;; fin next
  else if f3 =? 2 then mem_write addr 4 b;; fin next
  else illegal_ret insn next.

(** The labels [zb_imm] and [zb_reg]. *)
Definition zb_imm (insn next rd f3 f7 a : Z) : M (sys B) Z :=
  c ← get_cpu;
  match (if c.(bitmanip) then bitmanip_imm insn f3 f7 a else None) with
  | Some val => wr_x rd val;; wr_x 0 0;; mret next
  | None => illegal_ret insn next
  end.

Definition zb_reg (insn next rd f3 f7 a b : Z) : M (sys B) Z :=
  c ← get_cpu;
  match (if c.(bitmanip) then bitmanip_reg insn f3 f7 a b else None) with
  | Some val => wr_x rd val;; wr_x 0 0;; mret next
  | None => illegal_ret insn next
  end.

Definition exec_imm (insn next rd f3 f7 a : Z) : M (sys B) Z :=
  match base_imm f3 f7 a (imm_i insn) with
  | Some val => wr_x rd val;; fin next
  | None => zb_imm insn next rd f3 f7 a
  end.

Definition exec_reg (insn next rd f3 f7 a b : Z) : M (sys B) Z :=
  if f7 =? 0x01 then wr_x rd (m_ext f3 a b);; fin next
  else
    match base_reg f3 f7 a b with
    | Some val => wr_x rd val;; fin next
    | None => zb_reg insn next rd f3 f7 a b
    end.

Definition exec_branch (insn next f3 a b : Z) : M (sys B) Z :=
  match branch_taken f3 a b with
  | None => illegal_ret insn next
  | Some val =>
      c ← get_cpu;
      fin (if val : bool then u32 (c.(pc) + u32 (imm_b insn)) else next)
  end.

Definition exec_amo (insn next rd rs2 f3 a b : Z) : M (sys B) Z :=
  let funct5 := (insn >> 27) .& 0x1f in
  let addr := a in
  c ← get_cpu;
  if negb c.(atomics) || negb (f3 =? 2) then illegal_ret insn next
  else if nz (addr .& 3) then
    let cause := if funct5 =? 0x02 then RV_CAUSE_LOAD_MISALIGNED
                 else RV_CAUSE_STORE_MISALIGNED in
    on_cpu (push_trace (if funct5 =? 0x02 then RV_TR_LOAD_MISALIGN else RV_TR_STORE_MISALIGN)
              c.(pc) insn addr (Some "unaligned atomic"%string));;
    on_cpu (rv_trap cause addr);;
    mret next
  else if funct5 =? 0x02 then                                     (* lr.w *)
    if negb (rs2 =? 0) then illegal_ret insn next
    else
      load_then addr 4 next (λ old,
        on_cpu (with_res_addr addr);;
        on_cpu (with_res_valid true);;
        wr_x rd old;;
        fin next)
  else if funct5 =? 0x03 then                                     (* sc.w *)
    if c.(res_valid) && (c.(res_addr) =? addr) then
      trapped ← mem_write addr 4 b;
      if trapped : bool then mret next
      else wr_x rd 0;; on_cpu (with_res_valid false);; fin next
    else wr_x rd 1;; on_cpu (with_res_valid false);; fin next
  else
    load_then addr 4 next (λ old,
      match amo_op funct5 old b with
      | None => illegal_ret insn next
      | Some val =>
          trapped ← mem_write addr 4 val;
          if trapped : bool then mret next
          else wr_x rd old;; fin next
      end).

Definition exec_load_fp (insn next rd f3 a : Z) : M (sys B) Z :=
  if negb (f3 =? 2) then illegal_ret insn next
  else load_then (u32 (a + u32 (imm_i insn))) 4 next (λ v, wr_f rd v;; fin next).

Definition exec_store_fp (insn next rs2 f3 a : Z) : M (sys B) Z :=
  if negb (f3 =? 2) then illegal_ret insn next
  else
    v ← rd_f rs2;
    mem_write (u32 (a + u32 (imm_s insn))) 4 v;; fin next.

Definition exec_fma (insn next rd rs1 rs2 f3 : Z) : M (sys B) Z :=
  fa ← rd_f rs1; fb ← rd_f rs2; fc ← rd_f (RS3 insn);
  if negb (((insn >> 25) .& 3) =? 0) then illegal_ret insn next
  else
    c ← get_cpu;
    match resolve_rm c f3 with
    | None => illegal_ret insn next
    | Some rm =>
        let op := OPCODE insn in
        let '(fa, fc) :=
          if op =? OP_MADD then (fa, fc)
          else if op =? OP_MSUB then (fa, fc .^ 0x80000000)
          else if op =? OP_NMSUB then (fa .^ 0x80000000, fc)
          else (fa .^ 0x80000000, fc .^ 0x80000000) in
        r ← on_fp (fp_fma fa fb fc rm);
        wr_f rd r;;
        fin next
    end.

(** feq.s, flt.s and fle.s: the value written to [x[rd]]. *)
Definition fp_compare (f3 fa fb : Z) : M rv_cpu Z :=
  if f3 =? 2 then
    (if f32_is_snan fa || f32_is_snan fb then fflags_set RV_FFLAG_NV else mret tt);;
    mret (Z.b2z (negb (f32_is_nan fa) && negb (f32_is_nan fb) &&
                 SFeqb (f32_val fa) (f32_val fb)))
  else if f32_is_nan fa || f32_is_nan fb then
    fflags_set RV_FFLAG_NV;; mret 0
  else if f3 =? 1 then mret (Z.b2z (SFltb (f32_val fa) (f32_val fb)))
  else mret (Z.b2z (SFleb (f32_val fa) (f32_val fb))).

(** [rm = resolve_rm(cpu, f3); if (rm < 0) { illegal(cpu, insn); return next; }] *)
Definition with_rm (insn next f3 : Z) (k : Z → M (sys B) Z) : M (sys B) Z :=
  c ← get_cpu;
  match resolve_rm c f3 with
  | None => illegal_ret insn next
  | Some rm => k rm
  end.

Definition exec_fp (insn next rd rs1 rs2 f3 f7 a : Z) : M (sys B) Z :=
  fa ← rd_f rs1; fb ← rd_f rs2;
  if negb ((f7 .& 3) =? 0) then illegal_ret insn next
  else
    let sel := f7 >> 2 in
    if (sel =? 0x00) || (sel =? 0x01) || (sel =? 0x02) || (sel =? 0x03) then
      with_rm insn next f3 (λ rm,
        r ← on_fp (if sel =? 0x00 then fp_add fa fb rm
                   else if sel =? 0x01 then fp_add fa (fb .^ 0x80000000) rm
                   else if sel =? 0x02 then fp_mul fa fb rm
                   else fp_div fa fb rm);
        wr_f rd r;; fin next)
    else if sel =? 0x0b then                                   (* fsqrt.s *)
      if negb (rs2 =? 0) then illegal_ret insn next
      else with_rm insn next f3 (λ rm, r ← on_fp (fp_sqrt fa rm); wr_f rd r;; fin next)
    else if sel =? 0x04 then                                   (* fsgnj.s *)
      if f3 =? 0 then wr_f rd ((fa .& 0x7fffffff) .| (fb .& 0x80000000));; fin next
      else if f3 =? 1 then
        wr_f rd ((fa .& 0x7fffffff) .| (not32 fb .& 0x80000000));; fin next
      else if f3 =? 2 then wr_f rd (fa .^ (fb .& 0x80000000));; fin next
      else illegal_ret insn next
    else if sel =? 0x05 then                             (* fmin.s / fmax.s *)
      if 1 <? f3 then illegal_ret insn next
      else r ← on_fp (fp_minmax fa fb (nz f3)); wr_f rd r;; fin next
    else if sel =? 0x14 then                       (* feq.s / flt.s / fle.s *)
      if 2 <? f3 then illegal_ret insn next
      else r ← on_fp (fp_compare f3 fa fb); wr_x rd r;; fin next
    else if sel =? 0x18 then                       (* fcvt.w.s / fcvt.wu.s *)
      if 1 <? rs2 then illegal_ret insn next
      else with_rm insn next f3 (λ rm,
             r ← on_fp (fp_to_int fa (nz rs2) rm); wr_x rd r;; fin next)
    else if sel =? 0x1a then                       (* fcvt.s.w / fcvt.s.wu *)
      if 1 <? rs2 then illegal_ret insn next
      else with_rm insn next f3 (λ rm,
             r ← on_fp (if rs2 =? 0
                        then f32_round (d_of_Z (s32 a)) d_zero rm (s32 a <? 0)
                        else f32_round (d_of_Z a) d_zero rm false);
             wr_f rd r;; fin next)
    else if sel =? 0x1c then                         (* fmv.x.w / fclass.s *)
      if negb (rs2 =? 0) then illegal_ret insn next
      else if f3 =? 0 then wr_x rd fa;; fin next
      else if f3 =? 1 then wr_x rd (fp_class fa);; fin next
      else illegal_ret insn next
    else if sel =? 0x1e then                                   (* fmv.w.x *)
      if negb (rs2 =? 0) || negb (f3 =? 0) then illegal_ret insn next
      else wr_f rd a;; fin next
    else illegal_ret insn next.

(** The call [cpu->ecall && cpu->ecall(cpu, cpu->ecall_ctx) == 0]. *)
Definition ecall_handled : M (sys B) bool := λ s,
  match cb.(ecall) with
  | None => Some (false, s)
  | Some h =>
      match h s.(cpu) s.(bus) with
      | Some (r, (c, b)) => Some (r =? 0, mk_sys c b)
      | None => None
      end
  end.

Definition mret_insn (c : rv_cpu) : rv_cpu :=
  let c := with_mstatus (c.(mstatus) .| RV_MSTATUS_MIE) c in
  let c := if (c.(mstatus) .& RV_MSTATUS_MPIE) =? 0
           then with_mstatus (c.(mstatus) .& not32 RV_MSTATUS_MIE) c else c in
  with_mstatus (c.(mstatus) .| RV_MSTATUS_MPIE) c.

(** [OP_SYSTEM] with [f3 == 0]. *)
Definition exec_priv (insn next : Z) : M (sys B) Z :=
  c ← get_cpu;
  if insn =? 0x00000073 then                                     (* ecall *)
    a7 ← rd_x 17;
    on_cpu (push_trace RV_TR_ECALL c.(pc) insn a7 None);;
    handled ← ecall_handled;
    if handled : bool then fin next
    else on_cpu (rv_trap RV_CAUSE_ECALL_M 0);; mret next
  else if insn =? 0x00100073 then                               (* ebreak *)
    on_cpu (push_trace RV_TR_EBREAK c.(pc) insn 0 None);;
    on_cpu (rv_trap RV_CAUSE_BREAKPOINT 0);;
    mret next
  else if insn =? 0x30200073 then                                 (* mret *)
    on_cpu mret_insn;;
    c ← get_cpu;
    mret c.(mepc)
  else if insn =? 0x10500073 then                                  (* wfi *)
    on_cpu (with_waiting true);;
    fin next
  else illegal_ret insn next.

(** [OP_SYSTEM] with [f3 != 0]: Zicsr. *)
Definition exec_csr (insn next rd rs1 f3 a : Z) : M (sys B) Z :=
  let csr := insn >> 20 in
  let val := if nz (f3 .& 4) then rs1 else a in
  if f3 =? 4 then illegal_ret insn next
  else
    c ← get_cpu;
    match (if ((f3 .& 3) =? 1) && (rd =? 0) then Some 0 else csr_read c csr) with
    | None => illegal_ret insn next
    | Some old =>
        if negb ((f3 .& 3) =? 1) && (rs1 =? 0) then wr_x rd old;; fin next
        else
          let val := if (f3 .& 3) =? 1 then val
                     else if (f3 .& 3) =? 2 then old .| val
                     else old .& not32 val in
          match csr_write c csr val with
          | None => illegal_ret insn next
          | Some c' =>
              on_cpu (λ _, c');;
              wr_x rd old;;
              c ← get_cpu;
              on_cpu (push_trace RV_TR_CSR c.(pc) insn csr None);;
              fin next
          end
    end.

Definition exec (insn next : Z) : M (sys B) Z :=
  let rd := RD insn in
  let rs1 := RS1 insn in
  let rs2 := RS2 insn in
  let f3 := FUNCT3 insn in
  let f7 := FUNCT7 insn in
  a ← rd_x rs1; b ← rd_x rs2;
  let op := OPCODE insn in
  if op =? OP_LUI then wr_x rd (u32 (imm_u insn));; fin next
  else if op =? OP_AUIPC then
    c ← get_cpu;
    wr_x rd (u32 (c.(pc) + u32 (imm_u insn)));; fin next
  else if op =? OP_JAL then
    c ← get_cpu;
    let val := u32 (c.(pc) + u32 (imm_j insn)) in
    wr_x rd next;; fin val
  else if op =? OP_JALR then
    if negb (f3 =? 0) then illegal_ret insn next
    else
      let val := u32 (a + u32 (imm_i insn)) .& not32 1 in
      wr_x rd next;; fin val
  else if op =? OP_BRANCH then exec_branch insn next f3 a b
  else if op =? OP_LOAD then exec_load insn next rd f3 a
  else if op =? OP_STORE then exec_store insn next f3 a b
  else if op =? OP_IMM then exec_imm insn next rd f3 f7 a
  else if op =? OP_REG then exec_reg insn next rd f3 f7 a b
  else if op =? OP_AMO then exec_amo insn next rd rs2 f3 a b
  else if op =? OP_MISC_MEM then
    (if negb (f3 =? 0) && negb (f3 =? 1) then illegal insn else mret tt);;
    fin next
  else if op =? OP_LOAD_FP then exec_load_fp insn next rd f3 a
  else if op =? OP_STORE_FP then exec_store_fp insn next rs2 f3 a
  else if (op =? OP_MADD) || (op =? OP_MSUB) || (op =? OP_NMSUB) || (op =? OP_NMADD) then
    exec_fma insn next rd rs1 rs2 f3
  else if op =? OP_FP then exec_fp insn next rd rs1 rs2 f3 f7 a
  else if op =? OP_SYSTEM then
    if f3 =? 0 then exec_priv insn next else exec_csr insn next rd rs1 f3 a
  else illegal_ret insn next.

(** ** Public API *)

(** [return cpu->halted ? -1 : 0;] *)
Definition step_result : M (sys B) Z :=
  c ← get_cpu; mret (if c.(halted) then -1 else 0).

(** The end of [rv_step] once an instruction ran. *)
Definition retire (next : Z) : M (sys B) Z :=
  c ← get_cpu;
  (if c.(in_trap) then mret tt else on_cpu (with_pc next));;
  on_cpu (λ c, with_cycles (u64 (c.(cycles) + 1)) c);;
  on_cpu (λ c, with_mcycle (u64 (c.(mcycle) + 1)) c);;
  on_cpu (λ c, with_minstret (u64 (c.(minstret) + 1)) c);;
  step_result.

(** The compressed half of [rv_step], from the fetch of [lo] on. *)
Definition step_compressed (lo : Z) : M (sys B) Z :=
  c ← get_cpu;
  let next := u32 (c.(pc) + 2) in
  if c.(zcmp) && is_zcmp lo then
    r ← exec_zcmp lo next;
    match r with
    | None => illegal lo;; step_result
    | Some next => wr_x 0 0;; retire next
    end
  else
    let insn := rv_expand_c lo in
    let insn := if (insn =? 0) && c.(zcb) then rv_expand_zcb lo else insn in
    if insn =? 0 then illegal lo;; step_result
    else next ← exec insn next; retire next.

(** The 32-bit half of [rv_step]. *)
Definition step_full (lo : Z) : M (sys B) Z :=
  c ← get_cpu;
  rejected ← probe_rejects (u32 (c.(pc) + 2)) 2 false;
  if rejected : bool then
    on_cpu (push_trace RV_TR_FETCH_FAULT c.(pc) 0 (u32 (c.(pc) + 2)) None);;
    on_cpu (rv_trap RV_CAUSE_INSN_ACCESS_FAULT (u32 (c.(pc) + 2)));;
    step_result
  else
    hi ← bus_rd cb.(read16) (u32 (c.(pc) + 2));
    let insn := lo .| ((hi .& 0xffff) << 16) in
    next ← exec insn (u32 (c.(pc) + 4));
    retire next.

(** Fetch and execute one instruction. *)
Definition step_fetch : M (sys B) Z :=
  c ← get_cpu;
  if nz (c.(pc) .& 1) then
    on_cpu (rv_trap RV_CAUSE_INSN_MISALIGNED c.(pc));; step_result
  else
    rejected ← probe_rejects c.(pc) 2 false;
    if rejected : bool then
      on_cpu (push_trace RV_TR_FETCH_FAULT c.(pc) 0 c.(pc) None);;
      on_cpu (rv_trap RV_CAUSE_INSN_ACCESS_FAULT c.(pc));; step_result
    else
      v ← bus_rd cb.(read16) c.(pc);
      let lo := v .& 0xffff in
      if negb ((lo .& 3) =? 3) then step_compressed lo else step_full lo.

Definition rv_step : M (sys B) Z :=
  c ← get_cpu;
  if c.(halted) then mret (-1)
  else
    on_cpu (with_in_trap false);;
    c ← get_cpu;
    let irq := if nz (c.(mip) .& c.(mie)) then rv_irq_pending c else 0 in
    if nz irq then on_cpu (rv_trap irq 0);; step_result
    else step_fetch.

(** The loop of [rv_run]; [i] instructions have been executed. *)
Fixpoint rv_run_loop (n : nat) (i : Z) : M (sys B) Z :=
  match n with
  | O => mret i
  | S n =>
      r ← rv_step;
      if r <? 0 then mret i else rv_run_loop n (i + 1)
  end.

Definition rv_run (count : Z) : M (sys B) Z := rv_run_loop (Z.to_nat count) 0.

Definition rv_get_x (n : Z) : M (sys B) Z := if n =? 0 then mret 0 else rd_x (n .& 31).
Definition rv_set_x (n val : Z) : M (sys B) unit :=
  if n =? 0 then mret tt else wr_x (n .& 31) val.
Definition rv_get_f (n : Z) : M (sys B) Z := rd_f (n .& 31).
Definition rv_set_f (n bits : Z) : M (sys B) unit := wr_f (n .& 31) bits.
End Interp.

Definition rv_get_pc (c : rv_cpu) : Z := c.(pc).
Definition rv_set_pc (v : Z) (c : rv_cpu) : rv_cpu := with_pc v c.
Definition rv_halt (c : rv_cpu) : rv_cpu := with_halted true c.

(** [rv_init]: the zeroed processor with every extension enabled, and the
    callback table with neither [ecall] nor [probe] installed. *)
Definition rv_init_cpu : rv_cpu :=
  mk_cpu (replicate 32 0) 0 (replicate 32 0) 0 0 0 0 0 0 0 0 0 0 0
    false false false false true true 0 false true true 0 rv_trace_init.

Definition rv_init_callbacks {B} (r8 r16 r32 : B → Z → option (Z * B))
    (w8 w16 w32 : B → Z → Z → option B) : rv_callbacks B :=
  mk_callbacks r8 r16 r32 w8 w16 w32 None None.

Definition rv_set_ecall {B} (fn : rv_cpu → B → option (Z * (rv_cpu * B)))
    (cb : rv_callbacks B) : rv_callbacks B :=
  mk_callbacks cb.(read8) cb.(read16) cb.(read32) cb.(write8) cb.(write16) cb.(write32)
    cb.(probe) (Some fn).

Definition rv_set_probe {B} (fn : B → Z → Z → bool → bool)
    (cb : rv_callbacks B) : rv_callbacks B :=
  mk_callbacks cb.(read8) cb.(read16) cb.(read32) cb.(write8) cb.(write16) cb.(write32)
    (Some fn) cb.(ecall).

Definition rv_reset (entry : Z) (c : rv_cpu) : rv_cpu :=
  let c := with_x (replicate 32 0) c in
  let c := with_f (replicate 32 0) c in
  let c := with_pc entry c in
  let c := with_fcsr 0 c in
  let c := with_mstatus (RV_MSTATUS_MPP .| RV_MSTATUS_FS) c in
  let c := with_mtvec 0 c in
  let c := with_mepc 0 c in
  let c := with_mcause 0 c in
  let c := with_mtval 0 c in
  let c := with_mscratch 0 c in
  let c := with_mie 0 c in
  let c := with_mip 0 c in
  let c := with_mcycle 0 c in
  let c := with_minstret 0 c in
  let c := with_halted false c in
  let c := with_in_trap false c in
  let c := with_waiting false c in
  let c := with_cycles 0 c in
  let c := with_res_valid false c in
  let c := with_res_addr 0 c in
  with_trace (rv_trace_clear c.(trace)) c.
