(* ===== verification/Rv32FloatProps.v ===== *)
(** * Properties of single-precision arithmetic

    The host operations never invent a NaN and keep their mantissas within 53
    bits, which is what keeps the integer conversions of the source defined;
    every F-extension operation is then defined, returns a 32-bit pattern and
    only accrues exception flags. *)

From S2P Require Import Prelude HostFloat Rv32State Rv32Float.

Lemma d_one_ok : okd d_one ∧ below 1 d_one. Proof. by vm_compute. Qed.

(** ** Conversions to integers *)

(** A bounded mantissa below [2 ^ 52] or [2 ^ 53] truncates to an integer
    that fits. *)
Lemma d_to_int64_ok x n :
  okd x → n = 52 ∨ n = 53 → SFleb (d_of_Z (2 ^ n)) (d_abs x) = false →
  ∃ t, d_to_int64 x = Some t ∧ Z.abs t < 2 ^ 53.
Proof.
  intros Hx Hn Hle. unfold d_to_int64, d_to_int.
  destruct x as [s|s| |s m e]; [by exists 0| |done|].
  { exfalso. by destruct Hn as [-> | ->]. }
  destruct Hx as [Hm _].
  assert (e <= 0 ∨ e = 1 ∧ Z.pos m < 2 ^ 52) as He.
  { destruct Hn as [-> | ->].
    - change (d_of_Z (2 ^ 52)) with (S754_finite false 4503599627370496 0) in Hle.
      unfold SFleb, SFcompare, d_abs, SFabs in Hle. case_match eqn:E; try done.
      destruct (Z.compare_spec 0 e); simplify_eq; lia.
    - change (d_of_Z (2 ^ 53)) with (S754_finite false 4503599627370496 1) in Hle.
      unfold SFleb, SFcompare, d_abs, SFabs in Hle. case_match eqn:E; try done.
      destruct (Z.compare_spec 1 e) as [<-|?|?]; simplify_eq; [|lia..].
      right. split; [done|].
      destruct (Pos.compare_cont Eq 4503599627370496 m) eqn:E2; simplify_eq.
      change (Pos.compare 4503599627370496 m = Gt) in E2. 
      rewrite Pos.compare_gt_iff in E2. exact E2. }
  unfold d_trunc. set (u := if 0 <=? e then _ else _).
  assert (0 <= u < 2 ^ 53) as Hu.
  { unfold u. destruct (Z.leb_spec 0 e).
    - destruct He as [He|[-> He]]; [|lia]. assert (e = 0) as -> by lia. lia.
    - split; [apply Z.div_pos; lia|].
      apply Z.le_lt_trans with (Z.pos m); [|done]. apply Z.div_le_upper_bound; [lia|].
      assert (0 < 2 ^ (- e)) by (apply Z.pow_pos_nonneg; lia). nia. }
  exists (if s then - u else u). split; [|destruct s; lia].
  rewrite (proj2 (Z.leb_le (- 2 ^ 63) _)), (proj2 (Z.leb_le _ (2 ^ 63 - 1))); [done|destruct s; lia..].
Qed.

Lemma d_floor_ok x : okd x → ∃ y, d_floor x = Some y ∧ okd y.
Proof.
  intros Hx. unfold d_floor. case_match eqn:E; [by eexists|].
  destruct (d_to_int64_ok x 52) as (t & -> & Ht); [done|by left|done|].
  eexists. split; [done|]. case_match; [|apply d_of_Z_ok].
  apply (d_sub_ok 1); [apply d_of_Z_ok|apply d_one_ok..].
Qed.

Lemma d_ceil_ok x : okd x → ∃ y, d_ceil x = Some y ∧ okd y.
Proof.
  intros Hx. unfold d_ceil. case_match eqn:E; [by eexists|].
  destruct (d_to_int64_ok x 52) as (t & -> & Ht); [done|by left|done|].
  eexists. split; [done|]. case_match; [|apply d_of_Z_ok].
  apply (d_add_ok 1); [apply d_of_Z_ok|apply d_one_ok..].
Qed.

Lemma d_is_odd_ok x : okd x → ∃ b, d_is_odd x = Some b.
Proof.
  intros Hx. unfold d_is_odd. case_match eqn:E; [by eexists|].
  destruct (d_to_int64_ok x 53) as (t & -> & Ht); [done|by right|done|]. by eexists.
Qed.

(** ** Scaling by a power of two *)

Lemma d_pow2_bits n :
  -1000 <= n <= 1000 →
  d_from_bits ((1023 + n) << 52) = S754_finite false 4503599627370496 (n - 52).
Proof.
  intros Hn. unfold d_from_bits.
  rewrite Z.shiftr_shiftl_l, Z.shiftr_shiftl_r, Z.sub_diag, Z.shiftl_0_r by lia.
  change (0xfffffffffffff) with (Z.ones 52). change 0x7ff with (Z.ones 11).
  rewrite !Z.land_ones, Z.shiftl_mul_pow2, Z.mod_mul, Z.shiftr_div_pow2 by lia.
  rewrite (Z.div_small (1023 + n)), (Z.mod_small (1023 + n)) by (simpl; lia).
  rewrite (proj2 (Z.eqb_neq _ (Z.ones 11))) by (change (Z.ones 11) with 2047; lia).
  rewrite (proj2 (Z.eqb_neq _ 0)) by lia.
  simpl. f_equal. lia.
Qed.

Lemma finite_pow2 n : finite_nz (S754_finite false 4503599627370496 n).
Proof. by vm_compute. Qed.

Lemma d_ldexp_down_ok fuel x n :
  okd x → n <= 1000 * Z.of_nat fuel →
  let r := d_ldexp_down fuel x n in
  okd r.1 ∧ r.2 <= 1000 ∧ Z.min n 0 <= r.2.
Proof.
  revert x n. induction fuel as [|fuel IH]; intros x n Hx Hn; simpl; [split_and!; [done|lia..]|].
  destruct (Z.ltb_spec 1000 n); [|simpl; split_and!; [done|lia..]].
  destruct (IH (d_mul x (d_from_bits ((1023 + 1000) << 52))) (n - 1000)) as (? & ? & ?); [|lia|].
  - rewrite d_pow2_bits by lia. by apply d_mul_ok.
  - split_and!; [done..|lia].
Qed.

Lemma d_ldexp_up_ok fuel x n :
  okd x → - n <= 1000 * Z.of_nat fuel → n <= 1000 →
  let r := d_ldexp_up fuel x n in
  okd r.1 ∧ -1000 <= r.2 <= 1000.
Proof.
  revert x n. induction fuel as [|fuel IH]; intros x n Hx Hn Hn'; simpl; [split_and!; [done|lia..]|].
  destruct (Z.ltb_spec n (-1000)); [|simpl; split_and!; [done|lia..]].
  apply IH; [|lia..].
  change (1023 - 1000) with (1023 + - 1000). rewrite d_pow2_bits by lia. by apply d_mul_ok.
Qed.

(** The loops of [d_ldexp] end with an exponent the last factor can
    represent, so scaling never produces a NaN. *)
Lemma d_ldexp_ok x n : okd x → okd (d_ldexp x n).
Proof.
  intros Hx. unfold d_ldexp.
  assert (Z.abs n <= 1000 * Z.of_nat (Z.to_nat (Z.abs n / 1000 + 1))).
  { pose proof (Z.div_pos (Z.abs n) 1000). pose proof (Z.mod_pos_bound (Z.abs n) 1000).
    pose proof (Z.div_mod (Z.abs n) 1000). lia. }
  set (fuel := Z.to_nat _) in *. clearbody fuel.
  pose proof (d_ldexp_down_ok fuel x n Hx ltac:(lia)) as H1.
  destruct (d_ldexp_down fuel x n) as [x1 n1]. simpl in H1. destruct H1 as (Hx1 & ? & ?).
  pose proof (d_ldexp_up_ok fuel x1 n1 Hx1 ltac:(lia) ltac:(lia)) as H2.
  destruct (d_ldexp_up fuel x1 n1) as [x2 n2]. simpl in H2. destruct H2 as (Hx2 & ?).
  rewrite d_pow2_bits by lia. by apply d_mul_ok.
Qed.

(** ** Bit patterns *)

Lemma f32_val_cases b :
  in32 b →
  (f32_is_nan b = true ∧ f32_val b = S754_nan) ∨
  (f32_is_inf b = true ∧ f32_val b = S754_infinity (f32_sign b)) ∨
  (f32_is_zero b = true ∧ f32_val b = S754_zero (f32_sign b)) ∨
  (f32_is_nan b = false ∧ f32_is_inf b = false ∧ f32_is_zero b = false ∧
   ∃ m e, f32_val b = S754_finite (f32_sign b) m e ∧ Z.pos m < 2 ^ 24 ∧ -149 <= e <= 104).
Proof.
  intros Hb. unfold f32_is_nan, f32_is_inf, f32_is_zero, f32_sign, f32_val.
  assert (b .& Z.shiftl (Z.ones 8) 23 = (Z.shiftl ((b >> 23) .& 0xff) 23)) as Hex.
  { apply Z.bits_inj'. intros i Hi.
    rewrite Z.land_spec, !Z.shiftl_spec, Z.land_spec by lia.
    destruct (decide (i < 23)); [rewrite !(Z.testbit_neg_r _ (i - 23)) by lia; by rewrite !andb_false_r|].
    rewrite Z.shiftr_spec by lia. do 2 f_equal. lia. }
  change (Z.shiftl (Z.ones 8) 23) with 0x7f800000 in Hex.
  set (ex := (b >> 23) .& 0xff) in *. set (man := b .& 0x7fffff).
  assert (inw 8 ex ∧ inw 23 man) as [Hx Hm].
  { split; apply inw_land_r; unfold inw; lia. }
  assert (b .& 0x7fffffff = ex * 2 ^ 23 + man) as Hlow.
  { rewrite <-Z.shiftl_mul_pow2, <-Hex by lia.
    change 0x7fffffff with (Z.lor 0x7f800000 0x7fffff). rewrite Z.land_lor_distr_r.
    unfold man. symmetry. rewrite <-Z.lxor_lor, <-Z.add_nocarry_lxor; [done|..];
      rewrite <-Z.land_assoc, (Z.land_comm 0x7f800000), Z.land_assoc, (Z.land_assoc b);
      rewrite <-!Z.land_assoc; simpl; by rewrite ?Z.land_0_r. }
  rewrite Hlow, Hex, Z.shiftl_mul_pow2 by lia. unfold inw in Hx, Hm.
  clearbody man ex. clear Hlow Hex.
  destruct (Z.eqb_spec ex 0xff) as [->|Hne].
  - destruct (Z.eqb_spec man 0) as [->|]; [right; left; done|].
    by left.
  - assert ((ex * 2 ^ 23 =? 2139095040) = false) as -> by (apply Z.eqb_neq; lia).
    assert ((ex * 2 ^ 23 + man =? 2139095040) = false) as -> by (apply Z.eqb_neq; lia).
    destruct (Z.eqb_spec ex 0) as [->|].
    + destruct man as [|m|m] eqn:Em; [right; right; left; done| |lia].
      right; right; right. do 3 (split; [done|]). eexists m, (-149). split; [done|lia].
    + right; right; right. rewrite (proj2 (Z.eqb_neq (ex * 2 ^ 23 + man) 0)) by lia. do 3 (split; [done|]).
      destruct (man + 2 ^ 23) as [|m|m] eqn:Em; [lia| |lia].
      eexists m, (ex - 150). split; [done|lia].
Qed.

Lemma d_of_f_val_ok b :
  in32 b → f32_is_nan b = false → okd (d_of_f (f32_val b)).
Proof.
  intros Hb Hn. destruct (f32_val_cases b Hb) as [[? _]|[[_ ->]|[[_ ->]|(_ & _ & _ & m & e & -> & _)]]];
    [congruence|done..|]. by apply binary_round_ok.
Qed.

Lemma d_of_f_val_below b :
  in32 b → f32_is_nan b = false → f32_is_inf b = false → below 129 (d_of_f (f32_val b)).
Proof.
  intros Hb Hn Hi.
  destruct (f32_val_cases b Hb) as [[? _]|[[? _]|[[_ ->]|(_ & _ & _ & m & e & -> & Hm & He)]]];
    [congruence..|done|].
  apply (binary_round_below 53 1024 ltac:(lia) _ _ _ 128); [|unfold emin; lia..].
  apply Zdigits2_lt in Hm; lia.
Qed.

(** A result register: 32 bits, and the canonical NaN if a NaN at all. *)
Definition res32 (b : Z) : Prop := in32 b ∧ (f32_is_nan b = true → b = F32_CANON_NAN).

Lemma not_nan_field b : (b >> 23) .& 0xff ≠ 0xff → f32_is_nan b = false.
Proof.
  intros H. unfold f32_is_nan. change 0x7f800000 with (0xff << 23). rewrite land_shifted by lia.
  apply andb_false_intro1, Z.eqb_neq. rewrite !Z.shiftl_mul_pow2 by lia. lia.
Qed.

Lemma exp_field (s : bool) E M :
  0 <= E < 256 → 0 <= M < 2 ^ 23 →
  (((if s then 0x80000000 else 0) .| (E << 23) .| M) >> 23) .& 0xff = E.
Proof.
  intros HE HM. rewrite !Z.shiftr_lor, Z.shiftr_shiftl_l, !Z.land_lor_distr_l by lia.
  assert (((if s then 0x80000000 else 0) >> 23) .& 0xff = 0) as -> by (by destruct s).
  assert (M >> 23 = 0) as -> by (rewrite Z.shiftr_div_pow2 by lia; by apply Z.div_small).
  rewrite Z.lor_0_l, Z.lor_0_r, Z.shiftl_0_r. change 0xff with (Z.ones 8).
  rewrite Z.land_ones by lia. by apply Z.mod_small.
Qed.

Lemma f32_bits_res x : okf 24 128 x → res32 (f32_bits x).
Proof.
  intros Hx. split; [by apply f32_bits_in|]. destruct x as [s|s| |s m e]; [by destruct s..|done|].
  destruct Hx as [Hm He]. unfold emin in He. unfold f32_bits.
  assert (∀ b, (b >> 23) .& 0xff ≠ 0xff → f32_is_nan b = true → b = F32_CANON_NAN) as Hc.
  { intros b Hb Hn. by rewrite not_nan_field in Hn. }
  destruct (Z.ltb_spec (Z.pos m) (2 ^ 23)); apply Hc.
  - pose proof (exp_field s 0 (Z.pos m)) as H1. rewrite Z.shiftl_0_l, Z.lor_0_r in H1. rewrite H1; lia.
  - rewrite exp_field; lia.
Qed.

(** ** Computations that only accrue flags *)

Definition accrues {A} (m : M rv_cpu A) (Q : A → Prop) : Prop :=
  ∀ c, ∃ a k, m c = Some (a, with_fcsr (c.(fcsr) .| k) c) ∧ inw 5 k ∧ Q a.

Lemma with_fcsr_same c : with_fcsr (c.(fcsr) .| 0) c = c.
Proof. destruct c. unfold with_fcsr. simpl. by rewrite Z.lor_0_r. Qed.

Section Accrues.
Context {A : Type}.
Implicit Types Q : A → Prop.

Lemma accrues_ret a Q : Q a → accrues (mret a) Q.
Proof.
  intros Ha c. exists a, 0. rewrite with_fcsr_same. split_and!; [done|unfold inw; lia|done].
Qed.

Lemma accrues_bind {C} (m : M rv_cpu C) (g : C → M rv_cpu A) P Q :
  accrues m P → (∀ a, P a → accrues (g a) Q) → accrues (m ≫= g) Q.
Proof.
  intros Hm Hg c. destruct (Hm c) as (a & k & Em & Hk & Ha).
  destruct (Hg a Ha (with_fcsr (c.(fcsr) .| k) c)) as (b & k' & Eg & Hk' & Hb).
  exists b, (k .| k'). unfold mbind, M_bind. rewrite Em, Eg. simpl. rewrite Z.lor_assoc.
  split_and!; [done|by apply inw_lor|done].
Qed.

Lemma accrues_if (b : bool) (m1 m2 : M rv_cpu A) Q :
  (b = true → accrues m1 Q) → (b = false → accrues m2 Q) → accrues (if b then m1 else m2) Q.
Proof. destruct b; auto. Qed.

Lemma accrues_lift (o : option A) Q : (∃ a, o = Some a ∧ Q a) → accrues (lift_opt o) Q.
Proof. intros (a & -> & Ha). by apply accrues_ret. Qed.
End Accrues.

Lemma accrues_set flags : accrues (fflags_set flags) (λ _, True).
Proof.
  intros c. exists tt, (flags .& 0x1f). split_and!; [done| |done].
  apply inw_land_r. unfold inw. lia.
Qed.

(** Drives a proof of [accrues] through the structure of the computation. *)
Ltac accrue :=
  repeat match goal with
  | |- accrues (mret _) _ => apply accrues_ret
  | |- accrues (if _ then _ else _) _ => apply accrues_if; intros ?
  | |- accrues (fflags_set _) _ => apply accrues_set
  | |- accrues (fflags_set _ ≫= _) _ =>
      eapply accrues_bind; [apply accrues_set|intros [] _; cbv beta]
  | |- accrues ((if _ then fflags_set _ else mret tt) ≫= _) _ =>
      apply (accrues_bind _ _ (λ _, True)); [|intros [] _; cbv beta]
  end.

Lemma f32_round_ok (hi lo : double) rm sz :
  okd hi → (SFeqb hi d_zero = true → okd lo) → accrues (f32_round hi lo rm sz) res32.
Proof.
  intros Hhi Hlo. unfold f32_round. apply accrues_if; intros _; [by accrue|].
  apply accrues_if; intros _; [accrue; by destruct sz|].
  set (p0 := if SFeqb hi d_zero then (lo, d_zero) else (hi, lo)).
  assert (okd p0.1) as Hp0 by (unfold p0; destruct (SFeqb hi d_zero); simpl; auto).
  destruct p0 as [h l]. simpl in Hp0.
  set (a := if SFltb h d_zero then SFopp h else h).
  assert (okd a) as Ha by (unfold a; case_match; [by apply d_opp_ok|done]).
  apply accrues_if; intros _; [accrue; by destruct (SFltb h d_zero)|].
  destruct (d_frexp a) as [m e]. destruct (if _ <=? 0 then _ else _) as [p e'].
  set (lm := if SFltb h d_zero then SFopp l else l).
  destruct (d_floor_ok (d_ldexp a (p - e'))) as (ip & Eip & Hip); [by apply d_ldexp_ok|].
  eapply accrues_bind; [apply accrues_lift; exists ip; split; [exact Eip|exact Hip]|].
  clear ip Eip Hip. intros ip Hip. cbv beta in Hip.
  assert (∀ fr, okd (f32_frac fr lm ip).1) as Hfr.
  { intros fr. unfold f32_frac. repeat case_match; try done.
    apply (d_sub_ok 1); [done|apply d_one_ok..]. }
  specialize (Hfr (d_sub (d_ldexp a (p - e')) ip)).
  destruct (f32_frac _ lm ip) as [ip1 frac]. simpl in Hfr.
  apply (accrues_bind _ _ (λ _, True)).
  { apply accrues_lift. unfold f32_round_up. destruct (d_is_odd_ok ip1 Hfr) as [b ->].
    repeat case_match; eauto. }
  intros up _. set (ip2 := if up then d_add ip1 d_one else ip1).
  assert (okd ip2) as Hip2.
  { unfold ip2. case_match; [|done]. apply (d_add_ok 1); [done|apply d_one_ok..]. }
  pose proof (d_ldexp_ok ip2 (e' - p) Hip2) as Hmag.
  apply accrues_if; intros _.
  - accrue. unfold f32_overflow. repeat case_match; by vm_compute.
  - apply (accrues_bind _ _ (λ _, True)).
    { apply accrues_if; intros _; [|by apply accrues_ret].
      eapply accrues_bind; [apply accrues_set|intros [] _]. apply accrues_if; intros _; by accrue. }
    intros [] _. accrue; [by destruct (SFltb h d_zero)|].
    apply f32_bits_res, f_of_d_ok. case_match; [by apply d_opp_ok|done].
Qed.

(** ** Finite intermediate results *)

Definition finb (k : Z) (x : double) : Prop := okd x ∧ below k x.

Lemma fin_mono k k' x : k <= k' → finb k x → finb k' x.
Proof. intros ? []. split; [done|by eapply below_mono]. Qed.

Lemma fin_add k x y : 0 <= k <= 900 → finb k x → finb k y → finb (k + 2) (d_add x y).
Proof. intros ? [] []. split; [by eapply d_add_ok|by apply d_add_below]. Qed.

Lemma fin_sub k x y : 0 <= k <= 900 → finb k x → finb k y → finb (k + 2) (d_sub x y).
Proof. intros ? [] []. split; [by eapply d_sub_ok|by apply d_sub_below]. Qed.

Lemma fin_mul k1 k2 x y :
  0 <= k1 → 0 <= k2 → k1 + k2 <= 900 → finb k1 x → finb k2 y → finb (k1 + k2 + 1) (d_mul x y).
Proof.
  intros ??? [Hx Bx] [Hy By]. split; [|by apply d_mul_below].
  destruct x, y; try done. apply d_mul_ok; [done|apply Hy].
Qed.

(** Bounds one operation of a chain by a chosen power of two. *)
Ltac fin_op :=
  lazymatch goal with
  | |- finb ?k (d_add _ _) => apply (fin_mono (k - 2 + 2)); [lia|apply fin_add; [lia|..]]
  | |- finb ?k (d_sub _ _) => apply (fin_mono (k - 2 + 2)); [lia|apply fin_sub; [lia|..]]
  end.

Lemma two_sum_fin k x y :
  0 <= k <= 800 → finb k x → finb k y →
  finb (k + 2) (two_sum x y).1 ∧ finb (k + 10) (two_sum x y).2.
Proof.
  intros Hk Hx Hy. unfold two_sum. simpl.
  assert (finb (k + 2) (d_add x y)) as Hs by (apply fin_add; [lia|done..]).
  assert (finb (k + 4) (d_sub (d_add x y) x)) as Hbv.
  { fin_op; (eapply fin_mono; [|eassumption]); lia. }
  split; [done|].
  fin_op; fin_op; try (eapply fin_mono; [|eassumption]; lia).
  apply (fin_mono (k + 4 + 2)); [lia|]. apply fin_sub; [lia| |done].
  eapply fin_mono; [|eassumption]; lia.
Qed.

Lemma two_product_fin x y :
  finb 300 x → finb 300 y →
  finb 601 (two_product x y).1 ∧ finb 680 (two_product x y).2.
Proof.
  intros Hx Hy. unfold two_product. simpl.
  assert (finb 29 (d_of_Z 134217729)) as Hsp.
  { split; [apply d_of_Z_ok|apply (d_of_Z_below _ 28); lia]. }
  assert (∀ z, finb 300 z → finb 334 (d_sub (d_mul (d_of_Z 134217729) z)
             (d_sub (d_mul (d_of_Z 134217729) z) z))) as Hh.
  { intros z Hz. pose proof (fin_mul 29 300 _ _ ltac:(lia) ltac:(lia) ltac:(lia) Hsp Hz).
    fin_op; [|fin_op]; (eapply fin_mono; [|eassumption]); lia. }
  pose proof (Hh x Hx) as Hxh. pose proof (Hh y Hy) as Hyh. clear Hh.
  set (xh := d_sub _ (d_sub (d_mul _ x) x)) in *. set (yh := d_sub _ (d_sub (d_mul _ y) y)) in *.
  assert (∀ z zh, finb 300 z → finb 334 zh → finb 336 (d_sub z zh)) as Hl.
  { intros. fin_op; (eapply fin_mono; [|eassumption]); lia. }
  pose proof (Hl x xh Hx Hxh) as Hxl. pose proof (Hl y yh Hy Hyh) as Hyl. clear Hl.
  clearbody xh yh. set (xl := d_sub x xh) in *. set (yl := d_sub y yh) in *. clearbody xl yl.
  pose proof (fin_mul 300 300 x y ltac:(lia) ltac:(lia) ltac:(lia) Hx Hy) as Hp.
  split; [done|].
  pose proof (fin_mul 334 334 xh yh ltac:(lia) ltac:(lia) ltac:(lia) Hxh Hyh).
  pose proof (fin_mul 334 336 xh yl ltac:(lia) ltac:(lia) ltac:(lia) Hxh Hyl).
  pose proof (fin_mul 336 334 xl yh ltac:(lia) ltac:(lia) ltac:(lia) Hxl Hyh).
  pose proof (fin_mul 336 336 xl yl ltac:(lia) ltac:(lia) ltac:(lia) Hxl Hyl).
  fin_op; [fin_op; [fin_op; [fin_op|]|]|]; (eapply fin_mono; [|eassumption]); lia.
Qed.

Lemma remainder_exact_fin a x y :
  finb 300 a → finb 300 x → finb 300 y → finb 690 (remainder_exact a x y).
Proof.
  intros Ha Hx Hy. unfold remainder_exact.
  destruct (two_product_fin x y Hx Hy) as [Hp He].
  destruct (two_product x y) as [p err]. simpl in *.
  fin_op; [fin_op|]; (eapply fin_mono; [|eassumption]); lia.
Qed.

(** A [float] converts to a [double] exactly, with a full 53-bit mantissa. *)
Lemma d_of_f_exact s m e :
  Z.pos m < 2 ^ 24 → -149 <= e <= 104 →
  ∃ M, d_of_f (S754_finite s m e) = S754_finite s M (Zdigits2 (Z.pos m) + e - 53) ∧
       Z.pos M = Z.pos m * 2 ^ (53 - Zdigits2 (Z.pos m)) ∧ Zdigits2 (Z.pos M) = 53.
Proof.
  intros Hm He. apply Zdigits2_lt in Hm; [|lia..].
  assert (0 < Zdigits2 (Z.pos m)) by (simpl; lia).
  set (d := Zdigits2 (Z.pos m)) in *.
  unfold d_of_f, binary_round.
  assert (fexp 53 1024 (Z.pos (digits2_pos m) + e) = d + e - 53) as ->.
  { unfold fexp, emin. change (Z.pos (digits2_pos m)) with d. lia. }
  unfold shl_align. destruct (d + e - 53 - e) as [|p|p] eqn:E; [lia..|].
  exists (Pos.iter xO m p).
  assert (Z.pos (Pos.iter xO m p) = Z.pos m * 2 ^ Z.pos p) as HM.
  { rewrite <-Z.shiftl_mul_pow2 by lia. simpl Z.shiftl.
    by apply (Pos.iter_swap_gen _ _ Z.pos). }
  assert (Zdigits2 (Z.pos (Pos.iter xO m p)) = 53) as HD.
  { simpl Zdigits2. rewrite digits2_log2, HM, Z.log2_mul_pow2 by lia.
    unfold d in *. simpl Zdigits2 in *. rewrite digits2_log2 in *. lia. }
  split_and!; [|rewrite HM; do 2 f_equal; lia|done].
  unfold binary_round_aux, shr_fexp. rewrite HD.
  assert (fexp 53 1024 (53 + (d + e - 53)) - (d + e - 53) = 0) as Hf.
  { unfold fexp, emin. lia. }
  rewrite Hf. simpl shr. cbv iota beta. simpl shr_m. simpl round_nearest_even.
  rewrite HD, Hf. simpl. by rewrite (proj2 (Z.leb_le _ _)) by lia.
Qed.

Lemma Zdigits2_ge m j : 0 < m → 0 <= j → 2 ^ j <= m ↔ j + 1 <= Zdigits2 m.
Proof.
  intros Hm Hj. destruct m as [|p|p]; [lia| |lia]. simpl Zdigits2.
  rewrite digits2_log2, Z.log2_le_pow2 by lia. lia.
Qed.

Lemma d_div_fin s1 m1 e1 s2 m2 e2 :
  Zdigits2 (Z.pos m1) = 53 → Zdigits2 (Z.pos m2) = 53 →
  -201 <= e1 <= 75 → -201 <= e2 <= 75 →
  finb 300 (d_div (S754_finite s1 m1 e1) (S754_finite s2 m2 e2)).
Proof.
  intros D1 D2 He1 He2. unfold d_div, SFdiv, SFdiv_core_binary. rewrite D1, D2.
  assert (Z.min (fexp 53 1024 (53 + e1 - (53 + e2))) (e1 - e2) = e1 - e2 - 53) as ->.
  { unfold fexp, emin. lia. }
  replace (e1 - e2 - (e1 - e2 - 53)) with 53 by lia.
  destruct (Z.div_eucl (Z.shiftl (Z.pos m1) 53) (Z.pos m2)) as [q r] eqn:E.
  assert (q = Z.shiftl (Z.pos m1) 53 / Z.pos m2) as Hq by (unfold Z.div; by rewrite E).
  rewrite Z.shiftl_mul_pow2 in Hq by lia.
  assert (0 <= q) by (subst q; apply Z.div_pos; lia).
  assert (2 ^ 52 <= Z.pos m2) by (apply Zdigits2_ge; lia).
  assert (Z.pos m1 < 2 ^ 53) by (apply Zdigits2_lt; lia).
  assert (q < 2 ^ 54).
  { subst q. apply Z.div_lt_upper_bound; [lia|]. nia. }
  assert (Zdigits2 q <= 54) by (apply Zdigits2_lt; lia).
  split; [by apply binary_round_aux_ok|].
  apply (below_mono (278 + 1)); [lia|]. apply binary_round_aux_below; unfold emin; lia.
Qed.

Lemma d_sqrt_fin m e :
  Zdigits2 (Z.pos m) = 53 → -201 <= e <= 75 → finb 300 (d_sqrt (S754_finite false m e)).
Proof.
  intros D He. unfold d_sqrt, SFsqrt, SFsqrt_core_binary. rewrite D.
  set (e' := Z.min (fexp 53 1024 (Z.div2 (53 + e + 1))) (Z.div2 e)).
  assert (52 <= e - 2 * e' <= 53 ∧ -300 <= e' <= 38) as [He' Hb].
  { unfold e', fexp, emin. rewrite !Z.div2_div.
    pose proof (Z.div_mod e 2). pose proof (Z.mod_pos_bound e 2).
    pose proof (Z.div_mod (53 + e + 1) 2). pose proof (Z.mod_pos_bound (53 + e + 1) 2). lia. }
  clearbody e'.
  destruct (e - 2 * e') as [|p|p] eqn:E; [lia| |lia].
  rewrite Z.shiftl_mul_pow2 by lia.
  assert (Z.pos m < 2 ^ 53) by (apply Zdigits2_lt; lia).
  assert (2 ^ Z.pos p <= 2 ^ 53) by (apply Z.pow_le_mono_r; lia).
  assert (0 < 2 ^ Z.pos p) by (apply Z.pow_pos_nonneg; lia).
  assert (0 <= Z.pos m * 2 ^ Z.pos p < 2 ^ 53 * 2 ^ 53) as Hm' by nia.
  destruct (Z.sqrtrem (Z.pos m * 2 ^ Z.pos p)) as [q r] eqn:Er.
  pose proof (Z.sqrtrem_sqrt (Z.pos m * 2 ^ Z.pos p)) as Hs. rewrite Er in Hs. simpl fst in Hs.
  pose proof (Z.sqrt_nonneg (Z.pos m * 2 ^ Z.pos p)).
  assert (q < 2 ^ 53) by (rewrite Hs; apply Z.sqrt_lt_square; lia).
  assert (Zdigits2 q <= 53) by (apply Zdigits2_lt; lia).
  split; [apply binary_round_aux_ok; lia|].
  apply (below_mono (100 + 1)); [lia|]. apply binary_round_aux_below; unfold emin; lia.
Qed.

(** ** Every operation is defined, 32-bit, and only accrues flags *)

Lemma fp_nan2_ok a b :
  accrues (fp_nan2 a b) (λ o, match o with
    | Some v => v = F32_CANON_NAN
    | None => f32_is_nan a = false ∧ f32_is_nan b = false
    end).
Proof.
  unfold fp_nan2. accrue; [done..|].
  destruct (f32_is_nan a), (f32_is_nan b); simpl; auto.
Qed.

Lemma canon_nan_in : res32 F32_CANON_NAN. Proof. by vm_compute. Qed.

(** The constants of the special cases. *)
Ltac pattern_in :=
  lazymatch goal with
  | |- res32 (if ?b then _ else _) => destruct b eqn:?; pattern_in
  | |- in32 (if ?b then _ else _) => destruct b; pattern_in
  | |- res32 F32_CANON_NAN => apply canon_nan_in
  | |- res32 (Zpos _) => clear; by vm_compute
  | |- res32 0 => clear; by vm_compute
  | |- in32 (Zpos _) => clear; by vm_compute
  | |- in32 0 => clear; by vm_compute
  | |- True => exact Logic.I
  | |- in32 _ => assumption
  | |- res32 _ =>
      split; [assumption|];
      let Hn := fresh in intros Hn; exfalso;
      repeat match goal with
      | H : _ || _ = false |- _ => apply orb_false_elim in H as [? ?]
      end;
      rewrite ?Hn, ?andb_true_r in *; congruence
  end.

(** A finite non-zero operand, as a [double]. *)
Lemma operand_cases b :
  in32 b → f32_is_nan b = false → f32_is_inf b = false → f32_is_zero b = false →
  ∃ m e, d_of_f (f32_val b) = S754_finite (f32_sign b) m e ∧
         Zdigits2 (Z.pos m) = 53 ∧ -201 <= e <= 75.
Proof.
  intros Hb Hn Hi Hz.
  destruct (f32_val_cases b Hb) as [[? _]|[[? _]|[[? _]|(_ & _ & _ & m & e & -> & Hm & He)]]];
    [congruence..|].
  destruct (d_of_f_exact (f32_sign b) m e Hm He) as (m' & -> & _ & Hd).
  apply Zdigits2_lt in Hm; [|lia..].
  assert (0 < Zdigits2 (Z.pos m)) by (simpl; lia).
  exists m', (Zdigits2 (Z.pos m) + e - 53). split_and!; [done..|lia|lia].
Qed.

Lemma d_of_f_val_fin b :
  in32 b → f32_is_nan b = false → f32_is_inf b = false → finb 129 (d_of_f (f32_val b)).
Proof. intros. split; [by apply d_of_f_val_ok|by apply d_of_f_val_below]. Qed.

Lemma operand_fin s m e :
  Zdigits2 (Z.pos m) = 53 → -201 <= e <= 75 → finb 300 (S754_finite s m e).
Proof.
  intros Hd He. split; [|unfold below; lia]. split; [|unfold emin; lia].
  apply Zdigits2_lt; lia.
Qed.

Lemma fp_add_ok a b rm : in32 a → in32 b → accrues (fp_add a b rm) res32.
Proof.
  intros Ha Hb. unfold fp_add. eapply accrues_bind; [apply fp_nan2_ok|].
  intros [v|]; [intros ->; accrue; pattern_in|]. intros [Na Nb]. accrue; try pattern_in.
  destruct (two_sum_fin 129 (d_of_f (f32_val a)) (d_of_f (f32_val b))) as [H1 H2]; [lia|..].
  1,2: apply d_of_f_val_fin; [done..|]; by destruct (f32_is_inf a), (f32_is_inf b).
  destruct (two_sum _ _) as [hi lo]. apply f32_round_ok; [apply H1|]. intros _. apply H2.
Qed.

Lemma fp_mul_ok a b rm : in32 a → in32 b → accrues (fp_mul a b rm) res32.
Proof.
  intros Ha Hb. unfold fp_mul. eapply accrues_bind; [apply fp_nan2_ok|].
  intros [v|]; [intros ->; accrue; pattern_in|]. intros [Na Nb]. accrue; try pattern_in.
  apply f32_round_ok; [|done].
  apply (fin_mul 129 129); [lia..| |]; apply d_of_f_val_fin; try done;
    by destruct (f32_is_inf a), (f32_is_inf b).
Qed.

Lemma fp_div_ok a b rm : in32 a → in32 b → accrues (fp_div a b rm) res32.
Proof.
  intros Ha Hb. unfold fp_div. eapply accrues_bind; [apply fp_nan2_ok|].
  intros [v|]; [intros ->; accrue; pattern_in|]. intros [Na Nb]. accrue; try pattern_in.
  destruct (f32_is_inf a) eqn:Ia, (f32_is_zero a) eqn:Za, (f32_is_inf b) eqn:Ib; try done.
  destruct (operand_cases a) as (m1 & e1 & -> & D1 & E1); [done..|].
  destruct (operand_cases b) as (m2 & e2 & -> & D2 & E2); [done..|].
  pose proof (d_div_fin (f32_sign a) m1 e1 (f32_sign b) m2 e2 D1 D2 E1 E2) as Hq.
  apply f32_round_ok; [apply Hq|]. intros _.
  destruct (remainder_exact_fin (S754_finite (f32_sign a) m1 e1) _ (S754_finite (f32_sign b) m2 e2)
              (operand_fin _ _ _ D1 E1) Hq (operand_fin _ _ _ D2 E2)) as [Hr _].
  repeat case_match; [done|by apply d_opp_ok|done].
Qed.

Lemma fp_sqrt_ok a rm : in32 a → accrues (fp_sqrt a rm) res32.
Proof.
  intros Ha. unfold fp_sqrt. accrue; try pattern_in.
  destruct (operand_cases a) as (m & e & -> & D & E); [done..|].
  assert (f32_sign a = false) as -> by done.
  pose proof (d_sqrt_fin m e D E) as Hq.
  apply f32_round_ok; [apply Hq|]. intros _.
  apply (remainder_exact_fin _ _ _ (operand_fin _ _ _ D E) Hq Hq).
Qed.

Lemma fp_fma_ok a b c rm : in32 a → in32 b → in32 c → accrues (fp_fma a b c rm) res32.
Proof.
  intros Ha Hb Hc. unfold fp_fma. accrue; try pattern_in.
  destruct (f32_is_nan a) eqn:Na, (f32_is_nan b) eqn:Nb, (f32_is_nan c) eqn:Nc; try done.
  destruct (f32_is_inf a) eqn:Ia, (f32_is_inf b) eqn:Ib; try done.
  destruct (two_sum_fin 259 (d_mul (d_of_f (f32_val a)) (d_of_f (f32_val b))) (d_of_f (f32_val c)))
    as [Hs1 Hs2]; [lia|..].
  { apply (fin_mul 129 129); [lia..| |]; by apply d_of_f_val_fin. }
  { apply (fin_mono 129); [lia|]. by apply d_of_f_val_fin. }
  destruct (two_sum _ _) as [hi lo]. apply f32_round_ok; [apply Hs1|]. intros _. apply Hs2.
Qed.

Lemma fp_minmax_ok a b mx : in32 a → in32 b → accrues (fp_minmax a b mx) res32.
Proof. intros Ha Hb. unfold fp_minmax. accrue; [done..|]. pattern_in. Qed.

Lemma fp_class_in a : in32 (fp_class a).
Proof. unfold fp_class. repeat case_match; by vm_compute. Qed.

Lemma round_integral_ok d rm : okd d → ∃ r, round_integral d rm = Some r ∧ okd r.
Proof.
  intros Hd. unfold round_integral.
  destruct (d_floor_ok d Hd) as (y & -> & Hy). destruct (d_ceil_ok d Hd) as (z & -> & Hz).
  destruct (d_is_odd_ok y Hy) as (odd & Eo).
  assert (okd (d_add y d_one)) by (apply (d_add_ok 1); [done|apply d_one_ok..]).
  simpl. unfold mbind, option_bind. rewrite Eo. repeat case_match; eauto.
Qed.

(** A magnitude that does not compare above a normalised limit truncates to
    at most the limit. *)
Lemma trunc_le_limit m e M E :
  m < 2 ^ 53 → 2 ^ 52 <= M → E < 0 → 0 <= m → e < E ∨ e = E ∧ m <= M →
  m / 2 ^ (- e) <= M / 2 ^ (- E).
Proof.
  intros Hm HM HE Hm0 [Hlt|[-> Hle]]; [|apply Z.div_le_mono; lia].
  transitivity (2 ^ 52 / 2 ^ (- E)); [|apply Z.div_le_mono; lia].
  transitivity (m / 2 ^ (- E + 1)).
  - apply Z.div_le_compat_l; [lia|]. split; [lia|]. apply Z.pow_le_mono_r; lia.
  - rewrite Z.pow_add_r by lia. change (2 ^ 1) with 2. rewrite Z.mul_comm, <-Zdiv.Zdiv_Zdiv by lia.
    apply Z.div_le_mono; [lia|]. apply Z.div_le_upper_bound; lia.
Qed.

(** What the two comparisons against the limits leave of an [okd] value:
    the sign, and an exponent and mantissa that are at most the limit's. *)
Lemma not_above_limit M E r :
  okd r → SFltb (S754_finite false M E) r = false →
  match r with
  | S754_zero _ => True
  | S754_finite false m e => e < E ∨ e = E ∧ Z.pos m <= Z.pos M
  | S754_finite true m e => True
  | S754_infinity s => s = true
  | S754_nan => False
  end.
Proof.
  destruct r as [s|s| |s m e]; try done; [by destruct s|]. intros _.
  destruct s; [done|]. unfold SFltb. simpl. destruct (Z.compare_spec E e); intros ?; try done; [|left; lia].
  right. split; [done|]. change (Pos.compare_cont Eq M m) with (Pos.compare M m) in *.
  destruct (Pos.compare_spec M m); simplify_eq; try done; lia.
Qed.

Lemma not_below_limit M E r :
  okd r → SFltb r (S754_finite true M E) = false →
  match r with
  | S754_zero _ => True
  | S754_finite true m e => e < E ∨ e = E ∧ Z.pos m <= Z.pos M
  | S754_finite false m e => True
  | S754_infinity s => s = false
  | S754_nan => False
  end.
Proof.
  destruct r as [s|s| |s m e]; try done; [by destruct s|]. intros _.
  destruct s; [|done]. unfold SFltb. simpl. destruct (Z.compare_spec e E); intros ?; try done; [|left; lia].
  right. split; [done|]. change (Pos.compare_cont Eq m M) with (Pos.compare m M) in *.
  destruct (Pos.compare_spec m M); simplify_eq; try done; lia.
Qed.

Lemma d_trunc_limit (s : bool) m e M E :
  Z.pos m < 2 ^ 53 → 2 ^ 52 <= M → E < 0 → e < E ∨ e = E ∧ Z.pos m <= M →
  ∃ t, d_trunc (S754_finite s m e) = Some (if s then - t else t) ∧ 0 <= t <= M / 2 ^ (- E).
Proof.
  intros Hm HM HE Hc. exists (Z.pos m / 2 ^ (- e)). simpl.
  replace (0 <=? e) with false by lia. split; [done|]. split.
  - apply Z.div_pos; lia.
  - apply trunc_le_limit; lia.
Qed.

Lemma d_to_uint32_ok r :
  okd r → SFltb r d_zero = false → SFltb (d_of_Z 4294967295) r = false →
  ∃ i, d_to_uint32 r = Some i ∧ in32 i.
Proof.
  intros Hr Hlo Hhi.
  assert (d_of_Z 4294967295 = S754_finite false 9007199252643840 (-21)) as Ec by by vm_compute.
  rewrite Ec in Hhi. pose proof (not_above_limit _ _ _ Hr Hhi) as Hc.
  destruct r as [s|s| |[] m e]; try done.
  - exists 0. by vm_compute.
  - by simplify_eq.
  - destruct (d_trunc_limit false m e 9007199252643840 (-21)) as (t & Et & Ht);
      [apply Hr|lia..|exact Hc|].
    exists t. unfold d_to_uint32, d_to_int. rewrite Et.
    change (9007199252643840 / 2 ^ (- -21)) with 4294967295 in Ht.
    rewrite !(proj2 (Z.leb_le _ _)) by lia.
    split; [done|unfold inw; lia].
Qed.

Lemma d_to_int32_ok r :
  okd r → SFltb r (d_of_Z (-2147483648)) = false → SFltb (d_of_Z 2147483647) r = false →
  ∃ i, d_to_int32 r = Some i ∧ - 2 ^ 31 <= i < 2 ^ 31.
Proof.
  intros Hr Hlo Hhi.
  assert (d_of_Z (-2147483648) = S754_finite true 4503599627370496 (-21)) as El by by vm_compute.
  assert (d_of_Z 2147483647 = S754_finite false 9007199250546688 (-22)) as Eh by by vm_compute.
  rewrite El in Hlo. rewrite Eh in Hhi.
  pose proof (not_above_limit _ _ _ Hr Hhi) as Hh. pose proof (not_below_limit _ _ _ Hr Hlo) as Hl.
  destruct r as [s|s| |s m e]; try done; [exists 0; by vm_compute|by simplify_eq|].
  unfold d_to_int32, d_to_int. destruct s.
  - destruct (d_trunc_limit true m e 4503599627370496 (-21)) as (t & -> & Ht);
      [apply Hr|lia..|exact Hl|].
    exists (- t). change (4503599627370496 / 2 ^ (- -21)) with 2147483648 in Ht.
    rewrite !(proj2 (Z.leb_le _ _)) by lia. split; [done|lia].
  - destruct (d_trunc_limit false m e 9007199250546688 (-22)) as (t & -> & Ht);
      [apply Hr|lia..|exact Hh|].
    exists t. change (9007199250546688 / 2 ^ (- -22)) with 2147483647 in Ht.
    rewrite !(proj2 (Z.leb_le _ _)) by lia. split; [done|lia].
Qed.

Lemma fp_to_int_ok a (us : bool) rm : in32 a → accrues (fp_to_int a us rm) in32.
Proof.
  intros Ha. unfold fp_to_int. accrue; try pattern_in.
  destruct (d_of_f_val_fin a) as [Hd _]; [done..|].
  destruct (round_integral_ok _ rm Hd) as (r & Er & Hr).
  eapply accrues_bind; [apply accrues_lift; exists r; split; [exact Er|exact Hr]|].
  intros r' Hr'. clear Er. destruct us.
  - accrue; try pattern_in. apply accrues_lift. apply d_to_uint32_ok; assumption.
  - accrue; try pattern_in. eapply (accrues_bind _ _ (λ _, True)); [|intros i _; accrue; apply u32_in].
    apply accrues_lift. destruct (d_to_int32_ok r') as (i & Ei & _); [assumption..|exact (ex_intro _ i (conj Ei Logic.I))].
Qed.

(** [fcvt.s.w] and [fcvt.s.wu]: the operand is an integer of 33 bits at most. *)
Lemma fp_of_int_ok n rm sz : accrues (f32_round (d_of_Z n) d_zero rm sz) res32.
Proof. apply f32_round_ok; [apply d_of_Z_ok|done]. Qed.
