(* ===== verification/Rv32Safe.v ===== *)
(** * Safety of the interpreter

    What the interpreter expects of its host ([HostLaws]), the invariant of
    a running machine ([Inv]) and, for every function of the interpreter,
    that it is free of undefined behaviour and keeps the invariant. *)

From S2P Require Import Prelude HostFloat Rv32State Rv32Decode Rv32Bits Rv32Float Rv32Exec Rv32FloatProps.

(** ** The interface with the host

    [I h b] is the host's own invariant on its state [b] while the [halted]
    flag of the processor is [h].  A half-word or word access is promised to
    be defined at an aligned address only.  An environment-call handler that
    declines a call (a non-zero result) leaves [x0] and the trap flag alone. *)

Class HostLaws {B} (cb : rv_callbacks B) (I : bool → B → Prop) : Prop := {
  read8_ok h b a : I h b → in32 a →
    ∃ v b', cb.(read8) b a = Some (v, b') ∧ in32 v ∧ I h b';
  read16_ok h b a : I h b → in32 a → a .& 1 = 0 →
    ∃ v b', cb.(read16) b a = Some (v, b') ∧ in32 v ∧ I h b';
  read32_ok h b a : I h b → in32 a → a .& 3 = 0 →
    ∃ v b', cb.(read32) b a = Some (v, b') ∧ in32 v ∧ I h b';
  write8_ok h b a v : I h b → in32 a → in32 v → ∃ b', cb.(write8) b a v = Some b' ∧ I h b';
  write16_ok h b a v : I h b → in32 a → in32 v → a .& 1 = 0 →
    ∃ b', cb.(write16) b a v = Some b' ∧ I h b';
  write32_ok h b a v : I h b → in32 a → in32 v → a .& 3 = 0 →
    ∃ b', cb.(write32) b a v = Some b' ∧ I h b';
  ecall_ok h c b : cb.(ecall) = Some h → I c.(halted) b → wf_cpu c →
    c.(in_trap) = false →
    ∃ r c' b', h c b = Some (r, (c', b')) ∧ wf_cpu c' ∧ I c'.(halted) b' ∧
      (r ≠ 0 → c'.(in_trap) = false ∧ c'.(x) !! 0%nat = c.(x) !! 0%nat)
}.

(** Bounds of the decoded fields. *)
Lemma RD_bound i : 0 <= RD i < 32.
Proof. apply (inw_land_r 5). unfold inw; lia. Qed.
Lemma RS1_bound i : 0 <= RS1 i < 32.
Proof. apply (inw_land_r 5). unfold inw; lia. Qed.
Lemma RS2_bound i : 0 <= RS2 i < 32.
Proof. apply (inw_land_r 5). unfold inw; lia. Qed.
Lemma RS3_bound i : 0 <= RS3 i < 32.
Proof. apply (inw_land_r 5). unfold inw; lia. Qed.
#[export] Hint Resolve RD_bound RS1_bound RS2_bound RS3_bound : word.

(** ** Results of the arithmetic are 32-bit *)

Lemma one_shl_in n : 0 <= n < 32 → in32 (1 << n).
Proof.
  intros. rewrite Z.shiftl_1_l. split; [lia|]. apply Z.pow_lt_mono_r; lia.
Qed.

Lemma land_31_bound z : 0 <= z .& 31 < 32.
Proof. apply (inw_land_r 5). unfold inw; lia. Qed.

#[export] Hint Resolve one_shl_in land_31_bound : word.

Lemma rot_in v n : in32 v → in32 (rotr32 v n) ∧ in32 (rotl32 v n).
Proof.
  intros Hv. pose proof (land_31_bound n). unfold rotr32, rotl32.
  destruct (nz _); [|done]. split; apply inw_lor; auto with word.
Qed.

Lemma count_loops_in fuel v n :
  in32 n → (n + Z.of_nat fuel < 2 ^ 32) →
  in32 (clz_loop fuel v n) ∧ in32 (ctz_loop fuel v n) ∧ in32 (cpop_loop fuel v n).
Proof.
  unfold inw. revert v n. induction fuel as [|fuel IH]; intros v n Hn Hb; simpl; [done|].
  refine (conj _ (conj _ _)); case_match; try done; apply IH; lia.
Qed.

Lemma counts_in v : in32 (clz32 v) ∧ in32 (ctz32 v) ∧ in32 (cpop32 v).
Proof.
  unfold clz32, ctz32, cpop32.
  destruct (count_loops_in 32 v 0) as (? & ? & ?); [unfold inw; lia|lia|].
  split_and!; try case_match; auto with word.
Qed.

Lemma orcb32_in v : in32 (orcb32 v).
Proof.
  unfold orcb32. cbn [foldl].
  destruct (nz ((v >> 0) .& 255)), (nz ((v >> 8) .& 255)), (nz ((v >> 16) .& 255)),
    (nz ((v >> 24) .& 255)); by vm_compute.
Qed.

Lemma rev8_32_in v : in32 v → in32 (rev8_32 v).
Proof. intros. unfold rev8_32. auto 8 with word. Qed.

(** Splits the cascade of [if]s of a decoder. *)
Ltac cascade H :=
  repeat match type of H with
  | Some _ = Some _ => injection H as <-
  | None = Some _ => discriminate H
  | (if ?b then _ else _) = Some _ => destruct b
  end.

Lemma bitmanip_reg_in insn f3 f7 a b v :
  in32 a → in32 b → bitmanip_reg insn f3 f7 a b = Some v → in32 v.
Proof.
  intros Ha Hb H. unfold bitmanip_reg in H. pose proof (land_31_bound b).
  cascade H; try (apply rot_in; done); auto 8 with word.
Qed.

Lemma bitmanip_imm_in insn f3 f7 a v :
  in32 a → bitmanip_imm insn f3 f7 a = Some v → in32 v.
Proof.
  intros Ha H. unfold bitmanip_imm in H. pose proof (RS2_bound insn).
  cascade H; try (apply rot_in; done); try apply counts_in;
    auto 8 using orcb32_in, rev8_32_in with word.
Qed.

Lemma base_reg_in f3 f7 a b v : in32 a → in32 b → base_reg f3 f7 a b = Some v → in32 v.
Proof.
  intros Ha Hb H. unfold base_reg in H. pose proof (land_31_bound b).
  cascade H; auto 8 with word.
Qed.

Lemma base_imm_in f3 f7 a i v : in32 a → base_imm f3 f7 a i = Some v → in32 v.
Proof.
  intros Ha H. unfold base_imm in H. pose proof (land_31_bound (u32 i)).
  cascade H; auto 8 with word.
Qed.

Lemma m_ext_in f3 a b : in32 a → in32 b → in32 (m_ext f3 a b).
Proof.
  intros Ha Hb. unfold m_ext. repeat case_match; auto with word.
  - split; [apply Z.div_pos; unfold inw in *; lia|].
    unfold inw in *. assert (a / b <= a) by (apply Z.div_le_upper_bound; nia). lia.
  - assert (0 < b) by (unfold inw in *; lia).
    pose proof (Z.mod_pos_bound a b ltac:(lia)). unfold inw in *. lia.
Qed.

Lemma amo_op_in f5 o b v : in32 o → in32 b → amo_op f5 o b = Some v → in32 v.
Proof. intros Ho Hb H. unfold amo_op in H. cascade H; auto with word. Qed.

Lemma csr_read_in c csr v : wf_cpu c → csr_read c csr = Some v → in32 v.
Proof.
  intros Hc H. unfold csr_read in H. pose proof (wf_fcsr _ Hc) as Hf.
  apply (inw_mono _ 32) in Hf; [|lia].
  cascade H; try by auto with word.
  destruct (atomics c), (bitmanip c); clear; by vm_compute.
Qed.

Lemma inw_lor_shl w k a b : 0 <= k → inw w a → inw (w - k) b → inw w (a .| (b << k)).
Proof. intros. apply inw_lor; [done|]. apply inw_shiftl; done. Qed.

Lemma csr_write_ok c csr v c' :
  wf_cpu c → in32 v → csr_write c csr v = Some c' →
  wf_cpu c' ∧ c'.(x) = c.(x) ∧ c'.(in_trap) = c.(in_trap) ∧ c'.(halted) = c.(halted).
Proof.
  intros Hc Hv H. unfold csr_write in H. pose proof (wf_fcsr _ Hc) as Hf.
  assert (in64 v) by (by apply (inw_mono 32)).
  cascade H; split_and!; try done; auto 8 with word;
    first [apply wf_with_fcsr|apply wf_with_mcycle|apply wf_with_minstret]; try done;
    try (apply inw_lor; auto with word); try (apply inw_shiftl; [lia|]); auto with word.
Qed.

(** ** Expanded instructions are 32-bit *)

Lemma enc_in :
  (∀ imm rs1 f3 rd op, in32 (enc_i imm rs1 f3 rd op)) ∧
  (∀ imm rs2 rs1 f3 op, in32 (enc_s imm rs2 rs1 f3 op)) ∧
  (∀ imm rs2 rs1 f3 op, in32 (enc_b imm rs2 rs1 f3 op)) ∧
  (∀ imm rd op, in32 (enc_j imm rd op)) ∧
  (∀ f7 rs2 rs1 f3 rd op, in32 (enc_r f7 rs2 rs1 f3 rd op)).
Proof. split_and!; intros; apply u32_in. Qed.

Lemma expand_in c : in32 (rv_expand_c c) ∧ in32 (rv_expand_zcb c).
Proof.
  destruct enc_in as (Hi & Hs & Hb & Hj & Hr). assert (in32 0) by (unfold inw; lia).
  split.
  - unfold rv_expand_c, expand_c_q0, expand_c_q1, expand_c_q2. cbv zeta.
    repeat (case_match; try done). all: apply inw_lor; [|by vm_compute].
    all: apply inw_lor; [apply inw_land_r; by vm_compute|].
    all: apply inw_shiftl; [lia|]; apply inw_land_r; by vm_compute.
  - unfold rv_expand_zcb. cbv zeta. repeat (case_match; try done).
Qed.

Section Inv.
Context {B : Type} (cb : rv_callbacks B) (I : bool → B → Prop).
Context `{HL : !HostLaws cb I}.

(** [z]: [x0] holds zero.  [t]: no trap was taken yet in this step. *)
Record Inv (z t : bool) (s : sys B) : Prop := {
  inv_wf : wf_cpu s.(cpu);
  inv_bus : I s.(cpu).(halted) s.(bus);
  inv_x0 : z = true → s.(cpu).(x) !! 0%nat = Some 0;
  inv_trap : t = true → s.(cpu).(in_trap) = false
}.

Lemma inv_weaken z t s : Inv z t s → Inv false false s.
Proof. by intros []. Qed.

(** ** Functions on the processor *)

Lemma wf_push_trace ty p i a n c : wf_cpu c → wf_cpu (push_trace ty p i a n c).
Proof.
  intros Hc. unfold push_trace. apply wf_with_trace; [|apply u32_in|done].
  simpl. rewrite length_insert. by apply wf_trace.
Qed.

Lemma wf_rv_trap cause tval c :
  in32 cause → in32 tval → wf_cpu c → wf_cpu (rv_trap cause tval c).
Proof.
  intros Hcause Htval Hc. unfold rv_trap.
  destruct (in_trap c) eqn:Ht.
  { apply wf_with_halted. by apply wf_push_trace. }
  cbv zeta. apply wf_push_trace. apply wf_with_in_trap.
  apply wf_with_pc.
  { simpl. case_match; [apply u32_in|]. case_match; simpl; apply inw_land_l; by apply wf_mtvec. }
  apply wf_with_waiting.
  assert (in32 RV_MSTATUS_MPP ∧ in32 RV_MSTATUS_MPIE) as [H1 H2] by (vm_compute; repeat split; congruence).
  assert (in32 (mstatus c .& not32 RV_MSTATUS_MPIE)) by (apply inw_land_l; by apply wf_mstatus).
  set (c1 := with_mstatus _ (with_res_valid _ _)).
  assert (wf_cpu c1).
  { unfold c1. simpl. auto 12 with word. }
  assert (wf_cpu (if nz (mstatus c1 .& RV_MSTATUS_MIE)
                  then with_mstatus (mstatus c1 .| RV_MSTATUS_MPIE) c1 else c1)) as Hc2.
  { case_match; auto with word. }
  set (c2 := if nz _ then _ else _) in *.
  apply wf_with_mstatus; simpl; [apply inw_lor; [apply inw_land_l; by apply wf_mstatus|done]|].
  apply wf_with_mstatus; [apply inw_land_l; by apply wf_mstatus|done].
Qed.

Lemma rv_trap_first cause tval c :
  c.(in_trap) = false →
  (rv_trap cause tval c).(halted) = c.(halted) ∧ (rv_trap cause tval c).(x) = c.(x) ∧
  (rv_trap cause tval c).(in_trap) = true ∧ (rv_trap cause tval c).(f) = c.(f).
Proof. intros H. unfold rv_trap. rewrite H. simpl. by case_match. Qed.

(** ** Primitive steps *)

Implicit Types Q : Z → sys B → Prop.

(** A processor update that leaves the integer registers alone. *)
Lemma inv_upd z t s c :
  Inv z t s → wf_cpu c → c.(x) = s.(cpu).(x) → c.(in_trap) = s.(cpu).(in_trap) →
  c.(halted) = s.(cpu).(halted) → Inv z t (mk_sys c s.(bus)).
Proof. intros [] ? Hx Ht Hh. constructor; simpl; rewrite ?Hx, ?Ht, ?Hh; auto. Qed.

Lemma wp_on_cpu g (Q : unit → sys B → Prop) s :
  Q tt (mk_sys (g s.(cpu)) s.(bus)) → wp (on_cpu g) Q s.
Proof. done. Qed.

Lemma on_cpu_ok z t g (Q : unit → sys B → Prop) s :
  Inv z t s →
  (wf_cpu s.(cpu) → wf_cpu (g s.(cpu)) ∧ (g s.(cpu)).(x) = s.(cpu).(x) ∧
     (g s.(cpu)).(in_trap) = s.(cpu).(in_trap) ∧ (g s.(cpu)).(halted) = s.(cpu).(halted)) →
  (∀ s', Inv z t s' → Q tt s') → wp (on_cpu g) Q s.
Proof.
  intros HI Hg HQ. apply HQ. destruct (Hg (inv_wf _ _ _ HI)) as (? & ? & ? & ?).
  by apply inv_upd.
Qed.

Lemma push_trace_ok z t ty p i a n (Q : unit → sys B → Prop) s :
  Inv z t s → (∀ s', Inv z t s' → Q tt s') → wp (on_cpu (push_trace ty p i a n)) Q s.
Proof.
  intros HI. eapply on_cpu_ok; [done|]. intros. split_and!; [by apply wf_push_trace|done..].
Qed.

Lemma trap_ok z cause tval (Q : unit → sys B → Prop) s :
  Inv z true s → in32 cause → in32 tval → (∀ s', Inv z false s' → Q tt s') →
  wp (on_cpu (rv_trap cause tval)) Q s.
Proof.
  intros HI ? ? HQ. apply HQ.
  destruct (rv_trap_first cause tval s.(cpu)) as (Eh & Ex & Et & Ef); [by apply HI|].
  destruct HI. constructor; simpl; [by apply wf_rv_trap|by rewrite Eh|by rewrite Ex|done].
Qed.

Lemma reg_lookup (l : list Z) i :
  length l = 32%nat → Forall in32 l → 0 <= i < 32 → ∃ v, l !! Z.to_nat i = Some v ∧ in32 v.
Proof.
  intros Hl Hf Hi. destruct (lookup_lt_is_Some_2 l (Z.to_nat i)) as [v Hv]; [lia|].
  exists v. split; [done|]. by eapply Forall_lookup_1.
Qed.

Lemma rd_x_ok z t i Q s :
  Inv z t s → 0 <= i < 32 → (∀ v, in32 v → Q v s) → wp (rd_x i) Q s.
Proof.
  intros HI Hi HQ. pose proof (inv_wf _ _ _ HI) as Hw.
  destruct (reg_lookup (s.(cpu).(x)) i) as (v & Hv & ?); [by apply Hw..|done|].
  unfold wp, rd_x. rewrite Hv. auto.
Qed.

Lemma wr_x_ok z t i v (Q : unit → sys B → Prop) s :
  Inv z t s → 0 <= i < 32 → in32 v → (∀ s', Inv false t s' → Q tt s') → wp (wr_x i v) Q s.
Proof.
  intros HI Hi Hv HQ. pose proof (inv_wf _ _ _ HI) as Hw.
  destruct (reg_lookup (s.(cpu).(x)) i) as (w & Hl & ?); [by apply Hw..|done|].
  unfold wp, wr_x. rewrite Hl. apply HQ. destruct HI. constructor; simpl; try done.
  apply wf_with_x; [rewrite length_insert; apply Hw|apply Forall_insert; [apply Hw|done]|done].
Qed.

Lemma wr_x0_ok z t (Q : unit → sys B → Prop) s :
  Inv z t s → (∀ s', Inv true t s' → Q tt s') → wp (wr_x 0 0) Q s.
Proof.
  intros HI HQ. pose proof (inv_wf _ _ _ HI) as Hw. assert (in32 0) by (unfold inw; lia).
  destruct (reg_lookup (s.(cpu).(x)) 0) as (w & Hl & ?); [by apply Hw..|lia|].
  unfold wp, wr_x. rewrite Hl. apply HQ. destruct HI. constructor; simpl; try done.
  - apply wf_with_x; [rewrite length_insert; apply Hw|apply Forall_insert; [apply Hw|done]|done].
  - intros _. apply list_lookup_insert_eq. rewrite (wf_x_len _ Hw). lia.
Qed.

Lemma fin_ok z t next Q s :
  Inv z t s → in32 next → (∀ s', Inv true t s' → Q next s') → wp (fin next) Q s.
Proof.
  intros HI Hn HQ. unfold fin. apply wp_bind. eapply wr_x0_ok; [done|].
  intros. by apply wp_ret, HQ.
Qed.

Lemma rd_f_ok z t i Q s :
  Inv z t s → 0 <= i < 32 → (∀ v, in32 v → Q v s) → wp (rd_f i) Q s.
Proof.
  intros HI Hi HQ. pose proof (inv_wf _ _ _ HI) as Hw.
  destruct (reg_lookup (s.(cpu).(f)) i) as (v & Hv & ?); [by apply Hw..|done|].
  unfold wp, rd_f. rewrite Hv. auto.
Qed.

Lemma wr_f_ok z t i v (Q : unit → sys B → Prop) s :
  Inv z t s → 0 <= i < 32 → in32 v → (∀ s', Inv z t s' → Q tt s') → wp (wr_f i v) Q s.
Proof.
  intros HI Hi Hv HQ. pose proof (inv_wf _ _ _ HI) as Hw.
  destruct (reg_lookup (s.(cpu).(f)) i) as (w & Hl & ?); [by apply Hw..|done|].
  unfold wp, wr_f. rewrite Hl. apply HQ. eapply inv_upd; [done| |done..].
  apply wf_with_f; [rewrite length_insert; apply Hw|apply Forall_insert; [apply Hw|done]|done].
Qed.

Lemma on_fp_ok {A} z t (m : M rv_cpu A) P (Q : A → sys B → Prop) s :
  accrues m P → Inv z t s → (∀ a s', P a → Inv z t s' → Q a s') → wp (on_fp m) Q s.
Proof.
  intros Hm HI HQ. destruct (Hm s.(cpu)) as (a & k & E & Hk & Ha).
  unfold wp, on_fp. rewrite E. apply HQ; [done|]. eapply inv_upd; [done| |done..].
  pose proof (inv_wf _ _ _ HI) as Hw. apply wf_with_fcsr; [|done].
  apply inw_lor; [apply Hw|by apply (inw_mono 5)].
Qed.

Lemma get_cpu_ok z t (Q : rv_cpu → sys B → Prop) s :
  Inv z t s → (wf_cpu s.(cpu) → Q s.(cpu) s) → wp get_cpu Q s.
Proof. intros HI HQ. apply HQ, HI. Qed.

Lemma probe_ok a sz w (Q : bool → sys B → Prop) s :
  (∀ b, Q b s) → wp (probe_rejects cb a sz w) Q s.
Proof. intros HQ. apply HQ. Qed.

Lemma inv_bus_upd z t s b : Inv z t s → I s.(cpu).(halted) b → Inv z t (mk_sys s.(cpu) b).
Proof. intros [] ?. by constructor. Qed.

(** ** The bus *)

Lemma land_low_1 a : a .& 3 = 0 → a .& 1 = 0.
Proof. intros H. change 1 with (3 .& 1). by rewrite Z.land_assoc, H. Qed.

Lemma bus_rd8_ok z t a Q s :
  Inv z t s → in32 a → (∀ v s', in32 v → Inv z t s' → Q v s') →
  wp (bus_rd cb.(read8) a) Q s.
Proof.
  intros HI Ha HQ. destruct (read8_ok s.(cpu).(halted) s.(bus) a) as (v & b & E & ? & ?); [by apply HI|done|].
  unfold wp, bus_rd. rewrite E. apply HQ; [done|]. by apply inv_bus_upd.
Qed.

Lemma bus_rd16_ok z t a Q s :
  Inv z t s → in32 a → a .& 1 = 0 →
  (∀ v s', in32 v → s'.(cpu) = s.(cpu) → Inv z t s' → Q v s') →
  wp (bus_rd cb.(read16) a) Q s.
Proof.
  intros HI Ha Hal HQ. destruct (read16_ok s.(cpu).(halted) s.(bus) a) as (v & b & E & ? & ?); [by apply HI|done..|].
  unfold wp, bus_rd. rewrite E. apply HQ; [done..|]. by apply inv_bus_upd.
Qed.

Lemma bus_rd32_ok z t a Q s :
  Inv z t s → in32 a → a .& 3 = 0 → (∀ v s', in32 v → Inv z t s' → Q v s') →
  wp (bus_rd cb.(read32) a) Q s.
Proof.
  intros HI Ha Hal HQ. destruct (read32_ok s.(cpu).(halted) s.(bus) a) as (v & b & E & ? & ?); [by apply HI|done..|].
  unfold wp, bus_rd. rewrite E. apply HQ; [done|]. by apply inv_bus_upd.
Qed.

(** The three writes, by the width the aligned path of [mem_write] picks. *)
Lemma bus_wr_ok z t size a v (Q : unit → sys B → Prop) s :
  Inv z t s → in32 a → in32 v → size = 1 ∨ size = 2 ∨ size = 4 → a .& (size - 1) = 0 →
  (∀ s', Inv z t s' → Q tt s') →
  wp (if size =? 1 then bus_wr cb.(write8) a (v .& 0xff)
      else if size =? 2 then bus_wr cb.(write16) a (v .& 0xffff)
      else bus_wr cb.(write32) a v) Q s.
Proof.
  intros HI Ha Hv Hsz Hal HQ. pose proof (inv_bus _ _ _ HI).
  destruct Hsz as [->|[->| ->]]; simpl in *; unfold wp, bus_wr.
  - destruct (write8_ok s.(cpu).(halted) s.(bus) a (v .& 255)) as (b & -> & ?); auto with word.
    by apply HQ, inv_bus_upd.
  - destruct (write16_ok s.(cpu).(halted) s.(bus) a (v .& 65535)) as (b & -> & ?); auto with word.
    by apply HQ, inv_bus_upd.
  - destruct (write32_ok s.(cpu).(halted) s.(bus) a v) as (b & -> & ?); auto with word.
    by apply HQ, inv_bus_upd.
Qed.

Lemma read_bytes_ok z t n i a v Q s :
  Inv z t s → in32 a → in32 v → (∀ v s', in32 v → Inv z t s' → Q v s') →
  wp (read_bytes cb n i a v) Q s.
Proof.
  revert i v s. induction n as [|n IH]; intros i v s HI Ha Hv HQ; simpl; [by apply wp_ret, HQ|].
  apply wp_bind. eapply bus_rd8_ok; [done|apply u32_in|]. intros b s' Hb HI'.
  apply IH; auto with word.
Qed.

Lemma write_bytes_ok z t n i a v (Q : unit → sys B → Prop) s :
  Inv z t s → in32 a → in32 v → (∀ s', Inv z t s' → Q tt s') →
  wp (write_bytes cb n i a v) Q s.
Proof.
  revert i s. induction n as [|n IH]; intros i s HI Ha Hv HQ; simpl; [by apply wp_ret, HQ|].
  apply wp_bind. unfold wp at 1, bus_wr.
  destruct (write8_ok s.(cpu).(halted) s.(bus) (u32 (a + i)) ((v >> (8 * i)) .& 255)) as (b & -> & ?);
    [by apply HI|auto with word|auto with word|].
  apply IH; auto. by apply inv_bus_upd.
Qed.

Definition access_size (size : Z) : Prop := size = 1 ∨ size = 2 ∨ size = 4.

Ltac cause_in := by vm_compute.

Lemma mem_read_ok z a size (Q : option Z → sys B → Prop) s :
  Inv z true s → in32 a → access_size size →
  (∀ v s', in32 v → Inv z true s' → Q (Some v) s') → (∀ s', Inv z false s' → Q None s') →
  wp (mem_read cb a size) Q s.
Proof.
  intros HI Ha Hsz HS HN. unfold mem_read.
  apply wp_bind. eapply get_cpu_ok; [done|intros _]. apply wp_if; intros _.
  { apply wp_bind. eapply push_trace_ok; [done|]. intros s1 H1.
    apply wp_bind. eapply trap_ok; [done|cause_in|done|]. intros. by apply wp_ret, HN. }
  apply wp_bind, probe_ok. intros []; simpl.
  { apply wp_bind. eapply push_trace_ok; [done|]. intros s1 H1.
    apply wp_bind. eapply trap_ok; [done|cause_in|done|]. intros. by apply wp_ret, HN. }
  apply wp_if; intros Hal.
  - destruct Hsz as [->|[->| ->]]; simpl in *; apply wp_bind.
    + eapply bus_rd8_ok; [done..|]. intros. apply wp_ret, HS; auto with word.
    + eapply bus_rd16_ok; [done..|by apply Z.eqb_eq|]. intros. apply wp_ret, HS; auto with word.
    + eapply bus_rd32_ok; [done..|by apply Z.eqb_eq|]. intros. apply wp_ret, HS; auto with word.
  - apply wp_bind. eapply read_bytes_ok; [done..|unfold inw; lia|]. intros.
    apply wp_ret, HS; auto.
Qed.

Lemma mem_write_ok z a size v (Q : bool → sys B → Prop) s :
  Inv z true s → in32 a → in32 v → access_size size →
  (∀ s', Inv z true s' → Q false s') → (∀ s', Inv z false s' → Q true s') →
  wp (mem_write cb a size v) Q s.
Proof.
  intros HI Ha Hv Hsz HS HN. unfold mem_write.
  apply wp_bind. eapply get_cpu_ok; [done|intros _]. apply wp_if; intros _.
  { apply wp_bind. eapply push_trace_ok; [done|]. intros s1 H1.
    apply wp_bind. eapply trap_ok; [done|cause_in|done|]. intros. by apply wp_ret, HN. }
  apply wp_bind, probe_ok. intros []; simpl.
  { apply wp_bind. eapply push_trace_ok; [done|]. intros s1 H1.
    apply wp_bind. eapply trap_ok; [done|cause_in|done|]. intros. by apply wp_ret, HN. }
  apply wp_if; intros Hal; apply wp_bind.
  - eapply bus_wr_ok; [done..|by apply Z.eqb_eq|]. intros. by apply wp_ret, HS.
  - eapply write_bytes_ok; [done..|]. intros. by apply wp_ret, HS.
Qed.

(** ** Instructions

    What [exec] leaves: a 32-bit next address and the invariant with [x0]
    cleared, a trap possibly taken. *)

Definition Done (v : Z) (s : sys B) : Prop := in32 v ∧ Inv true false s.

Lemma done_ret z t v s : Inv z t s → in32 v → z = true → wp (mret v) Done s.
Proof. intros [] Hv ->. apply wp_ret. split; [done|by constructor]. Qed.

Lemma done_fin z t v s : Inv z t s → in32 v → wp (fin v) Done s.
Proof.
  intros HI Hv. eapply fin_ok; [done..|]. intros s' []. split; [done|by constructor].
Qed.

Lemma illegal_ok z insn (Q : unit → sys B → Prop) s :
  Inv z true s → in32 insn → (∀ s', Inv z false s' → Q tt s') → wp (illegal insn) Q s.
Proof.
  intros HI Hi HQ. unfold illegal. apply wp_bind. eapply get_cpu_ok; [done|intros _].
  apply wp_bind. eapply push_trace_ok; [done|]. intros.
  eapply trap_ok; [done|by vm_compute|done..].
Qed.

Lemma illegal_ret_ok insn next s :
  Inv true true s → in32 insn → in32 next → wp (illegal_ret insn next) Done s.
Proof.
  intros. unfold illegal_ret. apply wp_bind. eapply illegal_ok; [done..|].
  intros. by eapply done_ret.
Qed.

Lemma load_then_ok a size next k s :
  Inv true true s → in32 a → in32 next → access_size size →
  (∀ v s', in32 v → Inv true true s' → wp (k v) Done s') →
  wp (load_then cb a size next k) Done s.
Proof.
  intros HI Ha Hn Hsz Hk. unfold load_then. apply wp_bind.
  eapply mem_read_ok; [done..|auto|]. intros. by eapply done_ret.
Qed.

Ltac size := unfold access_size; lia.

(** One step of the symbolic execution of an instruction. *)
Ltac stp :=
  cbv beta;
  lazymatch goal with
  | |- wp (illegal_ret _ _) Done _ => eapply illegal_ret_ok; [eassumption|..]
  | |- wp (fin _) Done _ => eapply done_fin; [eassumption|..]
  | |- wp (mret _) Done _ => eapply done_ret; [eassumption| |reflexivity]
  | |- wp (mret tt) _ _ => apply wp_ret
  | |- wp (load_then _ _ _ _ _) Done _ => eapply load_then_ok; [eassumption| | |size|intros]
  | |- wp (mbind _ _) _ _ => apply wp_bind
  | |- wp (if _ then _ else _) _ _ => apply wp_if; intros ?
  | |- wp get_cpu _ _ => eapply get_cpu_ok; [eassumption|intros ?]
  | |- wp (rd_x _) _ _ => eapply rd_x_ok; [eassumption| |intros]
  | |- wp (wr_x _ _) _ _ => eapply wr_x_ok; [eassumption| | |intros]
  | |- wp (rd_f _) _ _ => eapply rd_f_ok; [eassumption| |intros]
  | |- wp (wr_f _ _) _ _ => eapply wr_f_ok; [eassumption| | |intros]
  | |- wp (on_cpu (push_trace _ _ _ _ _)) _ _ => eapply push_trace_ok; [eassumption|intros]
  | |- wp (on_cpu (rv_trap _ _)) _ _ => eapply trap_ok; [eassumption|..|intros]
  | |- wp (mem_write _ _ _ _) _ _ => eapply mem_write_ok; [eassumption| | |size|intros|intros]
  end.
Ltac side :=
  lazymatch goal with
  | |- wp _ _ _ => idtac
  | |- inw _ (if ?b then _ else _) => destruct b; side
  | |- inw _ ?k => first [assumption | is_const k; by vm_compute | by auto with word]
  | |- _ => first [assumption | lia | by auto with word]
  end.
Ltac go := repeat stp; try side.

Lemma exec_load_ok insn next rd f3 a s :
  Inv true true s → in32 insn → in32 next → 0 <= rd < 32 → in32 a →
  wp (exec_load cb insn next rd f3 a) Done s.
Proof. intros. unfold exec_load. go. Qed.

Lemma exec_store_ok insn next f3 a b s :
  Inv true true s → in32 insn → in32 next → in32 a → in32 b →
  wp (exec_store cb insn next f3 a b) Done s.
Proof. intros. unfold exec_store. go. Qed.

Lemma zb_reg_ok insn next rd f3 f7 a b s :
  Inv true true s → in32 insn → in32 next → 0 <= rd < 32 → in32 a → in32 b →
  wp (zb_reg insn next rd f3 f7 a b) Done s.
Proof.
  intros. unfold zb_reg. go. destruct (if bitmanip _ then _ else _) as [v|] eqn:E; [|by go].
  assert (in32 v) by (destruct (bitmanip _); [apply bitmanip_reg_in in E; done|discriminate]).
  change (wp (wr_x rd v;; fin next) Done s). go.
Qed.

Lemma zb_imm_ok insn next rd f3 f7 a s :
  Inv true true s → in32 insn → in32 next → 0 <= rd < 32 → in32 a →
  wp (zb_imm insn next rd f3 f7 a) Done s.
Proof.
  intros. unfold zb_imm. go. destruct (if bitmanip _ then _ else _) as [v|] eqn:E; [|by go].
  assert (in32 v) by (destruct (bitmanip _); [apply bitmanip_imm_in in E; done|discriminate]).
  change (wp (wr_x rd v;; fin next) Done s). go.
Qed.

Lemma exec_imm_ok insn next rd f3 f7 a s :
  Inv true true s → in32 insn → in32 next → 0 <= rd < 32 → in32 a →
  wp (exec_imm insn next rd f3 f7 a) Done s.
Proof.
  intros. unfold exec_imm. destruct (base_imm _ _ _ _) eqn:E; [|by apply zb_imm_ok].
  apply base_imm_in in E; [|done]. go.
Qed.

Lemma exec_reg_ok insn next rd f3 f7 a b s :
  Inv true true s → in32 insn → in32 next → 0 <= rd < 32 → in32 a → in32 b →
  wp (exec_reg insn next rd f3 f7 a b) Done s.
Proof.
  intros. unfold exec_reg. go; [by apply m_ext_in|].
  destruct (base_reg _ _ _ _) eqn:E; [|by apply zb_reg_ok]. apply base_reg_in in E; [|done..]. go.
Qed.

Lemma exec_branch_ok insn next f3 a b s :
  Inv true true s → in32 insn → in32 next → wp (exec_branch insn next f3 a b) Done s.
Proof.
  intros. unfold exec_branch. destruct (branch_taken _ _ _) as [v|]; [|by go].
  go.
Qed.

Lemma on_cpu_flag_ok z t g (Q : unit → sys B → Prop) s :
  Inv z t s → (wf_cpu s.(cpu) → wf_cpu (g s.(cpu))) →
  (g s.(cpu)).(x) = s.(cpu).(x) → (g s.(cpu)).(in_trap) = s.(cpu).(in_trap) →
  (g s.(cpu)).(halted) = s.(cpu).(halted) →
  (∀ s', Inv z t s' → Q tt s') → wp (on_cpu g) Q s.
Proof. intros HI ? ? ? ? ?. eapply on_cpu_ok; [exact HI|auto|done]. Qed.

Lemma exec_amo_ok insn next rd rs2 f3 a b s :
  Inv true true s → in32 insn → in32 next → 0 <= rd < 32 → in32 a → in32 b →
  wp (exec_amo cb insn next rd rs2 f3 a b) Done s.
Proof.
  intros. unfold exec_amo. go.
  - eapply on_cpu_flag_ok; [eassumption|auto with word|done..|intros]. go.
    eapply on_cpu_flag_ok; [eassumption|auto with word|done..|intros]. go.
  - eapply on_cpu_flag_ok; [eassumption|auto with word|done..|intros]. go.
  - eapply on_cpu_flag_ok; [eassumption|auto with word|done..|intros]. go.
  - destruct (amo_op _ _ _) as [w|] eqn:E; [|by go]. apply amo_op_in in E; [|done..].
    go.
Qed.

Lemma exec_load_fp_ok insn next rd f3 a s :
  Inv true true s → in32 insn → in32 next → 0 <= rd < 32 → in32 a →
  wp (exec_load_fp cb insn next rd f3 a) Done s.
Proof. intros. unfold exec_load_fp. go. Qed.

Lemma exec_store_fp_ok insn next rs2 f3 a s :
  Inv true true s → in32 insn → in32 next → 0 <= rs2 < 32 → in32 a →
  wp (exec_store_fp cb insn next rs2 f3 a) Done s.
Proof. intros. unfold exec_store_fp. go. Qed.

Lemma fp_result_ok (m : M rv_cpu Z) rd next s :
  accrues m res32 → Inv true true s → 0 <= rd < 32 → in32 next →
  wp (r ← on_fp m; wr_f rd r;; fin next) Done s.
Proof. intros Hm HI ? ?. apply wp_bind. eapply on_fp_ok; [done..|]. intros r s' [Hr _] ?. go. Qed.

Lemma fp_int_result_ok (m : M rv_cpu Z) rd next s :
  accrues m in32 → Inv true true s → 0 <= rd < 32 → in32 next →
  wp (r ← on_fp m; wr_x rd r;; fin next) Done s.
Proof. intros Hm HI ? ?. apply wp_bind. eapply on_fp_ok; [done..|]. intros. go. Qed.

Lemma sign_flip_in v : in32 v → in32 (v .^ 0x80000000).
Proof. auto with word. Qed.

Lemma exec_fma_ok insn next rd rs1 rs2 f3 s :
  Inv true true s → in32 insn → in32 next → 0 <= rd < 32 → 0 <= rs1 < 32 → 0 <= rs2 < 32 →
  wp (exec_fma insn next rd rs1 rs2 f3) Done s.
Proof.
  intros. unfold exec_fma. go. destruct (resolve_rm _ _) as [rm|]; [|by go].
  repeat case_match; simplify_eq; apply fp_result_ok; try done; apply fp_fma_ok;
    auto using sign_flip_in.
Qed.

Lemma fp_compare_ok f3 a b : accrues (fp_compare f3 a b) in32.
Proof. unfold fp_compare. accrue; try pattern_in; auto with word. Qed.

Lemma with_rm_ok insn next f3 k s :
  Inv true true s → in32 insn → in32 next → (∀ rm, wp (k rm) Done s) →
  wp (with_rm insn next f3 k) Done s.
Proof.
  intros HI ? ? Hk. unfold with_rm. go. destruct (resolve_rm _ _); [apply Hk|by go].
Qed.

Lemma exec_fp_ok insn next rd rs1 rs2 f3 f7 a s :
  Inv true true s → in32 insn → in32 next → 0 <= rd < 32 → 0 <= rs1 < 32 → 0 <= rs2 < 32 →
  in32 a → wp (exec_fp insn next rd rs1 rs2 f3 f7 a) Done s.
Proof.
  intros. unfold exec_fp.
  apply wp_bind. eapply rd_f_ok; [done..|]. intros fa Hfa.
  apply wp_bind. eapply rd_f_ok; [done..|]. intros fb Hfb.
  repeat (apply wp_if; intros ?);
    lazymatch goal with
    | |- wp (with_rm _ _ _ _) _ _ => apply with_rm_ok; [done..|intros rm]
    | _ => idtac
    end;
    lazymatch goal with
    | |- wp (on_fp _ ≫= λ r, wr_f _ r ≫= _) _ _ => apply fp_result_ok; [|done..]
    | |- wp (on_fp _ ≫= λ r, wr_x _ r ≫= _) _ _ => apply fp_int_result_ok; [|done..]
    | _ => go
    end;
    repeat lazymatch goal with |- accrues (if _ then _ else _) _ => apply accrues_if; intros _ end;
    auto using fp_add_ok, fp_mul_ok, fp_div_ok, fp_sqrt_ok, fp_minmax_ok, fp_compare_ok,
      fp_to_int_ok, fp_of_int_ok, fp_class_in, sign_flip_in.
Qed.

Lemma ecall_handled_ok (Q : bool → sys B → Prop) s :
  Inv true true s →
  (∀ s', Inv false false s' → Q true s') → (∀ s', Inv true true s' → Q false s') →
  wp (ecall_handled cb) Q s.
Proof.
  intros HI HT HF. unfold wp, ecall_handled. destruct (ecall cb) as [h|] eqn:Eh; [|by apply HF].
  destruct HI. destruct (ecall_ok h s.(cpu) s.(bus)) as (r & c & b & -> & Hc & Hb & Hn); auto.
  destruct (r =? 0) eqn:Er.
  - apply HT. constructor; simpl; auto; done.
  - destruct Hn as [Ht Hx]; [lia|]. apply HF. constructor; simpl; auto. rewrite Hx. auto.
Qed.

Lemma wf_mret_insn c : wf_cpu c → wf_cpu (mret_insn c).
Proof.
  intros Hc. unfold mret_insn.
  assert (in32 RV_MSTATUS_MIE ∧ in32 RV_MSTATUS_MPIE) as [H1 H2] by (vm_compute; repeat split; congruence).
  set (c1 := with_mstatus (mstatus c .| RV_MSTATUS_MIE) c).
  assert (wf_cpu c1) by (unfold c1; auto with word).
  case_match; apply wf_with_mstatus; auto with word.
Qed.

Lemma exec_priv_ok insn next s :
  Inv true true s → in32 insn → in32 next → wp (exec_priv cb insn next) Done s.
Proof.
  intros. unfold exec_priv. go.
  - eapply ecall_handled_ok; [done|intros; simpl; go..].
  - eapply on_cpu_ok; [done| |].
    { intros Hc. split; [by apply wf_mret_insn|]. unfold mret_insn. by case_match. }
    intros s' Hs. go.
  - eapply on_cpu_flag_ok; [done|auto with word|done..|]. intros. go.
Qed.

Lemma csr_value_in (k k' : bool) old val :
  in32 old → in32 val → in32 (if k then val else if k' then old .| val else old .& not32 val).
Proof. intros. destruct k, k'; auto with word. Qed.

Lemma exec_csr_ok insn next rd rs1 f3 a s :
  Inv true true s → in32 insn → in32 next → 0 <= rd < 32 → 0 <= rs1 < 32 → in32 a →
  wp (exec_csr insn next rd rs1 f3 a) Done s.
Proof.
  intros. unfold exec_csr. go.
  destruct (if _ && _ then Some 0 else _) as [old|] eqn:Eo; [|by go].
  assert (in32 old).
  { case_match; [injection Eo as <-; clear; unfold inw; lia|].
    apply csr_read_in in Eo; done. }
  go. set (val := if (f3 .& 3) =? 1 then _ else _).
  assert (in32 val).
  { apply csr_value_in; [done|]. destruct (nz (f3 .& 4)); [|done].
    apply (inw_mono 5); [lia|done]. }
  destruct (csr_write _ _ _) as [c'|] eqn:Ew; [|by go].
  apply wp_bind. eapply on_cpu_ok; [done| |].
  { intros Hc. apply csr_write_ok in Ew; done. }
  intros. go.
Qed.

Lemma exec_ok insn next s :
  Inv true true s → in32 insn → in32 next → wp (exec cb insn next) Done s.
Proof.
  intros. unfold exec. pose proof (RD_bound insn). pose proof (RS1_bound insn).
  pose proof (RS2_bound insn). go;
    auto using exec_load_ok, exec_store_ok, exec_branch_ok, exec_imm_ok, exec_reg_ok, exec_amo_ok,
      exec_load_fp_ok, exec_store_fp_ok, exec_fma_ok, exec_fp_ok, exec_priv_ok, exec_csr_ok.
  eapply illegal_ok; [done..|]. intros. go.
Qed.

(** ** Zcmp *)

Lemma zcmp_regs_bound rlist : Forall (λ r, 0 <= r < 32) (zcmp_regs rlist).
Proof.
  unfold zcmp_regs. case_match; [done|]. constructor; [lia|]. apply Forall_take.
  repeat constructor; lia.
Qed.

Lemma push_regs_ok regs i a (Q : bool → sys B → Prop) s :
  Inv true true s → Forall (λ r, 0 <= r < 32) regs →
  (∀ s', Inv true true s' → Q false s') → (∀ s', Inv true false s' → Q true s') →
  wp (push_regs cb regs i a) Q s.
Proof.
  intros HI Hr HF HT. revert i s HI. induction Hr as [|r regs Hr _ IH]; intros i s HI; simpl.
  { by apply wp_ret, HF. }
  apply wp_bind. eapply rd_x_ok; [done..|]. intros v Hv.
  apply wp_bind. eapply mem_write_ok; [done|apply u32_in|done|size|auto|].
  intros. by apply wp_ret, HT.
Qed.

Lemma pop_regs_ok z regs i a (Q : bool → sys B → Prop) s :
  Inv z true s → Forall (λ r, 0 <= r < 32) regs →
  (∀ s', Inv false true s' → Q false s') → (∀ s', Inv false false s' → Q true s') →
  wp (pop_regs cb regs i a) Q s.
Proof.
  intros HI Hr HF HT. revert z i s HI. induction Hr as [|r regs Hr _ IH]; intros z i s HI; simpl.
  { apply wp_ret, HF. destruct HI. by constructor. }
  apply wp_bind. eapply mem_read_ok; [done|apply u32_in|size| |].
  - intros v s' Hv HI'. apply wp_bind. eapply wr_x_ok; [done..|]. intros s2 H2. by eapply IH.
  - intros s' []. apply wp_ret, HT. by constructor.
Qed.

Lemma sreg_ok r Q s : 0 <= r < 8 → (∀ v, 0 <= v < 32 → Q v s) → wp (sreg r) Q s.
Proof.
  intros Hr HQ. unfold wp, sreg, lift_opt.
  destruct (lookup_lt_is_Some_2 zcmp_sreg (Z.to_nat r)) as [v Hv]; [simpl; lia|].
  rewrite Hv. apply HQ. revert v Hv. apply Forall_lookup. repeat constructor; lia.
Qed.

Lemma land_7_bound z : 0 <= z .& 7 < 8.
Proof. apply (inw_land_r 3). unfold inw; lia. Qed.

Lemma inv_drop z t s : Inv z t s → Inv false false s.
Proof. intros []. by constructor. Qed.

(** What [exec_zcmp] leaves: a rejected encoding has changed nothing. *)
Definition ZDone (r : option Z) (s : sys B) : Prop :=
  match r with Some v => in32 v ∧ Inv false false s | None => Inv true true s end.

Lemma zdone_some z t v s : Inv z t s → in32 v → wp (mret (Some v)) ZDone s.
Proof. intros. apply wp_ret. split; [done|by eapply inv_drop]. Qed.

Ltac zstp :=
  cbv beta;
  lazymatch goal with
  | |- wp (mret None) ZDone _ => by apply wp_ret
  | |- wp (mret (Some _)) ZDone _ => eapply zdone_some; [eassumption|]
  | |- wp (sreg _) _ _ => eapply sreg_ok; [apply land_7_bound|intros]
  | |- wp (push_regs _ _ _ _) _ _ =>
      eapply push_regs_ok; [eassumption|apply zcmp_regs_bound|intros|intros]
  | |- wp (pop_regs _ _ _ _) _ _ =>
      eapply pop_regs_ok; [eassumption|apply zcmp_regs_bound|intros|intros]
  | |- _ => stp
  end.

Lemma exec_zcmp_ok insn next s :
  Inv true true s → in32 insn → in32 next → wp (exec_zcmp cb insn next) ZDone s.
Proof. intros. unfold exec_zcmp. repeat zstp; side. Qed.

(** ** A step and a run *)

(** What a step leaves: its result is -1 exactly when the machine is halted. *)
Definition Stepped (r : Z) (s : sys B) : Prop :=
  r = (if s.(cpu).(halted) then -1 else 0) ∧ Inv true false s.

Lemma step_result_ok t s : Inv true t s → wp step_result Stepped s.
Proof. intros []. unfold step_result. apply wp_bind, wp_gets, wp_ret. split; [done|by constructor]. Qed.

Lemma retire_ok t next s : Inv true t s → in32 next → wp (retire next) Stepped s.
Proof.
  intros HI Hn. unfold retire. go.
  - eapply on_cpu_flag_ok; [done|auto with word|done..|intros]. go.
    eapply on_cpu_flag_ok; [done|auto with word|done..|intros]. go.
    eapply on_cpu_flag_ok; [done|auto with word|done..|intros]. by eapply step_result_ok.
  - eapply on_cpu_flag_ok; [done|auto with word|done..|intros]. go.
    eapply on_cpu_flag_ok; [done|auto with word|done..|intros]. go.
    eapply on_cpu_flag_ok; [done|auto with word|done..|intros]. go.
    eapply on_cpu_flag_ok; [done|auto with word|done..|intros]. by eapply step_result_ok.
Qed.

Lemma step_compressed_ok lo s :
  Inv true true s → in32 lo → wp (step_compressed cb lo) Stepped s.
Proof.
  intros HI Hlo. unfold step_compressed. go.
  - eapply wp_mono; [apply exec_zcmp_ok; auto with word|]. intros [n|] s' Hz; simpl in Hz.
    + destruct Hz. apply wp_bind. eapply wr_x0_ok; [done|]. intros. by eapply retire_ok.
    + apply wp_bind. eapply illegal_ok; [done..|]. intros. by eapply step_result_ok.
  - eapply illegal_ok; [done..|]. intros. by eapply step_result_ok.
  - eapply wp_mono; [apply exec_ok; [done| |auto with word]|].
    + case_match; apply expand_in.
    + intros n s' []. by eapply retire_ok.
Qed.

Lemma land_2_add p : in32 p → p .& 1 = 0 → u32 (p + 2) .& 1 = 0.
Proof.
  intros Hp. change 1 with (Z.ones 1). rewrite !Z.land_ones by lia. unfold u32.
  change 4294967296 with (2 ^ 1 * 2147483648). rewrite Z.mod_mod_divide by (by exists 2147483648).
  intros H. by rewrite Zplus_mod, H.
Qed.

Lemma step_full_ok lo s :
  Inv true true s → inw 16 lo → s.(cpu).(pc) .& 1 = 0 → wp (step_full cb lo) Stepped s.
Proof.
  intros HI Hlo Hpc. unfold step_full. stp. stp. pose proof (wf_pc _ H).
  apply wp_bind, probe_ok. intros []; simpl.
  { go. by eapply step_result_ok. }
  apply wp_bind. eapply bus_rd16_ok; [done|apply u32_in|by apply land_2_add|].
  intros hi s' Hhi _ HI'. apply wp_bind.
  eapply wp_mono; [apply exec_ok; [done| |apply u32_in]|].
  - apply inw_lor; [by apply (inw_mono 16)|]. apply inw_shiftl; [lia|]. auto with word.
  - intros n s2 []. by eapply retire_ok.
Qed.

Lemma step_fetch_ok s : Inv true true s → wp (step_fetch cb) Stepped s.
Proof.
  intros HI. unfold step_fetch. stp. stp. pose proof (wf_pc _ H). stp.
  { go. by eapply step_result_ok. }
  assert (pc s.(cpu) .& 1 = 0) by (unfold nz in *; lia).
  apply wp_bind, probe_ok. intros []; simpl.
  { go. by eapply step_result_ok. }
  apply wp_bind. eapply bus_rd16_ok; [done..|]. intros v s' Hv Hcpu HI'.
  stp; [apply step_compressed_ok; auto with word|].
  apply step_full_ok; [done|auto with word|by rewrite Hcpu].
Qed.

Lemma rv_irq_pending_in c : in32 (rv_irq_pending c).
Proof. unfold rv_irq_pending. repeat case_match; by vm_compute. Qed.

Lemma rv_step_ok s : Inv true false s → wp (rv_step cb) Stepped s.
Proof.
  intros HI. unfold rv_step. stp. stp. stp.
  { apply wp_ret. split; [by destruct (halted (cpu s))|done]. }
  stp. apply wp_on_cpu.
  assert (Inv true true (mk_sys (with_in_trap false (cpu s)) (bus s))) as HI'.
  { destruct HI. constructor; simpl; auto with word. }
  stp. stp. stp; [|by apply step_fetch_ok].
  go; [case_match; [apply rv_irq_pending_in|unfold inw; lia]|]. by eapply step_result_ok.
Qed.

Lemma rv_run_loop_ok n i s :
  Inv true false s → wp (rv_run_loop cb n i) (λ r s', Inv true false s' ∧
    i <= r <= i + Z.of_nat n ∧ (s'.(cpu).(halted) = false → r = i + Z.of_nat n)) s.
Proof.
  revert i s. induction n as [|n IH]; intros i s HI; simpl.
  { apply wp_ret. split; [done|lia]. }
  apply wp_bind. eapply wp_mono; [by apply rv_step_ok|]. intros r s' [-> HI']. stp.
  - apply wp_ret. split; [done|]. split; [lia|]. intros Hh. by rewrite Hh in *.
  - eapply wp_mono; [by apply IH|]. intros r' s2 (? & ? & Hr). split; [done|]. split; [lia|].
    intros Hh. rewrite Hr by done. lia.
Qed.
End Inv.
