(* ===== verification/Rv32Machine.v ===== *)
(** * The flat machine: src/rv32-emulator/demo/machine.c and machine.h

    The host of the interpreter: a flat memory window at address zero and a
    handful of Linux system calls.  The memory is a finite map from addresses
    to bytes with [calloc]'s zero for the bytes never written; an access
    outside the allocation is undefined behaviour. *)

From stdpp Require Import gmap.
From S2P Require Import Prelude Rv32State Rv32Exec Rv32Safe.

Definition MACHINE_MEM_SIZE : Z := 16 * 1024 * 1024.

(** [out] is what the program wrote: the stream (1 or 2) and the byte of every
    [fputc], oldest first. *)
Record machine : Type := mk_machine {
  mem : gmap Z Z;
  mem_size : Z;
  exited : bool;
  exit_code : Z;
  quiet : bool;
  syscalls : Z;
  out : list (Z * Z)
}.

Definition with_mem (v : gmap Z Z) (m : machine) : machine :=
  mk_machine v m.(mem_size) m.(exited) m.(exit_code) m.(quiet) m.(syscalls) m.(out).
Definition with_exit (code : Z) (m : machine) : machine :=
  mk_machine m.(mem) m.(mem_size) true code m.(quiet) m.(syscalls) m.(out).
Definition with_syscalls (v : Z) (m : machine) : machine :=
  mk_machine m.(mem) m.(mem_size) m.(exited) m.(exit_code) m.(quiet) v m.(out).
Definition with_out (v : list (Z * Z)) (m : machine) : machine :=
  mk_machine m.(mem) m.(mem_size) m.(exited) m.(exit_code) m.(quiet) m.(syscalls) v.

(** The byte at [a] of an allocation of [mem_size] zeroed bytes. *)
Definition byte_at (m : machine) (a : Z) : Z := default 0 (m.(mem) !! a).

(** [m->mem[a]] and [m->mem[a] = v]. *)
Definition load (m : machine) (a : Z) : option Z :=
  if (0 <=? a) && (a <? m.(mem_size)) then Some (byte_at m a) else None.

Definition store (m : machine) (a v : Z) : option machine :=
  if (0 <=? a) && (a <? m.(mem_size)) then Some (with_mem (<[a := u8 v]> m.(mem)) m) else None.

(** ** Memory bus *)

Definition mem_r8 (m : machine) (addr : Z) : option (Z * machine) :=
  if m.(mem_size) <=? addr then Some (0, m)
  else v ← load m addr; Some (v, m).

Definition mem_r16 (m : machine) (addr : Z) : option (Z * machine) :=
  if m.(mem_size) <=? u32 (addr + 1) then Some (0, m)
  else
    b0 ← load m addr; b1 ← load m (u32 (addr + 1));
    Some (b0 .| (b1 << 8), m).

Definition mem_r32 (m : machine) (addr : Z) : option (Z * machine) :=
  if m.(mem_size) <=? u32 (addr + 3) then Some (0, m)
  else
    b0 ← load m addr; b1 ← load m (u32 (addr + 1));
    b2 ← load m (u32 (addr + 2)); b3 ← load m (u32 (addr + 3));
    Some (b0 .| (b1 << 8) .| (b2 << 16) .| (b3 << 24), m).

Definition mem_w8 (m : machine) (addr val : Z) : option machine :=
  if addr <? m.(mem_size) then store m addr val else Some m.

Definition mem_w16 (m : machine) (addr val : Z) : option machine :=
  if u32 (addr + 1) <? m.(mem_size) then
    m ← store m addr val; store m (u32 (addr + 1)) (val >> 8)
  else Some m.

Definition mem_w32 (m : machine) (addr val : Z) : option machine :=
  if u32 (addr + 3) <? m.(mem_size) then
    m ← store m addr val; m ← store m (u32 (addr + 1)) (val >> 8);
    m ← store m (u32 (addr + 2)) (val >> 16); store m (u32 (addr + 3)) (val >> 24)
  else Some m.

(** ** Syscall layer *)

Definition SYS_WRITE : Z := 64.
Definition SYS_EXIT : Z := 93.
Definition SYS_EXIT_GROUP : Z := 94.

(** The loop [for (i = 0; i < a2 && a1 + i < m->mem_size; i++)].  It leaves at
    [i = a2] or [i = mem_size] at the latest, so [min a2 mem_size] iterations
    are enough. *)
Fixpoint write_loop (fuel : nat) (fd i a1 a2 : Z) (m : machine) : option machine :=
  if (i <? a2) && (u32 (a1 + i) <? m.(mem_size)) then
    match fuel with
    | O => None
    | S fuel =>
        v ← load m (u32 (a1 + i));
        write_loop fuel fd (i + 1) a1 a2 (with_out (m.(out) ++ [(fd, v)]) m)
    end
  else Some m.

(** [cpu->x[10] = v] *)
Definition set_a0 (v : Z) (c : rv_cpu) : rv_cpu := with_x (<[10%nat := v]> c.(x)) c.

Definition do_ecall (c : rv_cpu) (m : machine) : option (Z * (rv_cpu * machine)) :=
  nr ← c.(x) !! 17%nat; a0 ← c.(x) !! 10%nat; a1 ← c.(x) !! 11%nat; a2 ← c.(x) !! 12%nat;
  let m := with_syscalls (u64 (m.(syscalls) + 1)) m in
  if nr =? SYS_WRITE then
    m ← (if negb m.(quiet) && ((a0 =? 1) || (a0 =? 2))
         then write_loop (Z.to_nat (Z.min a2 m.(mem_size))) a0 0 a1 a2 m
         else Some m);
    Some (0, (set_a0 a2 c, m))
  else if (nr =? SYS_EXIT) || (nr =? SYS_EXIT_GROUP) then
    Some (0, (rv_halt c, with_exit (s32 a0) m))
  else Some (0, (set_a0 (u32 (-38)) c, m)).

(** ** Public interface *)

Definition machine_poke (m : machine) (addr byte : Z) : option machine :=
  if addr <? m.(mem_size) then store m addr byte else Some m.

(** [machine_init] when [calloc] succeeds. *)
Definition machine_callbacks : rv_callbacks machine :=
  rv_set_ecall do_ecall (rv_init_callbacks mem_r8 mem_r16 mem_r32 mem_w8 mem_w16 mem_w32).

Definition machine_init : sys machine :=
  mk_sys rv_init_cpu (mk_machine ∅ MACHINE_MEM_SIZE false 0 false 0 []).

(** ** Invariant *)

Record wf_machine (m : machine) : Prop := {
  wfm_size : in32 m.(mem_size);
  wfm_mem : map_Forall (λ _ v, in8 v) m.(mem)
}.

(** A halted machine is one whose program has exited. *)
Definition machine_inv (halted : bool) (m : machine) : Prop :=
  wf_machine m ∧ (halted = true → m.(exited) = true).

Lemma byte_at_in m a : wf_machine m → in8 (byte_at m a).
Proof.
  intros Hm. unfold byte_at. destruct (mem m !! a) eqn:E; simpl; [|unfold inw; lia].
  by apply (wfm_mem _ Hm) in E.
Qed.

Lemma load_ok m a : 0 <= a < m.(mem_size) → load m a = Some (byte_at m a).
Proof. intros. unfold load. by rewrite (proj2 (Z.leb_le _ _)), (proj2 (Z.ltb_lt _ _)) by lia. Qed.

Lemma store_ok m a v :
  0 <= a < m.(mem_size) → store m a v = Some (with_mem (<[a := u8 v]> m.(mem)) m).
Proof. intros. unfold store. by rewrite (proj2 (Z.leb_le _ _)), (proj2 (Z.ltb_lt _ _)) by lia. Qed.

Lemma wf_with_mem m a v : wf_machine m → wf_machine (with_mem (<[a := u8 v]> m.(mem)) m).
Proof.
  intros [? ?]. split; simpl; [done|]. apply map_Forall_insert_2; [apply u8_in|done].
Qed.

(** Alignment keeps the address sums of the wide accesses from wrapping. *)
Lemma aligned_no_wrap k a i :
  in32 a → 0 <= k <= 8 → a .& Z.ones k = 0 → 0 <= i < 2 ^ k → u32 (a + i) = a + i.
Proof.
  intros Ha Hk Hal Hi. apply u32_small. rewrite Z.land_ones in Hal by lia.
  assert (0 < 2 ^ k) by (apply Z.pow_pos_nonneg; lia).
  apply Z.mod_divide in Hal as [q Hq]; [|lia]. unfold inw in *.
  assert (2 ^ 32 = 2 ^ (32 - k) * 2 ^ k) as E by (rewrite <-Z.pow_add_r by lia; f_equal; lia).
  assert (q < 2 ^ (32 - k)) by (apply (Z.mul_lt_mono_pos_r (2 ^ k)); lia).
  split; [lia|]. assert ((q + 1) * 2 ^ k <= 2 ^ (32 - k) * 2 ^ k); [|lia].
  apply Z.mul_le_mono_nonneg_r; lia.
Qed.

Lemma add_1_2 a i : in32 a → a .& 1 = 0 → 0 <= i < 2 → u32 (a + i) = a + i.
Proof. intros Ha Hal Hi. by apply (aligned_no_wrap 1). Qed.

Lemma add_3_4 a i : in32 a → a .& 3 = 0 → 0 <= i < 4 → u32 (a + i) = a + i.
Proof. intros Ha Hal Hi. by apply (aligned_no_wrap 2). Qed.

Lemma inv_mem h m a v :
  machine_inv h m → machine_inv h (with_mem (<[a := u8 v]> m.(mem)) m).
Proof. intros [? ?]. split; [by apply wf_with_mem|done]. Qed.

Lemma byte_shl_in w b k : in8 b → 0 <= k → 8 + k <= w → inw w (b << k).
Proof. intros. apply inw_shiftl; [done|]. apply (inw_mono 8); [lia|done]. Qed.

(** ** The machine keeps the interpreter's expectations *)

Lemma mem_r8_ok h m a :
  machine_inv h m → in32 a → ∃ v, mem_r8 m a = Some (v, m) ∧ in32 v.
Proof.
  intros [Hm _] Ha. unfold mem_r8. case_match; [exists 0; split; [done|unfold inw; lia]|].
  rewrite load_ok by (unfold inw in *; lia). exists (byte_at m a). split; [done|].
  apply (inw_mono 8); [lia|]. by apply byte_at_in.
Qed.

Lemma mem_r16_eq m a :
  in32 a → a .& 1 = 0 →
  mem_r16 m a = Some (if m.(mem_size) <=? a + 1 then 0
                      else byte_at m a .| (byte_at m (a + 1) << 8), m).
Proof.
  intros Ha Hal. unfold mem_r16. rewrite add_1_2 by (try done; lia). unfold inw in *.
  case_match; [done|]. by rewrite !load_ok by lia.
Qed.

Lemma mem_r32_eq m a :
  in32 a → a .& 3 = 0 →
  mem_r32 m a = Some (if m.(mem_size) <=? a + 3 then 0
                      else byte_at m a .| (byte_at m (a + 1) << 8) .|
                           (byte_at m (a + 2) << 16) .| (byte_at m (a + 3) << 24), m).
Proof.
  intros Ha Hal. unfold mem_r32. rewrite !add_3_4 by (try done; lia). unfold inw in *.
  case_match; [done|]. by rewrite !load_ok by lia.
Qed.

(** The memory after the bytes [vs] were stored from [a] on. *)
Fixpoint put (a : Z) (vs : list Z) (m : gmap Z Z) : gmap Z Z :=
  match vs with [] => m | v :: vs => put (a + 1) vs (<[a := u8 v]> m) end.

Lemma mem_w16_eq m a v :
  in32 a → a .& 1 = 0 →
  mem_w16 m a v = Some (if a + 1 <? m.(mem_size)
                        then with_mem (put a [v; v >> 8] m.(mem)) m else m).
Proof.
  intros Ha Hal. unfold mem_w16. rewrite add_1_2 by (try done; lia). unfold inw in *.
  case_match; [|done]. rewrite store_ok by lia. simpl. by rewrite store_ok by (simpl; lia).
Qed.

Lemma mem_w32_eq m a v :
  in32 a → a .& 3 = 0 →
  mem_w32 m a v = Some (if a + 3 <? m.(mem_size)
                        then with_mem (put a [v; v >> 8; v >> 16; v >> 24] m.(mem)) m else m).
Proof.
  intros Ha Hal. unfold mem_w32. rewrite !add_3_4 by (try done; lia). unfold inw in *.
  case_match; [|done]. rewrite store_ok by lia. simpl. rewrite store_ok by (simpl; lia).
  simpl. rewrite store_ok by (simpl; lia). simpl. rewrite store_ok by (simpl; lia). simpl.
  by replace (a + 1 + 1) with (a + 2) by lia; replace (a + 2 + 1) with (a + 3) by lia.
Qed.

Lemma inv_put h vs a m :
  machine_inv h m → machine_inv h (with_mem (put a vs m.(mem)) m).
Proof.
  revert a m. induction vs as [|v vs IH]; intros a m Hm; simpl.
  - by destruct m.
  - exact (IH (a + 1) (with_mem (<[a := u8 v]> m.(mem)) m) (inv_mem _ _ _ _ Hm)).
Qed.

Lemma write_loop_eq fuel fd i a1 a2 m :
  in32 a1 → in32 a2 → in32 m.(mem_size) → 0 <= i → Z.min a2 m.(mem_size) - i <= Z.of_nat fuel →
  u32 (a1 + i) = a1 + i →
  write_loop fuel fd i a1 a2 m =
    Some (with_out (m.(out) ++ map (λ k, (fd, byte_at m (a1 + k)))
            (seqZ i (Z.min a2 (m.(mem_size) - a1) - i))) m).
Proof.
  unfold inw. revert i m. induction fuel as [|fuel IH]; intros i m Ha1 Ha2 Hs Hi Hf Hu; simpl;
    rewrite Hu; destruct (_ && _) eqn:Hc.
  - lia.
  - rewrite seqZ_nil by lia. simpl. rewrite app_nil_r. by destruct m.
  - rewrite load_ok by lia. simpl. rewrite IH; simpl; [|try lia..].
    + rewrite (seqZ_cons i) by lia. simpl.
      replace (Z.pred (Z.min a2 (mem_size m - a1) - i))
        with (Z.min a2 (mem_size m - a1) - (i + 1)) by lia.
      rewrite <-app_assoc. done.
    + apply u32_small. unfold inw. lia.
  - rewrite seqZ_nil by lia. simpl. rewrite app_nil_r. by destruct m.
Qed.

Lemma set_a0_wf v c : in32 v → wf_cpu c → wf_cpu (set_a0 v c).
Proof.
  intros Hv Hc. apply wf_with_x; [rewrite length_insert; apply Hc| |done].
  apply Forall_insert; [apply Hc|done].
Qed.

(** The memory, its size and the exit flag are all the invariant looks at. *)
Lemma inv_same h h' m m' :
  machine_inv h m → m'.(mem) = m.(mem) → m'.(mem_size) = m.(mem_size) →
  (h' = true → m'.(exited) = true) → machine_inv h' m'.
Proof. intros [[] _] E1 E2 ?. split; [split; by rewrite ?E1, ?E2|done]. Qed.

Lemma reg_at c i : wf_cpu c → (i < 32)%nat → ∃ v, c.(x) !! i = Some v ∧ in32 v.
Proof.
  intros Hc Hi. destruct (reg_lookup c.(x) (Z.of_nat i)) as (v & E & ?); [apply Hc..|lia|].
  rewrite Nat2Z.id in E. eauto.
Qed.

(** Every system call is answered: by a write, an exit or -ENOSYS. *)
Lemma do_ecall_ok c m :
  wf_cpu c → machine_inv c.(halted) m →
  ∃ c' m', do_ecall c m = Some (0, (c', m')) ∧ wf_cpu c' ∧ machine_inv c'.(halted) m'.
Proof.
  intros Hc Hm. unfold do_ecall.
  destruct (reg_at c 17) as (nr & -> & ?); [done|lia|]. simpl.
  destruct (reg_at c 10) as (a0 & -> & ?); [done|lia|]. simpl.
  destruct (reg_at c 11) as (a1 & -> & ?); [done|lia|]. simpl.
  destruct (reg_at c 12) as (a2 & -> & ?); [done|lia|]. simpl.
  assert (∀ h, machine_inv h m → machine_inv h (with_syscalls (u64 (syscalls m + 1)) m)) as Hs.
  { intros h Hh. eapply inv_same; [done..|apply Hh]. }
  case_match; [|case_match].
  - destruct (_ && _).
    + rewrite write_loop_eq; simpl; [|done|done|apply Hm|lia|lia|apply u32_small; by rewrite Z.add_0_r].
      do 2 eexists. split_and!; [done|by apply set_a0_wf|]. simpl.
      eapply inv_same; [exact Hm|done|done|]. apply Hm.
    + do 2 eexists. split_and!; [done|by apply set_a0_wf|]. by apply Hs.
  - do 2 eexists. split_and!; [done|by apply wf_with_halted|]. by eapply inv_same.
  - do 2 eexists. split_and!; [done|apply set_a0_wf; [apply u32_in|done]|]. by apply Hs.
Qed.

#[export] Instance machine_host : HostLaws machine_callbacks machine_inv.
Proof.
  split; simpl.
  - intros h m a Hm Ha. destruct (mem_r8_ok h m a) as (v & ? & ?); eauto.
  - intros h m a Hm Ha Hal. rewrite mem_r16_eq by done. do 2 eexists. split_and!; [done| |done].
    case_match; [unfold inw; lia|]. destruct Hm as [Hm _].
    apply inw_lor; [apply (inw_mono 8); [lia|by apply byte_at_in]|].
    apply byte_shl_in; [by apply byte_at_in|lia..].
  - intros h m a Hm Ha Hal. rewrite mem_r32_eq by done. do 2 eexists. split_and!; [done| |done].
    case_match; [unfold inw; lia|]. destruct Hm as [Hm _].
    repeat apply inw_lor; [apply (inw_mono 8); [lia|by apply byte_at_in]|..];
      (apply byte_shl_in; [by apply byte_at_in|lia..]).
  - intros h m a v Hm Ha Hv. unfold mem_w8. case_match; [|eauto].
    rewrite store_ok by (unfold inw in *; lia). eauto using inv_mem.
  - intros h m a v Hm Ha Hv Hal. rewrite mem_w16_eq by done. eexists. split; [done|].
    case_match; [by apply inv_put|done].
  - intros h m a v Hm Ha Hv Hal. rewrite mem_w32_eq by done. eexists. split; [done|].
    case_match; [by apply inv_put|done].
  - intros h c m [= <-] Hm Hc Ht. destruct (do_ecall_ok c m) as (c' & m' & ? & ? & ?); [done..|].
    by exists 0, c', m'.
Qed.
