(* ===== verification/Rv32Isa.v ===== *)
(** * Reference semantics of the integer instruction set

    The instructions of RV32I, M, Zba, Zbb, Zbs and the word loads and stores
    of F as abstract syntax, their encoding as sums of fields, and what each
    does to the architectural state, in the arithmetic of the RISC-V manual:
    no shifts, masks or casts of C.  [Rv32Refine] proves that [rv_step] runs
    them. *)

From stdpp Require Import gmap.
From S2P Require Import Prelude.

(** ** Syntax *)

Inductive rop : Type :=
  | ADD | SUB | SLL | SLT | SLTU | XOR | SRL | SRA | OR | AND
  | MUL | MULH | MULHSU | MULHU | DIV | DIVU | REM | REMU
  | SH1ADD | SH2ADD | SH3ADD | ANDN | ORN | XNOR | MIN | MINU | MAX | MAXU
  | ROL | ROR | BSET | BCLR | BINV | BEXT.

Inductive iop : Type := ADDI | SLTI | SLTIU | XORI | ORI | ANDI.

(** Shifts and single-bit operations with an immediate amount. *)
Inductive shop : Type := SLLI | SRLI | SRAI | RORI | BSETI | BCLRI | BINVI | BEXTI.

Inductive uop : Type := CLZ | CTZ | CPOP | SEXTB | SEXTH | ZEXTH | ORCB | REV8.

Inductive bop : Type := BEQ | BNE | BLT | BGE | BLTU | BGEU.
Inductive lop : Type := LB | LH | LW | LBU | LHU.
Inductive sop : Type := SB | SH | SW.

Inductive instr : Type :=
  | LUI (rd imm : Z)
  | AUIPC (rd imm : Z)
  | JAL (rd off : Z)
  | JALR (rd rs1 off : Z)
  | BRANCH (op : bop) (rs1 rs2 off : Z)
  | LOAD (op : lop) (rd rs1 off : Z)
  | STORE (op : sop) (rs2 rs1 off : Z)
  | OPI (op : iop) (rd rs1 imm : Z)
  | SHI (op : shop) (rd rs1 sh : Z)
  | OPU (op : uop) (rd rs1 : Z)
  | OPR (op : rop) (rd rs1 rs2 : Z)
  | FLW (rd rs1 off : Z)
  | FSW (rs2 rs1 off : Z)
  | FENCE.

#[export] Instance rop_eq_dec : EqDecision rop. Proof. solve_decision. Defined.
#[export] Instance uop_eq_dec : EqDecision uop. Proof. solve_decision. Defined.

(** ** Encoding *)

Definition word (op rd f3 rs1 rs2 f7 : Z) : Z :=
  op + rd * 128 + f3 * 4096 + rs1 * 32768 + rs2 * 1048576 + f7 * 33554432.

Definition word_i (op rd f3 rs1 imm : Z) : Z :=
  word op rd f3 rs1 (imm mod 32) (imm / 32 mod 128).

Definition word_s (op f3 rs1 rs2 imm : Z) : Z :=
  word op (imm mod 32) f3 rs1 rs2 (imm / 32 mod 128).

Definition word_b (op f3 rs1 rs2 imm : Z) : Z :=
  word op (imm / 2 mod 16 * 2 + imm / 2048 mod 2) f3 rs1 rs2
    (imm / 32 mod 64 + imm / 4096 mod 2 * 64).

Definition word_u (op rd imm : Z) : Z :=
  word op rd (imm mod 8) (imm / 8 mod 32) (imm / 256 mod 32) (imm / 8192 mod 128).

Definition word_j (op rd imm : Z) : Z :=
  word op rd (imm / 4096 mod 8) (imm / 32768 mod 32)
    (imm / 2048 mod 2 + imm / 2 mod 16 * 2) (imm / 32 mod 64 + imm / 1048576 mod 2 * 64).

Definition rop_fields (op : rop) : Z * Z :=
  match op with
  | ADD => (0, 0) | SUB => (0, 32) | SLL => (1, 0) | SLT => (2, 0) | SLTU => (3, 0)
  | XOR => (4, 0) | SRL => (5, 0) | SRA => (5, 32) | OR => (6, 0) | AND => (7, 0)
  | MUL => (0, 1) | MULH => (1, 1) | MULHSU => (2, 1) | MULHU => (3, 1)
  | DIV => (4, 1) | DIVU => (5, 1) | REM => (6, 1) | REMU => (7, 1)
  | SH1ADD => (2, 16) | SH2ADD => (4, 16) | SH3ADD => (6, 16)
  | ANDN => (7, 32) | ORN => (6, 32) | XNOR => (4, 32)
  | MIN => (4, 5) | MINU => (5, 5) | MAX => (6, 5) | MAXU => (7, 5)
  | ROL => (1, 48) | ROR => (5, 48)
  | BSET => (1, 20) | BCLR => (1, 36) | BINV => (1, 52) | BEXT => (5, 36)
  end.

Definition iop_f3 (op : iop) : Z :=
  match op with ADDI => 0 | SLTI => 2 | SLTIU => 3 | XORI => 4 | ORI => 6 | ANDI => 7 end.

Definition shop_fields (op : shop) : Z * Z :=
  match op with
  | SLLI => (1, 0) | SRLI => (5, 0) | SRAI => (5, 32) | RORI => (5, 48)
  | BSETI => (1, 20) | BCLRI => (1, 36) | BINVI => (1, 52) | BEXTI => (5, 36)
  end.

(** Opcode, [funct3], the second source field and [funct7]. *)
Definition uop_fields (op : uop) : Z * Z * Z * Z :=
  match op with
  | CLZ => (0x13, 1, 0, 48) | CTZ => (0x13, 1, 1, 48) | CPOP => (0x13, 1, 2, 48)
  | SEXTB => (0x13, 1, 4, 48) | SEXTH => (0x13, 1, 5, 48)
  | ZEXTH => (0x33, 4, 0, 4) | ORCB => (0x13, 5, 7, 20) | REV8 => (0x13, 5, 24, 52)
  end.

Definition bop_f3 (op : bop) : Z :=
  match op with BEQ => 0 | BNE => 1 | BLT => 4 | BGE => 5 | BLTU => 6 | BGEU => 7 end.
Definition lop_f3 (op : lop) : Z :=
  match op with LB => 0 | LH => 1 | LW => 2 | LBU => 4 | LHU => 5 end.
Definition sop_f3 (op : sop) : Z := match op with SB => 0 | SH => 1 | SW => 2 end.

Definition encode (i : instr) : Z :=
  match i with
  | LUI rd imm => word_u 0x37 rd imm
  | AUIPC rd imm => word_u 0x17 rd imm
  | JAL rd off => word_j 0x6f rd off
  | JALR rd rs1 off => word_i 0x67 rd 0 rs1 off
  | BRANCH op rs1 rs2 off => word_b 0x63 (bop_f3 op) rs1 rs2 off
  | LOAD op rd rs1 off => word_i 0x03 rd (lop_f3 op) rs1 off
  | STORE op rs2 rs1 off => word_s 0x23 (sop_f3 op) rs1 rs2 off
  | OPI op rd rs1 imm => word_i 0x13 rd (iop_f3 op) rs1 imm
  | SHI op rd rs1 sh => word 0x13 rd (shop_fields op).1 rs1 sh (shop_fields op).2
  | OPU op rd rs1 => let '(o, f3, s, f7) := uop_fields op in word o rd f3 rs1 s f7
  | OPR op rd rs1 rs2 => word 0x33 rd (rop_fields op).1 rs1 rs2 (rop_fields op).2
  | FLW rd rs1 off => word_i 0x07 rd 2 rs1 off
  | FSW rs2 rs1 off => word_s 0x27 2 rs1 rs2 off
  | FENCE => word_i 0x0f 0 0 0 0x0ff
  end.

(** Register numbers and immediates that an encoding can hold. *)
Definition is_reg (r : Z) : bool := (0 <=? r) && (r <? 32).
Definition is_imm (w z : Z) : bool :=
  let lim := Z.shiftl 1 (w - 1) in (- lim <=? z) && (z <? lim).

Definition valid (i : instr) : bool :=
  match i with
  | LUI rd imm | AUIPC rd imm => is_reg rd && (0 <=? imm) && (imm <? 2 ^ 20)
  | JAL rd off => is_reg rd && is_imm 21 off && (off mod 2 =? 0)
  | JALR rd rs1 off => is_reg rd && is_reg rs1 && is_imm 12 off
  | BRANCH _ rs1 rs2 off => is_reg rs1 && is_reg rs2 && is_imm 13 off && (off mod 2 =? 0)
  | LOAD _ rd rs1 off | FLW rd rs1 off => is_reg rd && is_reg rs1 && is_imm 12 off
  | STORE _ rs2 rs1 off | FSW rs2 rs1 off => is_reg rs2 && is_reg rs1 && is_imm 12 off
  | OPI _ rd rs1 imm => is_reg rd && is_reg rs1 && is_imm 12 imm
  | SHI _ rd rs1 sh => is_reg rd && is_reg rs1 && is_reg sh
  | OPU _ rd rs1 => is_reg rd && is_reg rs1
  | OPR _ rd rs1 rs2 => is_reg rd && is_reg rs1 && is_reg rs2
  | FENCE => true
  end.

(** ** Arithmetic *)

(** The signed value of a 32-bit word, and the word of an integer. *)
Definition sgn (a : Z) : Z := if a <? 2 ^ 31 then a else a - 2 ^ 32.
Definition wrap (a : Z) : Z := a mod 2 ^ 32.

(** The word whose bits are the [n]-bit value [a] sign-extended. *)
Definition sext (n a : Z) : Z := if a <? 2 ^ (n - 1) then a else a - 2 ^ n + 2 ^ 32.

Definition shift_amount (b : Z) : Z := b mod 32.

Definition rol_ref (a n : Z) : Z := wrap (a * 2 ^ n) + a / 2 ^ (32 - n).
Definition ror_ref (a n : Z) : Z := a / 2 ^ n + wrap (a * 2 ^ (32 - n)).

Definition rop_ref (op : rop) (a b : Z) : Z :=
  let sh := shift_amount b in
  match op with
  | ADD => wrap (a + b)
  | SUB => wrap (a - b)
  | SLL => wrap (a * 2 ^ sh)
  | SLT => if sgn a <? sgn b then 1 else 0
  | SLTU => if a <? b then 1 else 0
  | XOR => Z.lxor a b
  | SRL => a / 2 ^ sh
  | SRA => wrap (sgn a / 2 ^ sh)
  | OR => Z.lor a b
  | AND => Z.land a b
  | MUL => wrap (sgn a * sgn b)
  | MULH => wrap (sgn a * sgn b / 2 ^ 32)
  | MULHSU => wrap (sgn a * b / 2 ^ 32)
  | MULHU => a * b / 2 ^ 32
  | DIV => if b =? 0 then wrap (-1) else wrap (Z.quot (sgn a) (sgn b))
  | DIVU => if b =? 0 then wrap (-1) else a / b
  | REM => if b =? 0 then a else wrap (Z.rem (sgn a) (sgn b))
  | REMU => if b =? 0 then a else a mod b
  | SH1ADD => wrap (a * 2 + b)
  | SH2ADD => wrap (a * 4 + b)
  | SH3ADD => wrap (a * 8 + b)
  | ANDN => Z.ldiff a b
  | ORN => wrap (Z.lor a (Z.lnot b))
  | XNOR => wrap (Z.lnot (Z.lxor a b))
  | MIN => if sgn a <? sgn b then a else b
  | MINU => Z.min a b
  | MAX => if sgn b <? sgn a then a else b
  | MAXU => Z.max a b
  | ROL => rol_ref a sh
  | ROR => ror_ref a sh
  | BSET => Z.setbit a sh
  | BCLR => Z.clearbit a sh
  | BINV => Z.lxor a (2 ^ sh)
  | BEXT => Z.b2z (Z.testbit a sh)
  end.

Definition iop_ref (op : iop) (a imm : Z) : Z :=
  match op with
  | ADDI => wrap (a + imm)
  | SLTI => if sgn a <? imm then 1 else 0
  | SLTIU => if a <? wrap imm then 1 else 0
  | XORI => Z.lxor a (wrap imm)
  | ORI => Z.lor a (wrap imm)
  | ANDI => Z.land a (wrap imm)
  end.

Definition shop_ref (op : shop) (a sh : Z) : Z :=
  match op with
  | SLLI => wrap (a * 2 ^ sh)
  | SRLI => a / 2 ^ sh
  | SRAI => wrap (sgn a / 2 ^ sh)
  | RORI => ror_ref a sh
  | BSETI => Z.setbit a sh
  | BCLRI => Z.clearbit a sh
  | BINVI => Z.lxor a (2 ^ sh)
  | BEXTI => Z.b2z (Z.testbit a sh)
  end.

(** Byte [k] of a word. *)
Definition byte_of (a k : Z) : Z := a / 256 ^ k mod 256.

Definition uop_ref (op : uop) (a : Z) : Z :=
  match op with
  | CLZ => if a =? 0 then 32 else 31 - Z.log2 a
  | CTZ => if a =? 0 then 32 else Z.log2 (Z.land a (- a))
  | CPOP => foldr (λ k n, Z.b2z (Z.testbit a k) + n) 0 (seqZ 0 32)
  | SEXTB => sext 8 (a mod 2 ^ 8)
  | SEXTH => sext 16 (a mod 2 ^ 16)
  | ZEXTH => a mod 2 ^ 16
  | ORCB => foldr (λ k n, (if byte_of a k =? 0 then 0 else 255) * 256 ^ k + n) 0 [0; 1; 2; 3]
  | REV8 => foldr (λ k n, byte_of a (3 - k) * 256 ^ k + n) 0 [0; 1; 2; 3]
  end.

Definition bop_ref (op : bop) (a b : Z) : bool :=
  match op with
  | BEQ => a =? b
  | BNE => negb (a =? b)
  | BLT => sgn a <? sgn b
  | BGE => sgn b <=? sgn a
  | BLTU => a <? b
  | BGEU => b <=? a
  end.

(** ** The architectural state

    Integer and float registers, the program counter, and a memory of
    [asize] bytes: a byte outside it reads as zero and ignores writes. *)

Record arch : Type := mk_arch {
  ax : list Z;
  af : list Z;
  apc : Z;
  amem : gmap Z Z;
  asize : Z
}.

Definition xget (a : arch) (r : Z) : Z := default 0 (a.(ax) !! Z.to_nat r).
Definition fget (a : arch) (r : Z) : Z := default 0 (a.(af) !! Z.to_nat r).

(** Register zero stays zero. *)
Definition xset (r v : Z) (a : arch) : arch :=
  if r =? 0 then a
  else mk_arch (<[Z.to_nat r := v]> a.(ax)) a.(af) a.(apc) a.(amem) a.(asize).
Definition fset (r v : Z) (a : arch) : arch :=
  mk_arch a.(ax) (<[Z.to_nat r := v]> a.(af)) a.(apc) a.(amem) a.(asize).
Definition goto (p : Z) (a : arch) : arch :=
  mk_arch a.(ax) a.(af) p a.(amem) a.(asize).

Definition load_byte (mem : gmap Z Z) (size a : Z) : Z :=
  if a <? size then default 0 (mem !! a) else 0.
Definition store_byte (size a v : Z) (mem : gmap Z Z) : gmap Z Z :=
  if a <? size then <[a := v]> mem else mem.

(** Little-endian values of [n] bytes; addresses wrap around. *)
Fixpoint load_le (n : nat) (mem : gmap Z Z) (size a : Z) : Z :=
  match n with
  | O => 0
  | S n => load_byte mem size a + 256 * load_le n mem size (wrap (a + 1))
  end.
Fixpoint store_le (n : nat) (size a v : Z) (mem : gmap Z Z) : gmap Z Z :=
  match n with
  | O => mem
  | S n => store_le n size (wrap (a + 1)) (v / 256) (store_byte size a (v mod 256) mem)
  end.

Definition aload (n : nat) (a : arch) (addr : Z) : Z := load_le n a.(amem) a.(asize) addr.
Definition astore (n : nat) (addr v : Z) (a : arch) : arch :=
  mk_arch a.(ax) a.(af) a.(apc) (store_le n a.(asize) addr v a.(amem)) a.(asize).

Definition lop_ref (op : lop) (a : arch) (addr : Z) : Z :=
  match op with
  | LB => sext 8 (aload 1 a addr)
  | LH => sext 16 (aload 2 a addr)
  | LW => aload 4 a addr
  | LBU => aload 1 a addr
  | LHU => aload 2 a addr
  end.
Definition sop_bytes (op : sop) : nat := match op with SB => 1 | SH => 2 | SW => 4 end.

(** ** Execution: [len] is the length of the encoding that was fetched *)

Definition isa_exec (len : Z) (i : instr) (a : arch) : arch :=
  let pc := a.(apc) in
  let next := wrap (pc + len) in
  match i with
  | LUI rd imm => goto next (xset rd (imm * 2 ^ 12) a)
  | AUIPC rd imm => goto next (xset rd (wrap (pc + imm * 2 ^ 12)) a)
  | JAL rd off => goto (wrap (pc + off)) (xset rd next a)
  | JALR rd rs1 off => goto (Z.clearbit (wrap (xget a rs1 + off)) 0) (xset rd next a)
  | BRANCH op rs1 rs2 off =>
      goto (if bop_ref op (xget a rs1) (xget a rs2) then wrap (pc + off) else next) a
  | LOAD op rd rs1 off => goto next (xset rd (lop_ref op a (wrap (xget a rs1 + off))) a)
  | STORE op rs2 rs1 off =>
      goto next (astore (sop_bytes op) (wrap (xget a rs1 + off)) (xget a rs2) a)
  | OPI op rd rs1 imm => goto next (xset rd (iop_ref op (xget a rs1) imm) a)
  | SHI op rd rs1 sh => goto next (xset rd (shop_ref op (xget a rs1) sh) a)
  | OPU op rd rs1 => goto next (xset rd (uop_ref op (xget a rs1)) a)
  | OPR op rd rs1 rs2 => goto next (xset rd (rop_ref op (xget a rs1) (xget a rs2)) a)
  | FLW rd rs1 off => goto next (fset rd (aload 4 a (wrap (xget a rs1 + off))) a)
  | FSW rs2 rs1 off => goto next (astore 4 (wrap (xget a rs1 + off)) (fget a rs2) a)
  | FENCE => goto next a
  end.
