(* ===== verification/Rv32Arith.v ===== *)
(** * The arithmetic of the interpreter against the reference

    [base_reg], [base_imm], [m_ext], [branch_taken] and the bit-manipulation
    functions compute the functions of [Rv32Isa]. *)

From S2P Require Import Prelude Rv32State Rv32Decode Rv32Bits Rv32Exec Rv32Isa Rv32Safe.

(** [lia] also reasons about division and remainder in this file. *)
#[local] Ltac Zify.zify_post_hook ::= Z.to_euclidean_division_equations.

(** ** Words *)

Lemma u32_wrap z : u32 z = wrap z.
Proof. done. Qed.

Lemma s32_sgn a : in32 a → s32 a = sgn a.
Proof. intros. unfold s32, sgn. by rewrite u32_small. Qed.

Lemma sgn_wrap a : in32 a → ∃ k, sgn a = a + k * 4294967296.
Proof. intros. unfold sgn. case_match; [exists 0|exists (-1)]; lia. Qed.

Lemma land_31 b : b .& 31 = shift_amount b.
Proof. change 31 with (Z.ones 5). by rewrite Z.land_ones. Qed.

Lemma shift_amount_range b : 0 <= shift_amount b < 32.
Proof. apply Z.mod_pos_bound. lia. Qed.

(** Disjoint bit ranges: the low [k] bits and the rest. *)
Lemma lor_add a b k : 0 <= k → 0 <= b < 2 ^ k → a mod 2 ^ k = 0 → a .| b = a + b.
Proof.
  intros Hk Hb Ha. assert (a .& b = 0) as E; [|by rewrite Z.add_nocarry_lxor, Z.lxor_lor].
  apply Z.bits_inj'. intros n Hn. rewrite Z.land_spec, Z.bits_0.
  destruct (decide (n < k)) as [Hlt|Hge].
  - rewrite <-(Z.mod_pow2_bits_low a k n), Ha, Z.bits_0 by lia. done.
  - rewrite (testbit_inw k b) by (unfold inw; lia). apply andb_false_r.
Qed.

Lemma lor_add_l a b k : 0 <= k → 0 <= a < 2 ^ k → b mod 2 ^ k = 0 → a .| b = a + b.
Proof. intros. rewrite Z.lor_comm, Z.add_comm. by apply (lor_add _ _ k). Qed.

Lemma shl_mod a n k : 0 <= k <= n → (a << n) mod 2 ^ k = 0.
Proof.
  intros. rewrite Z.shiftl_mul_pow2 by lia.
  replace n with (n - k + k) by lia. rewrite Z.pow_add_r, Z.mul_assoc by lia.
  apply Z.mod_mul. lia.
Qed.

Lemma u32_mod_pow2 a k : 0 <= k <= 32 → u32 a mod 2 ^ k = a mod 2 ^ k.
Proof.
  intros. unfold u32. rewrite Z.mod_mod_divide; [done|].
  exists (2 ^ (32 - k)). rewrite <-Z.pow_add_r by lia. by replace (32 - k + k) with 32 by lia.
Qed.

Lemma shiftr_lt a n : in32 a → 0 <= n <= 32 → 0 <= a >> n < 2 ^ (32 - n).
Proof.
  intros [? Ha] Hn. rewrite Z.shiftr_div_pow2 by lia. split; [apply Z.div_pos; lia|].
  apply Z.div_lt_upper_bound; [lia|]. rewrite <-Z.pow_add_r by lia.
  by replace (n + (32 - n)) with 32 by lia.
Qed.

(** ** Rotations *)

Lemma rotr32_ref a n : in32 a → 0 <= n < 32 → rotr32 a n = ror_ref a n.
Proof.
  intros Ha Hn. unfold rotr32, ror_ref. rewrite land_31. unfold shift_amount.
  rewrite Z.mod_small by done. unfold nz. destruct (Z.eqb_spec n 0) as [->|Hne]; simpl.
  - change (2 ^ 0) with 1. unfold wrap. rewrite Z.div_1_r, Z.mod_mul by lia. lia.
  - rewrite (lor_add_l _ _ (32 - n)); [|lia|apply shiftr_lt; [done|lia]|].
    + by rewrite Z.shiftr_div_pow2, Z.shiftl_mul_pow2 by lia.
    + rewrite u32_mod_pow2 by lia. apply shl_mod. lia.
Qed.

Lemma rotl32_ref a n : in32 a → 0 <= n < 32 → rotl32 a n = rol_ref a n.
Proof.
  intros Ha Hn. unfold rotl32, rol_ref. rewrite land_31. unfold shift_amount.
  rewrite Z.mod_small by done. unfold nz. destruct (Z.eqb_spec n 0) as [->|Hne]; simpl.
  - change (2 ^ 0) with 1. unfold wrap, inw in *. rewrite Z.mul_1_r, Z.mod_small by lia.
    rewrite Z.div_small by lia. lia.
  - rewrite (lor_add _ _ n); [|lia| |].
    + by rewrite Z.shiftr_div_pow2, Z.shiftl_mul_pow2 by lia.
    + pose proof (shiftr_lt a (32 - n) Ha ltac:(lia)) as H.
      by replace (32 - (32 - n)) with n in H by lia.
    + rewrite u32_mod_pow2 by lia. apply shl_mod. lia.
Qed.

(** ** Counting *)

Lemma top_bit v : in32 v → nz (v .& 0x80000000) = (2 ^ 31 <=? v).
Proof.
  intros Hv. unfold nz. change 0x80000000 with (1 << 31).
  replace (v .& (1 << 31)) with (((v >> 31) .& 1) << 31); cycle 1.
  { apply Z.bits_inj'. intros n Hn. rewrite Z.land_spec, !Z.shiftl_spec by lia.
    destruct (decide (n < 31)); [by rewrite !(Z.testbit_neg_r _ (n - 31)), andb_false_r by lia|].
    rewrite Z.land_spec, Z.shiftr_spec by lia. replace (n - 31 + 31) with n by lia. done. }
  change ((v >> 31) .& 1) with ((v >> 31) .& Z.ones 1).
  rewrite Z.land_ones, Z.shiftl_mul_pow2, Z.shiftr_div_pow2 by lia.
  unfold inw in Hv. change (2 ^ 1) with 2. change (2 ^ 31) with 2147483648.
  destruct (Z.leb_spec 2147483648 v).
  - replace (v / 2147483648) with 1; [done|]. apply (Z.div_unique _ _ _ (v - 2147483648)); lia.
  - by rewrite Z.div_small by lia.
Qed.

Lemma clz_loop_ref fuel v n :
  0 < v < 2 ^ 32 → 31 - Z.log2 v < Z.of_nat fuel → clz_loop fuel v n = n + (31 - Z.log2 v).
Proof.
  revert v n. induction fuel as [|fuel IH]; intros v n Hv Hf.
  { pose proof (proj1 (Z.log2_lt_pow2 v 32 ltac:(lia)) ltac:(lia)). lia. }
  simpl. rewrite top_bit by (unfold inw; lia). destruct (Z.leb_spec (2 ^ 31) v) as [Hge|Hlt].
  - rewrite (Z.log2_unique v 31); [lia|lia|]. split; [done|apply Hv].
  - rewrite u32_small by (rewrite Z.shiftl_mul_pow2 by lia; unfold inw; lia).
    rewrite Z.shiftl_mul_pow2 by lia. change (2 ^ 1) with 2. rewrite Z.mul_comm.
    assert (Z.log2 (2 * v) = Z.log2 v + 1) as E by (rewrite Z.log2_double; lia).
    rewrite IH; [lia|lia|lia].
Qed.

Lemma clz32_ref v : in32 v → clz32 v = uop_ref CLZ v.
Proof.
  intros Hv. unfold clz32, uop_ref. destruct (Z.eqb_spec v 0); [done|].
  pose proof (Z.log2_nonneg v). rewrite clz_loop_ref; unfold inw in *; lia.
Qed.

Lemma land_opp_even w : (2 * w) .& (- (2 * w)) = 2 * (w .& - w).
Proof.
  apply Z.bits_inj'. intros n Hn. rewrite Z.land_spec, <-Z.mul_opp_r.
  destruct (decide (n = 0)) as [->|]; [by rewrite !Z.testbit_even_0|].
  replace n with (Z.succ (n - 1)) by lia.
  by rewrite !Z.testbit_even_succ, Z.land_spec by lia.
Qed.

Lemma land_opp_odd w : (2 * w + 1) .& (- (2 * w + 1)) = 1.
Proof.
  replace (- (2 * w + 1)) with (2 * Z.lnot w + 1) by (unfold Z.lnot; lia).
  apply Z.bits_inj'. intros n Hn. rewrite Z.land_spec.
  destruct (decide (n = 0)) as [->|]; [by rewrite !Z.testbit_odd_0|].
  replace n with (Z.succ (n - 1)) by lia. rewrite !Z.testbit_odd_succ, Z.lnot_spec by lia.
  rewrite andb_negb_r. symmetry. apply (testbit_inw 1); [unfold inw; lia|lia].
Qed.

Lemma land_opp_pos w : 0 < w → 0 < w .& - w.
Proof.
  intros Hw. assert (0 <= w) as H0 by lia. revert w H0 Hw.
  apply (Z_lt_induction (λ w, 0 < w → 0 < w .& - w)). intros w IH Hw.
  destruct (Z.Even_or_Odd w) as [[k ->]|[k ->]].
  - rewrite land_opp_even. pose proof (IH k ltac:(lia) ltac:(lia)). lia.
  - rewrite land_opp_odd. lia.
Qed.

Lemma ctz_loop_ref fuel v n :
  0 < v < 2 ^ Z.of_nat fuel → ctz_loop fuel v n = n + Z.log2 (v .& - v).
Proof.
  revert v n. induction fuel as [|fuel IH]; intros v n Hv; [simpl in Hv; lia|]. simpl.
  change 1 with (Z.ones 1) at 1. rewrite Z.land_ones by lia. change (2 ^ 1) with 2.
  destruct (Z.Even_or_Odd v) as [[k ->]|[k ->]].
  - replace ((2 * k) mod 2) with 0 by lia. simpl. rewrite Z.shiftr_div_pow2 by lia.
    replace (2 * k / 2 ^ 1) with k by (change (2 ^ 1) with 2; lia).
    rewrite IH by (rewrite Nat2Z.inj_succ, Z.pow_succ_r in Hv by lia; lia).
    rewrite land_opp_even, Z.log2_double by (apply land_opp_pos; lia). lia.
  - replace ((2 * k + 1) mod 2) with 1 by lia. simpl. rewrite land_opp_odd. simpl. lia.
Qed.

Lemma ctz32_ref v : in32 v → ctz32 v = uop_ref CTZ v.
Proof.
  intros Hv. unfold ctz32, uop_ref. destruct (Z.eqb_spec v 0); [done|].
  rewrite ctz_loop_ref; [lia|]. unfold inw in Hv. change (Z.of_nat 32) with 32. lia.
Qed.

(** The number of bits set below [n]. *)
Definition pop (n : nat) (v : Z) : Z :=
  foldr (λ k acc, Z.b2z (Z.testbit v k) + acc) 0 (seqZ 0 (Z.of_nat n)).

Lemma pop_shift n v i :
  0 <= i →
  foldr (λ k acc, Z.b2z (Z.testbit v k) + acc) 0 (seqZ (i + 1) (Z.of_nat n)) =
  foldr (λ k acc, Z.b2z (Z.testbit (v / 2) k) + acc) 0 (seqZ i (Z.of_nat n)).
Proof.
  revert i. induction n as [|n IH]; intros i Hi; [done|].
  rewrite !(seqZ_cons _ (Z.of_nat (S n))) by lia. simpl.
  rewrite !Nat2Z.inj_succ, !Z.pred_succ, <-(IH (Z.succ i)), Z.div2_bits by lia.
  rewrite Z.add_1_r. done.
Qed.

Lemma pop_S n v : pop (S n) v = Z.b2z (Z.testbit v 0) + pop n (v / 2).
Proof.
  unfold pop. rewrite (seqZ_cons _ (Z.of_nat (S n))) by lia. simpl.
  rewrite Nat2Z.inj_succ, Z.pred_succ. change (Z.succ 0) with (0 + 1). rewrite pop_shift by lia. done.
Qed.

Lemma pop_even n k : pop (S n) (2 * k) = pop n k.
Proof. rewrite pop_S, Z.testbit_even_0. replace (2 * k / 2) with k by lia. done. Qed.

Lemma pop_odd n k : pop (S n) (2 * k + 1) = 1 + pop n k.
Proof. rewrite pop_S, Z.testbit_odd_0. by replace ((2 * k + 1) / 2) with k by lia. Qed.

Lemma land_pred_even w : (2 * w) .& (2 * w - 1) = 2 * (w .& (w - 1)).
Proof.
  replace (2 * w - 1) with (2 * (w - 1) + 1) by lia.
  apply Z.bits_inj'. intros n Hn. rewrite Z.land_spec.
  destruct (decide (n = 0)) as [->|]; [by rewrite !Z.testbit_even_0|].
  replace n with (Z.succ (n - 1)) by lia.
  by rewrite Z.testbit_odd_succ, !Z.testbit_even_succ, Z.land_spec by lia.
Qed.

Lemma land_pred_odd w : (2 * w + 1) .& (2 * w + 1 - 1) = 2 * w.
Proof.
  rewrite Z.add_simpl_r. apply Z.bits_inj'. intros n Hn. rewrite Z.land_spec.
  destruct (decide (n = 0)) as [->|]; [by rewrite !Z.testbit_even_0, andb_false_r|].
  replace n with (Z.succ (n - 1)) by lia.
  by rewrite Z.testbit_odd_succ, Z.testbit_even_succ, andb_diag by lia.
Qed.

(** Kernighan's step clears one bit. *)
Lemma pop_land_pred n v : 0 < v < 2 ^ Z.of_nat n → pop n (v .& (v - 1)) = pop n v - 1.
Proof.
  revert v. induction n as [|n IH]; intros v Hv; [simpl in Hv; lia|].
  rewrite Nat2Z.inj_succ, Z.pow_succ_r in Hv by lia.
  destruct (Z.Even_or_Odd v) as [[k ->]|[k ->]].
  - rewrite land_pred_even, !pop_even. apply IH. lia.
  - rewrite land_pred_odd, pop_even, pop_odd. lia.
Qed.

Lemma pop_nonneg n v : 0 <= pop n v.
Proof.
  revert v. induction n as [|n IH]; intros v; [done|]. rewrite pop_S. pose proof (IH (v / 2)).
  destruct (Z.testbit v 0); simpl; lia.
Qed.

Lemma pop_0 n : pop n 0 = 0.
Proof. induction n as [|n IH]; [done|]. by rewrite pop_S, Z.bits_0, Z.div_0_l, IH. Qed.

Lemma cpop_loop_ref fuel v n :
  0 <= v < 2 ^ 32 → pop 32 v <= Z.of_nat fuel → cpop_loop fuel v n = n + pop 32 v.
Proof.
  revert v n. induction fuel as [|fuel IH]; intros v n Hv Hf.
  { pose proof (pop_nonneg 32 v). simpl. lia. }
  simpl. unfold nz. destruct (Z.eqb_spec v 0) as [->|Hne]; simpl; [rewrite pop_0; lia|].
  pose proof (inw_land_l 32 v (v - 1) Hv) as Hl. pose proof (pop_land_pred 32 v ltac:(simpl; lia)).
  rewrite IH; [lia|exact Hl|lia].
Qed.

Lemma pop_le n v : pop n v <= Z.of_nat n.
Proof.
  revert v. induction n as [|n IH]; intros v; [done|]. rewrite pop_S. pose proof (IH (v / 2)).
  destruct (Z.testbit v 0); simpl Z.b2z; lia.
Qed.

Lemma cpop32_ref v : in32 v → cpop32 v = uop_ref CPOP v.
Proof.
  intros Hv. unfold cpop32. rewrite cpop_loop_ref; [done|done|]. apply pop_le.
Qed.

(** ** Bytes *)

Lemma byte_eq a k n : 0 <= k → n = 8 * k → (a >> n) .& 0xff = byte_of a k.
Proof.
  intros ? ->. change 0xff with (Z.ones 8). unfold byte_of.
  rewrite Z.land_ones, Z.shiftr_div_pow2 by lia. by rewrite Z.pow_mul_r by lia.
Qed.

Lemma orcb32_ref v : orcb32 v = uop_ref ORCB v.
Proof.
  unfold orcb32, uop_ref. cbn [foldl foldr].
  rewrite (byte_eq v 0 0), (byte_eq v 1 8), (byte_eq v 2 16), (byte_eq v 3 24) by lia. unfold nz.
  by destruct (byte_of v 0 =? 0), (byte_of v 1 =? 0), (byte_of v 2 =? 0), (byte_of v 3 =? 0).
Qed.

Lemma rev8_32_ref v : in32 v → rev8_32 v = uop_ref REV8 v.
Proof.
  intros Hv. unfold rev8_32, uop_ref. cbn [foldr].
  change 0xff00 with (0xff << 8). change 0xff0000 with (0xff << 16).
  rewrite !land_shifted by lia.
  assert ((u32 (v << 8) >> 16) .& 255 = (v >> 8) .& 255) as ->.
  { change 255 with (Z.ones 8). rewrite !Z.land_ones, !Z.shiftr_div_pow2, Z.shiftl_mul_pow2 by lia.
    unfold u32, inw in *. lia. }
  rewrite Z.shiftr_shiftr by lia. change (8 + 8) with 16.
  rewrite (byte_eq v 2 16), (byte_eq v 1 8) by lia.
  assert (v >> 24 = byte_of v 3) as ->.
  { unfold byte_of. rewrite Z.shiftr_div_pow2 by lia. unfold inw in *. lia. }
  assert (u32 (v << 24) = byte_of v 0 << 24) as ->.
  { unfold byte_of, u32. rewrite !Z.shiftl_mul_pow2 by lia. unfold inw in *. lia. }
  assert (∀ k, 0 <= byte_of v k < 256) as Hb by (intros; apply Z.mod_pos_bound; lia).
  pose proof (Hb 0). pose proof (Hb 1). pose proof (Hb 2). pose proof (Hb 3).
  rewrite !Z.shiftl_mul_pow2 by lia.
  rewrite (lor_add_l (byte_of v 3) _ 8) by (try apply Z.mod_mul; lia).
  rewrite (lor_add_l _ (byte_of v 1 * 2 ^ 16) 16) by (try apply Z.mod_mul; lia).
  rewrite (lor_add_l _ _ 24) by (try apply Z.mod_mul; lia). change (3 - 0) with 3. change (3 - 1) with 2.
  change (3 - 2) with 1. change (3 - 3) with 0. lia.
Qed.

Lemma sext_ref a :
  u32 (s8 a) = sext 8 (a mod 2 ^ 8) ∧ u32 (s16 a) = sext 16 (a mod 2 ^ 16).
Proof.
  unfold s8, s16, sext, u8, u16, u32. change (2 ^ (8 - 1)) with 128. change (2 ^ 8) with 256.
  change (2 ^ (16 - 1)) with 32768. change (2 ^ 16) with 65536. split; case_match; lia.
Qed.

Lemma land_ffff a : a .& 0xffff = a mod 2 ^ 16.
Proof. change 0xffff with (Z.ones 16). by rewrite Z.land_ones. Qed.

(** ** Complements *)

Lemma not32_testbit b n : in32 b → 0 <= n → Z.testbit (not32 b) n = negb (Z.testbit b n) && (n <? 32).
Proof.
  intros Hb Hn. rewrite not32_spec by done. unfold u32. change 4294967296 with (2 ^ 32).
  destruct (Z.ltb_spec n 32).
  - by rewrite Z.mod_pow2_bits_low, Z.lnot_spec, andb_true_r by lia.
  - by rewrite Z.mod_pow2_bits_high, andb_false_r by lia.
Qed.

Lemma andn_ref a b : in32 a → in32 b → a .& not32 b = Z.ldiff a b.
Proof.
  intros Ha Hb. apply Z.bits_inj'. intros n Hn.
  rewrite Z.land_spec, Z.ldiff_spec, not32_testbit by done.
  destruct (Z.ltb_spec n 32); [by rewrite andb_true_r|].
  by rewrite (testbit_inw 32 a) by (try done; lia).
Qed.

Lemma orn_ref a b : in32 a → in32 b → a .| not32 b = wrap (Z.lor a (Z.lnot b)).
Proof.
  intros Ha Hb. apply Z.bits_inj'. intros n Hn. unfold wrap.
  rewrite Z.lor_spec, not32_testbit by done. destruct (Z.ltb_spec n 32).
  - by rewrite Z.mod_pow2_bits_low, Z.lor_spec, Z.lnot_spec, andb_true_r by lia.
  - rewrite Z.mod_pow2_bits_high, andb_false_r, orb_false_r by lia.
    apply (testbit_inw 32); [done|lia].
Qed.

(** ** Single bits *)

Lemma bclr_ref a n : in32 a → 0 <= n < 32 → a .& not32 (1 << n) = Z.clearbit a n.
Proof. intros. unfold Z.clearbit. apply andn_ref; auto with word. Qed.

Lemma bext_ref a n : 0 <= n → (a >> n) .& 1 = Z.b2z (Z.testbit a n).
Proof.
  intros. change 1 with (Z.ones 1). rewrite Z.land_ones, Z.shiftr_div_pow2 by lia.
  change (2 ^ 1) with 2. symmetry. apply Z.testbit_spec'. lia.
Qed.

(** ** Register-register operations *)

Lemma mul_wrap a b : in32 a → in32 b → u32 (a * b) = wrap (sgn a * sgn b).
Proof.
  intros Ha Hb. destruct (sgn_wrap a Ha) as [k ->], (sgn_wrap b Hb) as [l ->].
  unfold u32, wrap. change (2 ^ 32) with 4294967296.
  replace ((a + k * 4294967296) * (b + l * 4294967296))
    with (a * b + (k * b + l * a + k * l * 4294967296) * 4294967296) by ring.
  by rewrite Z.mod_add.
Qed.

Lemma mulhu_ref a b : in32 a → in32 b → u32 ((a * b) >> 32) = a * b / 2 ^ 32.
Proof.
  intros Ha Hb. rewrite Z.shiftr_div_pow2 by lia. apply u32_small. unfold inw in *.
  split; [apply Z.div_pos; nia|]. apply Z.div_lt_upper_bound; nia.
Qed.

Lemma m_ext_ref f3 op a b :
  rop_fields op = (f3, 1) → in32 a → in32 b → m_ext f3 a b = rop_ref op a b.
Proof.
  intros Hop Ha Hb. unfold m_ext. rewrite !s32_sgn by done.
  destruct op; simplify_eq Hop; intros <-; cbn [Z.eqb Pos.eqb rop_ref].
  - by apply mul_wrap.
  - by rewrite Z.shiftr_div_pow2.
  - by rewrite Z.shiftr_div_pow2.
  - by apply mulhu_ref.
  - case_match; [done|]. destruct (_ && _) eqn:Hc; [|done].
    assert (a = 2147483648 ∧ b = 4294967295) as [-> ->] by lia. done.
  - done.
  - case_match; [done|]. destruct (_ && _) eqn:Hc; [|done].
    assert (a = 2147483648 ∧ b = 4294967295) as [-> ->] by lia. done.
  - done.
Qed.

(** What [exec] computes for a register-register encoding: the M extension,
    the base set, or the bit-manipulation decoder. *)
Definition reg_value (insn f3 f7 a b : Z) : option Z :=
  if f7 =? 1 then Some (m_ext f3 a b)
  else match base_reg f3 f7 a b with Some v => Some v | None => bitmanip_reg insn f3 f7 a b end.

Lemma reg_value_ref insn op a b :
  in32 a → in32 b →
  reg_value insn (rop_fields op).1 (rop_fields op).2 a b = Some (rop_ref op a b).
Proof.
  intros Ha Hb. unfold reg_value.
  destruct ((rop_fields op).2 =? 1) eqn:Hm.
  { f_equal. apply m_ext_ref; [|done..]. destruct (rop_fields op) eqn:E. simpl in *.
    f_equal. lia. }
  pose proof (shift_amount_range b).
  destruct op; try discriminate Hm; cbv [rop_fields fst snd base_reg bitmanip_reg rop_ref];
    cbn [Z.eqb Pos.eqb negb andb]; rewrite ?land_31, ?s32_sgn by done; f_equal;
    rewrite ?bclr_ref, ?bext_ref, ?Z.shiftl_mul_pow2, ?Z.shiftr_div_pow2, ?Z.mul_1_l by (done || lia);
    try done; try (unfold Z.b2z; by case_match);
    try (by apply u32_add_l); try (case_match; lia);
    auto using rotl32_ref, rotr32_ref, andn_ref, orn_ref.
  rewrite not32_spec; [done|]. by apply inw_lxor.
Qed.

(** ** Immediate operations *)

Lemma base_imm_ref f7 op a imm :
  in32 a → base_imm (iop_f3 op) f7 a imm = Some (iop_ref op a imm).
Proof.
  intros Ha. unfold base_imm. rewrite s32_sgn by done.
  destruct op; cbn [iop_f3 iop_ref Z.eqb Pos.eqb]; f_equal; try done;
    try (unfold Z.b2z; by case_match).
  by rewrite u32_add_r.
Qed.

(** What [exec] computes for [OP_IMM] with a shift amount [sh]. *)
Definition imm_value (insn f3 f7 a imm : Z) : option Z :=
  match base_imm f3 f7 a imm with Some v => Some v | None => bitmanip_imm insn f3 f7 a end.

Lemma imm_value_shift insn op a imm sh :
  in32 a → 0 <= sh < 32 → u32 imm .& 31 = sh → RS2 insn = sh →
  imm_value insn (shop_fields op).1 (shop_fields op).2 a imm = Some (shop_ref op a sh).
Proof.
  intros Ha Hsh Ei Er. unfold imm_value.
  destruct op; cbv [shop_fields fst snd base_imm bitmanip_imm shop_ref];
    cbn [Z.eqb Pos.eqb negb andb]; rewrite ?Ei, ?Er, ?s32_sgn by done; f_equal;
    rewrite ?bclr_ref, ?bext_ref, ?Z.shiftl_mul_pow2, ?Z.shiftr_div_pow2, ?Z.mul_1_l by (done || lia);
    auto using rotr32_ref.
Qed.

Lemma imm_value_unary insn op a imm :
  in32 a → op ≠ ZEXTH → RS2 insn = (uop_fields op).1.2 →
  imm_value insn (uop_fields op).1.1.2 (uop_fields op).2 a imm = Some (uop_ref op a).
Proof.
  intros Ha Hop Er. destruct (sext_ref a) as [E8 E16]. unfold imm_value.
  destruct op; try done; cbv [uop_fields fst snd] in *;
    cbv [base_imm bitmanip_imm]; rewrite Er; cbn [Z.eqb Pos.eqb negb andb]; f_equal;
    auto using clz32_ref, ctz32_ref, cpop32_ref, orcb32_ref, rev8_32_ref.
Qed.

Lemma branch_ref op a b :
  in32 a → in32 b → branch_taken (bop_f3 op) a b = Some (bop_ref op a b).
Proof.
  intros. unfold branch_taken. rewrite !s32_sgn by done. by destruct op.
Qed.
