(* ===== verification/Rv32Word.v ===== *)
(** * Decoding what was encoded

    The field and immediate decoders of src/rv32-emulator/demo/rv32.c invert
    the encodings of [Rv32Isa]. *)

From S2P Require Import Prelude Rv32Decode Rv32Isa Rv32Arith.

(** [lia] also reasons about division and remainder in this file. *)
#[local] Ltac Zify.zify_post_hook ::= Z.to_euclidean_division_equations.

(** Powers of two as numerals, then [lia]. *)
Ltac pows :=
  repeat match goal with
  | |- context [2 ^ (Zpos ?n)] =>
      let v := eval vm_compute in (2 ^ (Zpos n)) in change (2 ^ (Zpos n)) with v
  | H : context [2 ^ (Zpos ?n)] |- _ =>
      let v := eval vm_compute in (2 ^ (Zpos n)) in change (2 ^ (Zpos n)) with v in H
  end.
Ltac plia := pows; lia.

(** ** Decoding what was encoded *)

Record fields (op rd f3 rs1 rs2 f7 : Z) : Prop := {
  fl_op : 0 <= op < 128;
  fl_rd : 0 <= rd < 32;
  fl_f3 : 0 <= f3 < 8;
  fl_rs1 : 0 <= rs1 < 32;
  fl_rs2 : 0 <= rs2 < 32;
  fl_f7 : 0 <= f7 < 128
}.

(** A field of a word, by its position and width. *)
Lemma field_eq w k n : 0 <= k → 0 <= n → (w >> k) .& Z.ones n = w / 2 ^ k mod 2 ^ n.
Proof. intros. by rewrite Z.land_ones, Z.shiftr_div_pow2. Qed.

Section Word.
Context (op rd f3 rs1 rs2 f7 : Z) (Hf : fields op rd f3 rs1 rs2 f7).
Let w := word op rd f3 rs1 rs2 f7.

Ltac field k n :=
  etransitivity; [apply (field_eq w k n); lia|]; destruct Hf; unfold w, word; plia.

Lemma word_in : in32 w.
Proof using Hf. destruct Hf. unfold inw, w, word. plia. Qed.
Lemma word_op : OPCODE w = op. Proof using Hf. field 0 7. Qed.
Lemma word_rd : RD w = rd. Proof using Hf. field 7 5. Qed.
Lemma word_f3 : FUNCT3 w = f3. Proof using Hf. field 12 3. Qed.
Lemma word_rs1 : RS1 w = rs1. Proof using Hf. field 15 5. Qed.
Lemma word_rs2 : RS2 w = rs2. Proof using Hf. field 20 5. Qed.
Lemma word_f7 : FUNCT7 w = f7. Proof using Hf. field 25 7. Qed.

Lemma word_s32 : s32 w = w - (if f7 <? 64 then 0 else 4294967296).
Proof using Hf.
  unfold s32. rewrite u32_small by apply word_in. destruct Hf. unfold w, word.
  repeat case_match; plia.
Qed.

(** The chunks [imm_j] cuts out of a word. *)
Lemma word_j_chunks :
  w / 2 ^ 12 mod 2 ^ 8 = f3 + 8 * rs1 ∧ w / 2 ^ 20 mod 2 ^ 1 = rs2 mod 2 ∧
  w / 2 ^ 21 mod 2 ^ 10 = rs2 / 2 + 16 * (f7 mod 64) ∧
  s32 w / 2 ^ 31 = (if f7 <? 64 then 0 else -1).
Proof using Hf.
  rewrite word_s32. destruct Hf. unfold w, word. change (2 ^ 1) with 2. split_and!; [plia..|].
  case_match; plia.
Qed.
End Word.

Section Immediates.
Context (op rd f3 rs1 rs2 : Z).

Lemma imm_i_word imm :
  fields op rd f3 rs1 0 0 → - 2 ^ 11 <= imm < 2 ^ 11 → imm_i (word_i op rd f3 rs1 imm) = imm.
Proof.
  intros Hf Hi. unfold imm_i, word_i. rewrite word_s32; [|destruct Hf; split; plia].
  rewrite Z.shiftr_div_pow2 by lia. destruct Hf. unfold word. case_match; plia.
Qed.

Lemma imm_s_word imm :
  fields op 0 f3 rs1 rs2 0 → - 2 ^ 11 <= imm < 2 ^ 11 → imm_s (word_s op f3 rs1 rs2 imm) = imm.
Proof.
  intros Hf Hi. unfold imm_s, word_s. rewrite word_s32; [|destruct Hf; split; plia].
  change 0x1f with (Z.ones 5). rewrite field_eq, Z.shiftl_mul_pow2, Z.shiftr_div_pow2 by lia.
  rewrite (lor_add _ _ 5) by plia.
  destruct Hf. unfold word. case_match; plia.
Qed.

(** The chunks of a branch or jump offset, put back in order. *)
Lemma lor_reorder p q a b : p .| a .| b .| q = p .| q .| a .| b.
Proof. apply Z.bits_inj'. intros. rewrite !Z.lor_spec. btauto. Qed.

Lemma lor_chunks s a b c :
  0 <= a < 64 → 0 <= b < 16 → 0 <= c < 2 →
  (s << 12) .| (a << 5) .| (b << 1) .| (c << 11) = s * 4096 + c * 2048 + a * 32 + b * 2.
Proof.
  intros Ha Hb Hc. rewrite lor_reorder, !Z.shiftl_mul_pow2 by lia. pows. change (2 ^ 1) with 2.
  rewrite (lor_add (s * 4096) _ 12) by plia.
  rewrite (lor_add _ (a * 32) 11) by plia. by rewrite (lor_add _ (b * 2) 5) by plia.
Qed.

Lemma imm_b_word imm :
  fields op 0 f3 rs1 rs2 0 → - 2 ^ 12 <= imm < 2 ^ 12 → imm mod 2 = 0 →
  imm_b (word_b op f3 rs1 rs2 imm) = imm.
Proof.
  intros Hf Hi He. unfold imm_b, word_b. rewrite word_s32; [|destruct Hf; split; plia].
  change 0x3f with (Z.ones 6). change 0x0f with (Z.ones 4). change 0x01 with (Z.ones 1).
  rewrite !field_eq, Z.shiftr_div_pow2 by lia.
  rewrite lor_chunks by plia.
  destruct Hf. unfold word. case_match; plia.
Qed.

Lemma imm_u_word imm :
  fields op rd 0 0 0 0 → 0 <= imm < 2 ^ 20 → u32 (imm_u (word_u op rd imm)) = imm * 2 ^ 12.
Proof.
  intros Hf Hi. unfold imm_u, word_u. rewrite u32_s32.
  change 0xfffff000 with (Z.ones 20 << 12). rewrite land_shifted, field_eq by lia.
  rewrite Z.shiftl_mul_pow2, u32_small by (unfold inw; plia).
  destruct Hf. unfold word. plia.
Qed.

Lemma lor_chunks_j s a b c :
  0 <= a < 1024 → 0 <= b < 2 → 0 <= c < 256 →
  (s << 20) .| (a << 1) .| (b << 11) .| (c << 12) = s * 1048576 + c * 4096 + b * 2048 + a * 2.
Proof.
  intros Ha Hb Hc. rewrite lor_reorder, !Z.shiftl_mul_pow2 by lia. pows. change (2 ^ 1) with 2.
  rewrite <-Z.lor_assoc, (Z.lor_comm (a * 2)), Z.lor_assoc.
  rewrite (lor_add (s * 1048576) _ 20) by plia.
  rewrite (lor_add _ (b * 2048) 12) by plia. by rewrite (lor_add _ (a * 2) 11) by plia.
Qed.

Lemma imm_j_word imm :
  fields op rd 0 0 0 0 → - 2 ^ 20 <= imm < 2 ^ 20 → imm mod 2 = 0 →
  imm_j (word_j op rd imm) = imm.
Proof.
  intros Hf Hi He. unfold imm_j, word_j.
  set (f3' := imm / 4096 mod 8). set (rs1' := imm / 32768 mod 32).
  set (rs2' := imm / 2048 mod 2 + _). set (f7' := imm / 32 mod 64 + _).
  assert (fields op rd f3' rs1' rs2' f7') as Hf' by (destruct Hf; split; unfold f3', rs1', rs2', f7'; plia).
  destruct (word_j_chunks _ _ _ _ _ _ Hf') as (E1 & E2 & E3 & E4).
  change 0x3ff with (Z.ones 10). change 0xff with (Z.ones 8). change 0x01 with (Z.ones 1).
  rewrite !field_eq, Z.shiftr_div_pow2 by lia. rewrite lor_chunks_j by plia.
  rewrite E1, E2, E3, E4. clear E1 E2 E3 E4 Hf Hf'. unfold f3', rs1', rs2', f7'.
  case_match; plia.
Qed.
End Immediates.
