(* ===== verification/Rv32Rvc.v ===== *)
(** * Compressed instructions against the encoding tables

    The C and Zcb extensions as the tables of the RISC-V manual give them: an
    immediate is a list of (bit of the half-word, bit of the immediate) pairs.
    [rv_expand_c] and [rv_expand_zcb] agree with the tables on each of the
    65,536 half-words. *)

From S2P Require Import Prelude Rv32Decode Rv32Isa.

(** ** The tables *)

Definition gather (c : Z) (l : list (Z * Z)) : Z :=
  foldr (λ p n, if Z.testbit c p.1 then (1 << p.2) + n else n) 0 l.

(** Bits [hi] to [lo]. *)
Definition bits (c hi lo : Z) : Z := (c >> lo) .& Z.ones (hi - lo + 1).

(** The [w]-bit two's complement value. *)
Definition sx (w v : Z) : Z := if Z.testbit v (w - 1) then v - (1 << w) else v.

Definition im_addi4spn (c : Z) : Z :=
  gather c [(12, 5); (11, 4); (10, 9); (9, 8); (8, 7); (7, 6); (6, 2); (5, 3)].
Definition im_lw (c : Z) : Z := gather c [(12, 5); (11, 4); (10, 3); (6, 2); (5, 6)].
Definition im_ci (c : Z) : Z :=
  sx 6 (gather c [(12, 5); (6, 4); (5, 3); (4, 2); (3, 1); (2, 0)]).
Definition im_j (c : Z) : Z :=
  sx 12 (gather c [(12, 11); (11, 4); (10, 9); (9, 8); (8, 10); (7, 6); (6, 7); (5, 3);
                   (4, 2); (3, 1); (2, 5)]).
Definition im_addi16sp (c : Z) : Z :=
  sx 10 (gather c [(12, 9); (6, 4); (5, 6); (4, 8); (3, 7); (2, 5)]).
Definition im_b (c : Z) : Z :=
  sx 9 (gather c [(12, 8); (11, 4); (10, 3); (6, 7); (5, 6); (4, 2); (3, 1); (2, 5)]).
Definition im_lwsp (c : Z) : Z := gather c [(12, 5); (6, 4); (5, 3); (4, 2); (3, 7); (2, 6)].
Definition im_swsp (c : Z) : Z := gather c [(12, 5); (11, 4); (10, 3); (9, 2); (8, 7); (7, 6)].

Definition rvc_q0 (c : Z) : option instr :=
  let rd' := 8 + bits c 4 2 in
  let rs1' := 8 + bits c 9 7 in
  match bits c 15 13 with
  | 0 => if im_addi4spn c =? 0 then None else Some (OPI ADDI rd' 2 (im_addi4spn c))
  | 2 => Some (LOAD LW rd' rs1' (im_lw c))
  | 3 => Some (FLW rd' rs1' (im_lw c))
  | 6 => Some (STORE SW rd' rs1' (im_lw c))
  | 7 => Some (FSW rd' rs1' (im_lw c))
  | _ => None
  end.

Definition rvc_arith (c : Z) : option instr :=
  let rd' := 8 + bits c 9 7 in
  let rs2' := 8 + bits c 4 2 in
  let sh := bits c 6 2 in
  match bits c 11 10, bits c 12 12, bits c 6 5 with
  | 0, 0, _ => Some (SHI SRLI rd' rd' sh)
  | 1, 0, _ => Some (SHI SRAI rd' rd' sh)
  | 2, _, _ => Some (OPI ANDI rd' rd' (im_ci c))
  | 3, 0, 0 => Some (OPR SUB rd' rd' rs2')
  | 3, 0, 1 => Some (OPR XOR rd' rd' rs2')
  | 3, 0, 2 => Some (OPR OR rd' rd' rs2')
  | 3, 0, 3 => Some (OPR AND rd' rd' rs2')
  | _, _, _ => None
  end.

Definition rvc_q1 (c : Z) : option instr :=
  let rd := bits c 11 7 in
  let rs1' := 8 + bits c 9 7 in
  match bits c 15 13 with
  | 0 => Some (OPI ADDI rd rd (im_ci c))
  | 1 => Some (JAL 1 (im_j c))
  | 2 => Some (OPI ADDI rd 0 (im_ci c))
  | 3 =>
      if rd =? 2 then
        if im_addi16sp c =? 0 then None else Some (OPI ADDI 2 2 (im_addi16sp c))
      else if im_ci c =? 0 then None else Some (LUI rd (im_ci c mod 2 ^ 20))
  | 4 => rvc_arith c
  | 5 => Some (JAL 0 (im_j c))
  | 6 => Some (BRANCH BEQ rs1' 0 (im_b c))
  | _ => Some (BRANCH BNE rs1' 0 (im_b c))
  end.

Definition rvc_q2 (c : Z) : option instr :=
  let rd := bits c 11 7 in
  let rs2 := bits c 6 2 in
  match bits c 15 13 with
  | 0 => if bits c 12 12 =? 0 then Some (SHI SLLI rd rd rs2) else None
  | 2 => if rd =? 0 then None else Some (LOAD LW rd 2 (im_lwsp c))
  | 3 => Some (FLW rd 2 (im_lwsp c))
  | 4 =>
      match bits c 12 12, rs2, rd with
      | 0, 0, 0 => None
      | 0, 0, _ => Some (JALR 0 rd 0)
      | 0, _, _ => Some (OPR ADD rd 0 rs2)
      | _, 0, 0 => None
      | _, 0, _ => Some (JALR 1 rd 0)
      | _, _, _ => Some (OPR ADD rd rd rs2)
      end
  | 6 => Some (STORE SW rs2 2 (im_swsp c))
  | 7 => Some (FSW rs2 2 (im_swsp c))
  | _ => None
  end.

(** The C extension; [c.ebreak] is not an instruction of [instr]. *)
Definition rvc_decode (c : Z) : option instr :=
  match bits c 1 0 with
  | 0 => rvc_q0 c
  | 1 => rvc_q1 c
  | 2 => rvc_q2 c
  | _ => None
  end.
Definition c_ebreak : Z := 0x9002.
Definition ebreak : Z := 0x00100073.

Definition zcb_decode (c : Z) : option instr :=
  let rd' := 8 + bits c 9 7 in
  let rs2' := 8 + bits c 4 2 in
  let uimm := gather c [(6, 0); (5, 1)] in
  let uimmh := gather c [(5, 1)] in
  match bits c 1 0, bits c 15 10, bits c 6 6, bits c 6 5, bits c 4 2 with
  | 0, 32, _, _, _ => Some (LOAD LBU rs2' rd' uimm)
  | 0, 33, 0, _, _ => Some (LOAD LHU rs2' rd' uimmh)
  | 0, 33, _, _, _ => Some (LOAD LH rs2' rd' uimmh)
  | 0, 34, _, _, _ => Some (STORE SB rs2' rd' uimm)
  | 0, 35, 0, _, _ => Some (STORE SH rs2' rd' uimmh)
  | 1, 39, _, 2, _ => Some (OPR MUL rd' rd' rs2')
  | 1, 39, _, 3, 0 => Some (OPI ANDI rd' rd' 255)
  | 1, 39, _, 3, 1 => Some (OPU SEXTB rd' rd')
  | 1, 39, _, 3, 2 => Some (OPU ZEXTH rd' rd')
  | 1, 39, _, 3, 3 => Some (OPU SEXTH rd' rd')
  | 1, 39, _, 3, 5 => Some (OPI XORI rd' rd' (-1))
  | _, _, _, _, _ => None
  end.

(** ** All half-words *)

(** [P] of every value that continues [z] by [w] more bits. *)
Fixpoint all_words (w : nat) (P : Z → bool) (z : Z) : bool :=
  match w with
  | O => P z
  | S w => all_words w P (Z.double z) && all_words w P (Z.succ_double z)
  end.

Lemma all_words_spec w P z n :
  all_words w P z = true → z * 2 ^ Z.of_nat w <= n < (z + 1) * 2 ^ Z.of_nat w → P n = true.
Proof.
  revert z. induction w as [|w IH]; intros z H Hn; simpl in H.
  { simpl in Hn. by replace n with z by lia. }
  apply andb_prop in H as [H0 H1]. rewrite Nat2Z.inj_succ, Z.pow_succ_r in Hn by lia.
  rewrite Z.double_spec in H0. rewrite Z.succ_double_spec in H1.
  destruct (decide (n < (2 * z + 1) * 2 ^ Z.of_nat w)).
  - apply (IH (2 * z)); [done|lia].
  - apply (IH (2 * z + 1)); [done|lia].
Qed.

Definition word_of (o : option instr) : Z := match o with Some i => encode i | None => 0 end.
Definition ok_instr (o : option instr) : bool := match o with Some i => valid i | None => true end.
Definition count3 (a b c : bool) : Z := Z.b2z a + Z.b2z b + Z.b2z c.

(** What is to be checked of a half-word. *)
Definition rvc_check (c : Z) : bool :=
  let e := rv_expand_c c in
  let z := rv_expand_zcb c in
  let d := rvc_decode c in
  let dz := zcb_decode c in
  (e =? (if c =? c_ebreak then ebreak else word_of d)) && (z =? word_of dz) &&
  ok_instr d && ok_instr dz &&
  (count3 (negb (e =? 0)) (negb (z =? 0)) (is_zcmp c) <=? 1).

Lemma rvc_checked : all_words 16 rvc_check 0 = true.
Proof. vm_compute. reflexivity. Qed.

Lemma rvc_check_ok c : in16 c → rvc_check c = true.
Proof. intros Hc. apply (all_words_spec 16 _ 0); [apply rvc_checked|exact Hc]. Qed.
