(* ===== verification/Rv32Refine.v ===== *)
(** * The interpreter refines the reference semantics

    On the flat machine, [rv_step] at an address that holds the encoding of
    an instruction of [Rv32Isa] performs [isa_exec]. *)

From stdpp Require Import gmap.
From S2P Require Import Prelude Rv32State Rv32Decode Rv32Bits Rv32Exec Rv32Isa Rv32Safe.
From S2P Require Import Rv32Arith Rv32Word Rv32Rvc Rv32Machine.

(** [lia] also reasons about division and remainder in this file. *)
#[local] Ltac Zify.zify_post_hook ::= Z.to_euclidean_division_equations.

(** ** The architectural state of a machine *)

Definition arch_of (s : sys machine) : arch :=
  mk_arch s.(cpu).(x) s.(cpu).(f) s.(cpu).(pc) s.(bus).(mem) s.(bus).(mem_size).

(** The machine with the registers and the memory of [a]; the program counter
    is left to [rv_step]. *)
Definition put_arch (a : arch) (s : sys machine) : sys machine :=
  mk_sys (with_f a.(af) (with_x a.(ax) s.(cpu))) (with_mem a.(amem) s.(bus)).

(** A machine between two instructions that emulates misaligned accesses. *)
Record Ready (s : sys machine) : Prop := {
  rdy_inv : Inv machine_inv true true s;
  rdy_zb : s.(cpu).(bitmanip) = true;
  rdy_mis : s.(cpu).(trap_misaligned) = false;
  rdy_size : s.(bus).(mem_size) mod 4 = 0
}.

Lemma put_arch_same s : put_arch (arch_of s) s = s.
Proof. by destruct s as [[] []]. Qed.

Section Exec.
Context (s : sys machine) (Hs : Ready s).
Abbreviation a := (arch_of s).
Abbreviation cbs := machine_callbacks.

Lemma rdy_wf : wf_cpu s.(cpu).
Proof using Hs. apply Hs. Qed.
Lemma rdy_machine : wf_machine s.(bus).
Proof using Hs. apply Hs. Qed.

(** ** Registers *)

Lemma reg_value_at (l : list Z) r :
  length l = 32%nat → Forall in32 l → 0 <= r < 32 →
  l !! Z.to_nat r = Some (default 0 (l !! Z.to_nat r)) ∧ in32 (default 0 (l !! Z.to_nat r)).
Proof using. intros Hl Hi Hr. by destruct (reg_lookup l r Hl Hi Hr) as (v & -> & ?). Qed.

Lemma xget_in r : 0 <= r < 32 → in32 (xget a r).
Proof using Hs. intros. apply reg_value_at; [apply rdy_wf..|done]. Qed.

Lemma rd_x_eq r : 0 <= r < 32 → rd_x r s = Some (xget a r, s).
Proof using Hs.
  intros Hr. unfold rd_x, xget. simpl.
  destruct (reg_value_at s.(cpu).(x) r) as [E _]; [apply rdy_wf..|done|]. by rewrite E at 1.
Qed.

Lemma rd_f_eq r : 0 <= r < 32 → rd_f r s = Some (fget a r, s).
Proof using Hs.
  intros Hr. unfold rd_f, fget. simpl.
  destruct (reg_value_at s.(cpu).(f) r) as [E _]; [apply rdy_wf..|done|]. by rewrite E at 1.
Qed.

Lemma x0_at : s.(cpu).(x) !! 0%nat = Some 0.
Proof using Hs. by apply (inv_x0 _ _ _ _ (rdy_inv _ Hs)). Qed.

Lemma wr_fin_eq r v next :
  0 <= r < 32 → (wr_x r v;; fin next) s = Some (next, put_arch (xset r v a) s).
Proof using Hs.
  intros Hr. unfold wr_x, fin, mbind, M_bind. destruct rdy_wf.
  destruct (reg_value_at s.(cpu).(x) r) as [E _]; [done..|]. rewrite E. simpl.
  unfold wr_x, xset. simpl. change (Z.to_nat 0) with 0%nat. destruct (Z.eqb_spec r 0) as [->|Hne].
  - rewrite list_lookup_insert_eq by (simpl; lia). simpl. rewrite list_insert_insert_eq.
    rewrite (list_insert_id _ 0) by apply x0_at. by destruct s as [[] []].
  - rewrite list_lookup_insert_ne, x0_at by lia. simpl.
    rewrite (list_insert_id _ 0); [by destruct s as [[] []]|].
    rewrite list_lookup_insert_ne by lia. apply x0_at.
Qed.

Lemma wr_f_fin_eq r v next :
  0 <= r < 32 → (wr_f r v;; fin next) s = Some (next, put_arch (fset r v a) s).
Proof using Hs.
  intros Hr. unfold wr_f, mbind, M_bind. destruct rdy_wf.
  destruct (reg_value_at s.(cpu).(f) r) as [E _]; [done..|]. rewrite E. simpl.
  unfold fin, wr_x, mbind, M_bind. simpl. change (Z.to_nat 0) with 0%nat.
  rewrite x0_at. simpl.
  rewrite (list_insert_id _ 0) by apply x0_at. by destruct s as [[] []].
Qed.

Lemma fin_eq next : fin next s = Some (next, s).
Proof using Hs.
  unfold fin, wr_x, mbind, M_bind. simpl. change (Z.to_nat 0) with 0%nat.
  rewrite x0_at. simpl.
  rewrite (list_insert_id _ 0) by apply x0_at. by destruct s as [[] []].
Qed.

(** ** Memory *)

Lemma byte_at_load addr : load_byte s.(bus).(mem) s.(bus).(mem_size) addr =
  if addr <? s.(bus).(mem_size) then byte_at s.(bus) addr else 0.
Proof using. done. Qed.

Lemma load_byte_in m size addr : map_Forall (λ _ v, in8 v) m → in8 (load_byte m size addr).
Proof using.
  intros Hm. unfold load_byte. case_match; [|unfold inw; lia].
  destruct (m !! addr) eqn:E; simpl; [by apply Hm in E|unfold inw; lia].
Qed.

Lemma load_le_range n m size addr :
  map_Forall (λ _ v, in8 v) m → 0 <= load_le n m size addr < 256 ^ Z.of_nat n.
Proof using.
  intros Hm. revert addr. induction n as [|n IH]; intros addr; [simpl; lia|]. cbn [load_le].
  rewrite Nat2Z.inj_succ, Z.pow_succ_r by lia.
  pose proof (load_byte_in m size addr Hm). pose proof (IH (wrap (addr + 1))).
  unfold inw in *. change (2 ^ 8) with 256 in *. lia.
Qed.

Lemma mem_r8_load addr :
  in32 addr → mem_r8 s.(bus) addr = Some (load_le 1 s.(bus).(mem) s.(bus).(mem_size) addr, s.(bus)).
Proof using.
  intros Ha. unfold mem_r8. cbn [load_le]. rewrite byte_at_load.
  destruct (Z.leb_spec (mem_size (bus s)) addr), (Z.ltb_spec addr (mem_size (bus s))); try lia.
  - done.
  - rewrite load_ok by (unfold inw in *; lia). simpl. do 2 f_equal. lia.
Qed.

Lemma mem_r16_load addr :
  in32 addr → addr .& 1 = 0 →
  mem_r16 s.(bus) addr = Some (load_le 2 s.(bus).(mem) s.(bus).(mem_size) addr, s.(bus)).
Proof using Hs.
  intros Ha Hal. rewrite mem_r16_eq by done. cbn [load_le].
  rewrite <-!u32_wrap, add_1_2 by (done || lia). rewrite !byte_at_load.
  pose proof (rdy_size _ Hs) as Hz.
  assert (addr mod 2 = 0) by (rewrite <-Hal; symmetry; apply (Z.land_ones addr 1); lia).
  pose proof (byte_at_in _ addr rdy_machine) as H0. pose proof (byte_at_in _ (addr + 1) rdy_machine) as H1.
  do 2 f_equal. unfold inw in H0, H1. change (2 ^ 8) with 256 in *.
  destruct (Z.leb_spec (mem_size (bus s)) (addr + 1)).
  - rewrite !(proj2 (Z.ltb_ge _ _)) by lia. done.
  - rewrite !(proj2 (Z.ltb_lt _ _)) by lia. rewrite Z.shiftl_mul_pow2 by lia.
    change (2 ^ 8) with 256. rewrite (lor_add_l _ _ 8) by (change (2 ^ 8) with 256; lia). lia.
Qed.

Lemma aligned_wraps addr :
  in32 addr → addr .& 3 = 0 →
  wrap (addr + 1) = addr + 1 ∧ wrap (addr + 1 + 1) = addr + 2 ∧ wrap (addr + 2 + 1) = addr + 3.
Proof using.
  intros Ha Hal. rewrite <-!u32_wrap. split_and!; [by apply add_3_4|..].
  - rewrite <-Z.add_assoc. by apply (add_3_4 addr 2).
  - rewrite <-Z.add_assoc. by apply (add_3_4 addr 3).
Qed.

Lemma mem_r32_load addr :
  in32 addr → addr .& 3 = 0 →
  mem_r32 s.(bus) addr = Some (load_le 4 s.(bus).(mem) s.(bus).(mem_size) addr, s.(bus)).
Proof using Hs.
  intros Ha Hal. rewrite mem_r32_eq by done. cbn [load_le].
  destruct (aligned_wraps addr Ha Hal) as (-> & -> & ->). rewrite !byte_at_load.
  pose proof (rdy_size _ Hs) as Hz.
  assert (addr mod 4 = 0) by (rewrite <-Hal; symmetry; apply (Z.land_ones addr 2); lia).
  assert (∀ k, 0 <= byte_at (bus s) k < 256) as Hb by (intros; by apply byte_at_in, rdy_machine).
  pose proof (Hb addr). pose proof (Hb (addr + 1)). pose proof (Hb (addr + 2)). pose proof (Hb (addr + 3)).
  do 2 f_equal. destruct (Z.leb_spec (mem_size (bus s)) (addr + 3)).
  - rewrite !(proj2 (Z.ltb_ge _ _)) by lia. done.
  - rewrite !(proj2 (Z.ltb_lt _ _)) by lia. rewrite !Z.shiftl_mul_pow2 by lia.
    rewrite (lor_add_l (byte_at _ _) _ 8) by plia.
    rewrite (lor_add_l _ (byte_at (bus s) (addr + 2) * _) 16) by plia.
    rewrite (lor_add_l _ _ 24) by plia. plia.
Qed.

Lemma load_le_mask n addr w :
  256 ^ Z.of_nat n = 2 ^ w → 0 <= w →
  load_le n s.(bus).(mem) s.(bus).(mem_size) addr .& Z.ones w =
  load_le n s.(bus).(mem) s.(bus).(mem_size) addr.
Proof using Hs.
  intros Hw H0. rewrite Z.land_ones by done. apply Z.mod_small. rewrite <-Hw.
  apply load_le_range, rdy_machine.
Qed.

Lemma read_bytes_eq n i addr v :
  (Z.of_nat n + i <= 4) → 0 <= i → 0 <= v < 256 ^ i →
  read_bytes cbs n i addr v s =
    Some (v + 256 ^ i * load_le n s.(bus).(mem) s.(bus).(mem_size) (wrap (addr + i)), s).
Proof using Hs.
  revert i v. induction n as [|n IH]; intros i v Hn Hi Hv; cbn [read_bytes load_le].
  { rewrite Z.mul_0_r, Z.add_0_r. done. }
  unfold mbind, M_bind, bus_rd. simpl. rewrite mem_r8_load by apply u32_in. cbn [load_le].
  rewrite Z.mul_0_r, Z.add_0_r, u32_wrap.
  set (b := load_byte _ _ _). assert (0 <= b < 256) as Hb.
  { apply load_byte_in, rdy_machine. }
  assert (256 ^ i = 2 ^ (8 * i)) as Ep by (rewrite Z.pow_mul_r by lia; done).
  assert (b .& 255 = b) as ->.
  { change 255 with (Z.ones 8). rewrite Z.land_ones by lia. by apply Z.mod_small. }
  rewrite u32_small; cycle 1.
  { apply byte_shl_in; [done|lia..]. }
  rewrite (lor_add_l v _ (8 * i)); [|lia|by rewrite <-Ep|apply shl_mod; lia].
  rewrite Z.shiftl_mul_pow2, <-Ep by lia. replace (mk_sys (cpu s) (bus s)) with s by by destruct s.
  rewrite IH; [|lia|lia|rewrite Z.pow_add_r by lia; nia].
  rewrite Z.pow_add_r by lia. replace (wrap (wrap (addr + i) + 1)) with (wrap (addr + (i + 1))).
  - do 2 f_equal. lia.
  - rewrite <-!u32_wrap, u32_add_l. f_equal. lia.
Qed.

Lemma mem_read_eq n addr :
  in32 addr → n = 1%nat ∨ n = 2%nat ∨ n = 4%nat →
  mem_read cbs addr (Z.of_nat n) s = Some (Some (aload n a addr), s).
Proof using Hs.
  intros Ha Hn. unfold mem_read, get_cpu, mgets, mbind, M_bind.
  rewrite (rdy_mis _ Hs). simpl. unfold aload. simpl.
  destruct (_ =? 0) eqn:Hal.
  - apply Z.eqb_eq in Hal.
    destruct Hn as [->|[->| ->]]; cbn [Z.of_nat Z.eqb Pos.eqb Pos.of_succ_nat Pos.succ] in *;
      unfold bus_rd; simpl.
    + rewrite mem_r8_load by done. change 255 with (Z.ones 8).
      rewrite load_le_mask by done. by destruct s.
    + rewrite mem_r16_load by done. change 65535 with (Z.ones 16).
      rewrite load_le_mask by done. by destruct s.
    + rewrite mem_r32_load by done. by destruct s.
  - rewrite Nat2Z.id, read_bytes_eq by lia. rewrite Z.add_0_r, Z.mul_1_l, Z.add_0_l.
    by rewrite <-u32_wrap, u32_small by done.
Qed.

(** Stores *)

Lemma mem_w8_store m addr v :
  in32 addr →
  mem_w8 m addr v = Some (with_mem (store_le 1 m.(mem_size) addr v m.(mem)) m).
Proof using.
  intros Ha. unfold mem_w8. cbn [store_le]. unfold store_byte. case_match.
  - rewrite store_ok by (unfold inw in *; lia). done.
  - by destruct m.
Qed.

Lemma write_bytes_eq n i addr v c m :
  0 <= i →
  write_bytes cbs n i addr v (mk_sys c m) =
    Some (tt, mk_sys c (with_mem (store_le n m.(mem_size) (wrap (addr + i)) (v / 256 ^ i) m.(mem)) m)).
Proof using.
  revert i m. induction n as [|n IH]; intros i m Hi; cbn [write_bytes store_le].
  { by destruct m. }
  unfold mbind, M_bind, bus_wr. simpl. rewrite mem_w8_store by apply u32_in.
  rewrite IH by lia. simpl. change 255 with (Z.ones 8).
  rewrite Z.land_ones, Z.shiftr_div_pow2 by lia. change (u32 (addr + i)) with (wrap (addr + i)).
  rewrite (Z.mod_mod _ 256) by lia.
  replace (2 ^ (8 * i)) with (256 ^ i) by (rewrite Z.pow_mul_r by lia; done).
  replace (wrap (wrap (addr + i) + 1)) with (wrap (addr + (i + 1))).
  - rewrite Z.pow_add_r, Z.pow_1_r, <-Z.div_div by lia. done.
  - rewrite <-!u32_wrap, u32_add_l. f_equal. lia.
Qed.

Lemma store_le_trunc n size addr v m :
  store_le n size addr (v mod 256 ^ Z.of_nat n) m = store_le n size addr v m.
Proof using.
  revert addr v m. induction n as [|n IH]; intros addr v m; [done|].
  cbn [store_le]. rewrite Nat2Z.inj_succ, Z.pow_succ_r by lia.
  assert (0 < 256 ^ Z.of_nat n) by (apply Z.pow_pos_nonneg; lia).
  rewrite Z.rem_mul_r by lia. rewrite <-(IH _ (v / 256) (store_byte _ _ (v mod 256) _)).
  generalize (v / 256 mod 256 ^ Z.of_nat n). intros q.
  replace ((v mod 256 + 256 * q) / 256) with q by lia.
  by replace ((v mod 256 + 256 * q) mod 256) with (v mod 256) by lia.
Qed.

Lemma mem_write_eq n addr v :
  in32 addr → in32 v → n = 1%nat ∨ n = 2%nat ∨ n = 4%nat →
  mem_write cbs addr (Z.of_nat n) v s = Some (false, put_arch (astore n addr v a) s).
Proof using Hs.
  intros Ha Hv Hn. unfold mem_write, get_cpu, mgets, mbind, M_bind.
  rewrite (rdy_mis _ Hs). simpl. pose proof (rdy_size _ Hs) as Hz.
  destruct (_ =? 0) eqn:Hal.
  - apply Z.eqb_eq in Hal.
    destruct Hn as [->|[->| ->]]; cbn [Z.of_nat Z.eqb Pos.eqb Pos.of_succ_nat Pos.succ] in *;
      unfold bus_wr; simpl.
    + rewrite mem_w8_store by done. change 255 with (Z.ones 8). rewrite Z.land_ones by lia.
      rewrite (store_le_trunc 1). by destruct s as [[] []].
    + change 65535 with (Z.ones 16). rewrite Z.land_ones by lia.
      assert (addr mod 2 = 0) by (rewrite <-Hal; symmetry; apply (Z.land_ones addr 1); lia).
      rewrite mem_w16_eq by done. unfold put_arch, astore. cbn [ax af amem asize arch_of].
      rewrite <-(store_le_trunc 2). cbn [store_le put]. unfold store_byte.
      rewrite <-u32_wrap, add_1_2 by (done || lia). change (256 ^ Z.of_nat 2) with (2 ^ 16).
      rewrite Z.shiftr_div_pow2 by lia. change (2 ^ 8) with 256. unfold u8.
      destruct (Z.ltb_spec (addr + 1) (mem_size (bus s))), (Z.ltb_spec addr (mem_size (bus s)));
        try lia; by destruct s as [[] []].
    + assert (addr mod 4 = 0) by (rewrite <-Hal; symmetry; apply (Z.land_ones addr 2); lia).
      rewrite mem_w32_eq by done. unfold put_arch, astore. cbn [ax af amem asize arch_of store_le put].
      destruct (aligned_wraps addr Ha Hal) as (-> & -> & ->).
      rewrite !Z.shiftr_div_pow2 by lia. rewrite !Z.div_div by lia. unfold store_byte.
      replace (addr + 1 + 1) with (addr + 2) by lia. replace (addr + 2 + 1) with (addr + 3) by lia.
      destruct (Z.ltb_spec (addr + 3) (mem_size (bus s))), (Z.ltb_spec (addr + 2) (mem_size (bus s))),
        (Z.ltb_spec (addr + 1) (mem_size (bus s))), (Z.ltb_spec addr (mem_size (bus s)));
        try lia; by destruct s as [[] []].
  - rewrite Nat2Z.id. replace s with (mk_sys (cpu s) (bus s)) at 1 by by destruct s.
    rewrite write_bytes_eq by lia. rewrite Z.add_0_r, Z.div_1_r.
    rewrite <-u32_wrap, u32_small by done. by destruct s as [[] []].
Qed.

(** ** Instructions *)

(** The operands of [exec] and the fields of the word it is given. *)
Lemma exec_fields op rd f3 rs1 rs2 f7 next r (w := word op rd f3 rs1 rs2 f7) :
  fields op rd f3 rs1 rs2 f7 →
  (let a1 := xget a rs1 in let b1 := xget a rs2 in
   (if op =? OP_LUI then wr_x rd (u32 (imm_u w));; fin next
    else if op =? OP_AUIPC then
      c ← get_cpu; wr_x rd (u32 (c.(pc) + u32 (imm_u w)));; fin next
    else if op =? OP_JAL then
      c ← get_cpu; let val := u32 (c.(pc) + u32 (imm_j w)) in wr_x rd next;; fin val
    else if op =? OP_JALR then
      if negb (f3 =? 0) then illegal_ret w next
      else let val := u32 (a1 + u32 (imm_i w)) .& not32 1 in wr_x rd next;; fin val
    else if op =? OP_BRANCH then exec_branch w next f3 a1 b1
    else if op =? OP_LOAD then exec_load cbs w next rd f3 a1
    else if op =? OP_STORE then exec_store cbs w next f3 a1 b1
    else if op =? OP_IMM then exec_imm w next rd f3 f7 a1
    else if op =? OP_REG then exec_reg w next rd f3 f7 a1 b1
    else if op =? OP_AMO then exec_amo cbs w next rd rs2 f3 a1 b1
    else if op =? OP_MISC_MEM then
      (if negb (f3 =? 0) && negb (f3 =? 1) then illegal w else mret tt);; fin next
    else if op =? OP_LOAD_FP then exec_load_fp cbs w next rd f3 a1
    else if op =? OP_STORE_FP then exec_store_fp cbs w next rs2 f3 a1
    else ub) s) = Some r → exec cbs w next s = Some r.
Proof using Hs.
  intros Hf H. unfold exec. unfold w in *. rewrite word_op, word_rd, word_f3, word_rs1, word_rs2, word_f7 by done.
  rewrite (bind_run _ _ _ _ _ (rd_x_eq rs1 ltac:(apply Hf))).
  rewrite (bind_run _ _ _ _ _ (rd_x_eq rs2 ltac:(apply Hf))).
  cbv zeta in *. rewrite <-H. repeat case_match; done.
Qed.

Lemma exec_reg_eq insn next op rd x1 x2 :
  0 <= rd < 32 → in32 x1 → in32 x2 →
  exec_reg insn next rd (rop_fields op).1 (rop_fields op).2 x1 x2 s =
    Some (next, put_arch (xset rd (rop_ref op x1 x2) a) s).
Proof using Hs.
  intros Hrd H1 H2. pose proof (reg_value_ref insn op x1 x2 H1 H2) as E.
  unfold reg_value in E. unfold exec_reg. destruct (_ =? 1).
  { injection E as ->. by apply wr_fin_eq. }
  destruct (base_reg _ _ _ _) eqn:Eb.
  { injection E as ->. by apply wr_fin_eq. }
  unfold zb_reg, get_cpu, mgets, mbind, M_bind. rewrite (rdy_zb _ Hs), E. by apply wr_fin_eq.
Qed.

Lemma exec_imm_eq insn next rd f3 f7 x1 v :
  0 <= rd < 32 → imm_value insn f3 f7 x1 (imm_i insn) = Some v →
  exec_imm insn next rd f3 f7 x1 s = Some (next, put_arch (xset rd v a) s).
Proof using Hs.
  intros Hrd E. unfold imm_value in E. unfold exec_imm. destruct (base_imm _ _ _ _) eqn:Eb.
  { injection E as ->. by apply wr_fin_eq. }
  unfold zb_imm, get_cpu, mgets, mbind, M_bind. rewrite (rdy_zb _ Hs), E. by apply wr_fin_eq.
Qed.

Lemma load_then_eq n addr next k :
  in32 addr → n = 1%nat ∨ n = 2%nat ∨ n = 4%nat →
  load_then cbs addr (Z.of_nat n) next k s = k (aload n a addr) s.
Proof using Hs. intros. unfold load_then. by rewrite (bind_run _ _ _ _ _ (mem_read_eq n addr ltac:(done) ltac:(done))). Qed.
End Exec.

Lemma put_arch_twice a1 a2 s : put_arch a2 (put_arch a1 s) = put_arch a2 s.
Proof. by destruct s as [[] []]. Qed.

Lemma rdy_store s n addr v : Ready s → Ready (put_arch (astore n addr v (arch_of s)) s).
Proof.
  intros [HI ? ? ?]. split; [|done..]. destruct HI as [Hw Hb H0 Ht].
  constructor; [by destruct s as [[] []]| |done..].
  destruct Hb as [[Hsz Hm] He]. split; [|done]. split; [done|]. simpl. clear -Hm.
  generalize (mem_size (bus s)). intros size. revert addr v Hm. generalize (mem (bus s)).
  induction n as [|n IH]; intros m addr v Hm; cbn [store_le]; [done|]. apply IH.
  unfold store_byte. case_match; [|done]. apply map_Forall_insert_2; [apply (u8_in v)|done].
Qed.

(** Each field an encoding of [i] has is in range. *)
Ltac bounds :=
  repeat match goal with
  | H : _ && _ = true |- _ => apply andb_prop in H as [? ?]
  | H : is_reg _ = true |- _ => unfold is_reg in H
  | H : is_imm ?w ?z = true |- _ =>
      let l := eval vm_compute in (Z.shiftl 1 (w - 1)) in
      change (is_imm w z) with ((- l <=? z) && (z <? l)) in H
  end.
Ltac in_fields := bounds; constructor; first [lia | plia].

Section Refine.
Context (s : sys machine) (Hs : Ready s) (len : Z).
Abbreviation a := (arch_of s).
Abbreviation cbs := machine_callbacks.
Let next := wrap (a.(apc) + len).

(** [exec] of an encoding leaves the registers and the memory [isa_exec]
    gives and returns its program counter. *)
Definition runs (i : instr) : Prop :=
  exec cbs (encode i) next s = Some ((isa_exec len i a).(apc), put_arch (isa_exec len i a) s).

Ltac dispatch :=
  cbv zeta; cbv [OP_LUI OP_AUIPC OP_JAL OP_JALR OP_BRANCH OP_LOAD OP_STORE OP_IMM OP_REG OP_AMO
    OP_MISC_MEM OP_LOAD_FP OP_STORE_FP]; cbn [Z.eqb Pos.eqb negb andb].
Ltac enter :=
  intros Hv; cbn [valid] in Hv; unfold runs; cbn [encode isa_exec apc goto];
  eapply exec_fields; [done|in_fields|dispatch].
Ltac reg := bounds; lia.

Lemma run_lui rd imm : valid (LUI rd imm) = true → runs (LUI rd imm).
Proof using Hs.
  enter. fold (word_u 0x37 rd imm).
  rewrite imm_u_word by (try in_fields; bounds; lia). by rewrite wr_fin_eq by (done || reg).
Qed.

Lemma run_auipc rd imm : valid (AUIPC rd imm) = true → runs (AUIPC rd imm).
Proof using Hs.
  enter. fold (word_u 0x17 rd imm). unfold get_cpu, mgets. rewrite (bind_run _ _ _ _ _ eq_refl).
  rewrite imm_u_word by (try in_fields; bounds; lia). by rewrite wr_fin_eq by (done || reg).
Qed.

Lemma run_jal rd off : valid (JAL rd off) = true → runs (JAL rd off).
Proof using Hs.
  enter. fold (word_j 0x6f rd off). unfold get_cpu, mgets. rewrite (bind_run _ _ _ _ _ eq_refl).
  rewrite imm_j_word by (try in_fields; bounds; lia). rewrite wr_fin_eq by (done || reg).
  by rewrite u32_add_r.
Qed.

Lemma run_jalr rd rs1 off : valid (JALR rd rs1 off) = true → runs (JALR rd rs1 off).
Proof using Hs.
  enter. fold (word_i 0x67 rd 0 rs1 off).
  rewrite imm_i_word by (try in_fields; bounds; lia). rewrite wr_fin_eq by (done || reg).
  rewrite u32_add_r. change 1 with (1 << 0) at 1. rewrite bclr_ref; [done|apply u32_in|lia].
Qed.

Lemma run_branch op rs1 rs2 off : valid (BRANCH op rs1 rs2 off) = true → runs (BRANCH op rs1 rs2 off).
Proof using Hs.
  intros Hv. assert (0 <= bop_f3 op < 8) by (by destruct op). revert Hv. enter.
  fold (word_b 0x63 (bop_f3 op) rs1 rs2 off). unfold exec_branch.
  rewrite branch_ref by (apply xget_in; [done|reg]).
  unfold get_cpu, mgets. rewrite (bind_run _ _ _ _ _ eq_refl).
  rewrite imm_b_word by (try in_fields; bounds; lia). rewrite fin_eq by done.
  rewrite u32_add_r. f_equal. f_equal. symmetry. apply put_arch_same.
Qed.

Lemma run_opi op rd rs1 imm : valid (OPI op rd rs1 imm) = true → runs (OPI op rd rs1 imm).
Proof using Hs.
  intros Hv. assert (0 <= iop_f3 op < 8) by (by destruct op). revert Hv. enter.
  fold (word_i 0x13 rd (iop_f3 op) rs1 imm).
  erewrite exec_imm_eq; [done|done|reg|]. unfold imm_value.
  rewrite imm_i_word by (try in_fields; bounds; lia).
  rewrite base_imm_ref by (apply xget_in; [done|reg]). done.
Qed.

Lemma run_shi op rd rs1 sh : valid (SHI op rd rs1 sh) = true → runs (SHI op rd rs1 sh).
Proof using Hs.
  intros Hv. assert (0 <= (shop_fields op).1 < 8 ∧ 0 <= (shop_fields op).2 < 128) by (by destruct op).
  revert Hv. enter. erewrite exec_imm_eq; [done|done|reg|].
  apply imm_value_shift; [apply xget_in; [done|reg]|reg| |apply word_rs2; in_fields].
  unfold imm_i. rewrite word_s32 by in_fields.
  change 31 with (Z.ones 5). rewrite Z.land_ones, Z.shiftr_div_pow2 by lia. unfold u32, word.
  bounds. case_match; plia.
Qed.

Lemma run_opr op rd rs1 rs2 : valid (OPR op rd rs1 rs2) = true → runs (OPR op rd rs1 rs2).
Proof using Hs.
  intros Hv. assert (0 <= (rop_fields op).1 < 8 ∧ 0 <= (rop_fields op).2 < 128) by (by destruct op).
  revert Hv. enter. by rewrite exec_reg_eq by first [done | reg | apply xget_in; [done|reg]].
Qed.

Lemma run_opu op rd rs1 : valid (OPU op rd rs1) = true → runs (OPU op rd rs1).
Proof using Hs.
  intros Hv. destruct (decide (op = ZEXTH)) as [->|Hne].
  - revert Hv. enter. unfold exec_reg, zb_reg, get_cpu, mgets. cbn [Z.eqb Pos.eqb].
    unfold base_reg. cbn [Z.eqb Pos.eqb negb andb]. rewrite (bind_run _ _ _ _ _ eq_refl).
    rewrite (rdy_zb _ Hs). unfold bitmanip_reg. cbn [Z.eqb Pos.eqb andb].
    rewrite word_rs2 by in_fields. cbn [Z.eqb]. rewrite land_ffff.
    by rewrite (wr_fin_eq _ Hs _ _ next) by reg.
  - assert ((uop_fields op).1.1.1 = 0x13 ∧ 0 <= (uop_fields op).1.1.2 < 8 ∧
            0 <= (uop_fields op).1.2 < 32 ∧ 0 <= (uop_fields op).2 < 128) as (E1 & ? & ? & ?)
      by (by destruct op).
    unfold runs. cbn [encode isa_exec apc goto valid] in *.
    destruct (uop_fields op) as [[[o f3] sh] f7] eqn:Eu. simpl in *. subst o.
    eapply exec_fields; [done|in_fields|dispatch].
    erewrite exec_imm_eq; [done|done|reg|].
    pose proof (imm_value_unary (word 0x13 rd f3 rs1 sh f7) op (xget a rs1)
      (imm_i (word 0x13 rd f3 rs1 sh f7))) as E.
    rewrite Eu in E. apply E; [apply xget_in; [done|reg]|done|]. apply (word_rs2 _ _ _ _ sh).
    in_fields.
Qed.

(** Effective address of a load or store. *)
Lemma eff_addr rs1 off : u32 (xget a rs1 + u32 off) = wrap (xget a rs1 + off).
Proof using. by rewrite u32_add_r. Qed.

Lemma aload_bound n addr : 0 <= aload n a addr < 256 ^ Z.of_nat n.
Proof using Hs. apply load_le_range. by apply rdy_machine. Qed.

Lemma run_load op rd rs1 off : valid (LOAD op rd rs1 off) = true → runs (LOAD op rd rs1 off).
Proof using Hs.
  intros Hv. assert (0 <= lop_f3 op < 8) by (by destruct op). revert Hv. enter.
  fold (word_i 0x03 rd (lop_f3 op) rs1 off). unfold exec_load.
  rewrite imm_i_word by (try in_fields; bounds; lia). rewrite eff_addr.
  set (addr := wrap _). assert (in32 addr) by apply u32_in.
  pose proof (aload_bound 1 addr). pose proof (aload_bound 2 addr).
  destruct (sext_ref (aload 1 a addr)) as [E8 _]. destruct (sext_ref (aload 2 a addr)) as [_ E16].
  rewrite Z.mod_small in E8, E16 by done.
  destruct op; cbn [lop_f3 Z.eqb Pos.eqb lop_ref].
  - rewrite (load_then_eq _ Hs 1) by tauto. by rewrite E8, wr_fin_eq by (done || reg).
  - rewrite (load_then_eq _ Hs 2) by tauto. by rewrite E16, wr_fin_eq by (done || reg).
  - rewrite (load_then_eq _ Hs 4) by tauto. by rewrite wr_fin_eq by (done || reg).
  - rewrite (load_then_eq _ Hs 1) by tauto. change 255 with (Z.ones 8).
    rewrite Z.land_ones, Z.mod_small by done. by rewrite wr_fin_eq by (done || reg).
  - rewrite (load_then_eq _ Hs 2) by tauto. change 65535 with (Z.ones 16).
    rewrite Z.land_ones, Z.mod_small by done. by rewrite wr_fin_eq by (done || reg).
Qed.

Lemma run_store op rs2 rs1 off : valid (STORE op rs2 rs1 off) = true → runs (STORE op rs2 rs1 off).
Proof using Hs.
  intros Hv. assert (0 <= sop_f3 op < 8) by (by destruct op). revert Hv. enter.
  fold (word_s 0x23 (sop_f3 op) rs1 rs2 off). unfold exec_store.
  rewrite imm_s_word by (try in_fields; bounds; lia). rewrite eff_addr.
  set (addr := wrap _). assert (in32 addr) as Ha by apply u32_in.
  assert (in32 (xget a rs2)) as Hx by (apply xget_in; [done|reg]).
  destruct op; cbn [sop_f3 Z.eqb Pos.eqb sop_bytes];
    [ rewrite (bind_run _ _ _ _ _ (mem_write_eq _ Hs 1 _ _ Ha Hx ltac:(tauto)))
    | rewrite (bind_run _ _ _ _ _ (mem_write_eq _ Hs 2 _ _ Ha Hx ltac:(tauto)))
    | rewrite (bind_run _ _ _ _ _ (mem_write_eq _ Hs 4 _ _ Ha Hx ltac:(tauto))) ];
    (rewrite fin_eq; [done|by apply rdy_store]).
Qed.

Lemma run_flw rd rs1 off : valid (FLW rd rs1 off) = true → runs (FLW rd rs1 off).
Proof using Hs.
  enter. fold (word_i 0x07 rd 2 rs1 off). unfold exec_load_fp. cbn [Z.eqb Pos.eqb negb].
  rewrite imm_i_word by (try in_fields; bounds; lia). rewrite eff_addr.
  rewrite (load_then_eq _ Hs 4) by (try apply u32_in; tauto). by rewrite wr_f_fin_eq by (done || reg).
Qed.

Lemma run_fsw rs2 rs1 off : valid (FSW rs2 rs1 off) = true → runs (FSW rs2 rs1 off).
Proof using Hs.
  enter. fold (word_s 0x27 2 rs1 rs2 off). unfold exec_store_fp. cbn [Z.eqb Pos.eqb negb].
  rewrite imm_s_word by (try in_fields; bounds; lia). rewrite eff_addr.
  rewrite (bind_run _ _ _ _ _ (rd_f_eq _ Hs rs2 ltac:(reg))).
  assert (in32 (fget a rs2)) as Hx by (apply reg_value_at; [apply (rdy_wf _ Hs)..|reg]).
  rewrite (bind_run _ _ _ _ _ (mem_write_eq _ Hs 4 _ _ (u32_in _) Hx ltac:(tauto))).
  rewrite fin_eq; [done|by apply rdy_store].
Qed.

Lemma run_fence : runs FENCE.
Proof using Hs.
  unfold runs. cbn [encode isa_exec apc goto]. eapply exec_fields; [done|in_fields|dispatch].
  rewrite (bind_run _ _ _ _ _ eq_refl). rewrite fin_eq by done.
  f_equal. f_equal. symmetry. apply put_arch_same.
Qed.

Lemma exec_runs i : valid i = true → runs i.
Proof using Hs.
  destruct i; auto using run_lui, run_auipc, run_jal, run_jalr, run_branch, run_load, run_store,
    run_opi, run_shi, run_opu, run_opr, run_flw, run_fsw, run_fence.
Qed.
End Refine.

(** ** A step *)

(** The machine after an instruction that leaves the architectural state [a]. *)
Definition commit (a : arch) (s : sys machine) : sys machine :=
  let c := with_pc a.(apc) (with_f a.(af) (with_x a.(ax) (with_in_trap false s.(cpu)))) in
  let c := with_cycles (u64 (c.(cycles) + 1)) c in
  let c := with_mcycle (u64 (c.(mcycle) + 1)) c in
  let c := with_minstret (u64 (c.(minstret) + 1)) c in
  mk_sys c (with_mem a.(amem) s.(bus)).

(** A machine that runs a program: not halted, no interrupt to take. *)
Record Running (s : sys machine) : Prop := {
  run_inv : Inv machine_inv true false s;
  run_alive : s.(cpu).(halted) = false;
  run_irq : rv_irq_pending s.(cpu) = 0;
  run_zb : s.(cpu).(bitmanip) = true;
  run_zcb : s.(cpu).(zcb) = true;
  run_mis : s.(cpu).(trap_misaligned) = false;
  run_size : s.(bus).(mem_size) mod 4 = 0
}.

(** One step of the reference: the word or half-word at the program counter
    encodes the instruction. *)
Inductive isa_step (a : arch) : arch → Prop :=
  | step_word i :
      Z.even a.(apc) = true → valid i = true → aload 4 a a.(apc) = encode i →
      isa_step a (isa_exec 4 i a)
  | step_half i :
      Z.even a.(apc) = true →
      rvc_decode (aload 2 a a.(apc)) = Some i ∨ zcb_decode (aload 2 a a.(apc)) = Some i →
      isa_step a (isa_exec 2 i a).

Lemma aload_4_2 a addr : aload 4 a addr = aload 2 a addr + 65536 * aload 2 a (wrap (addr + 2)).
Proof.
  unfold aload. cbn [load_le].
  replace (wrap (wrap (addr + 1) + 1)) with (wrap (addr + 2))
    by (rewrite <-!u32_wrap, u32_add_l; f_equal; lia).
  lia.
Qed.

Lemma even_land p : Z.even p = true → p .& 1 = 0.
Proof.
  intros H. change 1 with (Z.ones 1). rewrite Z.land_ones by lia. change (2 ^ 1) with 2.
  rewrite Zmod_even, H. done.
Qed.

Section Step.
Context (s : sys machine) (Hs : Running s).
Abbreviation a := (arch_of s).
Abbreviation cbs := machine_callbacks.
Let s1 := mk_sys (with_in_trap false s.(cpu)) s.(bus).

Lemma step_ready : Ready s1.
Proof using Hs.
  destruct Hs as [[] ? ? ? ? ? ?]. split; simpl; [|done..].
  constructor; simpl; auto with word.
Qed.

Lemma step_enters : rv_step cbs s = step_fetch cbs s1.
Proof using Hs.
  unfold rv_step, get_cpu, mgets, on_cpu, mmod. rewrite (bind_run _ _ _ _ _ eq_refl).
  rewrite (run_alive _ Hs). rewrite (bind_run _ _ _ _ _ eq_refl).
  rewrite (bind_run _ _ _ _ _ eq_refl). cbn [cpu].
  assert (rv_irq_pending (with_in_trap false (cpu s)) = 0) as -> by (apply (run_irq _ Hs)).
  by destruct (nz (_ .& _)).
Qed.

Lemma fetch_half p :
  in32 p → p .& 1 = 0 → bus_rd (read16 cbs) p s1 = Some (aload 2 a p, s1).
Proof using Hs. intros Hp Hal. unfold bus_rd. simpl. by rewrite (mem_r16_load _ step_ready) by done. Qed.

Lemma half_mask p : aload 2 a p .& 0xffff = aload 2 a p.
Proof using Hs.
  change 0xffff with (Z.ones 16). rewrite Z.land_ones by lia. apply Z.mod_small.
  apply (aload_bound _ step_ready 2).
Qed.

Lemma retire_eq a' : retire a'.(apc) (put_arch a' s1) = Some (0, commit a' s).
Proof using Hs.
  unfold retire, step_result, get_cpu, mgets, on_cpu, mmod, mbind, M_bind. simpl.
  by rewrite (run_alive _ Hs).
Qed.

Lemma fetched (Hpc : Z.even a.(apc) = true) :
  step_fetch cbs s1 =
    (if negb ((aload 2 a a.(apc) .& 3) =? 3) then step_compressed cbs (aload 2 a a.(apc))
     else step_full cbs (aload 2 a a.(apc))) s1.
Proof using Hs.
  apply even_land in Hpc. pose proof (wf_pc _ (rdy_wf _ step_ready)) as Hp.
  unfold step_fetch, get_cpu, mgets, probe_rejects. rewrite (bind_run _ _ _ _ _ eq_refl).
  assert (pc (cpu s1) .& 1 = 0) as -> by exact Hpc. cbn [nz Z.eqb negb].
  rewrite (bind_run _ _ _ _ _ eq_refl). cbn [probe machine_callbacks rv_set_ecall rv_init_callbacks].
  rewrite (bind_run _ _ _ _ _ (fetch_half _ Hp Hpc)). cbv zeta.
  by rewrite (half_mask (pc (cpu s1))).
Qed.

(** The encodings of [instr] are those of 32-bit instructions. *)
Lemma encode_low i : valid i = true → encode i mod 4 = 3 ∧ in32 (encode i).
Proof using.
  intros Hv. destruct i; cbn [valid encode] in *; bounds;
    unfold word_i, word_s, word_b, word_u, word_j;
    try match goal with |- context [shop_fields ?op] => destruct op; cbn [shop_fields fst snd] end;
    try match goal with |- context [uop_fields ?op] => destruct op; cbn [uop_fields fst snd] end;
    try match goal with |- context [rop_fields ?op] => destruct op; cbn [rop_fields fst snd] end;
    try match goal with |- context [bop_f3 ?op] => destruct op; cbn [bop_f3] end;
    try match goal with |- context [lop_f3 ?op] => destruct op; cbn [lop_f3] end;
    try match goal with |- context [sop_f3 ?op] => destruct op; cbn [sop_f3] end;
    try match goal with |- context [iop_f3 ?op] => destruct op; cbn [iop_f3] end;
    (split; [unfold word; lia|apply word_in; constructor; lia]).
Qed.

Lemma half_low p : aload 2 a p .& 3 = aload 2 a p mod 4.
Proof using. change 3 with (Z.ones 2). by rewrite Z.land_ones. Qed.

Lemma half_in p : in16 (aload 2 a p).
Proof using Hs. apply (aload_bound _ step_ready 2). Qed.

Lemma step_word_eq i :
  Z.even a.(apc) = true → valid i = true → aload 4 a a.(apc) = encode i →
  rv_step cbs s = Some (0, commit (isa_exec 4 i a) s).
Proof using Hs.
  intros Hpc Hv Hw. destruct (encode_low i Hv) as [Hlow Hin].
  rewrite step_enters, fetched by done. rewrite aload_4_2 in Hw.
  assert (aload 2 a a.(apc) mod 4 = 3) as Hm by (rewrite <-Hw in Hlow; lia).
  rewrite half_low, Hm. cbn [Z.eqb Pos.eqb negb].
  unfold step_full, get_cpu, mgets, probe_rejects. rewrite (bind_run _ _ _ _ _ eq_refl).
  rewrite (bind_run _ _ _ _ _ eq_refl). cbn [probe machine_callbacks rv_set_ecall rv_init_callbacks].
  assert (u32 (pc (cpu s1) + 2) .& 1 = 0) as Hal.
  { apply land_2_add; [apply (rdy_wf _ step_ready)|by apply even_land]. }
  rewrite (bind_run _ _ _ _ _ (fetch_half _ (u32_in _) Hal)). cbv zeta. rewrite half_mask.
  assert (aload 2 a (apc a) .| (aload 2 a (u32 (pc (cpu s1) + 2)) << 16) = encode i) as ->.
  { rewrite <-Hw, Z.shiftl_mul_pow2 by lia. rewrite (lor_add_l _ _ 16);
      [|lia|apply half_in|apply Z.mod_mul; lia].
    change (u32 (pc (cpu s1) + 2)) with (wrap (apc a + 2)). change (2 ^ 16) with 65536. lia. }
  rewrite (bind_run _ _ _ _ _ (exec_runs s1 step_ready 4 i Hv)). apply retire_eq.
Qed.

(** The tables decide which of the three compressed decoders is used. *)
Lemma half_decodes c i :
  in16 c → rvc_decode c = Some i ∨ zcb_decode c = Some i →
  valid i = true ∧ is_zcmp c = false ∧ c mod 4 ≠ 3 ∧
  (let insn := rv_expand_c c in if insn =? 0 then rv_expand_zcb c else insn) = encode i.
Proof using.
  intros Hc Hd. pose proof (rvc_check_ok c Hc) as H. unfold rvc_check in H. cbv zeta in *.
  apply andb_prop in H as [H Hn]. apply andb_prop in H as [H Vz]. apply andb_prop in H as [H Vc].
  apply andb_prop in H as [Ec Ez]. apply Z.eqb_eq in Ec, Ez. apply Z.leb_le in Hn.
  assert (valid i = true) as Hv by (destruct Hd as [E|E]; rewrite E in *; done).
  destruct (encode_low i Hv) as [Hl [Hp _]]. assert ((encode i =? 0) = false) as H0.
  { apply Z.eqb_neq. intros E. rewrite E in Hl. done. }
  assert (c mod 4 ≠ 3) as Hc3.
  { intros E3. assert (bits c 1 0 = 3) as Eb by (unfold bits; rewrite field_eq by lia; change (2 ^ 0) with 1;
      change (2 ^ (1 - 0 + 1)) with 4; by rewrite Z.div_1_r).
    unfold rvc_decode, zcb_decode in Hd. rewrite Eb in Hd. by destruct Hd. }
  destruct (Z.eqb_spec c c_ebreak) as [->|Hne].
  { by destruct Hd. }
  destruct Hd as [E|E].
  - rewrite E in Ec. simpl in Ec. rewrite Ec in *. rewrite H0 in *.
    split_and!; try done. destruct (is_zcmp c); [|done]. unfold count3 in Hn.
    destruct (negb (rv_expand_zcb c =? 0)); simpl in Hn; lia.
  - rewrite E in Ez. simpl in Ez. rewrite Ez in *. rewrite H0 in Hn.
    unfold count3 in Hn. destruct (rv_expand_c c =? 0), (is_zcmp c); simpl in Hn; try lia.
    by split_and!.
Qed.

Lemma step_half_eq i :
  Z.even a.(apc) = true →
  rvc_decode (aload 2 a a.(apc)) = Some i ∨ zcb_decode (aload 2 a a.(apc)) = Some i →
  rv_step cbs s = Some (0, commit (isa_exec 2 i a) s).
Proof using Hs.
  intros Hpc Hd. destruct (half_decodes _ i (half_in _) Hd) as (Hv & Hz & Hm & He).
  rewrite step_enters, fetched by done. rewrite half_low.
  destruct (Z.eqb_spec (aload 2 a a.(apc) mod 4) 3) as [|_]; [done|]. cbn [negb].
  unfold step_compressed, get_cpu, mgets. rewrite (bind_run _ _ _ _ _ eq_refl). cbv zeta in *.
  rewrite Hz, andb_false_r. assert (zcb (cpu s1) = true) as -> by apply (run_zcb _ Hs).
  rewrite andb_true_r, He. destruct (encode_low i Hv) as [Hl _].
  destruct (Z.eqb_spec (encode i) 0) as [E|_]; [by rewrite E in Hl|].
  rewrite (bind_run _ _ _ _ _ (exec_runs s1 step_ready 2 i Hv)). apply retire_eq.
Qed.
End Step.

(** ** Runs *)

Lemma isa_exec_size len i a : (isa_exec len i a).(asize) = a.(asize).
Proof.
  assert (∀ r v, asize (xset r v a) = asize a) by (intros; unfold xset; by case_match).
  destruct i; simpl; auto.
Qed.

Lemma arch_of_commit a s : a.(asize) = s.(bus).(mem_size) → arch_of (commit a s) = a.
Proof. intros H. unfold arch_of. simpl. rewrite <-H. by destruct a. Qed.

Lemma isa_step_sim s a' :
  Running s → isa_step (arch_of s) a' →
  rv_step machine_callbacks s = Some (0, commit a' s) ∧ arch_of (commit a' s) = a' ∧
  Running (commit a' s).
Proof.
  intros Hs Hstep.
  assert (rv_step machine_callbacks s = Some (0, commit a' s) ∧ asize a' = mem_size (bus s)) as [E Hz].
  { destruct Hstep as [i|i]; rewrite isa_exec_size;
      (split; [|done]); [by apply step_word_eq|by apply step_half_eq]. }
  split_and!; [done|by apply arch_of_commit|].
  pose proof (rv_step_ok _ _ s (run_inv _ Hs)) as Hok. unfold wp in Hok. rewrite E in Hok.
  destruct Hok as [_ HI]. by destruct Hs.
Qed.

Lemma isa_run_sim n s a' i :
  Running s → nsteps isa_step n (arch_of s) a' →
  ∃ s', rv_run_loop machine_callbacks n i s = Some (i + Z.of_nat n, s') ∧
    arch_of s' = a' ∧ Running s'.
Proof.
  intros Hs Hn. remember (arch_of s) as a eqn:Ea. revert s i Hs Ea.
  induction Hn as [a|n a a1 a2 Hst _ IH]; intros s i Hs ->.
  { exists s. simpl. by rewrite Z.add_0_r. }
  destruct (isa_step_sim s a1 Hs Hst) as (E & Ea & Hr).
  destruct (IH _ (i + 1) Hr (eq_sym Ea)) as (s' & E' & ? & ?).
  exists s'. split; [|done]. simpl. rewrite (bind_run _ _ _ _ _ E). simpl.
  rewrite E'. do 2 f_equal. lia.
Qed.
