(* ===== verification/Rv32Theorems.v ===== *)
(** * Theorems on the RV32 emulator

    What the library proves of the interpreter and of the flat machine, with
    a concrete instance of every theorem that has hypotheses. *)

From stdpp Require Import gmap.
From S2P Require Import Prelude HostFloat Rv32State Rv32Decode Rv32Bits Rv32Float Rv32Exec Rv32FloatProps.
From S2P Require Import Rv32Safe Rv32Machine Rv32Isa Rv32Arith Rv32Word Rv32Rvc Rv32Refine.

(** ** A concrete machine *)

(** The machine of [machine_init] after [rv_reset] at address 0x1000, with the
    program [li x5, 7; mul x5, x5, x5; c.addi x5, 1] in memory. *)
Definition demo : sys machine :=
  let mem := store_le 4 MACHINE_MEM_SIZE 0x1000 (encode (OPI ADDI 5 0 7)) ∅ in
  let mem := store_le 4 MACHINE_MEM_SIZE 0x1004 (encode (OPR MUL 5 5 5)) mem in
  let mem := store_le 2 MACHINE_MEM_SIZE 0x1008 0x0285 mem in
  mk_sys (rv_reset 0x1000 rv_init_cpu) (with_mem mem machine_init.(bus)).

Lemma wf_zeros c p : c = rv_reset p rv_init_cpu → in32 p → wf_cpu c.
Proof.
  intros -> Hp. constructor; simpl; try done; try (repeat constructor; done).
Qed.

Lemma demo_inv : Inv machine_inv true false demo.
Proof.
  constructor; [by eapply wf_zeros| |done..]. split; [|done]. split; [done|].
  apply map_Forall_to_list. vm_compute. repeat constructor; congruence.
Qed.

Lemma demo_running : Running demo.
Proof. constructor; [apply demo_inv|done..]. Qed.

(** ** Refinement *)

(** C1: a run of the interpreter on the flat machine is a run of the reference
    semantics: when [n] instructions of RV32IMC with Zba, Zbb, Zbs, Zcb and
    the word loads and stores of F are at the successive program counters,
    [rv_run] executes all [n], reports [n], and leaves exactly the registers,
    program counter and memory of the reference. *)
Theorem rv_run_refines_isa n s a' :
  Running s → nsteps isa_step n (arch_of s) a' →
  ∃ s', rv_run machine_callbacks (Z.of_nat n) s = Some (Z.of_nat n, s') ∧
    arch_of s' = a' ∧ Running s'.
Proof.
  intros Hs Hn. unfold rv_run. rewrite Nat2Z.id.
  by destruct (isa_run_sim n s a' 0 Hs Hn) as (s' & E & ? & ?); exists s'.
Qed.

Definition demo_end : arch :=
  isa_exec 2 (OPI ADDI 5 5 1) (isa_exec 4 (OPR MUL 5 5 5) (isa_exec 4 (OPI ADDI 5 0 7) (arch_of demo))).

Lemma rv_run_refines_isa_witness :
  xget demo_end 5 = 50 ∧ apc demo_end = 0x100a ∧
  ∃ s', rv_run machine_callbacks (Z.of_nat 3) demo = Some (Z.of_nat 3, s') ∧
    arch_of s' = demo_end ∧ Running s'.
Proof.
  split_and!; [by vm_compute..|]. apply rv_run_refines_isa; [apply demo_running|].
  eapply nsteps_l; [eapply step_word with (i := OPI ADDI 5 0 7); by vm_compute|].
  eapply nsteps_l; [eapply step_word with (i := OPR MUL 5 5 5); by vm_compute|].
  eapply nsteps_l; [eapply step_half with (i := OPI ADDI 5 5 1); [by vm_compute|left; by vm_compute]|].
  apply nsteps_O.
Defined.

(** ** Safety *)



(** C3: the flat machine stops only because its program asked for it: after
    any run, a halted processor means the guest called exit. A double fault,
    the only other cause of [halted], never occurs. *)
Theorem machine_halts_by_exit count s :
  Inv machine_inv true false s → 0 <= count →
  ∃ r s', rv_run machine_callbacks count s = Some (r, s') ∧
    (s'.(cpu).(halted) = true → s'.(bus).(exited) = true).
Proof.
  intros HI Hc. pose proof (rv_run_loop_ok machine_callbacks machine_inv (Z.to_nat count) 0 s HI) as H.
  apply wp_run in H as (r & s' & E & H & _). exists r, s'. split; [done|]. apply H.
Qed.

Lemma machine_halts_by_exit_witness :
  ∃ r s', rv_run machine_callbacks 100 demo = Some (r, s') ∧
    (s'.(cpu).(halted) = true → s'.(bus).(exited) = true).
Proof. apply machine_halts_by_exit; [apply demo_inv|lia]. Defined.

(** ** Compressed instructions *)

(** C4: on each of the 65,536 half-words the expanders give what the tables
    of the manual say: the 32-bit encoding of the instruction of the C or Zcb
    extension, [ebreak] for [c.ebreak], and 0 for every reserved or
    unsupported encoding; and at most one of C, Zcb and Zcmp claims it, so the
    order in which [rv_step] asks them does not matter. *)
Theorem rv_expand_matches_tables c :
  in16 c →
  rv_expand_c c = (if c =? c_ebreak then ebreak else word_of (rvc_decode c)) ∧
  rv_expand_zcb c = word_of (zcb_decode c) ∧
  count3 (negb (rv_expand_c c =? 0)) (negb (rv_expand_zcb c =? 0)) (is_zcmp c) <= 1.
Proof.
  intros Hc. pose proof (rvc_check_ok c Hc) as H. unfold rvc_check in H.
  apply andb_prop in H as [H Hn]. apply andb_prop in H as [H _]. apply andb_prop in H as [H _].
  apply andb_prop in H as [Ec Ez]. apply Z.eqb_eq in Ec, Ez. by apply Z.leb_le in Hn.
Qed.

Lemma rv_expand_matches_tables_witness :
  rv_expand_c 0x0285 = encode (OPI ADDI 5 5 1) ∧
  (rv_expand_c 0x0285 = (if 0x0285 =? c_ebreak then ebreak else word_of (rvc_decode 0x0285)) ∧
   rv_expand_zcb 0x0285 = word_of (zcb_decode 0x0285) ∧
   count3 (negb (rv_expand_c 0x0285 =? 0)) (negb (rv_expand_zcb 0x0285 =? 0)) (is_zcmp 0x0285) <= 1).
Proof. split; [by vm_compute|]. apply rv_expand_matches_tables. by vm_compute. Defined.

(** ** Bit manipulation *)

(** C5: the loops and shifts of the bit-manipulation helpers compute the
    mathematical functions: leading zeros by the logarithm, trailing zeros by
    the lowest set bit, the population count as the sum of the bits, byte
    reversal, byte-wise OR-combine, and the rotations as a product and a
    quotient by a power of two. *)
Theorem bit_helpers_correct v n :
  in32 v → 0 <= n < 32 →
  clz32 v = uop_ref CLZ v ∧ ctz32 v = uop_ref CTZ v ∧ cpop32 v = uop_ref CPOP v ∧
  rev8_32 v = uop_ref REV8 v ∧ orcb32 v = uop_ref ORCB v ∧
  rotr32 v n = ror_ref v n ∧ rotl32 v n = rol_ref v n.
Proof.
  intros. split_and!; auto using clz32_ref, ctz32_ref, cpop32_ref, rev8_32_ref, orcb32_ref,
    rotr32_ref, rotl32_ref.
Qed.

Lemma bit_helpers_correct_witness :
  clz32 0x00f01200 = 8 ∧
  (clz32 0x00f01200 = uop_ref CLZ 0x00f01200 ∧ ctz32 0x00f01200 = uop_ref CTZ 0x00f01200 ∧
   cpop32 0x00f01200 = uop_ref CPOP 0x00f01200 ∧ rev8_32 0x00f01200 = uop_ref REV8 0x00f01200 ∧
   orcb32 0x00f01200 = uop_ref ORCB 0x00f01200 ∧ rotr32 0x00f01200 4 = ror_ref 0x00f01200 4 ∧
   rotl32 0x00f01200 4 = rol_ref 0x00f01200 4).
Proof. split; [by vm_compute|]. apply bit_helpers_correct; by vm_compute. Defined.

(** ** Traps and interrupts *)

Lemma land_bit z k : 0 <= k → nz (z .& (1 << k)) = Z.testbit z k.
Proof.
  intros Hk. rewrite land_shifted by done. rewrite bext_ref by done. unfold nz.
  destruct (Z.testbit z k); simpl; [|by rewrite Z.shiftl_0_l].
  rewrite Z.shiftl_1_l. destruct (Z.eqb_spec (2 ^ k) 0); [|done].
  pose proof (Z.pow_pos_nonneg 2 k). lia.
Qed.

Lemma not32_bit k n : 0 <= n → 0 <= k < 32 →
  Z.testbit (not32 (1 << k)) n = negb (n =? k) && (n <? 32).
Proof.
  intros Hn Hk. rewrite not32_testbit by (try apply one_shl_in; lia). f_equal. f_equal.
  rewrite Z.shiftl_1_l. destruct (Z.eqb_spec n k) as [->|]; [by rewrite Z.pow2_bits_true by lia|].
  by rewrite Z.pow2_bits_false by lia.
Qed.

(** The bits of [mstatus] after a trap: MIE moves to MPIE, MPP is 3. *)
Definition trap_mstatus (m : Z) (n : Z) : bool :=
  if n =? 3 then false else if n =? 7 then Z.testbit m 3
  else if (n =? 11) || (n =? 12) then true else Z.testbit m n.

Lemma mpp_bits n : 0 <= n → Z.testbit RV_MSTATUS_MPP n = (n =? 11) || (n =? 12).
Proof.
  intros Hn. change RV_MSTATUS_MPP with (2 ^ 11 .| 2 ^ 12).
  rewrite Z.lor_spec, !Z.pow2_bits_eqb, !(Z.eqb_sym n) by lia. done.
Qed.

(** A bit of a word with one bit cleared, below bit 32. *)
Lemma clear_bit m k n : 0 <= n < 32 → 0 <= k < 32 →
  Z.testbit (m .& not32 (1 << k)) n = Z.testbit m n && negb (n =? k).
Proof.
  intros. rewrite Z.land_spec, not32_bit by lia.
  by rewrite (proj2 (Z.ltb_lt n 32)), andb_true_r by lia.
Qed.

Lemma set_bit m k n : 0 <= n → 0 <= k → Z.testbit (m .| (1 << k)) n = Z.testbit m n || (n =? k).
Proof.
  intros Hn Hk. rewrite Z.lor_spec, Z.shiftl_1_l, Z.pow2_bits_eqb by lia. f_equal. apply Z.eqb_sym.
Qed.

Lemma trap_mstatus_ok cause tval c n :
  in_trap c = false → 0 <= n < 32 →
  Z.testbit (rv_trap cause tval c).(mstatus) n = trap_mstatus c.(mstatus) n.
Proof.
  intros Ht Hn. unfold rv_trap. rewrite Ht. simpl.
  set (m := mstatus c). unfold RV_MSTATUS_MPIE, RV_MSTATUS_MIE, trap_mstatus.
  assert (nz ((m .& not32 (1 << 7)) .& (1 << 3)) = Z.testbit m 3) as E.
  { rewrite land_bit by lia. rewrite clear_bit by lia. apply andb_true_r. }
  rewrite <-E. destruct (nz _); simpl;
    rewrite Z.lor_spec, mpp_bits, clear_bit, ?set_bit, clear_bit by lia;
    (destruct (Z.eqb_spec n 3) as [E3|]; [subst n; simpl; btauto|]);
    (destruct (Z.eqb_spec n 7) as [E7|]; [subst n; simpl; btauto|]);
    destruct ((n =? 11) || (n =? 12)); simpl; btauto.
Qed.

(** The handler address, in the arithmetic of the manual. *)
Definition handler (tvec cause : Z) : Z :=
  if (tvec mod 4 =? 1) && (2 ^ 31 <=? cause)
  then wrap (tvec - 1 + 4 * (cause - 2 ^ 31)) else tvec - tvec mod 4.

Lemma handler_eq tvec cause :
  in32 tvec → in32 cause →
  (if ((tvec .& 3) =? 1) && nz (cause .& RV_CAUSE_INTERRUPT)
   then u32 ((tvec .& not32 3) + u32 ((cause .& not32 RV_CAUSE_INTERRUPT) * 4))
   else tvec .& not32 3) = handler tvec cause.
Proof.
  intros Ht Hc. unfold handler, RV_CAUSE_INTERRUPT. rewrite top_bit by done.
  assert (tvec .& 3 = tvec mod 4) as -> by (apply (Z.land_ones tvec 2); lia).
  assert (tvec .& not32 3 = tvec - tvec mod 4) as ->.
  { rewrite andn_ref by (try done; unfold inw; lia). change 3 with (Z.ones 2).
    rewrite Z.ldiff_ones_r, Z.shiftl_mul_pow2, Z.shiftr_div_pow2 by lia. change (2 ^ 2) with 4.
    rewrite Z.mod_eq by lia. lia. }
  destruct (Z.eqb_spec (tvec mod 4) 1) as [->|]; simpl; [|done].
  destruct (Z.leb_spec (2 ^ 31) cause) as [Hi|]; [|done].
  assert (cause .& not32 0x80000000 = cause - 2 ^ 31) as ->.
  { rewrite andn_ref by (try done; unfold inw; lia).
    rewrite Z.sub_nocarry_ldiff; [done|]. apply Z.bits_inj'. intros n Hn.
    rewrite Z.ldiff_spec, Z.bits_0, Z.pow2_bits_eqb by lia.
    destruct (Z.eqb_spec 31 n) as [<-|]; [|done]. cbn [andb].
    rewrite <-land_bit by lia. change (1 << 31) with 0x80000000. rewrite top_bit by done.
    by rewrite (proj2 (Z.leb_le _ _) Hi). }
  rewrite u32_add_r. f_equal. lia.
Qed.

Lemma rv_trap_fields cause tval c :
  in_trap c = false →
  let c' := rv_trap cause tval c in
  c'.(mepc) = c.(pc) ∧ c'.(mcause) = cause ∧ c'.(mtval) = tval ∧
  c'.(pc) = (if ((c.(mtvec) .& 3) =? 1) && nz (cause .& RV_CAUSE_INTERRUPT)
             then u32 ((c.(mtvec) .& not32 3) + u32 ((cause .& not32 RV_CAUSE_INTERRUPT) * 4))
             else c.(mtvec) .& not32 3) ∧
  c'.(res_valid) = false ∧ c'.(waiting) = false ∧ c'.(in_trap) = true ∧
  c'.(halted) = c.(halted) ∧ c'.(x) = c.(x) ∧ c'.(f) = c.(f) ∧ c'.(fcsr) = c.(fcsr).
Proof. intros Ht. cbv zeta. unfold rv_trap. rewrite Ht. simpl. by destruct (nz (mstatus c .& _ .& _)). Qed.

(** C6: entry to a trap handler is precise and complete: the program counter,
    cause and value are saved, the interrupt enable moves from MIE to MPIE and
    the privilege stack is set, every other status bit is kept, the handler
    address is the base of [mtvec] plus four times the code for a vectored
    interrupt and the base alone for every exception, the reservation and the
    wait state are dropped, and no register changes. *)
Theorem rv_trap_entry cause tval c :
  wf_cpu c → in_trap c = false → in32 cause →
  let c' := rv_trap cause tval c in
  c'.(mepc) = c.(pc) ∧ c'.(mcause) = cause ∧ c'.(mtval) = tval ∧
  (∀ n, 0 <= n < 32 → Z.testbit c'.(mstatus) n = trap_mstatus c.(mstatus) n) ∧
  c'.(pc) = handler c.(mtvec) cause ∧
  c'.(res_valid) = false ∧ c'.(waiting) = false ∧ c'.(in_trap) = true ∧
  c'.(halted) = c.(halted) ∧ c'.(x) = c.(x) ∧ c'.(f) = c.(f) ∧ c'.(fcsr) = c.(fcsr).
Proof.
  intros Hw Ht Hc. cbv zeta.
  destruct (rv_trap_fields cause tval c Ht) as (? & ? & ? & E4 & ? & ? & ? & ? & ? & ? & ?).
  split_and!; try done; [intros; by apply trap_mstatus_ok|].
  rewrite E4. apply handler_eq; [apply Hw|done].
Qed.

Lemma rv_trap_entry_witness :
  let c := with_mtvec 0x2001 (with_mstatus 8 (cpu demo)) in
  let c' := rv_trap (2 ^ 31 + 7) 0 c in
  c'.(mepc) = c.(pc) ∧ c'.(mcause) = 2 ^ 31 + 7 ∧ c'.(mtval) = 0 ∧
  (∀ n, 0 <= n < 32 → Z.testbit c'.(mstatus) n = trap_mstatus c.(mstatus) n) ∧
  c'.(pc) = handler c.(mtvec) (2 ^ 31 + 7) ∧
  c'.(res_valid) = false ∧ c'.(waiting) = false ∧ c'.(in_trap) = true ∧
  c'.(halted) = c.(halted) ∧ c'.(x) = c.(x) ∧ c'.(f) = c.(f) ∧ c'.(fcsr) = c.(fcsr).
Proof.
  apply rv_trap_entry; [|done|by vm_compute].
  apply wf_with_mtvec; [by vm_compute|]. apply wf_with_mstatus; [by vm_compute|]. apply demo_inv.
Defined.

Lemma mret_insn_fields c :
  (∀ n, 0 <= n < 32 → Z.testbit (mret_insn c).(mstatus) n =
     if n =? 3 then Z.testbit c.(mstatus) 7 else Z.testbit c.(mstatus) n || (n =? 7)) ∧
  (mret_insn c).(mepc) = c.(mepc) ∧ (mret_insn c).(x) = c.(x) ∧ (mret_insn c).(f) = c.(f).
Proof.
  unfold mret_insn, RV_MSTATUS_MIE, RV_MSTATUS_MPIE. cbn [mstatus with_mstatus].
  assert ((((mstatus c .| (1 << 3)) .& (1 << 7)) =? 0) = negb (Z.testbit (mstatus c) 7)) as ->.
  { rewrite <-(negb_involutive (_ =? 0)). f_equal.
    etransitivity; [apply (land_bit _ 7); lia|]. rewrite set_bit by lia. apply orb_false_r. }
  split; [|by destruct (Z.testbit (mstatus c) 7)].
  intros n Hn. destruct (Z.testbit (mstatus c) 7) eqn:E7; cbn [negb mstatus with_mstatus];
    rewrite set_bit, ?clear_bit, set_bit by lia;
    destruct (Z.eqb_spec n 3) as [->|]; cbn [negb Z.eqb Pos.eqb];
    rewrite ?orb_false_r, ?orb_true_r, ?andb_true_r, ?andb_false_r; done.
Qed.

Lemma rd_x_run {B} (s : sys B) i v : s.(cpu).(x) !! Z.to_nat i = Some v → rd_x i s = Some (v, s).
Proof. intros E. unfold rd_x. by rewrite E. Qed.

(** C7: [mret] undoes trap entry: executed in the handler's first state, it
    returns to the address the trap interrupted, with the interrupt enable it
    had there and the registers unchanged. *)
Theorem trap_mret_roundtrip {B} (cb : rv_callbacks B) (b : B) cause tval c next :
  wf_cpu c → in_trap c = false →
  ∃ c', exec cb 0x30200073 next (mk_sys (with_in_trap false (rv_trap cause tval c)) b) =
          Some (c.(pc), mk_sys c' b) ∧
    Z.testbit c'.(mstatus) 3 = Z.testbit c.(mstatus) 3 ∧ c'.(x) = c.(x) ∧ c'.(f) = c.(f).
Proof.
  intros Hw Ht. destruct (rv_trap_fields cause tval c Ht) as (Ee & _ & _ & _ & _ & _ & _ & _ & Ex & Ef & _).
  set (c1 := with_in_trap false (rv_trap cause tval c)).
  destruct (mret_insn_fields c1) as (Hm & He & Hx & Hf).
  exists (mret_insn c1). split; [|split_and!].
  - unfold exec. change (RS1 0x30200073) with 0. change (RS2 0x30200073) with 2.
    destruct (reg_lookup (c1.(x)) 0) as (v0 & E0 & _); [simpl; rewrite Ex; apply Hw..|lia|].
    destruct (reg_lookup (c1.(x)) 2) as (v2 & E2 & _); [simpl; rewrite Ex; apply Hw..|lia|].
    rewrite (bind_run _ _ _ _ _ (rd_x_run (mk_sys c1 b) 0 v0 E0)).
    rewrite (bind_run _ _ _ _ _ (rd_x_run (mk_sys c1 b) 2 v2 E2)).
    assert (mepc (mret_insn c1) = pc c) as E by (by rewrite He; simpl; rewrite Ee).
    rewrite <-E. reflexivity.
  - rewrite Hm by lia. cbn [Z.eqb Pos.eqb]. apply (trap_mstatus_ok cause tval c 7); [done|lia].
  - by rewrite Hx.
  - by rewrite Hf.
Qed.

Lemma trap_mret_roundtrip_witness :
  ∃ c', exec machine_callbacks 0x30200073 4
          (mk_sys (with_in_trap false (rv_trap RV_CAUSE_BREAKPOINT 0 (cpu demo))) (bus demo)) =
          Some (0x1000, mk_sys c' (bus demo)) ∧
    Z.testbit c'.(mstatus) 3 = Z.testbit (cpu demo).(mstatus) 3 ∧ c'.(x) = (cpu demo).(x) ∧
    c'.(f) = (cpu demo).(f).
Proof. apply (trap_mret_roundtrip _ (bus demo) _ _ (cpu demo)); [apply demo_inv|done]. Defined.

(** The interrupt a processor takes next, by priority: external, software,
    timer. *)
Definition irq_ref (c : rv_cpu) : option Z :=
  if Z.testbit c.(mstatus) 3
  then snd <$> list_find (λ k, Z.testbit c.(mip) k && Z.testbit c.(mie) k = true) [11; 3; 7]
  else None.

Lemma irq_pending_ref c :
  rv_irq_pending c = match irq_ref c with Some k => 2 ^ 31 + k | None => 0 end.
Proof.
  unfold rv_irq_pending, irq_ref, RV_MSTATUS_MIE.
  assert (((mstatus c .& (1 << 3)) =? 0) = negb (Z.testbit (mstatus c) 3)) as ->.
  { rewrite <-(negb_involutive (_ =? 0)). f_equal. by apply (land_bit _ 3). }
  change RV_MIP_MEIP with (1 << 11). change RV_MIP_MSIP with (1 << 3).
  change RV_MIP_MTIP with (1 << 7). rewrite !land_bit, !Z.land_spec by lia.
  destruct (Z.testbit (mstatus c) 3); [|done]. cbn [negb list_find].
  destruct (Z.testbit (mip c) 11 && Z.testbit (mie c) 11) eqn:E11; [by rewrite decide_True by done|].
  rewrite decide_False by done.
  destruct (Z.testbit (mip c) 3 && Z.testbit (mie c) 3) eqn:E3; [by rewrite decide_True by done|].
  rewrite decide_False by done.
  destruct (Z.testbit (mip c) 7 && Z.testbit (mie c) 7) eqn:E7; [by rewrite decide_True by done|].
  by rewrite decide_False by done.
Qed.

(** C8: interrupts are taken between instructions, gated by the global enable
    and by the per-source enables, external before software before timer: a
    step of a running machine with one to take enters its trap and executes
    nothing; with none to take it fetches and executes one instruction. *)
Theorem rv_step_interrupts {B} (cb : rv_callbacks B) s :
  halted s.(cpu) = false →
  rv_step cb s =
    match irq_ref s.(cpu) with
    | Some k => Some (0, mk_sys (rv_trap (2 ^ 31 + k) 0 (with_in_trap false s.(cpu))) s.(bus))
    | None => step_fetch cb (mk_sys (with_in_trap false s.(cpu)) s.(bus))
    end.
Proof.
  intros Hh. unfold rv_step, get_cpu, mgets, on_cpu, mmod, mbind, M_bind. simpl. rewrite Hh.
  set (c := with_in_trap false s.(cpu)).
  assert (irq_ref s.(cpu) = irq_ref c) as -> by done.
  assert ((if nz (mip (cpu s) .& mie (cpu s)) then rv_irq_pending c else 0) = rv_irq_pending c) as ->.
  { unfold nz. destruct (Z.eqb_spec (mip (cpu s) .& mie (cpu s)) 0) as [E|]; [|done]. simpl.
    unfold rv_irq_pending. simpl. rewrite E. by destruct (_ =? 0). }
  rewrite irq_pending_ref. destruct (irq_ref c) as [k|] eqn:Ek; [|done].
  assert (k = 11 ∨ k = 3 ∨ k = 7) as Hk.
  { unfold irq_ref in Ek. destruct (Z.testbit _ 3); [|done].
    apply fmap_Some in Ek as ([i v] & Hl & ->). apply list_find_Some in Hl as (Hl & _).
    apply list_elem_of_lookup_2 in Hl. set_solver. }
  assert (nz (2 ^ 31 + k) = true) as -> by (destruct Hk as [->|[->| ->]]; done).
  unfold step_result, get_cpu, mgets, mbind, M_bind, mret, M_ret. cbn [cpu bus].
  destruct (rv_trap_first (2 ^ 31 + k) 0 c eq_refl) as (-> & _).
  change (halted c) with (halted (cpu s)). by rewrite Hh.
Qed.

Lemma rv_step_interrupts_witness :
  let c := with_mip 0x888 (with_mie 0x880 (with_mstatus 8 (cpu demo))) in
  rv_step machine_callbacks (mk_sys c (bus demo)) =
    Some (0, mk_sys (rv_trap (2 ^ 31 + 11) 0 (with_in_trap false c)) (bus demo)).
Proof.
  assert (∀ c (b : machine), halted c = false → irq_ref c = Some 11 →
    rv_step machine_callbacks (mk_sys c b) =
      Some (0, mk_sys (rv_trap (2 ^ 31 + 11) 0 (with_in_trap false c)) b)) as H.
  { intros c b Hh E. rewrite (rv_step_interrupts machine_callbacks (mk_sys c b) Hh).
    cbn [cpu bus]. by rewrite E. }
  apply H; by vm_compute.
Defined.

(** ** Control and status registers *)

(** What a CSR write stores: the bits of [fflags], [frm] and [fcsr] that
    exist, an even [mepc], and the half of a 64-bit counter. *)
Definition csr_mask (csr : Z) : Z :=
  if csr =? RV_CSR_FFLAGS then 0x1f else if csr =? RV_CSR_FRM then 7
  else if csr =? RV_CSR_FCSR then 0xff else if csr =? RV_CSR_MEPC then 0xfffffffe
  else 0xffffffff.

Lemma land_full v : in32 v → v .& 0xffffffff = v.
Proof. intros. change 0xffffffff with (Z.ones 32). rewrite Z.land_ones by lia. by apply Z.mod_small. Qed.

Lemma fcsr_flags fc v : in8 fc → ((fc .& not32 0x1f) .| (v .& 0x1f)) .& 0x1f = v .& 0x1f.
Proof.
  intros Hf. rewrite Z.land_lor_distr_l, <-!Z.land_assoc.
  change (not32 0x1f .& 0x1f) with 0. change (0x1f .& 0x1f) with 0x1f. by rewrite Z.land_0_r.
Qed.

Lemma fcsr_frm fc v :
  in8 fc → ((((fc .& not32 0xe0) .| ((v .& 7) << 5)) >> 5) .& 7) = v .& 7.
Proof.
  intros Hf. rewrite Z.shiftr_lor, Z.shiftr_shiftl_l, Z.land_lor_distr_l by lia.
  rewrite Z.shiftr_land, <-Z.land_assoc. change ((not32 0xe0 >> 5) .& 7) with 0.
  rewrite Z.land_0_r, Z.lor_0_l, Z.shiftl_0_r, <-Z.land_assoc. done.
Qed.

Lemma counter_lo k v : in32 v → u32 ((k .& 0xffffffff00000000) .| v) = v.
Proof.
  intros Hv. change (u32 ?z) with (z mod 2 ^ 32). rewrite <-Z.land_ones by lia.
  rewrite Z.land_lor_distr_l, <-Z.land_assoc. change (0xffffffff00000000 .& Z.ones 32) with 0.
  rewrite Z.land_0_r, Z.lor_0_l. by apply land_full.
Qed.

Lemma counter_hi k v : in32 v → u32 (((k .& 0xffffffff) .| (v << 32)) >> 32) = v.
Proof.
  intros Hv. rewrite Z.shiftr_lor, Z.shiftr_shiftl_l, Z.shiftr_land by lia.
  change (0xffffffff >> 32) with 0. rewrite Z.land_0_r, Z.lor_0_l, Z.shiftl_0_r. by apply u32_small.
Qed.



(** ** Memory *)

Lemma load_store_byte size m addr a' v :
  load_byte (store_byte size addr v m) size a' =
    if (addr =? a') && (addr <? size) then v else load_byte m size a'.
Proof.
  unfold load_byte, store_byte. destruct (Z.ltb_spec addr size), (Z.eqb_spec addr a') as [->|]; simpl;
    try done.
  - rewrite (proj2 (Z.ltb_lt _ _)) by done. by rewrite lookup_insert_eq.
  - by rewrite lookup_insert_ne by done.
Qed.

Lemma load_store_le n size m addr v :
  0 <= addr → addr + Z.of_nat n <= size → size <= 2 ^ 32 →
  load_le n (store_le n size addr v m) size addr = v mod 256 ^ Z.of_nat n ∧
  ∀ a', a' < addr ∨ addr + Z.of_nat n <= a' →
    load_byte (store_le n size addr v m) size a' = load_byte m size a'.
Proof.
  revert addr v m. induction n as [|n IH]; intros addr v m Ha Hn Hz.
  { split; [by rewrite Z.mod_1_r|done]. }
  cbn [store_le load_le]. rewrite Nat2Z.inj_succ, Z.pow_succ_r by lia.
  destruct n as [|n].
  { cbn [store_le load_le]. split.
    - rewrite load_store_byte, Z.eqb_refl, (proj2 (Z.ltb_lt _ _)) by lia. simpl.
      rewrite Z.add_0_r. done.
    - intros a' Ha'. rewrite load_store_byte. destruct (Z.eqb_spec addr a'); [lia|done]. }
  assert (wrap (addr + 1) = addr + 1) as -> by (apply u32_small; unfold inw; lia).
  set (m1 := store_byte size addr (v mod 256) m).
  destruct (IH (addr + 1) (v / 256) m1) as [IH1 IH2]; [lia..|]. split.
  - rewrite IH1, IH2 by lia. unfold m1.
    rewrite load_store_byte, Z.eqb_refl, (proj2 (Z.ltb_lt _ _)) by lia. simpl.
    rewrite Z.rem_mul_r by lia. done.
  - intros a' Ha'. rewrite IH2 by lia. unfold m1. rewrite load_store_byte.
    destruct (Z.eqb_spec addr a'); [lia|done].
Qed.

(** Memory round trip: a store of 1, 2 or 4 bytes inside the memory, at
    any alignment, is read back by a load of the same width as the low bytes
    of the stored value, and changes no byte outside the range. *)
Theorem store_load_roundtrip s n addr v :
  Ready s → in32 v → n = 1%nat ∨ n = 2%nat ∨ n = 4%nat →
  0 <= addr → addr + Z.of_nat n <= s.(bus).(mem_size) →
  ∃ s', mem_write machine_callbacks addr (Z.of_nat n) v s = Some (false, s') ∧
    mem_read machine_callbacks addr (Z.of_nat n) s' = Some (Some (v mod 256 ^ Z.of_nat n), s') ∧
    ∀ a', a' < addr ∨ addr + Z.of_nat n <= a' →
      load_byte s'.(bus).(mem) s.(bus).(mem_size) a' = load_byte s.(bus).(mem) s.(bus).(mem_size) a'.
Proof.
  intros Hs Hv Hn Ha Hr. pose proof (wfm_size _ (rdy_machine _ Hs)) as [_ Hz].
  assert (in32 addr) by (unfold inw; lia).
  destruct (load_store_le n s.(bus).(mem_size) s.(bus).(mem) addr v) as [H1 H2]; [lia..|].
  eexists. split; [by apply mem_write_eq|]. split; [|exact H2].
  rewrite mem_read_eq by (done || by apply rdy_store). unfold aload. simpl. by rewrite H1.
Qed.

Lemma demo_ready : Ready demo.
Proof.
  split; [|done..]. destruct demo_inv. by constructor.
Qed.

Lemma store_load_roundtrip_witness :
  ∃ s', mem_write machine_callbacks 0x2001 (Z.of_nat 4) 0xdeadbeef demo = Some (false, s') ∧
    mem_read machine_callbacks 0x2001 (Z.of_nat 4) s' =
      Some (Some (0xdeadbeef mod 256 ^ Z.of_nat 4), s') ∧
    ∀ a', a' < 0x2001 ∨ 0x2001 + Z.of_nat 4 <= a' →
      load_byte s'.(bus).(mem) demo.(bus).(mem_size) a' =
      load_byte demo.(bus).(mem) demo.(bus).(mem_size) a'.
Proof.
  apply store_load_roundtrip; [apply demo_ready|by vm_compute|by right; right|lia|by vm_compute].
Defined.

(** ** Atomics *)

Definition with_res (addr : Z) (v : bool) (s : sys machine) : sys machine :=
  mk_sys (with_res_valid v (with_res_addr addr s.(cpu))) s.(bus).

Definition lr_w (rd rs1 : Z) : Z := word 0x2f rd 2 rs1 0 0x08.
Definition sc_w (rd rs2 rs1 : Z) : Z := word 0x2f rd 2 rs1 rs2 0x0c.

Lemma funct5 op rd f3 rs1 rs2 f7 :
  fields op rd f3 rs1 rs2 f7 → (word op rd f3 rs1 rs2 f7 >> 27) .& 0x1f = f7 / 4.
Proof.
  intros [? ? ? ? ? ?]. change 0x1f with (Z.ones 5). rewrite field_eq by lia. unfold word.
  change (2 ^ 27) with (33554432 * 4). rewrite <-Z.div_div by lia.
  replace ((op + rd * 128 + f3 * 4096 + rs1 * 32768 + rs2 * 1048576 + f7 * 33554432) / 33554432) with f7
    by (apply Z.div_unique with (op + rd * 128 + f3 * 4096 + rs1 * 32768 + rs2 * 1048576); lia).
  apply Z.mod_small. split; [apply Z.div_pos; lia|]. apply Z.div_lt_upper_bound; lia.
Qed.

Lemma with_res_put addr v a s : put_arch a (with_res addr v s) = with_res addr v (put_arch a s).
Proof. done. Qed.

Lemma rdy_res s addr v : in32 addr → Ready s → Ready (with_res addr v s).
Proof.
  intros Ha [[Hw Hb H0 Ht] ? ? ?]. split; [|done..]. constructor; simpl; auto with word.
Qed.

Lemma wr_res_fin s r v next :
  Ready s → 0 <= r < 32 →
  (wr_x r v;; on_cpu (with_res_valid false);; fin next) s =
    Some (next, with_res s.(cpu).(res_addr) false (put_arch (xset r v (arch_of s)) s)).
Proof.
  intros Hs Hr. pose proof (wr_fin_eq s Hs r v next Hr) as E.
  unfold fin, wr_x, on_cpu, mmod, mbind, M_bind in *.
  destruct (x (cpu s) !! Z.to_nat r); [|done]. simpl in *.
  destruct (<[Z.to_nat r := v]> (x (cpu s)) !! Z.to_nat 0); [|done].
  apply (f_equal (fmap (λ p, (p.1, with_res s.(cpu).(res_addr) false p.2)))) in E. exact E.
Qed.

(** C11: load-reserved and store-conditional: [lr.w] loads the word and
    reserves its address; [sc.w] stores and returns 0 exactly when a
    reservation of that address is held, otherwise returns 1 and leaves the
    memory alone; either way the reservation is gone, so a second [sc.w]
    fails. *)
Theorem lr_sc_correct s rd rs1 rs2 next :
  Ready s → atomics s.(cpu) = true → 0 <= rd < 32 → 0 <= rs1 < 32 → 0 <= rs2 < 32 →
  let a := arch_of s in
  let addr := xget a rs1 in
  let held := res_valid s.(cpu) && (res_addr s.(cpu) =? addr) in
  addr mod 4 = 0 →
  exec machine_callbacks (lr_w rd rs1) next s =
    Some (next, with_res addr true (put_arch (xset rd (aload 4 a addr) a) s)) ∧
  exec machine_callbacks (sc_w rd rs2 rs1) next s =
    Some (next, with_res s.(cpu).(res_addr) false
      (put_arch (if held then xset rd 0 (astore 4 addr (xget a rs2) a) else xset rd 1 a) s)).
Proof.
  intros Hs Hat Hrd Hr1 Hr2 a addr held Hal.
  assert (in32 addr) as Ha by (by apply xget_in). assert (in32 (xget a rs2)) as Hb by (by apply xget_in).
  assert (addr .& 3 = 0) as Hal' by (rewrite <-Hal; apply (Z.land_ones addr 2); lia).
  assert (nz (addr .& 3) = false) as Hnz by (by rewrite Hal').
  split; (eapply exec_fields; [done|split; lia|]); cbv zeta;
    cbv [OP_LUI OP_AUIPC OP_JAL OP_JALR OP_BRANCH OP_LOAD OP_STORE OP_IMM OP_REG OP_AMO];
    cbn [Z.eqb Pos.eqb]; unfold exec_amo; fold a; fold addr; rewrite funct5 by (split; lia);
    unfold get_cpu, mgets; rewrite (bind_run _ _ _ _ _ eq_refl); rewrite Hat, Hnz;
    cbn [negb orb Z.eqb Pos.eqb Z.div Z.div_eucl].
  - change (8 / 4 =? 2) with true. cbn [negb]. rewrite (load_then_eq s Hs 4) by (done || tauto).
    unfold on_cpu, mmod. do 2 rewrite (bind_run _ _ _ _ _ eq_refl). cbn [cpu bus].
    rewrite (wr_fin_eq (with_res addr true s)); [done|by apply rdy_res|done].
  - change (12 / 4 =? 2) with false. change (12 / 4 =? 3) with true. cbn [negb].
    fold addr. fold held. destruct held.
    + rewrite (bind_run _ _ _ _ _ (mem_write_eq s Hs 4 addr _ Ha Hb ltac:(tauto))).
      rewrite wr_res_fin; [|by apply rdy_store|done]. done.
    + by rewrite wr_res_fin.
Qed.

Lemma lr_sc_correct_witness :
  let a := arch_of demo in
  exec machine_callbacks (lr_w 6 7) 8 demo =
    Some (8, with_res (xget a 7) true (put_arch (xset 6 (aload 4 a (xget a 7)) a) demo)) ∧
  exec machine_callbacks (sc_w 6 8 7) 8 demo =
    Some (8, with_res demo.(cpu).(res_addr) false
      (put_arch (if res_valid demo.(cpu) && (res_addr demo.(cpu) =? xget a 7)
                 then xset 6 0 (astore 4 (xget a 7) (xget a 8) a) else xset 6 1 a) demo)).
Proof. apply lr_sc_correct; [apply demo_ready|done|lia..|done]. Defined.

(** ** Floating point *)

(** Every arithmetic operation of the F extension, on every pair of bit
    patterns and in every rounding mode, is defined (no conversion of its
    double-precision evaluation leaves its range), yields a 32-bit pattern
    which is the canonical NaN if it is a NaN, and does to the processor
    nothing but accrue exception flags: none is ever cleared, and no bit
    outside the five flags changes. *)
Theorem fp_arith_total a b d rm m c :
  in32 a → in32 b → in32 d →
  m ∈ [fp_add a b rm; fp_mul a b rm; fp_div a b rm; fp_sqrt a rm; fp_fma a b d rm;
       fp_minmax a b false; fp_minmax a b true] →
  ∃ r k, m c = Some (r, with_fcsr (c.(fcsr) .| k) c) ∧ 0 <= k < 32 ∧ in32 r ∧
    (f32_is_nan r = true → r = F32_CANON_NAN).
Proof.
  intros Ha Hb Hd Hm.
  assert (accrues m res32) as H.
  { repeat (apply elem_of_cons in Hm as [->|Hm]);
      auto using fp_add_ok, fp_mul_ok, fp_div_ok, fp_sqrt_ok, fp_fma_ok, fp_minmax_ok.
    by apply elem_of_nil in Hm. }
  destruct (H c) as (r & k & E & Hk & ? & ?). by exists r, k.
Qed.

Lemma fp_arith_total_witness :
  ∃ r k, fp_add 0x3f800000 0x40000000 RV_RM_RNE (cpu demo) =
      Some (r, with_fcsr ((cpu demo).(fcsr) .| k) (cpu demo)) ∧ 0 <= k < 32 ∧ in32 r ∧
    (f32_is_nan r = true → r = F32_CANON_NAN).
Proof.
  apply (fp_arith_total 0x3f800000 0x40000000 0 RV_RM_RNE); [by vm_compute..|].
  apply elem_of_cons. by left.
Defined.



(** ** Classification *)

Lemma exp_man a :
  (((a >> 23) .& 0xff) =? 0xff) = ((a .& 0x7f800000) =? 0x7f800000) ∧
  (((a >> 23) .& 0xff) =? 0) = ((a .& 0x7f800000) =? 0).
Proof.
  change 0x7f800000 with (0xff << 23). rewrite land_shifted by lia.
  rewrite !Z.shiftl_mul_pow2 by lia. split; apply eq_bool_prop_intro;
    rewrite !Is_true_true, !Z.eqb_eq; lia.
Qed.

Lemma abs_split a :
  a .& 0x7fffffff = (a .& 0x7f800000) + (a .& 0x7fffff) ∧
  0 <= a .& 0x7fffff < 2 ^ 23 ∧ (a .& 0x7f800000) mod 2 ^ 23 = 0.
Proof.
  assert (0 <= a .& 0x7fffff < 2 ^ 23) as H by (apply (inw_land_r 23); by vm_compute).
  assert ((a .& 0x7f800000) mod 2 ^ 23 = 0) as H'.
  { change 0x7f800000 with (0xff << 23). rewrite land_shifted by lia. apply shl_mod. lia. }
  split; [|done]. change 0x7fffffff with (0x7f800000 .| 0x7fffff).
  rewrite Z.land_lor_distr_r. by apply (lor_add _ _ 23).
Qed.

Ltac class_leaf := split; [lia|]; split; [reflexivity|]; split_and!; intros; split; intros; first [done | lia].

(** [fclass.s] is one-hot and names the class of its operand: exactly one
    of its ten bits is set, and it is the signalling or quiet NaN bit, the
    infinity, zero, or subnormal/normal bit of the operand's sign exactly as
    the predicates the arithmetic uses classify the pattern. *)
Theorem fp_class_onehot a :
  ∃ k, 0 <= k < 10 ∧ fp_class a = 2 ^ k ∧
    (k = 8 ↔ f32_is_snan a = true) ∧
    (k = 8 ∨ k = 9 ↔ f32_is_nan a = true) ∧
    (k = 0 ∨ k = 7 ↔ f32_is_inf a = true) ∧
    (k = 3 ∨ k = 4 ↔ f32_is_zero a = true) ∧
    (k < 8 → (k < 4 ↔ f32_sign a = true)).
Proof.
  destruct (exp_man a) as [E1 E2]. destruct (abs_split a) as (Ea & Hm & He).
  unfold fp_class, f32_is_snan, f32_is_nan, f32_is_inf, f32_is_zero. rewrite E1, E2, Ea.
  assert (((a .& 0x7fffff) .& 0x400000) = a .& 0x400000) as -> by (by rewrite <-Z.land_assoc).
  clear E1 E2 Ea. revert Hm He. generalize (a .& 0x7f800000) as eb. generalize (a .& 0x7fffff) as man.
  intros man eb Hm He.
  change (2 ^ 23) with 8388608 in *. apply Z.mod_divide in He as [q He]; [|lia]. unfold nz.
  destruct (Z.eqb_spec eb 0x7f800000) as [Ee|]; [|destruct (Z.eqb_spec eb 0) as [Ee|]];
    destruct (Z.eqb_spec man 0) as [Em|]; cbn [andb negb];
    repeat match goal with |- context [?x + ?y =? ?z] => destruct (Z.eqb_spec (x + y) z); try lia end;
    destruct (f32_sign a), (a .& 0x400000 =? 0); cbn [negb andb].
  all: first [exists 0; class_leaf | exists 1; class_leaf | exists 2; class_leaf | exists 3; class_leaf
    | exists 4; class_leaf | exists 5; class_leaf | exists 6; class_leaf | exists 7; class_leaf
    | exists 8; class_leaf | exists 9; class_leaf].
Qed.

(** ** Runs *)

Lemma rv_run_loop_shift {B} (cb : rv_callbacks B) n i s :
  rv_run_loop cb n i s =
    match rv_run_loop cb n 0 s with Some (r, s') => Some (i + r, s') | None => None end.
Proof.
  revert i s. induction n as [|n IH]; intros i s; simpl.
  { by rewrite Z.add_0_r. }
  unfold mbind, M_bind. destruct (rv_step cb s) as [[r s']|]; [|done].
  destruct (r <? 0); simpl; [by rewrite Z.add_0_r|].
  rewrite (IH (i + 1)), (IH 1). destruct (rv_run_loop cb n 0 s') as [[r' s'']|]; [|done].
  do 2 f_equal. lia.
Qed.

(** A run can be cut anywhere: running [m + n] instructions is running
    [m], and then, unless the machine halted on the way, [n] more, with the
    reported counts added; a caller that polls between slices sees the same
    machine as one that does not. *)
Theorem rv_run_split {B} (cb : rv_callbacks B) m n s :
  0 <= m → 0 <= n →
  rv_run cb (m + n) s =
    match rv_run cb m s with
    | Some (r, s') =>
        if r <? m then Some (r, s')
        else match rv_run cb n s' with Some (r', s'') => Some (m + r', s'') | None => None end
    | None => None
    end.
Proof.
  intros Hm Hn. unfold rv_run. rewrite Z2Nat.inj_add by done.
  destruct (Z_of_nat_complete m Hm) as [k ->]. rewrite Nat2Z.id. clear Hm.
  revert s. induction k as [|k IH]; intros s; cbn [rv_run_loop Nat.add].
  { cbn. by destruct (rv_run_loop cb (Z.to_nat n) 0 s) as [[]|]. }
  unfold mbind, M_bind. destruct (rv_step cb s) as [[r s']|]; [|done]. destruct (r <? 0) eqn:Hr.
  { cbn [mret M_ret]. by rewrite (proj2 (Z.ltb_lt 0 _)) by lia. }
  rewrite (rv_run_loop_shift cb (k + _)), (rv_run_loop_shift cb k), IH.
  destruct (rv_run_loop cb k 0 s') as [[r1 s1]|]; [|done].
  destruct (Z.ltb_spec r1 (Z.of_nat k)), (Z.ltb_spec (0 + 1 + r1) (Z.of_nat (S k))); try lia; [done|].
  destruct (rv_run_loop cb (Z.to_nat n) 0 s1) as [[]|]; [|done]. do 2 f_equal. lia.
Qed.

Lemma rv_run_split_witness :
  rv_run machine_callbacks (1 + 2) demo =
    match rv_run machine_callbacks 1 demo with
    | Some (r, s') =>
        if r <? 1 then Some (r, s')
        else match rv_run machine_callbacks 2 s' with
             | Some (r', s'') => Some (1 + r', s'') | None => None end
    | None => None
    end.
Proof. apply (rv_run_split machine_callbacks 1 2 demo); lia. Defined.

(** ** The trace ring *)

Definition push_entry (t : rv_trace) (p : rv_trace_type * Z * Z * Z) : rv_trace :=
  let '(type, pc, insn, addr) := p in rv_trace_push t type pc insn addr None.
Definition entry_of (e : rv_trace_event) : rv_trace_type * Z * Z * Z :=
  (e.(ev_type), e.(ev_pc), e.(ev_insn), e.(ev_addr)).

Lemma trace_of_all l t l0 :
  trace_of t l0 → Z.of_nat (length l0 + length l) + 64 < 2 ^ 32 →
  ∃ l1, trace_of (foldl push_entry t l) (l0 ++ l1) ∧ map entry_of l1 = l.
Proof.
  revert t l0. induction l as [|[[[ty p] i] a] l IH]; intros t l0 Ht Hb; simpl in *.
  { exists []. by rewrite app_nil_r. }
  destruct (trace_of_push t l0 ty p i a None Ht) as (e & He & <- & <- & <- & <-); [lia|].
  destruct (IH _ _ He) as (l1 & H1 & <-); [rewrite length_app; simpl; lia|].
  exists (e :: l1). by rewrite <-app_assoc in H1.
Qed.

(** The diagnostic trace is the queue of the last 64 events: after any
    sequence of pushes it counts the smaller of their number and 64, its
    overflow flag says whether events were lost, and peeking at [i] gives the
    [i]-th oldest of those kept, and nothing beyond. *)
Theorem rv_trace_keeps_last l i :
  Z.of_nat (length l) + 64 < 2 ^ 32 → 0 <= i →
  let t := foldl push_entry rv_trace_init l in
  let kept := Nat.min (length l) 64 in
  rv_trace_count t = Z.of_nat kept ∧
  rv_trace_overflowed t = (64 <? Z.of_nat (length l)) ∧
  entry_of <$> rv_trace_peek t i =
    if i <? Z.of_nat kept then l !! (length l - kept + Z.to_nat i)%nat else None.
Proof.
  intros Hb Hi t kept.
  destruct (trace_of_all l rv_trace_init []) as (l1 & Ht & <-).
  { apply (trace_of_clear rv_trace_init). by vm_compute. }
  { simpl. lia. }
  unfold kept, t in *. clear t kept. rewrite length_map in *. simpl in Ht. split_and!.
  - by apply trace_of_count.
  - unfold rv_trace_overflowed. by destruct Ht as (_ & -> & _).
  - rewrite (trace_of_peek _ l1) by (done || lia). case_match; [|done]. by rewrite list_lookup_fmap.
Qed.

Lemma rv_trace_keeps_last_witness :
  let l := [(RV_TR_ECALL, 4, 0x73, 0); (RV_TR_TRAP, 8, 0, 1)] in
  let t := foldl push_entry rv_trace_init l in
  rv_trace_count t = Z.of_nat 2 ∧ rv_trace_overflowed t = (64 <? Z.of_nat (length l)) ∧
  entry_of <$> rv_trace_peek t 1 = if 1 <? Z.of_nat 2 then l !! (length l - 2 + Z.to_nat 1)%nat else None.
Proof. intros l. apply (rv_trace_keeps_last l 1); [by vm_compute|lia]. Defined.

(** ** System calls *)

(** C17: the system-call layer of the flat machine: [write] to stdout or
    stderr outputs exactly the bytes of the guest's buffer that lie inside the
    memory, in order, and returns the whole length; [exit] and [exit_group]
    halt with the guest's code as a signed integer; any other call returns
    -ENOSYS. The memory is never changed. *)
Theorem do_ecall_correct c m nr a0 a1 a2 :
  wf_cpu c → wf_machine m →
  c.(x) !! 17%nat = Some nr → c.(x) !! 10%nat = Some a0 → c.(x) !! 11%nat = Some a1 →
  c.(x) !! 12%nat = Some a2 →
  let m1 := with_syscalls (u64 (syscalls m + 1)) m in
  do_ecall c m =
    Some (0, if nr =? 64 then
               (set_a0 a2 c,
                if negb m.(quiet) && ((a0 =? 1) || (a0 =? 2)) then
                  with_out (m.(out) ++ map (λ k, (a0, byte_at m (a1 + k)))
                              (seqZ 0 (Z.min a2 (m.(mem_size) - a1)))) m1
                else m1)
             else if (nr =? 93) || (nr =? 94) then (rv_halt c, with_exit (sgn a0) m1)
             else (set_a0 (2 ^ 32 - 38) c, m1)).
Proof.
  intros Hc Hm E17 E10 E11 E12 m1. unfold do_ecall. rewrite E17, E10, E11, E12. simpl. fold m1.
  pose proof (Forall_lookup_1 _ _ _ _ (wf_x _ Hc) E10) as H0.
  pose proof (Forall_lookup_1 _ _ _ _ (wf_x _ Hc) E11) as H1.
  pose proof (Forall_lookup_1 _ _ _ _ (wf_x _ Hc) E12) as H2. cbv beta in *.
  unfold SYS_WRITE, SYS_EXIT, SYS_EXIT_GROUP.
  destruct (nr =? 64); [|destruct (_ || _); [by rewrite s32_sgn|done]].
  destruct (negb (quiet m) && _); [|done].
  rewrite write_loop_eq; [|done|done|apply Hm|lia|simpl; lia|apply u32_small; by rewrite Z.add_0_r].
  simpl. by rewrite Z.sub_0_r.
Qed.

Definition demo_hello : sys machine :=
  mk_sys (with_x (<[17%nat := 64]> (<[10%nat := 1]> (<[11%nat := 0x1000]> (<[12%nat := 2]> (cpu demo).(x)))))
            (cpu demo)) (bus demo).

Lemma do_ecall_correct_witness :
  let m1 := with_syscalls (u64 (syscalls (bus demo) + 1)) (bus demo) in
  do_ecall (cpu demo_hello) (bus demo) =
    Some (0, (set_a0 2 (cpu demo_hello),
      with_out ([] ++ map (λ k, (1, byte_at (bus demo) (0x1000 + k)))
                 (seqZ 0 (Z.min 2 (mem_size (bus demo) - 0x1000)))) m1)).
Proof.
  apply (do_ecall_correct (cpu demo_hello) (bus demo) 64 1 0x1000 2); try reflexivity.
  - apply wf_with_x; [reflexivity| |apply demo_inv]. simpl. repeat (constructor; [by vm_compute|]). constructor.
  - apply demo_inv.
Defined.

(** ** Faults in the trap handler *)

Lemma rv_trap_keeps cause tval c :
  (rv_trap cause tval c).(mip) = c.(mip) ∧ (rv_trap cause tval c).(mtvec) = c.(mtvec).
Proof.
  unfold rv_trap. destruct (in_trap c); [done|]. simpl. by destruct (nz (mstatus c .& _ .& _)).
Qed.

Lemma spin_step {B} (cb : rv_callbacks B) p base s :
  cb.(probe) = Some p → p s.(bus) base 2 false = true → base .& 1 = 0 →
  halted s.(cpu) = false → s.(cpu).(mip) = 0 → s.(cpu).(pc) = base → s.(cpu).(mtvec) = base → base mod 4 = 0 →
  in32 base →
  ∃ c', rv_step cb s = Some (0, mk_sys c' s.(bus)) ∧ halted c' = false ∧ mip c' = 0 ∧
    pc c' = base ∧ mtvec c' = base.
Proof.
  intros Hp Hrej Hal Hh Hmip Hpc Htv H4 Hb.
  unfold rv_step, get_cpu, mgets, on_cpu, mmod, mbind, M_bind. simpl. rewrite Hh, Hmip. simpl.
  unfold step_fetch, get_cpu, mgets, on_cpu, mmod, probe_rejects, mbind, M_bind. simpl.
  rewrite Hpc, Hal. simpl. rewrite Hp, Hrej. simpl.
  set (c := push_trace _ _ _ _ _ _).
  destruct (rv_trap_fields RV_CAUSE_INSN_ACCESS_FAULT base c eq_refl) as (_ & _ & _ & Epc & _ & _ & _ & Eh & _).
  unfold step_result, get_cpu, mgets, mbind, M_bind, mret, M_ret. cbn [cpu bus].
  exists (rv_trap RV_CAUSE_INSN_ACCESS_FAULT base c). rewrite Eh, Epc.
  destruct (rv_trap_keeps RV_CAUSE_INSN_ACCESS_FAULT base c) as [-> ->].
  change (halted c) with (halted (cpu s)). rewrite Hh. split_and!; [done..| |done].
  change (mtvec c) with (mtvec (cpu s)). rewrite Htv, handler_eq by (done || by vm_compute).
  unfold handler. rewrite H4. simpl. lia.
Qed.

(** A machine whose trap handler cannot be fetched does not stop: with
    [mtvec] pointing at an address the host's probe rejects, every further
    step faults on the handler's first fetch and enters the trap again, so
    [rv_run] uses up any budget and the processor is never halted, although
    the double-fault branch of [rv_trap] is meant to stop rather than spin. *)
Theorem unreachable_handler_spins {B} (cb : rv_callbacks B) p base n s :
  cb.(probe) = Some p → p s.(bus) base 2 false = true →
  halted s.(cpu) = false → s.(cpu).(mip) = 0 → s.(cpu).(pc) = base → s.(cpu).(mtvec) = base →
  base mod 4 = 0 → in32 base →
  ∃ s', rv_run cb (Z.of_nat n) s = Some (Z.of_nat n, s') ∧ halted s'.(cpu) = false ∧
    s'.(cpu).(pc) = base.
Proof.
  intros Hp Hrej Hh Hm Hpc Htv H4 Hb. unfold rv_run. rewrite Nat2Z.id.
  assert (base .& 1 = 0) as Hal.
  { change 1 with (3 .& 1). rewrite Z.land_assoc. change 3 with (Z.ones 2).
    rewrite Z.land_ones by lia. change (2 ^ 2) with 4. by rewrite H4. }
  revert s Hrej Hh Hm Hpc Htv. induction n as [|n IH]; intros s Hrej Hh Hm Hpc Htv; [by exists s|].
  destruct (spin_step cb p base s) as (c' & E & ? & ? & ? & ?); [done..|].
  destruct (IH (mk_sys c' (bus s))) as (s' & E' & ? & ?); [done..|].
  exists s'. split; [|done]. cbn [rv_run_loop]. rewrite (bind_run _ _ _ _ _ E).
  change (0 <? 0) with false. cbv iota. rewrite rv_run_loop_shift, E'. do 2 f_equal. lia.
Qed.

Lemma unreachable_handler_spins_witness :
  let cb := rv_set_probe (λ (_ : machine) addr _ _, addr <? 0x1000) machine_callbacks in
  ∃ s', rv_run cb (Z.of_nat 1000) (mk_sys (rv_set_pc 0 (cpu demo)) (bus demo)) =
      Some (Z.of_nat 1000, s') ∧ halted s'.(cpu) = false ∧ s'.(cpu).(pc) = 0.
Proof. eapply (unreachable_handler_spins _ _ 0 1000); try reflexivity. by vm_compute. Defined.
