(* ===== verification/Rv32Elf.v ===== *)
(** * The ELF loader: src/rv32-emulator/demo/elf_loader.c

    The file is the list of its bytes ([None] when it cannot be opened; the
    allocation and the read are taken to succeed).  A read outside the buffer
    is undefined behaviour.  The loader hands every byte to the write callback
    of its host. *)

From stdpp Require Import gmap.
From S2P Require Import Prelude Rv32State Rv32Isa Rv32Machine.

Definition ET_EXEC : Z := 2.
Definition EM_RISCV : Z := 243.
Definition PT_LOAD : Z := 1.
Definition SHT_SYMTAB : Z := 2.
Definition ELFCLASS32 : Z := 1.
Definition ELFDATA2LSB : Z := 1.

(** [buf[off]] *)
Definition at_off (buf : list Z) (off : Z) : option Z :=
  if (0 <=? off) && (off <? Z.of_nat (length buf)) then buf !! Z.to_nat off else None.

Definition rd16le (buf : list Z) (off : Z) : option Z :=
  b0 ← at_off buf off; b1 ← at_off buf (off + 1);
  Some (u16 (b0 .| (b1 << 8))).

Definition rd32le (buf : list Z) (off : Z) : option Z :=
  b0 ← at_off buf off; b1 ← at_off buf (off + 1);
  b2 ← at_off buf (off + 2); b3 ← at_off buf (off + 3);
  Some (b0 .| (b1 << 8) .| (b2 << 16) .| (b3 << 24)).

(** The outer [None] is undefined behaviour, the inner one the NULL result. *)
Definition read_elf (file : option (list Z)) : option (option (list Z)) :=
  match file with
  | None => Some None
  | Some buf =>
      if Z.of_nat (length buf) <? 52 then Some None
      else
        m0 ← at_off buf 0; m1 ← at_off buf 1; m2 ← at_off buf 2; m3 ← at_off buf 3;
        if negb (m0 =? 0x7f) || negb (m1 =? 0x45) || negb (m2 =? 0x4c) || negb (m3 =? 0x46)
        then Some None
        else
          cls ← at_off buf 4;
          if negb (cls =? ELFCLASS32) then Some None
          else
            dat ← at_off buf 5;
            if negb (dat =? ELFDATA2LSB) then Some None
            else
              ty ← rd16le buf 16;
              if negb (ty =? ET_EXEC) then Some None
              else
                mach ← rd16le buf 18;
                if negb (mach =? EM_RISCV) then Some None else Some (Some buf)
  end.

Section Load.
Context {S : Type} (write : S → Z → Z → option S).

(** [for (j = 0; j < p_filesz; j++) write(ctx, p_vaddr + j, buf[p_offset + j]);]
    with [n] iterations left. *)
Fixpoint copy_bytes (n : nat) (buf : list Z) (j p_vaddr p_offset : Z) (st : S) : option S :=
  match n with
  | O => Some st
  | Datatypes.S n =>
      b ← at_off buf (u32 (p_offset + j));
      st ← write st (u32 (p_vaddr + j)) b;
      copy_bytes n buf (j + 1) p_vaddr p_offset st
  end.

(** [for (j = p_filesz; j < p_memsz; j++) write(ctx, p_vaddr + j, 0);] *)
Fixpoint zero_bytes (n : nat) (j p_vaddr : Z) (st : S) : option S :=
  match n with
  | O => Some st
  | Datatypes.S n =>
      st ← write st (u32 (p_vaddr + j)) 0;
      zero_bytes n (j + 1) p_vaddr st
  end.

(** One segment; the inner [None] is the error return. *)
Definition load_segment (buf : list Z) (ph : Z) (st : S) : option (option S) :=
  p_type ← rd32le buf (ph + 0);
  p_offset ← rd32le buf (ph + 4);
  p_vaddr ← rd32le buf (ph + 8);
  p_filesz ← rd32le buf (ph + 16);
  p_memsz ← rd32le buf (ph + 20);
  if negb (p_type =? PT_LOAD) then Some (Some st)
  else if u32 (Z.of_nat (length buf)) <? u32 (p_offset + p_filesz) then Some None
  else
    st ← copy_bytes (Z.to_nat p_filesz) buf 0 p_vaddr p_offset st;
    st ← zero_bytes (Z.to_nat (p_memsz - p_filesz)) p_filesz p_vaddr st;
    Some (Some st).

(** The loop over the program headers, with [n] left; [true] is the error
    return 0. *)
Fixpoint load_segments (n : nat) (buf : list Z) (i phoff phentsize : Z) (st : S) :
    option (bool * S) :=
  match n with
  | O => Some (false, st)
  | Datatypes.S n =>
      let ph := phoff + u32 (i * phentsize) in
      if Z.of_nat (length buf) <? ph + phentsize then Some (false, st)
      else
        r ← load_segment buf ph st;
        match r with
        | None => Some (true, st)
        | Some st => load_segments n buf (i + 1) phoff phentsize st
        end
  end.

Definition elf_load (file : option (list Z)) (st : S) : option (Z * S) :=
  buf ← read_elf file;
  match buf with
  | None => Some (0, st)
  | Some buf =>
      entry ← rd32le buf 24;
      phoff ← rd32le buf 28;
      phentsize ← rd16le buf 42;
      phnum ← rd16le buf 44;
      r ← load_segments (Z.to_nat phnum) buf 0 phoff phentsize st;
      Some (if r.1 : bool then 0 else entry, r.2)
  end.
End Load.

(** [strcmp(strtab + nameoff, name) == 0] for a name without NUL bytes. *)
Fixpoint str_eq (buf : list Z) (off : Z) (name : list Z) : option bool :=
  match name with
  | [] => b ← at_off buf off; Some (b =? 0)
  | ch :: name =>
      b ← at_off buf off;
      if b =? ch then str_eq buf (off + 1) name else Some false
  end.

(** [for (k = 0; k + entsize <= size; k += entsize)]: the value found, or 0.
    An iteration reads [sym] inside the buffer at a larger offset than the one
    before, so [length buf] iterations are enough for a file below 2 GiB. *)
Fixpoint sym_loop (fuel : nat) (buf : list Z) (off k size entsize strtab : Z) (name : list Z) :
    option Z :=
  if u32 (k + entsize) <=? size then
    match fuel with
    | O => None
    | Datatypes.S fuel =>
        nameoff ← rd32le buf (off + k);
        eq ← str_eq buf (strtab + nameoff) name;
        if eq : bool then rd32le buf (off + k + 4)
        else sym_loop fuel buf off (u32 (k + entsize)) size entsize strtab name
    end
  else Some 0.

Fixpoint sections_loop (n : nat) (buf : list Z) (i shoff shentsize shnum : Z) (name : list Z) :
    option Z :=
  match n with
  | O => Some 0
  | Datatypes.S n =>
      let sh := shoff + u32 (i * shentsize) in
      if Z.of_nat (length buf) <? sh + shentsize then Some 0
      else
        type ← rd32le buf (sh + 4);
        if negb (type =? SHT_SYMTAB) then sections_loop n buf (i + 1) shoff shentsize shnum name
        else
          off ← rd32le buf (sh + 16);
          size ← rd32le buf (sh + 20);
          link ← rd32le buf (sh + 24);
          entsize ← rd32le buf (sh + 36);
          if (entsize =? 0) || (shnum <=? link)
          then sections_loop n buf (i + 1) shoff shentsize shnum name
          else
            strtab ← rd32le buf (shoff + u32 (link * shentsize) + 16);
            r ← sym_loop (length buf) buf off 0 size entsize strtab name;
            if r =? 0 then sections_loop n buf (i + 1) shoff shentsize shnum name
            else Some r
  end.

Definition elf_symbol (file : option (list Z)) (name : list Z) : option Z :=
  buf ← read_elf file;
  match buf with
  | None => Some 0
  | Some buf =>
      shoff ← rd32le buf 32;
      shentsize ← rd16le buf 46;
      shnum ← rd16le buf 48;
      sections_loop (Z.to_nat shnum) buf 0 shoff shentsize shnum name
  end.

(** ** Loading *)

Lemma at_off_ok buf off : 0 <= off < Z.of_nat (length buf) → ∃ b, at_off buf off = Some b.
Proof.
  intros H. unfold at_off. rewrite (proj2 (Z.leb_le _ _)), (proj2 (Z.ltb_lt _ _)) by lia.
  apply lookup_lt_is_Some_2. lia.
Qed.

(** A callback that takes every byte. *)
Definition total_write {S} (write : S → Z → Z → option S) (ok : S → Prop) : Prop :=
  ∀ st a b, ok st → in32 a → ∃ st', write st a b = Some st' ∧ ok st'.

Lemma copy_bytes_ok {S} (write : S → Z → Z → option S) ok buf n j v o st :
  total_write write ok → ok st → 0 <= j → 0 <= o → o + j + Z.of_nat n <= Z.of_nat (length buf) →
  Z.of_nat (length buf) < 2 ^ 32 →
  ∃ st', copy_bytes write n buf j v o st = Some st' ∧ ok st'.
Proof.
  intros Hw. revert j st. induction n as [|n IH]; intros j st Hok Hj Ho Hn Hl; cbn [copy_bytes]; [eauto|].
  rewrite (u32_small (o + j)) by (unfold inw; lia).
  destruct (at_off_ok buf (o + j)) as [b ->]; [lia|]. simpl.
  destruct (Hw st (u32 (v + j)) b Hok (u32_in _)) as (st' & -> & Hok'). simpl. apply IH; [done|lia..].
Qed.

Lemma zero_bytes_ok {S} (write : S → Z → Z → option S) ok n j v st :
  total_write write ok → ok st → ∃ st', zero_bytes write n j v st = Some st' ∧ ok st'.
Proof.
  intros Hw. revert j st. induction n as [|n IH]; intros j st Hok; cbn [zero_bytes]; [eauto|].
  destruct (Hw st (u32 (v + j)) 0 Hok (u32_in _)) as (st' & -> & Hok'). simpl. by apply IH.
Qed.

Lemma machine_poke_total : total_write machine_poke wf_machine.
Proof.
  intros m a b Hm Ha. unfold machine_poke. case_match; [|eauto].
  rewrite store_ok by (unfold inw in *; lia). eauto using wf_with_mem.
Qed.

(** Reads of header fields inside the buffer are defined. *)
Lemma rd32le_ok buf off :
  0 <= off → off + 4 <= Z.of_nat (length buf) → ∃ v, rd32le buf off = Some v.
Proof.
  intros H1 H2. unfold rd32le.
  destruct (at_off_ok buf off) as [b0 ->]; [lia|]. simpl.
  destruct (at_off_ok buf (off + 1)) as [b1 ->]; [lia|]. simpl.
  destruct (at_off_ok buf (off + 2)) as [b2 ->]; [lia|]. simpl.
  destruct (at_off_ok buf (off + 3)) as [b3 ->]; [lia|]. eauto.
Qed.

Lemma rd16le_ok buf off :
  0 <= off → off + 2 <= Z.of_nat (length buf) → ∃ v, rd16le buf off = Some v ∧ in16 v.
Proof.
  intros H1 H2. unfold rd16le.
  destruct (at_off_ok buf off) as [b0 ->]; [lia|]. simpl.
  destruct (at_off_ok buf (off + 1)) as [b1 ->]; [lia|]. simpl.
  eexists. split; [done|]. apply u16_in.
Qed.

Lemma rd32le_in buf off v : Forall in8 buf → rd32le buf off = Some v → in32 v.
Proof.
  intros Hb. unfold rd32le. assert (∀ o b, at_off buf o = Some b → in8 b) as H.
  { intros o b. unfold at_off. case_match; [|done]. by apply Forall_lookup_1. }
  destruct (at_off buf off) eqn:E0; [|done]. destruct (at_off buf (off + 1)) eqn:E1; [|done].
  destruct (at_off buf (off + 2)) eqn:E2; [|done]. destruct (at_off buf (off + 3)) eqn:E3; [|done].
  intros [= <-]. apply H in E0, E1, E2, E3.
  repeat apply inw_lor; [by apply (inw_mono 8)|by apply byte_shl_in..].
Qed.

(** A program header the loader can trust: its segment lies in the file. *)
Definition sane_segment (buf : list Z) (ph : Z) : Prop :=
  ∀ o n, rd32le buf (ph + 4) = Some o → rd32le buf (ph + 16) = Some n →
    o + n <= Z.of_nat (length buf).

Lemma load_segment_ok {S} (write : S → Z → Z → option S) ok buf ph st :
  total_write write ok → ok st → Forall in8 buf → Z.of_nat (length buf) < 2 ^ 32 →
  0 <= ph → ph + 24 <= Z.of_nat (length buf) → sane_segment buf ph →
  ∃ st', load_segment write buf ph st = Some (Some st') ∧ ok st'.
Proof.
  intros Hw Hok Hb Hl H0 H24 Hs. unfold load_segment.
  destruct (rd32le_ok buf (ph + 0)) as [ty ->]; [lia..|]. simpl.
  destruct (rd32le_ok buf (ph + 4)) as [o Eo]; [lia..|]. rewrite Eo. simpl.
  destruct (rd32le_ok buf (ph + 8)) as [v ->]; [lia..|]. simpl.
  destruct (rd32le_ok buf (ph + 16)) as [n En]; [lia..|]. rewrite En. simpl.
  destruct (rd32le_ok buf (ph + 20)) as [sz ->]; [lia..|]. simpl.
  case_match; [eauto|]. specialize (Hs o n Eo En).
  apply (rd32le_in buf) in Eo; [|done]. apply (rd32le_in buf) in En; [|done]. unfold inw in *.
  rewrite (u32_small (o + n)), u32_small by (unfold inw; lia).
  rewrite (proj2 (Z.ltb_ge _ _)) by lia.
  destruct (copy_bytes_ok write ok buf (Z.to_nat n) 0 v o st) as (st1 & -> & Hok1); [done..|lia|lia|lia|lia|].
  simpl. destruct (zero_bytes_ok write ok (Z.to_nat (sz - n)) n v st1) as (st2 & -> & Hok2); [done..|].
  simpl. eauto.
Qed.

Lemma load_segments_ok {S} (write : S → Z → Z → option S) ok buf n i phoff phent st :
  total_write write ok → ok st → Forall in8 buf → Z.of_nat (length buf) < 2 ^ 32 →
  24 <= phent → 0 <= phoff → 0 <= i →
  (∀ k, 0 <= k < i + Z.of_nat n → phoff + u32 (k * phent) + phent <= Z.of_nat (length buf) →
     sane_segment buf (phoff + u32 (k * phent))) →
  ∃ st', load_segments write n buf i phoff phent st = Some (false, st') ∧ ok st'.
Proof.
  intros Hw Hok Hb Hl Hp Ho Hi Hs. revert i st Hok Hi Hs.
  induction n as [|n IH]; intros i st Hok Hi Hs; cbn [load_segments]; [eauto|].
  case_match; [eauto|]. pose proof (u32_in (i * phent)) as [? _].
  destruct (load_segment_ok write ok buf (phoff + u32 (i * phent)) st) as (st' & -> & Hok'); [done..|lia|lia| |].
  { apply Hs; lia. }
  simpl. apply IH; [done|lia|]. intros k Hk. apply Hs. lia.
Qed.

(** ** Theorems *)

(** The headers [elf_load] can trust: full-size program headers whose
    segments lie in the file. *)
Definition sane_elf (buf : list Z) : Prop :=
  ∀ phoff phent, rd32le buf 28 = Some phoff → rd16le buf 42 = Some phent →
    24 <= phent ∧
    ∀ k, 0 <= k → phoff + u32 (k * phent) + phent <= Z.of_nat (length buf) →
      sane_segment buf (phoff + u32 (k * phent)).

Lemma read_elf_ok buf : ∃ r, read_elf (Some buf) = Some r ∧
  (r = None ∨ r = Some buf ∧ 52 <= Z.of_nat (length buf)).
Proof.
  unfold read_elf. destruct (Z.ltb_spec (Z.of_nat (length buf)) 52) as [|H]; [eauto|].
  destruct (at_off_ok buf 0) as [? ->]; [lia|]. destruct (at_off_ok buf 1) as [? ->]; [lia|].
  destruct (at_off_ok buf 2) as [? ->]; [lia|]. destruct (at_off_ok buf 3) as [? ->]; [lia|].
  destruct (at_off_ok buf 4) as [? ->]; [lia|]. destruct (at_off_ok buf 5) as [? ->]; [lia|].
  destruct (rd16le_ok buf 16) as (? & -> & _); [lia..|].
  destruct (rd16le_ok buf 18) as (? & -> & _); [lia..|].
  simpl. repeat case_match; eauto.
Qed.


(** Little-endian bytes, for building files. *)
Definition le16 (v : Z) : list Z := [v mod 256; v / 256 mod 256].
Definition le32 (v : Z) : list Z := le16 (v mod 65536) ++ le16 (v / 65536).

(** A file with one program header, of the given offset and sizes. *)
Definition one_segment (p_offset p_vaddr p_filesz p_memsz : Z) (data : list Z) : list Z :=
  [0x7f; 0x45; 0x4c; 0x46; 1; 1; 1; 0] ++ replicate 8 0 ++
  le16 2 ++ le16 243 ++ le32 1 ++ le32 p_vaddr ++ le32 52 ++ le32 0 ++ le32 0 ++
  le16 52 ++ le16 32 ++ le16 1 ++ le16 0 ++ le16 0 ++ le16 0 ++
  le32 1 ++ le32 p_offset ++ le32 p_vaddr ++ le32 p_vaddr ++ le32 p_filesz ++ le32 p_memsz ++
  le32 5 ++ le32 4 ++ data.

Definition hello_elf : list Z := one_segment 84 0x1000 4 8 [1; 2; 3; 4].

Lemma hello_sane : sane_elf hello_elf.
Proof.
  intros phoff phent H1 H2. vm_compute in H1, H2. simplify_eq. split; [lia|]. intros k Hk Hr.
  assert (Z.of_nat (length hello_elf) = 88) as El by (by vm_compute). rewrite El in Hr.
  assert (u32 (k * 32) = 0) as ->.
  { pose proof (u32_in (k * 32)) as [? _]. unfold u32 in *.
    rewrite (Z.mul_comm k 32) in *. change 4294967296 with (32 * 134217728) in *.
    rewrite Z.mul_mod_distr_l in * by lia. lia. }
  intros o n H3 H4. vm_compute in H3, H4. simplify_eq. by vm_compute.
Qed.


