(* ===== verification/NcState.v ===== *)
(** * The state of a netchan connection: src/netchan-v2/demo/netchan.h, nc_addr.h and netchan.c

    The constants and structures of the protocol, one assignment function per
    field that the code assigns, and the zeroed structures that [calloc] and
    [memset] leave.  Arrays are lists of the declared length. *)

From stdpp Require Import gmap.
From S2P Require Import Prelude.

(** ** Constants *)

Definition NETCHAN_RELIABLE : Z := 0.
Definition NETCHAN_UNRELIABLE : Z := 1.
Definition NETCHAN_STREAM : Z := 2.
Definition NETCHAN_DIR_SEND : Z := 0.
Definition NETCHAN_DIR_RECV : Z := 1.
Definition NETCHAN_STATE_NEW : Z := 0.
Definition NETCHAN_STATE_CONNECTING : Z := 1.
Definition NETCHAN_STATE_CONNECTED : Z := 2.
Definition NETCHAN_STATE_CLOSING : Z := 3.
Definition NETCHAN_STATE_CLOSED : Z := 4.
Definition NETCHAN_EV_NONE : Z := 0.
Definition NETCHAN_EV_CONNECTED : Z := 1.
Definition NETCHAN_EV_DISCONNECTED : Z := 2.
Definition NETCHAN_EV_REDIRECT : Z := 3.
Definition NETCHAN_EV_CHAN_OPEN : Z := 4.
Definition NETCHAN_EV_CHAN_CLOSE : Z := 5.
Definition NETCHAN_EV_DATA : Z := 6.
Definition NETCHAN_OK : Z := 0.
Definition NETCHAN_ERR : Z := -1.
Definition NETCHAN_ERR_NOMEM : Z := -2.
Definition NETCHAN_ERR_AGAIN : Z := -3.
Definition NETCHAN_ERR_CLOSED : Z := -4.
Definition NETCHAN_ERR_FLOW : Z := -5.
Definition NETCHAN_ERR_PROTO : Z := -6.
Definition NETCHAN_ERR_TOOBIG : Z := -7.

Definition NC_VERSION : Z := 0x01.
Definition NC_PKT_FLAG_INIT : Z := 0x01.
Definition NC_PKT_FLAG_PKTNUM : Z := 0x02.
Definition NC_HDR_INIT_SIZE : Z := 5.
Definition NC_HDR_FULL_SIZE : Z := 7.
Definition NC_FRAME_PADDING : Z := 0x00.
Definition NC_FRAME_CONNECT_INIT : Z := 0x01.
Definition NC_FRAME_CONNECT_ACCEPT : Z := 0x02.
Definition NC_FRAME_CONNECT_REDIRECT : Z := 0x03.
Definition NC_FRAME_DISCONNECT : Z := 0x04.
Definition NC_FRAME_PING : Z := 0x05.
Definition NC_FRAME_PONG : Z := 0x06.
Definition NC_FRAME_CHANNEL_OPEN : Z := 0x07.
Definition NC_FRAME_CHANNEL_CLOSE : Z := 0x08.
Definition NC_FRAME_DATA : Z := 0x09.
Definition NC_FRAME_ACK : Z := 0x0A.
Definition NC_FRAME_WINDOW_UPDATE : Z := 0x0B.
Definition NC_MAX_CHANNELS : Z := 256.
Definition NC_EVENT_QUEUE : Z := 16.
Definition NC_CTRL_BUF_SIZE : Z := 1024.
Definition NC_OUTGOING_SLOTS : Z := 64.
Definition NC_RECV_QUEUE : Z := 64.
Definition NC_REORDER_SLOTS : Z := 64.
Definition NC_FRAG_SLOTS : Z := 4.
Definition NC_MAX_FRAGS : Z := 32.
Definition NC_MAX_CHAN : Z := 16.
Definition NC_MAX_MSG : Z := 2048.
Definition NC_POOL_BUFS : Z := 64.
Definition NC_NOBUF : Z := -1.
Definition NC_DEFAULT_MTU : Z := 1200.
Definition NC_DEFAULT_WINDOW : Z := 65536.
Definition NC_DEFAULT_IDLE_MS : Z := 30000.
Definition NC_DEFAULT_RT_MS : Z := 100.
Definition NC_MAX_RT_MS : Z := 1000.
Definition NC_MAX_RT_ATTEMPTS : Z := 5.
Definition NC_CONNECT_RETRY_MS : Z := 500.
Definition NC_CONNECT_RETRIES : Z := 5.
Definition NC_PING_INTERVAL_MS : Z := 5000.
Definition NC_ADDR_MAX : Z := 20.

(** ** Structures *)

(** nc_addr.h's [struct nc_addr]. *)
Record nc_addr : Type := mk_addr {
  a_len : Z;
  a_a : list Z
}.

Record netchan_cfg : Type := mk_cfg {
  mtu : Z;
  chan_window : Z;
  idle_timeout_ms : Z;
  retransmit_ms : Z
}.

(** [ch] is the index of the channel in [chan_pool], [None] for NULL. *)
Record netchan_event : Type := mk_nev {
  ev_type : Z;
  ev_ch : option Z;
  ev_redirect_addr : nc_addr;
  ev_redirect_conn_id : Z
}.

Record nc_outgoing : Type := mk_out {
  o_seq : Z;
  o_buf : Z;
  o_len : Z;
  o_sent_ms : Z;
  o_attempts : Z;
  o_frag_sent : Z;
  o_frag_total : Z;
  o_active : Z
}.

Definition set_o_seq (v : Z) (s : nc_outgoing) : nc_outgoing :=
    mk_out v s.(o_buf) s.(o_len) s.(o_sent_ms) s.(o_attempts) s.(o_frag_sent) s.(o_frag_total)
    s.(o_active).
Definition set_o_buf (v : Z) (s : nc_outgoing) : nc_outgoing :=
    mk_out s.(o_seq) v s.(o_len) s.(o_sent_ms) s.(o_attempts) s.(o_frag_sent) s.(o_frag_total)
    s.(o_active).
Definition set_o_len (v : Z) (s : nc_outgoing) : nc_outgoing :=
    mk_out s.(o_seq) s.(o_buf) v s.(o_sent_ms) s.(o_attempts) s.(o_frag_sent) s.(o_frag_total)
    s.(o_active).
Definition set_o_sent_ms (v : Z) (s : nc_outgoing) : nc_outgoing :=
    mk_out s.(o_seq) s.(o_buf) s.(o_len) v s.(o_attempts) s.(o_frag_sent) s.(o_frag_total)
    s.(o_active).
Definition set_o_attempts (v : Z) (s : nc_outgoing) : nc_outgoing :=
    mk_out s.(o_seq) s.(o_buf) s.(o_len) s.(o_sent_ms) v s.(o_frag_sent) s.(o_frag_total)
    s.(o_active).
Definition set_o_frag_sent (v : Z) (s : nc_outgoing) : nc_outgoing :=
    mk_out s.(o_seq) s.(o_buf) s.(o_len) s.(o_sent_ms) s.(o_attempts) v s.(o_frag_total)
    s.(o_active).
Definition set_o_frag_total (v : Z) (s : nc_outgoing) : nc_outgoing :=
    mk_out s.(o_seq) s.(o_buf) s.(o_len) s.(o_sent_ms) s.(o_attempts) s.(o_frag_sent) v
    s.(o_active).
Definition set_o_active (v : Z) (s : nc_outgoing) : nc_outgoing :=
    mk_out s.(o_seq) s.(o_buf) s.(o_len) s.(o_sent_ms) s.(o_attempts) s.(o_frag_sent)
    s.(o_frag_total) v.

Record nc_recv_entry : Type := mk_rent {
  e_buf : Z;
  e_len : Z
}.

Definition set_e_buf (v : Z) (s : nc_recv_entry) : nc_recv_entry :=
    mk_rent v s.(e_len).
Definition set_e_len (v : Z) (s : nc_recv_entry) : nc_recv_entry :=
    mk_rent s.(e_buf) v.

Record nc_reorder : Type := mk_reord {
  r_seq : Z;
  r_buf : Z;
  r_len : Z;
  r_valid : Z
}.

Definition set_r_seq (v : Z) (s : nc_reorder) : nc_reorder :=
    mk_reord v s.(r_buf) s.(r_len) s.(r_valid).
Definition set_r_buf (v : Z) (s : nc_reorder) : nc_reorder :=
    mk_reord s.(r_seq) v s.(r_len) s.(r_valid).
Definition set_r_len (v : Z) (s : nc_reorder) : nc_reorder :=
    mk_reord s.(r_seq) s.(r_buf) v s.(r_valid).
Definition set_r_valid (v : Z) (s : nc_reorder) : nc_reorder :=
    mk_reord s.(r_seq) s.(r_buf) s.(r_len) v.

Record nc_frag_asm : Type := mk_frag {
  f_seq : Z;
  f_total : Z;
  f_have : Z;
  f_bitmask : Z;
  f_buf : Z;
  f_offsets : list Z;
  f_active : Z
}.

Definition set_f_seq (v : Z) (s : nc_frag_asm) : nc_frag_asm :=
    mk_frag v s.(f_total) s.(f_have) s.(f_bitmask) s.(f_buf) s.(f_offsets) s.(f_active).
Definition set_f_total (v : Z) (s : nc_frag_asm) : nc_frag_asm :=
    mk_frag s.(f_seq) v s.(f_have) s.(f_bitmask) s.(f_buf) s.(f_offsets) s.(f_active).
Definition set_f_have (v : Z) (s : nc_frag_asm) : nc_frag_asm :=
    mk_frag s.(f_seq) s.(f_total) v s.(f_bitmask) s.(f_buf) s.(f_offsets) s.(f_active).
Definition set_f_bitmask (v : Z) (s : nc_frag_asm) : nc_frag_asm :=
    mk_frag s.(f_seq) s.(f_total) s.(f_have) v s.(f_buf) s.(f_offsets) s.(f_active).
Definition set_f_buf (v : Z) (s : nc_frag_asm) : nc_frag_asm :=
    mk_frag s.(f_seq) s.(f_total) s.(f_have) s.(f_bitmask) v s.(f_offsets) s.(f_active).
Definition set_f_offsets (v : list Z) (s : nc_frag_asm) : nc_frag_asm :=
    mk_frag s.(f_seq) s.(f_total) s.(f_have) s.(f_bitmask) s.(f_buf) v s.(f_active).
Definition set_f_active (v : Z) (s : nc_frag_asm) : nc_frag_asm :=
    mk_frag s.(f_seq) s.(f_total) s.(f_have) s.(f_bitmask) s.(f_buf) s.(f_offsets) v.

(** The field [conn] is left out: a channel lives in the [chan_pool] of its
    connection, and the operations that take a channel take its index there. *)
Record netchan_chan : Type := mk_chan {
  ch_id : Z;
  ch_type : Z;
  ch_dir : Z;
  ch_role : Z;
  ch_state : Z;
  content_type : list Z;
  send_seq : Z;
  send_window : Z;
  bytes_in_flight : Z;
  outgoing : list nc_outgoing;
  out_head : Z;
  out_tail : Z;
  recv_seq : Z;
  recv_window : Z;
  recv_buffered : Z;
  recv_queue : list nc_recv_entry;
  rq_head : Z;
  rq_tail : Z;
  reorder : list nc_reorder;
  frags : list nc_frag_asm;
  need_ack : Z;
  ack_seq : Z;
  need_window_update : Z;
  msgs_sent : Z;
  msgs_acked : Z;
  retransmissions : Z;
  msgs_recv : Z
}.

Definition set_ch_id (v : Z) (s : netchan_chan) : netchan_chan :=
    mk_chan v s.(ch_type) s.(ch_dir) s.(ch_role) s.(ch_state) s.(content_type) s.(send_seq)
    s.(send_window) s.(bytes_in_flight) s.(outgoing) s.(out_head) s.(out_tail) s.(recv_seq)
    s.(recv_window) s.(recv_buffered) s.(recv_queue) s.(rq_head) s.(rq_tail) s.(reorder)
    s.(frags) s.(need_ack) s.(ack_seq) s.(need_window_update) s.(msgs_sent) s.(msgs_acked)
    s.(retransmissions) s.(msgs_recv).
Definition set_ch_type (v : Z) (s : netchan_chan) : netchan_chan :=
    mk_chan s.(ch_id) v s.(ch_dir) s.(ch_role) s.(ch_state) s.(content_type) s.(send_seq)
    s.(send_window) s.(bytes_in_flight) s.(outgoing) s.(out_head) s.(out_tail) s.(recv_seq)
    s.(recv_window) s.(recv_buffered) s.(recv_queue) s.(rq_head) s.(rq_tail) s.(reorder)
    s.(frags) s.(need_ack) s.(ack_seq) s.(need_window_update) s.(msgs_sent) s.(msgs_acked)
    s.(retransmissions) s.(msgs_recv).
Definition set_ch_dir (v : Z) (s : netchan_chan) : netchan_chan :=
    mk_chan s.(ch_id) s.(ch_type) v s.(ch_role) s.(ch_state) s.(content_type) s.(send_seq)
    s.(send_window) s.(bytes_in_flight) s.(outgoing) s.(out_head) s.(out_tail) s.(recv_seq)
    s.(recv_window) s.(recv_buffered) s.(recv_queue) s.(rq_head) s.(rq_tail) s.(reorder)
    s.(frags) s.(need_ack) s.(ack_seq) s.(need_window_update) s.(msgs_sent) s.(msgs_acked)
    s.(retransmissions) s.(msgs_recv).
Definition set_ch_role (v : Z) (s : netchan_chan) : netchan_chan :=
    mk_chan s.(ch_id) s.(ch_type) s.(ch_dir) v s.(ch_state) s.(content_type) s.(send_seq)
    s.(send_window) s.(bytes_in_flight) s.(outgoing) s.(out_head) s.(out_tail) s.(recv_seq)
    s.(recv_window) s.(recv_buffered) s.(recv_queue) s.(rq_head) s.(rq_tail) s.(reorder)
    s.(frags) s.(need_ack) s.(ack_seq) s.(need_window_update) s.(msgs_sent) s.(msgs_acked)
    s.(retransmissions) s.(msgs_recv).
Definition set_ch_state (v : Z) (s : netchan_chan) : netchan_chan :=
    mk_chan s.(ch_id) s.(ch_type) s.(ch_dir) s.(ch_role) v s.(content_type) s.(send_seq)
    s.(send_window) s.(bytes_in_flight) s.(outgoing) s.(out_head) s.(out_tail) s.(recv_seq)
    s.(recv_window) s.(recv_buffered) s.(recv_queue) s.(rq_head) s.(rq_tail) s.(reorder)
    s.(frags) s.(need_ack) s.(ack_seq) s.(need_window_update) s.(msgs_sent) s.(msgs_acked)
    s.(retransmissions) s.(msgs_recv).
Definition set_content_type (v : list Z) (s : netchan_chan) : netchan_chan :=
    mk_chan s.(ch_id) s.(ch_type) s.(ch_dir) s.(ch_role) s.(ch_state) v s.(send_seq)
    s.(send_window) s.(bytes_in_flight) s.(outgoing) s.(out_head) s.(out_tail) s.(recv_seq)
    s.(recv_window) s.(recv_buffered) s.(recv_queue) s.(rq_head) s.(rq_tail) s.(reorder)
    s.(frags) s.(need_ack) s.(ack_seq) s.(need_window_update) s.(msgs_sent) s.(msgs_acked)
    s.(retransmissions) s.(msgs_recv).
Definition set_send_seq (v : Z) (s : netchan_chan) : netchan_chan :=
    mk_chan s.(ch_id) s.(ch_type) s.(ch_dir) s.(ch_role) s.(ch_state) s.(content_type) v
    s.(send_window) s.(bytes_in_flight) s.(outgoing) s.(out_head) s.(out_tail) s.(recv_seq)
    s.(recv_window) s.(recv_buffered) s.(recv_queue) s.(rq_head) s.(rq_tail) s.(reorder)
    s.(frags) s.(need_ack) s.(ack_seq) s.(need_window_update) s.(msgs_sent) s.(msgs_acked)
    s.(retransmissions) s.(msgs_recv).
Definition set_send_window (v : Z) (s : netchan_chan) : netchan_chan :=
    mk_chan s.(ch_id) s.(ch_type) s.(ch_dir) s.(ch_role) s.(ch_state) s.(content_type)
    s.(send_seq) v s.(bytes_in_flight) s.(outgoing) s.(out_head) s.(out_tail) s.(recv_seq)
    s.(recv_window) s.(recv_buffered) s.(recv_queue) s.(rq_head) s.(rq_tail) s.(reorder)
    s.(frags) s.(need_ack) s.(ack_seq) s.(need_window_update) s.(msgs_sent) s.(msgs_acked)
    s.(retransmissions) s.(msgs_recv).
Definition set_bytes_in_flight (v : Z) (s : netchan_chan) : netchan_chan :=
    mk_chan s.(ch_id) s.(ch_type) s.(ch_dir) s.(ch_role) s.(ch_state) s.(content_type)
    s.(send_seq) s.(send_window) v s.(outgoing) s.(out_head) s.(out_tail) s.(recv_seq)
    s.(recv_window) s.(recv_buffered) s.(recv_queue) s.(rq_head) s.(rq_tail) s.(reorder)
    s.(frags) s.(need_ack) s.(ack_seq) s.(need_window_update) s.(msgs_sent) s.(msgs_acked)
    s.(retransmissions) s.(msgs_recv).
Definition set_outgoing (v : list nc_outgoing) (s : netchan_chan) : netchan_chan :=
    mk_chan s.(ch_id) s.(ch_type) s.(ch_dir) s.(ch_role) s.(ch_state) s.(content_type)
    s.(send_seq) s.(send_window) s.(bytes_in_flight) v s.(out_head) s.(out_tail) s.(recv_seq)
    s.(recv_window) s.(recv_buffered) s.(recv_queue) s.(rq_head) s.(rq_tail) s.(reorder)
    s.(frags) s.(need_ack) s.(ack_seq) s.(need_window_update) s.(msgs_sent) s.(msgs_acked)
    s.(retransmissions) s.(msgs_recv).
Definition set_out_head (v : Z) (s : netchan_chan) : netchan_chan :=
    mk_chan s.(ch_id) s.(ch_type) s.(ch_dir) s.(ch_role) s.(ch_state) s.(content_type)
    s.(send_seq) s.(send_window) s.(bytes_in_flight) s.(outgoing) v s.(out_tail) s.(recv_seq)
    s.(recv_window) s.(recv_buffered) s.(recv_queue) s.(rq_head) s.(rq_tail) s.(reorder)
    s.(frags) s.(need_ack) s.(ack_seq) s.(need_window_update) s.(msgs_sent) s.(msgs_acked)
    s.(retransmissions) s.(msgs_recv).
Definition set_out_tail (v : Z) (s : netchan_chan) : netchan_chan :=
    mk_chan s.(ch_id) s.(ch_type) s.(ch_dir) s.(ch_role) s.(ch_state) s.(content_type)
    s.(send_seq) s.(send_window) s.(bytes_in_flight) s.(outgoing) s.(out_head) v s.(recv_seq)
    s.(recv_window) s.(recv_buffered) s.(recv_queue) s.(rq_head) s.(rq_tail) s.(reorder)
    s.(frags) s.(need_ack) s.(ack_seq) s.(need_window_update) s.(msgs_sent) s.(msgs_acked)
    s.(retransmissions) s.(msgs_recv).
Definition set_recv_seq (v : Z) (s : netchan_chan) : netchan_chan :=
    mk_chan s.(ch_id) s.(ch_type) s.(ch_dir) s.(ch_role) s.(ch_state) s.(content_type)
    s.(send_seq) s.(send_window) s.(bytes_in_flight) s.(outgoing) s.(out_head) s.(out_tail) v
    s.(recv_window) s.(recv_buffered) s.(recv_queue) s.(rq_head) s.(rq_tail) s.(reorder)
    s.(frags) s.(need_ack) s.(ack_seq) s.(need_window_update) s.(msgs_sent) s.(msgs_acked)
    s.(retransmissions) s.(msgs_recv).
Definition set_recv_window (v : Z) (s : netchan_chan) : netchan_chan :=
    mk_chan s.(ch_id) s.(ch_type) s.(ch_dir) s.(ch_role) s.(ch_state) s.(content_type)
    s.(send_seq) s.(send_window) s.(bytes_in_flight) s.(outgoing) s.(out_head) s.(out_tail)
    s.(recv_seq) v s.(recv_buffered) s.(recv_queue) s.(rq_head) s.(rq_tail) s.(reorder)
    s.(frags) s.(need_ack) s.(ack_seq) s.(need_window_update) s.(msgs_sent) s.(msgs_acked)
    s.(retransmissions) s.(msgs_recv).
Definition set_recv_buffered (v : Z) (s : netchan_chan) : netchan_chan :=
    mk_chan s.(ch_id) s.(ch_type) s.(ch_dir) s.(ch_role) s.(ch_state) s.(content_type)
    s.(send_seq) s.(send_window) s.(bytes_in_flight) s.(outgoing) s.(out_head) s.(out_tail)
    s.(recv_seq) s.(recv_window) v s.(recv_queue) s.(rq_head) s.(rq_tail) s.(reorder) s.(frags)
    s.(need_ack) s.(ack_seq) s.(need_window_update) s.(msgs_sent) s.(msgs_acked)
    s.(retransmissions) s.(msgs_recv).
Definition set_recv_queue (v : list nc_recv_entry) (s : netchan_chan) : netchan_chan :=
    mk_chan s.(ch_id) s.(ch_type) s.(ch_dir) s.(ch_role) s.(ch_state) s.(content_type)
    s.(send_seq) s.(send_window) s.(bytes_in_flight) s.(outgoing) s.(out_head) s.(out_tail)
    s.(recv_seq) s.(recv_window) s.(recv_buffered) v s.(rq_head) s.(rq_tail) s.(reorder)
    s.(frags) s.(need_ack) s.(ack_seq) s.(need_window_update) s.(msgs_sent) s.(msgs_acked)
    s.(retransmissions) s.(msgs_recv).
Definition set_rq_head (v : Z) (s : netchan_chan) : netchan_chan :=
    mk_chan s.(ch_id) s.(ch_type) s.(ch_dir) s.(ch_role) s.(ch_state) s.(content_type)
    s.(send_seq) s.(send_window) s.(bytes_in_flight) s.(outgoing) s.(out_head) s.(out_tail)
    s.(recv_seq) s.(recv_window) s.(recv_buffered) s.(recv_queue) v s.(rq_tail) s.(reorder)
    s.(frags) s.(need_ack) s.(ack_seq) s.(need_window_update) s.(msgs_sent) s.(msgs_acked)
    s.(retransmissions) s.(msgs_recv).
Definition set_rq_tail (v : Z) (s : netchan_chan) : netchan_chan :=
    mk_chan s.(ch_id) s.(ch_type) s.(ch_dir) s.(ch_role) s.(ch_state) s.(content_type)
    s.(send_seq) s.(send_window) s.(bytes_in_flight) s.(outgoing) s.(out_head) s.(out_tail)
    s.(recv_seq) s.(recv_window) s.(recv_buffered) s.(recv_queue) s.(rq_head) v s.(reorder)
    s.(frags) s.(need_ack) s.(ack_seq) s.(need_window_update) s.(msgs_sent) s.(msgs_acked)
    s.(retransmissions) s.(msgs_recv).
Definition set_reorder (v : list nc_reorder) (s : netchan_chan) : netchan_chan :=
    mk_chan s.(ch_id) s.(ch_type) s.(ch_dir) s.(ch_role) s.(ch_state) s.(content_type)
    s.(send_seq) s.(send_window) s.(bytes_in_flight) s.(outgoing) s.(out_head) s.(out_tail)
    s.(recv_seq) s.(recv_window) s.(recv_buffered) s.(recv_queue) s.(rq_head) s.(rq_tail) v
    s.(frags) s.(need_ack) s.(ack_seq) s.(need_window_update) s.(msgs_sent) s.(msgs_acked)
    s.(retransmissions) s.(msgs_recv).
Definition set_frags (v : list nc_frag_asm) (s : netchan_chan) : netchan_chan :=
    mk_chan s.(ch_id) s.(ch_type) s.(ch_dir) s.(ch_role) s.(ch_state) s.(content_type)
    s.(send_seq) s.(send_window) s.(bytes_in_flight) s.(outgoing) s.(out_head) s.(out_tail)
    s.(recv_seq) s.(recv_window) s.(recv_buffered) s.(recv_queue) s.(rq_head) s.(rq_tail)
    s.(reorder) v s.(need_ack) s.(ack_seq) s.(need_window_update) s.(msgs_sent) s.(msgs_acked)
    s.(retransmissions) s.(msgs_recv).
Definition set_need_ack (v : Z) (s : netchan_chan) : netchan_chan :=
    mk_chan s.(ch_id) s.(ch_type) s.(ch_dir) s.(ch_role) s.(ch_state) s.(content_type)
    s.(send_seq) s.(send_window) s.(bytes_in_flight) s.(outgoing) s.(out_head) s.(out_tail)
    s.(recv_seq) s.(recv_window) s.(recv_buffered) s.(recv_queue) s.(rq_head) s.(rq_tail)
    s.(reorder) s.(frags) v s.(ack_seq) s.(need_window_update) s.(msgs_sent) s.(msgs_acked)
    s.(retransmissions) s.(msgs_recv).
Definition set_ack_seq (v : Z) (s : netchan_chan) : netchan_chan :=
    mk_chan s.(ch_id) s.(ch_type) s.(ch_dir) s.(ch_role) s.(ch_state) s.(content_type)
    s.(send_seq) s.(send_window) s.(bytes_in_flight) s.(outgoing) s.(out_head) s.(out_tail)
    s.(recv_seq) s.(recv_window) s.(recv_buffered) s.(recv_queue) s.(rq_head) s.(rq_tail)
    s.(reorder) s.(frags) s.(need_ack) v s.(need_window_update) s.(msgs_sent) s.(msgs_acked)
    s.(retransmissions) s.(msgs_recv).
Definition set_need_window_update (v : Z) (s : netchan_chan) : netchan_chan :=
    mk_chan s.(ch_id) s.(ch_type) s.(ch_dir) s.(ch_role) s.(ch_state) s.(content_type)
    s.(send_seq) s.(send_window) s.(bytes_in_flight) s.(outgoing) s.(out_head) s.(out_tail)
    s.(recv_seq) s.(recv_window) s.(recv_buffered) s.(recv_queue) s.(rq_head) s.(rq_tail)
    s.(reorder) s.(frags) s.(need_ack) s.(ack_seq) v s.(msgs_sent) s.(msgs_acked)
    s.(retransmissions) s.(msgs_recv).
Definition set_msgs_sent (v : Z) (s : netchan_chan) : netchan_chan :=
    mk_chan s.(ch_id) s.(ch_type) s.(ch_dir) s.(ch_role) s.(ch_state) s.(content_type)
    s.(send_seq) s.(send_window) s.(bytes_in_flight) s.(outgoing) s.(out_head) s.(out_tail)
    s.(recv_seq) s.(recv_window) s.(recv_buffered) s.(recv_queue) s.(rq_head) s.(rq_tail)
    s.(reorder) s.(frags) s.(need_ack) s.(ack_seq) s.(need_window_update) v s.(msgs_acked)
    s.(retransmissions) s.(msgs_recv).
Definition set_msgs_acked (v : Z) (s : netchan_chan) : netchan_chan :=
    mk_chan s.(ch_id) s.(ch_type) s.(ch_dir) s.(ch_role) s.(ch_state) s.(content_type)
    s.(send_seq) s.(send_window) s.(bytes_in_flight) s.(outgoing) s.(out_head) s.(out_tail)
    s.(recv_seq) s.(recv_window) s.(recv_buffered) s.(recv_queue) s.(rq_head) s.(rq_tail)
    s.(reorder) s.(frags) s.(need_ack) s.(ack_seq) s.(need_window_update) s.(msgs_sent) v
    s.(retransmissions) s.(msgs_recv).
Definition set_retransmissions (v : Z) (s : netchan_chan) : netchan_chan :=
    mk_chan s.(ch_id) s.(ch_type) s.(ch_dir) s.(ch_role) s.(ch_state) s.(content_type)
    s.(send_seq) s.(send_window) s.(bytes_in_flight) s.(outgoing) s.(out_head) s.(out_tail)
    s.(recv_seq) s.(recv_window) s.(recv_buffered) s.(recv_queue) s.(rq_head) s.(rq_tail)
    s.(reorder) s.(frags) s.(need_ack) s.(ack_seq) s.(need_window_update) s.(msgs_sent)
    s.(msgs_acked) v s.(msgs_recv).
Definition set_msgs_recv (v : Z) (s : netchan_chan) : netchan_chan :=
    mk_chan s.(ch_id) s.(ch_type) s.(ch_dir) s.(ch_role) s.(ch_state) s.(content_type)
    s.(send_seq) s.(send_window) s.(bytes_in_flight) s.(outgoing) s.(out_head) s.(out_tail)
    s.(recv_seq) s.(recv_window) s.(recv_buffered) s.(recv_queue) s.(rq_head) s.(rq_tail)
    s.(reorder) s.(frags) s.(need_ack) s.(ack_seq) s.(need_window_update) s.(msgs_sent)
    s.(msgs_acked) s.(retransmissions) v.

(** [channels] holds indices into [chan_pool], [None] for NULL.  [pool_store] is
    the byte array of the message pool; a byte never written is 0 ([calloc]). *)
Record netchan_conn : Type := mk_conn {
  local_id : Z;
  remote_id : Z;
  server : Z;
  state : Z;
  peer_addr : nc_addr;
  next_pkt_num : Z;
  last_recv_ms : Z;
  last_send_ms : Z;
  connect_sent_ms : Z;
  connect_attempts : Z;
  ping_sent_ms : Z;
  ping_opaque : Z;
  rtt_ms : Z;
  rtt_min_ms : Z;
  pkts_sent : Z;
  pkts_recv : Z;
  cfg : netchan_cfg;
  channels : list (option Z);
  next_chan_id : Z;
  chan_pool : list netchan_chan;
  chan_used : list Z;
  pool_free : list Z;
  pool_free_top : Z;
  pool_store : gmap Z Z;
  events : list netchan_event;
  ev_head : Z;
  ev_tail : Z;
  ctrl_buf : list Z;
  ctrl_len : Z
}.

Definition set_local_id (v : Z) (s : netchan_conn) : netchan_conn :=
    mk_conn v s.(remote_id) s.(server) s.(state) s.(peer_addr) s.(next_pkt_num)
    s.(last_recv_ms) s.(last_send_ms) s.(connect_sent_ms) s.(connect_attempts) s.(ping_sent_ms)
    s.(ping_opaque) s.(rtt_ms) s.(rtt_min_ms) s.(pkts_sent) s.(pkts_recv) s.(cfg) s.(channels)
    s.(next_chan_id) s.(chan_pool) s.(chan_used) s.(pool_free) s.(pool_free_top) s.(pool_store)
    s.(events) s.(ev_head) s.(ev_tail) s.(ctrl_buf) s.(ctrl_len).
Definition set_remote_id (v : Z) (s : netchan_conn) : netchan_conn :=
    mk_conn s.(local_id) v s.(server) s.(state) s.(peer_addr) s.(next_pkt_num) s.(last_recv_ms)
    s.(last_send_ms) s.(connect_sent_ms) s.(connect_attempts) s.(ping_sent_ms) s.(ping_opaque)
    s.(rtt_ms) s.(rtt_min_ms) s.(pkts_sent) s.(pkts_recv) s.(cfg) s.(channels) s.(next_chan_id)
    s.(chan_pool) s.(chan_used) s.(pool_free) s.(pool_free_top) s.(pool_store) s.(events)
    s.(ev_head) s.(ev_tail) s.(ctrl_buf) s.(ctrl_len).
Definition set_server (v : Z) (s : netchan_conn) : netchan_conn :=
    mk_conn s.(local_id) s.(remote_id) v s.(state) s.(peer_addr) s.(next_pkt_num)
    s.(last_recv_ms) s.(last_send_ms) s.(connect_sent_ms) s.(connect_attempts) s.(ping_sent_ms)
    s.(ping_opaque) s.(rtt_ms) s.(rtt_min_ms) s.(pkts_sent) s.(pkts_recv) s.(cfg) s.(channels)
    s.(next_chan_id) s.(chan_pool) s.(chan_used) s.(pool_free) s.(pool_free_top) s.(pool_store)
    s.(events) s.(ev_head) s.(ev_tail) s.(ctrl_buf) s.(ctrl_len).
Definition set_state (v : Z) (s : netchan_conn) : netchan_conn :=
    mk_conn s.(local_id) s.(remote_id) s.(server) v s.(peer_addr) s.(next_pkt_num)
    s.(last_recv_ms) s.(last_send_ms) s.(connect_sent_ms) s.(connect_attempts) s.(ping_sent_ms)
    s.(ping_opaque) s.(rtt_ms) s.(rtt_min_ms) s.(pkts_sent) s.(pkts_recv) s.(cfg) s.(channels)
    s.(next_chan_id) s.(chan_pool) s.(chan_used) s.(pool_free) s.(pool_free_top) s.(pool_store)
    s.(events) s.(ev_head) s.(ev_tail) s.(ctrl_buf) s.(ctrl_len).
Definition set_peer_addr (v : nc_addr) (s : netchan_conn) : netchan_conn :=
    mk_conn s.(local_id) s.(remote_id) s.(server) s.(state) v s.(next_pkt_num) s.(last_recv_ms)
    s.(last_send_ms) s.(connect_sent_ms) s.(connect_attempts) s.(ping_sent_ms) s.(ping_opaque)
    s.(rtt_ms) s.(rtt_min_ms) s.(pkts_sent) s.(pkts_recv) s.(cfg) s.(channels) s.(next_chan_id)
    s.(chan_pool) s.(chan_used) s.(pool_free) s.(pool_free_top) s.(pool_store) s.(events)
    s.(ev_head) s.(ev_tail) s.(ctrl_buf) s.(ctrl_len).
Definition set_next_pkt_num (v : Z) (s : netchan_conn) : netchan_conn :=
    mk_conn s.(local_id) s.(remote_id) s.(server) s.(state) s.(peer_addr) v s.(last_recv_ms)
    s.(last_send_ms) s.(connect_sent_ms) s.(connect_attempts) s.(ping_sent_ms) s.(ping_opaque)
    s.(rtt_ms) s.(rtt_min_ms) s.(pkts_sent) s.(pkts_recv) s.(cfg) s.(channels) s.(next_chan_id)
    s.(chan_pool) s.(chan_used) s.(pool_free) s.(pool_free_top) s.(pool_store) s.(events)
    s.(ev_head) s.(ev_tail) s.(ctrl_buf) s.(ctrl_len).
Definition set_last_recv_ms (v : Z) (s : netchan_conn) : netchan_conn :=
    mk_conn s.(local_id) s.(remote_id) s.(server) s.(state) s.(peer_addr) s.(next_pkt_num) v
    s.(last_send_ms) s.(connect_sent_ms) s.(connect_attempts) s.(ping_sent_ms) s.(ping_opaque)
    s.(rtt_ms) s.(rtt_min_ms) s.(pkts_sent) s.(pkts_recv) s.(cfg) s.(channels) s.(next_chan_id)
    s.(chan_pool) s.(chan_used) s.(pool_free) s.(pool_free_top) s.(pool_store) s.(events)
    s.(ev_head) s.(ev_tail) s.(ctrl_buf) s.(ctrl_len).
Definition set_last_send_ms (v : Z) (s : netchan_conn) : netchan_conn :=
    mk_conn s.(local_id) s.(remote_id) s.(server) s.(state) s.(peer_addr) s.(next_pkt_num)
    s.(last_recv_ms) v s.(connect_sent_ms) s.(connect_attempts) s.(ping_sent_ms)
    s.(ping_opaque) s.(rtt_ms) s.(rtt_min_ms) s.(pkts_sent) s.(pkts_recv) s.(cfg) s.(channels)
    s.(next_chan_id) s.(chan_pool) s.(chan_used) s.(pool_free) s.(pool_free_top) s.(pool_store)
    s.(events) s.(ev_head) s.(ev_tail) s.(ctrl_buf) s.(ctrl_len).
Definition set_connect_sent_ms (v : Z) (s : netchan_conn) : netchan_conn :=
    mk_conn s.(local_id) s.(remote_id) s.(server) s.(state) s.(peer_addr) s.(next_pkt_num)
    s.(last_recv_ms) s.(last_send_ms) v s.(connect_attempts) s.(ping_sent_ms) s.(ping_opaque)
    s.(rtt_ms) s.(rtt_min_ms) s.(pkts_sent) s.(pkts_recv) s.(cfg) s.(channels) s.(next_chan_id)
    s.(chan_pool) s.(chan_used) s.(pool_free) s.(pool_free_top) s.(pool_store) s.(events)
    s.(ev_head) s.(ev_tail) s.(ctrl_buf) s.(ctrl_len).
Definition set_connect_attempts (v : Z) (s : netchan_conn) : netchan_conn :=
    mk_conn s.(local_id) s.(remote_id) s.(server) s.(state) s.(peer_addr) s.(next_pkt_num)
    s.(last_recv_ms) s.(last_send_ms) s.(connect_sent_ms) v s.(ping_sent_ms) s.(ping_opaque)
    s.(rtt_ms) s.(rtt_min_ms) s.(pkts_sent) s.(pkts_recv) s.(cfg) s.(channels) s.(next_chan_id)
    s.(chan_pool) s.(chan_used) s.(pool_free) s.(pool_free_top) s.(pool_store) s.(events)
    s.(ev_head) s.(ev_tail) s.(ctrl_buf) s.(ctrl_len).
Definition set_ping_sent_ms (v : Z) (s : netchan_conn) : netchan_conn :=
    mk_conn s.(local_id) s.(remote_id) s.(server) s.(state) s.(peer_addr) s.(next_pkt_num)
    s.(last_recv_ms) s.(last_send_ms) s.(connect_sent_ms) s.(connect_attempts) v
    s.(ping_opaque) s.(rtt_ms) s.(rtt_min_ms) s.(pkts_sent) s.(pkts_recv) s.(cfg) s.(channels)
    s.(next_chan_id) s.(chan_pool) s.(chan_used) s.(pool_free) s.(pool_free_top) s.(pool_store)
    s.(events) s.(ev_head) s.(ev_tail) s.(ctrl_buf) s.(ctrl_len).
Definition set_ping_opaque (v : Z) (s : netchan_conn) : netchan_conn :=
    mk_conn s.(local_id) s.(remote_id) s.(server) s.(state) s.(peer_addr) s.(next_pkt_num)
    s.(last_recv_ms) s.(last_send_ms) s.(connect_sent_ms) s.(connect_attempts) s.(ping_sent_ms)
    v s.(rtt_ms) s.(rtt_min_ms) s.(pkts_sent) s.(pkts_recv) s.(cfg) s.(channels)
    s.(next_chan_id) s.(chan_pool) s.(chan_used) s.(pool_free) s.(pool_free_top) s.(pool_store)
    s.(events) s.(ev_head) s.(ev_tail) s.(ctrl_buf) s.(ctrl_len).
Definition set_rtt_ms (v : Z) (s : netchan_conn) : netchan_conn :=
    mk_conn s.(local_id) s.(remote_id) s.(server) s.(state) s.(peer_addr) s.(next_pkt_num)
    s.(last_recv_ms) s.(last_send_ms) s.(connect_sent_ms) s.(connect_attempts) s.(ping_sent_ms)
    s.(ping_opaque) v s.(rtt_min_ms) s.(pkts_sent) s.(pkts_recv) s.(cfg) s.(channels)
    s.(next_chan_id) s.(chan_pool) s.(chan_used) s.(pool_free) s.(pool_free_top) s.(pool_store)
    s.(events) s.(ev_head) s.(ev_tail) s.(ctrl_buf) s.(ctrl_len).
Definition set_rtt_min_ms (v : Z) (s : netchan_conn) : netchan_conn :=
    mk_conn s.(local_id) s.(remote_id) s.(server) s.(state) s.(peer_addr) s.(next_pkt_num)
    s.(last_recv_ms) s.(last_send_ms) s.(connect_sent_ms) s.(connect_attempts) s.(ping_sent_ms)
    s.(ping_opaque) s.(rtt_ms) v s.(pkts_sent) s.(pkts_recv) s.(cfg) s.(channels)
    s.(next_chan_id) s.(chan_pool) s.(chan_used) s.(pool_free) s.(pool_free_top) s.(pool_store)
    s.(events) s.(ev_head) s.(ev_tail) s.(ctrl_buf) s.(ctrl_len).
Definition set_pkts_sent (v : Z) (s : netchan_conn) : netchan_conn :=
    mk_conn s.(local_id) s.(remote_id) s.(server) s.(state) s.(peer_addr) s.(next_pkt_num)
    s.(last_recv_ms) s.(last_send_ms) s.(connect_sent_ms) s.(connect_attempts) s.(ping_sent_ms)
    s.(ping_opaque) s.(rtt_ms) s.(rtt_min_ms) v s.(pkts_recv) s.(cfg) s.(channels)
    s.(next_chan_id) s.(chan_pool) s.(chan_used) s.(pool_free) s.(pool_free_top) s.(pool_store)
    s.(events) s.(ev_head) s.(ev_tail) s.(ctrl_buf) s.(ctrl_len).
Definition set_pkts_recv (v : Z) (s : netchan_conn) : netchan_conn :=
    mk_conn s.(local_id) s.(remote_id) s.(server) s.(state) s.(peer_addr) s.(next_pkt_num)
    s.(last_recv_ms) s.(last_send_ms) s.(connect_sent_ms) s.(connect_attempts) s.(ping_sent_ms)
    s.(ping_opaque) s.(rtt_ms) s.(rtt_min_ms) s.(pkts_sent) v s.(cfg) s.(channels)
    s.(next_chan_id) s.(chan_pool) s.(chan_used) s.(pool_free) s.(pool_free_top) s.(pool_store)
    s.(events) s.(ev_head) s.(ev_tail) s.(ctrl_buf) s.(ctrl_len).
Definition set_cfg (v : netchan_cfg) (s : netchan_conn) : netchan_conn :=
    mk_conn s.(local_id) s.(remote_id) s.(server) s.(state) s.(peer_addr) s.(next_pkt_num)
    s.(last_recv_ms) s.(last_send_ms) s.(connect_sent_ms) s.(connect_attempts) s.(ping_sent_ms)
    s.(ping_opaque) s.(rtt_ms) s.(rtt_min_ms) s.(pkts_sent) s.(pkts_recv) v s.(channels)
    s.(next_chan_id) s.(chan_pool) s.(chan_used) s.(pool_free) s.(pool_free_top) s.(pool_store)
    s.(events) s.(ev_head) s.(ev_tail) s.(ctrl_buf) s.(ctrl_len).
Definition set_channels (v : list (option Z)) (s : netchan_conn) : netchan_conn :=
    mk_conn s.(local_id) s.(remote_id) s.(server) s.(state) s.(peer_addr) s.(next_pkt_num)
    s.(last_recv_ms) s.(last_send_ms) s.(connect_sent_ms) s.(connect_attempts) s.(ping_sent_ms)
    s.(ping_opaque) s.(rtt_ms) s.(rtt_min_ms) s.(pkts_sent) s.(pkts_recv) s.(cfg) v
    s.(next_chan_id) s.(chan_pool) s.(chan_used) s.(pool_free) s.(pool_free_top) s.(pool_store)
    s.(events) s.(ev_head) s.(ev_tail) s.(ctrl_buf) s.(ctrl_len).
Definition set_next_chan_id (v : Z) (s : netchan_conn) : netchan_conn :=
    mk_conn s.(local_id) s.(remote_id) s.(server) s.(state) s.(peer_addr) s.(next_pkt_num)
    s.(last_recv_ms) s.(last_send_ms) s.(connect_sent_ms) s.(connect_attempts) s.(ping_sent_ms)
    s.(ping_opaque) s.(rtt_ms) s.(rtt_min_ms) s.(pkts_sent) s.(pkts_recv) s.(cfg) s.(channels)
    v s.(chan_pool) s.(chan_used) s.(pool_free) s.(pool_free_top) s.(pool_store) s.(events)
    s.(ev_head) s.(ev_tail) s.(ctrl_buf) s.(ctrl_len).
Definition set_chan_pool (v : list netchan_chan) (s : netchan_conn) : netchan_conn :=
    mk_conn s.(local_id) s.(remote_id) s.(server) s.(state) s.(peer_addr) s.(next_pkt_num)
    s.(last_recv_ms) s.(last_send_ms) s.(connect_sent_ms) s.(connect_attempts) s.(ping_sent_ms)
    s.(ping_opaque) s.(rtt_ms) s.(rtt_min_ms) s.(pkts_sent) s.(pkts_recv) s.(cfg) s.(channels)
    s.(next_chan_id) v s.(chan_used) s.(pool_free) s.(pool_free_top) s.(pool_store) s.(events)
    s.(ev_head) s.(ev_tail) s.(ctrl_buf) s.(ctrl_len).
Definition set_chan_used (v : list Z) (s : netchan_conn) : netchan_conn :=
    mk_conn s.(local_id) s.(remote_id) s.(server) s.(state) s.(peer_addr) s.(next_pkt_num)
    s.(last_recv_ms) s.(last_send_ms) s.(connect_sent_ms) s.(connect_attempts) s.(ping_sent_ms)
    s.(ping_opaque) s.(rtt_ms) s.(rtt_min_ms) s.(pkts_sent) s.(pkts_recv) s.(cfg) s.(channels)
    s.(next_chan_id) s.(chan_pool) v s.(pool_free) s.(pool_free_top) s.(pool_store) s.(events)
    s.(ev_head) s.(ev_tail) s.(ctrl_buf) s.(ctrl_len).
Definition set_pool_free (v : list Z) (s : netchan_conn) : netchan_conn :=
    mk_conn s.(local_id) s.(remote_id) s.(server) s.(state) s.(peer_addr) s.(next_pkt_num)
    s.(last_recv_ms) s.(last_send_ms) s.(connect_sent_ms) s.(connect_attempts) s.(ping_sent_ms)
    s.(ping_opaque) s.(rtt_ms) s.(rtt_min_ms) s.(pkts_sent) s.(pkts_recv) s.(cfg) s.(channels)
    s.(next_chan_id) s.(chan_pool) s.(chan_used) v s.(pool_free_top) s.(pool_store) s.(events)
    s.(ev_head) s.(ev_tail) s.(ctrl_buf) s.(ctrl_len).
Definition set_pool_free_top (v : Z) (s : netchan_conn) : netchan_conn :=
    mk_conn s.(local_id) s.(remote_id) s.(server) s.(state) s.(peer_addr) s.(next_pkt_num)
    s.(last_recv_ms) s.(last_send_ms) s.(connect_sent_ms) s.(connect_attempts) s.(ping_sent_ms)
    s.(ping_opaque) s.(rtt_ms) s.(rtt_min_ms) s.(pkts_sent) s.(pkts_recv) s.(cfg) s.(channels)
    s.(next_chan_id) s.(chan_pool) s.(chan_used) s.(pool_free) v s.(pool_store) s.(events)
    s.(ev_head) s.(ev_tail) s.(ctrl_buf) s.(ctrl_len).
Definition set_pool_store (v : gmap Z Z) (s : netchan_conn) : netchan_conn :=
    mk_conn s.(local_id) s.(remote_id) s.(server) s.(state) s.(peer_addr) s.(next_pkt_num)
    s.(last_recv_ms) s.(last_send_ms) s.(connect_sent_ms) s.(connect_attempts) s.(ping_sent_ms)
    s.(ping_opaque) s.(rtt_ms) s.(rtt_min_ms) s.(pkts_sent) s.(pkts_recv) s.(cfg) s.(channels)
    s.(next_chan_id) s.(chan_pool) s.(chan_used) s.(pool_free) s.(pool_free_top) v s.(events)
    s.(ev_head) s.(ev_tail) s.(ctrl_buf) s.(ctrl_len).
Definition set_events (v : list netchan_event) (s : netchan_conn) : netchan_conn :=
    mk_conn s.(local_id) s.(remote_id) s.(server) s.(state) s.(peer_addr) s.(next_pkt_num)
    s.(last_recv_ms) s.(last_send_ms) s.(connect_sent_ms) s.(connect_attempts) s.(ping_sent_ms)
    s.(ping_opaque) s.(rtt_ms) s.(rtt_min_ms) s.(pkts_sent) s.(pkts_recv) s.(cfg) s.(channels)
    s.(next_chan_id) s.(chan_pool) s.(chan_used) s.(pool_free) s.(pool_free_top) s.(pool_store)
    v s.(ev_head) s.(ev_tail) s.(ctrl_buf) s.(ctrl_len).
Definition set_ev_head (v : Z) (s : netchan_conn) : netchan_conn :=
    mk_conn s.(local_id) s.(remote_id) s.(server) s.(state) s.(peer_addr) s.(next_pkt_num)
    s.(last_recv_ms) s.(last_send_ms) s.(connect_sent_ms) s.(connect_attempts) s.(ping_sent_ms)
    s.(ping_opaque) s.(rtt_ms) s.(rtt_min_ms) s.(pkts_sent) s.(pkts_recv) s.(cfg) s.(channels)
    s.(next_chan_id) s.(chan_pool) s.(chan_used) s.(pool_free) s.(pool_free_top) s.(pool_store)
    s.(events) v s.(ev_tail) s.(ctrl_buf) s.(ctrl_len).
Definition set_ev_tail (v : Z) (s : netchan_conn) : netchan_conn :=
    mk_conn s.(local_id) s.(remote_id) s.(server) s.(state) s.(peer_addr) s.(next_pkt_num)
    s.(last_recv_ms) s.(last_send_ms) s.(connect_sent_ms) s.(connect_attempts) s.(ping_sent_ms)
    s.(ping_opaque) s.(rtt_ms) s.(rtt_min_ms) s.(pkts_sent) s.(pkts_recv) s.(cfg) s.(channels)
    s.(next_chan_id) s.(chan_pool) s.(chan_used) s.(pool_free) s.(pool_free_top) s.(pool_store)
    s.(events) s.(ev_head) v s.(ctrl_buf) s.(ctrl_len).
Definition set_ctrl_buf (v : list Z) (s : netchan_conn) : netchan_conn :=
    mk_conn s.(local_id) s.(remote_id) s.(server) s.(state) s.(peer_addr) s.(next_pkt_num)
    s.(last_recv_ms) s.(last_send_ms) s.(connect_sent_ms) s.(connect_attempts) s.(ping_sent_ms)
    s.(ping_opaque) s.(rtt_ms) s.(rtt_min_ms) s.(pkts_sent) s.(pkts_recv) s.(cfg) s.(channels)
    s.(next_chan_id) s.(chan_pool) s.(chan_used) s.(pool_free) s.(pool_free_top) s.(pool_store)
    s.(events) s.(ev_head) s.(ev_tail) v s.(ctrl_len).
Definition set_ctrl_len (v : Z) (s : netchan_conn) : netchan_conn :=
    mk_conn s.(local_id) s.(remote_id) s.(server) s.(state) s.(peer_addr) s.(next_pkt_num)
    s.(last_recv_ms) s.(last_send_ms) s.(connect_sent_ms) s.(connect_attempts) s.(ping_sent_ms)
    s.(ping_opaque) s.(rtt_ms) s.(rtt_min_ms) s.(pkts_sent) s.(pkts_recv) s.(cfg) s.(channels)
    s.(next_chan_id) s.(chan_pool) s.(chan_used) s.(pool_free) s.(pool_free_top) s.(pool_store)
    s.(events) s.(ev_head) s.(ev_tail) s.(ctrl_buf) v.


(** ** Zeroed structures *)

Definition zero_addr : nc_addr := mk_addr 0 (replicate 20 0).
Definition zero_event : netchan_event := mk_nev 0 None zero_addr 0.
Definition zero_outgoing : nc_outgoing := mk_out 0 0 0 0 0 0 0 0.
Definition zero_recv_entry : nc_recv_entry := mk_rent 0 0.
Definition zero_reorder : nc_reorder := mk_reord 0 0 0 0.
Definition zero_frag : nc_frag_asm := mk_frag 0 0 0 0 0 (replicate 32 0) 0.
Definition zero_chan : netchan_chan :=
  mk_chan 0 0 0 0 0 (replicate 64 0) 0 0 0 (replicate 64 zero_outgoing) 0 0
    0 0 0 (replicate 64 zero_recv_entry) 0 0 (replicate 64 zero_reorder)
    (replicate 4 zero_frag) 0 0 0 0 0 0 0.
Definition zero_conn : netchan_conn :=
  mk_conn 0 0 0 0 zero_addr 0 0 0 0 0 0 0 0 0 0 0 (mk_cfg 0 0 0 0)
    (replicate 256 None) 0 (replicate 16 zero_chan) (replicate 16 0)
    (replicate 64 0) 0 ∅ (replicate 16 zero_event) 0 0 (replicate 1024 0) 0.
