(* ===== verification/NcOps.v ===== *)
(** * Primitives of netchan: src/netchan-v2/demo/netchan.c, lines 65-390

    Byte order helpers, the clock and the random source, the message-buffer
    pool, the event queue, the control-frame queue and the frame encoders.

    Every operation works on a [world]: the connection object and what the
    process reads from outside it.  An access outside an array is undefined
    behaviour ([None]). *)

From stdpp Require Import gmap.
From S2P Require Import Prelude NcState.

(** ** The world

    [clock n] is the [n]-th reading of the monotonic clock in milliseconds,
    [urandom n] the [n]-th attempt to read four bytes of /dev/urandom ([None]
    when it fails) and [rand_c n] the [n]-th result of [rand()]. *)
Record nc_env : Type := mk_env {
  clock : nat → Z;
  urandom : nat → option Z;
  rand_c : nat → Z
}.

Record world : Type := mk_world {
  conn : netchan_conn;
  env : nc_env;
  n_clock : nat;
  n_urandom : nat;
  n_rand : nat
}.

Definition set_conn (c : netchan_conn) (w : world) : world :=
  mk_world c w.(env) w.(n_clock) w.(n_urandom) w.(n_rand).

Definition getc : M world netchan_conn := mgets conn.
Definition modc (f : netchan_conn → netchan_conn) : M world unit :=
  mmod (λ w, set_conn (f w.(conn)) w).

(** ** Byte I/O helpers, as the bytes written and read *)

Definition wr16 (v : Z) : list Z := [u8 (v >> 8); u8 v].
Definition wr32 (v : Z) : list Z := [u8 (v >> 24); u8 (v >> 16); u8 (v >> 8); u8 v].

Definition rd16 (p : list Z) (i : Z) : option Z :=
  b0 ← aget p i; b1 ← aget p (i + 1);
  Some (u16 ((b0 << 8) .| b1)).

Definition rd32 (p : list Z) (i : Z) : option Z :=
  b0 ← aget p i; b1 ← aget p (i + 1); b2 ← aget p (i + 2); b3 ← aget p (i + 3);
  Some (u32 (b0 << 24) .| (b1 << 16) .| (b2 << 8) .| b3).

(** ** Time and random identifiers *)

Definition nc_now_ms : M world Z := λ w,
  Some (u32 (w.(env).(clock) w.(n_clock)),
        mk_world w.(conn) w.(env) (S w.(n_clock)) w.(n_urandom) w.(n_rand)).

Definition read_urandom : M world (option Z) := λ w,
  Some (w.(env).(urandom) w.(n_urandom),
        mk_world w.(conn) w.(env) w.(n_clock) (S w.(n_urandom)) w.(n_rand)).

Definition rand : M world Z := λ w,
  Some (w.(env).(rand_c) w.(n_rand),
        mk_world w.(conn) w.(env) w.(n_clock) w.(n_urandom) (S w.(n_rand))).

Definition nc_random_id : M world Z :=
  r ← read_urandom;
  let id := match r with Some v => u32 v | None => 0 end in
  id ← (if id =? 0 then
          r1 ← rand; r2 ← rand;
          mret (u32 r1 .^ u32 (u32 r2 << 16))
        else mret id);
  mret (if id =? 0 then 1 else id).

(** ** Message-buffer pool *)

Definition pool_init (c : netchan_conn) : netchan_conn :=
  set_pool_free_top NC_POOL_BUFS (set_pool_free (upto NC_POOL_BUFS) c).

Definition pool_get : M world Z :=
  c ← getc;
  if c.(pool_free_top) =? 0 then mret NC_NOBUF
  else
    let top := c.(pool_free_top) - 1 in
    b ← must (aget c.(pool_free) top);
    modc (set_pool_free_top top);;
    mret b.

Definition pool_put (idx : Z) : M world unit :=
  if idx =? NC_NOBUF then mret tt
  else
    c ← getc;
    free ← must (aset c.(pool_free) c.(pool_free_top) idx);
    modc (set_pool_free free);;
    modc (set_pool_free_top (c.(pool_free_top) + 1)).

(** A pointer into [pool_store] is its offset. *)
Definition pool_ptr (idx : Z) : Z := idx * NC_MAX_MSG.

Definition POOL_SIZE : Z := NC_POOL_BUFS * NC_MAX_MSG.

Definition store_get (m : gmap Z Z) (a : Z) : Z := default 0 (m !! a).

Fixpoint store_read (m : gmap Z Z) (a : Z) (n : nat) : list Z :=
  match n with
  | O => []
  | S n => store_get m a :: store_read m (a + 1) n
  end.

Fixpoint store_write (m : gmap Z Z) (a : Z) (bs : list Z) : gmap Z Z :=
  match bs with
  | [] => m
  | b :: bs => store_write (<[a := b]> m) (a + 1) bs
  end.

(** The [n] bytes at offset [a] of [pool_store], read or written by [memcpy]
    and [memmove]. *)
Definition pool_read (a n : Z) : M world (list Z) :=
  c ← getc;
  if (0 <=? a) && (0 <=? n) && (a + n <=? POOL_SIZE)
  then mret (store_read c.(pool_store) a (Z.to_nat n)) else ub.

Definition pool_write (a : Z) (bs : list Z) : M world unit :=
  if (0 <=? a) && (a + Z.of_nat (length bs) <=? POOL_SIZE)
  then modc (λ c, set_pool_store (store_write c.(pool_store) a bs) c) else ub.

(** The source of a [memcpy]: bytes of the caller, or an offset of the pool,
    which must not overlap the destination. *)
Inductive source : Type :=
  | SrcBytes (bs : list Z)
  | SrcPool (a : Z).

Definition memcpy_pool (dst : Z) (src : source) (n : Z) : M world unit :=
  match src with
  | SrcBytes bs => bs ← must (aslice bs 0 n); pool_write dst bs
  | SrcPool a =>
      if (dst <? a + n) && (a <? dst + n) then ub
      else bs ← pool_read a n; pool_write dst bs
  end.

(** ** Event queue *)

Definition ev_enqueue (e : netchan_event) : M world unit :=
  c ← getc;
  let next := (c.(ev_tail) + 1) mod NC_EVENT_QUEUE in
  if next =? c.(ev_head) then mret tt
  else
    evs ← must (aset c.(events) c.(ev_tail) e);
    modc (set_events evs);;
    modc (set_ev_tail next).

Definition ev_push (type : Z) (ch : option Z) : M world unit :=
  ev_enqueue (mk_nev type ch zero_addr 0).

Definition ev_push_redirect (addr : nc_addr) (conn_id : Z) : M world unit :=
  ev_enqueue (mk_nev NETCHAN_EV_REDIRECT None addr conn_id).

(** ** Control frame queue *)

(** [None] is the NULL result. *)
Definition ctrl_reserve (n : Z) : M world (option Z) :=
  c ← getc;
  if NC_CTRL_BUF_SIZE <? c.(ctrl_len) + n then mret None
  else modc (set_ctrl_len (c.(ctrl_len) + n));; mret (Some c.(ctrl_len)).

(** Reserve room for a frame and write its bytes there, as every [ctrl_*]
    encoder does. *)
Definition ctrl_frame (bs : list Z) : M world unit :=
  p ← ctrl_reserve (Z.of_nat (length bs));
  match p with
  | None => mret tt
  | Some p =>
      c ← getc;
      buf ← must (asplice c.(ctrl_buf) p bs);
      modc (set_ctrl_buf buf)
  end.

(** ** Frame encoding *)

Definition ctrl_connect_init : M world unit :=
  c ← getc;
  ctrl_frame (NC_FRAME_CONNECT_INIT :: wr32 c.(local_id) ++ [NC_VERSION]).

Definition ctrl_connect_accept : M world unit :=
  c ← getc;
  ctrl_frame (NC_FRAME_CONNECT_ACCEPT :: wr32 c.(local_id) ++ NC_VERSION ::
              wr32 c.(cfg).(idle_timeout_ms)).

Definition ctrl_disconnect (reason : Z) : M world unit :=
  ctrl_frame (NC_FRAME_DISCONNECT :: wr16 reason).

Definition ctrl_ping (opaque : Z) : M world unit :=
  ctrl_frame (NC_FRAME_PING :: wr32 opaque).

Definition ctrl_pong (opaque : Z) : M world unit :=
  ctrl_frame (NC_FRAME_PONG :: wr32 opaque).

(** The bytes of a C string before its terminator. *)
Fixpoint c_str (bs : list Z) : list Z :=
  match bs with
  | [] => []
  | b :: bs => if b =? 0 then [] else b :: c_str bs
  end.

Definition ctrl_channel_open (ch : netchan_chan) : M world unit :=
  let ct := c_str ch.(content_type) in
  if Z.of_nat (length ch.(content_type)) <=? Z.of_nat (length ct) then ub  (* no terminator *)
  else
  let ct := take 63 ct in
  ctrl_frame (NC_FRAME_CHANNEL_OPEN :: ch.(ch_id) :: u8 ch.(ch_type) :: u8 ch.(ch_dir) ::
              u8 (Z.of_nat (length ct)) :: ct).

Definition ctrl_channel_close (chan_id error : Z) : M world unit :=
  ctrl_frame (NC_FRAME_CHANNEL_CLOSE :: chan_id :: wr16 error).

Definition ctrl_window_update (chan_id window : Z) : M world unit :=
  ctrl_frame (NC_FRAME_WINDOW_UPDATE :: chan_id :: wr32 window).

(** ** Channels and their slots *)

Definition get_ch (k : Z) : M world netchan_chan := c ← getc; must (aget c.(chan_pool) k).

Definition put_ch (k : Z) (ch : netchan_chan) : M world unit :=
  c ← getc; l ← must (aset c.(chan_pool) k ch); modc (set_chan_pool l).

Definition mod_ch (k : Z) (f : netchan_chan → netchan_chan) : M world unit :=
  ch ← get_ch k; put_ch k (f ch).

Definition get_out (k i : Z) : M world nc_outgoing := ch ← get_ch k; must (aget ch.(outgoing) i).
Definition put_out (k i : Z) (o : nc_outgoing) : M world unit :=
  ch ← get_ch k; l ← must (aset ch.(outgoing) i o); put_ch k (set_outgoing l ch).

Definition get_rent (k i : Z) : M world nc_recv_entry :=
  ch ← get_ch k; must (aget ch.(recv_queue) i).
Definition put_rent (k i : Z) (e : nc_recv_entry) : M world unit :=
  ch ← get_ch k; l ← must (aset ch.(recv_queue) i e); put_ch k (set_recv_queue l ch).

Definition get_reord (k i : Z) : M world nc_reorder := ch ← get_ch k; must (aget ch.(reorder) i).
Definition put_reord (k i : Z) (r : nc_reorder) : M world unit :=
  ch ← get_ch k; l ← must (aset ch.(reorder) i r); put_ch k (set_reorder l ch).

Definition get_frag (k i : Z) : M world nc_frag_asm := ch ← get_ch k; must (aget ch.(frags) i).
Definition put_frag (k i : Z) (f : nc_frag_asm) : M world unit :=
  ch ← get_ch k; l ← must (aset ch.(frags) i f); put_ch k (set_frags l ch).

(** [c->channels[id]] *)
Definition channel (id : Z) : M world (option Z) := c ← getc; must (aget c.(channels) id).
