(* ===== verification/NcProto.v ===== *)
(** * The protocol engine of netchan: src/netchan-v2/demo/netchan.c, lines 391-969

    Channel allocation, in-order delivery, fragment reassembly, the handler of
    every frame type, the frame parser and the check of a migrated address.
    A handler takes the bytes of the packet from its frame on ([p], whose
    length is the [len] of the code) and returns the number of bytes consumed
    or a negative error. *)

From stdpp Require Import gmap.
From S2P Require Import Prelude NcState NcOps.

(** ** Channel helpers *)

(** [cfg.mtu] is an [unsigned], so the subtraction wraps at 32 bits. *)
Definition max_frag_payload (c : netchan_conn) : Z :=
  u32 (c.(cfg).(mtu) - NC_HDR_FULL_SIZE - 8).

Definition chan_reset_bufs (ch : netchan_chan) : netchan_chan :=
  set_frags (map (set_f_buf NC_NOBUF) ch.(frags))
    (set_reorder (map (set_r_buf NC_NOBUF) ch.(reorder))
      (set_recv_queue (map (set_e_buf NC_NOBUF) ch.(recv_queue))
        (set_outgoing (map (set_o_buf NC_NOBUF) ch.(outgoing)) ch))).

(** The first [i] with [chan_used[i] == 0]. *)
Fixpoint first_unused (i : Z) (used : list Z) : option Z :=
  match used with
  | [] => None
  | u :: used => if u =? 0 then Some i else first_unused (i + 1) used
  end.

(** [snprintf(dst, 64, "%s", s)] into a zeroed array of 64 bytes. *)
Definition snprintf64 (s : list Z) : list Z :=
  let t := take 63 (c_str s) in t ++ replicate (64 - length t) 0.

(** [content_type] is [None] for NULL; so is the result when the pool of
    channels is exhausted. *)
Definition chan_new (id type dir role : Z) (content_type : option (list Z)) :
    M world (option Z) :=
  c ← getc;
  match first_unused 0 c.(chan_used) with
  | None => mret None
  | Some slot =>
      put_ch slot (chan_reset_bufs zero_chan);;
      used ← must (aset c.(chan_used) slot 1);
      modc (set_chan_used used);;
      mod_ch slot (set_ch_id id);;
      mod_ch slot (set_ch_type type);;
      mod_ch slot (set_ch_dir dir);;
      mod_ch slot (set_ch_role role);;
      mod_ch slot (set_ch_state 0);;
      match content_type with
      | Some s => mod_ch slot (set_content_type (snprintf64 s))
      | None => mret tt
      end;;
      mod_ch slot (set_send_window 0);;
      mod_ch slot (set_recv_window c.(cfg).(chan_window));;
      l ← must (aset c.(channels) id (Some slot));
      modc (set_channels l);;
      mret (Some slot)
  end.

(** [ch] is [None] for NULL. *)
Definition chan_free (ch : option Z) : M world unit :=
  match ch with
  | None => mret tt
  | Some k =>
      mfor (upto NC_OUTGOING_SLOTS) (λ i,
        o ← get_out k i;
        if nz o.(o_active) then pool_put o.(o_buf) else mret tt);;
      mfor (upto NC_RECV_QUEUE) (λ i, e ← get_rent k i; pool_put e.(e_buf));;
      mfor (upto NC_REORDER_SLOTS) (λ i, r ← get_reord k i; pool_put r.(r_buf));;
      mfor (upto NC_FRAG_SLOTS) (λ i, f ← get_frag k i; pool_put f.(f_buf));;
      ch ← get_ch k;
      c ← getc;
      l ← must (aset c.(channels) ch.(ch_id) None);
      modc (set_channels l);;
      used ← must (aset c.(chan_used) k 0);
      modc (set_chan_used used)
  end.

Definition chan_recv_enqueue (k : Z) (data : source) (len : Z) : M world Z :=
  ch ← get_ch k;
  let next := (ch.(rq_tail) + 1) mod NC_RECV_QUEUE in
  if next =? ch.(rq_head) then mret NETCHAN_ERR
  else if NC_MAX_MSG <? len then mret NETCHAN_ERR_TOOBIG
  else
    b ← pool_get;
    if b =? NC_NOBUF then mret NETCHAN_ERR_NOMEM
    else
      memcpy_pool (pool_ptr b) data len;;
      put_rent k ch.(rq_tail) (mk_rent b len);;
      mod_ch k (set_rq_tail next);;
      mod_ch k (λ ch, set_recv_buffered (u32 (ch.(recv_buffered) + len)) ch);;
      mod_ch k (λ ch, set_msgs_recv (u32 (ch.(msgs_recv) + 1)) ch);;
      mret NETCHAN_OK.

(** Every iteration clears one slot of [reorder], so 65 iterations are
    enough; running out of them counts as undefined. *)
Fixpoint deliver_loop (fuel : nat) (k : Z) : M world unit :=
  match fuel with
  | O => ub
  | S fuel =>
      ch ← get_ch k;
      let slot := ch.(recv_seq) mod NC_REORDER_SLOTS in
      r ← get_reord k slot;
      if negb (nz r.(r_valid)) || negb (r.(r_seq) =? ch.(recv_seq)) then mret tt
      else
        _ ← chan_recv_enqueue k (SrcPool (pool_ptr r.(r_buf))) r.(r_len);
        ev_push NETCHAN_EV_DATA (Some k);;
        pool_put r.(r_buf);;
        put_reord k slot (set_r_valid 0 (set_r_buf NC_NOBUF r));;
        mod_ch k (λ ch, set_recv_seq (u16 (ch.(recv_seq) + 1)) ch);;
        deliver_loop fuel k
  end.

Definition chan_deliver_reordered (k : Z) : M world unit := deliver_loop 65 k.

(** ** Fragment reassembly: a [struct nc_frag_asm *] is its index in [frags] *)

Fixpoint find_frag (i : Z) (seq : Z) (fs : list nc_frag_asm) : option Z :=
  match fs with
  | [] => None
  | f :: fs => if nz f.(f_active) && (f.(f_seq) =? seq) then Some i
               else find_frag (i + 1) seq fs
  end.

Definition frag_find (k seq : Z) : M world (option Z) :=
  ch ← get_ch k; mret (find_frag 0 seq ch.(frags)).

Fixpoint first_inactive (i : Z) (fs : list nc_frag_asm) : option Z :=
  match fs with
  | [] => None
  | f :: fs => if nz f.(f_active) then first_inactive (i + 1) fs else Some i
  end.

Definition frag_alloc (k seq total : Z) : M world (option Z) :=
  if NC_MAX_FRAGS <? total then mret None
  else
    ch ← get_ch k;
    match first_inactive 0 ch.(frags) with
    | None => mret None
    | Some i =>
        b ← pool_get;
        if b =? NC_NOBUF then mret None
        else put_frag k i (mk_frag seq total 0 0 b (replicate 32 0) 1);; mret (Some i)
    end.

Definition frag_free (k i : Z) : M world unit :=
  f ← get_frag k i;
  pool_put f.(f_buf);;
  put_frag k i (set_f_buf NC_NOBUF zero_frag).

(** The loop that compacts the fragments of a message in place; the result
    is the length of the message. *)
Definition frag_compact (base fp total : Z) (offsets : list Z) : M world Z :=
  mloop (upto total) (λ i pos,
    n ← must (aget offsets i);
    (if pos =? i * fp then mret tt
     else bs ← pool_read (base + i * fp) n; pool_write (base + pos) bs);;
    mret (inl (pos + n))) 0.

(** ** Frame processing *)

Definition process_connect_init (p : list Z) : M world Z :=
  if Z.of_nat (length p) <? 6 then mret NETCHAN_ERR_PROTO
  else
    c ← getc;
    if negb (nz c.(server)) then mret NETCHAN_ERR_PROTO
    else
      client_id ← must (rd32 p 1);
      version ← must (aget p 5);
      if negb (version =? NC_VERSION) then mret NETCHAN_ERR_PROTO
      else
        modc (set_remote_id client_id);;
        (if c.(state) =? NETCHAN_STATE_NEW then
           id ← nc_random_id;
           modc (set_local_id id);;
           modc (set_state NETCHAN_STATE_CONNECTING)
         else mret tt);;
        mret 6.

Definition process_connect_accept (p : list Z) : M world Z :=
  if Z.of_nat (length p) <? 10 then mret NETCHAN_ERR_PROTO
  else
    c ← getc;
    if nz c.(server) then mret NETCHAN_ERR_PROTO
    else
      server_id ← must (rd32 p 1);
      modc (set_remote_id server_id);;
      modc (set_state NETCHAN_STATE_CONNECTED);;
      ev_push NETCHAN_EV_CONNECTED None;;
      mret 10.

(** [a] is the array of 20 zero bytes with [bs] at its start. *)
Definition redirect_addr (len : Z) (bs : list Z) : nc_addr :=
  mk_addr len (bs ++ replicate (20 - length bs) 0).

Definition process_connect_redirect (p : list Z) : M world Z :=
  if Z.of_nat (length p) <? 12 then mret NETCHAN_ERR_PROTO
  else
    new_id ← must (rd32 p 1);
    addr_type ← must (aget p 5);
    if addr_type =? 4 then
      ip ← must (aslice p 6 4);
      port ← must (aslice p 10 2);
      ev_push_redirect (redirect_addr 7 (4 :: ip ++ port)) new_id;;
      mret 12
    else if addr_type =? 6 then
      if Z.of_nat (length p) <? 24 then mret NETCHAN_ERR_PROTO
      else
        ip ← must (aslice p 6 16);
        port ← must (aslice p 22 2);
        ev_push_redirect (redirect_addr 19 (6 :: ip ++ port)) new_id;;
        mret 24
    else mret NETCHAN_ERR_PROTO.

Definition process_disconnect (p : list Z) : M world Z :=
  if Z.of_nat (length p) <? 3 then mret NETCHAN_ERR_PROTO
  else
    modc (set_state NETCHAN_STATE_CLOSED);;
    ev_push NETCHAN_EV_DISCONNECTED None;;
    mret 3.

Definition process_ping (p : list Z) : M world Z :=
  if Z.of_nat (length p) <? 5 then mret NETCHAN_ERR_PROTO
  else
    opaque ← must (rd32 p 1);
    ctrl_pong opaque;;
    mret 5.

Definition process_pong (p : list Z) : M world Z :=
  if Z.of_nat (length p) <? 5 then mret NETCHAN_ERR_PROTO
  else
    opaque ← must (rd32 p 1);
    c ← getc;
    (if (opaque =? c.(ping_opaque)) && nz c.(ping_sent_ms) then
       now ← nc_now_ms;
       let rtt := u32 (now - c.(ping_sent_ms)) in
       modc (set_rtt_ms rtt);;
       (if (c.(rtt_min_ms) =? 0) || (rtt <? c.(rtt_min_ms))
        then modc (set_rtt_min_ms rtt) else mret tt);;
       modc (set_ping_sent_ms 0)
     else mret tt);;
    mret 5.

Definition process_channel_open (p : list Z) : M world Z :=
  if Z.of_nat (length p) <? 5 then mret NETCHAN_ERR_PROTO
  else
    chan_id ← must (aget p 1);
    type ← must (aget p 2);
    dir ← must (aget p 3);
    ct_len ← must (aget p 4);
    if Z.of_nat (length p) <? 5 + ct_len then mret NETCHAN_ERR_PROTO
    else
      old ← channel chan_id;
      match old with
      | Some _ => ctrl_channel_close chan_id 1;; mret (5 + ct_len)
      | None =>
          let local_role := if dir =? NETCHAN_DIR_SEND then 1 else 0 in
          bs ← (if 0 <? ct_len then must (aslice p 5 (if ct_len <? 63 then ct_len else 63))
                else mret []);
          let ct := bs ++ replicate (64 - length bs) 0 in
          ch ← chan_new chan_id type dir local_role (Some ct);
          match ch with
          | None => ctrl_channel_close chan_id 1;; mret (5 + ct_len)
          | Some k =>
              mod_ch k (set_ch_state 1);;
              (if local_role =? 1 then
                 ch ← get_ch k;
                 ctrl_window_update chan_id ch.(recv_window)
               else mret tt);;
              ev_push NETCHAN_EV_CHAN_OPEN (Some k);;
              mret (5 + ct_len)
          end
      end.

Definition process_channel_close (p : list Z) : M world Z :=
  if Z.of_nat (length p) <? 4 then mret NETCHAN_ERR_PROTO
  else
    chan_id ← must (aget p 1);
    ch ← channel chan_id;
    match ch with
    | Some k => mod_ch k (set_ch_state 3);; ev_push NETCHAN_EV_CHAN_CLOSE (Some k)
    | None => mret tt
    end;;
    mret 4.

(** The code that both kinds of channel run for a fragment: find or allocate
    its reassembly slot, store the payload, and once every fragment is there
    compact them.  The result is then the slot, the start of its buffer and
    the length of the message. *)
Definition frag_store (k seq frag_idx frag_total : Z) (payload : list Z) (data_len : Z) :
    M world (option (Z * Z * Z)) :=
  found ← frag_find k seq;
  f ← match found with Some i => mret (Some i) | None => frag_alloc k seq frag_total end;
  match f with
  | None => mret None
  | Some i =>
      f ← get_frag k i;
      if (frag_idx <? f.(f_total)) && negb (nz (f.(f_bitmask) .& (1 << frag_idx))) then
        c ← getc;
        let fp := max_frag_payload c in
        let off := frag_idx * fp in
        if off + data_len <=? NC_MAX_MSG then
          memcpy_pool (pool_ptr f.(f_buf) + off) (SrcBytes payload) data_len;;
          offs ← must (aset f.(f_offsets) frag_idx data_len);
          let f := set_f_have (u8 (f.(f_have) + 1))
                     (set_f_bitmask (f.(f_bitmask) .| (1 << frag_idx))
                       (set_f_offsets offs f)) in
          put_frag k i f;;
          if f.(f_have) =? f.(f_total) then
            let base := pool_ptr f.(f_buf) in
            pos ← frag_compact base fp f.(f_total) f.(f_offsets);
            mret (Some (i, base, pos))
          else mret None
        else mret None
      else mret None
  end.

(** A complete message of a reliable channel: delivered if it is the next
    one, kept in [reorder] if it is ahead by less than 64. *)
Definition reliable_deliver (k seq : Z) (data : source) (len : Z) : M world unit :=
  ch ← get_ch k;
  if seq =? ch.(recv_seq) then
    _ ← chan_recv_enqueue k data len;
    ev_push NETCHAN_EV_DATA (Some k);;
    mod_ch k (λ ch, set_recv_seq (u16 (ch.(recv_seq) + 1)) ch);;
    chan_deliver_reordered k
  else
    let diff := s16 (seq - ch.(recv_seq)) in
    if (0 <? diff) && (diff <? NC_REORDER_SLOTS) then
      let slot := seq mod NC_REORDER_SLOTS in
      r ← get_reord k slot;
      if negb (nz r.(r_valid)) && (len <=? NC_MAX_MSG) then
        b ← pool_get;
        if b =? NC_NOBUF then mret tt
        else
          memcpy_pool (pool_ptr b) data len;;
          put_reord k slot (mk_reord seq b len 1)
      else mret tt
    else mret tt.

Definition process_data (p : list Z) : M world Z :=
  if Z.of_nat (length p) <? 8 then mret NETCHAN_ERR_PROTO
  else
    chan_id ← must (aget p 1);
    seq ← must (rd16 p 2);
    data_len ← must (rd16 p 4);
    frag_idx ← must (aget p 6);
    frag_total ← must (aget p 7);
    if Z.of_nat (length p) <? 8 + data_len then mret NETCHAN_ERR_PROTO
    else
      let payload := drop 8 p in
      ch ← channel chan_id;
      match ch with
      | None => mret (8 + data_len)
      | Some k =>
          ch ← get_ch k;
          if negb (ch.(ch_role) =? 1) then mret (8 + data_len)
          else if ch.(ch_type) =? NETCHAN_UNRELIABLE then
            (if frag_total <=? 1 then
               _ ← chan_recv_enqueue k (SrcBytes payload) data_len;
               ev_push NETCHAN_EV_DATA (Some k)
             else
               r ← frag_store k seq frag_idx frag_total payload data_len;
               match r with
               | None => mret tt
               | Some (i, base, pos) =>
                   _ ← chan_recv_enqueue k (SrcPool base) pos;
                   ev_push NETCHAN_EV_DATA (Some k);;
                   frag_free k i
               end);;
            mret (8 + data_len)
          else
            (if frag_total <=? 1 then
               reliable_deliver k seq (SrcBytes payload) data_len
             else
               r ← frag_store k seq frag_idx frag_total payload data_len;
               match r with
               | None => mret tt
               | Some (i, base, pos) =>
                   reliable_deliver k seq (SrcPool base) pos;;
                   frag_free k i
               end);;
            mod_ch k (set_need_ack 1);;
            mod_ch k (λ ch, set_ack_seq (if 0 <? ch.(recv_seq) then ch.(recv_seq) - 1 else 0) ch);;
            mret (8 + data_len)
      end.

(** [while (out_head != out_tail && !outgoing[out_head].active) ...]; the
    head meets the tail within 63 steps. *)
Fixpoint advance_head (fuel : nat) (k : Z) : M world unit :=
  match fuel with
  | O => ub
  | S fuel =>
      ch ← get_ch k;
      if ch.(out_head) =? ch.(out_tail) then mret tt
      else
        o ← get_out k ch.(out_head);
        if nz o.(o_active) then mret tt
        else
          mod_ch k (λ ch, set_out_head ((ch.(out_head) + 1) mod NC_OUTGOING_SLOTS) ch);;
          advance_head fuel k
  end.

Definition ack_slot (k acked_seq i : Z) : M world unit :=
  o ← get_out k i;
  if negb (nz o.(o_active)) then mret tt
  else
    let diff := s16 (o.(o_seq) - acked_seq) in
    if diff <=? 0 then
      mod_ch k (λ ch, set_bytes_in_flight (u32 (ch.(bytes_in_flight) - o.(o_len))) ch);;
      mod_ch k (λ ch, set_msgs_acked (u32 (ch.(msgs_acked) + 1)) ch);;
      pool_put o.(o_buf);;
      put_out k i (set_o_active 0 (set_o_buf NC_NOBUF o))
    else mret tt.

Definition process_ack (p : list Z) : M world Z :=
  if Z.of_nat (length p) <? 4 then mret NETCHAN_ERR_PROTO
  else
    chan_id ← must (aget p 1);
    acked_seq ← must (rd16 p 2);
    ch ← channel chan_id;
    match ch with
    | None => mret 4
    | Some k =>
        ch ← get_ch k;
        if negb (ch.(ch_role) =? 0) then mret 4
        else
          mfor (upto NC_OUTGOING_SLOTS) (ack_slot k acked_seq);;
          advance_head 65 k;;
          mret 4
    end.

Definition process_window_update (p : list Z) : M world Z :=
  if Z.of_nat (length p) <? 6 then mret NETCHAN_ERR_PROTO
  else
    chan_id ← must (aget p 1);
    window ← must (rd32 p 2);
    ch ← channel chan_id;
    match ch with
    | None => mret 6
    | Some k =>
        ch ← get_ch k;
        (if ch.(ch_role) =? 0 then
           mod_ch k (set_send_window window);;
           (if ch.(ch_state) =? 0 then mod_ch k (set_ch_state 1) else mret tt)
         else mret tt);;
        mret 6
    end.

(** ** Packet parsing *)

(** The [switch] of the parser; [ftype] is the first byte of [p]. *)
Definition process_frame (ftype : Z) (p : list Z) : M world Z :=
  if ftype =? NC_FRAME_CONNECT_INIT then process_connect_init p
  else if ftype =? NC_FRAME_CONNECT_ACCEPT then process_connect_accept p
  else if ftype =? NC_FRAME_CONNECT_REDIRECT then process_connect_redirect p
  else if ftype =? NC_FRAME_DISCONNECT then process_disconnect p
  else if ftype =? NC_FRAME_PING then process_ping p
  else if ftype =? NC_FRAME_PONG then process_pong p
  else if ftype =? NC_FRAME_CHANNEL_OPEN then process_channel_open p
  else if ftype =? NC_FRAME_CHANNEL_CLOSE then process_channel_close p
  else if ftype =? NC_FRAME_DATA then process_data p
  else if ftype =? NC_FRAME_ACK then process_ack p
  else if ftype =? NC_FRAME_WINDOW_UPDATE then process_window_update p
  else mret NETCHAN_ERR_PROTO.

(** [data] is what is left of the packet ([data + pos], [len - pos]).  Every
    iteration consumes at least one byte. *)
Fixpoint parse_loop (fuel : nat) (data : list Z) : M world Z :=
  match fuel with
  | O => ub
  | S fuel =>
      match data with
      | [] => mret NETCHAN_OK
      | b :: rest =>
          if b =? NC_FRAME_PADDING then parse_loop fuel rest
          else
            consumed ← process_frame b data;
            if consumed <? 0 then mret consumed
            else parse_loop fuel (drop (Z.to_nat consumed) data)
      end
  end.

Definition parse_frames (data : list Z) : M world Z := parse_loop (S (length data)) data.

(** ** Connection migration validation *)

(** The loop body of the code always ends in [return] or [break]. *)
Definition validate_migration (c : netchan_conn) (frames : list Z) : option bool :=
  match frames with
  | [] => Some false
  | ftype :: _ =>
      let len := Z.of_nat (length frames) in
      let known := chan_id ← aget frames 1; ch ← aget c.(channels) chan_id;
                   Some (match ch with Some _ => true | None => false end) in
      d ← (if (ftype =? NC_FRAME_DATA) && (4 <=? len) then known else Some false);
      if d : bool then Some true
      else if (ftype =? NC_FRAME_ACK) && (2 <=? len) then known else Some false
  end.
