(* ===== verification/NcApi.v ===== *)
(** * The public interface of netchan: src/netchan-v2/demo/netchan.c, lines 970-1519

    Configuration, the life of a connection, packet input and output, timers,
    channels, events and statistics. *)

From stdpp Require Import gmap.
From S2P Require Import Prelude NcState NcOps NcProto.

Definition netchan_cfg_default : netchan_cfg :=
  mk_cfg NC_DEFAULT_MTU NC_DEFAULT_WINDOW NC_DEFAULT_IDLE_MS NC_DEFAULT_RT_MS.

(** ** Connection lifecycle *)

(** [alloc] tells whether [calloc] succeeds; [None] is the NULL result. *)
Definition netchan_open (alloc : bool) (srv : Z) : option netchan_conn :=
  if negb alloc then None
  else
    let c := set_server srv zero_conn in
    let c := set_state NETCHAN_STATE_NEW c in
    let c := set_next_chan_id (if nz srv then 1 else 0) c in
    let c := set_rtt_ms 100 c in
    let c := pool_init c in
    Some (set_cfg netchan_cfg_default c).

(** Up to the [free] of the connection itself. *)
Definition netchan_close : M world unit :=
  c ← getc;
  (if c.(state) =? NETCHAN_STATE_CONNECTED then ctrl_disconnect 0 else mret tt);;
  mfor (upto NC_MAX_CHANNELS) (λ i, ch ← channel i; chan_free ch).

Definition netchan_config (v : netchan_cfg) : M world unit := modc (set_cfg v).
Definition netchan_state : M world Z := c ← getc; mret c.(state).
Definition netchan_id : M world Z := c ← getc; mret c.(local_id).

Definition netchan_connect (addr : nc_addr) : M world Z :=
  c ← getc;
  if nz c.(server) then mret NETCHAN_ERR
  else if negb (c.(state) =? NETCHAN_STATE_NEW) then mret NETCHAN_ERR
  else
    id ← nc_random_id;
    modc (set_local_id id);;
    modc (set_peer_addr addr);;
    modc (set_state NETCHAN_STATE_CONNECTING);;
    ctrl_connect_init;;
    now ← nc_now_ms;
    modc (set_connect_sent_ms now);;
    modc (set_connect_attempts 1);;
    mret NETCHAN_OK.

Definition netchan_accept : M world Z :=
  c ← getc;
  if negb (nz c.(server)) then mret NETCHAN_ERR
  else if negb (c.(state) =? NETCHAN_STATE_CONNECTING) then mret NETCHAN_ERR
  else
    ctrl_connect_accept;;
    modc (set_state NETCHAN_STATE_CONNECTED);;
    ev_push NETCHAN_EV_CONNECTED None;;
    mret NETCHAN_OK.

(** ** Packet input *)

(** The outer [None] is undefined behaviour. *)
Definition netchan_peek_id (pkt : list Z) : option Z :=
  if Z.of_nat (length pkt) <? NC_HDR_INIT_SIZE then Some 0 else rd32 pkt 1.

(** [from->len != peer.len || memcmp(from->a, peer.a, from->len) != 0] *)
Definition addr_differs (a b : nc_addr) : option bool :=
  if negb (a.(a_len) =? b.(a_len)) then Some true
  else
    x ← aslice a.(a_a) 0 a.(a_len);
    y ← aslice b.(a_a) 0 a.(a_len);
    Some (negb (bool_decide (x = y))).

(** [from] is [None] for NULL. *)
Definition netchan_feed (pkt : list Z) (from : option nc_addr) : M world Z :=
  if Z.of_nat (length pkt) <? NC_HDR_INIT_SIZE then mret NETCHAN_ERR_PROTO
  else
    flags ← must (aget pkt 0);
    conn_id ← must (rd32 pkt 1);
    let init := nz (flags .& NC_PKT_FLAG_INIT) in
    if negb init && (Z.of_nat (length pkt) <? NC_HDR_FULL_SIZE) then mret NETCHAN_ERR_PROTO
    else
      let frames := drop (if init then 5 else 7)%nat pkt in
      c ← getc;
      if negb init && negb (conn_id =? c.(local_id)) then mret NETCHAN_ERR_PROTO
      else
        match from with
        | Some a =>
            if (0 <? a.(a_len)) && (0 <? c.(peer_addr).(a_len)) &&
               (c.(state) =? NETCHAN_STATE_CONNECTED) then
              d ← must (addr_differs a c.(peer_addr));
              if d : bool then
                v ← must (validate_migration c frames);
                if v : bool then modc (set_peer_addr a) else mret tt
              else mret tt
            else mret tt
        | None => mret tt
        end;;
        c ← getc;
        match from with
        | Some a =>
            if (c.(peer_addr).(a_len) =? 0) && (0 <? a.(a_len))
            then modc (set_peer_addr a) else mret tt
        | None => mret tt
        end;;
        now ← nc_now_ms;
        modc (set_last_recv_ms now);;
        modc (λ c, set_pkts_recv (u32 (c.(pkts_recv) + 1)) c);;
        parse_frames frames.

(** ** Packet output *)

(** The slots from [idx] up to [tail] of the ring; [fuel] is the 64 slots. *)
Fixpoint next_sendable (fuel : nat) (outs : list nc_outgoing) (idx tail : Z) :
    option (option Z) :=
  match fuel with
  | O => None
  | S fuel =>
      if idx =? tail then Some None
      else
        o ← aget outs idx;
        if nz o.(o_active) && (o.(o_frag_sent) <? o.(o_frag_total)) then Some (Some idx)
        else next_sendable fuel outs ((idx + 1) mod NC_OUTGOING_SLOTS) tail
  end.

(** The outer [None] is undefined behaviour, the inner one the NULL result. *)
Definition chan_next_sendable (ch : netchan_chan) : option (option Z) :=
  next_sendable 65 ch.(outgoing) ch.(out_head) ch.(out_tail).

(** [p] is the part of the caller's buffer written so far, of [buflen] bytes. *)
Definition emit (buflen : Z) (p bs : list Z) : M world (list Z) :=
  if Z.of_nat (length p + length bs) <=? buflen then mret (p ++ bs) else ub.

(** The scan of the channels for something to send. *)
Definition has_data : M world bool :=
  c ← getc;
  if 0 <? c.(ctrl_len) then mret true
  else
    b1 ← mloop (upto NC_MAX_CHANNELS) (λ i b,
      ch ← channel i;
      match ch with
      | None => mret (inl b)
      | Some k =>
          ch ← get_ch k;
          if negb (ch.(ch_role) =? 0) then mret (inl b)
          else
            s ← (if ch.(ch_state) =? 1 then must (chan_next_sendable ch) else mret None);
            let b := match s with Some _ => true | None => b end in
            mret (inl (if nz ch.(need_ack) || nz ch.(need_window_update) then true else b))
      end) false;
    mloop (upto NC_MAX_CHANNELS) (λ i b,
      ch ← channel i;
      match ch with
      | None => mret (inl b)
      | Some k =>
          ch ← get_ch k;
          if negb (ch.(ch_role) =? 1) then mret (inl b)
          else mret (inl (if nz ch.(need_ack) || nz ch.(need_window_update) then true else b))
      end) b1.

(** Flush the control frames that fit. *)
Definition flush_ctrl (buflen mtu : Z) (p : list Z) : M world (list Z) :=
  c ← getc;
  if 0 <? c.(ctrl_len) then
    let avail := u64 (mtu - Z.of_nat (length p)) in
    let n := if c.(ctrl_len) <? avail then c.(ctrl_len) else avail in
    bs ← must (aslice c.(ctrl_buf) 0 n);
    p ← emit buflen p bs;
    (if n <? c.(ctrl_len) then
       rest ← must (aslice c.(ctrl_buf) n (c.(ctrl_len) - n));
       buf ← must (asplice c.(ctrl_buf) 0 rest);
       modc (set_ctrl_buf buf);;
       modc (set_ctrl_len (c.(ctrl_len) - n))
     else modc (set_ctrl_len 0));;
    mret p
  else mret p.

(** Flush the pending acknowledgement and window update of channel [i]. *)
Definition flush_chan (buflen mtu i : Z) (p : list Z) : M world (list Z + list Z) :=
  if negb (Z.of_nat (length p) + 6 <=? mtu) then mret (inr p)
  else
    ch ← channel i;
    match ch with
    | None => mret (inl p)
    | Some k =>
        ch ← get_ch k;
        p ← (if nz ch.(need_ack) && (Z.of_nat (length p) + 4 <=? mtu) then
               p ← emit buflen p (NC_FRAME_ACK :: ch.(ch_id) :: wr16 ch.(ack_seq));
               mod_ch k (set_need_ack 0);;
               mret p
             else mret p);
        p ← (if nz ch.(need_window_update) && (Z.of_nat (length p) + 6 <=? mtu) then
               let window := if ch.(recv_buffered) <? ch.(recv_window)
                             then ch.(recv_window) - ch.(recv_buffered) else 0 in
               p ← emit buflen p (NC_FRAME_WINDOW_UPDATE :: ch.(ch_id) :: wr32 window);
               mod_ch k (set_need_window_update 0);;
               mret p
             else mret p);
        mret (inl p)
    end.

(** Send one fragment of channel [i]. *)
Definition send_data (buflen mtu i : Z) (p : list Z) : M world (list Z + list Z) :=
  if negb (Z.of_nat (length p) + 9 <=? mtu) then mret (inr p)
  else
    ch ← channel i;
    match ch with
    | None => mret (inl p)
    | Some k =>
        ch ← get_ch k;
        if negb (ch.(ch_role) =? 0) || negb (ch.(ch_state) =? 1) then mret (inl p)
        else
          s ← must (chan_next_sendable ch);
          match s with
          | None => mret (inl p)
          | Some j =>
              o ← get_out k j;
              c ← getc;
              let frag_payload := max_frag_payload c in
              let avail := mtu - Z.of_nat (length p) - 8 in
              if avail =? 0 then mret (inr p)
              else
                let fi := o.(o_frag_sent) in
                let offset := fi * frag_payload in
                let dlen := u64 (o.(o_len) - offset) in
                let dlen := if frag_payload <? dlen then frag_payload else dlen in
                if avail <? dlen then mret (inr p)
                else
                  p ← emit buflen p (NC_FRAME_DATA :: ch.(ch_id) :: wr16 o.(o_seq) ++
                                     wr16 dlen ++ [fi; o.(o_frag_total)]);
                  bs ← pool_read (pool_ptr o.(o_buf) + offset) dlen;
                  p ← emit buflen p bs;
                  now ← nc_now_ms;
                  let o := set_o_sent_ms now (set_o_frag_sent (u8 (o.(o_frag_sent) + 1)) o) in
                  let o := if o.(o_attempts) =? 0 then set_o_attempts 1 o else o in
                  put_out k j o;;
                  (if (o.(o_frag_total) <=? o.(o_frag_sent)) &&
                      (ch.(ch_type) =? NETCHAN_UNRELIABLE) then
                     pool_put o.(o_buf);;
                     put_out k j (set_o_active 0 (set_o_buf NC_NOBUF o));;
                     advance_head 65 k
                   else mret tt);;
                  mret (inl p)
          end
    end.

(** [to] tells whether the caller passes an address to fill.  The result is
    the byte count, the bytes of the packet and the address written. *)
Definition netchan_send_next (buflen : Z) (to : bool) :
    M world (Z * list Z * option nc_addr) :=
  h ← has_data;
  if negb h then mret (0, [], None)
  else
    c ← getc;
    let is_init := (c.(state) =? NETCHAN_STATE_CONNECTING) && negb (nz c.(server)) in
    let hdr_size := if is_init then NC_HDR_INIT_SIZE else NC_HDR_FULL_SIZE in
    if buflen <? hdr_size then mret (0, [], None)
    else
      p ← (if is_init then mret (NC_PKT_FLAG_INIT :: wr32 c.(local_id))
           else
             modc (set_next_pkt_num (u16 (c.(next_pkt_num) + 1)));;
             mret (NC_PKT_FLAG_PKTNUM :: wr32 c.(remote_id) ++ wr16 c.(next_pkt_num)));
      let mtu := c.(cfg).(mtu) in
      let mtu := if buflen <? mtu then buflen else mtu in
      p ← flush_ctrl buflen mtu p;
      p ← mloop (upto NC_MAX_CHANNELS) (flush_chan buflen mtu) p;
      p ← mloop (upto NC_MAX_CHANNELS) (send_data buflen mtu) p;
      c ← getc;
      now ← nc_now_ms;
      modc (set_last_send_ms now);;
      modc (λ c, set_pkts_sent (u32 (c.(pkts_sent) + 1)) c);;
      mret (Z.of_nat (length p), p, if to then Some c.(peer_addr) else None).

(** ** Timers *)

(** [if (next_ms < 0 || remain < next_ms) next_ms = remain;] *)
Definition earlier (next_ms remain : Z) : Z :=
  if (next_ms <? 0) || (remain <? next_ms) then remain else next_ms.

(** The handshake retry; [inr] is the early return. *)
Definition service_connect (now_ms next_ms : Z) : M world (Z + Z) :=
  c ← getc;
  if (c.(state) =? NETCHAN_STATE_CONNECTING) && negb (nz c.(server)) then
    let elapsed := u32 (now_ms - c.(connect_sent_ms)) in
    r ← (if NC_CONNECT_RETRY_MS <=? elapsed then
           if NC_CONNECT_RETRIES <=? c.(connect_attempts) then
             modc (set_state NETCHAN_STATE_CLOSED);;
             ev_push NETCHAN_EV_DISCONNECTED None;;
             mret true
           else
             ctrl_connect_init;;
             modc (set_connect_sent_ms now_ms);;
             modc (λ c, set_connect_attempts (u8 (c.(connect_attempts) + 1)) c);;
             mret false
         else mret false);
    if r : bool then mret (inr (-1))
    else
      let remain := s32 (NC_CONNECT_RETRY_MS - elapsed) in
      let remain := if remain <? 0 then 0 else remain in
      mret (inl (earlier next_ms remain))
  else mret (inl next_ms).

(** The idle timeout. *)
Definition service_idle (now_ms next_ms : Z) : M world (Z + Z) :=
  c ← getc;
  if (c.(state) =? NETCHAN_STATE_CONNECTED) && (0 <? c.(last_recv_ms)) then
    let idle := u32 (now_ms - c.(last_recv_ms)) in
    if c.(cfg).(idle_timeout_ms) <=? idle then
      modc (set_state NETCHAN_STATE_CLOSED);;
      ev_push NETCHAN_EV_DISCONNECTED None;;
      mret (inr (-1))
    else
      let remain := s32 (c.(cfg).(idle_timeout_ms) - idle) in
      mret (inl (earlier next_ms remain))
  else mret (inl next_ms).

(** The keepalive ping. *)
Definition service_ping (now_ms next_ms : Z) : M world Z :=
  c ← getc;
  if (c.(state) =? NETCHAN_STATE_CONNECTED) && (0 <? c.(last_send_ms)) then
    let since_send := u32 (now_ms - c.(last_send_ms)) in
    (if (NC_PING_INTERVAL_MS <=? since_send) && (c.(ping_sent_ms) =? 0) then
       id ← nc_random_id;
       modc (set_ping_opaque id);;
       ctrl_ping id;;
       modc (set_ping_sent_ms now_ms)
     else mret tt);;
    if since_send <? NC_PING_INTERVAL_MS then
      mret (earlier next_ms (NC_PING_INTERVAL_MS - since_send))
    else mret next_ms
  else mret next_ms.

(** Slot [j] of channel [k]; [inr] leaves the loop over the slots.  A shift by
    [attempts - 1] outside [0, 31] is undefined. *)
Definition service_slot (now_ms k j next_ms : Z) : M world (Z + Z) :=
  c ← getc;
  o ← get_out k j;
  if negb (nz o.(o_active)) || (o.(o_sent_ms) =? 0) then mret (inl next_ms)
  else if negb ((0 <=? o.(o_attempts) - 1) && (o.(o_attempts) - 1 <? 32)) then ub
  else
    let timeout := u32 (c.(cfg).(retransmit_ms) << (o.(o_attempts) - 1)) in
    let timeout := if NC_MAX_RT_MS <? timeout then NC_MAX_RT_MS else timeout in
    let elapsed := u32 (now_ms - o.(o_sent_ms)) in
    if timeout <=? elapsed then
      if NC_MAX_RT_ATTEMPTS <=? o.(o_attempts) then
        mod_ch k (set_ch_state 3);;
        ev_push NETCHAN_EV_CHAN_CLOSE (Some k);;
        mret (inr next_ms)
      else
        put_out k j (set_o_attempts (u8 (o.(o_attempts) + 1))
                       (set_o_sent_ms now_ms (set_o_frag_sent 0 o)));;
        mod_ch k (λ ch, set_retransmissions (u32 (ch.(retransmissions) + 1)) ch);;
        mret (inl next_ms)
    else mret (inl (earlier next_ms (timeout - elapsed))).

(** The retransmissions of channel [i]. *)
Definition service_chan (now_ms i next_ms : Z) : M world (Z + Z) :=
  ch ← channel i;
  match ch with
  | None => mret (inl next_ms)
  | Some k =>
      ch ← get_ch k;
      if negb (ch.(ch_role) =? 0) || negb (ch.(ch_type) =? NETCHAN_RELIABLE)
      then mret (inl next_ms)
      else n ← mloop (upto NC_OUTGOING_SLOTS) (service_slot now_ms k) next_ms; mret (inl n)
  end.

Definition netchan_service (now_ms : Z) : M world Z :=
  r ← service_connect now_ms (-1);
  match r with
  | inr v => mret v
  | inl next_ms =>
      r ← service_idle now_ms next_ms;
      match r with
      | inr v => mret v
      | inl next_ms =>
          next_ms ← service_ping now_ms next_ms;
          mloop (upto NC_MAX_CHANNELS) (service_chan now_ms) next_ms
      end
  end.

(** ** Channels: a [struct netchan_chan *] is the index of the channel, or
    [None] for NULL where the code tests for it *)

Definition netchan_chan_open (type dir : Z) (content_type : option (list Z)) :
    M world (option Z) :=
  c ← getc;
  if negb (c.(state) =? NETCHAN_STATE_CONNECTED) then mret None
  else
    let id := c.(next_chan_id) in
    old ← channel id;
    match old with
    | Some _ => mret None
    | None =>
        modc (set_next_chan_id (u8 (id + 2)));;
        let local_role := if dir =? NETCHAN_DIR_SEND then 0 else 1 in
        r ← chan_new id type dir local_role content_type;
        match r with
        | None => mret None
        | Some k =>
            ch ← get_ch k;
            ctrl_channel_open ch;;
            (if local_role =? 1 then
               ctrl_window_update id ch.(recv_window);;
               mod_ch k (set_ch_state 1)
             else mret tt);;
            mret (Some k)
        end
    end.

Definition netchan_chan_close (ch : option Z) : M world unit :=
  match ch with
  | None => mret tt
  | Some k =>
      ch ← get_ch k;
      if 2 <=? ch.(ch_state) then mret tt
      else ctrl_channel_close ch.(ch_id) 0;; mod_ch k (set_ch_state 2)
  end.

Definition netchan_chan_id (k : Z) : M world Z := ch ← get_ch k; mret ch.(ch_id).
Definition netchan_chan_type (k : Z) : M world Z := ch ← get_ch k; mret ch.(ch_type).
Definition netchan_chan_state (k : Z) : M world Z := ch ← get_ch k; mret ch.(ch_state).

Definition netchan_chan_write (ch : option Z) (data : list Z) : M world Z :=
  match ch with
  | None => mret NETCHAN_ERR
  | Some k =>
      let len := Z.of_nat (length data) in
      ch ← get_ch k;
      if negb (ch.(ch_role) =? 0) then mret NETCHAN_ERR
      else if ch.(ch_state) =? 3 then mret NETCHAN_ERR_CLOSED
      else if len =? 0 then mret 0
      else if NC_MAX_MSG <? len then mret NETCHAN_ERR_TOOBIG
      else if (ch.(ch_type) =? NETCHAN_RELIABLE) && (ch.(ch_state) =? 1) &&
              (ch.(send_window) <? ch.(bytes_in_flight) + len) then mret NETCHAN_ERR_FLOW
      else
        let next := (ch.(out_tail) + 1) mod NC_OUTGOING_SLOTS in
        if next =? ch.(out_head) then mret NETCHAN_ERR_AGAIN
        else
          b ← pool_get;
          if b =? NC_NOBUF then mret NETCHAN_ERR_NOMEM
          else
            memcpy_pool (pool_ptr b) (SrcBytes data) len;;
            let seq := ch.(send_seq) in
            mod_ch k (set_send_seq (u16 (seq + 1)));;
            c ← getc;
            let frag_payload := max_frag_payload c in
            if frag_payload =? 0 then ub  (* division by zero *)
            else
              let frag_total := u8 (u64 (len + frag_payload - 1) / frag_payload) in
              let frag_total := if frag_total =? 0 then 1 else frag_total in
              if NC_MAX_FRAGS <? frag_total then
                pool_put b;;
                put_out k ch.(out_tail) (set_o_buf NC_NOBUF zero_outgoing);;
                mret NETCHAN_ERR_TOOBIG
              else
                put_out k ch.(out_tail) (mk_out seq b len 0 0 0 frag_total 1);;
                (if ch.(ch_type) =? NETCHAN_RELIABLE then
                   mod_ch k (λ ch, set_bytes_in_flight (u32 (ch.(bytes_in_flight) + len)) ch)
                 else mret tt);;
                mod_ch k (λ ch, set_msgs_sent (u32 (ch.(msgs_sent) + 1)) ch);;
                mod_ch k (set_out_tail next);;
                mret len
  end.

(** The result is the byte count and the bytes copied to the caller. *)
Definition netchan_chan_read (ch : option Z) (buflen : Z) : M world (Z * list Z) :=
  match ch with
  | None => mret (NETCHAN_ERR, [])
  | Some k =>
      ch ← get_ch k;
      if negb (ch.(ch_role) =? 1) then mret (NETCHAN_ERR, [])
      else if ch.(rq_head) =? ch.(rq_tail) then mret (0, [])
      else
        e ← get_rent k ch.(rq_head);
        let n := if e.(e_len) <? buflen then e.(e_len) else buflen in
        bs ← pool_read (pool_ptr e.(e_buf)) n;
        pool_put e.(e_buf);;
        put_rent k ch.(rq_head) (mk_rent NC_NOBUF 0);;
        mod_ch k (set_rq_head ((ch.(rq_head) + 1) mod NC_RECV_QUEUE));;
        mod_ch k (λ ch, set_recv_buffered (u32 (ch.(recv_buffered) - n)) ch);;
        mod_ch k (set_need_window_update 1);;
        mret (s32 n, bs)
  end.

(** ** Events: [ev] is what the caller's structure holds, [None] for NULL *)

Definition netchan_poll (ev : option netchan_event) : M world (Z * option netchan_event) :=
  c ← getc;
  if c.(ev_head) =? c.(ev_tail) then
    mret (0, match ev with
             | Some e => Some (mk_nev NETCHAN_EV_NONE e.(ev_ch) e.(ev_redirect_addr)
                                 e.(ev_redirect_conn_id))
             | None => None
             end)
  else
    ev ← match ev with
         | Some _ => e ← must (aget c.(events) c.(ev_head)); mret (Some e)
         | None => mret None
         end;
    modc (set_ev_head ((c.(ev_head) + 1) mod NC_EVENT_QUEUE));;
    mret (1, ev).

(** ** Statistics *)

Record netchan_conn_stats_t : Type := mk_cstats {
  st_rtt_ms : Z;
  st_rtt_min_ms : Z;
  st_pkts_sent : Z;
  st_pkts_recv : Z
}.

Record netchan_chan_stats_t : Type := mk_chstats {
  st_msgs_sent : Z;
  st_msgs_acked : Z;
  st_retransmissions : Z;
  st_msgs_recv : Z
}.

Definition netchan_conn_stats : M world netchan_conn_stats_t :=
  c ← getc; mret (mk_cstats c.(rtt_ms) c.(rtt_min_ms) c.(pkts_sent) c.(pkts_recv)).

Definition netchan_chan_stats (k : Z) : M world netchan_chan_stats_t :=
  ch ← get_ch k;
  mret (mk_chstats ch.(msgs_sent) ch.(msgs_acked) ch.(retransmissions) ch.(msgs_recv)).
