(* ===== verification/NcInv.v ===== *)
(** * The invariant of a netchan connection

    What every operation of src/netchan-v2/demo/netchan.c relies on and keeps:
    the shape of the arrays and rings, the state of every slot, and the
    ownership of the message buffers.  Each of the 64 buffers of the pool is
    either on the free stack or held by exactly one slot of one channel; the
    invariant counts the holders of each buffer.

    An operation on one channel opens the invariant ([open_chan]), works on
    that channel's record while the rest of the connection is described by
    [CInv], and closes it again ([close_chan]). *)

From stdpp Require Import gmap.
From S2P Require Import Prelude NcState NcOps NcProto NcApi.

(** ** Sums over lists and counts *)

Fixpoint sumf {A} (f : A → Z) (l : list A) : Z :=
  match l with [] => 0 | x :: l => f x + sumf f l end.

Definition cnt (b x : Z) : Z := Z.b2z (x =? b).

(** [i] is one of the positions from [head] up to [tail] of a ring of [n]. *)
Definition in_ring (n head tail i : Z) : Prop :=
  (i - head) mod n < (tail - head) mod n.

(** ** Slots *)

Definition buf_ok (b : Z) : Prop := 0 <= b < 64.

Definition out_ok (fp head tail i : Z) (o : nc_outgoing) : Prop :=
  (o.(o_active) = 0 ∧ o.(o_buf) = -1) ∨
  (o.(o_active) = 1 ∧ buf_ok o.(o_buf) ∧ 0 < o.(o_len) <= 2048 ∧
   1 <= o.(o_frag_total) <= 32 ∧ (o.(o_frag_total) - 1) * fp < o.(o_len) ∧
   0 <= o.(o_frag_sent) <= o.(o_frag_total) ∧ 0 <= o.(o_attempts) <= 5 ∧
   (o.(o_sent_ms) ≠ 0 → 1 <= o.(o_attempts)) ∧ in_ring 64 head tail i).

Definition rent_ok (head tail i : Z) (e : nc_recv_entry) : Prop :=
  (¬ in_ring 64 head tail i ∧ e.(e_buf) = -1) ∨
  (in_ring 64 head tail i ∧ buf_ok e.(e_buf) ∧ 0 <= e.(e_len) <= 2048).

Definition reord_ok (i : Z) (r : nc_reorder) : Prop :=
  (r.(r_valid) = 0 ∧ r.(r_buf) = -1) ∨
  (r.(r_valid) = 1 ∧ buf_ok r.(r_buf) ∧ 0 <= r.(r_len) <= 2048 ∧
   in16 r.(r_seq) ∧ r.(r_seq) mod 64 = i).

Definition bits32 (m : Z) : Z := sumf (λ i, Z.b2z (Z.testbit m i)) (upto 32).

(** The fragments present do not overlap: fragment [i] lies inside
    [i * fp, (i + 1) * fp) and inside the buffer. *)
Definition frag_ok (fp : Z) (f : nc_frag_asm) : Prop :=
  (f.(f_active) = 0 ∧ f.(f_buf) = -1) ∨
  (f.(f_active) = 1 ∧ buf_ok f.(f_buf) ∧ 2 <= f.(f_total) <= 32 ∧
   length f.(f_offsets) = 32%nat ∧ f.(f_have) = bits32 f.(f_bitmask) ∧
   (∀ i, 0 <= i < 32 → Z.testbit f.(f_bitmask) i = true →
      i < f.(f_total) ∧
      ∃ n, f.(f_offsets) !! Z.to_nat i = Some n ∧ 0 <= n <= fp ∧ i * fp + n <= 2048)).

(** ** Channels *)

Definition all {A} (P : Z → A → Prop) (l : list A) : Prop :=
  ∀ i x, l !! i = Some x → P (Z.of_nat i) x.

Record chan_ok (fp : Z) (ch : netchan_chan) : Prop := {
  ok_outgoing : length ch.(outgoing) = 64%nat;
  ok_recv_queue : length ch.(recv_queue) = 64%nat;
  ok_reorder : length ch.(reorder) = 64%nat;
  ok_frags : length ch.(frags) = 4%nat;
  ok_out_head : 0 <= ch.(out_head) < 64;
  ok_out_tail : 0 <= ch.(out_tail) < 64;
  ok_rq_head : 0 <= ch.(rq_head) < 64;
  ok_rq_tail : 0 <= ch.(rq_tail) < 64;
  ok_recv_seq : in16 ch.(recv_seq);
  ok_id : in8 ch.(ch_id);
  ok_content : (length (c_str ch.(content_type)) < length ch.(content_type))%nat;
  ok_content_bytes : Forall in8 ch.(content_type);
  ok_outs : all (out_ok fp ch.(out_head) ch.(out_tail)) ch.(outgoing);
  ok_rents : all (rent_ok ch.(rq_head) ch.(rq_tail)) ch.(recv_queue);
  ok_reords : all reord_ok ch.(reorder);
  ok_frs : all (λ _, frag_ok fp) ch.(frags)
}.

(** How many slots of the channel hold buffer [b]. *)
Definition owned (b : Z) (ch : netchan_chan) : Z :=
  sumf (λ o, cnt b o.(o_buf)) ch.(outgoing) + sumf (λ e, cnt b e.(e_buf)) ch.(recv_queue) +
  sumf (λ r, cnt b r.(r_buf)) ch.(reorder) + sumf (λ f, cnt b f.(f_buf)) ch.(frags).

Definition contrib (b : Z) (ch : netchan_chan) (u : Z) : Z := if u =? 0 then 0 else owned b ch.

(** ** The connection *)

Definition free_bufs (c : netchan_conn) : list Z := take (Z.to_nat c.(pool_free_top)) c.(pool_free).

(** How many holders buffer [b] has. *)
Definition held (b : Z) (c : netchan_conn) : Z :=
  sumf (cnt b) (free_bufs c) + sumf id (zip_with (contrib b) c.(chan_pool) c.(chan_used)).

Definition addr_ok (a : nc_addr) : Prop := length a.(a_a) = 20%nat ∧ 0 <= a.(a_len) <= 20.

Definition live (c : netchan_conn) (j : Z) : Prop :=
  0 <= j < 16 ∧ c.(chan_used) !! Z.to_nat j = Some 1.

(** What does not concern the contents of the channels. *)
Record conn_ok (fp : Z) (c : netchan_conn) : Prop := {
  ok_fp : max_frag_payload c = fp;
  ok_mtu : 16 <= c.(cfg).(mtu) < 2 ^ 32;
  ok_channels : length c.(channels) = 256%nat;
  ok_chan_pool : length c.(chan_pool) = 16%nat;
  ok_chan_used : length c.(chan_used) = 16%nat;
  ok_pool_free : length c.(pool_free) = 64%nat;
  ok_top : 0 <= c.(pool_free_top) <= 64;
  ok_free_bufs : Forall buf_ok (free_bufs c);
  ok_store : ∀ a v, c.(pool_store) !! a = Some v → in8 v;
  ok_events : length c.(events) = 16%nat;
  ok_ev_head : 0 <= c.(ev_head) < 16;
  ok_ev_tail : 0 <= c.(ev_tail) < 16;
  ok_ev_live : ∀ e j, e ∈ c.(events) → e.(ev_ch) = Some j → live c j;
  ok_ctrl_buf : length c.(ctrl_buf) = 1024%nat;
  ok_ctrl_bytes : Forall in8 c.(ctrl_buf);
  ok_ctrl_len : 0 <= c.(ctrl_len) <= 1024;
  ok_next_id : in8 c.(next_chan_id);
  ok_table : ∀ i j, c.(channels) !! i = Some (Some j) → live c j;
  ok_peer : addr_ok c.(peer_addr)
}.

(** The state of the whole connection. *)
Record Inv (fp : Z) (c : netchan_conn) : Prop := {
  inv_conn : conn_ok fp c;
  inv_chans : ∀ j ch, live c j → c.(chan_pool) !! Z.to_nat j = Some ch → chan_ok fp ch;
  inv_ids : ∀ i j ch, c.(channels) !! i = Some (Some j) →
              c.(chan_pool) !! Z.to_nat j = Some ch → ch.(ch_id) = Z.of_nat i;
  inv_held : ∀ b, buf_ok b → held b c = 1
}.

(** The connection around channel [k], whose identifier is [idk]: [t b] counts
    the holders of [b] outside that channel. *)
Record CInv (fp k idk : Z) (t : Z → Z) (c : netchan_conn) : Prop := {
  ci_conn : conn_ok fp c;
  ci_live : live c k;
  ci_chans : ∀ j ch, j ≠ k → live c j → c.(chan_pool) !! Z.to_nat j = Some ch → chan_ok fp ch;
  ci_ids : ∀ i j ch, c.(channels) !! i = Some (Some j) →
             c.(chan_pool) !! Z.to_nat j = Some ch → j ≠ k → ch.(ch_id) = Z.of_nat i;
  ci_self : ∀ i, c.(channels) !! i = Some (Some k) → idk = Z.of_nat i;
  ci_held : ∀ b ch, buf_ok b → c.(chan_pool) !! Z.to_nat k = Some ch →
              held b c - owned b ch = t b
}.

(** The connection with channel [k] replaced. *)
Definition with_ch (k : Z) (ch : netchan_chan) (c : netchan_conn) : netchan_conn :=
  set_chan_pool (<[Z.to_nat k := ch]> c.(chan_pool)) c.

Definition upd (k : Z) (ch : netchan_chan) (w : world) : world :=
  set_conn (with_ch k ch w.(conn)) w.

(** ** Lemmas on sums *)

Lemma sumf_insert {A} (f : A → Z) (l : list A) i x y :
  l !! i = Some x → sumf f (<[i := y]> l) = sumf f l - f x + f y.
Proof.
  revert i. induction l as [|z l IH]; intros [|i] H; simplify_eq/=; [lia|].
  rewrite IH by done. lia.
Qed.

Lemma sumf_app {A} (f : A → Z) (l l' : list A) : sumf f (l ++ l') = sumf f l + sumf f l'.
Proof. induction l; simpl; lia. Qed.

Lemma sumf_nonneg {A} (f : A → Z) (l : list A) : (∀ x, 0 <= f x) → 0 <= sumf f l.
Proof. intros Hf. induction l as [|x l IH]; simpl; [lia|]. specialize (Hf x). lia. Qed.

Lemma sumf_elem {A} (f : A → Z) (l : list A) i x :
  (∀ x, 0 <= f x) → l !! i = Some x → f x <= sumf f l.
Proof.
  intros Hf. revert i. induction l as [|y l IH]; intros [|i] H; simplify_eq/=.
  - pose proof (sumf_nonneg f l Hf). lia.
  - specialize (IH i H). specialize (Hf y). lia.
Qed.

Lemma sumf_elem_le (l : list Z) i x : Forall (Z.le 0) l → l !! i = Some x → x <= sumf id l.
Proof.
  intros Hl. revert i. induction Hl as [|y l Hy Hl IH]; intros [|i] H; simplify_eq/=; unfold id.
  - assert (0 <= sumf id l) by (clear IH; induction Hl; simpl; unfold id in *; lia).
    unfold id in *. lia.
  - specialize (IH i H). unfold id in *. lia.
Qed.

Lemma sumf_zero {A} (f : A → Z) (l : list A) : (∀ x, x ∈ l → f x = 0) → sumf f l = 0.
Proof.
  induction l as [|x l IH]; intros Hf; simpl; [done|].
  rewrite Hf, IH by set_solver. done.
Qed.

Lemma cnt_nonneg b x : 0 <= cnt b x.
Proof. unfold cnt. destruct (_ =? _); simpl; lia. Qed.

Lemma cnt_nobuf b : buf_ok b → cnt b (-1) = 0.
Proof. unfold cnt, buf_ok. intros. destruct (Z.eqb_spec (-1) b); [lia|done]. Qed.

Lemma cnt_self b : cnt b b = 1.
Proof. unfold cnt. by rewrite Z.eqb_refl. Qed.

Lemma cnt_01 b x : cnt b x = 0 ∨ (cnt b x = 1 ∧ x = b).
Proof. unfold cnt. destruct (Z.eqb_spec x b); auto. Qed.

Lemma owned_nonneg b ch : 0 <= owned b ch.
Proof.
  unfold owned.
  pose proof (sumf_nonneg (λ o, cnt b o.(o_buf)) ch.(outgoing) (λ _, cnt_nonneg _ _)).
  pose proof (sumf_nonneg (λ e, cnt b e.(e_buf)) ch.(recv_queue) (λ _, cnt_nonneg _ _)).
  pose proof (sumf_nonneg (λ r, cnt b r.(r_buf)) ch.(reorder) (λ _, cnt_nonneg _ _)).
  pose proof (sumf_nonneg (λ f, cnt b f.(f_buf)) ch.(frags) (λ _, cnt_nonneg _ _)).
  lia.
Qed.

Lemma contrib_nonneg b ch u : 0 <= contrib b ch u.
Proof. unfold contrib. case_match; [lia|apply owned_nonneg]. Qed.

(** ** Frames: what leaves the channels and the free stack alone *)

Record Same (c c' : netchan_conn) : Prop := {
  same_channels : c'.(channels) = c.(channels);
  same_chan_pool : c'.(chan_pool) = c.(chan_pool);
  same_chan_used : c'.(chan_used) = c.(chan_used);
  same_pool_free : c'.(pool_free) = c.(pool_free);
  same_top : c'.(pool_free_top) = c.(pool_free_top);
  same_cfg : c'.(cfg) = c.(cfg)
}.

Lemma Same_refl c : Same c c.
Proof. by constructor. Qed.

Lemma Same_trans c1 c2 c3 : Same c1 c2 → Same c2 c3 → Same c1 c3.
Proof. intros [] []. constructor; congruence. Qed.

Lemma held_same b c c' : Same c c' → held b c' = held b c.
Proof. intros []. unfold held, free_bufs. congruence. Qed.

Lemma live_same c c' j : Same c c' → live c j → live c' j.
Proof. unfold live. intros [] []. split; [done|congruence]. Qed.

Lemma live_same' c c' j : Same c c' → live c' j → live c j.
Proof. unfold live. intros [] []. split; [done|congruence]. Qed.

Lemma Inv_same fp c c' : Inv fp c → Same c c' → conn_ok fp c' → Inv fp c'.
Proof.
  intros [H1 H2 H3 H4] Hs Hc. pose proof Hs as [E1 E2 _ _ _ _]. constructor; [done|..].
  - intros j ch Hl. rewrite E2. eauto using live_same'.
  - intros i j ch. rewrite E1, E2. eauto.
  - intros b Hb. rewrite (held_same _ _ _ Hs). auto.
Qed.

Lemma CInv_same fp k idk t c c' : CInv fp k idk t c → Same c c' → conn_ok fp c' → CInv fp k idk t c'.
Proof.
  intros [H1 Hl H2 H3 H4 H5] Hs Hc. pose proof Hs as [E1 E2 _ _ _ _].
  constructor; eauto using live_same.
  - intros j ch Hne Hj. rewrite E2. eauto using live_same'.
  - intros i j ch. rewrite E1, E2. eauto.
  - intros i. rewrite E1. eauto.
  - intros b ch Hb. rewrite E2, (held_same _ _ _ Hs). auto.
Qed.

(** ** Channel [k] taken out of the connection *)

Lemma conn_ok_with_ch fp k ch c : conn_ok fp c → conn_ok fp (with_ch k ch c).
Proof. intros []. constructor; try done. simpl. by rewrite length_insert. Qed.

Lemma conn_ok_without_ch fp k ch c : conn_ok fp (with_ch k ch c) → conn_ok fp c.
Proof.
  intros []. constructor; try done. by rewrite <-(length_insert c.(chan_pool) (Z.to_nat k) ch).
Qed.

Lemma pool_slot fp c j : conn_ok fp c → live c j → ∃ ch, c.(chan_pool) !! Z.to_nat j = Some ch.
Proof.
  intros Hc [? _]. pose proof (ok_chan_pool _ _ Hc).
  destruct (lookup_lt_is_Some_2 c.(chan_pool) (Z.to_nat j)); [lia|eauto].
Qed.

Lemma with_ch_id k ch c : c.(chan_pool) !! Z.to_nat k = Some ch → with_ch k ch c = c.
Proof. intros H. unfold with_ch, set_chan_pool. rewrite list_insert_id by done. by destruct c. Qed.

Lemma upd_id k ch w : w.(conn).(chan_pool) !! Z.to_nat k = Some ch → upd k ch w = w.
Proof. intros H. unfold upd. rewrite with_ch_id by done. by destruct w. Qed.

Lemma upd_upd k ch ch' w : upd k ch (upd k ch' w) = upd k ch w.
Proof. unfold upd, with_ch, set_chan_pool, set_conn. simpl. by rewrite list_insert_insert_eq. Qed.

Lemma sumf_zip {A B} (f : A → B → Z) (l : list A) (l' : list B) i x y z u :
  l !! i = Some x → l' !! i = Some y →
  sumf id (zip_with f (<[i := z]> l) (<[i := u]> l')) =
    sumf id (zip_with f l l') - f x y + f z u.
Proof.
  intros Hx Hy. rewrite <-insert_zip_with. rewrite (sumf_insert id _ _ (f x y)); [done|].
  rewrite lookup_zip_with, Hx, Hy. done.
Qed.

Lemma held_with_ch b k ch ch' c :
  c.(chan_used) !! Z.to_nat k = Some 1 → c.(chan_pool) !! Z.to_nat k = Some ch →
  held b (with_ch k ch' c) = held b c - owned b ch + owned b ch'.
Proof.
  intros Hu Hc. unfold held. simpl.
  rewrite <-(list_insert_id c.(chan_used) (Z.to_nat k) 1) at 1 by done.
  rewrite (sumf_zip _ _ _ _ ch 1) by done. unfold contrib. simpl. unfold free_bufs. simpl. lia.
Qed.

Lemma CInv_with_ch fp k idk t ch c : CInv fp k idk t c → CInv fp k idk t (with_ch k ch c).
Proof.
  intros [H1 Hl H2 H3 H4 H5]. destruct (pool_slot _ _ _ H1 Hl) as [ch0 H0].
  destruct Hl as [Hk Hu]. constructor; [by apply conn_ok_with_ch|done|..]; simpl.
  - intros j ch' Hne Hj. destruct (decide (Z.to_nat j = Z.to_nat k)).
    { destruct Hj. lia. }
    rewrite list_lookup_insert_ne by done. eauto.
  - intros i j ch' Hi Hch Hne. apply (H3 i j ch' Hi); [|done].
    rewrite list_lookup_insert_ne in Hch; [done|].
    destruct (ok_table _ _ H1 i j Hi). lia.
  - done.
  - intros b ch' Hb Hch. rewrite list_lookup_insert_eq in Hch by (by eapply lookup_lt_Some).
    simplify_eq. rewrite (held_with_ch _ _ ch0) by done. specialize (H5 b ch0 Hb H0). lia.
Qed.

(** Opening and closing the invariant around a channel. *)
Lemma open_chan fp k c :
  Inv fp c → live c k →
  ∃ ch t, c.(chan_pool) !! Z.to_nat k = Some ch ∧ chan_ok fp ch ∧ CInv fp k ch.(ch_id) t c ∧
    (∀ b, buf_ok b → t b + owned b ch = 1).
Proof.
  intros [H1 H2 H3 H4] Hl. destruct (pool_slot _ _ _ H1 Hl) as [ch Hch].
  exists ch, (λ b, 1 - owned b ch). split_and!; [done|eauto| |intros; lia].
  constructor; eauto.
  intros b ch' Hb Hch'. simplify_eq. rewrite H4 by done. done.
Qed.

Lemma close_chan fp k idk t ch c :
  CInv fp k idk t c → chan_ok fp ch → ch.(ch_id) = idk → (∀ b, buf_ok b → t b + owned b ch = 1) →
  Inv fp (with_ch k ch c).
Proof.
  intros HC Hok Hid Ht. apply (CInv_with_ch _ _ _ _ ch) in HC as [H1 Hl H2 H3 H4 H5].
  destruct (pool_slot _ _ _ H1 Hl) as [ch' Hch'].
  assert (ch' = ch) as ->.
  { simpl in Hch'. pose proof (lookup_lt_Some _ _ _ Hch') as Hlt. rewrite length_insert in Hlt.
    rewrite list_lookup_insert_eq in Hch' by done. congruence. }
  constructor; [done|..].
  - intros j ch' Hj E. destruct (decide (j = k)) as [->|]; [congruence|eauto].
  - intros i j ch' Hi E. destruct (decide (j = k)) as [->|]; [|eauto].
    specialize (H4 i Hi). congruence.
  - intros b Hb. specialize (H5 b ch Hb Hch'). specialize (Ht b Hb). lia.
Qed.

(** ** Operations that do not look at the channels *)

Definition commutes {A} (m : M world A) : Prop := ∀ k ch w,
  m (upd k ch w) = match m w with Some (a, w') => Some (a, upd k ch w') | None => None end.

Lemma wp_upd {A} (m : M world A) k ch (Q : A → world → Prop) w :
  commutes m → wp m (λ a w', Q a (upd k ch w')) w → wp m Q (upd k ch w).
Proof. intros Hm. unfold wp. rewrite Hm. by destruct (m w) as [[]|]. Qed.

Lemma commutes_ret {A} (a : A) : commutes (mret a).
Proof. done. Qed.

Lemma commutes_bind {A B} (m : M world A) (f : A → M world B) :
  commutes m → (∀ a, commutes (f a)) → commutes (m ≫= f).
Proof.
  intros Hm Hf k ch w. unfold mbind, M_bind. rewrite Hm. destruct (m w) as [[a w']|]; [|done]. apply Hf.
Qed.

Lemma commutes_must {A} (o : option A) : commutes (must o).
Proof. by destruct o. Qed.

Lemma commutes_now : commutes nc_now_ms.
Proof. done. Qed.

Ltac commute :=
  intros ? ? ?; unfold mbind, M_bind, getc, mgets, modc, mmod, must; simpl;
  repeat (case_match; simplify_eq/=; try done); try done.

Lemma commutes_pool_get : commutes pool_get.
Proof. unfold pool_get. commute. Qed.

Lemma commutes_pool_put b : commutes (pool_put b).
Proof. unfold pool_put. commute. Qed.

Lemma commutes_pool_read a n : commutes (pool_read a n).
Proof. unfold pool_read. commute. Qed.

Lemma commutes_pool_write a bs : commutes (pool_write a bs).
Proof. unfold pool_write. commute. Qed.

Lemma commutes_ev_push ty ch : commutes (ev_push ty ch).
Proof. unfold ev_push, ev_enqueue. commute. Qed.

Lemma commutes_ctrl_frame bs : commutes (ctrl_frame bs).
Proof.
  intros k ch w. unfold ctrl_frame, ctrl_reserve, mbind, M_bind, getc, mgets, modc, mmod, must. simpl.
  destruct (_ <? _); simpl; [done|]. by destruct (asplice _ _ _).
Qed.

(** ** The pool *)

Lemma free_bufs_pop c : length c.(pool_free) = 64%nat → 0 < c.(pool_free_top) <= 64 →
  ∃ b, aget c.(pool_free) (c.(pool_free_top) - 1) = Some b ∧
    free_bufs c = free_bufs (set_pool_free_top (c.(pool_free_top) - 1) c) ++ [b].
Proof.
  intros Hl Ht. destruct (aget_in c.(pool_free) (c.(pool_free_top) - 1)) as (b & E & E'); [lia|].
  exists b. split; [done|]. unfold free_bufs. simpl.
  replace (Z.to_nat c.(pool_free_top)) with (S (Z.to_nat (c.(pool_free_top) - 1))) by lia.
  by apply take_S_r.
Qed.

(** [t] with [d] more holders of [b]. *)
Definition bump (t : Z → Z) (b d : Z) : Z → Z := λ x, t x + d * cnt x b.

Lemma pool_get_ok fp k idk t w :
  CInv fp k idk t w.(conn) →
  wp pool_get (λ b w', (b = -1 ∧ w' = w ∧ w.(conn).(pool_free_top) = 0) ∨
    (buf_ok b ∧ 1 <= t b ∧ CInv fp k idk (bump t b (-1)) w'.(conn) ∧
     w'.(conn).(pool_free_top) = w.(conn).(pool_free_top) - 1 ∧
     w'.(conn).(cfg) = w.(conn).(cfg) ∧ w'.(conn).(pool_store) = w.(conn).(pool_store))) w.
Proof.
  intros HC. pose proof (ci_conn _ _ _ _ _ HC) as Hc. unfold pool_get, getc.
  apply wp_bind, wp_gets, wp_if; intros E; [left; split_and!; [done..|lia]|].
  pose proof (ok_top _ _ Hc). pose proof (ok_pool_free _ _ Hc) as Hlen.
  destruct (free_bufs_pop w.(conn)) as (b & Eb & Ef); [done|lia|].
  apply wp_bind, (wp_must _ b); [done|]. apply wp_bind, wp_mod, wp_ret. right.
  set (c' := set_pool_free_top (w.(conn).(pool_free_top) - 1) w.(conn)) in *.
  pose proof (ok_free_bufs _ _ Hc) as Hf. rewrite Ef in Hf. apply Forall_app in Hf as [Hf Hb].
  apply Forall_cons_1 in Hb as [Hb _].
  assert (Hheld : ∀ x, held x c' = held x w.(conn) - cnt x b).
  { intros x. unfold held. rewrite Ef, sumf_app. simpl. lia. }
  split; [done|]. split; [|split; [|done]].
  - destruct (pool_slot _ _ _ Hc (ci_live _ _ _ _ _ HC)) as [ch Hch].
    pose proof (ci_held _ _ _ _ _ HC b ch Hb Hch) as <-.
    pose proof (sumf_nonneg (cnt b) (free_bufs c') (cnt_nonneg b)).
    assert (owned b ch <= sumf id (zip_with (contrib b) (chan_pool w.(conn)) (chan_used w.(conn)))).
    { apply (sumf_elem_le _ (Z.to_nat k)).
      - apply Forall_lookup. intros i x. rewrite lookup_zip_with.
        intros (? & _ & (? & _ & [= <-])%bind_Some)%bind_Some. apply contrib_nonneg.
      - rewrite lookup_zip_with, Hch. by rewrite (proj2 (ci_live _ _ _ _ _ HC)). }
    unfold held. rewrite Ef, sumf_app. simpl. rewrite cnt_self. lia.
  - destruct HC as [H1 Hl H2 H3 H4 H5]. constructor; try done.
    + destruct H1. constructor; try done. simpl. lia.
    + intros x ch Hx Hch. simpl. fold c'. rewrite Hheld. specialize (H5 x ch Hx Hch).
      unfold bump. lia.
Qed.

Lemma sumf_cnt_elem b (l : list Z) : b ∈ l → 1 <= sumf (cnt b) l.
Proof.
  intros (i & Hi)%list_elem_of_lookup. rewrite <-(cnt_self b).
  by apply (sumf_elem _ _ i); [apply cnt_nonneg|].
Qed.

(** A list of buffers without repetition that misses one is short. *)
Lemma NoDup_cnt (l : list Z) :
  Forall buf_ok l → (∀ b, buf_ok b → sumf (cnt b) l <= 1) → NoDup l.
Proof.
  induction l as [|b l IH]; intros Hl Hc; [constructor|].
  apply Forall_cons in Hl as [Hb Hl]. constructor.
  - intros H. pose proof (sumf_cnt_elem b l H). specialize (Hc b Hb). simpl in Hc.
    rewrite cnt_self in Hc. lia.
  - apply IH; [done|]. intros b' Hb'. specialize (Hc b' Hb'). simpl in Hc.
    pose proof (cnt_nonneg b' b). lia.
Qed.

Lemma bufs_short (l : list Z) b :
  Forall buf_ok l → NoDup l → buf_ok b → b ∉ l → (length l < 64)%nat.
Proof.
  intros Hl Hn Hb Hnot.
  assert (Hs : (length (b :: l) <= length (seqZ 0 64))%nat).
  { apply submseteq_length, NoDup_submseteq; [by constructor|].
    intros x Hx. apply elem_of_seqZ. apply elem_of_cons in Hx as [->|Hx]; [unfold buf_ok in Hb; lia|].
    rewrite Forall_forall in Hl. specialize (Hl x Hx). unfold buf_ok in Hl. lia. }
  rewrite length_seqZ in Hs. simpl in Hs. lia.
Qed.

Lemma held_other fp k idk t c b :
  CInv fp k idk t c → buf_ok b → sumf (cnt b) (free_bufs c) <= t b.
Proof.
  intros HC Hb. destruct (pool_slot _ _ _ (ci_conn _ _ _ _ _ HC) (ci_live _ _ _ _ _ HC)) as [ch Hch].
  rewrite <-(ci_held _ _ _ _ _ HC b ch Hb Hch). unfold held.
  assert (owned b ch <= sumf id (zip_with (contrib b) (chan_pool c) (chan_used c))); [|lia].
  apply (sumf_elem_le _ (Z.to_nat k)).
  - apply Forall_lookup. intros i x. rewrite lookup_zip_with.
    intros (? & _ & (? & _ & [= <-])%bind_Some)%bind_Some. apply contrib_nonneg.
  - rewrite lookup_zip_with, Hch. by rewrite (proj2 (ci_live _ _ _ _ _ HC)).
Qed.

Lemma t_nonneg fp k idk t c b : CInv fp k idk t c → buf_ok b → 0 <= t b.
Proof.
  intros HC Hb. pose proof (held_other _ _ _ _ _ _ HC Hb).
  pose proof (sumf_nonneg (cnt b) (free_bufs c) (cnt_nonneg b)). lia.
Qed.

Lemma free_bufs_push c b : length c.(pool_free) = 64%nat → 0 <= c.(pool_free_top) < 64 →
  free_bufs (set_pool_free_top (c.(pool_free_top) + 1)
    (set_pool_free (<[Z.to_nat c.(pool_free_top) := b]> c.(pool_free)) c)) = free_bufs c ++ [b].
Proof.
  intros Hl Ht. unfold free_bufs. simpl.
  replace (Z.to_nat (c.(pool_free_top) + 1)) with (S (Z.to_nat c.(pool_free_top))) by lia.
  rewrite (take_S_r _ _ b) by (rewrite list_lookup_insert_eq by lia; done).
  by rewrite take_insert_ge by lia.
Qed.

(** Returning a buffer nobody else holds keeps the stack within its array. *)
Lemma pool_put_ok fp k idk t w b :
  CInv fp k idk t w.(conn) → buf_ok b → t b = 0 → (∀ x, buf_ok x → t x <= 1) →
  wp (pool_put b) (λ _ w', CInv fp k idk (bump t b 1) w'.(conn) ∧
    w'.(conn).(pool_free_top) = w.(conn).(pool_free_top) + 1 ∧
    w'.(conn).(cfg) = w.(conn).(cfg) ∧ w'.(conn).(pool_store) = w.(conn).(pool_store)) w.
Proof.
  intros HC Hb Htb Ht. pose proof (ci_conn _ _ _ _ _ HC) as Hc. unfold pool_put, getc.
  apply wp_if; intros E; [unfold buf_ok, NC_NOBUF in *; lia|]. apply wp_bind, wp_gets.
  pose proof (ok_top _ _ Hc). pose proof (ok_pool_free _ _ Hc) as Hlen.
  assert (Hnd : NoDup (free_bufs w.(conn))).
  { apply NoDup_cnt; [apply Hc|]. intros x Hx. etrans; [by eapply held_other|auto]. }
  assert (Htop : w.(conn).(pool_free_top) < 64).
  { assert (length (free_bufs w.(conn)) < 64)%nat as Hs.
    { apply (bufs_short _ b); [apply Hc|done..|]. intros Hin%sumf_cnt_elem.
      pose proof (held_other _ _ _ _ _ b HC Hb). lia. }
    unfold free_bufs in Hs. rewrite length_take, Hlen in Hs. lia. }
  apply wp_bind. rewrite aset_in by lia. apply wp_some.
  apply wp_bind, wp_mod, wp_mod. split; [|done]. simpl.
  pose proof (free_bufs_push w.(conn) b Hlen ltac:(lia)) as Ef.
  destruct HC as [H1 Hl H2 H3 H4 H5]. constructor; try done.
  - destruct H1. constructor; try done; simpl.
    + by rewrite length_insert.
    + lia.
    + rewrite Ef. apply Forall_app; split; [done|]. by constructor.
  - intros x ch Hx Hch. specialize (H5 x ch Hx Hch). unfold held in *. rewrite Ef, sumf_app. simpl in *.
    unfold bump. lia.
Qed.

(** ** Bytes of the pool *)

Lemma store_read_length m a n : length (store_read m a n) = n.
Proof. revert a. induction n as [|n IH]; intros a; simpl; auto. Qed.

Lemma store_get_in m a : (∀ a v, m !! a = Some v → in8 v) → in8 (store_get m a).
Proof. intros H. unfold store_get. destruct (m !! a) eqn:E; simpl; [eauto|]. unfold inw. lia. Qed.

Lemma store_read_in m a n : (∀ a v, m !! a = Some v → in8 v) → Forall in8 (store_read m a n).
Proof.
  intros H. revert a. induction n as [|n IH]; intros a; simpl; constructor; auto. by apply store_get_in.
Qed.

Lemma store_write_in m a bs :
  (∀ a v, m !! a = Some v → in8 v) → Forall in8 bs → ∀ a' v, store_write m a bs !! a' = Some v → in8 v.
Proof.
  intros H Hbs. revert m a H. induction Hbs as [|b bs Hb Hbs IH]; intros m a H; simpl; [eauto|].
  apply IH. intros a' v. destruct (decide (a = a')) as [->|].
  - rewrite lookup_insert_eq. by intros [= <-].
  - rewrite lookup_insert_ne by done. apply H.
Qed.

Lemma pool_read_ok fp w a n :
  conn_ok fp w.(conn) → 0 <= a → 0 <= n → a + n <= 131072 →
  wp (pool_read a n) (λ bs w', w' = w ∧ bs = store_read w.(conn).(pool_store) a (Z.to_nat n) ∧
    Forall in8 bs ∧ Z.of_nat (length bs) = n) w.
Proof.
  intros Hc Ha Hn Hr. unfold pool_read, getc. apply wp_bind, wp_gets.
  change POOL_SIZE with 131072.
  destruct (Z.leb_spec 0 a); [|lia]. destruct (Z.leb_spec 0 n); [|lia].
  destruct (Z.leb_spec (a + n) 131072); [|lia]. simpl. apply wp_ret. split_and!; try done.
  - apply store_read_in, Hc.
  - rewrite store_read_length. lia.
Qed.

Lemma pool_write_ok fp w a bs :
  conn_ok fp w.(conn) → 0 <= a → a + Z.of_nat (length bs) <= 131072 → Forall in8 bs →
  wp (pool_write a bs) (λ _ w', conn_ok fp w'.(conn) ∧ Same w.(conn) w'.(conn) ∧
    w'.(conn).(pool_store) = store_write w.(conn).(pool_store) a bs) w.
Proof.
  intros Hc Ha Hr Hbs. unfold pool_write. change POOL_SIZE with 131072.
  destruct (Z.leb_spec 0 a); [|lia]. destruct (Z.leb_spec (a + Z.of_nat (length bs)) 131072); [|lia]. simpl. apply wp_mod.
  split_and!; [|done..].
  destruct Hc. constructor; try done. simpl. by apply store_write_in.
Qed.

(** ** Events and control frames *)

Lemma ev_enqueue_ok fp w e :
  conn_ok fp w.(conn) → (∀ j, e.(ev_ch) = Some j → live w.(conn) j) →
  wp (ev_enqueue e) (λ _ w', conn_ok fp w'.(conn) ∧ Same w.(conn) w'.(conn) ∧
    w'.(conn).(pool_store) = w.(conn).(pool_store)) w.
Proof.
  intros Hc Hl. unfold ev_enqueue, getc. apply wp_bind, wp_gets, wp_if; intros E; [by apply wp_ret|].
  pose proof (ok_ev_tail _ _ Hc). pose proof (ok_events _ _ Hc) as Hlen.
  apply wp_bind. rewrite aset_in by lia. apply wp_some. apply wp_bind, wp_mod, wp_mod.
  split; [|done]. destruct Hc. constructor; try done; simpl.
  - by rewrite length_insert.
  - apply Z.mod_pos_bound. done.
  - intros e' j He' Hj. apply list_elem_of_lookup in He' as (i & Hi).
    destruct (decide (Z.to_nat w.(conn).(ev_tail) = i)) as [<-|].
    + rewrite list_lookup_insert_eq in Hi by lia. simplify_eq. by apply Hl.
    + rewrite list_lookup_insert_ne in Hi by done.
      eapply (ok_ev_live0 e' j); [by apply list_elem_of_lookup_2 with i|done].
Qed.

Lemma ctrl_frame_ok fp w bs :
  conn_ok fp w.(conn) → Forall in8 bs →
  wp (ctrl_frame bs) (λ _ w', conn_ok fp w'.(conn) ∧ Same w.(conn) w'.(conn) ∧
    w'.(conn).(pool_store) = w.(conn).(pool_store)) w.
Proof.
  intros Hc Hbs. unfold ctrl_frame, ctrl_reserve, getc.
  apply wp_bind, wp_bind, wp_gets, wp_if; intros E; [by repeat apply wp_ret|].
  apply wp_bind, wp_mod, wp_ret, wp_bind, wp_gets. simpl.
  unfold NC_CTRL_BUF_SIZE in E. pose proof (ok_ctrl_len _ _ Hc). pose proof (ok_ctrl_buf _ _ Hc) as Hlen.
  apply wp_bind. rewrite asplice_in by lia. apply wp_some, wp_mod.
  split; [|done]. destruct Hc. constructor; try done; simpl.
  - rewrite !length_app, length_take, length_drop. lia.
  - rewrite !Forall_app. split_and!; [by apply Forall_take|done|by apply Forall_drop].
  - lia.
Qed.
