(* ===== verification/NcChan.v ===== *)
(** * One channel of a netchan connection

    Symbolic execution of the operations that work on one channel, against
    the invariant of NcInv: rings, the message pool and the receive queue.  A
    state in which channel [k] holds [ch] is written [upd k ch w].  The receive
    queue is specified as the list of the messages it holds ([inbox]). *)

From stdpp Require Import gmap.
From S2P Require Import Prelude NcState NcOps NcProto NcApi NcInv.

#[local] Ltac Zify.zify_post_hook ::= Z.to_euclidean_division_equations.

(** ** Rings *)

(** The positions from [head] up to [tail] in a ring of [n]. *)
Definition ring (n head tail : Z) : list Z :=
  (λ j, (head + j) mod n) <$> upto ((tail - head) mod n).

(** The messages in the receive queue, oldest first. *)
Definition rent_msg (m : gmap Z Z) (q : list nc_recv_entry) (i : Z) : list Z :=
  match q !! Z.to_nat i with
  | Some e => store_read m (pool_ptr e.(e_buf)) (Z.to_nat e.(e_len))
  | None => []
  end.

Definition inbox (m : gmap Z Z) (ch : netchan_chan) : list (list Z) :=
  rent_msg m ch.(recv_queue) <$> ring 64 ch.(rq_head) ch.(rq_tail).

Lemma ring_nil n x : ring n x x = [].
Proof. unfold ring. by rewrite Z.sub_diag, Zmod_0_l. Qed.

Lemma ring_snoc n head tail :
  n = 16 ∨ n = 64 → 0 <= head < n → 0 <= tail < n → (tail + 1) mod n ≠ head →
  ring n head ((tail + 1) mod n) = ring n head tail ++ [tail].
Proof.
  intros Hn Hh Ht Hne. unfold ring.
  replace (((tail + 1) mod n - head) mod n) with ((tail - head) mod n + 1)
    by (destruct Hn as [-> | ->]; lia).
  rewrite upto_S, fmap_app by (destruct Hn as [-> | ->]; lia). simpl.
  do 2 f_equal. destruct Hn as [-> | ->]; lia.
Qed.

Lemma ring_cons n head tail :
  n = 16 ∨ n = 64 → 0 <= head < n → 0 <= tail < n → head ≠ tail →
  ring n head tail = head :: ring n ((head + 1) mod n) tail.
Proof.
  intros Hn Hh Ht Hne. unfold ring, upto.
  rewrite seqZ_cons by (destruct Hn as [-> | ->]; lia). simpl.
  f_equal; [destruct Hn as [-> | ->]; lia|].
  replace ((tail - (head + 1) mod n) mod n) with (Z.pred ((tail - head) mod n))
    by (destruct Hn as [-> | ->]; lia).
  change (seqZ (Z.succ 0)) with (seqZ (1 + 0)). rewrite <-fmap_add_seqZ, <-list_fmap_compose.
  apply list_fmap_ext. intros ? j Hj. simpl. destruct Hn as [-> | ->]; lia.
Qed.

Lemma elem_of_ring n head tail i :
  n = 16 ∨ n = 64 → 0 <= i < n → i ∈ ring n head tail ↔ in_ring n head tail i.
Proof.
  intros Hn Hi. unfold ring, in_ring. rewrite list_elem_of_fmap. setoid_rewrite elem_of_seqZ. split.
  - intros (j & -> & Hj). destruct Hn as [-> | ->]; lia.
  - intros H. exists ((i - head) mod n). destruct Hn as [-> | ->]; lia.
Qed.

Lemma ring_range n head tail i :
  n = 16 ∨ n = 64 → i ∈ ring n head tail → 0 <= i < n.
Proof.
  intros Hn. unfold ring. rewrite list_elem_of_fmap. intros (j & -> & _).
  destruct Hn as [-> | ->]; lia.
Qed.

(** ** Reading and writing the pool *)

Lemma store_write_ne m a bs a' :
  a' < a ∨ a + Z.of_nat (length bs) <= a' → store_write m a bs !! a' = m !! a'.
Proof.
  revert m a. induction bs as [|b bs IH]; intros m a H; simpl in *; [done|].
  rewrite IH by lia. by rewrite lookup_insert_ne by lia.
Qed.

Lemma store_read_ext m m' a n :
  (∀ x, a <= x < a + Z.of_nat n → m !! x = m' !! x) → store_read m a n = store_read m' a n.
Proof.
  revert a. induction n as [|n IH]; intros a H; simpl; [done|].
  f_equal; [unfold store_get; by rewrite H by lia|]. apply IH. intros x Hx. apply H. lia.
Qed.

Lemma store_read_write_ne m a bs a' n :
  a' + Z.of_nat n <= a ∨ a + Z.of_nat (length bs) <= a' →
  store_read (store_write m a bs) a' n = store_read m a' n.
Proof. intros H. apply store_read_ext. intros x Hx. apply store_write_ne. lia. Qed.

Lemma store_read_write m a bs : store_read (store_write m a bs) a (length bs) = bs.
Proof.
  revert m a. induction bs as [|b bs IH]; intros m a; simpl; [done|].
  rewrite IH. f_equal. unfold store_get. rewrite store_write_ne by lia. by rewrite lookup_insert_eq.
Qed.

(** Different buffers of the pool do not overlap. *)
Lemma bufs_apart b b' n : b ≠ b' → 0 <= n <= 2048 →
  pool_ptr b + n <= pool_ptr b' ∨ pool_ptr b' + 2048 <= pool_ptr b.
Proof. unfold pool_ptr, NC_MAX_MSG. lia. Qed.

(** ** Rules for a channel taken out of the connection *)

Section Rules.
Context {fp k idk : Z}.
Implicit Types (w : world) (ch : netchan_chan) (t : Z → Z).

Lemma upd_lookup t w ch :
  CInv fp k idk t w.(conn) → (upd k ch w).(conn).(chan_pool) !! Z.to_nat k = Some ch.
Proof.
  intros HC. destruct (ci_live _ _ _ _ _ HC) as [Hk _]. pose proof (ok_chan_pool _ _ (ci_conn _ _ _ _ _ HC)).
  simpl. apply list_lookup_insert_eq. lia.
Qed.

Lemma wp_get_ch t w ch Q :
  CInv fp k idk t w.(conn) → Q ch (upd k ch w) → wp (get_ch k) Q (upd k ch w).
Proof.
  intros HC HQ. unfold get_ch, getc. apply wp_bind, wp_gets.
  rewrite aget_lookup by (destruct (ci_live _ _ _ _ _ HC); lia).
  rewrite (upd_lookup t) by done. by apply wp_some.
Qed.

Lemma wp_put_ch t w ch ch' Q :
  CInv fp k idk t w.(conn) → Q tt (upd k ch' w) → wp (put_ch k ch') Q (upd k ch w).
Proof.
  intros HC HQ. unfold put_ch, getc. apply wp_bind, wp_gets, wp_bind.
  destruct (ci_live _ _ _ _ _ HC) as [Hk _]. pose proof (ok_chan_pool _ _ (ci_conn _ _ _ _ _ HC)).
  rewrite aset_in by (simpl; rewrite length_insert; lia). apply wp_some, wp_mod.
  revert HQ. unfold upd, with_ch, set_chan_pool, set_conn. simpl. by rewrite list_insert_insert_eq.
Qed.

Lemma wp_mod_ch t w ch f Q :
  CInv fp k idk t w.(conn) → Q tt (upd k (f ch) w) → wp (mod_ch k f) Q (upd k ch w).
Proof. intros. unfold mod_ch. eapply wp_bind, wp_get_ch, wp_put_ch; done. Qed.

Lemma wp_get_out t w ch i o Q :
  CInv fp k idk t w.(conn) → 0 <= i → ch.(outgoing) !! Z.to_nat i = Some o →
  Q o (upd k ch w) → wp (get_out k i) Q (upd k ch w).
Proof.
  intros. unfold get_out. eapply wp_bind, wp_get_ch; [done|]. rewrite aget_lookup by done.
  by eapply wp_must.
Qed.

Lemma wp_put_out t w ch i o Q :
  CInv fp k idk t w.(conn) → 0 <= i < Z.of_nat (length ch.(outgoing)) →
  Q tt (upd k (set_outgoing (<[Z.to_nat i := o]> ch.(outgoing)) ch) w) →
  wp (put_out k i o) Q (upd k ch w).
Proof.
  intros. unfold put_out. eapply wp_bind, wp_get_ch; [done|].
  rewrite aset_in by done. eapply wp_bind, wp_some, wp_put_ch; done.
Qed.

Lemma wp_get_rent t w ch i e Q :
  CInv fp k idk t w.(conn) → 0 <= i → ch.(recv_queue) !! Z.to_nat i = Some e →
  Q e (upd k ch w) → wp (get_rent k i) Q (upd k ch w).
Proof.
  intros. unfold get_rent. eapply wp_bind, wp_get_ch; [done|]. rewrite aget_lookup by done.
  by eapply wp_must.
Qed.

Lemma wp_put_rent t w ch i e Q :
  CInv fp k idk t w.(conn) → 0 <= i < Z.of_nat (length ch.(recv_queue)) →
  Q tt (upd k (set_recv_queue (<[Z.to_nat i := e]> ch.(recv_queue)) ch) w) →
  wp (put_rent k i e) Q (upd k ch w).
Proof.
  intros. unfold put_rent. eapply wp_bind, wp_get_ch; [done|].
  rewrite aset_in by done. eapply wp_bind, wp_some, wp_put_ch; done.
Qed.

Lemma wp_get_reord t w ch i r Q :
  CInv fp k idk t w.(conn) → 0 <= i → ch.(reorder) !! Z.to_nat i = Some r →
  Q r (upd k ch w) → wp (get_reord k i) Q (upd k ch w).
Proof.
  intros. unfold get_reord. eapply wp_bind, wp_get_ch; [done|]. rewrite aget_lookup by done.
  by eapply wp_must.
Qed.

Lemma wp_put_reord t w ch i r Q :
  CInv fp k idk t w.(conn) → 0 <= i < Z.of_nat (length ch.(reorder)) →
  Q tt (upd k (set_reorder (<[Z.to_nat i := r]> ch.(reorder)) ch) w) →
  wp (put_reord k i r) Q (upd k ch w).
Proof.
  intros. unfold put_reord. eapply wp_bind, wp_get_ch; [done|].
  rewrite aset_in by done. eapply wp_bind, wp_some, wp_put_ch; done.
Qed.

Lemma wp_get_frag t w ch i f Q :
  CInv fp k idk t w.(conn) → 0 <= i → ch.(frags) !! Z.to_nat i = Some f →
  Q f (upd k ch w) → wp (get_frag k i) Q (upd k ch w).
Proof.
  intros. unfold get_frag. eapply wp_bind, wp_get_ch; [done|]. rewrite aget_lookup by done.
  by eapply wp_must.
Qed.

Lemma wp_put_frag t w ch i f Q :
  CInv fp k idk t w.(conn) → 0 <= i < Z.of_nat (length ch.(frags)) →
  Q tt (upd k (set_frags (<[Z.to_nat i := f]> ch.(frags)) ch) w) →
  wp (put_frag k i f) Q (upd k ch w).
Proof.
  intros. unfold put_frag. eapply wp_bind, wp_get_ch; [done|].
  rewrite aset_in by done. eapply wp_bind, wp_some, wp_put_ch; done.
Qed.

End Rules.

(** ** The open channel *)

(** Channel [k] holds [ch], well formed, and every buffer has one holder. *)
Definition Opened (fp k idk : Z) (ch : netchan_chan) (w : world) : Prop :=
  chan_ok fp ch ∧ ch.(ch_id) = idk ∧
  ∃ t, CInv fp k idk t w.(conn) ∧ ∀ b, buf_ok b → t b + owned b ch = 1.

Lemma open_world fp k w :
  Inv fp w.(conn) → live w.(conn) k →
  ∃ ch, w = upd k ch w ∧ w.(conn).(chan_pool) !! Z.to_nat k = Some ch ∧
    Opened fp k ch.(ch_id) ch w.
Proof.
  intros HI Hl. destruct (open_chan _ _ _ HI Hl) as (ch & t & Hch & Hok & HC & Ht).
  exists ch. split; [by rewrite upd_id|]. split; [done|]. split; [done|]. split; [done|eauto].
Qed.

Lemma close_world fp k idk ch w : Opened fp k idk ch w → Inv fp (upd k ch w).(conn).
Proof. intros (Hok & Hid & t & HC & Ht). by eapply close_chan. Qed.

Lemma Opened_same fp k idk ch w w' :
  Opened fp k idk ch w → Same w.(conn) w'.(conn) → conn_ok fp w'.(conn) → Opened fp k idk ch w'.
Proof.
  intros (Hok & Hid & t & HC & Ht) Hs Hc. split; [done|]. split; [done|]. exists t.
  split; [by eapply CInv_same|done].
Qed.

(** A change of the channel that moves no buffer. *)
Lemma Opened_set fp k idk ch ch' w :
  Opened fp k idk ch w → chan_ok fp ch' → ch'.(ch_id) = ch.(ch_id) →
  (∀ b, owned b ch' = owned b ch) → Opened fp k idk ch' w.
Proof.
  intros (Hok & Hid & t & HC & Ht) Hok' Hid' Ho. split; [done|]. split; [congruence|].
  exists t. split; [done|]. intros b Hb. rewrite Ho. auto.
Qed.

Lemma Opened_conn fp k idk ch w : Opened fp k idk ch w → conn_ok fp w.(conn).
Proof. intros (_ & _ & t & HC & _). apply HC. Qed.

Lemma Opened_live fp k idk ch w : Opened fp k idk ch w → live w.(conn) k.
Proof. intros (_ & _ & t & HC & _). apply HC. Qed.

Lemma Opened_one fp k idk ch w b : Opened fp k idk ch w → buf_ok b → owned b ch <= 1.
Proof.
  intros (_ & _ & t & HC & Ht) Hb. specialize (Ht b Hb). pose proof (t_nonneg _ _ _ _ _ b HC Hb). lia.
Qed.

(** ** The source of a copy *)

Definition src_ok (ch : netchan_chan) (src : source) (len : Z) : Prop :=
  0 <= len ∧
  match src with
  | SrcBytes bs => Forall in8 bs ∧ len <= Z.of_nat (length bs)
  | SrcPool a => ∃ b, a = pool_ptr b ∧ buf_ok b ∧ 1 <= owned b ch
  end.

Definition src_data (m : gmap Z Z) (src : source) (len : Z) : list Z :=
  match src with
  | SrcBytes bs => take (Z.to_nat len) bs
  | SrcPool a => store_read m a (Z.to_nat len)
  end.

Lemma commutes_memcpy dst src n : commutes (memcpy_pool dst src n).
Proof.
  destruct src; simpl.
  - apply commutes_bind; [apply commutes_must|intros]. apply commutes_pool_write.
  - destruct (_ && _); [done|]. apply commutes_bind; [apply commutes_pool_read|intros].
    apply commutes_pool_write.
Qed.

Lemma src_data_length ch m src len : src_ok ch src len → Z.of_nat (length (src_data m src len)) = len.
Proof.
  intros [? H]. destruct src; simpl in *; [rewrite length_take; lia|]. rewrite store_read_length. lia.
Qed.

Lemma memcpy_pool_ok fp w ch b src len :
  conn_ok fp w.(conn) → buf_ok b → len <= 2048 → src_ok ch src len → owned b ch = 0 →
  wp (memcpy_pool (pool_ptr b) src len) (λ _ w', conn_ok fp w'.(conn) ∧ Same w.(conn) w'.(conn) ∧
    w'.(conn).(pool_store) =
      store_write w.(conn).(pool_store) (pool_ptr b) (src_data w.(conn).(pool_store) src len)) w.
Proof.
  intros Hc Hb Hl Hs Hn. pose proof (src_data_length ch w.(conn).(pool_store) src len Hs) as Hlen.
  destruct Hs as [H0 Hs]. unfold memcpy_pool. destruct src as [bs|a]; simpl in *.
  - destruct Hs as [Hin Hle]. rewrite aslice_in by lia. apply wp_bind, wp_some. rewrite drop_0.
    eapply wp_mono; [apply (pool_write_ok fp)|auto]; [done|..|by apply Forall_take];
      unfold pool_ptr, buf_ok, NC_MAX_MSG in *; lia.
  - destruct Hs as (b0 & -> & Hb0 & Ho).
    assert (b ≠ b0) by (intros ->; lia).
    pose proof (bufs_apart b b0 len ltac:(done) ltac:(lia)).
    replace ((pool_ptr b <? pool_ptr b0 + len) && (pool_ptr b0 <? pool_ptr b + len)) with false
      by (unfold pool_ptr, NC_MAX_MSG in *; lia).
    apply wp_bind. eapply wp_mono; [apply (pool_read_ok fp)|]; [done|..];
      [unfold pool_ptr, buf_ok, NC_MAX_MSG in *; lia..|].
    intros bs w' (-> & -> & Hin & Hl'). eapply wp_mono; [apply (pool_write_ok fp)|auto]; [done|..|done];
      unfold pool_ptr, buf_ok, NC_MAX_MSG in *; lia.
Qed.

(** ** Pool operations of an open channel *)

Lemma wp_pool_get fp k idk ch w (Q : Z → world → Prop) :
  Opened fp k idk ch w →
  (w.(conn).(pool_free_top) = 0 → Q (-1) (upd k ch w)) →
  (∀ b w' t, buf_ok b → owned b ch = 0 → CInv fp k idk t w'.(conn) →
     (∀ x, buf_ok x → t x + owned x ch + cnt x b = 1) →
     w'.(conn).(pool_free_top) = w.(conn).(pool_free_top) - 1 →
     w'.(conn).(cfg) = w.(conn).(cfg) → w'.(conn).(pool_store) = w.(conn).(pool_store) →
     Q b (upd k ch w')) →
  wp pool_get Q (upd k ch w).
Proof.
  intros (Hok & Hid & t & HC & Ht) Hnone Hsome. apply wp_upd; [apply commutes_pool_get|].
  eapply wp_mono; [by apply pool_get_ok|]. intros b w' [(-> & -> & H0)|(Hb & Htb & HC' & Htop & Hcfg & Hst)]; [auto|].
  pose proof (Ht b Hb). pose proof (owned_nonneg b ch). apply (Hsome b w' (bump t b (-1))); try done; [lia|].
  intros x Hx. specialize (Ht x Hx). unfold bump. lia.
Qed.

Lemma wp_pool_put fp k idk ch ch' w b t (Q : unit → world → Prop) :
  CInv fp k idk t w.(conn) → buf_ok b → (∀ x, buf_ok x → t x + owned x ch + cnt x b = 1) →
  (∀ w' t', CInv fp k idk t' w'.(conn) → (∀ x, buf_ok x → t' x + owned x ch = 1) →
     w'.(conn).(pool_free_top) = w.(conn).(pool_free_top) + 1 →
     w'.(conn).(cfg) = w.(conn).(cfg) → w'.(conn).(pool_store) = w.(conn).(pool_store) →
     Q tt (upd k ch' w')) →
  wp (pool_put b) Q (upd k ch' w).
Proof.
  intros HC Hb Ht HQ. apply wp_upd; [apply commutes_pool_put|].
  pose proof (Ht b Hb) as Hb'. rewrite cnt_self in Hb'. pose proof (owned_nonneg b ch).
  pose proof (t_nonneg _ _ _ _ _ b HC Hb).
  eapply wp_mono; [apply (pool_put_ok fp k idk t); [done|done|lia|]|].
  - intros x Hx. specialize (Ht x Hx). pose proof (owned_nonneg x ch). pose proof (cnt_nonneg x b). lia.
  - intros [] w' (HC' & Htop & Hcfg & Hst). apply (HQ w' (bump t b 1)); try done.
    intros x Hx. specialize (Ht x Hx). unfold bump. lia.
Qed.

Lemma wp_ev_push fp k idk ch w ty ev (Q : unit → world → Prop) :
  Opened fp k idk ch w → (∀ j, ev = Some j → live w.(conn) j) →
  (∀ w', Opened fp k idk ch w' → w'.(conn).(cfg) = w.(conn).(cfg) →
     w'.(conn).(pool_free_top) = w.(conn).(pool_free_top) →
     w'.(conn).(pool_store) = w.(conn).(pool_store) → Q tt (upd k ch w')) →
  wp (ev_push ty ev) Q (upd k ch w).
Proof.
  intros HO Hl HQ. apply wp_upd; [apply commutes_ev_push|].
  eapply wp_mono; [apply (ev_enqueue_ok fp); [by eapply Opened_conn|done]|].
  intros [] w' (Hc & Hs & Hst). apply HQ; [by eapply Opened_same|apply Hs..|done].
Qed.

(** ** The receive queue *)

(** The channel after message [b], [len] is queued. *)
Definition enq (b len : Z) (ch : netchan_chan) : netchan_chan :=
  set_msgs_recv (u32 (ch.(msgs_recv) + 1))
    (set_recv_buffered (u32 (ch.(recv_buffered) + len))
      (set_rq_tail ((ch.(rq_tail) + 1) mod 64)
        (set_recv_queue (<[Z.to_nat ch.(rq_tail) := mk_rent b len]> ch.(recv_queue)) ch))).

(** The slot at the tail of the queue is empty. *)
Lemma rq_tail_empty fp ch : chan_ok fp ch →
  ∃ e, ch.(recv_queue) !! Z.to_nat ch.(rq_tail) = Some e ∧ e.(e_buf) = -1.
Proof.
  intros Hok. pose proof (ok_rq_tail _ _ Hok) as Ht. pose proof (ok_recv_queue _ _ Hok).
  destruct (lookup_lt_is_Some_2 ch.(recv_queue) (Z.to_nat ch.(rq_tail))) as [e He]; [lia|].
  exists e. split; [done|]. pose proof (ok_rents _ _ Hok _ _ He) as [[_ ?]|[Hr _]]; [done|].
  rewrite Z2Nat.id in Hr by lia. unfold in_ring in Hr. lia.
Qed.

Lemma enq_owned fp b len ch x : chan_ok fp ch → buf_ok x → owned x (enq b len ch) = owned x ch + cnt x b.
Proof.
  intros Hok Hx. destruct (rq_tail_empty fp ch Hok) as (e & He & Eb). unfold owned. simpl.
  rewrite (sumf_insert _ _ _ e) by done. simpl. rewrite Eb, (cnt_nobuf x) by done. lia.
Qed.

Lemma enq_ok fp b len ch :
  chan_ok fp ch → buf_ok b → 0 <= len <= 2048 → (ch.(rq_tail) + 1) mod 64 ≠ ch.(rq_head) →
  chan_ok fp (enq b len ch).
Proof.
  intros Hok Hb Hlen Hne. destruct Hok. constructor; try done; simpl.
  - by rewrite length_insert.
  - lia.
  - intros i e He. destruct (decide (Z.to_nat ch.(rq_tail) = i)) as [<-|Hi].
    + rewrite list_lookup_insert_eq in He by lia. simplify_eq. right. simpl. unfold in_ring, buf_ok in *. lia.
    + rewrite list_lookup_insert_ne in He by done. pose proof (lookup_lt_Some _ _ _ He).
      destruct (ok_rents i e He) as [[Hr ?]|[Hr ?]]; [left|right]; (split; [|done]);
        unfold in_ring in *; lia.
Qed.

(** A buffer held by an entry of the queue is held by the channel. *)
Lemma rent_owned fp ch i e :
  chan_ok fp ch → ch.(recv_queue) !! i = Some e → owned e.(e_buf) ch >= 1.
Proof.
  intros Hok He. unfold owned.
  pose proof (sumf_elem (λ x, cnt e.(e_buf) x.(e_buf)) _ _ _ (λ _, cnt_nonneg _ _) He) as H.
  simpl in H. rewrite cnt_self in H.
  pose proof (sumf_nonneg (λ o, cnt e.(e_buf) o.(o_buf)) ch.(outgoing) (λ _, cnt_nonneg _ _)).
  pose proof (sumf_nonneg (λ r, cnt e.(e_buf) r.(r_buf)) ch.(reorder) (λ _, cnt_nonneg _ _)).
  pose proof (sumf_nonneg (λ f, cnt e.(e_buf) f.(f_buf)) ch.(frags) (λ _, cnt_nonneg _ _)).
  lia.
Qed.

(** Writing a buffer the channel does not hold leaves its messages alone. *)
Lemma inbox_write fp ch m b bs :
  chan_ok fp ch → owned b ch = 0 → (length bs <= 2048)%nat →
  inbox (store_write m (pool_ptr b) bs) ch = inbox m ch.
Proof.
  intros Hok Ho Hl. unfold inbox. apply list_fmap_ext. intros j i Hi.
  apply list_elem_of_lookup_2 in Hi. pose proof (ring_range 64 _ _ _ ltac:(auto) Hi) as Hr.
  apply elem_of_ring in Hi; [|auto|done]. unfold rent_msg.
  destruct (ch.(recv_queue) !! Z.to_nat i) as [e|] eqn:He; [|done].
  pose proof (rent_owned fp ch _ e Hok He).
  destruct (ok_rents _ _ Hok _ _ He) as [[Hnr _]|(_ & _ & Hle)].
  { rewrite Z2Nat.id in Hnr by lia. done. }
  apply store_read_write_ne. assert (b ≠ e.(e_buf)) by (intros ->; lia).
  pose proof (bufs_apart b e.(e_buf) (Z.of_nat (length bs)) ltac:(done) ltac:(lia)).
  pose proof (bufs_apart e.(e_buf) b e.(e_len) ltac:(done) ltac:(lia)).
  unfold pool_ptr, NC_MAX_MSG in *. lia.
Qed.

Lemma inbox_enq fp ch m b bs :
  chan_ok fp ch → owned b ch = 0 → (length bs <= 2048)%nat → (ch.(rq_tail) + 1) mod 64 ≠ ch.(rq_head) →
  inbox (store_write m (pool_ptr b) bs) (enq b (Z.of_nat (length bs)) ch) = inbox m ch ++ [bs].
Proof.
  intros Hok Ho Hl Hne. rewrite <-(inbox_write fp ch m b bs) by done.
  pose proof (ok_rq_tail _ _ Hok). pose proof (ok_rq_head _ _ Hok). pose proof (ok_recv_queue _ _ Hok).
  unfold inbox. simpl. rewrite ring_snoc by auto. rewrite fmap_app. f_equal.
  - apply list_fmap_ext. intros j i Hi. apply list_elem_of_lookup_2 in Hi.
    pose proof (ring_range 64 _ _ _ ltac:(auto) Hi). apply elem_of_ring in Hi; [|auto|done].
    unfold rent_msg. rewrite list_lookup_insert_ne; [done|]. unfold in_ring in Hi. lia.
  - simpl. unfold rent_msg. rewrite list_lookup_insert_eq by lia. simpl.
    by rewrite Nat2Z.id, store_read_write.
Qed.

(** [chan_recv_enqueue] fails without effect, or appends the message. *)
Lemma wp_recv_enqueue fp k idk ch w src len (Q : Z → world → Prop) :
  Opened fp k idk ch w → src_ok ch src len →
  (∀ r, r < 0 → (ch.(rq_tail) + 1) mod 64 = ch.(rq_head) ∨ 2048 < len ∨
          w.(conn).(pool_free_top) = 0 → Q r (upd k ch w)) →
  (∀ b w', Opened fp k idk (enq b len ch) w' → buf_ok b → owned b ch = 0 → len <= 2048 →
     (ch.(rq_tail) + 1) mod 64 ≠ ch.(rq_head) →
     w'.(conn).(pool_free_top) = w.(conn).(pool_free_top) - 1 →
     w'.(conn).(cfg) = w.(conn).(cfg) →
     w'.(conn).(pool_store) =
       store_write w.(conn).(pool_store) (pool_ptr b) (src_data w.(conn).(pool_store) src len) →
     inbox w'.(conn).(pool_store) (enq b len ch) =
       inbox w.(conn).(pool_store) ch ++ [src_data w.(conn).(pool_store) src len] →
     Q NETCHAN_OK (upd k (enq b len ch) w')) →
  wp (chan_recv_enqueue k src len) Q (upd k ch w).
Proof.
  intros HO Hs Hfail Hok. pose proof HO as (Hch & Hid & t0 & HC0 & _).
  unfold chan_recv_enqueue. eapply wp_bind, wp_get_ch; [done|].
  unfold NC_RECV_QUEUE, NC_MAX_MSG in *.
  apply wp_if; intros E1; [apply Hfail; [done|lia]|].
  apply wp_if; intros E2; [apply Hfail; [done|lia]|].
  apply wp_bind. eapply wp_pool_get; [done| |].
  { intros Htop. simpl. apply Hfail; [done|auto]. }
  intros b w1 t Hb Hob HC Ht Htop Hcfg Hst. apply wp_if; intros E3; [unfold buf_ok, NC_NOBUF in *; lia|].
  apply wp_bind, wp_upd; [apply commutes_memcpy|].
  eapply wp_mono; [apply (memcpy_pool_ok fp _ ch); [apply HC|done|lia|done..]|].
  intros [] w2 (Hc2 & Hs2 & Hst2). pose proof (CInv_same _ _ _ _ _ _ HC Hs2 Hc2) as HC2.
  pose proof (ok_recv_queue _ _ Hch). pose proof (ok_rq_tail _ _ Hch).
  eapply wp_bind, wp_put_rent; [done|lia|]. do 3 (eapply wp_bind, wp_mod_ch; [done|]). apply wp_ret.
  change (upd k _ w2) with (upd k (enq b len ch) w2).
  pose proof (src_data_length ch w.(conn).(pool_store) src len Hs) as Hlen. destruct Hs as [Hl0 Hs].
  rewrite Hst in Hst2.
  apply Hok; try done; [|lia|lia|by rewrite (same_top _ _ Hs2)|by rewrite (same_cfg _ _ Hs2)|].
  - split; [apply enq_ok; [done..|lia|lia]|]. split; [done|]. exists t. split; [done|].
    intros x Hx. rewrite (enq_owned fp) by done. specialize (Ht x Hx). lia.
  - rewrite Hst2. rewrite <-Hlen at 2. apply (inbox_enq fp); [done..|lia|lia].
Qed.
