(* ===== verification/NcRecv.v ===== *)
(** * In-order delivery on a reliable netchan channel

    What [chan_deliver_reordered] and the reliable branch of [process_data] do
    to the receive queue and to the reorder slots: the delivery loop ends, the
    messages ready without a gap are appended to the queue in order, their
    slots are emptied and the others are kept. *)

From stdpp Require Import gmap.
From S2P Require Import Prelude NcState NcOps NcProto NcApi NcInv NcChan.

#[local] Ltac Zify.zify_post_hook ::= Z.to_euclidean_division_equations.

(** ** In-order delivery *)

(** The messages that [reorder] holds for [seq], [seq + 1], ... without a gap. *)
Fixpoint ready (n : nat) (m : gmap Z Z) (rs : list nc_reorder) (seq : Z) : list (list Z) :=
  match n with
  | O => []
  | S n =>
      match rs !! Z.to_nat (seq mod 64) with
      | Some r =>
          if nz r.(r_valid) && (r.(r_seq) =? seq)
          then store_read m (pool_ptr r.(r_buf)) (Z.to_nat r.(r_len)) :: ready n m rs (u16 (seq + 1))
          else []
      | None => []
      end
  end.

(** What receiving data leaves alone. *)
Record recv_frame (ch ch' : netchan_chan) : Prop := {
  rf_id : ch'.(ch_id) = ch.(ch_id);
  rf_type : ch'.(ch_type) = ch.(ch_type);
  rf_role : ch'.(ch_role) = ch.(ch_role);
  rf_state : ch'.(ch_state) = ch.(ch_state);
  rf_outgoing : ch'.(outgoing) = ch.(outgoing);
  rf_send_seq : ch'.(send_seq) = ch.(send_seq);
  rf_rq_head : ch'.(rq_head) = ch.(rq_head);
  rf_frags : ch'.(frags) = ch.(frags)
}.

Lemma recv_frame_refl ch : recv_frame ch ch.
Proof. by constructor. Qed.

Lemma recv_frame_trans ch1 ch2 ch3 : recv_frame ch1 ch2 → recv_frame ch2 ch3 → recv_frame ch1 ch3.
Proof. intros [] []. constructor; congruence. Qed.

Lemma ready_ext n m m' rs rs' seq :
  (n <= 64)%nat → in16 seq →
  (∀ j, 0 <= j < Z.of_nat n → rs' !! Z.to_nat ((seq + j) mod 64) = rs !! Z.to_nat ((seq + j) mod 64)) →
  (∀ i r, rs !! i = Some r → nz r.(r_valid) = true →
     store_read m' (pool_ptr r.(r_buf)) (Z.to_nat r.(r_len)) =
     store_read m (pool_ptr r.(r_buf)) (Z.to_nat r.(r_len))) →
  ready n m' rs' seq = ready n m rs seq.
Proof.
  revert seq. induction n as [|n IH]; intros seq Hn Hs Hrs Hm; simpl; [done|].
  pose proof (Hrs 0 ltac:(lia)) as H0. rewrite Z.add_0_r in H0. rewrite H0.
  destruct (rs !! _) as [r|] eqn:Er; [|done]. destruct (nz _) eqn:Ev; simpl; [|done].
  destruct (_ =? _); [|done]. f_equal; [by eapply Hm|].
  apply IH; [lia|apply u16_in| |done]. intros j Hj.
  replace ((u16 (seq + 1) + j) mod 64) with ((seq + (j + 1)) mod 64) by (unfold u16; lia).
  apply Hrs. lia.
Qed.

Lemma ready_length n m rs seq : (length (ready n m rs seq) <= n)%nat.
Proof.
  revert seq. induction n as [|n IH]; intros seq; simpl; [done|].
  repeat case_match; simpl; try lia. specialize (IH (u16 (seq + 1))). lia.
Qed.

Lemma reord_owned ch i r : ch.(reorder) !! i = Some r → owned r.(r_buf) ch >= 1.
Proof.
  intros Hr. unfold owned.
  pose proof (sumf_elem (λ x, cnt r.(r_buf) x.(r_buf)) _ _ _ (λ _, cnt_nonneg _ _) Hr) as H.
  simpl in H. rewrite cnt_self in H.
  pose proof (sumf_nonneg (λ o, cnt r.(r_buf) o.(o_buf)) ch.(outgoing) (λ _, cnt_nonneg _ _)).
  pose proof (sumf_nonneg (λ e, cnt r.(r_buf) e.(e_buf)) ch.(recv_queue) (λ _, cnt_nonneg _ _)).
  pose proof (sumf_nonneg (λ f, cnt r.(r_buf) f.(f_buf)) ch.(frags) (λ _, cnt_nonneg _ _)).
  lia.
Qed.

(** The channel after slot [s], holding [r], is emptied and the sequence
    number advances. *)
Definition popped (s : Z) (r : nc_reorder) (ch : netchan_chan) : netchan_chan :=
  set_recv_seq (u16 (ch.(recv_seq) + 1))
    (set_reorder (<[Z.to_nat s := set_r_valid 0 (set_r_buf (-1) r)]> ch.(reorder)) ch).

Lemma popped_owned s r ch x :
  buf_ok x → ch.(reorder) !! Z.to_nat s = Some r → owned x (popped s r ch) = owned x ch - cnt x r.(r_buf).
Proof.
  intros Hx Hr. unfold owned. simpl. rewrite (sumf_insert _ _ _ r) by done. simpl.
  rewrite (cnt_nobuf x) by done. lia.
Qed.

Lemma popped_ok fp s r ch :
  chan_ok fp ch → ch.(reorder) !! Z.to_nat s = Some r → chan_ok fp (popped s r ch).
Proof.
  intros Hok Hr. pose proof (lookup_lt_Some _ _ _ Hr).
  destruct Hok. constructor; try done; simpl.
  - by rewrite length_insert.
  - apply u16_in.
  - intros i r' Hi. destruct (decide (Z.to_nat s = i)) as [<-|].
    + rewrite list_lookup_insert_eq in Hi by done. simplify_eq. by left.
    + rewrite list_lookup_insert_ne in Hi by done. eauto.
Qed.

Lemma inbox_popped m s r ch : inbox m (popped s r ch) = inbox m ch.
Proof. done. Qed.

Lemma inbox_length m ch : length (inbox m ch) = Z.to_nat ((ch.(rq_tail) - ch.(rq_head)) mod 64).
Proof. unfold inbox, ring, upto. by rewrite !length_fmap, length_seqZ. Qed.

(** The queue is full exactly when it holds 63 messages. *)
Lemma queue_full fp m ch :
  chan_ok fp ch → (ch.(rq_tail) + 1) mod 64 = ch.(rq_head) ↔ length (inbox m ch) = 63%nat.
Proof.
  intros Hok. pose proof (ok_rq_tail _ _ Hok). pose proof (ok_rq_head _ _ Hok).
  rewrite inbox_length. lia.
Qed.

(** The slots beyond the next [n] are empty. *)
Definition cleared (n : nat) (ch : netchan_chan) : Prop :=
  ∀ j r, Z.of_nat n <= j < 64 → ch.(reorder) !! Z.to_nat ((ch.(recv_seq) + j) mod 64) = Some r →
    r.(r_valid) = 0.

Lemma cleared_popped fp n s r ch :
  chan_ok fp ch → s = ch.(recv_seq) mod 64 → cleared (S n) ch → cleared n (popped s r ch).
Proof.
  intros Hok -> Hc j r' Hj. simpl. pose proof (ok_reorder _ _ Hok) as Hl.
  replace ((u16 (ch.(recv_seq) + 1) + j) mod 64) with ((ch.(recv_seq) + (j + 1)) mod 64) by (unfold u16; lia).
  destruct (decide (Z.to_nat (ch.(recv_seq) mod 64) = Z.to_nat ((ch.(recv_seq) + (j + 1)) mod 64))) as [<-|Hne].
  - rewrite list_lookup_insert_eq by lia. by intros [= <-].
  - rewrite list_lookup_insert_ne by done. apply Hc. lia.
Qed.

Lemma ready_popped fp n m m' s r ch ch' :
  chan_ok fp ch → (n < 64)%nat → s = ch.(recv_seq) mod 64 →
  ch'.(reorder) = ch.(reorder) → ch'.(recv_seq) = ch.(recv_seq) →
  (∀ i r, ch.(reorder) !! i = Some r → nz r.(r_valid) = true →
     store_read m' (pool_ptr r.(r_buf)) (Z.to_nat r.(r_len)) =
     store_read m (pool_ptr r.(r_buf)) (Z.to_nat r.(r_len))) →
  ready n m' (popped s r ch').(reorder) (popped s r ch').(recv_seq) =
    ready n m ch.(reorder) (u16 (ch.(recv_seq) + 1)).
Proof.
  intros Hok Hn -> Er Es Hm. simpl. rewrite Er, Es. apply ready_ext; [lia|apply u16_in| |done].
  intros j Hj. rewrite list_lookup_insert_ne; [done|]. unfold u16. lia.
Qed.

(** Writing a buffer the channel does not hold leaves what it holds for
    later delivery alone. *)
Lemma reord_write fp ch m b bs :
  chan_ok fp ch → owned b ch = 0 → (length bs <= 2048)%nat →
  ∀ i r, ch.(reorder) !! i = Some r → nz r.(r_valid) = true →
    store_read (store_write m (pool_ptr b) bs) (pool_ptr r.(r_buf)) (Z.to_nat r.(r_len)) =
    store_read m (pool_ptr r.(r_buf)) (Z.to_nat r.(r_len)).
Proof.
  intros Hok Ho Hl i r Hr Hv. pose proof (reord_owned ch i r Hr).
  destruct (ok_reords _ _ Hok i r Hr) as [[E _]|(_ & _ & Hlen & _)]; [by rewrite E in Hv|].
  assert (b ≠ r.(r_buf)) by (intros ->; lia).
  pose proof (bufs_apart b r.(r_buf) (Z.of_nat (length bs)) ltac:(done) ltac:(lia)).
  pose proof (bufs_apart r.(r_buf) b r.(r_len) ltac:(done) ltac:(lia)).
  apply store_read_write_ne. unfold pool_ptr, NC_MAX_MSG in *. lia.
Qed.

(** The end of one iteration: the event, the return of the buffer, the slot
    and the sequence number. *)
Lemma wp_pop {A} fp k idk ch w s r (rest : M world A) (Q : A → world → Prop) :
  Opened fp k idk ch w → 0 <= s < 64 → ch.(reorder) !! Z.to_nat s = Some r → buf_ok r.(r_buf) →
  (∀ w', Opened fp k idk (popped s r ch) w' → w'.(conn).(cfg) = w.(conn).(cfg) →
     w'.(conn).(pool_free_top) = w.(conn).(pool_free_top) + 1 →
     w'.(conn).(pool_store) = w.(conn).(pool_store) → wp rest Q (upd k (popped s r ch) w')) →
  wp (ev_push NETCHAN_EV_DATA (Some k);; pool_put r.(r_buf);;
      put_reord k s (set_r_valid 0 (set_r_buf NC_NOBUF r));;
      mod_ch k (λ ch, set_recv_seq (u16 (ch.(recv_seq) + 1)) ch);; rest) Q (upd k ch w).
Proof.
  intros HO Hs Hr Hb HQ. apply wp_bind. eapply wp_ev_push; [done|intros ? [= <-]; by eapply Opened_live|].
  intros w1 (Hok & Hid & t & HC & Ht) Hcfg Htop Hst. apply wp_bind.
  eapply (wp_pool_put fp k idk (popped s r ch)); [done|done| |].
  { intros x Hx. rewrite popped_owned by done. specialize (Ht x Hx). lia. }
  intros w2 t2 HC2 Ht2 Htop2 Hcfg2 Hst2. pose proof (ok_reorder _ _ Hok).
  eapply wp_bind, wp_put_reord; [done|lia|]. eapply wp_bind, wp_mod_ch; [done|].
  apply HQ; [|congruence|lia|congruence].
  split; [by apply popped_ok|]. split; [done|]. exists t2. done.
Qed.

Lemma deliver_loop_S n k :
  deliver_loop (S n) k =
    (ch ← get_ch k;
     r ← get_reord k (ch.(recv_seq) mod NC_REORDER_SLOTS);
     if negb (nz r.(r_valid)) || negb (r.(r_seq) =? ch.(recv_seq)) then mret tt
     else
       _ ← chan_recv_enqueue k (SrcPool (pool_ptr r.(r_buf))) r.(r_len);
       ev_push NETCHAN_EV_DATA (Some k);;
       pool_put r.(r_buf);;
       put_reord k (ch.(recv_seq) mod NC_REORDER_SLOTS) (set_r_valid 0 (set_r_buf NC_NOBUF r));;
       mod_ch k (λ ch, set_recv_seq (u16 (ch.(recv_seq) + 1)) ch);;
       deliver_loop n k).
Proof. done. Qed.

(** The data of a slot. *)
Definition reord_data (m : gmap Z Z) (r : nc_reorder) : list Z :=
  store_read m (pool_ptr r.(r_buf)) (Z.to_nat r.(r_len)).

(** The outcome of a delivery loop that found the messages [rd] ready: the
    sequence number moves past them, the queue receives them (all of them if
    there is room), their slots are emptied, the other slots are kept, and the
    next message is not there.  The first [d] messages came from elsewhere. *)
Record Drained (d : Z) (ch : netchan_chan) (w : world) (rd : list (list Z))
    (ch' : netchan_chan) (w' : world) : Prop := {
  dr_frame : recv_frame ch ch';
  dr_cfg : w'.(conn).(cfg) = w.(conn).(cfg);
  dr_seq : ch'.(recv_seq) = u16 (ch.(recv_seq) + Z.of_nat (length rd));
  dr_inbox : ∃ l, inbox w'.(conn).(pool_store) ch' = inbox w.(conn).(pool_store) ch ++ l ∧
    l `sublist_of` rd ∧
    (d < w.(conn).(pool_free_top) → Forall (λ m, (length m <= 2048)%nat) rd →
     (length (inbox w.(conn).(pool_store) ch) + length rd <= 63)%nat → l = rd);
  dr_top : w.(conn).(pool_free_top) - d <= w'.(conn).(pool_free_top);
  dr_kept : ∀ i r, ch'.(reorder) !! i = Some r → nz r.(r_valid) = true →
    ch.(reorder) !! i = Some r ∧
    reord_data w'.(conn).(pool_store) r = reord_data w.(conn).(pool_store) r;
  dr_empty : ∀ j r, d <= j < Z.of_nat (length rd) →
    ch'.(reorder) !! Z.to_nat ((ch.(recv_seq) + j) mod 64) = Some r → nz r.(r_valid) = false;
  dr_stop : ∀ r, ch'.(reorder) !! Z.to_nat (ch'.(recv_seq) mod 64) = Some r →
    nz r.(r_valid) = true → r.(r_seq) ≠ ch'.(recv_seq);
  dr_persist : ∀ i r, ch.(reorder) !! i = Some r →
    (∀ j, 0 <= j < Z.of_nat (length rd) → i ≠ Z.to_nat ((ch.(recv_seq) + j) mod 64)) →
    ch'.(reorder) !! i = Some r
}.

Lemma Drained_nil fp ch w :
  chan_ok fp ch →
  (∀ r, ch.(reorder) !! Z.to_nat (ch.(recv_seq) mod 64) = Some r →
    nz r.(r_valid) = true → r.(r_seq) ≠ ch.(recv_seq)) →
  Drained 0 ch w [] ch w.
Proof.
  intros Hok Hstop. constructor; try done.
  - simpl. rewrite Z.add_0_r. symmetry. apply Z.mod_small, Hok.
  - exists []. by rewrite app_nil_r.
  - lia.
  - simpl. lia.
Qed.

(** One more message in front. *)
Lemma Drained_cons fp ch w data tl ch1 w1 w2 r ch3 w3 l0 :
  chan_ok fp ch → recv_frame ch ch1 → ch1.(reorder) = ch.(reorder) →
  ch1.(recv_seq) = ch.(recv_seq) → w1.(conn).(cfg) = w.(conn).(cfg) →
  w.(conn).(pool_free_top) - 1 <= w1.(conn).(pool_free_top) →
  inbox w1.(conn).(pool_store) ch1 = inbox w.(conn).(pool_store) ch ++ l0 →
  l0 `sublist_of` [data] →
  (0 < w.(conn).(pool_free_top) → length (inbox w.(conn).(pool_store) ch) ≠ 63%nat →
   (length data <= 2048)%nat → l0 = [data]) →
  (∀ i r, ch.(reorder) !! i = Some r → nz r.(r_valid) = true →
     reord_data w1.(conn).(pool_store) r = reord_data w.(conn).(pool_store) r) →
  w2.(conn).(cfg) = w1.(conn).(cfg) →
  w2.(conn).(pool_free_top) = w1.(conn).(pool_free_top) + 1 →
  w2.(conn).(pool_store) = w1.(conn).(pool_store) →
  Drained 0 (popped (ch.(recv_seq) mod 64) r ch1) w2 tl ch3 w3 →
  Drained 0 ch w (data :: tl) ch3 w3.
Proof.
  intros Hok Hf1 Er1 Es1 Ec1 Htop1 Hi1 Hl0 Hl0' Hd1 Ec2 Htop2 Est2 [Hf3 Ec3 Es3 Hi3 Ht3 Hk3 He3 Hst3 Hp3].
  pose proof (ok_reorder _ _ Hok) as Hlen.
  assert (Hkept : ∀ i r', ch3.(reorder) !! i = Some r' → nz r'.(r_valid) = true →
    i ≠ Z.to_nat (ch.(recv_seq) mod 64) ∧ ch.(reorder) !! i = Some r' ∧
    reord_data w3.(conn).(pool_store) r' = reord_data w.(conn).(pool_store) r').
  { intros i r' Hi Hv. destruct (Hk3 i r' Hi Hv) as [Hp Hd]. simpl in Hp. rewrite Er1 in Hp.
    destruct (decide (Z.to_nat (ch.(recv_seq) mod 64) = i)) as [<-|Hne].
    - rewrite list_lookup_insert_eq in Hp by lia. by simplify_eq.
    - rewrite list_lookup_insert_ne in Hp by done. split_and!; [done..|].
      rewrite Hd, Est2. eauto. }
  constructor.
  - eapply recv_frame_trans; [|done]. eapply recv_frame_trans; [done|]. by constructor.
  - congruence.
  - rewrite Es3. cbn [length popped recv_seq set_recv_seq]. rewrite Es1, Nat2Z.inj_succ. unfold u16.
    rewrite Zplus_mod_idemp_l. f_equal. lia.
  - destruct Hi3 as (l3 & Hi3 & Hl3 & Hl3'). exists (l0 ++ l3). split_and!.
    + rewrite Hi3, inbox_popped, Est2, Hi1. by rewrite app_assoc.
    + apply (sublist_app l0 [data] l3 tl); done.
    + intros Ht0 [Hd Htl]%Forall_cons Hroom. cbn [length] in Hroom. rewrite Hl0' by (done || lia).
      simpl. f_equal. apply Hl3'; [lia|done|].
      rewrite inbox_popped, Est2, Hi1, length_app, Hl0' by (done || lia). simpl. lia.
  - lia.
  - intros i r' Hi Hv. by destruct (Hkept i r' Hi Hv) as (_ & ? & ?).
  - intros j r' Hj Hr'. destruct (decide (j = 0)) as [->|Hj0].
    + rewrite Z.add_0_r in Hr'. destruct (nz (r_valid r')) eqn:Hv; [|done].
      by destruct (Hkept _ r' Hr' Hv) as [[] _].
    + apply (He3 (j - 1) r'); [cbn [length] in Hj; lia|]. rewrite <-Hr'. do 2 f_equal.
      simpl. rewrite Es1. unfold u16. lia.
  - done.
  - intros i r' Hi Hj. apply Hp3.
    + simpl. rewrite Er1. rewrite list_lookup_insert_ne; [done|]. intros <-.
      apply (Hj 0); [cbn [length]; lia|]. by rewrite Z.add_0_r.
    + intros j Hj' ->. apply (Hj (j + 1)); [cbn [length]; lia|]. simpl. rewrite Es1. unfold u16. lia.
Qed.

Lemma wp_deliver_loop fp k idk n ch w (Q : unit → world → Prop) :
  Opened fp k idk ch w → (n <= 64)%nat → cleared n ch →
  (∀ ch' w', Opened fp k idk ch' w' →
     Drained 0 ch w (ready n w.(conn).(pool_store) ch.(reorder) ch.(recv_seq)) ch' w' →
     Q tt (upd k ch' w')) →
  wp (deliver_loop (S n) k) Q (upd k ch w).
Proof.
  revert ch w. induction n as [|n IH]; intros ch w HO Hn Hcl HQ.
  all: pose proof HO as (Hok & Hid & t & HC & Ht); pose proof (ok_recv_seq _ _ Hok) as Hseq;
    pose proof (ok_reorder _ _ Hok) as Hlen.
  all: destruct (lookup_lt_is_Some_2 ch.(reorder) (Z.to_nat (ch.(recv_seq) mod 64))) as [r Hr]; [lia|].
  all: rewrite deliver_loop_S; eapply wp_bind, wp_get_ch; [done|]; change NC_REORDER_SLOTS with 64;
    eapply wp_bind, wp_get_reord; [done|lia|done|].
  all: assert (Hstop : (nz r.(r_valid) = true → r.(r_seq) ≠ ch.(recv_seq)) →
      ready _ w.(conn).(pool_store) ch.(reorder) ch.(recv_seq) = [] → Q tt (upd k ch w))
    by (intros Hr' E; apply (HQ ch w HO); rewrite E; eapply Drained_nil; [done|];
        intros r' Er'; rewrite Hr in Er'; by simplify_eq).
  { rewrite (Hcl 0 r) in * by (rewrite ?Z.add_0_r; done || lia). simpl. by apply wp_ret, Hstop. }
  cbn [ready] in Hstop, HQ. rewrite Hr in Hstop, HQ.
  destruct (nz (r_valid r)) eqn:Ev; cbn [negb orb andb] in *; [|by apply wp_ret, Hstop].
  destruct (Z.eqb_spec (r_seq r) (recv_seq ch)) as [Es|Es]; cbn [negb orb andb] in *; [|by apply wp_ret, Hstop].
  clear Hstop. destruct (ok_reords _ _ Hok _ _ Hr) as [[Ez _]|(_ & Hrb & Hrl & _)]; [by rewrite Ez in Ev|].
  set (data := store_read w.(conn).(pool_store) (pool_ptr r.(r_buf)) (Z.to_nat r.(r_len))) in *.
  set (tl := ready n w.(conn).(pool_store) ch.(reorder) (u16 (ch.(recv_seq) + 1))) in *.
  assert (Hrest : ∀ ch1 w1 l0,
    Opened fp k idk ch1 w1 → recv_frame ch ch1 → ch1.(reorder) = ch.(reorder) →
    ch1.(recv_seq) = ch.(recv_seq) → w1.(conn).(cfg) = w.(conn).(cfg) →
    w.(conn).(pool_free_top) - 1 <= w1.(conn).(pool_free_top) →
    inbox w1.(conn).(pool_store) ch1 = inbox w.(conn).(pool_store) ch ++ l0 →
    l0 `sublist_of` [data] →
    (0 < w.(conn).(pool_free_top) → length (inbox w.(conn).(pool_store) ch) ≠ 63%nat →
   (length data <= 2048)%nat → l0 = [data]) →
    (∀ i r, ch.(reorder) !! i = Some r → nz r.(r_valid) = true →
       reord_data w1.(conn).(pool_store) r = reord_data w.(conn).(pool_store) r) →
    wp (ev_push NETCHAN_EV_DATA (Some k);; pool_put r.(r_buf);;
        put_reord k (ch.(recv_seq) mod 64) (set_r_valid 0 (set_r_buf NC_NOBUF r));;
        mod_ch k (λ ch, set_recv_seq (u16 (ch.(recv_seq) + 1)) ch);;
        deliver_loop (S n) k) Q (upd k ch1 w1)).
  { intros ch1 w1 l0 HO1 Hf1 Er1 Es1 Ec1 Htop1 Hi1 Hl0 Hl0' Hd1.
    eapply wp_pop; [done|lia|by rewrite Er1|done|]. intros w2 HO2 Ec2 Htop2 Est2.
    pose proof (ready_popped fp n w.(conn).(pool_store) w2.(conn).(pool_store) _ r ch ch1 Hok ltac:(lia)
      eq_refl Er1 Es1 ltac:(by rewrite Est2)) as Etl.
    apply (IH _ _ HO2); [lia|eapply cleared_popped; [apply HO1|by rewrite Es1|]|].
    { unfold cleared. rewrite Er1, Es1. exact Hcl. }
    rewrite Etl. fold tl. intros ch3 w3 HO3 HD3. apply HQ; [done|].
    eapply (Drained_cons fp ch w data tl ch1 w1 w2); eauto. }
  apply wp_bind. eapply wp_recv_enqueue; [done|..].
  - split; [lia|]. exists r.(r_buf). split_and!; [done|done|]. pose proof (reord_owned ch _ r Hr). lia.
  - intros rv _ Hwhy. apply (Hrest ch w []); try done; [lia|by rewrite app_nil_r|apply sublist_nil_l|].
    intros Ht0 Hnf Hdl. rewrite (queue_full fp w.(conn).(pool_store)) in Hwhy by done. lia.
  - intros b w1 HO1 Hb Hob Hl2 Hnf Htop1 Ec1 Est1 Hi1. apply (Hrest _ w1 [data]); try done; [lia|].
    intros i r' Hr' Hv'. rewrite Est1. eapply reord_write; [done..|simpl; rewrite store_read_length; lia|done|done].
Qed.

#[local] Opaque ready.

(** ** Messages of a reliable channel *)

(** The outcome of a message that is not the next one: nothing is delivered;
    at most its own slot changes, and it is kept if it is within the window,
    its slot is free and there is a buffer. *)
Record Buffered (ch : netchan_chan) (w : world) (seq : Z) (data : list Z)
    (ch' : netchan_chan) (w' : world) : Prop := {
  bf_frame : recv_frame ch ch';
  bf_cfg : w'.(conn).(cfg) = w.(conn).(cfg);
  bf_seq : ch'.(recv_seq) = ch.(recv_seq);
  bf_inbox : inbox w'.(conn).(pool_store) ch' = inbox w.(conn).(pool_store) ch;
  bf_slots : ∀ i r, ch'.(reorder) !! i = Some r → nz r.(r_valid) = true →
    (ch.(reorder) !! i = Some r ∧
     reord_data w'.(conn).(pool_store) r = reord_data w.(conn).(pool_store) r) ∨
    (i = Z.to_nat (seq mod 64) ∧ r.(r_seq) = seq ∧ 0 < s16 (seq - ch.(recv_seq)) < 64 ∧
     reord_data w'.(conn).(pool_store) r = data);
  bf_kept : ∀ i r, ch.(reorder) !! i = Some r → nz r.(r_valid) = true → ch'.(reorder) !! i = Some r;
  bf_stored : 0 < s16 (seq - ch.(recv_seq)) < 64 → 0 < w.(conn).(pool_free_top) →
    (length data <= 2048)%nat →
    ∃ r, ch'.(reorder) !! Z.to_nat (seq mod 64) = Some r ∧ nz r.(r_valid) = true
}.

Definition Accepted (ch : netchan_chan) (w : world) (seq : Z) (data : list Z)
    (ch' : netchan_chan) (w' : world) : Prop :=
  if seq =? ch.(recv_seq)
  then Drained 1 ch w (data :: ready 64 w.(conn).(pool_store) ch.(reorder) (u16 (seq + 1))) ch' w'
  else Buffered ch w seq data ch' w'.

Lemma src_data_le ch m src len : src_ok ch src len → len <= 2048 → (length (src_data m src len) <= 2048)%nat.
Proof. intros Hs Hl. pose proof (src_data_length ch m src len Hs). lia. Qed.

Lemma Drained_first ch w data tl ch1 w1 w2 ch3 w3 l0 :
  recv_frame ch ch1 → ch1.(reorder) = ch.(reorder) →
  ch1.(recv_seq) = ch.(recv_seq) → w1.(conn).(cfg) = w.(conn).(cfg) →
  w.(conn).(pool_free_top) - 1 <= w1.(conn).(pool_free_top) →
  inbox w1.(conn).(pool_store) ch1 = inbox w.(conn).(pool_store) ch ++ l0 →
  l0 `sublist_of` [data] →
  (0 < w.(conn).(pool_free_top) → length (inbox w.(conn).(pool_store) ch) ≠ 63%nat →
   (length data <= 2048)%nat → l0 = [data]) →
  (∀ i r, ch.(reorder) !! i = Some r → nz r.(r_valid) = true →
     reord_data w1.(conn).(pool_store) r = reord_data w.(conn).(pool_store) r) →
  w2.(conn).(cfg) = w1.(conn).(cfg) → w2.(conn).(pool_free_top) = w1.(conn).(pool_free_top) →
  w2.(conn).(pool_store) = w1.(conn).(pool_store) →
  Drained 0 (set_recv_seq (u16 (ch1.(recv_seq) + 1)) ch1) w2 tl ch3 w3 →
  Drained 1 ch w (data :: tl) ch3 w3.
Proof.
  intros Hf1 Er1 Es1 Ec1 Htop1 Hi1 Hl0 Hl0' Hd1 Ec2 Htop2 Est2 [Hf3 Ec3 Es3 Hi3 Ht3 Hk3 He3 Hst3 Hp3].
  constructor.
  - eapply recv_frame_trans; [|done]. eapply recv_frame_trans; [done|]. by constructor.
  - congruence.
  - rewrite Es3. cbn [length recv_seq set_recv_seq]. rewrite Es1, Nat2Z.inj_succ. unfold u16.
    rewrite Zplus_mod_idemp_l. f_equal. lia.
  - destruct Hi3 as (l3 & Hi3 & Hl3 & Hl3'). exists (l0 ++ l3). change (inbox ?m (set_recv_seq _ ?c)) with (inbox m c) in *.
    split_and!.
    + rewrite Hi3, Est2, Hi1. by rewrite app_assoc.
    + apply (sublist_app l0 [data] l3 tl); done.
    + intros Ht0 [Hd Htl]%Forall_cons Hroom. cbn [length] in Hroom. rewrite Hl0' by (done || lia).
      simpl. f_equal. apply Hl3'; [lia|done|].
      rewrite Est2, Hi1, length_app, Hl0' by (done || lia). simpl. lia.
  - lia.
  - intros i r' Hi Hv. destruct (Hk3 i r' Hi Hv) as [Hp Hd]. simpl in Hp. rewrite Er1 in Hp.
    split; [done|]. rewrite Hd, Est2. eauto.
  - intros j r' Hj Hr'. apply (He3 (j - 1) r'); [cbn [length] in Hj; lia|]. rewrite <-Hr'. do 2 f_equal.
    simpl. rewrite Es1. unfold u16. lia.
  - done.
  - intros i r' Hi Hj. apply Hp3.
    + simpl. by rewrite Er1.
    + intros j Hj' ->. apply (Hj (j + 1)); [cbn [length]; lia|]. simpl. rewrite Es1. unfold u16. lia.
Qed.

(** The next message, delivered. *)
Lemma wp_deliver_next fp k idk ch w src len (Q : unit → world → Prop) :
  Opened fp k idk ch w → src_ok ch src len →
  (∀ ch' w', Opened fp k idk ch' w' →
     Drained 1 ch w (src_data w.(conn).(pool_store) src len ::
       ready 64 w.(conn).(pool_store) ch.(reorder) (u16 (ch.(recv_seq) + 1))) ch' w' →
     Q tt (upd k ch' w')) →
  wp (_ ← chan_recv_enqueue k src len; ev_push NETCHAN_EV_DATA (Some k);;
      mod_ch k (λ ch, set_recv_seq (u16 (ch.(recv_seq) + 1)) ch);; chan_deliver_reordered k)
    Q (upd k ch w).
Proof.
  intros HO Hs HQ. pose proof HO as (Hok & _ & _).
  set (data := src_data w.(conn).(pool_store) src len) in *.
  set (rd := ready 64 w.(conn).(pool_store) ch.(reorder) (u16 (ch.(recv_seq) + 1))) in *.
  assert (Hrest : ∀ ch1 w1 l0,
    Opened fp k idk ch1 w1 → recv_frame ch ch1 → ch1.(reorder) = ch.(reorder) →
    ch1.(recv_seq) = ch.(recv_seq) → w1.(conn).(cfg) = w.(conn).(cfg) →
    w.(conn).(pool_free_top) - 1 <= w1.(conn).(pool_free_top) →
    inbox w1.(conn).(pool_store) ch1 = inbox w.(conn).(pool_store) ch ++ l0 →
    l0 `sublist_of` [data] →
    (0 < w.(conn).(pool_free_top) → length (inbox w.(conn).(pool_store) ch) ≠ 63%nat →
   (length data <= 2048)%nat → l0 = [data]) →
    (∀ i r, ch.(reorder) !! i = Some r → nz r.(r_valid) = true →
       reord_data w1.(conn).(pool_store) r = reord_data w.(conn).(pool_store) r) →
    wp (ev_push NETCHAN_EV_DATA (Some k);;
        mod_ch k (λ ch, set_recv_seq (u16 (ch.(recv_seq) + 1)) ch);; chan_deliver_reordered k)
      Q (upd k ch1 w1)).
  { intros ch1 w1 l0 HO1 Hf1 Er1 Es1 Ec1 Htop1 Hi1 Hl0 Hl0' Hd1.
    apply wp_bind. eapply wp_ev_push; [done|intros ? [= <-]; by eapply Opened_live|].
    intros w2 HO2 Ec2 Htop2 Est2. pose proof HO2 as (Hok2 & _ & t2 & HC2 & _).
    eapply wp_bind, wp_mod_ch; [done|]. set (ch2 := set_recv_seq _ ch1).
    apply (wp_deliver_loop fp k idk 64); [|done|intros j r ?; lia|].
    { eapply Opened_set; [done|..|done|done]. destruct Hok2. constructor; try done. apply u16_in. }
    replace (ready 64 _ _ _) with rd.
    2: { unfold rd, ch2. cbn [reorder recv_seq set_recv_seq]. rewrite Er1, Es1, Est2. symmetry.
         apply ready_ext; [lia|apply u16_in|by intros|exact Hd1]. }
    intros ch3 w3 HO3 HD3. apply HQ; [done|]. eapply (Drained_first ch w data rd ch1 w1 w2); eauto. }
  apply wp_bind. eapply wp_recv_enqueue; [done|done|..].
  - intros rv _ Hwhy. apply (Hrest ch w []); try done; [lia|by rewrite app_nil_r|apply sublist_nil_l|].
    intros Ht0 Hnf Hdl. rewrite (queue_full fp w.(conn).(pool_store)) in Hwhy by done. 
    pose proof (src_data_length ch w.(conn).(pool_store) src len Hs) as Hdl'. fold data in Hdl'. lia.
  - intros b w1 HO1 Hb Hob Hl2 Hnf Htop1 Ec1 Est1 Hi1. apply (Hrest _ w1 [data]); try done; [lia|].
    intros i r' Hr' Hv'. unfold reord_data. rewrite Est1.
    eapply reord_write; [done..|by eapply src_data_le|done|done].
Qed.

(** The channel with message [seq] kept in its slot. *)
Definition kept (seq b len : Z) (ch : netchan_chan) : netchan_chan :=
  set_reorder (<[Z.to_nat (seq mod 64) := mk_reord seq b len 1]> ch.(reorder)) ch.

Lemma kept_ok fp seq b len ch :
  chan_ok fp ch → in16 seq → buf_ok b → 0 <= len <= 2048 → chan_ok fp (kept seq b len ch).
Proof.
  intros Hok Hs Hb Hl. destruct Hok. constructor; try done; simpl.
  - by rewrite length_insert.
  - intros i r Hi. destruct (decide (Z.to_nat (seq mod 64) = i)) as [<-|].
    + rewrite list_lookup_insert_eq in Hi by lia. simplify_eq. right. simpl. split_and!; try done; lia.
    + rewrite list_lookup_insert_ne in Hi by done. eauto.
Qed.

Lemma kept_owned seq b len ch r x :
  buf_ok x → ch.(reorder) !! Z.to_nat (seq mod 64) = Some r → r.(r_buf) = -1 →
  owned x (kept seq b len ch) = owned x ch + cnt x b.
Proof.
  intros Hx Hr Hb. unfold owned. simpl. rewrite (sumf_insert _ _ _ r) by done. simpl.
  rewrite Hb, (cnt_nobuf x) by done. lia.
Qed.

Lemma Buffered_same fp ch w seq data :
  chan_ok fp ch →
  (0 < s16 (seq - ch.(recv_seq)) < 64 → 0 < w.(conn).(pool_free_top) → (length data <= 2048)%nat →
   ∃ r, ch.(reorder) !! Z.to_nat (seq mod 64) = Some r ∧ nz r.(r_valid) = true) →
  Buffered ch w seq data ch w.
Proof. intros Hok H. constructor; try done. intros i r Hi Hv. by left. Qed.

Lemma wp_reliable_deliver fp k idk ch w seq src len (Q : unit → world → Prop) :
  Opened fp k idk ch w → src_ok ch src len → in16 seq →
  (∀ ch' w', Opened fp k idk ch' w' →
     Accepted ch w seq (src_data w.(conn).(pool_store) src len) ch' w' → Q tt (upd k ch' w')) →
  wp (reliable_deliver k seq src len) Q (upd k ch w).
Proof.
  intros HO Hs Hseq HQ. pose proof HO as (Hok & Hid & t & HC & Ht). unfold Accepted in HQ.
  unfold reliable_deliver. eapply wp_bind, wp_get_ch; [done|].
  destruct (Z.eqb_spec seq (recv_seq ch)) as [->|Hne].
  { eapply wp_deliver_next; [done..|]. exact HQ. }
  pose proof (ok_reorder _ _ Hok) as Hlen. unfold NC_REORDER_SLOTS, NC_MAX_MSG.
  pose proof (src_data_length ch w.(conn).(pool_store) src len Hs) as Hdl.
  set (data := src_data w.(conn).(pool_store) src len) in *.
  apply wp_if; intros Hd.
  2: { apply wp_ret, HQ; [done|]. eapply Buffered_same; [done|]. lia. }
  destruct (lookup_lt_is_Some_2 ch.(reorder) (Z.to_nat (seq mod 64))) as [r Hr]; [lia|].
  eapply wp_bind, wp_get_reord; [done|lia|done|].
  destruct (nz (r_valid r)) eqn:Ev; simpl.
  { apply wp_ret, HQ; [done|]. eapply Buffered_same; [done|eauto]. }
  apply wp_if; intros Hl.
  2: { apply wp_ret, HQ; [done|]. eapply Buffered_same; [done|lia]. }
  apply wp_bind. eapply wp_pool_get; [done| |].
  { intros Htop. simpl. apply wp_ret, HQ; [done|]. eapply Buffered_same; [done|lia]. }
  intros b w1 t1 Hb Hob HC1 Ht1 Htop1 Hcfg1 Hst1.
  apply wp_if; intros E3; [unfold buf_ok, NC_NOBUF in *; lia|].
  apply wp_bind, wp_upd; [apply commutes_memcpy|].
  eapply wp_mono; [apply (memcpy_pool_ok fp _ ch); [apply HC1|done|lia|done..]|].
  intros [] w2 (Hc2 & Hs2 & Hst2). rewrite Hst1 in Hst2. fold data in Hst2.
  pose proof (CInv_same _ _ _ _ _ _ HC1 Hs2 Hc2) as HC2.
  eapply wp_put_reord; [done|lia|]. destruct Hs as [Hl0 _].
  assert (Hrb : r.(r_buf) = -1).
  { destruct (ok_reords _ _ Hok _ _ Hr) as [[_ ?]|(E & _)]; [done|]. by rewrite E in Ev. }
  apply (HQ (kept seq b len ch)).
  { split; [apply kept_ok; [done..|lia]|]. split; [done|]. exists t1. split; [done|].
    intros x Hx. rewrite (kept_owned _ _ _ _ r) by done. specialize (Ht1 x Hx). lia. }
  assert (Hdle : (length data <= 2048)%nat) by lia.
  constructor; try done.
  - by rewrite (same_cfg _ _ Hs2).
  - rewrite Hst2. exact (inbox_write fp ch _ b data Hok Hob Hdle).
  - intros i r' Hi Hv. simpl in Hi. destruct (decide (Z.to_nat (seq mod 64) = i)) as [<-|].
    + rewrite list_lookup_insert_eq in Hi by lia. simplify_eq. right. simpl. split_and!; try done; [lia..|].
      unfold reord_data. simpl. rewrite Hst2, <-Hdl, Nat2Z.id. apply store_read_write.
    + rewrite list_lookup_insert_ne in Hi by done. left. split; [done|]. unfold reord_data.
      rewrite Hst2. by eapply reord_write.
  - intros i r' Hi Hv. simpl. destruct (decide (Z.to_nat (seq mod 64) = i)) as [<-|]; [congruence|].
    by rewrite list_lookup_insert_ne.
  - intros _ _ _. simpl. rewrite list_lookup_insert_eq by lia. eauto.
Qed.
