(* ===== verification/NcFrag.v ===== *)
(** * Fragment reassembly of netchan

    The slots of [frags]: finding and allocating one, storing a fragment,
    compacting a complete message in place and releasing the slot.  The
    fragments present never overlap as long as no fragment is longer than
    [max_frag_payload]; then the compaction stays inside its buffer and yields
    the concatenation of the fragments. *)

From stdpp Require Import gmap.
From S2P Require Import Prelude NcState NcOps NcProto NcApi NcInv NcChan.

#[local] Ltac Zify.zify_post_hook ::= Z.to_euclidean_division_equations.

(** ** Changes inside one buffer *)

Definition only_buf (b : Z) (m m' : gmap Z Z) : Prop :=
  ∀ x, ¬ (pool_ptr b <= x < pool_ptr b + 2048) → m' !! x = m !! x.

Lemma only_buf_refl b m : only_buf b m m.
Proof. by intros x. Qed.

Lemma only_buf_trans b m1 m2 m3 : only_buf b m1 m2 → only_buf b m2 m3 → only_buf b m1 m3.
Proof. intros H1 H2 x Hx. rewrite H2, H1; done. Qed.

Lemma only_buf_write b m off bs :
  0 <= off → off + Z.of_nat (length bs) <= 2048 → only_buf b m (store_write m (pool_ptr b + off) bs).
Proof. intros ? ? x Hx. apply store_write_ne. lia. Qed.

Lemma only_buf_read b b' m m' off n :
  only_buf b m m' → b' ≠ b → 0 <= off → off + Z.of_nat n <= 2048 →
  store_read m' (pool_ptr b' + off) n = store_read m (pool_ptr b' + off) n.
Proof.
  intros H Hne Ho Hn. apply store_read_ext. intros x Hx. apply H.
  pose proof (bufs_apart b b' 2048 ltac:(auto) ltac:(lia)). unfold pool_ptr, NC_MAX_MSG in *. lia.
Qed.

(** The queue and the reorder slots do not hold [b]. *)
Definition not_recv (b : Z) (ch : netchan_chan) : Prop :=
  sumf (λ e, cnt b e.(e_buf)) ch.(recv_queue) = 0 ∧ sumf (λ r, cnt b r.(r_buf)) ch.(reorder) = 0.

Lemma sumf_cnt_ne {A} (f : A → Z) (l : list A) b i x :
  sumf (λ x, cnt b (f x)) l = 0 → l !! i = Some x → f x ≠ b.
Proof.
  intros H Hx E. pose proof (sumf_elem (λ x, cnt b (f x)) l i x (λ _, cnt_nonneg _ _) Hx) as H'.
  simpl in H'. rewrite E, cnt_self in H'. lia.
Qed.

Lemma inbox_only fp ch m m' b :
  chan_ok fp ch → not_recv b ch → only_buf b m m' → inbox m' ch = inbox m ch.
Proof.
  intros Hok [Hn _] Hm. unfold inbox. apply list_fmap_ext. intros j i Hi.
  apply list_elem_of_lookup_2 in Hi. pose proof (ring_range 64 _ _ _ ltac:(auto) Hi) as Hr.
  apply elem_of_ring in Hi; [|auto|done]. unfold rent_msg.
  destruct (ch.(recv_queue) !! Z.to_nat i) as [e|] eqn:He; [|done].
  destruct (ok_rents _ _ Hok _ _ He) as [[Hnr _]|(_ & _ & Hle)].
  { rewrite Z2Nat.id in Hnr by lia. done. }
  rewrite <-(Z.add_0_r (pool_ptr e.(e_buf))). eapply only_buf_read; [done|by eapply (sumf_cnt_ne e_buf)|lia..].
Qed.

Lemma owned_le_frags fp k idk ch w i f :
  Opened fp k idk ch w → ch.(frags) !! i = Some f → buf_ok f.(f_buf) → not_recv f.(f_buf) ch.
Proof.
  intros HO Hf Hb. pose proof (Opened_one _ _ _ _ _ _ HO Hb) as H1. unfold owned in H1.
  pose proof (sumf_elem (λ x, cnt f.(f_buf) x.(f_buf)) _ _ _ (λ _, cnt_nonneg _ _) Hf) as H.
  simpl in H. rewrite cnt_self in H.
  pose proof (sumf_nonneg (λ o, cnt f.(f_buf) o.(o_buf)) ch.(outgoing) (λ _, cnt_nonneg _ _)).
  pose proof (sumf_nonneg (λ e, cnt f.(f_buf) e.(e_buf)) ch.(recv_queue) (λ _, cnt_nonneg _ _)).
  pose proof (sumf_nonneg (λ r, cnt f.(f_buf) r.(r_buf)) ch.(reorder) (λ _, cnt_nonneg _ _)).
  split; lia.
Qed.

Lemma frag_owned ch i f : ch.(frags) !! i = Some f → 1 <= owned f.(f_buf) ch.
Proof.
  intros Hf. unfold owned.
  pose proof (sumf_elem (λ x, cnt f.(f_buf) x.(f_buf)) _ _ _ (λ _, cnt_nonneg _ _) Hf) as H.
  simpl in H. rewrite cnt_self in H.
  pose proof (sumf_nonneg (λ o, cnt f.(f_buf) o.(o_buf)) ch.(outgoing) (λ _, cnt_nonneg _ _)).
  pose proof (sumf_nonneg (λ e, cnt f.(f_buf) e.(e_buf)) ch.(recv_queue) (λ _, cnt_nonneg _ _)).
  pose proof (sumf_nonneg (λ r, cnt f.(f_buf) r.(r_buf)) ch.(reorder) (λ _, cnt_nonneg _ _)).
  lia.
Qed.

(** ** Bits *)

Lemma land_one_shift m i : 0 <= i → nz (m .& (1 << i)) = Z.testbit m i.
Proof.
  intros Hi. unfold nz. rewrite Z.shiftl_1_l. destruct (Z.testbit m i) eqn:E.
  - destruct (Z.eqb_spec (m .& 2 ^ i) 0) as [H|]; [|done].
    assert (Z.testbit (m .& 2 ^ i) i = true) by (by rewrite Z.land_spec, Z.pow2_bits_true, E).
    rewrite H, Z.bits_0 in *. done.
  - destruct (Z.eqb_spec (m .& 2 ^ i) 0) as [|H]; [done|]. exfalso. apply H, Z.bits_inj'.
    intros n Hn. rewrite Z.land_spec, Z.bits_0. destruct (decide (n = i)) as [->|]; [by rewrite E|].
    by rewrite Z.pow2_bits_false, andb_false_r by done.
Qed.

Lemma lor_one_shift m i j : 0 <= i → Z.testbit (m .| (1 << i)) j = Z.testbit m j || (i =? j).
Proof.
  intros Hi. rewrite Z.lor_spec, Z.shiftl_1_l. f_equal. apply Z.pow2_bits_eqb. done.
Qed.

Lemma sumf_ext {A} (f g : A → Z) (l : list A) : (∀ x, x ∈ l → f x = g x) → sumf f l = sumf g l.
Proof.
  induction l as [|x l IH]; intros H; simpl; [done|]. rewrite H, IH by set_solver. done.
Qed.

Lemma sumf_single (l : list Z) (i : Z) : NoDup l → i ∈ l → sumf (λ j, Z.b2z (i =? j)) l = 1.
Proof.
  induction l as [|j l IH]; intros Hn Hi; [set_solver|]. apply NoDup_cons in Hn as [Hj Hn]. simpl.
  destruct (Z.eqb_spec i j) as [->|Hne].
  - simpl. rewrite sumf_zero; [done|]. intros x Hx. destruct (Z.eqb_spec j x); [set_solver|done].
  - apply elem_of_cons in Hi as [|Hi]; [done|]. rewrite IH by done. done.
Qed.

Lemma sumf_plus {A} (f g : A → Z) (l : list A) : sumf (λ x, f x + g x) l = sumf f l + sumf g l.
Proof. induction l; simpl; lia. Qed.

Lemma bits32_set m i : 0 <= i < 32 → Z.testbit m i = false → bits32 (m .| (1 << i)) = bits32 m + 1.
Proof.
  intros Hi Hm. unfold bits32.
  assert (E : sumf (λ j, Z.b2z (i =? j)) (upto 32) = 1).
  { apply sumf_single; [apply NoDup_seqZ|apply elem_of_seqZ; lia]. }
  transitivity (sumf (λ j, Z.b2z (Z.testbit m j) + Z.b2z (i =? j)) (upto 32)); [|rewrite sumf_plus; lia].
  apply sumf_ext. intros j _. cbv beta. rewrite lor_one_shift by lia.
  destruct (Z.eqb_spec i j) as [<-|]; [by rewrite Hm|]. rewrite orb_false_r. cbn [Z.b2z]. lia.
Qed.

Lemma sumf_le_length (f : Z → bool) (l : list Z) : sumf (λ i, Z.b2z (f i)) l <= Z.of_nat (length l).
Proof. induction l as [|x l IH]; simpl; [lia|]. destruct (f x); simpl; lia. Qed.

(** [n] bits among the first [n] positions are all of them. *)
Lemma bits32_full m n :
  0 <= n <= 32 → (∀ i, 0 <= i < 32 → Z.testbit m i = true → i < n) → bits32 m = n →
  ∀ i, 0 <= i < n → Z.testbit m i = true.
Proof.
  intros Hn Hlt Hb i Hi. destruct (Z.testbit m i) eqn:E; [done|]. exfalso.
  assert (bits32 m <= n - 1); [|lia]. unfold bits32, upto.
  replace 32 with (i + (1 + ((n - i - 1) + (32 - n)))) by lia.
  rewrite seqZ_app, seqZ_app, seqZ_app, !sumf_app by lia.
  rewrite (sumf_zero _ (seqZ (0 + i + 1 + (n - i - 1)) (32 - n))).
  2: { intros j Hj%elem_of_seqZ. destruct (Z.testbit m j) eqn:Ej; [|done]. specialize (Hlt j). lia. }
  pose proof (sumf_le_length (Z.testbit m) (seqZ 0 i)) as H1. rewrite length_seqZ in H1.
  pose proof (sumf_le_length (Z.testbit m) (seqZ (0 + i + 1) (n - i - 1))) as H2. rewrite length_seqZ in H2.
  rewrite Z.add_0_l in *. change (seqZ i 1) with [i]. cbn [sumf]. rewrite E. cbn [Z.b2z]. lia.
Qed.

(** ** Compaction *)

Definition off_at (offsets : list Z) (i : Z) : Z := default 0 (offsets !! Z.to_nat i).

(** Fragment [i] of the message in buffer [b]. *)
Definition piece (fp : Z) (m : gmap Z Z) (b : Z) (offsets : list Z) (i : Z) : list Z :=
  store_read m (pool_ptr b + i * fp) (Z.to_nat (off_at offsets i)).

Lemma store_read_app m a n1 n2 :
  store_read m a (n1 + n2) = store_read m a n1 ++ store_read m (a + Z.of_nat n1) n2.
Proof.
  revert a. induction n1 as [|n1 IH]; intros a; simpl; [by rewrite Z.add_0_r|].
  f_equal. rewrite IH. do 2 f_equal. lia.
Qed.

Section Compact.
Context (fp cfp b total : Z) (offsets : list Z).
Hypothesis Hb : buf_ok b.
Hypothesis Hfp : 0 <= fp.
Hypothesis Hoffs : ∀ i, 0 <= i < total →
  ∃ n, offsets !! Z.to_nat i = Some n ∧ 0 <= n <= fp ∧ i * fp + n <= 2048.

Lemma off_at_ok i : 0 <= i < total →
  aget offsets i = Some (off_at offsets i) ∧ 0 <= off_at offsets i <= fp ∧
  i * fp + off_at offsets i <= 2048.
Proof.
  intros Hi. destruct (Hoffs i Hi) as (n & E & ? & ?). rewrite aget_lookup by lia.
  unfold off_at. by rewrite E.
Qed.

Lemma compact_loop n i pos m0 w (Q : Z → world → Prop) :
  conn_ok cfp w.(conn) → 0 <= i → i + Z.of_nat n = total → 0 <= pos <= i * fp → pos <= 2048 →
  only_buf b m0 w.(conn).(pool_store) →
  store_read w.(conn).(pool_store) (pool_ptr b) (Z.to_nat pos) =
    concat (piece fp m0 b offsets <$> seqZ 0 i) →
  (∀ j, i <= j < total → piece fp w.(conn).(pool_store) b offsets j = piece fp m0 b offsets j) →
  (∀ pos' w', conn_ok cfp w'.(conn) → Same w.(conn) w'.(conn) → only_buf b m0 w'.(conn).(pool_store) →
     0 <= pos' <= 2048 →
     store_read w'.(conn).(pool_store) (pool_ptr b) (Z.to_nat pos') =
       concat (piece fp m0 b offsets <$> seqZ 0 total) → Q pos' w') →
  wp (mloop (seqZ i (Z.of_nat n)) (λ i pos,
    n ← must (aget offsets i);
    (if pos =? i * fp then mret tt
     else bs ← pool_read (pool_ptr b + i * fp) n; pool_write (pool_ptr b + pos) bs);;
    mret (inl (pos + n))) pos) Q w.
Proof.
  revert i pos w Q. induction n as [|n IH]; intros i pos w Q Hc Hi0 Hin Hpos Hpos2 Honly Hdone Hrest HQ.
  { simpl. apply wp_ret, HQ; [done|apply Same_refl|done|lia|]. rewrite Hdone. do 3 f_equal. lia. }
  rewrite seqZ_cons by lia. replace (Z.pred (Z.of_nat (S n))) with (Z.of_nat n) by lia.
  cbn [mloop]. destruct (off_at_ok i ltac:(lia)) as (Eo & Ho & Ho2).
  apply wp_bind, wp_bind, (wp_must _ _ _ _ Eo). apply wp_bind.
  assert (Hstep : ∀ w1, conn_ok cfp w1.(conn) → Same w.(conn) w1.(conn) →
    only_buf b m0 w1.(conn).(pool_store) →
    store_read w1.(conn).(pool_store) (pool_ptr b) (Z.to_nat (pos + off_at offsets i)) =
      concat (piece fp m0 b offsets <$> seqZ 0 (Z.succ i)) →
    (∀ j, Z.succ i <= j < total →
      piece fp w1.(conn).(pool_store) b offsets j = piece fp m0 b offsets j) →
    wp (mret (inl (pos + off_at offsets i))) (λ r, wp (match r with
      | inl a => mloop (seqZ (Z.succ i) (Z.of_nat n)) (λ i pos,
          n ← must (aget offsets i);
          (if pos =? i * fp then mret tt
           else bs ← pool_read (pool_ptr b + i * fp) n; pool_write (pool_ptr b + pos) bs);;
          mret (inl (pos + n))) a
      | inr a => mret a end) Q) w1).
  { intros w1 Hc1 Hs1 Ho1 Hd1 Hr1. apply wp_ret. apply (IH (Z.succ i)); try done; [lia|lia|nia|lia|].
    intros pos' w' Hc' Hs' Ho' Hp' Hd'. apply HQ; try done. by eapply Same_trans. }
  assert (Hsucc : concat (piece fp m0 b offsets <$> seqZ 0 (Z.succ i)) =
    concat (piece fp m0 b offsets <$> seqZ 0 i) ++ piece fp m0 b offsets i).
  { rewrite <-Z.add_1_r, seqZ_app by lia. change (seqZ (0 + i) 1) with [0 + i].
    rewrite fmap_app, concat_app. simpl. by rewrite app_nil_r. }
  pose proof (Hrest i ltac:(lia)) as Hpi. unfold piece at 1 in Hpi.
  apply wp_if; intros Epos.
  - apply wp_ret, Hstep; [done|apply Same_refl|done| |intros j Hj; apply Hrest; lia].
    rewrite Z2Nat.inj_add, store_read_app by lia. rewrite Hdone, Hsucc. f_equal.
    rewrite Z2Nat.id by lia. replace pos with (i * fp) by lia. done.
  - apply wp_bind. eapply wp_mono; [apply (pool_read_ok cfp)|]; [done|..];
      [unfold pool_ptr, buf_ok, NC_MAX_MSG in *; lia..|].
    intros bs w' (-> & Ebs & Hin8 & Hlen). rewrite Hpi in Ebs. subst bs.
    eapply wp_mono; [apply (pool_write_ok cfp)|]; [done|..|done|];
      [unfold pool_ptr, buf_ok, NC_MAX_MSG in *; lia..|].
    intros [] w1 (Hc1 & Hs1 & Hst1). apply Hstep; try done; rewrite Hst1.
    + eapply only_buf_trans; [done|]. apply only_buf_write; lia.
    + rewrite Z2Nat.inj_add, store_read_app by lia. rewrite Hsucc. f_equal.
      * rewrite store_read_write_ne by lia. done.
      * rewrite Z2Nat.id by lia. replace (Z.to_nat (off_at offsets i)) with (length (piece fp m0 b offsets i)) by lia.
        apply store_read_write.
    + intros j Hj. transitivity (piece fp w.(conn).(pool_store) b offsets j); [|apply Hrest; lia].
      apply store_read_write_ne.
      destruct (off_at_ok j ltac:(lia)) as (_ & Hoj & _). nia.
Qed.

Lemma frag_compact_ok w :
  conn_ok cfp w.(conn) → 0 <= total →
  wp (frag_compact (pool_ptr b) fp total offsets) (λ pos w', conn_ok cfp w'.(conn) ∧
    Same w.(conn) w'.(conn) ∧ only_buf b w.(conn).(pool_store) w'.(conn).(pool_store) ∧
    0 <= pos <= 2048 ∧
    store_read w'.(conn).(pool_store) (pool_ptr b) (Z.to_nat pos) =
      concat (piece fp w.(conn).(pool_store) b offsets <$> upto total)) w.
Proof.
  intros Hc Ht. unfold frag_compact, upto. rewrite <-(Z2Nat.id total) at 1 by done.
  apply (compact_loop _ 0 0 w.(conn).(pool_store)); [done|lia..|done|done|done|].
  intros pos' w' H1 H2 H3 H4 H5. exact (conj H1 (conj H2 (conj H3 (conj H4 H5)))).
Qed.
End Compact.

Lemma commutes_mloop {A} (l : list Z) (body : Z → A → M world (A + A)) a :
  (∀ i a, commutes (body i a)) → commutes (mloop l body a).
Proof.
  intros Hb. revert a. induction l as [|i l IH]; intros a; simpl; [apply commutes_ret|].
  apply commutes_bind; [apply Hb|]. intros [a'|a']; [apply IH|apply commutes_ret].
Qed.

Lemma commutes_compact base fp total offsets : commutes (frag_compact base fp total offsets).
Proof.
  apply commutes_mloop. intros i pos. apply commutes_bind; [apply commutes_must|]. intros n.
  apply commutes_bind; [|intros; apply commutes_ret]. destruct (_ =? _); [apply commutes_ret|].
  apply commutes_bind; [apply commutes_pool_read|]. intros bs. apply commutes_pool_write.
Qed.

(** ** Slots *)

Lemma find_frag_Some i0 seq fs i :
  find_frag i0 seq fs = Some i →
  ∃ f, i0 <= i ∧ fs !! Z.to_nat (i - i0) = Some f ∧ nz f.(f_active) = true ∧ f.(f_seq) = seq.
Proof.
  revert i0. induction fs as [|f fs IH]; intros i0 H; simpl in *; [done|].
  destruct (nz (f_active f) && (f_seq f =? seq)) eqn:E.
  - apply andb_prop in E as [? ?%Z.eqb_eq]. simplify_eq. exists f. rewrite Z.sub_diag. simpl.
    split_and!; try done; lia.
  - destruct (IH _ H) as (f' & Hi & Hf' & ?). exists f'. split; [lia|]. split; [|done].
    replace (Z.to_nat (i - i0)) with (S (Z.to_nat (i - (i0 + 1)))) by lia. done.
Qed.

Lemma first_inactive_Some i0 fs i :
  first_inactive i0 fs = Some i →
  ∃ f, i0 <= i ∧ fs !! Z.to_nat (i - i0) = Some f ∧ nz f.(f_active) = false.
Proof.
  revert i0. induction fs as [|f fs IH]; intros i0 H; simpl in *; [done|].
  destruct (nz (f_active f)) eqn:E.
  - destruct (IH _ H) as (f' & Hi & Hf' & ?). exists f'. split; [lia|]. split; [|done].
    replace (Z.to_nat (i - i0)) with (S (Z.to_nat (i - (i0 + 1)))) by lia. done.
  - simplify_eq. exists f. rewrite Z.sub_diag. simpl. split_and!; try done; lia.
Qed.

(** A slot newly allocated for message [seq], and a slot after fragment [idx]
    of [n] bytes is stored. *)
Definition fresh_frag (seq total b : Z) : nc_frag_asm := mk_frag seq total 0 0 b (replicate 32 0) 1.

Definition stored_frag (idx n : Z) (f : nc_frag_asm) : nc_frag_asm :=
  set_f_have (u8 (f.(f_have) + 1))
    (set_f_bitmask (f.(f_bitmask) .| (1 << idx))
      (set_f_offsets (<[Z.to_nat idx := n]> f.(f_offsets)) f)).

Definition with_frag (i : Z) (f : nc_frag_asm) (ch : netchan_chan) : netchan_chan :=
  set_frags (<[Z.to_nat i := f]> ch.(frags)) ch.

Lemma with_frag_ok fp i f ch : chan_ok fp ch → frag_ok fp f → chan_ok fp (with_frag i f ch).
Proof.
  intros Hok Hf. destruct Hok. constructor; try done; simpl.
  - by rewrite length_insert.
  - intros j f' Hj. destruct (decide (Z.to_nat i = j ∧ (Z.to_nat i < length ch.(frags))%nat)) as [[<- ?]|Hne].
    + rewrite list_lookup_insert_eq in Hj by done. by simplify_eq.
    + destruct (decide (Z.to_nat i = j)) as [<-|].
      * rewrite list_insert_ge in Hj by lia. eauto.
      * rewrite list_lookup_insert_ne in Hj by done. eauto.
Qed.

Lemma with_frag_owned i f f' ch x :
  ch.(frags) !! Z.to_nat i = Some f →
  owned x (with_frag i f' ch) = owned x ch - cnt x f.(f_buf) + cnt x f'.(f_buf).
Proof. intros Hf. unfold owned. simpl. rewrite (sumf_insert _ _ _ f) by done. simpl. lia. Qed.

Lemma fresh_frag_ok fp seq total b : 0 < fp → buf_ok b → 2 <= total <= 32 → frag_ok fp (fresh_frag seq total b).
Proof.
  intros. right. simpl. split_and!; try done; try (unfold buf_ok in *; lia).
  intros i Hi. by rewrite Z.bits_0.
Qed.

Lemma bits32_range m : 0 <= bits32 m <= 32.
Proof.
  unfold bits32. split; [apply sumf_nonneg; intros; destruct (Z.testbit _ _); simpl; lia|].
  pose proof (sumf_le_length (Z.testbit m) (upto 32)) as H. unfold upto in *. rewrite length_seqZ in H. lia.
Qed.

Lemma stored_frag_ok fp idx n f :
  frag_ok fp f → f.(f_active) = 1 → 0 <= idx < f.(f_total) → Z.testbit f.(f_bitmask) idx = false →
  0 <= n <= fp → idx * fp + n <= 2048 → frag_ok fp (stored_frag idx n f).
Proof.
  intros [[E _]|(Ea & Hb & Ht & Hl & Hh & Hbits)] Ha Hi Hbit Hn Hr; [congruence|]. right. simpl.
  pose proof (bits32_range f.(f_bitmask)). pose proof (bits32_set f.(f_bitmask) idx ltac:(lia) Hbit) as Hs.
  pose proof (bits32_range (f.(f_bitmask) .| (1 << idx))).
  split; [done|]. split; [done|]. split; [done|]. split; [by rewrite length_insert|]. split.
  - rewrite Hs, Hh. apply Z.mod_small. lia.
  - intros j Hj Hjb. rewrite lor_one_shift in Hjb by lia.
    destruct (Z.eqb_spec idx j) as [<-|Hne].
    + split; [lia|]. exists n. rewrite list_lookup_insert_eq by lia. done.
    + rewrite orb_false_r in Hjb. rewrite list_lookup_insert_ne by lia. auto.
Qed.

(** The slot that [frag_store] works on: one found, or a fresh one. *)
Definition Slot (ch : netchan_chan) (w : world) (seq total i : Z) (f : nc_frag_asm)
    (ch1 : netchan_chan) (w1 : world) : Prop :=
  0 <= i < 4 ∧ ch1.(frags) !! Z.to_nat i = Some f ∧ f.(f_active) = 1 ∧ f.(f_seq) = seq ∧
  w1.(conn).(cfg) = w.(conn).(cfg) ∧ w1.(conn).(pool_store) = w.(conn).(pool_store) ∧
  ((ch1 = ch ∧ w1 = w) ∨
   (∃ b f0, ch1 = with_frag i (fresh_frag seq total b) ch ∧ ch.(frags) !! Z.to_nat i = Some f0 ∧
      f0.(f_active) = 0 ∧ f = fresh_frag seq total b ∧ owned b ch = 0 ∧
      find_frag 0 seq ch.(frags) = None ∧
      w1.(conn).(pool_free_top) = w.(conn).(pool_free_top) - 1)).

(** There is no slot for message [seq] and none can be had. *)
Definition no_slot (ch : netchan_chan) (w : world) (seq total : Z) : Prop :=
  find_frag 0 seq ch.(frags) = None ∧
  (32 < total ∨ first_inactive 0 ch.(frags) = None ∨ w.(conn).(pool_free_top) = 0).

Lemma wp_frag_slot {A} fp k idk ch w seq total (K : option Z → M world A) (Q : A → world → Prop) :
  Opened fp k idk ch w → 0 < fp → 2 <= total →
  (no_slot ch w seq total → wp (K None) Q (upd k ch w)) →
  (∀ i f ch1 w1, Opened fp k idk ch1 w1 → Slot ch w seq total i f ch1 w1 →
     wp (K (Some i)) Q (upd k ch1 w1)) →
  wp (found ← frag_find k seq;
      f ← match found with Some i => mret (Some i) | None => frag_alloc k seq total end;
      K f) Q (upd k ch w).
Proof.
  intros HO Hfp Ht HN HS. pose proof HO as (Hok & Hid & t & HC & Hacc).
  pose proof (ok_frags _ _ Hok) as Hlen.
  unfold frag_find. eapply wp_bind, wp_bind, wp_get_ch; [done|]. apply wp_ret.
  destruct (find_frag 0 seq (frags ch)) as [i|] eqn:Ef.
  - apply find_frag_Some in Ef as (f & Hi & Hf & Ha & Hs). rewrite Z.sub_0_r in Hf.
    apply wp_bind, wp_ret. eapply HS; [done|]. pose proof (lookup_lt_Some _ _ _ Hf).
    destruct (ok_frs _ _ Hok _ _ Hf) as [[E _]|(E & _)]; [by rewrite E in Ha|].
    split; [lia|]. split_and!; try done. by left.
  - apply wp_bind. unfold frag_alloc, NC_MAX_FRAGS. apply wp_if; intros E32.
    { apply wp_ret, HN. split; [done|lia]. }
    eapply wp_bind, wp_get_ch; [done|].
    destruct (first_inactive 0 (frags ch)) as [i|] eqn:Ei; [|apply wp_ret, HN; by split; [|auto]].
    apply first_inactive_Some in Ei as (f & Hi & Hf & Ha). rewrite Z.sub_0_r in Hf.
    pose proof (lookup_lt_Some _ _ _ Hf).
    destruct (ok_frs _ _ Hok _ _ Hf) as [[E Eb]|(E & _)]; [|by rewrite E in Ha].
    apply wp_bind. eapply wp_pool_get; [done|intros E0; apply wp_ret, HN; by split; [|auto]|].
    intros b w1 t1 Hb Hob HC1 Ht1 Htop1 Hcfg1 Hst1.
    apply wp_if; intros E3; [unfold buf_ok, NC_NOBUF in *; lia|].
    eapply wp_bind, wp_put_frag; [done|lia|]. apply wp_ret.
    eapply (HS i (fresh_frag seq total b) (with_frag i (fresh_frag seq total b) ch)).
    + split; [apply with_frag_ok; [done|apply fresh_frag_ok; [done|done|lia]]|]. split; [done|].
      exists t1. split; [done|]. intros x Hx. rewrite (with_frag_owned _ f) by done. simpl.
      rewrite Eb, (cnt_nobuf x) by done. specialize (Ht1 x Hx). lia.
    + split; [lia|]. split; [simpl; rewrite list_lookup_insert_eq by lia; done|].
      split_and!; try done. right. exists b, f. done.
Qed.

(** A slot that is not full lacks a fragment. *)
Lemma sumf_below n k : 0 <= k → sumf (λ j, Z.b2z (j <? n)) (upto k) = Z.max 0 (Z.min n k).
Proof.
  intros Hk. pattern k. apply natlike_ind; [simpl; lia| |done]. intros x Hx IH.
  rewrite <-Z.add_1_r, upto_S, sumf_app by done. rewrite IH. simpl.
  destruct (Z.ltb_spec x n); simpl; lia.
Qed.

Lemma stored_missing fp f idx :
  frag_ok fp f → f.(f_active) = 1 → 0 <= idx < f.(f_total) → Z.testbit f.(f_bitmask) idx = false →
  u8 (f.(f_have) + 1) ≠ f.(f_total) →
  ∃ j, 0 <= j < f.(f_total) ∧ j ≠ idx ∧ Z.testbit f.(f_bitmask) j = false.
Proof.
  intros [[E _]|(_ & Hb & Ht & Hl & Hh & Hbits)] Ha Hi Hbit Hne; [congruence|].
  destruct (decide (Exists (λ j, j ≠ idx ∧ Z.testbit f.(f_bitmask) j = false) (upto f.(f_total)))) as [Hex|Hno].
  { apply Exists_exists in Hex as (j & Hj%elem_of_seqZ & Hj'). exists j. split; [lia|done]. }
  exfalso. apply Hne. rewrite Hh.
  assert (Hset : ∀ j, 0 <= j < f.(f_total) → j ≠ idx → Z.testbit f.(f_bitmask) j = true).
  { intros j Hj Hji. destruct (Z.testbit f.(f_bitmask) j) eqn:E; [done|]. exfalso. apply Hno, Exists_exists.
    exists j. split; [apply elem_of_seqZ; lia|done]. }
  rewrite <-(bits32_set _ idx) by (done || lia).
  assert (E : bits32 (f.(f_bitmask) .| (1 << idx)) = f.(f_total)); [|rewrite E; unfold u8; lia].
  unfold bits32. rewrite (sumf_ext _ (λ j, Z.b2z (j <? f.(f_total)))).
  - rewrite sumf_below by lia. lia.
  - intros j Hj%elem_of_seqZ. cbv beta. rewrite lor_one_shift by lia. f_equal.
    destruct (Z.eqb_spec idx j) as [->|Hij]; [rewrite orb_true_r; symmetry; lia|]. rewrite orb_false_r.
    destruct (Z.ltb_spec j f.(f_total)); [apply Hset; lia|].
    destruct (Z.testbit f.(f_bitmask) j) eqn:E; [|done]. destruct (Hbits j ltac:(lia) E). lia.
Qed.

(** What a fragment leaves alone: everything but the slots of [frags] and the
    buffers they hold. *)
Definition FragFrame (ch : netchan_chan) (w : world) (ch' : netchan_chan) (w' : world) : Prop :=
  (∃ fr, ch' = set_frags fr ch) ∧ w'.(conn).(cfg) = w.(conn).(cfg) ∧
  inbox w'.(conn).(pool_store) ch' = inbox w.(conn).(pool_store) ch ∧
  (∀ i r, ch.(reorder) !! i = Some r → nz r.(r_valid) = true →
     store_read w'.(conn).(pool_store) (pool_ptr r.(r_buf)) (Z.to_nat r.(r_len)) =
     store_read w.(conn).(pool_store) (pool_ptr r.(r_buf)) (Z.to_nat r.(r_len))).

(** Fragment [idx] with bytes [data] is stored in slot [i], which held [f];
    [top] buffers are free then. *)
Definition FragStored (fp : Z) (ch : netchan_chan) (w : world) (seq total idx : Z) (data : list Z)
    (i : Z) (f : nc_frag_asm) (ch' : netchan_chan) (m' : gmap Z Z) (top : Z) : Prop :=
  ∃ ch1 w1, Slot ch w seq total i f ch1 w1 ∧ top = w1.(conn).(pool_free_top) ∧ idx < f.(f_total) ∧
    Z.testbit f.(f_bitmask) idx = false ∧
    ch' = with_frag i (stored_frag idx (Z.of_nat (length data)) f) ch1 ∧
    m' = store_write w.(conn).(pool_store) (pool_ptr f.(f_buf) + idx * fp) data.

(** The pieces of a slot once fragment [idx] is there. *)
Definition pieces_with (fp : Z) (m : gmap Z Z) (f : nc_frag_asm) (idx : Z) (data : list Z) (j : Z) : list Z :=
  if j =? idx then data else piece fp m f.(f_buf) f.(f_offsets) j.

Lemma piece_stored fp m f idx data j :
  frag_ok fp f → f.(f_active) = 1 → 0 < fp → 0 <= idx < f.(f_total) →
  Z.of_nat (length data) <= fp → 0 <= j < 32 →
  j = idx ∨ Z.testbit f.(f_bitmask) j = true →
  piece fp (store_write m (pool_ptr f.(f_buf) + idx * fp) data) f.(f_buf)
    (<[Z.to_nat idx := Z.of_nat (length data)]> f.(f_offsets)) j = pieces_with fp m f idx data j.
Proof.
  intros [[E _]|(_ & Hb & Ht & Hl & _ & Hbits)] Ha Hfp Hi Hd Hj Hor; [congruence|].
  unfold pieces_with, piece, off_at. destruct (Z.eqb_spec j idx) as [->|Hne].
  - rewrite list_lookup_insert_eq by lia. simpl. rewrite Nat2Z.id. apply store_read_write.
  - rewrite list_lookup_insert_ne by lia. destruct Hor as [|Hbit]; [done|].
    destruct (Hbits j Hj Hbit) as (_ & n & En & Hn & _). rewrite En. simpl.
    apply store_read_write_ne. nia.
Qed.

Lemma only_buf_reord fp ch m m' b :
  chan_ok fp ch → not_recv b ch → only_buf b m m' →
  ∀ i r, ch.(reorder) !! i = Some r → nz r.(r_valid) = true →
    store_read m' (pool_ptr r.(r_buf)) (Z.to_nat r.(r_len)) =
    store_read m (pool_ptr r.(r_buf)) (Z.to_nat r.(r_len)).
Proof.
  intros Hok [_ Hn] Hm i r Hr Hv.
  destruct (ok_reords _ _ Hok i r Hr) as [[E _]|(_ & _ & Hlen & _)]; [by rewrite E in Hv|].
  rewrite <-(Z.add_0_r (pool_ptr r.(r_buf))). eapply only_buf_read; [done|by eapply (sumf_cnt_ne r_buf)|lia..].
Qed.

Lemma Slot_frame fp k idk ch w seq total i f ch1 w1 ch' w' :
  Opened fp k idk ch1 w1 → Slot ch w seq total i f ch1 w1 → buf_ok f.(f_buf) →
  (∃ fr, ch' = set_frags fr ch1) → w'.(conn).(cfg) = w1.(conn).(cfg) →
  only_buf f.(f_buf) w1.(conn).(pool_store) w'.(conn).(pool_store) →
  FragFrame ch w ch' w'.
Proof.
  intros HO (Hi & Hf & Ha & Hs & Hcfg & Hst & Hor) Hb [fr ->] Hcfg' Honly.
  pose proof (owned_le_frags _ _ _ _ _ _ _ HO Hf Hb) as Hn. pose proof HO as (Hok & _).
  assert (∃ fr1, ch1 = set_frags fr1 ch) as [fr1 ->].
  { destruct Hor as [[-> _]|(b & f0 & -> & _)]; [exists ch.(frags); by destruct ch|by eexists]. }
  split; [by exists fr|]. split; [congruence|]. split.
  - etrans; [exact (inbox_only fp _ _ _ _ Hok Hn Honly)|]. by rewrite Hst.
  - intros j r Hr Hv. etrans; [exact (only_buf_reord fp _ _ _ _ Hok Hn Honly j r Hr Hv)|]. by rewrite Hst.
Qed.

(** When the last fragment is there, every other one was. *)
Lemma stored_all fp f idx n :
  frag_ok fp f → f.(f_active) = 1 → 0 <= idx < f.(f_total) →
  (stored_frag idx n f).(f_have) = f.(f_total) → frag_ok fp (stored_frag idx n f) →
  ∀ j, 0 <= j < f.(f_total) → j = idx ∨ Z.testbit f.(f_bitmask) j = true.
Proof.
  intros Hfok Ha Hidx Hhave Hfok2 j Hj.
  assert (Z.testbit (f.(f_bitmask) .| (1 << idx)) j = true) as Hfull.
  { destruct Hfok as [[E _]|(_ & _ & Htot & _)]; [congruence|].
    destruct Hfok2 as [[E _]|(_ & _ & _ & _ & Hh2 & Hbits2)]; [simpl in E; congruence|].
    apply (bits32_full _ f.(f_total)); [lia| |simpl in *; congruence|done].
    intros q Hq Hqb. by destruct (Hbits2 q Hq Hqb). }
  rewrite lor_one_shift in Hfull by lia.
  destruct (Z.eqb_spec idx j); [by left|]. rewrite orb_false_r in Hfull. by right.
Qed.

Lemma wp_frag_store fp k idk ch w seq idx total payload n (Q : option (Z * Z * Z) → world → Prop) :
  Opened fp k idk ch w → 0 < fp → 2 <= total → 0 <= idx → Forall in8 payload →
  0 <= n <= fp → n <= Z.of_nat (length payload) →
  (∀ ch' w', Opened fp k idk ch' w' → FragFrame ch w ch' w' →
     (ch' = ch ∧ w' = w ∧ no_slot ch w seq total) ∨
     (∃ i f, Slot ch w seq total i f ch' w' ∧
        (f.(f_total) <= idx ∨ Z.testbit f.(f_bitmask) idx = true ∨ 2048 < idx * fp + n)) ∨
     (∃ i f, FragStored fp ch w seq total idx (take (Z.to_nat n) payload) i f ch' w'.(conn).(pool_store)
               w'.(conn).(pool_free_top) ∧
        ∃ j, 0 <= j < f.(f_total) ∧ j ≠ idx ∧ Z.testbit f.(f_bitmask) j = false) →
     Q None (upd k ch' w')) →
  (∀ i f ch' w' pos m, Opened fp k idk ch' w' → FragFrame ch w ch' w' →
     FragStored fp ch w seq total idx (take (Z.to_nat n) payload) i f ch' m w'.(conn).(pool_free_top) →
     buf_ok f.(f_buf) → 0 <= i < 4 → 0 <= pos <= 2048 →
     store_read w'.(conn).(pool_store) (pool_ptr f.(f_buf)) (Z.to_nat pos) =
       concat (pieces_with fp w.(conn).(pool_store) f idx (take (Z.to_nat n) payload) <$> upto f.(f_total)) →
     (∀ j, 0 <= j < f.(f_total) → j = idx ∨ Z.testbit f.(f_bitmask) j = true) →
     Q (Some (i, pool_ptr f.(f_buf), pos)) (upd k ch' w')) →
  wp (frag_store k seq idx total payload n) Q (upd k ch w).
Proof.
  intros HO Hfp Ht Hidx Hpay Hn Hnl HN HS. unfold frag_store.
  eapply (wp_frag_slot fp k idk ch w seq total); [done..| |].
  { intros Hns. apply wp_ret, HN; [done| |by left]. split; [exists ch.(frags); by destruct ch|]. done. }
  intros i f ch1 w1 HO1 Hslot. pose proof Hslot as (Hi & Hf & Ha & Hs & Hcfg & Hst & _).
  pose proof HO1 as (Hok1 & Hid1 & t1 & HC1 & Ht1). pose proof (ok_frags _ _ Hok1) as Hlen.
  pose proof (ok_frs _ _ Hok1 _ _ Hf) as Hfok.
  pose proof Hfok as [[E _]|(_ & Hb & Htot & Hol & Hh & Hbits)]; [congruence|].
  assert (Hrej : f.(f_total) <= idx ∨ Z.testbit f.(f_bitmask) idx = true ∨ 2048 < idx * fp + n →
    wp (mret None) Q (upd k ch1 w1)).
  { intros Hwhy. apply wp_ret, HN; [done| |eauto 10].
    eapply Slot_frame; [done..|exists ch1.(frags); by destruct ch1|done|apply only_buf_refl]. }
  eapply wp_bind, wp_get_frag; [done|lia|done|].
  rewrite land_one_shift by done. apply wp_if; intros Eidx.
  2: { apply Hrej. destruct (Z.testbit (f_bitmask f) idx); [auto|]. rewrite andb_true_r in Eidx. left. lia. }
  apply andb_prop in Eidx as [Hlt%Z.ltb_lt Hbit]. apply negb_true_iff in Hbit. unfold getc. apply wp_bind, wp_gets.
  pose proof (conn_ok_with_ch fp k ch1 _ (ci_conn _ _ _ _ _ HC1)) as Hc1'.
  change (conn (upd k ch1 w1)) with (with_ch k ch1 w1.(conn)). rewrite (ok_fp _ _ Hc1').
  unfold NC_MAX_MSG at 1. apply wp_if; intros Eoff; [|apply Hrej; lia].
  set (data := take (Z.to_nat n) payload) in *.
  assert (Hdl : Z.of_nat (length data) = n) by (unfold data; rewrite length_take; lia).
  unfold memcpy_pool. rewrite aslice_in by lia. rewrite drop_0. fold data.
  apply wp_bind, wp_bind, wp_some, wp_upd; [apply commutes_pool_write|].
  eapply wp_mono; [apply (pool_write_ok fp)|]; [apply HC1| | |by apply Forall_take|];
    [unfold pool_ptr, buf_ok, NC_MAX_MSG in *; nia|unfold pool_ptr, buf_ok, NC_MAX_MSG in *; nia|].
  intros [] w2 (Hc2 & Hs2 & Hst2). rewrite Hst in Hst2.
  pose proof (CInv_same _ _ _ _ _ _ HC1 Hs2 Hc2) as HC2.
  rewrite aset_in by lia. apply wp_bind, wp_some. cbv zeta.
  change (set_f_have _ _) with (stored_frag idx n f).
  eapply wp_bind, wp_put_frag; [done|lia|]. change (upd k _ w2) with (upd k (with_frag i (stored_frag idx n f) ch1) w2).
  set (ch2 := with_frag i (stored_frag idx n f) ch1).
  assert (HO2 : Opened fp k idk ch2 w2).
  { split; [apply with_frag_ok; [done|apply stored_frag_ok; try done; lia]|]. split; [done|]. exists t1.
    split; [done|]. intros x Hx. unfold ch2. rewrite (with_frag_owned _ f) by done. simpl.
    specialize (Ht1 x Hx). lia. }
  assert (Hstored : FragStored fp ch w seq total idx data i f ch2
    (store_write w.(conn).(pool_store) (pool_ptr f.(f_buf) + idx * fp) data) w1.(conn).(pool_free_top)).
  { exists ch1, w1. rewrite Hdl. done. }
  assert (Honly : only_buf f.(f_buf) w1.(conn).(pool_store) w2.(conn).(pool_store)).
  { rewrite Hst2, Hst. apply only_buf_write; [nia|lia]. }
  apply wp_if; intros Ehave.
  2: { apply wp_ret, HN; [done| |].
       - eapply Slot_frame; [exact HO1|exact Hslot|done|by eexists|apply Hs2|done].
       - right; right. exists i, f. rewrite Hst2, (same_top _ _ Hs2). split; [done|].
         apply (stored_missing fp); [done|done|lia|done|]. simpl in Ehave. lia. }
  apply Z.eqb_eq in Ehave.
  assert (Hall : ∀ j, 0 <= j < f.(f_total) → j = idx ∨ Z.testbit f.(f_bitmask) j = true).
  { apply (stored_all fp f idx n); (done || lia || (apply stored_frag_ok; try done; lia)). }
  change (f_buf (stored_frag idx n f)) with f.(f_buf).
  change (f_total (stored_frag idx n f)) with f.(f_total).
  change (f_offsets (stored_frag idx n f)) with (<[Z.to_nat idx := n]> f.(f_offsets)).
  apply wp_bind, wp_upd; [apply commutes_compact|].
  eapply wp_mono; [apply (frag_compact_ok fp fp); [done|lia| |done|lia]|].
  { intros j Hj. destruct (decide (j = idx)) as [->|Hne].
    - exists n. rewrite list_lookup_insert_eq by lia. split; [done|lia].
    - rewrite list_lookup_insert_ne by lia. destruct (Hall j Hj) as [|Hjb]; [done|].
      by destruct (Hbits j ltac:(lia) Hjb). }
  intros pos w3 (Hc3 & Hs3 & Honly3 & Hpos & Hread). apply wp_ret.
  eapply (HS i f ch2 w3 pos); [by eapply Opened_same| |
    rewrite (same_top _ _ Hs3), (same_top _ _ Hs2); exact Hstored|done..| |exact Hall].
  - eapply Slot_frame; [exact HO1|exact Hslot|done|by eexists| |by eapply only_buf_trans].
    rewrite (same_cfg _ _ Hs3). apply Hs2.
  - rewrite Hread. f_equal. apply list_fmap_ext. intros p j Hj%list_elem_of_lookup_2%elem_of_seqZ.
    rewrite Hst2, <-Hdl. apply piece_stored; try done; [lia..|]. apply Hall. lia.
Qed.

(** Releasing a slot. *)
Lemma wp_frag_free fp k idk ch w i f (Q : unit → world → Prop) :
  Opened fp k idk ch w → 0 <= i < 4 → ch.(frags) !! Z.to_nat i = Some f → f.(f_active) = 1 →
  (∀ w', Opened fp k idk (with_frag i (set_f_buf NC_NOBUF zero_frag) ch) w' →
     w'.(conn).(cfg) = w.(conn).(cfg) → w'.(conn).(pool_store) = w.(conn).(pool_store) →
     w'.(conn).(pool_free_top) = w.(conn).(pool_free_top) + 1 →
     Q tt (upd k (with_frag i (set_f_buf NC_NOBUF zero_frag) ch) w')) →
  wp (frag_free k i) Q (upd k ch w).
Proof.
  intros HO Hi Hf Ha HQ. pose proof HO as (Hok & Hid & t & HC & Ht). unfold frag_free.
  pose proof (ok_frags _ _ Hok). eapply wp_bind, wp_get_frag; [done|lia|done|].
  destruct (ok_frs _ _ Hok _ _ Hf) as [[E _]|(_ & Hb & _)]; [congruence|].
  set (ch1 := with_frag i (set_f_buf NC_NOBUF zero_frag) ch) in *.
  assert (Ho : ∀ x, buf_ok x → owned x ch1 = owned x ch - cnt x f.(f_buf)).
  { intros x Hx. unfold ch1. rewrite (with_frag_owned _ f) by done. simpl.
    change NC_NOBUF with (-1); rewrite (cnt_nobuf x) by done. lia. }
  apply wp_bind. eapply (wp_pool_put fp k idk ch1); [done|done| |].
  { intros x Hx. rewrite Ho by done. specialize (Ht x Hx). lia. }
  intros w1 t1 HC1 Ht1 Htop Hcfg Hst. eapply wp_put_frag; [done|lia|].
  apply HQ; try done. split; [apply with_frag_ok; [done|by left]|]. split; [done|]. by exists t1.
Qed.
