(* ===== verification/NcSafe.v ===== *)
(** * Every operation of netchan keeps the invariant

    The handlers, the parser and the public interface of
    src/netchan-v2/demo/netchan.c, executed symbolically against the invariant
    of NcInv: no access leaves its array, no loop runs on, every buffer keeps
    exactly one holder.  The one thing the code relies on without checking it
    is that no fragment of a fragmented message is longer than
    [max_frag_payload]; [frames_fit] says so of a packet. *)

From stdpp Require Import gmap.
From S2P Require Import Prelude NcState NcOps NcProto NcApi NcInv NcChan.
From S2P Require Import NcRecv NcFrag.

#[local] Ltac Zify.zify_post_hook ::= Z.to_euclidean_division_equations.

(** ** Packets whose fragments fit *)

Definition data_fits (fp : Z) (p : list Z) : bool :=
  match rd16 p 4, aget p 7 with
  | Some len, Some total => (total <=? 1) || (len <=? fp)
  | _, _ => true
  end.

(** The length of the frame at the start of [p]; 0 if the parser stops there. *)
Definition frame_len (p : list Z) : Z :=
  match p with
  | [] => 0
  | b :: _ =>
      if b =? NC_FRAME_CONNECT_INIT then 6
      else if b =? NC_FRAME_CONNECT_ACCEPT then 10
      else if b =? NC_FRAME_CONNECT_REDIRECT then
        match aget p 5 with Some ty => if ty =? 4 then 12 else if ty =? 6 then 24 else 0 | None => 0 end
      else if b =? NC_FRAME_DISCONNECT then 3
      else if b =? NC_FRAME_PING then 5
      else if b =? NC_FRAME_PONG then 5
      else if b =? NC_FRAME_CHANNEL_OPEN then
        match aget p 4 with Some n => 5 + n | None => 0 end
      else if b =? NC_FRAME_CHANNEL_CLOSE then 4
      else if b =? NC_FRAME_DATA then
        match rd16 p 4 with Some n => 8 + n | None => 0 end
      else if b =? NC_FRAME_ACK then 4
      else if b =? NC_FRAME_WINDOW_UPDATE then 6
      else 0
  end.

Fixpoint fit_loop (fuel : nat) (fp : Z) (data : list Z) : bool :=
  match fuel with
  | O => true
  | S fuel =>
      match data with
      | [] => true
      | b :: rest =>
          if b =? NC_FRAME_PADDING then fit_loop fuel fp rest
          else
            (negb (b =? NC_FRAME_DATA) || data_fits fp data) &&
            (if frame_len data <=? 0 then true
             else fit_loop fuel fp (drop (Z.to_nat (frame_len data)) data))
      end
  end.

Definition frames_fit (fp : Z) (data : list Z) : bool := fit_loop (S (length data)) fp data.

(** ** Reading a frame *)

Lemma byte_at p i : Forall in8 p → 0 <= i < Z.of_nat (length p) → ∃ v, aget p i = Some v ∧ in8 v.
Proof.
  intros Hp Hi. destruct (aget_in p i Hi) as (v & E & E'). exists v. split; [done|].
  by eapply Forall_lookup_1.
Qed.

Lemma rd16_ok p i : 0 <= i → i + 2 <= Z.of_nat (length p) → ∃ v, rd16 p i = Some v ∧ in16 v.
Proof.
  intros. unfold rd16. destruct (aget_in p i) as (b0 & -> & _); [lia|]. simpl.
  destruct (aget_in p (i + 1)) as (b1 & -> & _); [lia|]. simpl. eexists. split; [done|]. apply u16_in.
Qed.

Lemma rd32_ok p i : Forall in8 p → 0 <= i → i + 4 <= Z.of_nat (length p) →
  ∃ v, rd32 p i = Some v ∧ in32 v.
Proof.
  intros Hp Hi Hl. unfold rd32. destruct (byte_at p i) as (b0 & -> & H0); [done|lia|]. simpl.
  destruct (byte_at p (i + 1)) as (b1 & -> & H1); [done|lia|]. simpl.
  destruct (byte_at p (i + 2)) as (b2 & -> & H2); [done|lia|]. simpl.
  destruct (byte_at p (i + 3)) as (b3 & -> & H3); [done|lia|]. simpl.
  eexists. split; [done|]. repeat apply inw_lor.
  - apply u32_in.
  - apply inw_shiftl; [lia|]. by eapply inw_mono; [|exact H1].
  - apply inw_shiftl; [lia|]. by eapply inw_mono; [|exact H2].
  - by eapply inw_mono; [|exact H3].
Qed.

(** ** Operations on the connection *)

Lemma Inv_conn fp c : Inv fp c → conn_ok fp c.
Proof. by intros []. Qed.

(** The channel table. *)
Lemma wp_channel fp w id (Q : option Z → world → Prop) :
  conn_ok fp w.(conn) → in8 id →
  (w.(conn).(channels) !! Z.to_nat id = Some None → Q None w) →
  (∀ k, w.(conn).(channels) !! Z.to_nat id = Some (Some k) → live w.(conn) k → Q (Some k) w) →
  wp (channel id) Q w.
Proof.
  intros Hc Hid HN HS. unfold channel, getc. apply wp_bind, wp_gets.
  pose proof (ok_channels _ _ Hc). unfold inw in Hid.
  destruct (aget_in w.(conn).(channels) id) as (o & -> & E); [lia|]. apply wp_some.
  destruct o as [k|]; [|auto]. apply HS; [done|]. by eapply ok_table.
Qed.

Lemma Inv_wp_ev fp w ty ev (Q : unit → world → Prop) :
  Inv fp w.(conn) → (∀ j, ev = Some j → live w.(conn) j) →
  (∀ w', Inv fp w'.(conn) → Same w.(conn) w'.(conn) → Q tt w') → wp (ev_push ty ev) Q w.
Proof.
  intros HI Hl HQ. eapply wp_mono; [apply (ev_enqueue_ok fp); [apply HI|done]|].
  intros [] w' (Hc & Hs & _). apply HQ; [by eapply Inv_same|done].
Qed.

Lemma Inv_wp_ctrl fp w bs (Q : unit → world → Prop) :
  Inv fp w.(conn) → Forall in8 bs →
  (∀ w', Inv fp w'.(conn) → Same w.(conn) w'.(conn) → Q tt w') → wp (ctrl_frame bs) Q w.
Proof.
  intros HI Hb HQ. eapply wp_mono; [apply (ctrl_frame_ok fp); [apply HI|done]|].
  intros [] w' (Hc & Hs & _). apply HQ; [by eapply Inv_same|done].
Qed.

(** A change of a field of the connection that the invariant does not mention. *)
Lemma Inv_wp_modc fp w f (Q : unit → world → Prop) :
  Inv fp w.(conn) → Same w.(conn) (f w.(conn)) → conn_ok fp (f w.(conn)) →
  (Inv fp (f w.(conn)) → Q tt (set_conn (f w.(conn)) w)) → wp (modc f) Q w.
Proof. intros HI Hs Hc HQ. apply wp_mod, HQ. by eapply Inv_same. Qed.

Lemma wp_now w (Q : Z → world → Prop) :
  (∀ v w', in32 v → w'.(conn) = w.(conn) → Q v w') → wp nc_now_ms Q w.
Proof. intros HQ. unfold wp, nc_now_ms. apply HQ; [apply u32_in|done]. Qed.

Lemma wp_random_id w (Q : Z → world → Prop) :
  (∀ v w', in32 v → v ≠ 0 → w'.(conn) = w.(conn) → Q v w') → wp nc_random_id Q w.
Proof.
  intros HQ. unfold nc_random_id. apply wp_bind. unfold read_urandom at 1, wp at 1.
  set (id := match urandom (env w) (n_urandom w) with Some v => u32 v | None => 0 end).
  assert (Hid : in32 id) by (unfold id; case_match; [apply u32_in|unfold inw; lia]).
  apply wp_bind. destruct (Z.eqb_spec id 0) as [E0|E0].
  - apply wp_bind. unfold rand at 1, wp at 1. apply wp_bind. unfold rand at 1, wp at 1. apply wp_ret, wp_ret.
    destruct (Z.eqb_spec (u32 (rand_c (env w) (n_rand w)) .^ u32 (u32 (rand_c (env w) (S (n_rand w))) << 16)) 0) as [Ez|Ez]; simpl;
      rewrite ?Ez; simpl.
    + apply HQ; [unfold inw; lia|done|done].
    + destruct (Z.eqb_spec (u32 (rand_c (env w) (n_rand w)) .^ u32 (u32 (rand_c (env w) (S (n_rand w))) << 16)) 0); [done|].
      apply HQ; [auto with word|done|done].
  - apply wp_ret, wp_ret. destruct (Z.eqb_spec id 0); [done|]. by apply HQ.
Qed.

Ltac bytes := repeat (apply Forall_cons; split); repeat apply Forall_app;
  repeat (apply Forall_cons; split); try apply Forall_nil;
  first [done | solve [auto with word] | solve [unfold inw; split; vm_compute; congruence] | idtac].

(** ** Frame handlers *)

Section Handlers.
Context (fp : Z).

(** The result of a handler for a frame of [n] bytes. *)
Definition handled (n : Z) (r : Z) (w : world) : Prop :=
  Inv fp w.(conn) ∧ (r < 0 ∨ (r = n ∧ 0 < r)).

Lemma conn_ok_fields c c' :
  conn_ok fp c → Same c c' → c'.(pool_store) = c.(pool_store) → c'.(events) = c.(events) →
  c'.(ev_head) = c.(ev_head) → c'.(ev_tail) = c.(ev_tail) → c'.(ctrl_buf) = c.(ctrl_buf) →
  c'.(ctrl_len) = c.(ctrl_len) → c'.(next_chan_id) = c.(next_chan_id) →
  c'.(peer_addr) = c.(peer_addr) → conn_ok fp c'.
Proof.
  intros [] [E1 E2 E3 E4 E5 E6] F1 F2 F3 F4 F5 F6 F7 F8. constructor.
  - unfold max_frag_payload in *. by rewrite E6.
  - by rewrite E6.
  - by rewrite E1.
  - by rewrite E2.
  - by rewrite E3.
  - by rewrite E4.
  - by rewrite E5.
  - unfold free_bufs in *. by rewrite E4, E5.
  - by rewrite F1.
  - by rewrite F2.
  - by rewrite F3.
  - by rewrite F4.
  - unfold live in *. rewrite F2, E3. done.
  - by rewrite F5.
  - by rewrite F5.
  - by rewrite F6.
  - by rewrite F7.
  - unfold live in *. rewrite E1, E3. done.
  - by rewrite F8.
Qed.

(** Assignments to fields that the invariant does not mention. *)
Ltac assign H := eapply (Inv_wp_modc fp); [exact H|by constructor|
  by eapply conn_ok_fields; [apply (Inv_conn _ _ H)|constructor|..]|];
  let H' := fresh H in intros H'; clear H; rename H' into H.

Ltac short := apply wp_ret; split; [assumption|left; unfold NETCHAN_ERR_PROTO; lia].

Lemma process_connect_init_ok p w :
  Inv fp w.(conn) → Forall in8 p → wp (process_connect_init p) (handled 6) w.
Proof.
  intros HI Hp. unfold process_connect_init. apply wp_if; intros El; [short|].
  unfold getc. apply wp_bind, wp_gets, wp_if; intros Es; [short|].
  destruct (rd32_ok p 1) as (id & -> & Hid); [done|lia..|]. apply wp_bind, wp_some.
  destruct (byte_at p 5) as (v & -> & Hv); [done|lia|]. apply wp_bind, wp_some, wp_if; intros Ev; [short|].
  apply wp_bind. assign HI. apply wp_bind, wp_if; intros E.
  - apply wp_bind, wp_random_id. intros v' w' _ _ Ew.
    assert (HI' : Inv fp w'.(conn)) by (by rewrite Ew). apply wp_bind. assign HI'. assign HI'.
    apply wp_ret. split; [done|right; lia].
  - apply wp_ret, wp_ret. split; [done|right; lia].
Qed.

Lemma process_connect_accept_ok p w :
  Inv fp w.(conn) → Forall in8 p → wp (process_connect_accept p) (handled 10) w.
Proof.
  intros HI Hp. unfold process_connect_accept. apply wp_if; intros El; [short|].
  unfold getc. apply wp_bind, wp_gets, wp_if; intros Es; [short|].
  destruct (rd32_ok p 1) as (id & -> & Hid); [done|lia..|]. apply wp_bind, wp_some.
  apply wp_bind. assign HI. apply wp_bind. assign HI. apply wp_bind.
  eapply (Inv_wp_ev fp); [exact HI|done|]. intros w' HI' _. apply wp_ret. split; [done|right; lia].
Qed.

Lemma process_connect_redirect_ok p w :
  Inv fp w.(conn) → Forall in8 p →
  wp (process_connect_redirect p) (handled
    (match aget p 5 with Some ty => if ty =? 4 then 12 else if ty =? 6 then 24 else 0 | None => 0 end)) w.
Proof.
  intros HI Hp. unfold process_connect_redirect. apply wp_if; intros El; [short|].
  destruct (rd32_ok p 1) as (id & -> & Hid); [done|lia..|]. apply wp_bind, wp_some.
  destruct (byte_at p 5) as (ty & -> & Hty); [done|lia|]. apply wp_bind, wp_some.
  destruct (ty =? 4) eqn:E4; [|destruct (ty =? 6) eqn:E6].
  - rewrite aslice_in by lia. apply wp_bind, wp_some. rewrite aslice_in by lia. apply wp_bind, wp_some.
    apply wp_bind. eapply wp_mono; [apply (ev_enqueue_ok fp); [apply HI|done]|].
    intros [] w' (Hc & Hs & _). apply wp_ret. split; [by eapply Inv_same|right; lia].
  - apply wp_if; intros El2; [short|].
    rewrite aslice_in by lia. apply wp_bind, wp_some. rewrite aslice_in by lia. apply wp_bind, wp_some.
    apply wp_bind. eapply wp_mono; [apply (ev_enqueue_ok fp); [apply HI|done]|].
    intros [] w' (Hc & Hs & _). apply wp_ret. split; [by eapply Inv_same|right; lia].
  - short.
Qed.

Lemma process_disconnect_ok p w : Inv fp w.(conn) → wp (process_disconnect p) (handled 3) w.
Proof.
  intros HI. unfold process_disconnect. apply wp_if; intros El; [short|].
  apply wp_bind. assign HI. apply wp_bind. eapply (Inv_wp_ev fp); [exact HI|done|].
  intros w' HI' _. apply wp_ret. split; [done|right; lia].
Qed.

Lemma process_ping_ok p w : Inv fp w.(conn) → Forall in8 p → wp (process_ping p) (handled 5) w.
Proof.
  intros HI Hp. unfold process_ping. apply wp_if; intros El; [short|].
  destruct (rd32_ok p 1) as (id & -> & Hid); [done|lia..|]. apply wp_bind, wp_some, wp_bind.
  eapply (Inv_wp_ctrl fp); [exact HI|bytes|]. intros w' HI' _. apply wp_ret. split; [done|right; lia].
Qed.

Lemma process_pong_ok p w : Inv fp w.(conn) → Forall in8 p → wp (process_pong p) (handled 5) w.
Proof.
  intros HI Hp. unfold process_pong. apply wp_if; intros El; [short|].
  destruct (rd32_ok p 1) as (id & -> & Hid); [done|lia..|]. apply wp_bind, wp_some.
  unfold getc. apply wp_bind, wp_gets, wp_bind, wp_if; intros E.
  - apply wp_bind, wp_now. intros v w' _ Ew. assert (HI' : Inv fp w'.(conn)) by (by rewrite Ew).
    apply wp_bind. assign HI'. apply wp_bind, wp_if; intros E2.
    + assign HI'. assign HI'. apply wp_ret. split; [done|right; lia].
    + apply wp_ret. assign HI'. apply wp_ret. split; [done|right; lia].
  - apply wp_ret, wp_ret. split; [done|right; lia].
Qed.

(** A change of one channel that moves no buffer. *)
Lemma wp_mod_live w k f (Q : unit → world → Prop) :
  Inv fp w.(conn) → live w.(conn) k →
  (∀ ch, chan_ok fp ch → chan_ok fp (f ch) ∧ (f ch).(ch_id) = ch.(ch_id) ∧
     (∀ b, owned b (f ch) = owned b ch)) →
  (∀ w', Inv fp w'.(conn) → live w'.(conn) k → Q tt w') → wp (mod_ch k f) Q w.
Proof.
  intros HI Hl Hf HQ. destruct (open_world fp k w HI Hl) as (ch & Ew & _ & HO).
  pose proof HO as (Hok & _ & t & HC & _). destruct (Hf ch Hok) as (Hok' & Hid' & Ho').
  rewrite Ew. eapply wp_mod_ch; [done|]. apply HQ; [|done].
  eapply close_world. by eapply Opened_set.
Qed.

Lemma process_channel_close_ok p w :
  Inv fp w.(conn) → Forall in8 p → wp (process_channel_close p) (handled 4) w.
Proof.
  intros HI Hp. unfold process_channel_close. apply wp_if; intros El; [short|].
  destruct (byte_at p 1) as (id & -> & Hid); [done|lia|]. apply wp_bind, wp_some, wp_bind.
  eapply (wp_channel fp); [apply HI|done|..].
  - intros _. apply wp_bind, wp_ret, wp_ret. split; [done|right; lia].
  - intros k _ Hl. apply wp_bind, wp_bind. eapply wp_mod_live; [done|done| |].
    + intros ch []. by split; [constructor|].
    + intros w' HI' Hl'. eapply (Inv_wp_ev fp); [exact HI'|by intros ? [= <-]|].
      intros w2 HI2 _. apply wp_ret. split; [done|right; lia].
Qed.

Lemma process_window_update_ok p w :
  Inv fp w.(conn) → Forall in8 p → wp (process_window_update p) (handled 6) w.
Proof.
  intros HI Hp. unfold process_window_update. apply wp_if; intros El; [short|].
  destruct (byte_at p 1) as (id & -> & Hid); [done|lia|]. apply wp_bind, wp_some.
  destruct (rd32_ok p 2) as (win & -> & Hwin); [done|lia..|]. apply wp_bind, wp_some, wp_bind.
  eapply (wp_channel fp); [apply HI|done|..].
  { intros _. apply wp_ret. split; [done|right; lia]. }
  intros k _ Hl. destruct (open_world fp k w HI Hl) as (ch & Ew & _ & HO).
  pose proof HO as (Hok & _ & t & HC & _). rewrite Ew.
  eapply wp_bind, wp_get_ch; [done|]. rewrite <-Ew. apply wp_bind, wp_if; intros E1.
  - apply wp_bind. eapply wp_mod_live; [done|done|intros ? []; by split; [constructor|]|].
    intros w1 HI1 Hl1. apply wp_if; intros E2.
    + eapply wp_mod_live; [done|done|intros ? []; by split; [constructor|]|].
      intros w2 HI2 _. apply wp_ret. split; [done|right; lia].
    + apply wp_ret, wp_ret. split; [done|right; lia].
  - apply wp_ret, wp_ret. split; [done|right; lia].
Qed.

(** ** Opening a channel *)

Lemma first_unused_Some i0 used i :
  first_unused i0 used = Some i → i0 <= i ∧ used !! Z.to_nat (i - i0) = Some 0.
Proof.
  revert i0. induction used as [|u used IH]; intros i0 H; simpl in *; [done|].
  destruct (Z.eqb_spec u 0) as [->|].
  - simplify_eq. rewrite Z.sub_diag. split; [lia|done].
  - destruct (IH _ H) as [? E]. split; [lia|].
    replace (Z.to_nat (i - i0)) with (S (Z.to_nat (i - (i0 + 1)))) by lia. done.
Qed.

Definition blank : netchan_chan := chan_reset_bufs zero_chan.

Lemma blank_ok : chan_ok fp blank.
Proof.
  constructor; try done; try (unfold inw; simpl; lia).
  - apply Forall_forall. intros x Hx%elem_of_replicate_inv. subst. unfold inw. lia.
  - intros i o Ho. apply list_elem_of_lookup_2, list_elem_of_In, in_map_iff in Ho as (o' & <- & Ho'%list_elem_of_In).
    apply elem_of_replicate_inv in Ho'. subst. by left.
  - intros i o Ho. apply list_elem_of_lookup_2, list_elem_of_In, in_map_iff in Ho as (o' & <- & Ho'%list_elem_of_In).
    left. split; [unfold in_ring; simpl; lia|done].
  - intros i o Ho. apply list_elem_of_lookup_2, list_elem_of_In, in_map_iff in Ho as (o' & <- & Ho'%list_elem_of_In).
    apply elem_of_replicate_inv in Ho'. subst. by left.
  - intros i o Ho. apply list_elem_of_lookup_2, list_elem_of_In, in_map_iff in Ho as (o' & <- & Ho'%list_elem_of_In).
    apply elem_of_replicate_inv in Ho'. subst. by left.
Qed.

Lemma blank_owned b : buf_ok b → owned b blank = 0.
Proof.
  intros Hb. unfold owned.
  rewrite !sumf_zero; [done|..]; intros x Hx; apply list_elem_of_In, in_map_iff in Hx as (x' & <- & _);
    by apply cnt_nobuf.
Qed.

Lemma Inv_alloc c k :
  Inv fp c → 0 <= k → c.(chan_used) !! Z.to_nat k = Some 0 →
  Inv fp (set_chan_used (<[Z.to_nat k := 1]> c.(chan_used)) (with_ch k blank c)).
Proof.
  intros [Hc H2 H3 H4] Hk Hu. pose proof (lookup_lt_Some _ _ _ Hu) as Hlt.
  pose proof (ok_chan_used _ _ Hc) as Hlu. pose proof (ok_chan_pool _ _ Hc) as Hlp.
  set (c' := set_chan_used _ _).
  assert (Hlive : ∀ j, live c j → live c' j ∧ j ≠ k).
  { intros j [Hj Hju]. assert (j ≠ k) by (intros ->; congruence). split; [|done]. split; [done|]. simpl.
    rewrite list_lookup_insert_ne by lia. done. }
  assert (Hlive' : ∀ j, live c' j → j = k ∨ live c j).
  { intros j [Hj Hju]. destruct (decide (j = k)); [by left|]. right. split; [done|].
    simpl in Hju. rewrite list_lookup_insert_ne in Hju by lia. done. }
  constructor.
  - destruct Hc. constructor; try done; simpl; rewrite ?length_insert; try done.
    + intros e j He Hj. apply (Hlive j). eauto.
    + intros i j Hi. apply (Hlive j). eauto.
  - intros j ch Hj. simpl. destruct (decide (j = k)) as [->|Hne].
    + rewrite list_lookup_insert_eq by lia. intros [= <-]. apply blank_ok.
    + destruct (Hlive' j Hj) as [|Hj']; [done|]. rewrite list_lookup_insert_ne by (destruct Hj; lia). eauto.
  - intros i j ch Hi. simpl in *. destruct (Hlive j (ok_table _ _ Hc i j Hi)) as [[Hr _] Hne].
    rewrite list_lookup_insert_ne by lia. eauto.
  - intros b Hb. destruct (lookup_lt_is_Some_2 c.(chan_pool) (Z.to_nat k)) as [ch0 Hch0]; [lia|].
    rewrite <-(H4 b Hb). unfold held. simpl. rewrite (sumf_zip _ _ _ _ ch0 0) by done.
    unfold contrib at 2 3. simpl. rewrite blank_owned by done. unfold free_bufs. simpl. lia.
Qed.

(** The channel that [chan_new] sets up. *)
Definition new_chan (id type dir role window : Z) (ct : option (list Z)) : netchan_chan :=
  let ch := set_ch_state 0 (set_ch_role role (set_ch_dir dir (set_ch_type type (set_ch_id id blank)))) in
  let ch := match ct with Some s => set_content_type (snprintf64 s) ch | None => ch end in
  set_recv_window window (set_send_window 0 ch).

Lemma c_str_length bs : (length (c_str bs) <= length bs)%nat.
Proof. induction bs as [|b bs IH]; simpl; [done|]. case_match; simpl; lia. Qed.

Lemma c_str_in bs : Forall in8 bs → Forall in8 (c_str bs).
Proof. induction 1; simpl; [done|]. case_match; auto. Qed.

Lemma c_str_app_zero (l : list Z) n : (0 < n)%nat → (length (c_str (l ++ replicate n 0%Z)) <= length l)%nat.
Proof.
  intros Hn. induction l as [|b l IH]; simpl; [by destruct n|]. case_match; simpl; lia.
Qed.

Lemma snprintf64_ok s : Forall in8 s →
  length (snprintf64 s) = 64%nat ∧ (length (c_str (snprintf64 s)) < 64)%nat ∧ Forall in8 (snprintf64 s).
Proof.
  intros Hs. unfold snprintf64. pose proof (length_take (c_str s) 63) as Hl.
  split_and!.
  - rewrite length_app, length_replicate. lia.
  - eapply Nat.le_lt_trans; [apply c_str_app_zero; lia|]. lia.
  - apply Forall_app. split; [by apply Forall_take, c_str_in|].
    apply Forall_forall. intros x Hx%elem_of_replicate_inv. subst. unfold inw. lia.
Qed.

Lemma new_chan_ok id type dir role window ct :
  in8 id → match ct with Some s => Forall in8 s | None => True end →
  chan_ok fp (new_chan id type dir role window ct).
Proof.
  intros Hid Hct. destruct blank_ok. destruct ct as [s|]; [|by constructor].
  destruct (snprintf64_ok s Hct) as (H1 & H2 & H3). constructor; try done. simpl. lia.
Qed.

Lemma new_chan_owned id type dir role window ct b :
  buf_ok b → owned b (new_chan id type dir role window ct) = 0.
Proof. intros Hb. rewrite <-(blank_owned b Hb). by destruct ct. Qed.

(** [chan_new] fails without effect when every slot is used; otherwise it sets
    up a channel in an unused slot and enters it in the table. *)
Lemma wp_chan_new w id type dir role ct (Q : option Z → world → Prop) :
  Inv fp w.(conn) → in8 id → match ct with Some s => Forall in8 s | None => True end →
  w.(conn).(channels) !! Z.to_nat id = Some None →
  Q None w →
  (∀ k w', Inv fp w'.(conn) → live w'.(conn) k → ¬ live w.(conn) k →
     w'.(conn).(channels) = <[Z.to_nat id := Some k]> w.(conn).(channels) →
     w'.(conn).(chan_pool) =
       <[Z.to_nat k := new_chan id type dir role w.(conn).(cfg).(chan_window) ct]> w.(conn).(chan_pool) →
     Q (Some k) w') →
  wp (chan_new id type dir role ct) Q w.
Proof.
  intros HI Hid Hct Hnone HN HS. pose proof (Inv_conn _ _ HI) as Hc. unfold chan_new, getc.
  apply wp_bind, wp_gets. destruct (first_unused 0 (chan_used (conn w))) as [k|] eqn:Ek; [|by apply wp_ret].
  apply first_unused_Some in Ek as [Hk Hu]. rewrite Z.sub_0_r in Hu.
  pose proof (lookup_lt_Some _ _ _ Hu) as Hlt. pose proof (ok_chan_used _ _ Hc) as Hlu.
  pose proof (ok_chan_pool _ _ Hc) as Hlp.
  unfold put_ch at 1, getc. apply wp_bind, wp_bind, wp_gets, wp_bind. rewrite aset_in by lia.
  apply wp_some, wp_mod. rewrite (aset_in w.(conn).(chan_used)) by lia. apply wp_bind, wp_some, wp_bind, wp_mod.
  set (w1 := set_conn _ _). pose proof (Inv_alloc w.(conn) k HI Hk Hu) as HI1.
  change (set_chan_used _ (with_ch k blank w.(conn))) with w1.(conn) in HI1.
  assert (Hlive : live w1.(conn) k).
  { split; [lia|]. simpl. rewrite list_lookup_insert_eq by lia. done. }
  destruct (open_world fp k w1 HI1 Hlive) as (ch & Ew & Hch & HO). simpl in Hch.
  rewrite list_lookup_insert_eq in Hch by lia. assert (ch = blank) as -> by (unfold blank; congruence). clear Hch.
  pose proof HO as (_ & _ & t & HC & Ht).
  rewrite Ew. do 5 (eapply wp_bind, wp_mod_ch; [done|]).
  set (ch1 := set_ch_state 0 _). set (ch2 := match ct with Some s => set_content_type (snprintf64 s) ch1 | None => ch1 end).
  assert (Hct2 : ∀ Q', Q' tt (upd k ch2 w1) → wp (match ct with
    | Some s => mod_ch k (set_content_type (snprintf64 s)) | None => mret tt end) Q' (upd k ch1 w1)).
  { intros Q' HQ'. unfold ch2 in HQ'. destruct ct; [|by apply wp_ret]. eapply wp_mod_ch; done. }
  apply wp_bind, Hct2. do 2 (eapply wp_bind, wp_mod_ch; [done|]).
  set (nch := new_chan id type dir role w.(conn).(cfg).(chan_window) ct).
  change (upd k _ w1) with (upd k nch w1).
  pose proof (ok_channels _ _ Hc). unfold inw in Hid. rewrite aset_in by lia.
  apply wp_bind, wp_some, wp_bind, wp_mod, wp_ret.
  assert (HI2 : Inv fp (upd k nch w1).(conn)).
  { eapply (close_chan fp k id t); [|by apply new_chan_ok|by unfold nch, new_chan; destruct ct|].
    - destruct HC as [C1 C2 C3 C4 C5 C6]. constructor; try done.
      intros i Hi. exfalso. simpl in Hi. destruct (ok_table _ _ Hc i k Hi). congruence.
    - intros b Hb. specialize (Ht b Hb). rewrite blank_owned in Ht by done.
      unfold nch. rewrite new_chan_owned by done. done. }
  eapply HS; try done.
  - destruct HI2 as [J1 J2 J3 J4]. constructor; try done.
    + destruct J1. constructor; try done; simpl.
      * by rewrite length_insert.
      * intros i j Hi. destruct (decide (Z.to_nat id = i)) as [<-|].
        -- rewrite list_lookup_insert_eq in Hi by lia. by simplify_eq.
        -- rewrite list_lookup_insert_ne in Hi by done. by eapply (ok_table i).
    + intros i j ch' Hi Hch'. simpl in Hi, Hch'. destruct (decide (Z.to_nat id = i)) as [<-|].
      * rewrite list_lookup_insert_eq in Hi by lia. simplify_eq.
        rewrite list_lookup_insert_eq in Hch' by (rewrite length_insert; lia).
        assert (ch' = nch) as -> by congruence. unfold nch, new_chan. destruct ct; simpl; lia.
      * rewrite list_lookup_insert_ne in Hi by done. by eapply (J3 i j).
  - intros [_ Hl]. congruence.
  - simpl. by rewrite list_insert_insert_eq.
Qed.

Lemma process_channel_open_ok p w :
  Inv fp w.(conn) → Forall in8 p →
  wp (process_channel_open p)
    (handled (match aget p 4 with Some n => 5 + n | None => 0 end)) w.
Proof.
  intros HI Hp. unfold process_channel_open. apply wp_if; intros El; [short|].
  destruct (byte_at p 1) as (id & -> & Hid); [done|lia|]. apply wp_bind, wp_some.
  destruct (byte_at p 2) as (ty & -> & Hty); [done|lia|]. apply wp_bind, wp_some.
  destruct (byte_at p 3) as (dir & -> & Hdir); [done|lia|]. apply wp_bind, wp_some.
  destruct (byte_at p 4) as (n & -> & Hn); [done|lia|]. apply wp_bind, wp_some.
  apply wp_if; intros El2; [short|]. unfold inw in Hn.
  assert (Hclose : ∀ w', Inv fp w'.(conn) →
    wp (ctrl_channel_close id 1;; mret (5 + n)) (handled (5 + n)) w').
  { intros w' HI'. apply wp_bind. eapply (Inv_wp_ctrl fp); [done|bytes|].
    intros w2 HI2 _. apply wp_ret. split; [done|right; lia]. }
  apply wp_bind. eapply (wp_channel fp); [apply HI|done| |auto]. intros Hnone.
  apply wp_bind.
  set (m := if n <? 63 then n else 63). assert (Hm : 0 <= m <= n ∧ m <= 63) by (unfold m; destruct (Z.ltb_spec n 63); lia).
  apply (wp_mono _ (λ bs w', w' = w ∧ Forall in8 bs ∧ (length bs <= 63)%nat)).
  { apply wp_if; intros E0; [|apply wp_ret; split_and!; [done|by apply Forall_nil|simpl; lia]]. rewrite aslice_in by lia. apply wp_some.
    split_and!; [done|by apply Forall_take, Forall_drop|]. rewrite length_take. lia. }
  intros bs w' (-> & Hbs & Hbl). apply wp_bind. eapply wp_chan_new; [done|done| |done|auto|].
  { apply Forall_app. split; [done|]. apply Forall_forall. intros x Hx%elem_of_replicate_inv.
    subst. unfold inw. lia. }
  intros k w1 HI1 Hl1 _ _ Hpool1. apply wp_bind. eapply wp_mod_live; [done|done| |].
  { intros ch []. by split; [constructor|]. }
  intros w2 HI2 Hl2. apply wp_bind.
  assert (Hend : ∀ w', Inv fp w'.(conn) → live w'.(conn) k →
    wp (ev_push NETCHAN_EV_CHAN_OPEN (Some k);; mret (5 + n)) (handled (5 + n)) w').
  { intros w' HI' Hl'. apply wp_bind. eapply (Inv_wp_ev fp); [exact HI'|by intros ? [= <-]|].
    intros w3 HI3 _. apply wp_ret. split; [done|right; lia]. }
  apply wp_if; intros Erole; [|by apply wp_ret, Hend].
  destruct (open_world fp k w2 HI2 Hl2) as (ch & Ew & _ & HO). pose proof HO as (_ & _ & t & HC & _).
  rewrite Ew. eapply wp_bind, wp_get_ch; [done|]. rewrite <-Ew.
  eapply (Inv_wp_ctrl fp); [done|bytes|]. intros w3 HI3 Hs3. apply Hend; [done|].
  by eapply live_same.
Qed.
End Handlers.
