(* ===== verification/NcFeed.v ===== *)
(** * Packet input of netchan keeps the invariant

    Data and acknowledgement frames, the frame parser and [netchan_feed].  The
    acknowledgement of a sequence number is characterised exactly: the active
    messages up to it are released, the others are kept. *)

From stdpp Require Import gmap.
From S2P Require Import Prelude NcState NcOps NcProto NcApi NcInv NcChan.
From S2P Require Import NcRecv NcFrag NcSafe.

#[local] Ltac Zify.zify_post_hook ::= Z.to_euclidean_division_equations.

(** ** The head of the outgoing ring *)

Lemma head_ok fp ch o :
  chan_ok fp ch → ch.(out_head) ≠ ch.(out_tail) →
  ch.(outgoing) !! Z.to_nat ch.(out_head) = Some o → nz o.(o_active) = false →
  chan_ok fp (set_out_head ((ch.(out_head) + 1) mod 64) ch).
Proof.
  intros Hok Hne Ho Ha. destruct Hok. constructor; try done; simpl; [lia|].
  intros i o' Ho'. destruct (ok_outs i o' Ho') as [?|(E & ? & ? & ? & ? & ? & ? & ? & Hr)]; [by left|].
  pose proof (lookup_lt_Some _ _ _ Ho').
  assert (Z.of_nat i ≠ ch.(out_head)).
  { intros Ei. rewrite <-Ei, Nat2Z.id in Ho. simplify_eq. by rewrite E in Ha. }
  right. do 8 (split; [done|]). unfold in_ring in *. lia.
Qed.

Lemma wp_advance_head fp k idk n ch w (Q : unit → world → Prop) :
  Opened fp k idk ch w → (ch.(out_tail) - ch.(out_head)) mod 64 < Z.of_nat n →
  (∀ h, Opened fp k idk (set_out_head h ch) w → Q tt (upd k (set_out_head h ch) w)) →
  wp (advance_head n k) Q (upd k ch w).
Proof.
  revert ch. induction n as [|n IH]; intros ch HO Hn HQ; [lia|]. cbn [advance_head].
  pose proof HO as (Hok & Hid & t & HC & Ht). eapply wp_bind, wp_get_ch; [done|].
  pose proof (ok_out_head _ _ Hok). pose proof (ok_out_tail _ _ Hok). pose proof (ok_outgoing _ _ Hok).
  assert (Hstop : Q tt (upd k ch w)).
  { replace ch with (set_out_head ch.(out_head) ch) by (by destruct ch). apply HQ. by destruct ch. }
  apply wp_if; intros E; [by apply wp_ret|]. apply Z.eqb_neq in E.
  destruct (lookup_lt_is_Some_2 ch.(outgoing) (Z.to_nat ch.(out_head))) as [o Ho]; [lia|].
  eapply wp_bind, wp_get_out; [done|lia|done|]. apply wp_if; intros Ea; [by apply wp_ret|].
  eapply wp_bind, wp_mod_ch; [done|]. apply IH.
  - eapply Opened_set; [done|by eapply head_ok|done|done].
  - simpl. unfold NC_OUTGOING_SLOTS. lia.
  - intros h. apply (HQ h).
Qed.

(** ** Acknowledgements *)

(** A message released by an acknowledgement of [acked]. *)
Definition acked_out (acked : Z) (o : nc_outgoing) : bool :=
  nz o.(o_active) && (s16 (o.(o_seq) - acked) <=? 0).

Definition ack_out (acked : Z) (o : nc_outgoing) : nc_outgoing :=
  if acked_out acked o then set_o_active 0 (set_o_buf NC_NOBUF o) else o.

(** The slots below [i] have been processed. *)
Definition ack_upto (acked i : Z) (outs : list nc_outgoing) : list nc_outgoing :=
  (ack_out acked <$> take (Z.to_nat i) outs) ++ drop (Z.to_nat i) outs.

Lemma ack_upto_length acked i outs : length (ack_upto acked i outs) = length outs.
Proof. unfold ack_upto. rewrite length_app, length_fmap, length_take, length_drop. lia. Qed.

Lemma ack_upto_S acked i outs o :
  0 <= i → outs !! Z.to_nat i = Some o →
  ack_upto acked i outs !! Z.to_nat i = Some o ∧
  ack_upto acked (i + 1) outs = <[Z.to_nat i := ack_out acked o]> (ack_upto acked i outs).
Proof.
  intros Hi Ho. pose proof (lookup_lt_Some _ _ _ Ho) as Hlt. unfold ack_upto.
  assert (Hl : length (ack_out acked <$> take (Z.to_nat i) outs) = Z.to_nat i).
  { rewrite length_fmap, length_take. lia. }
  rewrite (drop_S outs o (Z.to_nat i)) by done. split.
  - rewrite lookup_app_r by lia. rewrite Hl, Nat.sub_diag. done.
  - rewrite insert_app_r_alt by lia. rewrite Hl, Nat.sub_diag. simpl.
    replace (Z.to_nat (i + 1)) with (S (Z.to_nat i)) by lia.
    rewrite (take_S_r _ _ o) by done. rewrite fmap_app. simpl. by rewrite <-app_assoc.
Qed.

(** What an acknowledgement leaves alone. *)
Record send_frame (ch ch' : netchan_chan) : Prop := {
  sf_id : ch'.(ch_id) = ch.(ch_id);
  sf_type : ch'.(ch_type) = ch.(ch_type);
  sf_role : ch'.(ch_role) = ch.(ch_role);
  sf_state : ch'.(ch_state) = ch.(ch_state);
  sf_out_tail : ch'.(out_tail) = ch.(out_tail);
  sf_send_seq : ch'.(send_seq) = ch.(send_seq);
  sf_recv_seq : ch'.(recv_seq) = ch.(recv_seq);
  sf_recv_queue : ch'.(recv_queue) = ch.(recv_queue);
  sf_reorder : ch'.(reorder) = ch.(reorder);
  sf_frags : ch'.(frags) = ch.(frags)
}.

Lemma send_frame_refl ch : send_frame ch ch.
Proof. by constructor. Qed.

Lemma released_ok fp h tl i o : out_ok fp h tl i (set_o_active 0 (set_o_buf NC_NOBUF o)).
Proof. by left. Qed.

Lemma with_out_ok fp i o ch :
  chan_ok fp ch → out_ok fp ch.(out_head) ch.(out_tail) i o → 0 <= i < 64 →
  chan_ok fp (set_outgoing (<[Z.to_nat i := o]> ch.(outgoing)) ch).
Proof.
  intros Hok Ho Hi. destruct Hok. constructor; try done; simpl.
  - by rewrite length_insert.
  - intros j o' Hj. destruct (decide (Z.to_nat i = j)) as [<-|].
    + rewrite list_lookup_insert_eq in Hj by lia. simplify_eq. by rewrite Z2Nat.id by lia.
    + rewrite list_lookup_insert_ne in Hj by done. eauto.
Qed.

Lemma with_out_owned i o o' ch x :
  ch.(outgoing) !! Z.to_nat i = Some o →
  owned x (set_outgoing (<[Z.to_nat i := o']> ch.(outgoing)) ch) =
    owned x ch - cnt x o.(o_buf) + cnt x o'.(o_buf).
Proof. intros Ho. unfold owned. simpl. rewrite (sumf_insert _ _ _ o) by done. lia. Qed.

(** Releasing the buffer of an active slot [j]. *)
Lemma wp_release {A} fp k idk ch w j o (rest : M world A) (Q : A → world → Prop) :
  Opened fp k idk ch w → 0 <= j < 64 → ch.(outgoing) !! Z.to_nat j = Some o → nz o.(o_active) = true →
  (∀ w', let ch' := set_outgoing (<[Z.to_nat j := set_o_active 0 (set_o_buf NC_NOBUF o)]> ch.(outgoing)) ch in
     Opened fp k idk ch' w' → w'.(conn).(cfg) = w.(conn).(cfg) →
     w'.(conn).(pool_store) = w.(conn).(pool_store) → wp rest Q (upd k ch' w')) →
  wp (pool_put o.(o_buf);; put_out k j (set_o_active 0 (set_o_buf NC_NOBUF o));; rest) Q (upd k ch w).
Proof.
  intros HO Hj Ho Ha HQ. pose proof HO as (Hok & Hid & t & HC & Ht). pose proof (ok_outgoing _ _ Hok).
  destruct (ok_outs _ _ Hok _ _ Ho) as [[E _]|(_ & Hb & _)]; [by rewrite E in Ha|].
  set (ch' := set_outgoing (<[Z.to_nat j := set_o_active 0 (set_o_buf NC_NOBUF o)]> ch.(outgoing)) ch) in *.
  assert (Hown : ∀ x, buf_ok x → owned x ch' = owned x ch - cnt x o.(o_buf)).
  { intros x Hx. unfold ch'. rewrite (with_out_owned _ o) by done. simpl.
    change NC_NOBUF with (-1). rewrite (cnt_nobuf x) by done. lia. }
  apply wp_bind. eapply (wp_pool_put fp k idk ch'); [done|done| |].
  { intros x Hx. rewrite Hown by done. specialize (Ht x Hx). lia. }
  intros w1 t1 HC1 Ht1 _ Hcfg Hst. eapply wp_bind, wp_put_out; [done|lia|]. fold ch'.
  apply HQ; try done. split; [apply with_out_ok; [done|apply released_ok|done]|]. split; [done|]. by exists t1.
Qed.

Lemma wp_seq_ret {S A} (a : M S A) (b : M S unit) (Q : unit → S → Prop) s :
  wp (a;; b;; mret tt) Q s → wp (a;; b) Q s.
Proof.
  unfold wp, mbind, M_bind. destruct (a s) as [[x s1]|]; [|done]. by destruct (b s1) as [[[] s2]|].
Qed.

Lemma ack_loop_ok fp k idk acked outs n i ch0 ch w (Q : unit → world → Prop) :
  Opened fp k idk ch w → 0 <= i → i + Z.of_nat n = 64 → length outs = 64%nat →
  ch.(outgoing) = ack_upto acked i outs → send_frame ch0 ch →
  (∀ ch' w', Opened fp k idk ch' w' → ch'.(outgoing) = ack_out acked <$> outs → send_frame ch0 ch' →
     w'.(conn).(cfg) = w.(conn).(cfg) → w'.(conn).(pool_store) = w.(conn).(pool_store) →
     Q tt (upd k ch' w')) →
  wp (mfor (seqZ i (Z.of_nat n)) (ack_slot k acked)) Q (upd k ch w).
Proof.
  revert i ch w. induction n as [|n IH]; intros i ch w HO Hi Hin Hl Hout Hsf HQ.
  { simpl. apply wp_ret, HQ; [done| |done..]. rewrite Hout. unfold ack_upto.
    rewrite take_ge, drop_ge by lia. by rewrite app_nil_r. }
  rewrite seqZ_cons by lia. replace (Z.pred (Z.of_nat (S n))) with (Z.of_nat n) by lia. simpl.
  pose proof HO as (Hok & Hid & t & HC & Ht).
  destruct (lookup_lt_is_Some_2 outs (Z.to_nat i)) as [o Ho]; [lia|].
  destruct (ack_upto_S acked i outs o Hi Ho) as [Ho' HS]. rewrite <-Hout in Ho', HS.
  unfold ack_slot at 1. apply wp_bind. eapply wp_bind, wp_get_out; [done|done|done|].
  assert (Hnext : ∀ ch1 w1, Opened fp k idk ch1 w1 → ch1.(outgoing) = <[Z.to_nat i := ack_out acked o]> ch.(outgoing) →
    send_frame ch ch1 → w1.(conn).(cfg) = w.(conn).(cfg) → w1.(conn).(pool_store) = w.(conn).(pool_store) →
    wp (mfor (seqZ (Z.succ i) (Z.of_nat n)) (ack_slot k acked)) Q (upd k ch1 w1)).
  { intros ch1 w1 HO1 Hout1 Hsf1 Hcfg1 Hst1. apply (IH (Z.succ i)); try done; [lia..| | |].
    - rewrite Hout1, <-HS. done.
    - destruct Hsf, Hsf1. constructor; congruence.
    - intros ch' w' ? ? ? ? ?. apply HQ; congruence. }
  assert (Hsame : ack_out acked o = o → wp (mret tt) (λ _ : (), wp (mfor (seqZ (Z.succ i) (Z.of_nat n)) (ack_slot k acked)) Q) (upd k ch w)).
  { intros E. apply wp_ret, Hnext; [done| |apply send_frame_refl|done|done]. rewrite E, list_insert_id; done. }
  unfold ack_out, acked_out in Hsame.
  destruct (nz (o_active o)) eqn:Ea; simpl; [|by apply Hsame].
  destruct (s16 (o_seq o - acked) <=? 0) eqn:Ed; simpl in *; [|by apply Hsame].
  do 2 (eapply wp_bind, wp_mod_ch; [done|]). set (ch1 := set_msgs_acked _ _). apply wp_seq_ret.
  eapply (wp_release fp k idk ch1); [|lia|exact Ho'|done|].
  { eapply Opened_set; [done|..|done|done]. destruct Hok. by constructor. }
  intros w2 ch2 HO2 Hcfg2 Hst2. apply wp_ret, Hnext; [done| |by constructor|done|done].
  unfold ack_out, acked_out. rewrite Ea, Ed. done.
Qed.

(** What an acknowledgement frame does to the sending channel it names. *)
Lemma wp_ack fp k idk acked ch w (Q : unit → world → Prop) :
  Opened fp k idk ch w →
  (∀ ch' w', Opened fp k idk ch' w' → ch'.(outgoing) = ack_out acked <$> ch.(outgoing) →
     send_frame ch ch' → w'.(conn).(cfg) = w.(conn).(cfg) →
     w'.(conn).(pool_store) = w.(conn).(pool_store) → Q tt (upd k ch' w')) →
  wp (mfor (upto NC_OUTGOING_SLOTS) (ack_slot k acked);; advance_head 65 k) Q (upd k ch w).
Proof.
  intros HO HQ. pose proof HO as (Hok & _). apply wp_bind. unfold upto.
  apply (ack_loop_ok fp k idk acked ch.(outgoing) 64 0 ch); [done|lia|lia|by apply Hok|done|apply send_frame_refl|].
  intros ch1 w1 HO1 Hout1 Hsf1 Hcfg1 Hst1. eapply wp_advance_head; [done|lia|]. intros h HOh.
  apply HQ; [done|done| |done|done]. destruct Hsf1. by constructor.
Qed.

Section Feed.
Context (fp : Z).
Hypothesis Hfp : 0 < fp.

Ltac short := apply wp_ret; split; [assumption|left; unfold NETCHAN_ERR_PROTO; lia].

Lemma process_ack_ok p w :
  Inv fp w.(conn) → Forall in8 p → wp (process_ack p) (handled fp 4) w.
Proof.
  intros HI Hp. unfold process_ack. apply wp_if; intros El; [short|].
  destruct (byte_at p 1) as (id & -> & Hid); [done|lia|]. apply wp_bind, wp_some.
  destruct (rd16_ok p 2) as (acked & -> & Hack); [lia..|]. apply wp_bind, wp_some, wp_bind.
  eapply (wp_channel fp); [apply HI|done|..].
  { intros _. apply wp_ret. split; [done|right; lia]. }
  intros k _ Hl. destruct (open_world fp k w HI Hl) as (ch & Ew & _ & HO).
  pose proof HO as (Hok & _ & t & HC & _). rewrite Ew.
  eapply wp_bind, wp_get_ch; [done|]. apply wp_if; intros E1.
  { rewrite <-Ew. apply wp_ret. split; [done|right; lia]. }
  apply wp_bind. rewrite <-Ew. rewrite Ew at 1.
  pose proof (wp_ack fp k _ acked ch w (λ _ w', wp (mret 4) (handled fp 4) w') HO) as H.
  assert (H' : wp (mfor (upto NC_OUTGOING_SLOTS) (ack_slot k acked);; advance_head 65 k)
    (λ _ w', wp (mret 4) (handled fp 4) w') (upd k ch w)).
  { apply H. intros ch' w' HO' _ _ _ _. apply wp_ret. split; [by eapply close_world|right; lia]. }
  revert H'. clear. unfold wp, mbind, M_bind.
  destruct (mfor _ _ _) as [[[] s1]|]; [|done]. by destruct (advance_head 65 k s1) as [[[] s2]|].
Qed.

(** ** Data frames *)

(** A data frame of a channel that keeps its messages in order. *)
Definition reliable_data (k seq idx total : Z) (payload : list Z) (n : Z) : M world unit :=
  if total <=? 1 then reliable_deliver k seq (SrcBytes payload) n
  else
    r ← frag_store k seq idx total payload n;
    match r with
    | None => mret tt
    | Some (i, base, pos) => reliable_deliver k seq (SrcPool base) pos;; frag_free k i
    end.

Definition unreliable_data (k seq idx total : Z) (payload : list Z) (n : Z) : M world unit :=
  if total <=? 1 then
    _ ← chan_recv_enqueue k (SrcBytes payload) n; ev_push NETCHAN_EV_DATA (Some k)
  else
    r ← frag_store k seq idx total payload n;
    match r with
    | None => mret tt
    | Some (i, base, pos) =>
        _ ← chan_recv_enqueue k (SrcPool base) pos;
        ev_push NETCHAN_EV_DATA (Some k);; frag_free k i
    end.

Lemma Accepted_frame ch w seq data ch' w' : Accepted ch w seq data ch' w' → recv_frame ch ch'.
Proof. unfold Accepted. by destruct (_ =? _); intros []. Qed.

Lemma stored_slot ch w seq total idx data i f ch' m top :
  FragStored fp ch w seq total idx data i f ch' m top →
  ch'.(frags) !! Z.to_nat i = Some (stored_frag idx (Z.of_nat (length data)) f) ∧
  (stored_frag idx (Z.of_nat (length data)) f).(f_active) = 1 ∧
  (stored_frag idx (Z.of_nat (length data)) f).(f_buf) = f.(f_buf).
Proof.
  intros (ch1 & w1 & (Hi & Hf & Ha & _) & _ & _ & _ & -> & _). simpl.
  rewrite list_lookup_insert_eq by (by eapply lookup_lt_Some). done.
Qed.

Lemma wp_reliable_data k idk ch w seq idx total payload n (Q : unit → world → Prop) :
  Opened fp k idk ch w → in16 seq → 0 <= idx → Forall in8 payload → 0 <= n <= Z.of_nat (length payload) →
  total <= 1 ∨ n <= fp →
  (∀ ch' w', Opened fp k idk ch' w' → Q tt (upd k ch' w')) →
  wp (reliable_data k seq idx total payload n) Q (upd k ch w).
Proof.
  intros HO Hseq Hidx Hp Hn Hfit HQ. unfold reliable_data. apply wp_if; intros Et.
  { eapply wp_reliable_deliver; [done|split; [lia|split; [done|lia]]|done|]. auto. }
  apply wp_bind. eapply wp_frag_store; [done|done|lia|done|done|lia|lia|intros; by apply wp_ret, HQ|].
  intros i f ch1 w1 pos m HO1 _ Hst Hb Hi Hpos _ _.
  destruct (stored_slot _ _ _ _ _ _ _ _ _ _ _ Hst) as (Hf1 & Ha1 & Hb1).
  apply wp_bind. eapply wp_reliable_deliver; [done| |done|].
  { split; [lia|]. exists f.(f_buf). split; [done|]. split; [done|]. rewrite <-Hb1. by eapply frag_owned. }
  intros ch2 w2 HO2 Hacc. apply Accepted_frame in Hacc.
  eapply wp_frag_free; [done|done|by rewrite (rf_frags _ _ Hacc)|done|]. auto.
Qed.

Lemma wp_unreliable_data k idk ch w seq idx total payload n (Q : unit → world → Prop) :
  Opened fp k idk ch w → 0 <= idx → Forall in8 payload → 0 <= n <= Z.of_nat (length payload) →
  total <= 1 ∨ n <= fp →
  (∀ ch' w', Opened fp k idk ch' w' → Q tt (upd k ch' w')) →
  wp (unreliable_data k seq idx total payload n) Q (upd k ch w).
Proof.
  intros HO Hidx Hp Hn Hfit HQ. unfold unreliable_data.
  assert (Hev : ∀ {A} ch w (rest : M world A) (Q : A → world → Prop), Opened fp k idk ch w →
    (∀ w', Opened fp k idk ch w' → wp rest Q (upd k ch w')) →
    wp (ev_push NETCHAN_EV_DATA (Some k);; rest) Q (upd k ch w)).
  { intros A ch1 w1 rest Q1 HO1 HQ1. apply wp_bind. eapply wp_ev_push; [done| |auto].
    intros ? [= <-]. by eapply Opened_live. }
  apply wp_if; intros Et.
  { apply wp_bind. eapply wp_recv_enqueue; [done|split; [lia|split; [done|lia]]|..].
    - intros r _ _. eapply wp_ev_push; [done|intros ? [= <-]; by eapply Opened_live|auto].
    - intros b w' HO' _ _ _ _ _ _ _ _. eapply wp_ev_push; [done|intros ? [= <-]; by eapply Opened_live|auto]. }
  apply wp_bind. eapply wp_frag_store; [done|done|lia|done|done|lia|lia|intros; by apply wp_ret, HQ|].
  intros i f ch1 w1 pos m HO1 _ Hst Hb Hi Hpos _ _.
  destruct (stored_slot _ _ _ _ _ _ _ _ _ _ _ Hst) as (Hf1 & Ha1 & Hb1).
  apply wp_bind. eapply wp_recv_enqueue; [done| |..].
  { split; [lia|]. exists f.(f_buf). split; [done|]. split; [done|]. rewrite <-Hb1. by eapply frag_owned. }
  - intros r _ _. apply Hev; [done|]. intros w2 HO2. eapply wp_frag_free; [done..|]. auto.
  - intros b w2 HO2 _ _ _ _ _ _ _ _. apply Hev; [done|]. intros w3 HO3. eapply wp_frag_free; [done..|]. auto.
Qed.

Lemma process_data_ok p w :
  Inv fp w.(conn) → Forall in8 p → data_fits fp p = true →
  wp (process_data p) (handled fp (match rd16 p 4 with Some n => 8 + n | None => 0 end)) w.
Proof.
  intros HI Hp Hfit. unfold process_data. apply wp_if; intros El; [short|].
  destruct (byte_at p 1) as (id & -> & Hid); [done|lia|]. apply wp_bind, wp_some.
  destruct (rd16_ok p 2) as (seq & -> & Hseq); [lia..|]. apply wp_bind, wp_some.
  unfold data_fits in Hfit. destruct (rd16_ok p 4) as (n & En & Hn); [lia..|]. rewrite En in *. apply wp_bind, wp_some.
  destruct (byte_at p 6) as (idx & -> & Hidx); [done|lia|]. apply wp_bind, wp_some.
  destruct (byte_at p 7) as (total & Et & Htot); [done|lia|]. rewrite Et in *. apply wp_bind, wp_some.
  unfold inw in *. apply wp_if; intros El2; [short|].
  assert (Hpl : 0 <= n <= Z.of_nat (length (drop 8 p))) by (rewrite length_drop; lia).
  assert (Hpay : Forall in8 (drop 8 p)) by (by apply Forall_drop).
  assert (Hor : total <= 1 ∨ n <= fp) by (destruct (Z.leb_spec total 1), (Z.leb_spec n fp); simpl in Hfit; auto; done).
  apply wp_bind. eapply (wp_channel fp); [apply HI|done|..].
  { intros _. apply wp_ret. split; [done|right; lia]. }
  intros k _ Hl. destruct (open_world fp k w HI Hl) as (ch & Ew & _ & HO).
  pose proof HO as (Hok & _ & t & HC & _). rewrite Ew.
  eapply wp_bind, wp_get_ch; [done|]. apply wp_if; intros Er.
  { rewrite <-Ew. apply wp_ret. split; [done|right; lia]. }
  apply wp_if; intros Ety; apply wp_bind.
  - eapply (wp_unreliable_data k); [done|lia|done|done|done|]. intros ch' w' HO'.
    apply wp_ret. split; [by eapply close_world|right; lia].
  - eapply (wp_reliable_data k); [done|done|lia|done|done|done|]. intros ch' w' HO'.
    pose proof HO' as (Hok' & _ & t' & HC' & _).
    do 2 (eapply wp_bind, wp_mod_ch; [done|]). apply wp_ret. split; [|right; lia]. eapply close_world.
    eapply Opened_set; [done|..|done|done]. destruct Hok'. by constructor.
Qed.

(** ** The parser *)

Lemma process_frame_ok b rest w :
  Inv fp w.(conn) → Forall in8 (b :: rest) →
  negb (b =? NC_FRAME_DATA) || data_fits fp (b :: rest) = true →
  wp (process_frame b (b :: rest)) (handled fp (frame_len (b :: rest))) w.
Proof.
  intros HI Hp Hfit. unfold process_frame, frame_len.
  destruct (b =? NC_FRAME_CONNECT_INIT); [by apply process_connect_init_ok|].
  destruct (b =? NC_FRAME_CONNECT_ACCEPT); [by apply process_connect_accept_ok|].
  destruct (b =? NC_FRAME_CONNECT_REDIRECT); [by apply process_connect_redirect_ok|].
  destruct (b =? NC_FRAME_DISCONNECT); [by apply process_disconnect_ok|].
  destruct (b =? NC_FRAME_PING); [by apply process_ping_ok|].
  destruct (b =? NC_FRAME_PONG); [by apply process_pong_ok|].
  destruct (b =? NC_FRAME_CHANNEL_OPEN); [by apply process_channel_open_ok|].
  destruct (b =? NC_FRAME_CHANNEL_CLOSE); [by apply process_channel_close_ok|].
  destruct (b =? NC_FRAME_DATA); [by apply process_data_ok|].
  destruct (b =? NC_FRAME_ACK); [by apply process_ack_ok|].
  destruct (b =? NC_FRAME_WINDOW_UPDATE); [by apply process_window_update_ok|]. short.
Qed.

(** The parser consumes at least one byte per iteration, so as many iterations
    as there are bytes are enough. *)
Lemma parse_loop_ok n data w :
  Inv fp w.(conn) → Forall in8 data → (length data < n)%nat → fit_loop n fp data = true →
  wp (parse_loop n data) (λ r w', Inv fp w'.(conn) ∧ r <= 0) w.
Proof.
  revert data w. induction n as [|n IH]; intros data w HI Hd Hn Hfit; [lia|].
  destruct data as [|b rest]; [apply wp_ret; split; [done|unfold NETCHAN_OK; lia]|].
  cbn [parse_loop fit_loop] in *. simpl in Hn. apply wp_if; intros E0.
  { rewrite E0 in Hfit. apply IH; [done|by inv Hd|lia|done]. }
  rewrite E0 in Hfit. apply andb_prop in Hfit as [Hf1 Hf2]. apply wp_bind.
  eapply wp_mono; [by apply process_frame_ok|]. intros r w' [HI' Hr].
  apply wp_if; intros Er; [apply wp_ret; split; [done|lia]|].
  destruct Hr as [|[-> Hpos]]; [lia|]. destruct (Z.leb_spec (frame_len (b :: rest)) 0); [lia|].
  apply IH; [done|by apply Forall_drop| |done]. rewrite length_drop, length_cons. lia.
Qed.

Lemma parse_frames_ok data w :
  Inv fp w.(conn) → Forall in8 data → frames_fit fp data = true →
  wp (parse_frames data) (λ r w', Inv fp w'.(conn) ∧ r <= 0) w.
Proof. intros. apply parse_loop_ok; [done|done|lia|done]. Qed.

(** ** Packets *)

Lemma validate_migration_ok c frames :
  conn_ok fp c → Forall in8 frames → ∃ v, validate_migration c frames = Some v.
Proof.
  intros Hc Hf. destruct frames as [|ty rest]; [by eexists|]. cbn [validate_migration length]. pose proof (ok_channels _ _ Hc).
  assert (Hknown : 2 <= Z.of_nat (S (length rest)) → ∃ v : bool,
    (chan_id ← aget (ty :: rest) 1; ch ← aget (channels c) chan_id;
     Some (match ch with Some _ => true | None => false end)) = Some v).
  { intros Hl. destruct (byte_at (ty :: rest) 1) as (id & -> & Hid); [done|simpl; lia|]. simpl.
    unfold inw in Hid. destruct (aget_in (channels c) id) as (o & -> & _); [lia|]. simpl. eauto. }
  set (known := mbind _ _) in *.
  assert (Hack : ∃ v, (if (ty =? NC_FRAME_ACK) && (2 <=? Z.of_nat (S (length rest))) then known else Some false) = Some v).
  { destruct (_ && (2 <=? _)) eqn:E; [|eauto]. apply andb_prop in E as [_ E%Z.leb_le]. by apply Hknown. }
  destruct (_ && (4 <=? _)) eqn:E; [|done]. apply andb_prop in E as [_ E%Z.leb_le].
  destruct (Hknown ltac:(lia)) as [[] ->]; simpl; [by eexists|done].
Qed.

Lemma addr_differs_ok a b : addr_ok a → addr_ok b → ∃ v, addr_differs a b = Some v.
Proof.
  intros [Ha1 Ha2] [Hb1 Hb2]. unfold addr_differs. destruct (_ =? _) eqn:E; simpl; [|eauto].
  rewrite !aslice_in by lia. simpl. eauto.
Qed.

(** Setting the address of the peer. *)
Lemma Inv_peer a w (Q : unit → world → Prop) :
  Inv fp w.(conn) → addr_ok a → (∀ w', Inv fp w'.(conn) → Q tt w') → wp (modc (set_peer_addr a)) Q w.
Proof.
  intros HI Ha HQ. apply wp_mod, HQ. eapply Inv_same; [done|by constructor|].
  destruct (Inv_conn _ _ HI). by constructor.
Qed.

(** The frames of a packet. *)
Definition packet_frames (pkt : list Z) : list Z :=
  match aget pkt 0 with
  | Some flags => drop (if nz (flags .& NC_PKT_FLAG_INIT) then 5 else 7)%nat pkt
  | None => []
  end.

(** The packets whose frames are processed: initial packets, and packets with
    the identifier of this connection. *)
Definition accepts (c : netchan_conn) (pkt : list Z) : bool :=
  (5 <=? Z.of_nat (length pkt)) &&
  match aget pkt 0, rd32 pkt 1 with
  | Some flags, Some id =>
      nz (flags .& NC_PKT_FLAG_INIT) || ((7 <=? Z.of_nat (length pkt)) && (id =? c.(local_id)))
  | _, _ => false
  end.

Lemma wp_feed pkt from w (Q : Z → world → Prop) :
  Inv fp w.(conn) → Forall in8 pkt → match from with Some a => addr_ok a | None => True end →
  (accepts w.(conn) pkt = false → Q NETCHAN_ERR_PROTO w) →
  (∀ w', accepts w.(conn) pkt = true → Inv fp w'.(conn) → Same w.(conn) w'.(conn) →
     w'.(conn).(pool_store) = w.(conn).(pool_store) → w'.(conn).(local_id) = w.(conn).(local_id) →
     wp (parse_frames (packet_frames pkt)) Q w') →
  wp (netchan_feed pkt from) Q w.
Proof.
  intros HI Hp Ha Hno Hyes. unfold netchan_feed, packet_frames, accepts in *.
  unfold NC_HDR_INIT_SIZE, NC_HDR_FULL_SIZE in *. apply wp_if; intros El.
  { apply wp_ret, Hno. destruct (Z.leb_spec 5 (Z.of_nat (length pkt))); [lia|done]. }
  destruct (Z.leb_spec 5 (Z.of_nat (length pkt))); [|lia]. cbn [andb] in *.
  destruct (byte_at pkt 0) as (flags & Ef & _); [done|lia|]. rewrite Ef in *. apply wp_bind, wp_some.
  destruct (rd32_ok pkt 1) as (id & Eid & _); [done|lia..|]. rewrite Eid in *. apply wp_bind, wp_some.
  set (init := nz (flags .& NC_PKT_FLAG_INIT)) in *. cbv zeta.
  apply wp_if; intros E7.
  { apply wp_ret, Hno. destruct init, (Z.ltb_spec (Z.of_nat (length pkt)) 7), (Z.leb_spec 7 (Z.of_nat (length pkt))); done || lia. }
  unfold getc. apply wp_bind, wp_gets. apply wp_if; intros Ei.
  { apply wp_ret, Hno. destruct init; [done|]. cbn [negb andb orb] in *. apply negb_true_iff in Ei. rewrite Ei. apply andb_false_r. }
  assert (Hacc : init || (7 <=? Z.of_nat (length pkt)) && (id =? local_id (conn w)) = true).
  { destruct init; [done|]. cbn [negb andb orb] in *. apply negb_false_iff in Ei. rewrite Ei, andb_true_r. lia. }
  set (frames := drop (if init then 5 else 7)%nat pkt) in *.
  assert (Hfr : Forall in8 frames) by (by apply Forall_drop).
  set (P := λ w', Inv fp w'.(conn) ∧ Same w.(conn) w'.(conn) ∧ w'.(conn).(pool_store) = w.(conn).(pool_store) ∧
    w'.(conn).(local_id) = w.(conn).(local_id)).
  assert (Hpeer : ∀ a w', addr_ok a → P w' → wp (modc (set_peer_addr a)) (λ _, P) w').
  { intros a w' Ha' (HI' & Hs & Hst & Hl). apply wp_mod. split; [|split; [by destruct Hs|done]].
    eapply Inv_same; [done|by constructor|]. destruct (Inv_conn _ _ HI'). by constructor. }
  assert (HP : P w) by (split; [done|split; [apply Same_refl|done]]).
  apply wp_bind. apply (wp_mono _ (λ _, P)).
  { destruct from as [a|]; [|by apply wp_ret]. apply wp_if; intros _; [|by apply wp_ret].
    destruct (addr_differs_ok a w.(conn).(peer_addr)) as [d ->]; [done|apply (Inv_conn _ _ HI)|].
    apply wp_bind, wp_some. destruct d; [|by apply wp_ret].
    destruct (validate_migration_ok w.(conn) frames) as [v ->]; [apply (Inv_conn _ _ HI)|done|].
    apply wp_bind, wp_some. destruct v; [|by apply wp_ret]. by apply Hpeer. }
  intros [] w1 HP1. apply wp_bind, wp_gets, wp_bind. apply (wp_mono _ (λ _, P)).
  { destruct from as [a|]; [|by apply wp_ret]. apply wp_if; intros _; [by apply Hpeer|by apply wp_ret]. }
  intros [] w2 (HI2 & Hs2 & Hst2 & Hl2). apply wp_bind, wp_now. intros v w3 _ Ew3.
  assert (HI3 : Inv fp w3.(conn)) by (by rewrite Ew3).
  apply wp_bind. eapply (Inv_wp_modc fp); [done|by constructor|
    by eapply conn_ok_fields; [apply (Inv_conn _ _ HI3)|constructor|..]|]. intros HI4.
  apply wp_bind. eapply (Inv_wp_modc fp); [done|by constructor|
    by eapply conn_ok_fields; [apply (Inv_conn _ _ HI4)|constructor|..]|]. intros HI5.
  apply Hyes; [done|done| |by simpl; rewrite Ew3|by simpl; rewrite Ew3].
  simpl. rewrite Ew3. by destruct Hs2.
Qed.

Lemma netchan_feed_ok pkt from w :
  Inv fp w.(conn) → Forall in8 pkt → match from with Some a => addr_ok a | None => True end →
  frames_fit fp (packet_frames pkt) = true →
  wp (netchan_feed pkt from) (λ r w', Inv fp w'.(conn) ∧ r <= 0) w.
Proof.
  intros HI Hp Ha Hfit. apply wp_feed; [done..| |].
  - intros _. split; [done|unfold NETCHAN_ERR_PROTO; lia].
  - intros w' _ HI' _ _ _. apply parse_frames_ok; [done| |done]. unfold packet_frames.
    destruct (aget pkt 0); [by apply Forall_drop|by apply Forall_nil].
Qed.
End Feed.
