(* ===== verification/NcSend.v ===== *)
(** * Packet output of netchan keeps the invariant

    [netchan_send_next] never writes outside the caller's buffer: the packet it
    builds is a list of at most [buflen] bytes, and at most [cfg.mtu] of them. *)

From stdpp Require Import gmap.
From S2P Require Import Prelude NcState NcOps NcProto NcApi NcInv NcChan.
From S2P Require Import NcRecv NcFrag NcSafe NcFeed.

#[local] Ltac Zify.zify_post_hook ::= Z.to_euclidean_division_equations.

(** ** The next message to send *)

Lemma next_sendable_ok n outs idx tail :
  length outs = 64%nat → 0 <= idx < 64 → 0 <= tail < 64 → (tail - idx) mod 64 < Z.of_nat n →
  ∃ r, next_sendable n outs idx tail = Some r ∧
    match r with
    | Some j => 0 <= j < 64 ∧ ∃ o, outs !! Z.to_nat j = Some o ∧ nz o.(o_active) = true ∧
                  o.(o_frag_sent) < o.(o_frag_total)
    | None => ∀ j o, (j - idx) mod 64 < (tail - idx) mod 64 → 0 <= j < 64 → outs !! Z.to_nat j = Some o →
                nz o.(o_active) = true → o.(o_frag_total) <= o.(o_frag_sent)
    end.
Proof.
  intros Hl. revert idx. induction n as [|n IH]; intros idx Hi Ht Hn; [lia|]. simpl.
  destruct (Z.eqb_spec idx tail) as [->|Hne].
  { exists None. split; [done|]. intros j o. rewrite Z.sub_diag. simpl. lia. }
  destruct (aget_in outs idx) as (o & -> & Ho); [lia|]. simpl.
  destruct (nz (o_active o) && (o_frag_sent o <? o_frag_total o)) eqn:E.
  { apply andb_prop in E as [Ea Es%Z.ltb_lt]. exists (Some idx). split; [done|]. split; [lia|]. eauto. }
  destruct (IH ((idx + 1) mod NC_OUTGOING_SLOTS)) as (r & Er & Hr);
    [unfold NC_OUTGOING_SLOTS; lia|done|unfold NC_OUTGOING_SLOTS; lia|].
  exists r. split; [done|]. destruct r as [j|]; [done|]. intros j o' Hj Hj2 Ho' Ha.
  destruct (decide (j = idx)) as [->|].
  - assert (o' = o) as -> by congruence. rewrite Ha in E. simpl in E. lia.
  - apply (Hr j); try done. unfold NC_OUTGOING_SLOTS. lia.
Qed.

Lemma chan_next_sendable_ok fp ch :
  chan_ok fp ch → ∃ r, chan_next_sendable ch = Some r ∧
    match r with
    | Some j => 0 <= j < 64 ∧ ∃ o, ch.(outgoing) !! Z.to_nat j = Some o ∧ nz o.(o_active) = true ∧
                  o.(o_frag_sent) < o.(o_frag_total)
    | None => ∀ j o, ch.(outgoing) !! Z.to_nat j = Some o → 0 <= j < 64 →
                nz o.(o_active) = true → o.(o_frag_total) <= o.(o_frag_sent)
    end.
Proof.
  intros Hok. destruct (next_sendable_ok 65 ch.(outgoing) ch.(out_head) ch.(out_tail)) as (r & Er & Hr);
    [apply Hok..|lia|]. exists r. split; [done|]. destruct r as [j|]; [done|].
  intros j o Ho Hj Ha. apply (Hr j); try done. 
  destruct (ok_outs _ _ Hok _ _ Ho) as [[E _]|(_ & _ & _ & _ & _ & _ & _ & _ & Hin)]; [by rewrite E in Ha|].
  rewrite Z2Nat.id in Hin by lia. exact Hin.
Qed.

Section Send.
Context (fp : Z).
Hypothesis Hfp : 0 < fp.

(** The scan does not change the connection. *)
Lemma has_data_ok w (Q : bool → world → Prop) :
  Inv fp w.(conn) → (∀ b, (w.(conn).(ctrl_len) > 0 → b = true) → Q b w) → wp has_data Q w.
Proof.
  intros HI HQ. unfold has_data, getc. apply wp_bind, wp_gets, wp_if; intros E; [by apply wp_ret, HQ|].
  assert (HQ' : ∀ b, Q b w) by (intros b; apply HQ; lia). apply wp_bind.
  apply (wp_mloop_inv _ _ (λ _ w', w' = w)); [done| |].
  - intros i b s Hi ->. apply elem_of_seqZ in Hi. unfold NC_MAX_CHANNELS in Hi.
    apply wp_bind. eapply (wp_channel fp); [apply HI|unfold inw; lia|intros _; by apply wp_ret|].
    intros k _ Hl. destruct (open_world fp k w HI Hl) as (ch & Ew & _ & HO).
    pose proof HO as (Hok & _ & t & HC & _). rewrite Ew. eapply wp_bind, wp_get_ch; [done|]. rewrite <-Ew.
    apply wp_if; intros _; [by apply wp_ret|]. apply wp_bind.
    apply (wp_mono _ (λ _ w', w' = w)); [|by intros s w' ->].
    apply wp_if; intros _; [|by apply wp_ret]. by destruct (chan_next_sendable_ok fp ch Hok) as (r & -> & _).
  - intros b1 s ->. apply (wp_mloop_inv _ _ (λ _ w', w' = w)); [done| |by intros b s ->].
    intros i b s Hi ->. apply elem_of_seqZ in Hi. unfold NC_MAX_CHANNELS in Hi.
    apply wp_bind. eapply (wp_channel fp); [apply HI|unfold inw; lia|intros _; by apply wp_ret|].
    intros k _ Hl. destruct (open_world fp k w HI Hl) as (ch & Ew & _ & HO).
    pose proof HO as (Hok & _ & t & HC & _). rewrite Ew. eapply wp_bind, wp_get_ch; [done|]. rewrite <-Ew.
    apply wp_if; intros _; by apply wp_ret.
Qed.

(** ** Building a packet *)

(** The part of the packet built so far. *)
Definition built (mtu : Z) (p : list Z) (w : world) : Prop :=
  Inv fp w.(conn) ∧ Forall in8 p ∧ Z.of_nat (length p) <= mtu.

Lemma wp_emit buflen p bs w (Q : list Z → world → Prop) :
  Z.of_nat (length p + length bs) <= buflen → Q (p ++ bs) w → wp (emit buflen p bs) Q w.
Proof. intros Hl HQ. unfold emit. destruct (Z.leb_spec (Z.of_nat (length p + length bs)) buflen); [done|lia]. Qed.

Lemma flush_ctrl_ok buflen mtu p w :
  built mtu p w → mtu <= buflen → 0 <= mtu < 2 ^ 32 → wp (flush_ctrl buflen mtu p) (built mtu) w.
Proof.
  intros (HI & Hp & Hl) Hb Hm. unfold flush_ctrl, getc. apply wp_bind, wp_gets.
  pose proof (Inv_conn _ _ HI) as Hc. pose proof (ok_ctrl_len _ _ Hc). pose proof (ok_ctrl_buf _ _ Hc) as Hcl.
  apply wp_if; intros E; [|by apply wp_ret]. cbv zeta.
  assert (Hav : u64 (mtu - Z.of_nat (length p)) = mtu - Z.of_nat (length p)) by (unfold u64; lia). rewrite Hav.
  set (n := if ctrl_len (conn w) <? _ then ctrl_len (conn w) else _). assert (Hn : 0 <= n <= ctrl_len (conn w) ∧ n <= mtu - Z.of_nat (length p)).
  { unfold n. destruct (Z.ltb_spec (ctrl_len (conn w)) (mtu - Z.of_nat (length p))); lia. }
  rewrite (aslice_in _ 0 n) by lia. change (drop (Z.to_nat 0) ?x) with x. apply wp_bind, wp_some, wp_bind, wp_emit.
  { rewrite length_take. lia. }
  assert (Hp' : Forall in8 (p ++ take (Z.to_nat n) (ctrl_buf (conn w)))).
  { apply Forall_app. split; [done|]. apply Forall_take, Hc. }
  assert (Hl' : Z.of_nat (length (p ++ take (Z.to_nat n) (ctrl_buf (conn w)))) <= mtu).
  { rewrite length_app, length_take. lia. }
  apply wp_bind, wp_if; intros E2.
  - rewrite aslice_in by lia. apply wp_bind, wp_some. rewrite asplice_in by (rewrite ?length_take, ?length_drop; lia).
    apply wp_bind, wp_some, wp_bind, wp_mod, wp_mod, wp_ret. split; [|done].
    eapply Inv_same; [exact HI|by constructor|]. destruct Hc. constructor; try done; simpl.
    + rewrite !length_app, !length_drop, !length_take, !length_drop. lia.
    + apply Forall_app. split; [by apply Forall_take, Forall_drop|by apply Forall_drop].
    + lia.
  - apply wp_mod, wp_ret. split; [|done]. eapply Inv_same; [exact HI|by constructor|].
    destruct Hc. constructor; try done.
Qed.

Lemma wr32_in v : Forall in8 (wr32 v).
Proof. unfold wr32. repeat (apply Forall_cons; split); auto using u8_in, Forall_nil_2. Qed.

Lemma wr16_in v : Forall in8 (wr16 v).
Proof. unfold wr16. repeat (apply Forall_cons; split); auto using u8_in, Forall_nil_2. Qed.

(** Appending a frame of a channel and clearing its flag. *)
Lemma wp_emit_flag buflen mtu p bs k f w :
  built mtu p w → live w.(conn) k → Forall in8 bs → Z.of_nat (length p + length bs) <= mtu → mtu <= buflen →
  (∀ ch, chan_ok fp ch → chan_ok fp (f ch) ∧ (f ch).(ch_id) = ch.(ch_id) ∧ (∀ b, owned b (f ch) = owned b ch)) →
  wp (p ← emit buflen p bs; mod_ch k f;; mret p) (λ p w', built mtu p w' ∧ live w'.(conn) k) w.
Proof.
  intros (HI & Hp & Hl) Hk Hbs Hle Hb Hf. apply wp_bind, wp_emit; [lia|].
  apply wp_bind. eapply (wp_mod_live fp); [done..|]. intros w' HI' Hl'. apply wp_ret.
  split; [|done]. split; [done|]. rewrite Forall_app, length_app. split; [done|lia].
Qed.

Lemma flush_chan_ok buflen mtu i p w :
  built mtu p w → mtu <= buflen → 0 <= i < 256 →
  wp (flush_chan buflen mtu i p) (λ r w', match r with inl p => built mtu p w' | inr p => built mtu p w' end) w.
Proof.
  intros HB Hb Hi. pose proof HB as (HI & Hp & Hl). unfold flush_chan.
  apply wp_if; intros E; [by apply wp_ret|]. apply wp_bind.
  eapply (wp_channel fp); [apply HI|unfold inw; lia|intros _; by apply wp_ret|].
  intros k _ Hk. destruct (open_world fp k w HI Hk) as (ch & Ew & _ & HO).
  pose proof HO as (Hok & _ & t & HC & _). rewrite Ew. eapply wp_bind, wp_get_ch; [done|]. rewrite <-Ew.
  pose proof (ok_id _ _ Hok) as Hid. apply wp_bind.
  apply (wp_mono _ (λ p w', built mtu p w' ∧ live w'.(conn) k)).
  { apply wp_if; intros E1; [|by apply wp_ret]. apply andb_prop in E1 as [_ E1%Z.leb_le].
    apply wp_emit_flag; [done|done| |simpl length; lia|done|].
    - apply Forall_cons; split; [by unfold inw|]. apply Forall_cons; split; [done|apply wr16_in].
    - intros ch' []. by split; [constructor|]. }
  intros p1 w1 (HB1 & Hk1). pose proof HB1 as (HI1 & Hp1 & Hl1). apply wp_bind.
  apply (wp_mono _ (λ p w', built mtu p w' ∧ live w'.(conn) k)); [|by intros p2 w2 [? _]; apply wp_ret].
  apply wp_if; intros E1; [|by apply wp_ret]. apply andb_prop in E1 as [_ E1%Z.leb_le].
  apply wp_emit_flag; [done|done| |simpl length; lia|done|].
  - apply Forall_cons; split; [by unfold inw|]. apply Forall_cons; split; [done|apply wr32_in].
  - intros ch' []. by split; [constructor|].
Qed.

(** A change of slot [j] that keeps its buffer. *)
Lemma Opened_put_out k idk ch w j o o' :
  Opened fp k idk ch w → 0 <= j < 64 → ch.(outgoing) !! Z.to_nat j = Some o → o'.(o_buf) = o.(o_buf) →
  out_ok fp ch.(out_head) ch.(out_tail) j o' →
  Opened fp k idk (set_outgoing (<[Z.to_nat j := o']> ch.(outgoing)) ch) w.
Proof.
  intros HO Hj Ho Eb Hok'. pose proof HO as (Hok & _). eapply Opened_set; [done|by apply with_out_ok|done|].
  intros b. rewrite (with_out_owned _ o) by done. rewrite Eb. lia.
Qed.

(** Message [o] after one more of its fragments is sent at [now]. *)
Definition sent_out (now : Z) (o : nc_outgoing) : nc_outgoing :=
  let o := set_o_sent_ms now (set_o_frag_sent (u8 (o.(o_frag_sent) + 1)) o) in
  if o.(o_attempts) =? 0 then set_o_attempts 1 o else o.

Lemma sent_out_ok now h tl j o :
  out_ok fp h tl j o → nz o.(o_active) = true → o.(o_frag_sent) < o.(o_frag_total) →
  out_ok fp h tl j (sent_out now o) ∧ (sent_out now o).(o_buf) = o.(o_buf) ∧ nz (sent_out now o).(o_active) = true.
Proof.
  intros [[E _]|(Ea & Hb & Hlen & Htot & Hfr & Hs & Hat & Hsm & Hr)] Ha Hlt; [by rewrite E in Ha|].
  unfold sent_out. cbv zeta. assert (E8 : u8 (o_frag_sent o + 1) = o_frag_sent o + 1) by (unfold u8; lia).
  simpl. destruct (Z.eqb_spec (o_attempts o) 0); simpl; (split; [|done]); right; simpl; rewrite E8;
    split_and!; try done; try lia; apply Hb.
Qed.

(** The bytes of the next fragment are inside the message. *)
Lemma frag_bounds h tl j o :
  out_ok fp h tl j o → nz o.(o_active) = true → o.(o_frag_sent) < o.(o_frag_total) →
  let off := o.(o_frag_sent) * fp in
  let d := u64 (o.(o_len) - off) in
  let dlen := if fp <? d then fp else d in
  0 <= off ∧ 0 < dlen ∧ off + dlen <= o.(o_len) ∧ o.(o_len) <= 2048 ∧ buf_ok o.(o_buf) ∧
  in8 o.(o_frag_sent) ∧ in8 o.(o_frag_total).
Proof.
  intros [[E _]|(Ea & Hb & Hlen & Htot & Hfr & Hs & _)] Ha Hlt; [by rewrite E in Ha|]. cbv zeta.
  assert (0 <= o_frag_sent o * fp < o_len o) by nia.
  assert (E : u64 (o_len o - o_frag_sent o * fp) = o_len o - o_frag_sent o * fp) by (unfold u64; lia). rewrite E.
  unfold inw. destruct (Z.ltb_spec fp (o_len o - o_frag_sent o * fp)); split_and!; try lia; apply Hb.
Qed.

Lemma send_data_ok buflen mtu i p w :
  built mtu p w → mtu <= buflen → 0 <= i < 256 →
  wp (send_data buflen mtu i p) (λ r w', match r with inl p => built mtu p w' | inr p => built mtu p w' end) w.
Proof.
  intros HB Hb Hi. pose proof HB as (HI & Hp & Hl). unfold send_data.
  apply wp_if; intros E; [by apply wp_ret|]. apply wp_bind.
  eapply (wp_channel fp); [apply HI|unfold inw; lia|intros _; by apply wp_ret|].
  intros k _ Hk. destruct (open_world fp k w HI Hk) as (ch & Ew & _ & HO).
  pose proof HO as (Hok & _ & t & HC & _). rewrite Ew. eapply wp_bind, wp_get_ch; [done|].
  pose proof (ok_id _ _ Hok) as Hid. apply wp_if; intros _; [rewrite <-Ew; by apply wp_ret|].
  destruct (chan_next_sendable_ok fp ch Hok) as (r & -> & Hr). apply wp_bind, wp_some.
  destruct r as [j|]; [|rewrite <-Ew; by apply wp_ret]. destruct Hr as (Hj & o & Ho & Ha & Hlt).
  eapply wp_bind, wp_get_out; [done|lia|done|]. unfold getc. apply wp_bind, wp_gets.
  rewrite (ok_fp fp) by (rewrite <-Ew; apply (Inv_conn _ _ HI)).
  pose proof (ok_outs _ _ Hok _ _ Ho) as Hoo. rewrite Z2Nat.id in Hoo by lia.
  pose proof (frag_bounds _ _ _ _ Hoo Ha Hlt) as Hbd. cbv zeta in Hbd |- *.
  set (off := o_frag_sent o * fp) in *. set (d := u64 (o_len o - off)) in *.
  set (dlen := if fp <? d then fp else d) in *. destruct Hbd as (H0 & Hd & Hod & Hol & Hbuf & Hfi & Hft).
  apply wp_if; intros _; [rewrite <-Ew; by apply wp_ret|].
  apply wp_if; intros Eav; [rewrite <-Ew; by apply wp_ret|].
  apply wp_bind, wp_emit; [simpl length; lia|]. apply wp_bind.
  pose proof (Inv_conn _ _ HI) as Hc. rewrite <-Ew.
  eapply wp_mono; [apply (pool_read_ok fp); [done|..]; unfold pool_ptr, buf_ok, NC_MAX_MSG in *; lia|].
  intros bs w' (-> & _ & Hbs & Hbl). apply wp_bind, wp_emit; [rewrite length_app; simpl length; lia|].
  set (p' := _ ++ bs).
  assert (Hp' : Forall in8 p' ∧ Z.of_nat (length p') <= mtu).
  { unfold p'. rewrite !Forall_app, !length_app. simpl length. split; [|lia]. split; [|done]. split; [done|].
    apply Forall_cons; split; [by unfold inw|]. apply Forall_cons; split; [done|].
    apply Forall_app; split; [apply wr16_in|]. apply Forall_app; split; [apply wr16_in|].
    by repeat (apply Forall_cons; split). }
  apply wp_bind, wp_now. intros now w1 _ Ew1.
  assert (Ew2 : w1 = upd k ch w1) by (symmetry; apply upd_id; rewrite Ew1, Ew; by eapply upd_lookup). rewrite Ew2.
  assert (HO1 : Opened fp k (ch_id ch) ch w1).
  { eapply Opened_same; [exact HO|rewrite Ew1; apply Same_refl|by rewrite Ew1]. }
  pose proof HO1 as (_ & _ & t1 & HC1 & _).
  change (if o_attempts (set_o_sent_ms now _) =? 0 then _ else _) with (sent_out now o).
  destruct (sent_out_ok now _ _ _ _ Hoo Ha Hlt) as (Hso & Hsb & Hsa).
  pose proof (ok_outgoing _ _ Hok).
  eapply wp_bind, wp_put_out; [done|lia|]. set (ch1 := set_outgoing _ ch).
  assert (HO2 : Opened fp k (ch_id ch) ch1 w1) by (by eapply Opened_put_out).
  apply wp_bind. apply wp_if; intros _.
  - eapply (wp_release fp k (ch_id ch) ch1); [done|done| |done|].
    { simpl. rewrite list_lookup_insert_eq by lia. done. }
    intros w3 ch3 HO3 _ _. pose proof HO3 as (Hok3 & _). eapply wp_advance_head; [done|lia|]. intros h HO4.
    apply wp_ret. split; [by eapply close_world|done].
  - apply wp_ret, wp_ret. split; [by eapply close_world|done].
Qed.

(** The result of [netchan_send_next]: a packet of at most [limit] bytes. *)
Definition packet_ok (limit : Z) (r : Z * list Z * option nc_addr) (w : world) : Prop :=
  let '(n, bs, _) := r in
  Inv fp w.(conn) ∧ n = Z.of_nat (length bs) ∧ Forall in8 bs ∧ n <= Z.max 0 limit.

Lemma netchan_send_next_ok buflen to w :
  Inv fp w.(conn) →
  wp (netchan_send_next buflen to) (packet_ok (Z.min buflen w.(conn).(cfg).(mtu))) w.
Proof.
  intros HI. unfold netchan_send_next. apply wp_bind, (has_data_ok w); [done|]. intros b _.
  assert (Hnone : packet_ok (Z.min buflen w.(conn).(cfg).(mtu)) (0, [], None) w).
  { split; [done|]. split; [done|]. split; [by apply Forall_nil|lia]. }
  apply wp_if; intros _; [by apply wp_ret|]. unfold getc. apply wp_bind, wp_gets.
  set (init := _ && negb (nz (server _))). apply wp_if; intros Eb; [by apply wp_ret|].
  pose proof (ok_mtu _ _ (Inv_conn _ _ HI)) as Hm. cbv zeta.
  set (mtu' := if buflen <? _ then buflen else _).
  assert (Hmtu : mtu' = Z.min buflen w.(conn).(cfg).(mtu)).
  { unfold mtu'. destruct (Z.ltb_spec buflen w.(conn).(cfg).(mtu)); lia. }
  apply wp_bind. apply (wp_mono _ (built mtu')).
  { unfold NC_HDR_INIT_SIZE, NC_HDR_FULL_SIZE in Eb. apply wp_if; intros Ei; rewrite Ei in Eb.
    - apply wp_ret. split; [done|]. split; [|simpl length; lia]. apply Forall_cons; split; [by unfold inw|apply wr32_in].
    - apply wp_bind. eapply (Inv_wp_modc fp); [done|by constructor|
        by eapply conn_ok_fields; [apply (Inv_conn _ _ HI)|constructor|..]|]. intros HI1.
      apply wp_ret. split; [done|]. split; [|simpl length; lia].
      apply Forall_cons; split; [by unfold inw|]. apply Forall_app; split; [apply wr32_in|apply wr16_in]. }
  intros p w1 HB1. apply wp_bind. eapply wp_mono; [apply flush_ctrl_ok; [done|lia|]|].
  { unfold built in HB1. lia. }
  intros p2 w2 HB2. apply wp_bind. apply (wp_mloop_inv _ _ (built mtu')); [done| |].
  { intros i p' s Hi%elem_of_seqZ HB. unfold NC_MAX_CHANNELS in Hi. apply flush_chan_ok; [done|lia|lia]. }
  intros p3 w3 HB3. apply wp_bind. apply (wp_mloop_inv _ _ (built mtu')); [done| |].
  { intros i p' s Hi%elem_of_seqZ HB. unfold NC_MAX_CHANNELS in Hi. apply send_data_ok; [done|lia|lia]. }
  intros p4 w4 (HI4 & Hp4 & Hl4). apply wp_bind, wp_gets, wp_bind, wp_now. intros now w5 _ Ew5.
  assert (HI5 : Inv fp w5.(conn)) by (by rewrite Ew5).
  apply wp_bind. eapply (Inv_wp_modc fp); [done|by constructor|
    by eapply conn_ok_fields; [apply (Inv_conn _ _ HI5)|constructor|..]|]. intros HI6.
  apply wp_bind. eapply (Inv_wp_modc fp); [done|by constructor|
    by eapply conn_ok_fields; [apply (Inv_conn _ _ HI6)|constructor|..]|]. intros HI7.
  apply wp_ret. split; [done|]. split; [done|]. split; [done|lia].
Qed.
End Send.
