(* ===== verification/NcPublic.v ===== *)
(** * The public interface of netchan keeps the invariant

    Timers, channels, events and the life of a connection.  The timers keep the
    number of attempts of every message in [0, 5], so that the shift by
    [attempts - 1] is defined. *)

From stdpp Require Import gmap.
From S2P Require Import Prelude NcState NcOps NcProto NcApi NcInv NcChan.
From S2P Require Import NcRecv NcFrag NcSafe NcFeed NcSend.

#[local] Ltac Zify.zify_post_hook ::= Z.to_euclidean_division_equations.

Section Public.
Context (fp : Z).
Hypothesis Hfp : 0 < fp.

(** Assignments to fields that the invariant does not mention. *)
Ltac assign H := eapply (Inv_wp_modc fp); [exact H|by constructor|
  by eapply conn_ok_fields; [apply (Inv_conn _ _ H)|constructor|..]|];
  let H' := fresh H in intros H'; clear H; rename H' into H.

Ltac ctrl H := eapply (Inv_wp_ctrl fp); [exact H|bytes; auto using wr16_in, wr32_in|];
  let w' := fresh "w'" in let H' := fresh H in intros w' H' _; clear H; rename H' into H.

(** ** Timers *)

Definition kept_inv {A} (_ : A) (w : world) : Prop := Inv fp w.(conn).

Lemma service_connect_ok now next w : Inv fp w.(conn) → wp (service_connect now next) kept_inv w.
Proof.
  intros HI. unfold service_connect, getc. apply wp_bind, wp_gets, wp_if; intros _; [|by apply wp_ret].
  cbv zeta. apply wp_bind.
  apply (wp_mono _ kept_inv); [|intros [] ? HI'; by apply wp_ret].
  apply wp_if; intros _; [|by apply wp_ret]. apply wp_if; intros _.
  - apply wp_bind. assign HI. apply wp_bind. eapply (Inv_wp_ev fp); [exact HI|done|]. intros w' HI' _. by apply wp_ret.
  - unfold ctrl_connect_init, getc. apply wp_bind, wp_bind, wp_gets. ctrl HI.
    apply wp_bind. assign HI. apply wp_bind. assign HI. by apply wp_ret.
Qed.

Lemma service_idle_ok now next w : Inv fp w.(conn) → wp (service_idle now next) kept_inv w.
Proof.
  intros HI. unfold service_idle, getc. apply wp_bind, wp_gets, wp_if; intros _; [|by apply wp_ret].
  cbv zeta. apply wp_if; intros _; [|by apply wp_ret].
  apply wp_bind. assign HI. apply wp_bind. eapply (Inv_wp_ev fp); [exact HI|done|]. intros w' HI' _. by apply wp_ret.
Qed.

Lemma service_ping_ok now next w : Inv fp w.(conn) → wp (service_ping now next) kept_inv w.
Proof.
  intros HI. unfold service_ping, getc. apply wp_bind, wp_gets, wp_if; intros _; [|by apply wp_ret].
  cbv zeta. apply wp_bind.
  apply (wp_mono _ kept_inv); [|intros [] ? HI'; apply wp_if; intros _; by apply wp_ret].
  apply wp_if; intros _; [|by apply wp_ret].
  apply wp_bind, wp_random_id. intros v w' _ _ Ew. assert (HI' : Inv fp w'.(conn)) by (by rewrite Ew).
  apply wp_bind. assign HI'. unfold ctrl_ping. apply wp_bind. ctrl HI'. assign HI'. done.
Qed.

(** The message of a slot that is sent again at [now]. *)
Definition resent (now : Z) (o : nc_outgoing) : nc_outgoing :=
  set_o_attempts (u8 (o.(o_attempts) + 1)) (set_o_sent_ms now (set_o_frag_sent 0 o)).

Lemma resent_ok now h tl j o :
  out_ok fp h tl j o → nz o.(o_active) = true → o.(o_attempts) < 5 → out_ok fp h tl j (resent now o).
Proof.
  intros [[E _]|(Ea & Hb & Hlen & Htot & Hfr & Hs & Hat & Hsm & Hr)] Ha Hlt; [by rewrite E in Ha|].
  assert (E8 : u8 (o_attempts o + 1) = o_attempts o + 1) by (unfold u8; lia).
  right. unfold resent. simpl. rewrite E8. split_and!; try done; try lia; apply Hb.
Qed.

(** The channel after the message in slot [j] is queued to be sent again. *)
Definition requeue (now j : Z) (o : nc_outgoing) (ch : netchan_chan) : netchan_chan :=
  set_retransmissions (u32 (ch.(retransmissions) + 1))
    (set_outgoing (<[Z.to_nat j := resent now o]> ch.(outgoing)) ch).

(** When a slot is due. *)
Definition rt_timeout (c : netchan_conn) (o : nc_outgoing) : Z :=
  Z.min NC_MAX_RT_MS (u32 (c.(cfg).(retransmit_ms) << (o.(o_attempts) - 1))).

Definition due (c : netchan_conn) (now : Z) (o : nc_outgoing) : Prop :=
  nz o.(o_active) = true ∧ o.(o_sent_ms) ≠ 0 ∧ rt_timeout c o <= u32 (now - o.(o_sent_ms)).

(** The three outcomes of the retransmission timer of a slot. *)
Lemma wp_service_slot k idk ch w now j next o (Q : Z + Z → world → Prop) :
  Opened fp k idk ch w → 0 <= j < 64 → ch.(outgoing) !! Z.to_nat j = Some o →
  (∀ n, ¬ due w.(conn) now o → Q (inl n) (upd k ch w)) →
  (∀ n w', due w.(conn) now o → o.(o_attempts) = 5 → Opened fp k idk (set_ch_state 3 ch) w' →
     Q (inr n) (upd k (set_ch_state 3 ch) w')) →
  (∀ n, due w.(conn) now o → 1 <= o.(o_attempts) < 5 → Opened fp k idk (requeue now j o ch) w →
     Q (inl n) (upd k (requeue now j o ch) w)) →
  wp (service_slot now k j next) Q (upd k ch w).
Proof.
  intros HO Hj Ho Hno Hdead Hagain. pose proof HO as (Hok & Hid & t & HC & Ht).
  unfold service_slot, getc. apply wp_bind, wp_gets.
  eapply wp_bind, wp_get_out; [done|lia|done|]. unfold due in *.
  destruct (nz (o_active o)) eqn:Ea; [|apply wp_ret, Hno; by intros []]. cbn [negb orb].
  destruct (Z.eqb_spec (o_sent_ms o) 0) as [|Hs]; [apply wp_ret, Hno; by intros (_ & [] & _)|].
  pose proof (ok_outs _ _ Hok _ _ Ho) as Hoo. rewrite Z2Nat.id in Hoo by lia.
  assert (Hat : 1 <= o_attempts o <= 5).
  { destruct Hoo as [[E _]|(_ & _ & _ & _ & _ & _ & Hat & Hsm & _)]; [by rewrite E in Ea|]. specialize (Hsm Hs). lia. }
  replace (negb _) with false by lia. cbv zeta.
  change (cfg (conn (upd k ch w))) with (cfg (conn w)).
  set (tmo := if NC_MAX_RT_MS <? _ then NC_MAX_RT_MS else _).
  assert (Htmo : tmo = rt_timeout w.(conn) o).
  { unfold tmo, rt_timeout. destruct (Z.ltb_spec NC_MAX_RT_MS (u32 (retransmit_ms (cfg (conn w)) << (o_attempts o - 1)))); lia. }
  rewrite Htmo. apply wp_if; intros El; [|apply wp_ret, Hno; intros (_ & _ & H); lia].
  apply Z.leb_le in El. unfold NC_MAX_RT_ATTEMPTS. apply wp_if; intros E5.
  - eapply wp_bind, wp_mod_ch; [done|].
    assert (HO1 : Opened fp k idk (set_ch_state 3 ch) w).
    { eapply Opened_set; [done|..|done|done]. destruct Hok. by constructor. }
    apply wp_bind. eapply (wp_ev_push fp k idk); [done|intros ? [= <-]; by eapply Opened_live|].
    intros w' HO' _ _ _. apply wp_ret, Hdead; [done|lia|done].
  - eapply wp_bind, wp_put_out; [done|pose proof (ok_outgoing _ _ Hok); lia|]. fold (resent now o).
    set (ch1 := set_outgoing _ ch). eapply wp_bind, wp_mod_ch; [done|]. apply wp_ret.
    assert (HO1 : Opened fp k idk ch1 w).
    { eapply Opened_put_out; [done|done|done|done|]. apply resent_ok; [done|done|lia]. }
    apply Hagain; [done|lia|]. pose proof HO1 as (Hok1 & _).
    eapply Opened_set; [done|..|done|done]. destruct Hok1. by constructor.
Qed.

Lemma service_slot_ok now k j next w :
  Inv fp w.(conn) → live w.(conn) k → 0 <= j < 64 →
  wp (service_slot now k j next) (λ _ w', Inv fp w'.(conn) ∧ live w'.(conn) k) w.
Proof.
  intros HI Hk Hj. destruct (open_world fp k w HI Hk) as (ch & Ew & _ & HO). pose proof HO as (Hok & _).
  pose proof (ok_outgoing _ _ Hok) as Hl. destruct (lookup_lt_is_Some_2 ch.(outgoing) (Z.to_nat j)) as [o Ho]; [lia|].
  rewrite Ew. eapply wp_service_slot; [done|done|done|..].
  - intros _ _. by rewrite <-Ew.
  - intros _ w' _ _ HO'. split; [by eapply close_world|]. apply (Opened_live _ _ _ _ _ HO').
  - intros _ _ _ HO'. split; [by eapply close_world|]. apply (Opened_live _ _ _ _ _ HO').
Qed.

Lemma service_chan_ok now i next w :
  Inv fp w.(conn) → 0 <= i < 256 → wp (service_chan now i next) kept_inv w.
Proof.
  intros HI Hi. unfold service_chan. apply wp_bind.
  eapply (wp_channel fp); [apply HI|unfold inw; lia|intros _; by apply wp_ret|]. intros k _ Hk.
  destruct (open_world fp k w HI Hk) as (ch & Ew & _ & HO). pose proof HO as (Hok & _ & t & HC & _).
  rewrite Ew. eapply wp_bind, wp_get_ch; [done|]. rewrite <-Ew. apply wp_if; intros _; [by apply wp_ret|].
  apply wp_bind. apply (wp_mloop_inv _ _ (λ _ w', Inv fp w'.(conn) ∧ live w'.(conn) k)); [done| |].
  - intros j n s Hj%elem_of_seqZ [HIs Hks]. unfold NC_OUTGOING_SLOTS in Hj.
    eapply wp_mono; [apply service_slot_ok; [done|done|lia]|]. by intros [] s'.
  - intros n s [HIs _]. by apply wp_ret.
Qed.

Lemma netchan_service_ok now w : Inv fp w.(conn) → wp (netchan_service now) kept_inv w.
Proof.
  intros HI. unfold netchan_service. apply wp_bind. eapply wp_mono; [by apply service_connect_ok|].
  intros [n1|] w1 HI1; [|by apply wp_ret]. apply wp_bind. eapply wp_mono; [by apply service_idle_ok|].
  intros [n2|] w2 HI2; [|by apply wp_ret]. apply wp_bind. eapply wp_mono; [by apply service_ping_ok|].
  intros n3 w3 HI3. apply (wp_mloop_inv _ _ kept_inv); [done| |done].
  intros i n s Hi%elem_of_seqZ HIs. unfold NC_MAX_CHANNELS in Hi.
  eapply wp_mono; [apply service_chan_ok; [done|lia]|]. by intros [] s'.
Qed.

(** ** The life of a connection *)

Lemma netchan_connect_ok addr w : Inv fp w.(conn) → addr_ok addr → wp (netchan_connect addr) kept_inv w.
Proof.
  intros HI Ha. unfold netchan_connect, getc. apply wp_bind, wp_gets.
  apply wp_if; intros _; [by apply wp_ret|]. apply wp_if; intros _; [by apply wp_ret|].
  apply wp_bind, wp_random_id. intros v w' _ _ Ew. assert (HI' : Inv fp w'.(conn)) by (by rewrite Ew).
  apply wp_bind. assign HI'. apply wp_bind, (Inv_peer fp); [done|done|]. intros w2 HI2.
  apply wp_bind. assign HI2. unfold ctrl_connect_init, getc. apply wp_bind, wp_bind, wp_gets. ctrl HI2.
  apply wp_bind, wp_now. intros v3 w3 _ Ew3. assert (HI3 : Inv fp w3.(conn)) by (by rewrite Ew3).
  apply wp_bind. assign HI3. apply wp_bind. assign HI3. by apply wp_ret.
Qed.

Lemma netchan_accept_ok w : Inv fp w.(conn) → wp netchan_accept kept_inv w.
Proof.
  intros HI. unfold netchan_accept, getc. apply wp_bind, wp_gets.
  apply wp_if; intros _; [by apply wp_ret|]. apply wp_if; intros _; [by apply wp_ret|].
  unfold ctrl_connect_accept, getc. apply wp_bind, wp_bind, wp_gets. ctrl HI.
  apply wp_bind. assign HI. apply wp_bind. eapply (Inv_wp_ev fp); [exact HI|done|]. intros w2 HI2 _. by apply wp_ret.
Qed.

Lemma netchan_poll_ok ev w : Inv fp w.(conn) → wp (netchan_poll ev) kept_inv w.
Proof.
  intros HI. unfold netchan_poll, getc. apply wp_bind, wp_gets, wp_if; intros _; [by apply wp_ret|].
  pose proof (Inv_conn _ _ HI) as Hc. pose proof (ok_events _ _ Hc). pose proof (ok_ev_head _ _ Hc).
  destruct (aget_in (events (conn w)) (ev_head (conn w))) as (e & Ee & _); [lia|]. rewrite Ee.
  apply wp_bind. apply (wp_mono _ (λ _ w', w' = w)).
  { destruct ev; [by apply wp_bind, wp_some, wp_ret|by apply wp_ret]. }
  intros r w' ->. apply wp_bind, wp_mod, wp_ret. eapply Inv_same; [exact HI|by constructor|].
  destruct Hc. constructor; try done. simpl. unfold NC_EVENT_QUEUE. lia.
Qed.

(** ** Channels *)

Lemma netchan_chan_open_ok type dir ct w :
  Inv fp w.(conn) → match ct with Some s => Forall in8 s | None => True end →
  wp (netchan_chan_open type dir ct) (λ r w', Inv fp w'.(conn) ∧ ∀ k, r = Some k → live w'.(conn) k) w.
Proof.
  intros HI Hct. unfold netchan_chan_open, getc. apply wp_bind, wp_gets, wp_if; intros _; [by apply wp_ret|].
  cbv zeta. pose proof (ok_next_id _ _ (Inv_conn _ _ HI)) as Hid.
  apply wp_bind. eapply (wp_channel fp); [apply HI|done| |intros k _ _; by apply wp_ret]. intros Hnone.
  apply wp_bind. eapply (Inv_wp_modc fp); [exact HI|by constructor| |].
  { destruct (Inv_conn _ _ HI). constructor; try done. apply u8_in. }
  intros HI1. apply wp_bind. eapply (wp_chan_new fp); [done|done|done|done|by apply wp_ret|].
  intros k w2 HI2 Hl2 _ _ Hpool2. destruct (open_world fp k w2 HI2 Hl2) as (ch & Ew & _ & HO).
  pose proof HO as (Hok & _ & t & HC & _). rewrite Ew. eapply wp_bind, wp_get_ch; [done|]. rewrite <-Ew.
  pose proof (ok_content _ _ Hok). pose proof (ok_id _ _ Hok).
  unfold ctrl_channel_open. apply wp_bind, wp_if; intros Ect; [lia|]. cbv zeta.
  assert (Hct2 : Forall in8 (take 63 (c_str (content_type ch)))) by apply Forall_take, c_str_in, Hok.
  eapply (Inv_wp_ctrl fp); [done| |].
  { repeat (apply Forall_cons; split); first [done|apply u8_in|by unfold inw]. }
  intros w3 HI3 Hs3. assert (Hl3 : live w3.(conn) k) by (by eapply live_same). apply wp_bind, wp_if; intros _.
  - unfold ctrl_window_update. apply wp_bind. eapply (Inv_wp_ctrl fp); [done| |].
    { repeat (apply Forall_cons; split); first [done|apply wr32_in|by unfold inw|apply u8_in|apply Forall_nil_2]. }
    intros w4 HI4 Hs4. eapply (wp_mod_live fp); [done|by eapply live_same| |].
    { intros ch' []. by split; [constructor|]. }
    intros w5 HI5 Hl5. apply wp_ret. split; [done|]. by intros ? [= <-].
  - apply wp_ret, wp_ret. split; [done|]. by intros ? [= <-].
Qed.

(** A pointer the application got from the library. *)
Definition handle (w : world) (ch : option Z) : Prop := ∀ k, ch = Some k → live w.(conn) k.

Lemma netchan_chan_close_ok ch w :
  Inv fp w.(conn) → handle w ch → wp (netchan_chan_close ch) kept_inv w.
Proof.
  intros HI Hh. destruct ch as [k|]; [|by apply wp_ret]. pose proof (Hh k eq_refl) as Hk. simpl.
  destruct (open_world fp k w HI Hk) as (ch & Ew & _ & HO). pose proof HO as (Hok & _ & t & HC & _).
  rewrite Ew. eapply wp_bind, wp_get_ch; [done|]. rewrite <-Ew. apply wp_if; intros _; [by apply wp_ret|].
  unfold ctrl_channel_close. apply wp_bind. pose proof (ok_id _ _ Hok). eapply (Inv_wp_ctrl fp); [done| |].
  { repeat (apply Forall_cons; split); first [done|apply u8_in|by unfold inw|apply Forall_nil_2]. }
  intros w2 HI2 Hs2. eapply (wp_mod_live fp); [done|by eapply live_same| |auto].
  intros ch' []. by split; [constructor|].
Qed.

End Public.
