(* ===== verification/NcQueue.v ===== *)
(** * Reading and writing messages

    [netchan_chan_read] takes the oldest message of the receive queue
    ([inbox]); [netchan_chan_write] appends a message to the send queue, whose
    contents are the list [outbox] of the messages not yet acknowledged, with
    their sequence numbers. *)

From stdpp Require Import gmap.
From S2P Require Import Prelude NcState NcOps NcProto NcApi NcInv NcChan.
From S2P Require Import NcRecv NcFrag NcSafe NcFeed NcSend.

#[local] Ltac Zify.zify_post_hook ::= Z.to_euclidean_division_equations.

(** ** Reading *)

(** The channel after [n] bytes of its oldest message are read. *)
Definition deq (n : Z) (ch : netchan_chan) : netchan_chan :=
  set_need_window_update 1
    (set_recv_buffered (u32 (ch.(recv_buffered) - n))
      (set_rq_head ((ch.(rq_head) + 1) mod 64)
        (set_recv_queue (<[Z.to_nat ch.(rq_head) := mk_rent NC_NOBUF 0]> ch.(recv_queue)) ch))).

Lemma deq_ok fp n ch : chan_ok fp ch → ch.(rq_head) ≠ ch.(rq_tail) → chan_ok fp (deq n ch).
Proof.
  intros Hok Hne. destruct Hok. constructor; try done; simpl.
  - by rewrite length_insert.
  - lia.
  - intros i e He. destruct (decide (Z.to_nat ch.(rq_head) = i)) as [<-|Hi].
    + rewrite list_lookup_insert_eq in He by lia. simplify_eq. left. split; [|done]. unfold in_ring. lia.
    + rewrite list_lookup_insert_ne in He by done. pose proof (lookup_lt_Some _ _ _ He).
      destruct (ok_rents i e He) as [[Hr ?]|[Hr ?]]; [left|right]; (split; [|done]);
        unfold in_ring in *; lia.
Qed.

Lemma deq_owned n ch x e : buf_ok x → ch.(recv_queue) !! Z.to_nat ch.(rq_head) = Some e →
  owned x (deq n ch) = owned x ch - cnt x e.(e_buf).
Proof.
  intros Hx He. unfold owned. simpl. rewrite (sumf_insert _ _ _ e) by done. simpl.
  change NC_NOBUF with (-1). rewrite (cnt_nobuf x) by done. lia.
Qed.

Lemma inbox_head fp m ch :
  chan_ok fp ch → ch.(rq_head) ≠ ch.(rq_tail) →
  inbox m ch = rent_msg m ch.(recv_queue) ch.(rq_head) :: inbox m (deq 0 ch).
Proof.
  intros Hok Hne. pose proof (ok_rq_head _ _ Hok). pose proof (ok_rq_tail _ _ Hok).
  unfold inbox at 1. rewrite ring_cons by auto. simpl. f_equal. unfold inbox. simpl.
  apply list_fmap_ext. intros j i Hi. apply list_elem_of_lookup_2 in Hi.
  pose proof (ring_range 64 _ _ _ ltac:(auto) Hi). apply elem_of_ring in Hi; [|auto|done].
  unfold rent_msg. rewrite list_lookup_insert_ne; [done|]. unfold in_ring in Hi. lia.
Qed.

Lemma inbox_nil fp m ch : chan_ok fp ch → inbox m ch = [] ↔ ch.(rq_head) = ch.(rq_tail).
Proof.
  intros Hok. split; [|intros E; unfold inbox; by rewrite E, ring_nil].
  intros E. destruct (decide (ch.(rq_head) = ch.(rq_tail))); [done|]. by rewrite (inbox_head fp) in E by done.
Qed.

Lemma store_read_take m a n k : (n <= k)%nat → store_read m a n = take n (store_read m a k).
Proof.
  revert a k. induction n as [|n IH]; intros a k Hk; [by rewrite take_0|].
  destruct k as [|k]; [lia|]. simpl. f_equal. apply IH. lia.
Qed.

(** [netchan_chan_read] on a receiving channel: 0 if the queue is empty, else
    the oldest message, truncated to the caller's buffer. *)
Lemma wp_chan_read fp k idk ch w buflen (Q : Z * list Z → world → Prop) :
  Opened fp k idk ch w → ch.(ch_role) = 1 → 0 <= buflen →
  (inbox w.(conn).(pool_store) ch = [] → Q (0, []) (upd k ch w)) →
  (∀ msg rest n ch' w', inbox w.(conn).(pool_store) ch = msg :: rest →
     n = Z.min (Z.of_nat (length msg)) buflen → Opened fp k idk ch' w' → ch' = deq n ch →
     w'.(conn).(cfg) = w.(conn).(cfg) → w'.(conn).(pool_store) = w.(conn).(pool_store) →
     w'.(conn).(pool_free_top) = w.(conn).(pool_free_top) + 1 →
     inbox w'.(conn).(pool_store) ch' = rest →
     Q (n, take (Z.to_nat n) msg) (upd k ch' w')) →
  wp (netchan_chan_read (Some k) buflen) Q (upd k ch w).
Proof.
  intros HO Hrole Hbl H0 H1. pose proof HO as (Hok & Hid & t & HC & Ht). unfold netchan_chan_read.
  eapply wp_bind, wp_get_ch; [done|]. rewrite Hrole. apply wp_if; intros E; [done|clear E].
  apply wp_if; intros Eq; [apply wp_ret, H0, (inbox_nil fp); [done|lia]|].
  assert (Hne : ch.(rq_head) ≠ ch.(rq_tail)) by lia.
  pose proof (ok_rq_head _ _ Hok). pose proof (ok_rq_tail _ _ Hok). pose proof (ok_recv_queue _ _ Hok).
  destruct (lookup_lt_is_Some_2 ch.(recv_queue) (Z.to_nat ch.(rq_head))) as [e He]; [lia|].
  destruct (ok_rents _ _ Hok _ _ He) as [[Hr _]|(_ & Hb & Hlen)].
  { rewrite Z2Nat.id in Hr by lia. unfold in_ring in Hr. lia. }
  eapply wp_bind, wp_get_rent; [done|lia|done|]. cbv zeta.
  pose proof (inbox_head fp w.(conn).(pool_store) ch Hok Hne) as Hin. unfold rent_msg in Hin. rewrite He in Hin.
  set (msg := store_read _ _ _) in Hin. assert (Hml : Z.of_nat (length msg) = e.(e_len)).
  { unfold msg. rewrite store_read_length. lia. }
  set (n := if e_len e <? buflen then _ else _).
  assert (Hn : n = Z.min (Z.of_nat (length msg)) buflen).
  { unfold n. rewrite Hml. destruct (Z.ltb_spec (e_len e) buflen); lia. }
  apply wp_bind, wp_upd; [apply commutes_pool_read|].
  eapply wp_mono; [apply (pool_read_ok fp); [apply HC|..]; unfold pool_ptr, buf_ok, NC_MAX_MSG in *; lia|].
  intros bs w1 (-> & -> & _ & _).
  apply wp_bind. eapply (wp_pool_put fp k idk (deq n ch)); [done|done| |].
  { intros x Hx. rewrite (deq_owned _ _ _ e) by done. specialize (Ht x Hx). lia. }
  intros w1 t1 HC1 Ht1 Htop Hcfg Hst. eapply wp_bind, wp_put_rent; [done|lia|].
  do 3 (eapply wp_bind, wp_mod_ch; [done|]). apply wp_ret.
  change (upd k _ w1) with (upd k (deq n ch) w1).
  rewrite (store_read_take _ _ _ (Z.to_nat e.(e_len))) by lia. fold msg.
  assert (E32 : s32 n = n).
  { unfold s32, u32. rewrite Z.mod_small by lia. destruct (Z.ltb_spec n 2147483648); [done|lia]. }
  rewrite E32. apply (H1 msg (inbox w.(conn).(pool_store) (deq 0 ch))); try done; [|by rewrite Hst].
  split; [by apply deq_ok|]. split; [done|]. by exists t1.
Qed.

(** ** The send queue *)

Definition out_msg (m : gmap Z Z) (outs : list nc_outgoing) (i : Z) : option (Z * list Z) :=
  match outs !! Z.to_nat i with
  | Some o => if nz o.(o_active)
              then Some (o.(o_seq), store_read m (pool_ptr o.(o_buf)) (Z.to_nat o.(o_len))) else None
  | None => None
  end.

Definition outbox (m : gmap Z Z) (ch : netchan_chan) : list (Z * list Z) :=
  omap (out_msg m ch.(outgoing)) (ring 64 ch.(out_head) ch.(out_tail)).

(** The slot at the tail of the ring is free. *)
Lemma out_tail_empty fp ch : chan_ok fp ch →
  ∃ o, ch.(outgoing) !! Z.to_nat ch.(out_tail) = Some o ∧ o.(o_active) = 0 ∧ o.(o_buf) = -1.
Proof.
  intros Hok. pose proof (ok_out_tail _ _ Hok). pose proof (ok_outgoing _ _ Hok).
  destruct (lookup_lt_is_Some_2 ch.(outgoing) (Z.to_nat ch.(out_tail))) as [o Ho]; [lia|].
  exists o. split; [done|]. destruct (ok_outs _ _ Hok _ _ Ho) as [?|(_ & _ & _ & _ & _ & _ & _ & _ & Hr)]; [done|].
  rewrite Z2Nat.id in Hr by lia. unfold in_ring in Hr. lia.
Qed.

Lemma out_owned ch i o : ch.(outgoing) !! i = Some o → 1 <= owned o.(o_buf) ch.
Proof.
  intros Ho. unfold owned.
  pose proof (sumf_elem (λ x, cnt o.(o_buf) x.(o_buf)) _ _ _ (λ _, cnt_nonneg _ _) Ho) as H.
  simpl in H. rewrite cnt_self in H.
  pose proof (sumf_nonneg (λ e, cnt o.(o_buf) e.(e_buf)) ch.(recv_queue) (λ _, cnt_nonneg _ _)).
  pose proof (sumf_nonneg (λ r, cnt o.(o_buf) r.(r_buf)) ch.(reorder) (λ _, cnt_nonneg _ _)).
  pose proof (sumf_nonneg (λ f, cnt o.(o_buf) f.(f_buf)) ch.(frags) (λ _, cnt_nonneg _ _)).
  lia.
Qed.

Lemma omap_ext_in {A B} (f g : A → option B) (l : list A) : (∀ x, x ∈ l → f x = g x) → omap f l = omap g l.
Proof.
  induction l as [|x l IH]; intros H; simpl; [done|]. rewrite (H x) by set_solver.
  destruct (g x); [f_equal|]; apply IH; set_solver.
Qed.

(** Writing a buffer the channel does not hold leaves its messages alone. *)
Lemma outbox_write fp ch m b bs :
  chan_ok fp ch → owned b ch = 0 → (length bs <= 2048)%nat →
  outbox (store_write m (pool_ptr b) bs) ch = outbox m ch.
Proof.
  intros Hok Hb Hl. apply omap_ext_in. intros i Hi. unfold out_msg.
  destruct (ch.(outgoing) !! Z.to_nat i) as [o|] eqn:Ho; [|done].
  destruct (nz (o_active o)) eqn:Ea; [|done]. do 2 f_equal.
  pose proof (out_owned ch _ o Ho).
  destruct (ok_outs _ _ Hok _ _ Ho) as [[E _]|(_ & _ & Hlen & _)]; [by rewrite E in Ea|].
  apply store_read_write_ne. assert (b ≠ o.(o_buf)) by (intros ->; lia).
  pose proof (bufs_apart b o.(o_buf) (Z.of_nat (length bs)) ltac:(done) ltac:(lia)).
  pose proof (bufs_apart o.(o_buf) b o.(o_len) ltac:(done) ltac:(lia)).
  unfold pool_ptr, NC_MAX_MSG in *. lia.
Qed.

(** The channel after message [o] is put at the tail of the ring. *)
Definition push_out (seq : Z) (o : nc_outgoing) (ch : netchan_chan) : netchan_chan :=
  set_out_tail ((ch.(out_tail) + 1) mod 64)
    (set_msgs_sent (u32 (ch.(msgs_sent) + 1))
      (let ch := set_outgoing (<[Z.to_nat ch.(out_tail) := o]> ch.(outgoing)) (set_send_seq (u16 (seq + 1)) ch) in
       if ch.(ch_type) =? NETCHAN_RELIABLE
       then set_bytes_in_flight (u32 (ch.(bytes_in_flight) + o.(o_len))) ch else ch)).

Lemma push_out_fields seq o ch :
  let ch' := push_out seq o ch in
  ch'.(outgoing) = <[Z.to_nat ch.(out_tail) := o]> ch.(outgoing) ∧ ch'.(out_head) = ch.(out_head) ∧
  ch'.(out_tail) = (ch.(out_tail) + 1) mod 64 ∧ ch'.(send_seq) = u16 (seq + 1) ∧
  ch'.(recv_queue) = ch.(recv_queue) ∧ ch'.(reorder) = ch.(reorder) ∧ ch'.(frags) = ch.(frags) ∧
  ch'.(ch_id) = ch.(ch_id) ∧ ch'.(ch_type) = ch.(ch_type) ∧ ch'.(ch_state) = ch.(ch_state).
Proof. unfold push_out. cbv zeta. by destruct (_ =? _). Qed.

Lemma push_out_ok fp seq o ch :
  chan_ok fp ch → (ch.(out_tail) + 1) mod 64 ≠ ch.(out_head) →
  out_ok fp ch.(out_tail) ((ch.(out_tail) + 1) mod 64) ch.(out_tail) o → chan_ok fp (push_out seq o ch).
Proof.
  intros Hok Hne Ho. assert (Hlen : length (<[Z.to_nat ch.(out_tail) := o]> ch.(outgoing)) = 64%nat).
  { rewrite length_insert. apply Hok. }
  assert (Houts : all (out_ok fp ch.(out_head) ((ch.(out_tail) + 1) mod 64))
    (<[Z.to_nat ch.(out_tail) := o]> ch.(outgoing))).
  { pose proof (ok_out_tail _ _ Hok). pose proof (ok_out_head _ _ Hok). pose proof (ok_outgoing _ _ Hok).
    intros i o' Hi. destruct (decide (Z.to_nat ch.(out_tail) = i)) as [<-|Hne'].
    - rewrite list_lookup_insert_eq in Hi by lia. simplify_eq. rewrite Z2Nat.id by lia.
      destruct Ho as [?|(? & ? & ? & ? & ? & ? & ? & ? & Hr)]; [by left|].
      right. do 8 (split; [done|]). unfold in_ring in *. lia.
    - rewrite list_lookup_insert_ne in Hi by done. pose proof (lookup_lt_Some _ _ _ Hi).
      destruct (ok_outs _ _ Hok i o' Hi) as [?|(? & ? & ? & ? & ? & ? & ? & ? & Hr)]; [by left|].
      right. do 8 (split; [done|]). unfold in_ring in *. lia. }
  destruct Hok. unfold push_out. cbv zeta. destruct (_ =? _); constructor; try done; simpl; lia.
Qed.

Lemma push_out_owned fp seq o ch x :
  chan_ok fp ch → buf_ok x → owned x (push_out seq o ch) = owned x ch + cnt x o.(o_buf).
Proof.
  intros Hok Hx. destruct (out_tail_empty fp ch Hok) as (o0 & Ho0 & _ & Eb).
  destruct (push_out_fields seq o ch) as (E1 & _ & _ & _ & E2 & E3 & E4 & _).
  unfold owned. rewrite E1, E2, E3, E4. rewrite (sumf_insert _ _ _ o0) by done.
  rewrite Eb, (cnt_nobuf x) by done. lia.
Qed.

Lemma outbox_push fp m seq o ch :
  chan_ok fp ch → (ch.(out_tail) + 1) mod 64 ≠ ch.(out_head) → nz o.(o_active) = true →
  outbox m (push_out seq o ch) =
    outbox m ch ++ [(o.(o_seq), store_read m (pool_ptr o.(o_buf)) (Z.to_nat o.(o_len)))].
Proof.
  intros Hok Hne Ha. pose proof (ok_out_tail _ _ Hok). pose proof (ok_out_head _ _ Hok).
  pose proof (ok_outgoing _ _ Hok). unfold outbox.
  destruct (push_out_fields seq o ch) as (-> & -> & -> & _).
  rewrite ring_snoc by auto. rewrite omap_app. f_equal.
  - apply omap_ext_in. intros i Hi. pose proof (ring_range 64 _ _ _ ltac:(auto) Hi).
    apply elem_of_ring in Hi; [|auto|done]. unfold out_msg.
    rewrite list_lookup_insert_ne; [done|]. unfold in_ring in Hi. lia.
  - simpl. unfold out_msg. rewrite list_lookup_insert_eq by lia. by rewrite Ha.
Qed.

(** ** Writing *)

(** The number of fragments of a message of [len] bytes, as it is stored in
    eight bits. *)
Definition frag_count (fp len : Z) : Z :=
  let n := u8 ((len + fp - 1) / fp) in if n =? 0 then 1 else n.

(** Why [netchan_chan_write] refuses a message, if it does. *)
Definition refusal (fp : Z) (ch : netchan_chan) (c : netchan_conn) (len : Z) : option Z :=
  if negb (ch.(ch_role) =? 0) then Some NETCHAN_ERR
  else if ch.(ch_state) =? 3 then Some NETCHAN_ERR_CLOSED
  else if len =? 0 then Some 0
  else if 2048 <? len then Some NETCHAN_ERR_TOOBIG
  else if (ch.(ch_type) =? NETCHAN_RELIABLE) && (ch.(ch_state) =? 1) &&
          (ch.(send_window) <? ch.(bytes_in_flight) + len) then Some NETCHAN_ERR_FLOW
  else if (ch.(out_tail) + 1) mod 64 =? ch.(out_head) then Some NETCHAN_ERR_AGAIN
  else if c.(pool_free_top) =? 0 then Some NETCHAN_ERR_NOMEM
  else if 32 <? frag_count fp len then Some NETCHAN_ERR_TOOBIG
  else None.

Lemma frag_count_bound fp len : 0 < fp → 0 < len → 1 <= frag_count fp len ∧ (frag_count fp len - 1) * fp < len.
Proof.
  intros Hf Hl. unfold frag_count. cbv zeta. pose proof (u8_in ((len + fp - 1) / fp)) as H8. unfold inw in H8.
  assert (Hq : 0 <= (len + fp - 1) / fp) by (apply Z.div_pos; lia).
  assert (Hle : u8 ((len + fp - 1) / fp) <= (len + fp - 1) / fp) by (unfold u8; apply Z.mod_le; lia).
  assert (Hm : fp * ((len + fp - 1) / fp) <= len + fp - 1) by (apply Z.mul_div_le; lia).
  destruct (Z.eqb_spec (u8 ((len + fp - 1) / fp)) 0); nia.
Qed.

(** The channel after a message that needs too many fragments is dropped: its
    sequence number is used up. *)
Definition skip_out (ch : netchan_chan) : netchan_chan :=
  set_outgoing (<[Z.to_nat ch.(out_tail) := set_o_buf NC_NOBUF zero_outgoing]> ch.(outgoing))
    (set_send_seq (u16 (ch.(send_seq) + 1)) ch).

Lemma skip_out_opened fp k idk ch w : Opened fp k idk ch w → Opened fp k idk (skip_out ch) w.
Proof.
  intros HO. pose proof HO as (Hok & _). destruct (out_tail_empty fp ch Hok) as (o & Ho & _ & Eb).
  pose proof (ok_out_tail _ _ Hok). pose proof (ok_outgoing _ _ Hok).
  eapply (Opened_put_out fp k idk (set_send_seq (u16 (ch.(send_seq) + 1)) ch)); [|lia|done|by rewrite Eb|by left].
  eapply Opened_set; [done|..|done|done]. destruct Hok. by constructor.
Qed.

Lemma outbox_skip fp m ch : chan_ok fp ch → outbox m (skip_out ch) = outbox m ch.
Proof.
  intros Hok. pose proof (ok_out_tail _ _ Hok). pose proof (ok_out_head _ _ Hok).
  apply omap_ext_in. intros i Hi. pose proof (ring_range 64 _ _ _ ltac:(auto) Hi).
  simpl in Hi. apply elem_of_ring in Hi; [|auto|done]. unfold out_msg. simpl.
  rewrite list_lookup_insert_ne; [done|]. unfold in_ring in Hi. lia.
Qed.

Lemma wp_chan_write fp k idk ch w data (Q : Z → world → Prop) :
  0 < fp → Opened fp k idk ch w → Forall in8 data →
  (∀ r ch' w', refusal fp ch w.(conn) (Z.of_nat (length data)) = Some r → Opened fp k idk ch' w' →
     (ch' = ch ∧ w' = w ∨ ch' = skip_out ch) → w'.(conn).(cfg) = w.(conn).(cfg) →
     outbox w'.(conn).(pool_store) ch' = outbox w.(conn).(pool_store) ch → Q r (upd k ch' w')) →
  (∀ b o ch' w', refusal fp ch w.(conn) (Z.of_nat (length data)) = None → Opened fp k idk ch' w' →
     o = mk_out ch.(send_seq) b (Z.of_nat (length data)) 0 0 0 (frag_count fp (Z.of_nat (length data))) 1 →
     ch' = push_out ch.(send_seq) o ch → w'.(conn).(cfg) = w.(conn).(cfg) →
     outbox w'.(conn).(pool_store) ch' = outbox w.(conn).(pool_store) ch ++ [(ch.(send_seq), data)] →
     Q (Z.of_nat (length data)) (upd k ch' w')) →
  wp (netchan_chan_write (Some k) data) Q (upd k ch w).
Proof.
  intros Hfp HO Hdata Hno Hyes. pose proof HO as (Hok & Hid & t & HC & Ht).
  assert (Hrej : ∀ r, refusal fp ch w.(conn) (Z.of_nat (length data)) = Some r → wp (mret r) Q (upd k ch w)).
  { intros r Hr. apply wp_ret, Hno; auto. }
  unfold netchan_chan_write, refusal, NC_MAX_MSG, NC_OUTGOING_SLOTS in *. cbv zeta.
  eapply wp_bind, wp_get_ch; [done|].
  destruct (negb (ch_role ch =? 0)); [by apply Hrej|]. destruct (ch_state ch =? 3); [by apply Hrej|].
  destruct (Z.eqb_spec (Z.of_nat (length data)) 0) as [|Hl0]; [by apply Hrej|].
  destruct (Z.ltb_spec 2048 (Z.of_nat (length data))) as [|Hl]; [by apply Hrej|].
  destruct (_ && _ && _); [by apply Hrej|].
  destruct (Z.eqb_spec ((out_tail ch + 1) mod 64) (out_head ch)) as [|Hne]; [by apply Hrej|].
  apply wp_bind. eapply wp_pool_get; [done| |].
  { intros E. apply wp_if; intros E2; [|done]. apply Hrej. by rewrite E. }
  intros b w1 t1 Hb Hob HC1 Ht1 Htop Hcfg Hst. pose proof (ok_top _ _ (ci_conn _ _ _ _ _ HC1)).
  destruct (Z.eqb_spec (pool_free_top (conn w)) 0) as [|_]; [lia|].
  apply wp_if; intros E; [unfold buf_ok, NC_NOBUF in *; lia|clear E].
  apply wp_bind, wp_upd; [apply commutes_memcpy|].
  eapply wp_mono; [apply (memcpy_pool_ok fp _ ch); [apply HC1|done|lia|split; [lia|split; [done|lia]]|done]|].
  intros [] w2 (Hc2 & Hs2 & Hst2). pose proof (CInv_same _ _ _ _ _ _ HC1 Hs2 Hc2) as HC2.
  cbn [src_data] in Hst2. rewrite Nat2Z.id, take_ge, Hst in Hst2 by lia.
  eapply wp_bind, wp_mod_ch; [done|]. unfold getc. apply wp_bind, wp_gets.
  change (conn (upd k ?c w2)) with (with_ch k c w2.(conn)). rewrite (ok_fp fp) by (by apply conn_ok_with_ch).
  destruct (Z.eqb_spec fp 0); [lia|].
  assert (Hfp32 : fp < 2 ^ 32).
  { rewrite <-(ok_fp _ _ Hc2). unfold max_frag_payload. pose proof (u32_in (mtu (cfg (conn w2)) - NC_HDR_FULL_SIZE - 8)).
    unfold inw in *. lia. }
  assert (E64 : u64 (Z.of_nat (length data) + fp - 1) = Z.of_nat (length data) + fp - 1) by (unfold u64; apply Z.mod_small; lia).
  rewrite E64. fold (frag_count fp (Z.of_nat (length data))).
  destruct (frag_count_bound fp (Z.of_nat (length data))) as [Hfc1 Hfc2]; [done|lia|].
  unfold NC_MAX_FRAGS. pose proof (ok_outgoing _ _ Hok). pose proof (ok_out_tail _ _ Hok).
  destruct (Z.ltb_spec 32 (frag_count fp (Z.of_nat (length data)))) as [H32|H32].
  - apply wp_bind. eapply (wp_pool_put fp k idk ch); [done|done|done|].
    intros w3 t3 HC3 Ht3 _ Hcfg3 Hst3. eapply wp_bind, wp_put_out; [done|simpl; lia|]. apply wp_ret.
    change (upd k _ w3) with (upd k (skip_out ch) w3).
    assert (HO3 : Opened fp k idk ch w3) by (split; [done|]; split; [done|]; by exists t3).
    apply Hno; [done|by apply skip_out_opened|by right|rewrite Hcfg3, (same_cfg _ _ Hs2); done|].
    rewrite (outbox_skip fp) by done. rewrite Hst3, Hst2. apply (outbox_write fp); [done|lia|lia].
  - set (o := mk_out _ _ _ _ _ _ _ _). eapply wp_bind, wp_put_out; [done|simpl; lia|]. apply wp_bind.
    assert (Hend : wp (mod_ch k (λ ch, set_msgs_sent (u32 (msgs_sent ch + 1)) ch);;
      mod_ch k (set_out_tail ((out_tail ch + 1) mod 64));; mret (Z.of_nat (length data))) Q
      (upd k (let ch := set_outgoing (<[Z.to_nat ch.(out_tail) := o]> ch.(outgoing)) (set_send_seq (u16 (send_seq ch + 1)) ch) in
       if ch.(ch_type) =? NETCHAN_RELIABLE
       then set_bytes_in_flight (u32 (ch.(bytes_in_flight) + o.(o_len))) ch else ch) w2)).
    { do 2 (eapply wp_bind, wp_mod_ch; [done|]). apply wp_ret.
      replace (set_out_tail _ _) with (push_out ch.(send_seq) o ch)
        by (unfold push_out; cbv zeta; cbn [ch_type set_outgoing set_send_seq]; by destruct (_ =? _)).
      eapply (Hyes b o); try done.
      - split; [|split; [by destruct (push_out_fields (send_seq ch) o ch) as (_ & _ & _ & _ & _ & _ & _ & -> & _)|]].
        + apply push_out_ok; [done|done|]. right. simpl. split; [done|]. split; [done|].
          unfold in_ring. split_and!; lia.
        + exists t1. split; [done|]. intros x Hx. rewrite (push_out_owned fp) by done. specialize (Ht1 x Hx).
          simpl. lia.
      - rewrite (same_cfg _ _ Hs2). done.
      - rewrite (outbox_push fp) by done. rewrite Hst2. rewrite (outbox_write fp) by (done || lia). do 3 f_equal.
        unfold o. simpl. rewrite Nat2Z.id. apply store_read_write. }
    cbv zeta in Hend. cbn [ch_type set_outgoing set_send_seq] in Hend.
    destruct (ch_type ch =? NETCHAN_RELIABLE); [|by apply wp_ret].
    eapply wp_mod_ch; [done|]. exact Hend.
Qed.

(** ** Acknowledgements of the send queue *)

(** A ring scanned from any head that leaves out no message. *)
Lemma ring_omap {B} (f : Z → option B) a b t :
  0 <= a < 64 → 0 <= b < 64 → 0 <= t < 64 →
  (∀ i, 0 <= i < 64 → is_Some (f i) → in_ring 64 b t i) →
  (t - b) mod 64 <= (t - a) mod 64 →
  omap f (ring 64 a t) = omap f (ring 64 b t).
Proof.
  intros Ha Hb Ht Hf. remember (Z.to_nat ((t - a) mod 64 - (t - b) mod 64)) as n eqn:En. symmetry in En.
  revert a Ha En. induction n as [|n IH]; intros a Ha En Hle.
  { assert (a = b) as -> by lia. done. }
  rewrite (ring_cons 64 a t) by (auto || lia). simpl.
  destruct (f a) as [y|] eqn:Ef.
  - exfalso. specialize (Hf a Ha ltac:(by rewrite Ef)). unfold in_ring in Hf. lia.
  - apply IH; lia.
Qed.

Lemma ring_omap_any {B} (f : Z → option B) a b t :
  0 <= a < 64 → 0 <= b < 64 → 0 <= t < 64 →
  (∀ i, 0 <= i < 64 → is_Some (f i) → in_ring 64 a t i) →
  (∀ i, 0 <= i < 64 → is_Some (f i) → in_ring 64 b t i) →
  omap f (ring 64 a t) = omap f (ring 64 b t).
Proof.
  intros. destruct (Z.le_ge_cases ((t - b) mod 64) ((t - a) mod 64));
    [by apply ring_omap|symmetry; by apply ring_omap].
Qed.

Lemma out_msg_ring fp m ch i :
  chan_ok fp ch → 0 <= i < 64 → is_Some (out_msg m ch.(outgoing) i) → in_ring 64 ch.(out_head) ch.(out_tail) i.
Proof.
  intros Hok Hi [x Hx]. unfold out_msg in Hx. destruct (ch.(outgoing) !! Z.to_nat i) as [o|] eqn:Ho; [|done].
  destruct (nz (o_active o)) eqn:Ea; [|done].
  destruct (ok_outs _ _ Hok _ _ Ho) as [[E _]|(_ & _ & _ & _ & _ & _ & _ & _ & Hr)]; [by rewrite E in Ea|].
  by rewrite Z2Nat.id in Hr by lia.
Qed.

(** Messages that an acknowledgement of [acked] does not cover. *)
Definition beyond (acked : Z) (x : Z * list Z) : bool := 0 <? s16 (x.1 - acked).

Lemma out_msg_ack m acked outs i :
  out_msg m (ack_out acked <$> outs) i =
    match out_msg m outs i with Some x => if beyond acked x then Some x else None | None => None end.
Proof.
  unfold out_msg. rewrite list_lookup_fmap. destruct (outs !! Z.to_nat i) as [o|]; [|done]. simpl.
  unfold ack_out, acked_out. destruct (nz (o_active o)) eqn:Ea; simpl.
  - unfold beyond. simpl. destruct (Z.leb_spec (s16 (o_seq o - acked)) 0), (Z.ltb_spec 0 (s16 (o_seq o - acked)));
      simpl; rewrite ?Ea; done || lia.
  - by rewrite Ea.
Qed.

Lemma omap_guard {A B} (f : A → option B) (g : B → bool) (l : list A) :
  omap (λ x, match f x with Some y => if g y then Some y else None | None => None end) l =
  filter (λ y, g y = true) (omap f l).
Proof.
  induction l as [|x l IH]; simpl; [done|]. destruct (f x) as [y|]; [|done].
  rewrite filter_cons. destruct (g y) eqn:E, (decide (g y = true)); try congruence; [f_equal|]; exact IH.
Qed.

(** An acknowledgement removes exactly the messages it covers. *)
Lemma outbox_ack fp m ch ch' acked :
  chan_ok fp ch → chan_ok fp ch' → ch'.(outgoing) = ack_out acked <$> ch.(outgoing) →
  ch'.(out_tail) = ch.(out_tail) →
  outbox m ch' = filter (λ x, beyond acked x = true) (outbox m ch).
Proof.
  intros Hok Hok' Hout Htl. unfold outbox. rewrite <-omap_guard.
  rewrite (ring_omap_any (out_msg m ch'.(outgoing)) ch'.(out_head) ch.(out_head)); [|apply Hok'|apply Hok|apply Hok'|..].
  - rewrite Htl. apply omap_ext_in. intros i _. by rewrite Hout, out_msg_ack.
  - intros i. by apply (out_msg_ring fp).
  - intros i Hi Hs. rewrite Htl. apply (out_msg_ring fp m); [done|done|].
    rewrite Hout, out_msg_ack in Hs. destruct (out_msg m ch.(outgoing) i); [by eexists|]. by destruct Hs.
Qed.

(** Moving the head over free slots changes nothing. *)
Lemma outbox_head fp m ch h :
  chan_ok fp ch → chan_ok fp (set_out_head h ch) → outbox m (set_out_head h ch) = outbox m ch.
Proof.
  intros Hok Hok'. unfold outbox. simpl. apply ring_omap_any; [apply Hok'|apply Hok|apply Hok|..].
  - intros i. apply (out_msg_ring fp m _ i Hok').
  - intros i. by apply (out_msg_ring fp).
Qed.
