(* ===== verification/NcReach.v ===== *)
(** * Every reachable state of a netchan connection

    [call] lists the calls an application makes on an open connection and
    [reachable] the states they lead to, in any order, from [netchan_open] and
    [netchan_config].  Every allowed call in a reachable state returns, and the
    state keeps the invariant of NcInv. *)

From stdpp Require Import gmap.
From S2P Require Import Prelude NcState NcOps NcProto NcApi NcInv NcChan.
From S2P Require Import NcRecv NcFrag NcSafe NcFeed NcSend NcPublic NcQueue.

#[local] Ltac Zify.zify_post_hook ::= Z.to_euclidean_division_equations.

(** ** Reading and writing *)

Lemma live_upd k ch w j : live (upd k ch w).(conn) j ↔ live w.(conn) j.
Proof. done. Qed.

Lemma netchan_chan_read_ok fp ch buflen w :
  Inv fp w.(conn) → handle w ch → 0 <= buflen →
  wp (netchan_chan_read ch buflen) (λ _ w', Inv fp w'.(conn)) w.
Proof.
  intros HI Hh Hb. destruct ch as [k|]; [|by apply wp_ret]. pose proof (Hh k eq_refl) as Hk.
  destruct (open_world fp k w HI Hk) as (ch & Ew & _ & HO).
  destruct (decide (ch.(ch_role) = 1)) as [Hr|Hr].
  - rewrite Ew. eapply wp_chan_read; [done|done|done| |].
    + intros _. by rewrite <-Ew.
    + intros. by eapply close_world.
  - pose proof HO as (_ & _ & t & HC & _). simpl. rewrite Ew. eapply wp_bind, wp_get_ch; [done|].
    rewrite <-Ew. destruct (Z.eqb_spec (ch_role ch) 1); [done|]. by apply wp_ret.
Qed.

Lemma netchan_chan_write_ok fp ch data w :
  0 < fp → Inv fp w.(conn) → handle w ch → Forall in8 data →
  wp (netchan_chan_write ch data) (λ _ w', Inv fp w'.(conn)) w.
Proof.
  intros Hfp HI Hh Hd. destruct ch as [k|]; [|by apply wp_ret]. pose proof (Hh k eq_refl) as Hk.
  destruct (open_world fp k w HI Hk) as (ch & Ew & _ & HO). rewrite Ew.
  eapply wp_chan_write; [done|done|done|..]; intros; by eapply close_world.
Qed.

(** ** Calls *)

Inductive call : Type :=
  | Connect (addr : nc_addr)
  | Accept
  | Feed (pkt : list Z) (from : option nc_addr)
  | SendNext (buflen : Z) (to : bool)
  | Service (now_ms : Z)
  | ChanOpen (type dir : Z) (content_type : option (list Z))
  | ChanClose (ch : option Z)
  | ChanWrite (ch : option Z) (data : list Z)
  | ChanRead (ch : option Z) (buflen : Z)
  | Poll (ev : option netchan_event).

Definition run_call (cl : call) : M world unit :=
  match cl with
  | Connect addr => _ ← netchan_connect addr; mret tt
  | Accept => _ ← netchan_accept; mret tt
  | Feed pkt from => _ ← netchan_feed pkt from; mret tt
  | SendNext buflen to => _ ← netchan_send_next buflen to; mret tt
  | Service now_ms => _ ← netchan_service now_ms; mret tt
  | ChanOpen type dir ct => _ ← netchan_chan_open type dir ct; mret tt
  | ChanClose ch => netchan_chan_close ch
  | ChanWrite ch data => _ ← netchan_chan_write ch data; mret tt
  | ChanRead ch buflen => _ ← netchan_chan_read ch buflen; mret tt
  | Poll ev => _ ← netchan_poll ev; mret tt
  end.

(** What the caller has to provide: bytes, addresses, channels the library has
    handed out; and no fragment of a packet is longer than the fragments this
    side would send. *)
Definition allowed (w : world) (cl : call) : Prop :=
  match cl with
  | Connect addr => addr_ok addr
  | Feed pkt from =>
      Forall in8 pkt ∧ match from with Some a => addr_ok a | None => True end ∧
      frames_fit (max_frag_payload w.(conn)) (packet_frames pkt) = true
  | ChanOpen _ _ ct => match ct with Some s => Forall in8 s | None => True end
  | ChanClose ch => handle w ch
  | ChanWrite ch data => handle w ch ∧ Forall in8 data
  | ChanRead ch buflen => handle w ch ∧ 0 <= buflen
  | _ => True
  end.

(** A configuration the code works with: a packet has room for a data frame. *)
Definition cfg_ok (v : netchan_cfg) : Prop := 16 <= v.(mtu) < 2 ^ 32.

Inductive reachable (v : netchan_cfg) : world → Prop :=
  | reach_open srv c env i j k :
      netchan_open true srv = Some c → reachable v (mk_world (set_cfg v c) env i j k)
  | reach_call w cl w' :
      reachable v w → allowed w cl → run_call cl w = Some (tt, w') → reachable v w'.

(** ** The initial state *)

Definition frag_size (v : netchan_cfg) : Z := v.(mtu) - 15.

Lemma cfg_payload v c : cfg_ok v → max_frag_payload (set_cfg v c) = frag_size v.
Proof. unfold cfg_ok, max_frag_payload, frag_size, NC_HDR_FULL_SIZE, u32. simpl. intros. rewrite Z.mod_small; lia. Qed.

Lemma sumf_seqZ b i n : 0 <= n → i <= b < i + n → sumf (cnt b) (seqZ i n) = 1.
Proof.
  intros Hn Hb. rewrite (sumf_ext _ (λ j, Z.b2z (b =? j))) by (intros x _; unfold cnt; by rewrite Z.eqb_sym).
  apply sumf_single; [apply NoDup_seqZ|]. by apply elem_of_seqZ.
Qed.

Lemma initial_ok v srv c : cfg_ok v → netchan_open true srv = Some c → Inv (frag_size v) (set_cfg v c).
Proof.
  intros Hv Ho. unfold netchan_open in Ho. simpl in Ho. injection Ho as <-.
  set (c0 := set_cfg v _).
  assert (Hused : ∀ j, ¬ live c0 j).
  { intros j [Hj H]. unfold c0 in H. cbn [chan_used set_cfg] in H.
    change (replicate 16 0 !! Z.to_nat j = Some 1) in H. apply lookup_replicate_1 in H as [H _]. done. }
  assert (Hev : ∀ e, e ∈ c0.(events) → e.(ev_ch) = None).
  { intros e He. change (e ∈ replicate 16 zero_event) in He. apply elem_of_replicate_inv in He. by subst. }
  assert (Htab : ∀ i o, c0.(channels) !! i = Some o → o = None).
  { intros i o H. change (replicate 256 (@None Z) !! i = Some o) in H. by apply lookup_replicate_1 in H as [-> _]. }
  assert (Hfree : free_bufs c0 = seqZ 0 64) by done.
  constructor.
  - constructor; try done.
    + by apply cfg_payload.
    + rewrite Hfree. apply Forall_forall. intros x Hx%elem_of_seqZ. unfold buf_ok. lia.
    + intros e j He Hj. rewrite Hev in Hj by done. done.
    + change (Forall in8 (replicate 1024 0)). apply Forall_forall. intros x Hx%elem_of_replicate_inv. subst.
      unfold inw. lia.
    + change (in8 (if nz srv then 1 else 0)). destruct (nz srv); unfold inw; lia.
    + intros i j H. by apply Htab in H.
  - intros j ch Hj. by apply Hused in Hj.
  - intros i j ch H. by apply Htab in H.
  - intros b Hb. unfold held. rewrite Hfree, sumf_seqZ by (unfold buf_ok in Hb; lia).
    rewrite sumf_zero; [done|]. intros x Hx. apply list_elem_of_lookup in Hx as [i Hi].
    rewrite lookup_zip_with in Hi. apply bind_Some in Hi as (ch & _ & (u & Hu & [= <-])%bind_Some).
    change (replicate 16 0 !! i = Some u) in Hu. by apply lookup_replicate_1 in Hu as [-> _].
Qed.

(** ** All calls *)

Lemma run_call_ok fp cl w :
  0 < fp → Inv fp w.(conn) → allowed w cl → wp (run_call cl) (λ _ w', Inv fp w'.(conn)) w.
Proof.
  intros Hfp HI Ha. pose proof (ok_fp _ _ (Inv_conn _ _ HI)) as Ef.
  destruct cl; simpl in *; try (apply wp_bind; eapply wp_mono; [|intros ? ? HI'; apply wp_ret; exact HI']).
  - by apply netchan_connect_ok.
  - by apply netchan_accept_ok.
  - destruct Ha as (H1 & H2 & H3). rewrite Ef in H3.
    eapply wp_mono; [by apply (netchan_feed_ok fp)|]. by intros ? ? [].
  - eapply wp_mono; [by apply (netchan_send_next_ok fp)|]. by intros [[]] ? [].
  - by apply netchan_service_ok.
  - eapply wp_mono; [by apply (netchan_chan_open_ok fp)|]. by intros ? ? [].
  - by apply netchan_chan_close_ok.
  - destruct Ha. by apply netchan_chan_write_ok.
  - destruct Ha. by apply netchan_chan_read_ok.
  - by apply netchan_poll_ok.
Qed.

Lemma reachable_inv v w : cfg_ok v → reachable v w → Inv (frag_size v) w.(conn).
Proof.
  intros Hv. induction 1 as [srv c env i j k Ho|w cl w' _ IH Ha Hr]; [by eapply initial_ok|].
  pose proof (run_call_ok (frag_size v) cl w ltac:(unfold frag_size, cfg_ok in *; lia) IH Ha) as Hw.
  apply wp_run in Hw as ([] & w2 & E & HI). congruence.
Qed.
