(* ===== verification/NcStream.v ===== *)
(** * Reliable delivery

    A receiving end of a reliable channel against a sender that numbers its
    messages [msg 0], [msg 1], ... modulo 2^16.  Packets with these messages
    arrive in any order, some several times, some never, and the application
    reads in between; what has been read and what waits in the queue is the
    prefix of the stream received so far. *)

From stdpp Require Import gmap.
From S2P Require Import Prelude NcState NcOps NcProto NcApi NcInv NcChan.
From S2P Require Import NcRecv NcFrag NcSafe NcFeed NcSend NcQueue.

#[local] Ltac Zify.zify_post_hook ::= Z.to_euclidean_division_equations.

(** ** Encoding and decoding *)

(** The data frame that [netchan_send_next] emits. *)
Definition data_frame (id seq idx total : Z) (data : list Z) : list Z :=
  NC_FRAME_DATA :: id :: wr16 seq ++ wr16 (Z.of_nat (length data)) ++ idx :: total :: data.

(** A packet to a connection with identifier [lid]. *)
Definition packet (lid num : Z) (frames : list Z) : list Z :=
  NC_PKT_FLAG_PKTNUM :: wr32 lid ++ wr16 num ++ frames.

Lemma data_frame_in id seq idx total data :
  in8 id → in8 idx → in8 total → Forall in8 data → Forall in8 (data_frame id seq idx total data).
Proof.
  intros. unfold data_frame. apply Forall_cons; split; [by unfold inw|]. apply Forall_cons; split; [done|].
  apply Forall_app; split; [apply wr16_in|]. apply Forall_app; split; [apply wr16_in|].
  by repeat (apply Forall_cons; split).
Qed.

Lemma packet_in lid num frames : Forall in8 frames → Forall in8 (packet lid num frames).
Proof.
  intros. unfold packet. apply Forall_cons; split; [by unfold inw|].
  apply Forall_app; split; [apply wr32_in|]. apply Forall_app; split; [apply wr16_in|done].
Qed.

Lemma packet_accepted c num frames : in32 c.(local_id) → accepts c (packet c.(local_id) num frames) = true.
Proof.
  intros Hl. unfold accepts. unfold packet at 2 3.
  assert (E : rd32 (NC_PKT_FLAG_PKTNUM :: wr32 (local_id c) ++ wr16 num ++ frames) 1 = Some (local_id c)).
  { unfold rd32. simpl. f_equal. rewrite join32. by apply u32_small. }
  rewrite E. cbn [aget]. change (aget (NC_PKT_FLAG_PKTNUM :: wr32 (local_id c) ++ wr16 num ++ frames) 0) with (Some NC_PKT_FLAG_PKTNUM).
  rewrite Z.eqb_refl. unfold packet. cbn [length app wr32 wr16].
  change (nz (NC_PKT_FLAG_PKTNUM .& NC_PKT_FLAG_INIT)) with false. cbn [orb]. rewrite !andb_true_iff, !Z.leb_le. lia.
Qed.

Lemma packet_frames_packet lid num frames : packet_frames (packet lid num frames) = frames.
Proof. done. Qed.

(** ** What receiving data does not touch *)

Definition keeps {A B} (f : world → B) (m : M world A) : Prop :=
  ∀ w a w', m w = Some (a, w') → f w' = f w.

(** The channel table and the identifier of the connection. *)
Definition idents (w : world) : list (option Z) * Z := (w.(conn).(channels), w.(conn).(local_id)).

Lemma keeps_bind {A B C} (f : world → C) (m : M world A) (g : A → M world B) :
  keeps f m → (∀ a, keeps f (g a)) → keeps f (m ≫= g).
Proof.
  intros Hm Hg w b w'. unfold mbind, M_bind. destruct (m w) as [[a w1]|] eqn:E; [|done].
  intros E'. rewrite (Hg _ _ _ _ E'). by eapply Hm.
Qed.

Lemma keeps_ret {A B} (f : world → B) (a : A) : keeps f (mret a).
Proof. by intros w b w' [= <- <-]. Qed.

Lemma keeps_must {A B} (f : world → B) (o : option A) : keeps f (must o).
Proof. destruct o; [|done]. by intros w b w' [= <- <-]. Qed.

Lemma keeps_ub {A B} (f : world → B) : keeps f (ub : M world A).
Proof. done. Qed.

Lemma keeps_getc {B} (f : world → B) : keeps f getc.
Proof. by intros w b w' [= <- <-]. Qed.

Lemma keeps_modc {B} (f : world → B) g : (∀ w, f (set_conn (g w.(conn)) w) = f w) → keeps f (modc g).
Proof. intros H w b w' [= <- <-]. apply H. Qed.

Lemma keeps_wp {A B} (f : world → B) (m : M world A) (Q : A → world → Prop) w :
  keeps f m → wp m Q w → wp m (λ a w', Q a w' ∧ f w' = f w) w.
Proof. intros Hk. unfold wp. destruct (m w) as [[a w']|] eqn:E; [|done]. intros HQ. split; [done|]. by eapply Hk. Qed.

Create HintDb keeps discriminated.
#[export] Hint Resolve keeps_ret keeps_must keeps_ub keeps_getc : keeps.
#[export] Hint Extern 1 (keeps _ (modc _)) => (by apply keeps_modc) : keeps.
#[export] Hint Extern 1 (keeps _ (mbind _ _)) => (apply keeps_bind; [|intros ?]) : keeps.
#[export] Hint Extern 2 (keeps _ (if ?b then _ else _)) => destruct b : keeps.

Ltac keep := solve [typeclasses eauto with keeps | eauto 20 with keeps].

Lemma keeps_ch k : keeps idents (get_ch k). Proof. unfold get_ch. keep. Qed.
Lemma keeps_put_ch k ch : keeps idents (put_ch k ch). Proof. unfold put_ch. keep. Qed.
#[export] Hint Resolve keeps_ch keeps_put_ch : keeps.
Lemma keeps_mod_ch k g : keeps idents (mod_ch k g). Proof. unfold mod_ch. keep. Qed.
Lemma keeps_get_reord k i : keeps idents (get_reord k i). Proof. unfold get_reord. keep. Qed.
Lemma keeps_put_reord k i r : keeps idents (put_reord k i r). Proof. unfold put_reord. keep. Qed.
Lemma keeps_put_rent k i e : keeps idents (put_rent k i e). Proof. unfold put_rent. keep. Qed.
Lemma keeps_pool_get : keeps idents pool_get. Proof. unfold pool_get. keep. Qed.
Lemma keeps_pool_put b : keeps idents (pool_put b). Proof. unfold pool_put. keep. Qed.
Lemma keeps_pool_read a n : keeps idents (pool_read a n). Proof. unfold pool_read. keep. Qed.
Lemma keeps_pool_write a bs : keeps idents (pool_write a bs). Proof. unfold pool_write. keep. Qed.
#[export] Hint Resolve keeps_mod_ch keeps_get_reord keeps_put_reord keeps_put_rent : keeps.
#[export] Hint Resolve keeps_pool_get keeps_pool_put keeps_pool_read keeps_pool_write : keeps.
Lemma keeps_memcpy a src n : keeps idents (memcpy_pool a src n).
Proof. unfold memcpy_pool. destruct src; keep. Qed.
Lemma keeps_ev_push ty ev : keeps idents (ev_push ty ev).
Proof. unfold ev_push, ev_enqueue. keep. Qed.
#[export] Hint Resolve keeps_memcpy keeps_ev_push : keeps.
Lemma keeps_recv_enqueue k src n : keeps idents (chan_recv_enqueue k src n).
Proof. unfold chan_recv_enqueue. keep. Qed.
#[export] Hint Resolve keeps_recv_enqueue : keeps.

Lemma keeps_deliver_loop n k : keeps idents (deliver_loop n k).
Proof.
  induction n as [|n IH]; [done|]. cbn [deliver_loop].
  repeat (apply keeps_bind; [keep|intros ?]). destruct (_ || _); [keep|].
  repeat (apply keeps_bind; [keep|intros ?]). exact IH.
Qed.

Lemma keeps_reliable_deliver k seq src len : keeps idents (reliable_deliver k seq src len).
Proof.
  unfold reliable_deliver, chan_deliver_reordered. apply keeps_bind; [keep|intros ch]. destruct (_ =? _).
  - do 3 (apply keeps_bind; [keep|intros ?]). exact (keeps_deliver_loop 65 k).
  - keep.
Qed.

(** ** A message of a reliable channel *)

(** The channel that receives the stream: number [k], identifier [id]. *)
Definition receiving (id k : Z) (c : netchan_conn) (ch : netchan_chan) : Prop :=
  in8 id ∧ c.(channels) !! Z.to_nat id = Some (Some k) ∧ c.(chan_pool) !! Z.to_nat k = Some ch ∧
  ch.(ch_role) = 1 ∧ ch.(ch_type) ≠ NETCHAN_UNRELIABLE.

(** The channel after its acknowledgement is due. *)
Definition ack_due (ch : netchan_chan) : netchan_chan :=
  set_ack_seq (if 0 <? ch.(recv_seq) then ch.(recv_seq) - 1 else 0) (set_need_ack 1 ch).

Section Stream.
Context (fp : Z).

Lemma wp_process_data id k ch w seq data rest (Q : Z → world → Prop) :
  Inv fp w.(conn) → receiving id k w.(conn) ch → in16 seq → Forall in8 (data ++ rest) →
  Z.of_nat (length data) < 65536 →
  (∀ ch' w', Opened fp k ch.(ch_id) ch' w' → Accepted ch w seq data ch' w' → idents w' = idents w →
     Q (8 + Z.of_nat (length data)) (upd k (ack_due ch') w')) →
  wp (process_data (data_frame id seq 0 1 data ++ rest)) Q w.
Proof.
  intros HI (Hid & Htab & Hch & Hrole & Hty) Hseq Hdata Hlen HQ. unfold process_data.
  assert (El : Z.of_nat (length (data_frame id seq 0 1 data ++ rest)) = 8 + Z.of_nat (length data) + Z.of_nat (length rest)).
  { rewrite length_app. unfold data_frame. cbn [length app wr16]. lia. }
  rewrite El. apply wp_if; intros E; [lia|clear E].
  change (aget (data_frame id seq 0 1 data ++ rest) 1) with (Some id). apply wp_bind, wp_some.
  assert (E2 : rd16 (data_frame id seq 0 1 data ++ rest) 2 = Some seq).
  { unfold rd16. simpl. f_equal. rewrite join16. by apply Z.mod_small. }
  rewrite E2. apply wp_bind, wp_some.
  assert (E4 : rd16 (data_frame id seq 0 1 data ++ rest) 4 = Some (Z.of_nat (length data))).
  { unfold rd16. simpl. f_equal. rewrite join16. apply Z.mod_small. lia. }
  rewrite E4. apply wp_bind, wp_some.
  change (aget (data_frame id seq 0 1 data ++ rest) 6) with (Some 0). apply wp_bind, wp_some.
  change (aget (data_frame id seq 0 1 data ++ rest) 7) with (Some 1). apply wp_bind, wp_some.
  apply wp_if; intros E; [lia|clear E]. cbv zeta.
  change (drop 8 (data_frame id seq 0 1 data ++ rest)) with (data ++ rest).
  apply wp_bind. eapply (wp_channel fp); [apply HI|done|congruence|]. intros k' Hk' Hl. simplify_eq.
  destruct (open_world fp k w HI Hl) as (ch0 & Ew & Hch0 & HO). assert (ch0 = ch) as -> by congruence.
  pose proof HO as (Hok & _ & t & HC & _). rewrite Ew. eapply wp_bind, wp_get_ch; [done|].
  rewrite Hrole. apply wp_if; intros E; [done|clear E].
  destruct (Z.eqb_spec (ch_type ch) NETCHAN_UNRELIABLE) as [|_]; [done|].
  apply wp_bind. change (1 <=? 1) with true.
  eapply wp_mono; [apply (keeps_wp idents); [apply keeps_reliable_deliver|]|].
  { eapply (wp_reliable_deliver fp k _ _ _ _ _ _ (λ _ s, ∃ ch' w', s = upd k ch' w' ∧ Opened fp k (ch_id ch) ch' w' ∧
      Accepted ch w seq data ch' w')); [done| |done|].
    - split; [lia|]. split; [done|]. rewrite length_app. lia.
    - cbn [src_data]. rewrite Nat2Z.id, take_app_length. eauto. }
  intros [] s [(ch' & w' & -> & HO' & Hacc) Hids].
  pose proof HO' as (_ & _ & t' & HC' & _). do 2 (eapply wp_bind, wp_mod_ch; [done|]). apply wp_ret.
  exact (HQ ch' w' HO' Hacc Hids).
Qed.

Lemma ack_due_opened k idk ch w : Opened fp k idk ch w → Opened fp k idk (ack_due ch) w.
Proof.
  intros HO. eapply Opened_set; [done|..|done|done]. destruct HO as ([] & _). by constructor.
Qed.


(** A packet with one frame is processed by the handler of the frame. *)
Lemma parse_one b rest w (Q : Z → world → Prop) :
  b ≠ NC_FRAME_PADDING →
  wp (process_frame b (b :: rest)) (λ r w', r = Z.of_nat (length (b :: rest)) ∧ Q NETCHAN_OK w') w →
  wp (parse_frames (b :: rest)) Q w.
Proof.
  intros Hb H. unfold parse_frames. cbn [length parse_loop].
  destruct (Z.eqb_spec b NC_FRAME_PADDING); [done|]. apply wp_bind. eapply wp_mono; [exact H|].
  intros r w' [-> HQ]. destruct (Z.ltb_spec (Z.of_nat (length (b :: rest))) 0); [lia|].
  rewrite drop_ge by lia. by apply wp_ret.
Qed.

Lemma wp_feed_message id k ch w seq data num from (Q : Z → world → Prop) :
  Inv fp w.(conn) → receiving id k w.(conn) ch → in16 seq → Forall in8 data → Z.of_nat (length data) < 65536 →
  in32 w.(conn).(local_id) → match from with Some a => addr_ok a | None => True end →
  (∀ ch' w1 w', Opened fp k ch.(ch_id) ch' w' → w1.(conn).(pool_store) = w.(conn).(pool_store) →
     w1.(conn).(pool_free_top) = w.(conn).(pool_free_top) → Accepted ch w1 seq data ch' w' →
     idents w' = idents w → Q NETCHAN_OK (upd k (ack_due ch') w')) →
  wp (netchan_feed (packet w.(conn).(local_id) num (data_frame id seq 0 1 data)) from) Q w.
Proof.
  intros HI (Hid & Htab & Hch & Hrole & Hty) Hseq Hdata Hlen Hlid Hfrom HQ.
  assert (Hin : Forall in8 (data_frame id seq 0 1 data)) by (apply data_frame_in; [done|by unfold inw|by unfold inw|done]).
  eapply (wp_feed fp); [done|by apply packet_in|done| |].
  { rewrite packet_accepted by done. done. }
  intros w1 _ HI1 [S1 S2 _ _ S5 _] Hst1 Hl1. rewrite packet_frames_packet.
  apply parse_one; [done|]. change (process_frame _ _) with (process_data (data_frame id seq 0 1 data)).
  rewrite <-(app_nil_r (data_frame id seq 0 1 data)) at 1.
  eapply (wp_process_data id k ch); [done| |done|by rewrite app_nil_r|done|].
  { split; [done|]. rewrite S1, S2. done. }
  intros ch' w' HO' Hacc Hids. split; [unfold data_frame; cbn [length app wr16]; lia|]. apply (HQ ch' w1 w'); try done.
  rewrite Hids. unfold idents. by rewrite S1, Hl1.
Qed.
End Stream.

(** A packet with one frame. *)
Lemma feed_frame fp w num from b rest (Q : world → Prop) :
  Inv fp w.(conn) → Forall in8 (b :: rest) → b ≠ NC_FRAME_PADDING → in32 w.(conn).(local_id) →
  match from with Some a => addr_ok a | None => True end →
  (∀ w1, Inv fp w1.(conn) → Same w.(conn) w1.(conn) → w1.(conn).(pool_store) = w.(conn).(pool_store) →
     w1.(conn).(local_id) = w.(conn).(local_id) →
     wp (process_frame b (b :: rest)) (λ r w', r = Z.of_nat (length (b :: rest)) ∧ Q w') w1) →
  ∃ w', netchan_feed (packet w.(conn).(local_id) num (b :: rest)) from w = Some (NETCHAN_OK, w') ∧ Q w'.
Proof.
  intros HI Hb Hne Hl Hf HQ.
  assert (H : wp (netchan_feed (packet w.(conn).(local_id) num (b :: rest)) from) (λ r w', r = NETCHAN_OK ∧ Q w') w).
  { eapply (wp_feed fp); [done|by apply packet_in|done|by rewrite packet_accepted by done|].
    intros w1 _ HI1 Hs1 Hst1 Hl1. rewrite packet_frames_packet. apply parse_one; [done|].
    eapply wp_mono; [by apply HQ|]. by intros r w' [-> ?]. }
  apply wp_run in H as (r & w' & E & -> & HQ'). eauto.
Qed.

(** ** The stream *)

Section Messages.
Context (fp : Z) (msg : nat → list Z).

(** The sequence number of message [q]. *)
Definition seq_no (q : nat) : Z := u16 (Z.of_nat q).

(** [n] messages have been received in order; [arrived] lists messages that
    must not get lost; [got] is what the application has read. *)
Record in_stream (n : nat) (arrived : list nat) (got : list (list Z)) (ch : netchan_chan)
    (m : gmap Z Z) : Prop := {
  is_seq : ch.(recv_seq) = seq_no n;
  is_slots : ∀ i r, ch.(reorder) !! i = Some r → nz r.(r_valid) = true →
    ∃ q, (n < q < n + 64)%nat ∧ r.(r_seq) = seq_no q ∧ reord_data m r = msg q;
  is_arrived : ∀ q, q ∈ arrived → (q < n)%nat ∨
    ∃ r, ch.(reorder) !! Z.to_nat (Z.of_nat q mod 64) = Some r ∧ nz r.(r_valid) = true ∧ (q < n + 64)%nat;
  is_order : got ++ inbox m ch `sublist_of` msg <$> seq 0 n
}.

Lemma seq_no_inj q q' : - 65536 < Z.of_nat q - Z.of_nat q' < 65536 → seq_no q = seq_no q' → q = q'.
Proof. unfold seq_no, u16. lia. Qed.

Lemma seq_no_step n j : Z.of_nat j < 65536 → (seq_no (n + j) - seq_no n) mod 65536 = Z.of_nat j.
Proof. intros Hj. unfold seq_no, u16. rewrite <-Zminus_mod. rewrite Z.mod_small; lia. Qed.

(** The slots that are ready continue the stream. *)
Lemma ready_stream fuel n a m rs :
  (∀ i r, rs !! i = Some r → nz r.(r_valid) = true →
    ∃ q, (n < q < n + 64)%nat ∧ r.(r_seq) = seq_no q ∧ reord_data m r = msg q) →
  (n < a <= n + 64)%nat →
  ∃ j, ready fuel m rs (seq_no a) = msg <$> seq a j ∧ (a + j <= n + 64)%nat.
Proof.
  intros Hs. revert a. induction fuel as [|fuel IH]; intros a Ha; [exists 0%nat; split; [done|lia]|].
  cbn [ready]. destruct (rs !! _) as [r|] eqn:Hr; [|exists 0%nat; split; [done|lia]].
  destruct (nz (r_valid r)) eqn:Hv; cbn [andb]; [|exists 0%nat; split; [done|lia]].
  destruct (Z.eqb_spec (r_seq r) (seq_no a)) as [Ea|]; [|exists 0%nat; split; [done|lia]].
  destruct (Hs _ r Hr Hv) as (q & Hq & Eq & Hd). assert (a = q) as -> by (apply seq_no_inj; [lia|congruence]).
  replace (u16 (seq_no q + 1)) with (seq_no (S q)) by (unfold seq_no, u16; lia).
  destruct (IH (S q)) as (j & -> & Hj); [lia|]. exists (S j). unfold reord_data in Hd. rewrite Hd.
  split; [done|lia].
Qed.

(** Slots are indexed by the sequence number. *)
Lemma slot_index ch i r q :
  chan_ok fp ch → ch.(reorder) !! i = Some r → nz r.(r_valid) = true → r.(r_seq) = seq_no q →
  Z.of_nat i = Z.of_nat q mod 64.
Proof.
  intros Hok Hr Hv Hs. destruct (ok_reords _ _ Hok i r Hr) as [[E _]|(_ & _ & _ & _ & Hi)]; [by rewrite E in Hv|].
  rewrite <-Hi, Hs. unfold seq_no, u16. lia.
Qed.

(** The next message arrives. *)
Lemma stream_drained n arrived got ch w ch' w' :
  chan_ok fp ch → chan_ok fp ch' → in_stream n arrived got ch w.(conn).(pool_store) →
  Drained 1 ch w (msg n :: ready 64 w.(conn).(pool_store) ch.(reorder) (u16 (seq_no n + 1))) ch' w' →
  ∃ j, (1 <= j <= 64)%nat ∧ in_stream (n + j) (n :: arrived) got ch' w'.(conn).(pool_store) ∧
    (1 < w.(conn).(pool_free_top) → (∀ q, (length (msg q) <= 2048)%nat) →
     (length (inbox w.(conn).(pool_store) ch) + j <= 63)%nat →
     inbox w'.(conn).(pool_store) ch' = inbox w.(conn).(pool_store) ch ++ (msg <$> seq n j)).
Proof.
  intros Hok Hok' [Hseq Hsl Harr Hord] HD.
  destruct (ready_stream 64 n (S n) w.(conn).(pool_store) ch.(reorder) Hsl ltac:(lia)) as (j & Ej & Hj).
  replace (u16 (seq_no n + 1)) with (seq_no (S n)) in HD by (unfold seq_no, u16; lia). rewrite Ej in HD.
  change (msg n :: (msg <$> seq (S n) j)) with (msg <$> seq n (S j)) in HD.
  assert (Hlen : length (msg <$> seq n (S j)) = S j) by (by rewrite length_fmap, length_seq).
  destruct HD as [_ _ Es Hin _ Hk He Hst Hp]. rewrite Hlen in *. rewrite Hseq in *.
  assert (Es' : ch'.(recv_seq) = seq_no (n + S j)) by (rewrite Es; unfold seq_no, u16; lia).
  exists (S j). split; [lia|]. split; [|].
  - constructor; [done|..].
    + intros i r Hi Hv. destruct (Hk i r Hi Hv) as [Hi0 Hd]. destruct (Hsl i r Hi0 Hv) as (q & Hq & Eq & Hdq).
      exists q. split; [|split; [done|congruence]]. pose proof (slot_index ch' i r q Hok' Hi Hv Eq) as Hix.
      assert (¬ (q <= n + j)%nat).
      { intros Hle. rewrite (He (Z.of_nat (q - n)) r) in Hv; [done|lia|]. rewrite <-Hi. f_equal. unfold seq_no, u16. lia. }
      assert (q ≠ n + S j)%nat; [|lia]. intros ->. apply (Hst r); [|done|congruence].
      rewrite <-Hi. f_equal. rewrite Es'. unfold seq_no, u16. lia.
    + intros q [->|Hq]%elem_of_cons; [left; lia|]. destruct (Harr q Hq) as [|(r & Hr & Hv & Hlt)]; [left; lia|].
      destruct (decide (q < n + S j)%nat); [by left|]. right. exists r. split; [|split; [done|lia]].
      apply Hp; [done|]. intros jj Hjj E. unfold seq_no, u16 in E. lia.
    + destruct Hin as (l & -> & Hsub & _). rewrite seq_app, fmap_app, app_assoc. by apply sublist_app.
  - intros Htop Hsm Hroom. destruct Hin as (l & -> & _ & Hex). f_equal. apply Hex; [lia| |done].
    apply Forall_fmap, Forall_forall. intros q _. apply Hsm.
Qed.

(** Another message arrives, [q] of the stream. *)
Lemma stream_buffered n arrived got ch w q ch' w' :
  chan_ok fp ch → chan_ok fp ch' → in_stream n arrived got ch w.(conn).(pool_store) → q ≠ n →
  Z.of_nat n - 32768 <= Z.of_nat q < Z.of_nat n + 32768 →
  Buffered ch w (seq_no q) (msg q) ch' w' →
  in_stream n arrived got ch' w'.(conn).(pool_store) ∧
  (0 < w.(conn).(pool_free_top) → (length (msg q) <= 2048)%nat → (q < n + 64)%nat →
   in_stream n (q :: arrived) got ch' w'.(conn).(pool_store)) ∧
  inbox w'.(conn).(pool_store) ch' = inbox w.(conn).(pool_store) ch.
Proof.
  intros Hok Hok' [Hseq Hsl Harr Hord] Hne Hq [_ _ Es Hin Hs Hk Hst].
  rewrite Hseq in *. assert (Hd : s16 (seq_no q - seq_no n) = Z.of_nat q - Z.of_nat n).
  { unfold seq_no, s16, u16. rewrite <-Zminus_mod. destruct (Z.ltb_spec ((Z.of_nat q - Z.of_nat n) mod 65536) 32768); lia. }
  assert (Hslots : ∀ i r, ch'.(reorder) !! i = Some r → nz r.(r_valid) = true →
    ∃ q', (n < q' < n + 64)%nat ∧ r.(r_seq) = seq_no q' ∧ reord_data w'.(conn).(pool_store) r = msg q').
  { intros i r Hi Hv. destruct (Hs i r Hi Hv) as [[Hi0 Hd0]|(-> & Eq & Hw & Hdata)].
    - destruct (Hsl i r Hi0 Hv) as (q' & Hq' & Eq' & Hdq'). exists q'. split; [done|]. split; [done|congruence].
    - exists q. split; [rewrite Hd in Hw; lia|]. done. }
  assert (Harr' : ∀ q', q' ∈ arrived → (q' < n)%nat ∨ ∃ r, ch'.(reorder) !! Z.to_nat (Z.of_nat q' mod 64) = Some r ∧
    nz r.(r_valid) = true ∧ (q' < n + 64)%nat).
  { intros q' Hq'. destruct (Harr q' Hq') as [|(r & Hr & Hv & Hlt)]; [by left|]. right. exists r. split; [by apply Hk|done]. }
  split; [|split; [|done]].
  - constructor; [done|done|done|by rewrite Hin].
  - intros Htop Hl Hlt. constructor; [done|done| |by rewrite Hin].
    intros q' [->|Hq']%elem_of_cons; [|auto]. destruct (decide (q < n)%nat); [by left|]. right.
    destruct Hst as (r & Hr & Hv); [rewrite Hd; lia|done|done|]. exists r. split; [|done]. rewrite <-Hr. f_equal.
    unfold seq_no, u16. lia.
Qed.

(** The sequence number that channel [k] expects next. *)
Definition expected (k : Z) (w : world) : Z :=
  match w.(conn).(chan_pool) !! Z.to_nat k with Some ch => ch.(recv_seq) | None => 0 end.

(** The state of the receiving end after packets and reads: [n] messages have
    been accepted in order, as the change of the expected number shows;
    [arrived] are the messages that came within the window of 64 while the pool
    had a buffer; [got] is what the application has read; [room] tells whether
    there was always room for what was ready.  Every packet holds one message
    of the stream, less than 2^15 away from the next one. *)
Inductive stream (id k : Z) : bool → nat → list nat → list (list Z) → world → Prop :=
  | stream_start w ch :
      Inv fp w.(conn) → receiving id k w.(conn) ch → in32 w.(conn).(local_id) → ch.(recv_seq) = 0 →
      inbox w.(conn).(pool_store) ch = [] →
      (∀ i r, ch.(reorder) !! i = Some r → nz r.(r_valid) = false) →
      stream id k true 0 [] [] w
  | stream_packet room n n' arrived got w q num from r w' :
      stream id k room n arrived got w →
      Z.of_nat n - 32768 <= Z.of_nat q < Z.of_nat n + 32768 →
      match from with Some a => addr_ok a | None => True end →
      netchan_feed (packet w.(conn).(local_id) num (data_frame id (seq_no q) 0 1 (msg q))) from w = Some (r, w') →
      n' = (n + Z.to_nat ((expected k w' - expected k w) mod 65536))%nat →
      stream id k (room && (1 <? w.(conn).(pool_free_top)) && (n' - length got <=? 63)%nat) n'
        (if (q <? n + 64)%nat && (0 <? w.(conn).(pool_free_top)) then q :: arrived else arrived) got w'
  | stream_read room n arrived got w buflen len bs w' :
      stream id k room n arrived got w → 2048 <= buflen →
      netchan_chan_read (Some k) buflen w = Some ((len, bs), w') → 0 < len →
      stream id k room n arrived (got ++ [bs]) w'.

Hypothesis Hmsg : ∀ q, Forall in8 (msg q) ∧ (0 < length (msg q) <= 2048)%nat.

Lemma arrived_weaken n a got ch m l : in_stream n a got ch m → (∀ q, q ∈ l → q ∈ a) → in_stream n l got ch m.
Proof. intros [] H. constructor; auto. Qed.

Lemma in_stream_ack n a got ch m : in_stream n a got ch m → in_stream n a got (ack_due ch) m.
Proof. intros []. by constructor. Qed.

Lemma upd_get k ch w : chan_ok fp ch → live w.(conn) k → length w.(conn).(chan_pool) = 16%nat →
  (upd k ch w).(conn).(chan_pool) !! Z.to_nat k = Some ch.
Proof. intros _ [Hk _] Hl. simpl. apply list_lookup_insert_eq. lia. Qed.

(** What [stream] guarantees. *)
Record stream_ok (id k : Z) (room : bool) (n : nat) (arrived : list nat) (got : list (list Z)) (w : world)
    (ch : netchan_chan) : Prop := {
  so_inv : Inv fp w.(conn);
  so_recv : receiving id k w.(conn) ch;
  so_local : in32 w.(conn).(local_id);
  so_stream : in_stream n arrived got ch w.(conn).(pool_store);
  so_exact : room = true → got ++ inbox w.(conn).(pool_store) ch = msg <$> seq 0 n
}.

(** One packet. *)
Lemma stream_packet_ok id k room n n' arrived got w q num from r w' ch :
  stream_ok id k room n arrived got w ch →
  Z.of_nat n - 32768 <= Z.of_nat q < Z.of_nat n + 32768 →
  match from with Some a => addr_ok a | None => True end →
  netchan_feed (packet w.(conn).(local_id) num (data_frame id (seq_no q) 0 1 (msg q))) from w = Some (r, w') →
  n' = (n + Z.to_nat ((expected k w' - expected k w) mod 65536))%nat →
  ∃ ch', stream_ok id k (room && (1 <? w.(conn).(pool_free_top)) && (n' - length got <=? 63)%nat) n'
    (if (q <? n + 64)%nat && (0 <? w.(conn).(pool_free_top)) then q :: arrived else arrived) got w' ch'.
Proof.
  intros [HI Hr Hl Hs Hex] Hq Hfrom Hfeed Hn'. destruct (Hmsg q) as [Hb Hlen].
  pose proof Hr as (Hid & Htab & Hch & Hrole & Hty).
  assert (Hlive : live w.(conn) k) by (by eapply ok_table, Htab; apply Inv_conn).
  assert (Hok : chan_ok fp ch) by (by eapply inv_chans).
  pose proof (wp_feed_message fp id k ch w (seq_no q) (msg q) num from (λ _ w', ∃ ch' w1 w2,
    w' = upd k (ack_due ch') w2 ∧ Opened fp k ch.(ch_id) ch' w2 ∧ w1.(conn).(pool_store) = w.(conn).(pool_store) ∧
    w1.(conn).(pool_free_top) = w.(conn).(pool_free_top) ∧ Accepted ch w1 (seq_no q) (msg q) ch' w2 ∧
    idents w2 = idents w)) as Hwp.
  specialize (Hwp HI Hr ltac:(apply u16_in) Hb ltac:(lia) Hl Hfrom). unfold wp in Hwp. rewrite Hfeed in Hwp.
  destruct Hwp as (ch' & w1 & w2 & -> & HO & Hst & Htop & Hacc & [= Hc2 Hl2]); [by eauto 10|].
  pose proof (ack_due_opened fp k _ ch' w2 HO) as HOa. pose proof HO as (Hok' & _).
  pose proof (Accepted_frame _ _ _ _ _ _ Hacc) as Hfr.
  assert (Hch' : (upd k (ack_due ch') w2).(conn).(chan_pool) !! Z.to_nat k = Some (ack_due ch')).
  { apply upd_get; [apply HOa|by eapply Opened_live|]. apply (ok_chan_pool fp), (Opened_conn _ _ _ _ _ HO). }
  assert (Hexp : expected k (upd k (ack_due ch') w2) - expected k w = ch'.(recv_seq) - ch.(recv_seq)).
  { unfold expected. by rewrite Hch', Hch. }
  rewrite Hexp in Hn'. clear Hexp. exists (ack_due ch').
  assert (Hgoal : ∀ room' arr', in_stream n' arr' got ch' w2.(conn).(pool_store) →
    (room' = true → got ++ inbox w2.(conn).(pool_store) ch' = msg <$> seq 0 n') →
    stream_ok id k room' n' arr' got (upd k (ack_due ch') w2) (ack_due ch')).
  { intros room' arr' Hin Hex'. constructor; [by eapply close_world| | |by apply in_stream_ack|done].
    - split; [done|]. split; [by rewrite <-Htab, <-Hc2|]. split; [done|]. simpl.
      by rewrite (rf_role _ _ Hfr), (rf_type _ _ Hfr).
    - simpl. by rewrite Hl2. }
  unfold Accepted in Hacc. rewrite (is_seq _ _ _ _ _ Hs) in *.
  rewrite <-Hst in Hs, Hex.
  destruct (decide (q = n)) as [->|Hne].
  - rewrite Z.eqb_refl in Hacc.
    destruct (stream_drained n arrived got ch w1 ch' w2 Hok Hok' Hs Hacc) as (j & Hj & Hin & Hinb).
    pose proof (is_seq _ _ _ _ _ Hin) as Es.
    assert (n' = n + j)%nat as -> by (rewrite Hn', Es, seq_no_step by lia; lia).
    apply Hgoal.
    { eapply arrived_weaken; [done|]. intros x Hx. destruct ((n <? n + 64)%nat && _); [done|].
      apply elem_of_cons. by right. }
    intros [[-> Ht%Z.ltb_lt]%andb_prop Hroom%Nat.leb_le]%andb_prop. specialize (Hex eq_refl).
    assert (Hlg : (length got + length (inbox w1.(conn).(pool_store) ch) = n)%nat).
    { rewrite <-length_app, Hex, length_fmap, length_seq. done. }
    rewrite Hinb; [|lia|intros q; apply Hmsg|lia]. rewrite app_assoc, Hex, seq_app, fmap_app. done.
  - assert (Hneq : (seq_no q =? seq_no n) = false).
    { apply Z.eqb_neq. intros E. apply Hne, seq_no_inj; [lia|done]. }
    rewrite Hneq in Hacc.
    destruct (stream_buffered n arrived got ch w1 q ch' w2 Hok Hok' Hs Hne Hq Hacc) as (Hin & Hin' & Hinb).
    pose proof (is_seq _ _ _ _ _ Hin) as Es.
    assert (n' = n) as -> by (rewrite Hn', Es, Z.sub_diag; simpl; lia).
    apply Hgoal.
    + destruct ((q <? n + 64)%nat && (0 <? pool_free_top (conn w))) eqn:E; [|done].
      apply andb_prop in E as [E1%Nat.ltb_lt E2%Z.ltb_lt]. apply Hin'; [lia|lia|done].
    + intros [[-> _]%andb_prop _]%andb_prop. rewrite Hinb. by apply Hex.
Qed.

Lemma inbox_deq_any m n n' ch : inbox m (deq n ch) = inbox m (deq n' ch).
Proof. done. Qed.

Lemma keeps_read k buflen : keeps idents (netchan_chan_read (Some k) buflen).
Proof.
  unfold netchan_chan_read. apply keeps_bind; [apply keeps_ch|intros ?]. destruct (negb _); [apply keeps_ret|].
  destruct (_ =? _); [apply keeps_ret|]. apply keeps_bind; [unfold get_rent; apply keeps_bind; [apply keeps_ch|intros; apply keeps_must]|intros ?].
  cbv zeta. apply keeps_bind; [apply keeps_pool_read|intros ?]. apply keeps_bind; [apply keeps_pool_put|intros ?].
  apply keeps_bind; [apply keeps_put_rent|intros ?]. do 3 (apply keeps_bind; [apply keeps_mod_ch|intros ?]). apply keeps_ret.
Qed.

(** One read. *)
Lemma stream_read_ok id k room n arrived got w buflen len bs w' ch :
  stream_ok id k room n arrived got w ch → 2048 <= buflen →
  netchan_chan_read (Some k) buflen w = Some ((len, bs), w') → 0 < len →
  ∃ ch', stream_ok id k room n arrived (got ++ [bs]) w' ch'.
Proof.
  intros [HI Hr Hl Hs Hex] Hbuf Hread Hlen. pose proof Hr as (Hid & Htab & Hch & Hrole & Hty).
  assert (Hlive : live w.(conn) k) by (by eapply ok_table, Htab; apply Inv_conn).
  destruct (open_world fp k w HI Hlive) as (ch0 & Ew & Hch0 & HO). assert (ch0 = ch) as -> by congruence.
  pose proof HO as (Hok & _). pose proof Hs as [Hs1 Hs2 Hs3 Hs4].
  set (Q := λ (r : Z * list Z) (w' : world), r.1 = 0 ∨ ∃ ch' w2, w' = upd k ch' w2 ∧
    Opened fp k ch.(ch_id) ch' w2 ∧ ch' = deq r.1 ch ∧ w2.(conn).(pool_store) = w.(conn).(pool_store) ∧
    inbox w.(conn).(pool_store) ch = r.2 :: inbox w2.(conn).(pool_store) ch').
  assert (Hwp : wp (netchan_chan_read (Some k) buflen) Q (upd k ch w)).
  { eapply wp_chan_read; [done|done|lia|by left|].
    intros msg0 rest n0 ch' w2 Hin Hn0 HO2 Hdeq _ Hst2 _ Hin2. right. exists ch', w2. split; [done|].
    split; [done|]. split; [done|]. split; [done|]. rewrite Hin, Hin2. f_equal. simpl.
    rewrite take_ge; [done|]. assert (Hle : (length msg0 <= 2048)%nat); [|lia].
    assert (Hel : msg0 ∈ got ++ inbox w.(conn).(pool_store) ch) by (rewrite Hin; apply elem_of_app; right; left).
    apply sublist_submseteq in Hs4. pose proof (elem_of_submseteq _ _ _ Hel Hs4) as Hq.
    apply list_elem_of_fmap in Hq as (q & -> & _). apply Hmsg. }
  rewrite <-Ew in Hwp.
  apply (keeps_wp idents) in Hwp; [|apply keeps_read]. unfold wp in Hwp. rewrite Hread in Hwp. unfold Q in Hwp. simpl in Hwp.
  destruct Hwp as [[->|(ch' & w2 & -> & HO2 & Hdeq & Hst2 & Hin)] [= Hc2 Hl2]]; [lia|].
  pose proof HO2 as (Hok2 & _).
  assert (Hch' : (upd k ch' w2).(conn).(chan_pool) !! Z.to_nat k = Some ch').
  { apply upd_get; [apply HO2|by eapply Opened_live|]. apply (ok_chan_pool fp), (Opened_conn _ _ _ _ _ HO2). }
  exists ch'. constructor; [by eapply close_world| |simpl; by rewrite Hl2|..].
  - split; [done|]. split; [simpl; by rewrite Hc2|]. split; [done|]. by rewrite Hdeq.
  - constructor; [by rewrite Hdeq|..|].
    + intros i r. rewrite Hdeq. simpl. rewrite Hst2. apply Hs2.
    + intros q Hq. rewrite Hdeq. simpl. by apply Hs3.
    + simpl. rewrite <-app_assoc. simpl. by rewrite <-Hin.
  - intros Hroom. rewrite <-app_assoc. simpl. rewrite <-Hin. by apply Hex.
Qed.

Lemma stream_start_ok id k w ch :
  Inv fp w.(conn) → receiving id k w.(conn) ch → in32 w.(conn).(local_id) → ch.(recv_seq) = 0 →
  inbox w.(conn).(pool_store) ch = [] →
  (∀ i r, ch.(reorder) !! i = Some r → nz r.(r_valid) = false) →
  stream_ok id k true 0 [] [] w ch.
Proof.
  intros HI Hr Hl Hs Hin Hre. constructor; [done..| |].
  - constructor; [done|intros i r Hi Hv; rewrite (Hre i r Hi) in Hv; done| |by rewrite Hin].
    intros q Hq. by apply not_elem_of_nil in Hq.
  - intros _. by rewrite Hin.
Qed.

Lemma stream_sound id k room n arrived got w :
  stream id k room n arrived got w → ∃ ch, stream_ok id k room n arrived got w ch.
Proof.
  induction 1 as [w ch HI Hr Hl Hs Hin Hre|room n n' arrived got w q num from r w' _ [ch IH] Hq Hf Hfeed Hn'|
    room n arrived got w buflen len bs w' _ [ch IH] Hb Hread Hlen].
  - exists ch. by apply stream_start_ok.
  - by eapply stream_packet_ok.
  - by eapply stream_read_ok.
Qed.
End Messages.
