(* ===== verification/NcTheorems.v ===== *)
(** * Properties of netchan

    The theorems about src/netchan-v2/demo/netchan.c, over the model of NcOps,
    NcProto and NcApi, with witnesses that run it on concrete connections. *)

From stdpp Require Import gmap.
From S2P Require Import Prelude NcState NcOps NcProto NcApi NcInv NcChan.
From S2P Require Import NcRecv NcFrag NcSafe NcFeed NcSend NcPublic NcQueue.
From S2P Require Import NcReach NcStream.

#[local] Ltac Zify.zify_post_hook ::= Z.to_euclidean_division_equations.

(** ** A connection to run *)

(** A clock that ticks at every reading and a fixed random source. *)
Definition demo_env : nc_env := mk_env (λ n, 1000 + Z.of_nat n) (λ _, Some 77) (λ _, 5).

Definition demo_conn (srv : Z) : netchan_conn := default zero_conn (netchan_open true srv).

Definition demo_world (srv : Z) : world :=
  mk_world (set_cfg netchan_cfg_default (demo_conn srv)) demo_env 0 0 0.

(** The state after a call. *)
Definition after {A} (m : M world A) (w : world) : world :=
  match m w with Some (_, w') => w' | None => w end.

Definition result {A} (m : M world A) (w : world) : option A :=
  match m w with Some (a, _) => Some a | None => None end.

(** The peer opens the reliable channel 0, to send on it. *)
Definition open_frame : list Z := [NC_FRAME_CHANNEL_OPEN; 0; NETCHAN_RELIABLE; NETCHAN_DIR_SEND; 0].

Definition demo_recv : world := after (netchan_feed (packet 0 1 open_frame) None) (demo_world 1).

Lemma demo_cfg_ok : cfg_ok netchan_cfg_default.
Proof. unfold cfg_ok. split; [done|]. vm_compute. done. Qed.

Lemma demo_reachable srv : reachable netchan_cfg_default (demo_world srv).
Proof. by apply (reach_open _ srv). Qed.

Lemma run_after {A} (m : M world A) w : (∃ a, result m w = Some a) → ∃ a, m w = Some (a, after m w).
Proof. unfold result, after. intros [a H]. destruct (m w) as [[x w']|]; [|done]. by eexists. Qed.

Lemma demo_recv_reachable : reachable netchan_cfg_default demo_recv.
Proof.
  eapply (reach_call _ (demo_world 1) (Feed (packet 0 1 open_frame) None)); [apply demo_reachable| |].
  - split; [|done]. apply packet_in. repeat (apply Forall_cons; split); try (by unfold inw).
  - vm_compute. done.
Qed.

(** ** Safety *)



(** C22: a packet built by [netchan_send_next] in a reachable state is a list
    of bytes that fits the buffer of the caller and the configured mtu. *)
Theorem netchan_send_next_bounded v w buflen to :
  cfg_ok v → reachable v w → 0 <= buflen →
  ∃ n bs a w', netchan_send_next buflen to w = Some ((n, bs, a), w') ∧ n = Z.of_nat (length bs) ∧
    Forall in8 bs ∧ n <= buflen ∧ n <= w.(conn).(cfg).(mtu).
Proof.
  intros Hv Hr Hb. pose proof (reachable_inv v w Hv Hr) as HI. pose proof (ok_mtu _ _ (Inv_conn _ _ HI)) as Hm.
  pose proof (netchan_send_next_ok (frag_size v) ltac:(unfold frag_size, cfg_ok in *; lia) buflen to w HI) as Hw.
  apply wp_run in Hw as ([[n bs] a] & w' & E & _ & Hn & Hbs & Hle).
  exists n, bs, a, w'. split; [done|]. split; [done|]. split; [done|]. lia.
Qed.

Lemma netchan_send_next_bounded_witness :
  ∃ n bs a w', netchan_send_next 512 true demo_recv = Some ((n, bs, a), w') ∧ n = Z.of_nat (length bs) ∧
    Forall in8 bs ∧ n <= 512 ∧ n <= demo_recv.(conn).(cfg).(mtu).
Proof.
  apply (netchan_send_next_bounded netchan_cfg_default demo_recv); [apply demo_cfg_ok|apply demo_recv_reachable|lia].
Defined.

(** ** Reliable delivery *)


(** Two messages that arrive in the wrong order. *)
Definition demo_msg (q : nat) : list Z := [u8 (Z.of_nat q); 1; 2].

Definition demo_pkt (q : nat) : list Z :=
  packet 0 (Z.of_nat q) (data_frame 0 (seq_no q) 0 1 (demo_msg q)).

Definition demo_recv1 : world := after (netchan_feed (demo_pkt 1) None) demo_recv.
Definition demo_recv2 : world := after (netchan_feed (demo_pkt 0) None) demo_recv1.
Definition demo_recv3 : world := after (netchan_chan_read (Some 0) 2048) demo_recv2.

Lemma stream_eq fp msg id k room room' n arrived arrived' got w :
  stream fp msg id k room n arrived got w → room = room' → arrived = arrived' →
  stream fp msg id k room' n arrived' got w.
Proof. by intros ? <- <-. Qed.

Lemma demo_stream : stream 1185 demo_msg 0 0 true 2 [0%nat; 1%nat] [demo_msg 0] demo_recv3.
Proof.
  refine (stream_read _ _ _ _ _ _ _ [] demo_recv2 2048 3 _ _ _ _ _ _); [|lia|vm_compute; done|lia].
  eapply stream_eq; [apply (stream_packet _ _ _ _ true 0 2 [1%nat] _ demo_recv1 0 0 None 0 demo_recv2);
    [|lia|done|vm_compute; done|vm_compute; done]|vm_compute; done|vm_compute; done].
  eapply stream_eq; [apply (stream_packet _ _ _ _ true 0 0 [] _ demo_recv 1 1 None 0 demo_recv1);
    [|lia|done|vm_compute; done|vm_compute; done]|vm_compute; done|vm_compute; done].
  eapply (stream_start _ _ _ _ _ (default zero_chan (demo_recv.(conn).(chan_pool) !! 0%nat))).
  - apply (reachable_inv netchan_cfg_default); [apply demo_cfg_ok|apply demo_recv_reachable].
  - split; [by unfold inw|]. split; [vm_compute; done|]. split; [vm_compute; done|]. by vm_compute.
  - by vm_compute.
  - by vm_compute.
  - by vm_compute.
  - intros i r Hr. change (replicate 64 (mk_reord 0 (-1) 0 0) !! i = Some r) in Hr.
    apply lookup_replicate_1 in Hr as [-> _]. done.
Qed.

Lemma demo_msg_ok q : Forall in8 (demo_msg q) ∧ (0 < length (demo_msg q) <= 2048)%nat.
Proof. split; [|simpl; lia]. apply Forall_cons; split; [apply u8_in|]. bytes. Qed.




(** ** The send queue *)

(** Channel [k], identifier [id], of the side that sends. *)
Definition sending (id k : Z) (c : netchan_conn) (ch : netchan_chan) : Prop :=
  in8 id ∧ c.(channels) !! Z.to_nat id = Some (Some k) ∧ c.(chan_pool) !! Z.to_nat k = Some ch ∧
  ch.(ch_role) = 0.

Definition ack_frame (id acked : Z) : list Z := NC_FRAME_ACK :: id :: wr16 acked.

Lemma wp_process_ack fp id k ch w acked (Q : Z → world → Prop) :
  Inv fp w.(conn) → sending id k w.(conn) ch → in16 acked →
  (∀ ch' w', Opened fp k ch.(ch_id) ch' w' → ch'.(outgoing) = ack_out acked <$> ch.(outgoing) →
     send_frame ch ch' → w'.(conn).(pool_store) = w.(conn).(pool_store) → Q 4 (upd k ch' w')) →
  wp (process_ack (ack_frame id acked)) Q w.
Proof.
  intros HI (Hid & Htab & Hch & Hrole) Hack HQ. unfold process_ack.
  change (Z.of_nat (length (ack_frame id acked)) <? 4) with false. cbv iota.
  change (aget (ack_frame id acked) 1) with (Some id). apply wp_bind, wp_some.
  assert (E : rd16 (ack_frame id acked) 2 = Some acked).
  { unfold rd16. simpl. f_equal. rewrite join16. by apply Z.mod_small. }
  rewrite E. apply wp_bind, wp_some, wp_bind. eapply (wp_channel fp); [apply HI|done|congruence|].
  intros k' Hk' Hl. assert (k' = k) as -> by congruence. clear Hk'.
  destruct (open_world fp k w HI Hl) as (ch0 & Ew & Hch0 & HO). assert (ch0 = ch) as -> by congruence.
  pose proof HO as (Hok & _ & t & HC & _). rewrite Ew. eapply wp_bind, wp_get_ch; [done|]. rewrite Hrole. cbv iota. simpl negb.
  apply wp_if; intros E0; [done|clear E0].
  assert (H : wp (mfor (upto NC_OUTGOING_SLOTS) (ack_slot k acked);; advance_head 65 k) (λ _, Q 4) (upd k ch w)).
  { eapply (wp_ack fp k _ acked ch w); [done|]. intros. by apply HQ. }
  revert H. clear. unfold wp, mbind, M_bind.
  destruct (mfor _ _ _) as [[[] s1]|]; [|done]. by destruct (advance_head 65 k s1) as [[[] s2]|].
Qed.

(** C25: an acknowledgement of sequence number [acked] removes from the send
    queue exactly the messages numbered up to [acked] in the cyclic order of 16
    bits; the others stay queued, in order and with their bytes. *)
Theorem ack_releases fp id k ch w acked num from :
  Inv fp w.(conn) → sending id k w.(conn) ch → in16 acked → in32 w.(conn).(local_id) →
  match from with Some a => addr_ok a | None => True end →
  ∃ w', netchan_feed (packet w.(conn).(local_id) num (ack_frame id acked)) from w = Some (NETCHAN_OK, w') ∧
    Inv fp w'.(conn) ∧ ∃ ch', w'.(conn).(chan_pool) !! Z.to_nat k = Some ch' ∧
    outbox w'.(conn).(pool_store) ch' =
      filter (λ x, beyond acked x = true) (outbox w.(conn).(pool_store) ch).
Proof.
  intros HI Hs Hack Hl Hf. pose proof Hs as (Hid & Htab & Hch & Hrole).
  apply (feed_frame fp); [done| |done|done|done|].
  { apply Forall_cons; split; [by unfold inw|]. apply Forall_cons; split; [done|apply wr16_in]. }
  intros w1 HI1 [S1 S2 _ _ _ _] Hst1 _. change (process_frame _ _) with (process_ack (ack_frame id acked)).
  assert (Hlive : live w1.(conn) k) by (eapply ok_table; [apply (Inv_conn _ _ HI1)|by rewrite S1]).
  eapply (wp_process_ack fp id k ch); [done|by split; [|rewrite S1, S2]|done|].
  intros ch' w' HO' Hout Hsf Hst. split; [done|]. split; [by eapply close_world|]. exists ch'. split.
  - apply (upd_get fp); [apply HO'|by eapply Opened_live|]. apply (ok_chan_pool fp), (Opened_conn _ _ _ _ _ HO').
  - simpl. rewrite Hst, Hst1. apply (outbox_ack fp); [|apply HO'|done|apply Hsf].
    apply (inv_chans _ _ HI1 k); [done|by rewrite S2].
Qed.

(** The connected side that sends: channel 0 with two messages written. *)
Definition demo_addr : nc_addr := mk_addr 7 (replicate 20 0).
Definition demo_client : world := after (netchan_connect demo_addr) (demo_world 0).
Definition accept_packet (id : Z) : list Z :=
  packet 77 0 (NC_FRAME_CONNECT_ACCEPT :: wr32 id ++ NC_VERSION :: wr32 30000).
Definition demo_connected : world := after (netchan_feed (accept_packet 88) None) demo_client.

Definition demo_chan : world := after (netchan_chan_open NETCHAN_RELIABLE NETCHAN_DIR_SEND None) demo_connected.

Lemma demo_connected_reachable : reachable netchan_cfg_default demo_connected.
Proof.
  apply (reach_call _ demo_client (Feed (accept_packet 88) None)); [| |vm_compute; done].
  - apply (reach_call _ (demo_world 0) (Connect demo_addr)); [apply demo_reachable| |vm_compute; done].
    by split; [|simpl; lia].
  - split; [|split; [done|vm_compute; done]]. apply packet_in. apply Forall_cons; split; [by unfold inw|].
    apply Forall_app; split; [apply wr32_in|]. apply Forall_cons; split; [by unfold inw|apply wr32_in].
Qed.

Lemma demo_chan_reachable : reachable netchan_cfg_default demo_chan.
Proof.
  apply (reach_call _ demo_connected (ChanOpen NETCHAN_RELIABLE NETCHAN_DIR_SEND None));
    [apply demo_connected_reachable|done|vm_compute; done].
Qed.

Definition demo_sender1 : world := after (netchan_chan_write (Some 0) [1; 2; 3]) demo_chan.
Definition demo_sender : world := after (netchan_chan_write (Some 0) [4; 5]) demo_sender1.

Definition chan0 (w : world) : netchan_chan := default zero_chan (w.(conn).(chan_pool) !! 0%nat).

Lemma demo_sender_reachable : reachable netchan_cfg_default demo_sender.
Proof.
  apply (reach_call _ demo_sender1 (ChanWrite (Some 0) [4; 5])); [| |vm_compute; done].
  - apply (reach_call _ demo_chan (ChanWrite (Some 0) [1; 2; 3])); [apply demo_chan_reachable| |vm_compute; done].
    split; [|bytes]. intros k [= <-]. split; [lia|]. vm_compute. done.
  - split; [|bytes]. intros k [= <-]. split; [lia|]. vm_compute. done.
Qed.

Lemma demo_sender_inv : Inv 1185 demo_sender.(conn).
Proof. apply (reachable_inv netchan_cfg_default); [apply demo_cfg_ok|apply demo_sender_reachable]. Qed.

Lemma ack_releases_witness :
  ∃ w', netchan_feed (packet demo_sender.(conn).(local_id) 9 (ack_frame 0 0)) None demo_sender = Some (NETCHAN_OK, w') ∧
    Inv 1185 w'.(conn) ∧ ∃ ch', w'.(conn).(chan_pool) !! Z.to_nat 0 = Some ch' ∧
    outbox w'.(conn).(pool_store) ch' =
      filter (λ x, beyond 0 x = true) (outbox demo_sender.(conn).(pool_store) (chan0 demo_sender)).
Proof.
  apply (ack_releases 1185 0 0 (chan0 demo_sender) demo_sender 0 9 None); [apply demo_sender_inv| |by unfold inw| |done].
  - split; [by unfold inw|]. split; [by vm_compute|]. split; by vm_compute.
  - by vm_compute.
Defined.

(** C26: [netchan_chan_write] appends the message to the send queue under the
    next sequence number and returns its length, or refuses it, with the reason
    that [refusal] gives, and leaves the queue as it was; a message accepted on
    an open reliable channel fits the window the peer advertised. *)
Theorem write_queues fp k ch w data :
  0 < fp → Inv fp w.(conn) → live w.(conn) k → w.(conn).(chan_pool) !! Z.to_nat k = Some ch → Forall in8 data →
  ∃ r w' ch', netchan_chan_write (Some k) data w = Some (r, w') ∧ Inv fp w'.(conn) ∧
    w'.(conn).(chan_pool) !! Z.to_nat k = Some ch' ∧
    match refusal fp ch w.(conn) (Z.of_nat (length data)) with
    | Some e => r = e ∧ outbox w'.(conn).(pool_store) ch' = outbox w.(conn).(pool_store) ch
    | None => r = Z.of_nat (length data) ∧
        outbox w'.(conn).(pool_store) ch' = outbox w.(conn).(pool_store) ch ++ [(ch.(send_seq), data)] ∧
        ch'.(send_seq) = u16 (ch.(send_seq) + 1) ∧
        (ch.(ch_type) = NETCHAN_RELIABLE → ch.(ch_state) = 1 →
         ch.(bytes_in_flight) + Z.of_nat (length data) <= ch.(send_window))
    end.
Proof.
  intros Hfp HI Hl Hch Hd. destruct (open_world fp k w HI Hl) as (ch0 & Ew & Hch0 & HO).
  assert (ch0 = ch) as -> by congruence.
  assert (Hget : ∀ ch' w', Opened fp k ch.(ch_id) ch' w' → (upd k ch' w').(conn).(chan_pool) !! Z.to_nat k = Some ch').
  { intros ch' w' HO'. apply (upd_get fp); [apply HO'|by eapply Opened_live|].
    apply (ok_chan_pool fp), (Opened_conn _ _ _ _ _ HO'). }
  enough (H : wp (netchan_chan_write (Some k) data) (λ r w', ∃ ch', Inv fp w'.(conn) ∧
    w'.(conn).(chan_pool) !! Z.to_nat k = Some ch' ∧ match refusal fp ch w.(conn) (Z.of_nat (length data)) with
    | Some e => r = e ∧ outbox w'.(conn).(pool_store) ch' = outbox w.(conn).(pool_store) ch
    | None => r = Z.of_nat (length data) ∧
        outbox w'.(conn).(pool_store) ch' = outbox w.(conn).(pool_store) ch ++ [(ch.(send_seq), data)] ∧
        ch'.(send_seq) = u16 (ch.(send_seq) + 1) ∧
        (ch.(ch_type) = NETCHAN_RELIABLE → ch.(ch_state) = 1 →
         ch.(bytes_in_flight) + Z.of_nat (length data) <= ch.(send_window)) end) (upd k ch w)).
  { rewrite <-Ew in H. apply wp_run in H as (r & w' & E & ch' & ?). exists r, w', ch'. split; [done|]. done. }
  eapply wp_chan_write; [done|done|done|..].
  - intros r ch' w' Href HO' _ _ Hout. exists ch'. split; [by eapply close_world|]. split; [by apply Hget|].
    by rewrite Href.
  - intros b o ch' w' Href HO' _ Hpush _ Hout. exists ch'. split; [by eapply close_world|]. split; [by apply Hget|].
    rewrite Href. split; [done|]. split; [done|]. split.
    + rewrite Hpush. by destruct (push_out_fields ch.(send_seq) o ch) as (_ & _ & _ & -> & _).
    + intros Ety Est. unfold refusal in Href. rewrite Ety, Est in Href. simpl in Href.
      repeat (case_match; try done). lia.
Qed.

Lemma write_queues_witness :
  ∃ r w' ch', netchan_chan_write (Some 0) [7; 8] demo_sender = Some (r, w') ∧ Inv 1185 w'.(conn) ∧
    w'.(conn).(chan_pool) !! Z.to_nat 0 = Some ch' ∧
    match refusal 1185 (chan0 demo_sender) demo_sender.(conn) (Z.of_nat (length [7; 8])) with
    | Some e => r = e ∧ outbox w'.(conn).(pool_store) ch' = outbox demo_sender.(conn).(pool_store) (chan0 demo_sender)
    | None => r = Z.of_nat (length [7; 8]) ∧
        outbox w'.(conn).(pool_store) ch' =
          outbox demo_sender.(conn).(pool_store) (chan0 demo_sender) ++ [((chan0 demo_sender).(send_seq), [7; 8])] ∧
        ch'.(send_seq) = u16 ((chan0 demo_sender).(send_seq) + 1) ∧
        ((chan0 demo_sender).(ch_type) = NETCHAN_RELIABLE → (chan0 demo_sender).(ch_state) = 1 →
         (chan0 demo_sender).(bytes_in_flight) + Z.of_nat (length [7; 8]) <= (chan0 demo_sender).(send_window))
    end.
Proof.
  apply (write_queues 1185 0 (chan0 demo_sender) demo_sender [7; 8]); [lia|apply demo_sender_inv| |by vm_compute|bytes].
  split; [lia|]. by vm_compute.
Defined.

(** ** The receive queue *)

(** [netchan_chan_read] on a receiving channel returns 0 and changes
    nothing when no message waits; otherwise it takes the oldest message,
    copies what fits the buffer of the caller and gives its buffer back to the
    pool. *)
Theorem read_dequeues fp k ch w buflen :
  Inv fp w.(conn) → live w.(conn) k → w.(conn).(chan_pool) !! Z.to_nat k = Some ch → ch.(ch_role) = 1 → 0 <= buflen →
  ∃ n bs w' ch', netchan_chan_read (Some k) buflen w = Some ((n, bs), w') ∧ Inv fp w'.(conn) ∧
    w'.(conn).(chan_pool) !! Z.to_nat k = Some ch' ∧
    match inbox w.(conn).(pool_store) ch with
    | [] => n = 0 ∧ bs = [] ∧ w' = w
    | m :: rest => n = Z.min (Z.of_nat (length m)) buflen ∧ bs = take (Z.to_nat n) m ∧
        inbox w'.(conn).(pool_store) ch' = rest ∧
        w'.(conn).(pool_free_top) = w.(conn).(pool_free_top) + 1
    end.
Proof.
  intros HI Hl Hch Hrole Hb. destruct (open_world fp k w HI Hl) as (ch0 & Ew & Hch0 & HO).
  assert (ch0 = ch) as -> by congruence.
  enough (H : wp (netchan_chan_read (Some k) buflen) (λ r w', ∃ ch', Inv fp w'.(conn) ∧
    w'.(conn).(chan_pool) !! Z.to_nat k = Some ch' ∧ match inbox w.(conn).(pool_store) ch with
    | [] => r.1 = 0 ∧ r.2 = [] ∧ w' = w
    | m :: rest => r.1 = Z.min (Z.of_nat (length m)) buflen ∧ r.2 = take (Z.to_nat r.1) m ∧
        inbox w'.(conn).(pool_store) ch' = rest ∧ w'.(conn).(pool_free_top) = w.(conn).(pool_free_top) + 1
    end) (upd k ch w)).
  { rewrite <-Ew in H. apply wp_run in H as ([n bs] & w' & E & ch' & ?). exists n, bs, w', ch'. split; [done|]. done. }
  eapply wp_chan_read; [done|done|done|..].
  - intros ->. exists ch. rewrite <-Ew. done.
  - intros m rest n ch' w' -> Hn HO' _ _ _ Htop Hrest. exists ch'. split; [by eapply close_world|].
    split; [|by split]. apply (upd_get fp); [apply HO'|by eapply Opened_live|].
    apply (ok_chan_pool fp), (Opened_conn _ _ _ _ _ HO').
Qed.

Lemma demo_recv2_inv : Inv 1185 demo_recv2.(conn).
Proof.
  apply (reachable_inv netchan_cfg_default); [apply demo_cfg_ok|].
  assert (Hp : ∀ q, Forall in8 (demo_pkt q)).
  { intros q. apply (packet_in 0 (Z.of_nat q)), data_frame_in; [by split|by split|by split|apply demo_msg_ok]. }
  apply (reach_call _ demo_recv1 (Feed (demo_pkt 0) None)); [|split; [apply Hp|split; [done|vm_compute; done]]|vm_compute; done].
  apply (reach_call _ demo_recv (Feed (demo_pkt 1) None));
    [apply demo_recv_reachable|split; [apply Hp|split; [done|vm_compute; done]]|vm_compute; done].
Qed.

Lemma read_dequeues_witness :
  ∃ n bs w' ch', netchan_chan_read (Some 0) 2 demo_recv2 = Some ((n, bs), w') ∧ Inv 1185 w'.(conn) ∧
    w'.(conn).(chan_pool) !! Z.to_nat 0 = Some ch' ∧
    match inbox demo_recv2.(conn).(pool_store) (chan0 demo_recv2) with
    | [] => n = 0 ∧ bs = [] ∧ w' = demo_recv2
    | m :: rest => n = Z.min (Z.of_nat (length m)) 2 ∧ bs = take (Z.to_nat n) m ∧
        inbox w'.(conn).(pool_store) ch' = rest ∧
        w'.(conn).(pool_free_top) = demo_recv2.(conn).(pool_free_top) + 1
    end.
Proof.
  apply (read_dequeues 1185 0 (chan0 demo_recv2) demo_recv2 2); [apply demo_recv2_inv| |by vm_compute|by vm_compute|lia].
  split; [lia|]. by vm_compute.
Defined.

(** ** The event queue *)

(** The abstract queue: a list of at most 15 events. *)
Inductive ev_op : Type :=
  | Push (e : netchan_event)
  | Pop.

Definition fifo_step (op : ev_op) (q : list netchan_event) : option netchan_event * list netchan_event :=
  match op with
  | Push e => (None, if (length q <? 15)%nat then q ++ [e] else q)
  | Pop => match q with [] => (None, []) | e :: q => (Some e, q) end
  end.

Fixpoint fifo_run (ops : list ev_op) (q : list netchan_event) : list (option netchan_event) :=
  match ops with
  | [] => []
  | op :: ops => let '(r, q') := fifo_step op q in r :: fifo_run ops q'
  end.

(** The same operations on the ring of the connection. *)
Definition ring_step (op : ev_op) : M world (option netchan_event) :=
  match op with
  | Push e => ev_enqueue e;; mret None
  | Pop => r ← netchan_poll (Some zero_event); mret (if r.1 =? 1 then r.2 else None)
  end.

Fixpoint ring_run (ops : list ev_op) : M world (list (option netchan_event)) :=
  match ops with
  | [] => mret []
  | op :: ops => r ← ring_step op; rs ← ring_run ops; mret (r :: rs)
  end.

Definition queued (c : netchan_conn) : list netchan_event :=
  omap (λ i, c.(events) !! Z.to_nat i) (ring 16 c.(ev_head) c.(ev_tail)).

(** The shape of the ring. *)
Definition ring_ok (c : netchan_conn) : Prop :=
  length c.(events) = 16%nat ∧ 0 <= c.(ev_head) < 16 ∧ 0 <= c.(ev_tail) < 16.

Lemma queued_length c : ring_ok c → length (queued c) = Z.to_nat ((c.(ev_tail) - c.(ev_head)) mod 16).
Proof.
  intros (Hl & Hh & Ht). unfold queued. assert (H : ∀ l, (∀ i, i ∈ l → 0 <= i < 16) →
    length (omap (λ i, c.(events) !! Z.to_nat i) l) = length l).
  { induction l as [|i l IH]; intros Hi; [done|]. simpl.
    destruct (lookup_lt_is_Some_2 c.(events) (Z.to_nat i)) as [e ->]; [specialize (Hi i ltac:(left)); lia|].
    simpl. f_equal. apply IH. intros j Hj. apply Hi. by right. }
  rewrite H by (intros i Hi; by eapply ring_range; [by left|]). unfold ring, upto. by rewrite length_fmap, length_seqZ.
Qed.

Lemma enqueue_refines e w :
  ring_ok w.(conn) → wp (ev_enqueue e) (λ _ w', ring_ok w'.(conn) ∧
    queued w'.(conn) = if (length (queued w.(conn)) <? 15)%nat then queued w.(conn) ++ [e] else queued w.(conn)) w.
Proof.
  intros Hr. pose proof (queued_length _ Hr) as Hq. pose proof Hr as (Hl & Hh & Ht).
  unfold ev_enqueue, getc, NC_EVENT_QUEUE. apply wp_bind, wp_gets, wp_if; intros E.
  - apply wp_ret. split; [done|]. destruct (Nat.ltb_spec (length (queued w.(conn))) 15); [lia|done].
  - apply wp_bind. rewrite aset_in by lia. apply wp_some, wp_bind, wp_mod, wp_mod. split.
    { split; [simpl; by rewrite length_insert|]. simpl. lia. }
    destruct (Nat.ltb_spec (length (queued w.(conn))) 15); [|lia]. unfold queued. simpl.
    rewrite ring_snoc by (auto || lia). rewrite omap_app. f_equal.
    + apply omap_ext_in. intros i Hi. pose proof (ring_range 16 _ _ _ ltac:(auto) Hi).
      apply elem_of_ring in Hi; [|auto|done]. rewrite list_lookup_insert_ne; [done|]. unfold in_ring in Hi. lia.
    + simpl. by rewrite list_lookup_insert_eq by lia.
Qed.

Lemma poll_refines w :
  ring_ok w.(conn) → wp (netchan_poll (Some zero_event)) (λ r w', ring_ok w'.(conn) ∧
    match queued w.(conn) with
    | [] => r.1 = 0 ∧ queued w'.(conn) = []
    | e :: q => r = (1, Some e) ∧ queued w'.(conn) = q
    end) w.
Proof.
  intros Hr. pose proof Hr as (Hl & Hh & Ht). unfold netchan_poll, getc, NC_EVENT_QUEUE.
  apply wp_bind, wp_gets, wp_if; intros E; [|].
  - apply wp_ret. split; [done|]. unfold queued. replace (ev_tail (conn w)) with (ev_head (conn w)) by lia.
    by rewrite ring_nil.
  - destruct (aget_in (events (conn w)) (ev_head (conn w))) as (e & Ee & Ee'); [lia|]. rewrite Ee.
    apply wp_bind, wp_bind, wp_some, wp_ret, wp_bind, wp_mod, wp_ret. split.
    { split; [done|]. simpl. lia. }
    unfold queued at 1. rewrite ring_cons by (auto || lia). simpl. rewrite Ee'. done.
Qed.

(** C28: the ring of 16 events refines a first-in first-out queue of capacity
    15 that drops what does not fit: every sequence of pushes and polls gives
    the results of the abstract queue. *)
Theorem event_queue_refines_fifo ops w :
  ring_ok w.(conn) → ∃ w', ring_run ops w = Some (fifo_run ops (queued w.(conn)), w') ∧ ring_ok w'.(conn).
Proof.
  enough (H : ∀ w, ring_ok w.(conn) →
    wp (ring_run ops) (λ rs w', rs = fifo_run ops (queued w.(conn)) ∧ ring_ok w'.(conn)) w).
  { intros Hr. apply H, wp_run in Hr as (rs & w' & E & -> & Hr'). eauto. }
  induction ops as [|op ops IH]; intros w0 Hr; [by apply wp_ret|]. cbn [ring_run fifo_run].
  assert (Hstep : wp (ring_step op) (λ r w', ring_ok w'.(conn) ∧ fifo_step op (queued w0.(conn)) = (r, queued w'.(conn))) w0).
  { destruct op as [e|]; simpl; apply wp_bind.
    - eapply wp_mono; [by apply enqueue_refines|]. intros [] w1 [Hr1 Hq1]. apply wp_ret. by rewrite Hq1.
    - eapply wp_mono; [by apply poll_refines|]. intros [r ev] w1 [Hr1 Hq1]. apply wp_ret. split; [done|].
      destruct (queued w0.(conn)) as [|e q]; destruct Hq1 as [Hr2 Hq1]; simpl in *; by simplify_eq; rewrite ?Hq1. }
  apply wp_bind. eapply wp_mono; [exact Hstep|]. intros r w1 [Hr1 ->]. apply wp_bind.
  eapply wp_mono; [by apply IH|]. intros rs w2 [-> Hr2]. by apply wp_ret.
Qed.

Lemma event_queue_refines_fifo_witness :
  ∃ w', ring_run [Push zero_event; Pop; Pop] (demo_world 0) =
    Some (fifo_run [Push zero_event; Pop; Pop] (queued (demo_world 0).(conn)), w') ∧ ring_ok w'.(conn).
Proof. apply (event_queue_refines_fifo _ (demo_world 0)). split; [done|]. simpl. lia. Defined.
