(* ===== verification/NcTimers.v ===== *)
(** * Retransmission

    The retransmission timer of netchan: a message that stays unacknowledged is
    sent again at most four times and then closes its channel. *)

From stdpp Require Import gmap.
From S2P Require Import Prelude NcState NcOps NcProto NcApi NcInv NcChan.
From S2P Require Import NcRecv NcFrag NcSafe NcFeed NcSend NcPublic NcQueue.
From S2P Require Import NcReach NcStream NcTheorems.

#[local] Ltac Zify.zify_post_hook ::= Z.to_euclidean_division_equations.

(** ** Giving up *)

(** Slot [j] holds a message sent [a] times that is overdue at [now]. *)
Definition overdue (now j a : Z) (ch : netchan_chan) : Prop :=
  ∃ o, ch.(outgoing) !! Z.to_nat j = Some o ∧ nz o.(o_active) = true ∧ o.(o_sent_ms) ≠ 0 ∧
    o.(o_attempts) = a ∧ 1000 <= u32 (now - o.(o_sent_ms)).

(** It has been sent once more at [now]. *)
Definition retried (now j a : Z) (ch : netchan_chan) : Prop :=
  ∃ o, ch.(outgoing) !! Z.to_nat j = Some o ∧ nz o.(o_active) = true ∧ o.(o_sent_ms) = now ∧ o.(o_attempts) = a + 1.

Definition same_kind (ch ch' : netchan_chan) : Prop :=
  ch'.(ch_role) = ch.(ch_role) ∧ ch'.(ch_type) = ch.(ch_type) ∧ ch'.(ch_id) = ch.(ch_id).

(** The channel is given up, or the message has been sent again. *)
Definition served (now j a : Z) (ch : netchan_chan) : Prop :=
  ch.(ch_state) = 3 ∨ (1 <= a < 5 ∧ retried now j a ch).

Section Timers.
Context (fp : Z).

Lemma overdue_due c now j a ch o :
  overdue now j a ch → ch.(outgoing) !! Z.to_nat j = Some o → due c now o ∧ o.(o_attempts) = a.
Proof.
  intros (o' & Ho' & Ha & Hs & Hat & Hel) Ho. assert (o' = o) as -> by congruence.
  split; [|done]. split; [done|]. split; [done|]. unfold rt_timeout, NC_MAX_RT_MS. lia.
Qed.

Lemma service_loop_ok k idk now j a n i next ch0 ch w (Q : Z → world → Prop) :
  Opened fp k idk ch w → 0 <= i → i + Z.of_nat n = 64 → 0 <= j < 64 → same_kind ch0 ch →
  ch.(ch_state) = 3 ∨ (if i <=? j then overdue now j a ch else 1 <= a < 5 ∧ retried now j a ch) →
  (∀ r ch' w', Opened fp k idk ch' w' → same_kind ch0 ch' → served now j a ch' → Q r (upd k ch' w')) →
  wp (mloop (seqZ i (Z.of_nat n)) (service_slot now k) next) Q (upd k ch w).
Proof.
  revert i next ch w. induction n as [|n IH]; intros i next ch w HO Hi Hin Hj Hk Hst HQ.
  { apply wp_ret, HQ; [done|done|]. destruct (Z.leb_spec i j); [lia|exact Hst]. }
  rewrite seqZ_cons by lia. replace (Z.pred (Z.of_nat (S n))) with (Z.of_nat n) by lia. cbn [mloop].
  pose proof HO as (Hok & _). pose proof (ok_outgoing _ _ Hok) as Hl.
  destruct (lookup_lt_is_Some_2 ch.(outgoing) (Z.to_nat i)) as [o Ho]; [lia|].
  apply wp_bind. eapply (wp_service_slot fp k idk); [done|lia|done|..].
  - intros m Hnd. apply (IH (Z.succ i)); [done|lia|lia|done|done| |done].
    destruct Hst as [|Hst]; [by left|right]. destruct (Z.leb_spec i j), (Z.leb_spec (Z.succ i) j); try lia; try done.
    assert (i = j) as -> by lia. by destruct (overdue_due w.(conn) _ _ _ _ _ Hst Ho).
  - intros m w' Hd Hat HO'. apply wp_ret, HQ; [done|by destruct Hk as (? & ? & ?)|by left].
  - intros m Hd Hat HO'. apply (IH (Z.succ i)); [done|lia|lia|done|by destruct Hk as (? & ? & ?)| |done].
    destruct Hst as [|Hst]; [by left|right]. destruct (Z.leb_spec i j), (Z.leb_spec (Z.succ i) j); try lia.
    + destruct Hst as (o' & Ho' & H'). exists o'. split; [|done]. simpl. by rewrite list_lookup_insert_ne by lia.
    + assert (i = j) as -> by lia. destruct (overdue_due w.(conn) _ _ _ _ _ Hst Ho) as [(Ha & _) <-].
      split; [done|]. exists (resent now o). simpl. rewrite list_lookup_insert_eq by lia. split; [done|].
      split; [done|]. split; [done|]. unfold u8. lia.
    + destruct Hst as [? (o' & Ho' & H')]. split; [done|]. exists o'. split; [|done]. simpl.
      by rewrite list_lookup_insert_ne by lia.
Qed.

Lemma keeps_service_chan now i next : keeps idents (service_chan now i next).
Proof.
  assert (Hslot : ∀ k j n, keeps idents (service_slot now k j n)).
  { intros k j n. unfold service_slot. apply keeps_bind; [apply keeps_getc|intros c].
    apply keeps_bind; [unfold get_out; apply keeps_bind; [apply keeps_ch|intros; apply keeps_must]|intros o].
    destruct (_ || _); [apply keeps_ret|]. destruct (negb _); [apply keeps_ub|]. cbv zeta.
    destruct (_ <=? _); [|apply keeps_ret]. destruct (_ <=? _).
    - apply keeps_bind; [apply keeps_mod_ch|intros _]. apply keeps_bind; [apply keeps_ev_push|intros _]. apply keeps_ret.
    - apply keeps_bind; [|intros _; apply keeps_bind; [apply keeps_mod_ch|intros _; apply keeps_ret]].
      unfold put_out. apply keeps_bind; [apply keeps_ch|intros ch]. apply keeps_bind; [apply keeps_must|intros l].
      apply keeps_put_ch. }
  assert (Hloop : ∀ l k n, keeps idents (mloop l (service_slot now k) n)).
  { induction l as [|j l IH]; intros k n; [apply keeps_ret|]. cbn [mloop]. apply keeps_bind; [apply Hslot|].
    intros [r|r]; [apply IH|apply keeps_ret]. }
  unfold service_chan. apply keeps_bind; [apply keeps_bind; [apply keeps_getc|intros; apply keeps_must]|].
  intros [k|]; [|apply keeps_ret]. apply keeps_bind; [apply keeps_ch|intros ch]. destruct (_ || _); [apply keeps_ret|].
  apply keeps_bind; [apply Hloop|intros; apply keeps_ret].
Qed.

Lemma service_chan_served id k ch w now j a next :
  Inv fp w.(conn) → sending id k w.(conn) ch → ch.(ch_type) = NETCHAN_RELIABLE → 0 <= j < 64 →
  ch.(ch_state) = 3 ∨ overdue now j a ch →
  wp (service_chan now id next) (λ _ w', Inv fp w'.(conn) ∧ ∃ ch', sending id k w'.(conn) ch' ∧
    ch'.(ch_type) = NETCHAN_RELIABLE ∧ served now j a ch') w.
Proof.
  intros HI Hs Hty Hj Hst. pose proof Hs as (Hid & Htab & Hch & Hrole).
  assert (Hlive : live w.(conn) k) by (by eapply ok_table, Htab; apply Inv_conn).
  destruct (open_world fp k w HI Hlive) as (ch0 & Ew & Hch0 & HO). assert (ch0 = ch) as -> by congruence.
  pose proof HO as (Hok & _ & t & HC & _).
  assert (H : wp (service_chan now id next) (λ _ s, ∃ ch' w', s = upd k ch' w' ∧ Opened fp k ch.(ch_id) ch' w' ∧
    same_kind ch ch' ∧ served now j a ch') w).
  { unfold service_chan. apply wp_bind. eapply (wp_channel fp); [apply HI|done|congruence|].
    intros k' Hk' _. assert (k' = k) as -> by congruence. rewrite Ew. eapply wp_bind, wp_get_ch; [done|].
    rewrite Hrole, Hty. apply wp_if; intros E; [done|clear E]. apply wp_bind.
    apply (service_loop_ok k ch.(ch_id) now j a 64 0 next ch); [done|lia|lia|done|done| |].
    - destruct Hst; [by left|right]. by destruct (Z.leb_spec 0 j); [|lia].
    - intros r ch' w' HO' Hk2 Hs'. apply wp_ret. eauto 10. }
  apply (keeps_wp idents) in H; [|apply keeps_service_chan]. eapply wp_mono; [exact H|].
  intros _ s [(ch' & w' & -> & HO' & (Hr' & Ht' & _) & Hs') [= Hc2 _]]. split; [by eapply close_world|].
  exists ch'. split; [|split; [congruence|done]]. split; [done|]. split; [simpl; by rewrite Hc2|]. split; [|congruence].
  apply (upd_get fp); [apply HO'|by eapply Opened_live|]. apply (ok_chan_pool fp), (Opened_conn _ _ _ _ _ HO').
Qed.

(** The timer of channel [id] at the times [ts]. *)
Fixpoint service_times (id : Z) (ts : list Z) : M world unit :=
  match ts with
  | [] => mret tt
  | now :: ts => _ ← service_chan now id (-1); service_times id ts
  end.

(** Times at least a second apart (of the 32-bit clock), none of them 0, which
    marks a message that was not sent. *)
Fixpoint spaced (last : Z) (ts : list Z) : Prop :=
  match ts with
  | [] => True
  | now :: ts => 1000 <= u32 (now - last) ∧ now ≠ 0 ∧ spaced now ts
  end.

Lemma service_times_closes id k j ts : ∀ a last ch w,
  Inv fp w.(conn) → sending id k w.(conn) ch → ch.(ch_type) = NETCHAN_RELIABLE → 0 <= j < 64 →
  5 < a + Z.of_nat (length ts) → spaced last ts →
  ch.(ch_state) = 3 ∨ (1 <= a <= 5 ∧ ∃ o, ch.(outgoing) !! Z.to_nat j = Some o ∧ nz o.(o_active) = true ∧
    o.(o_sent_ms) = last ∧ last ≠ 0 ∧ o.(o_attempts) = a) →
  wp (service_times id ts) (λ _ w', Inv fp w'.(conn) ∧ ∃ ch', sending id k w'.(conn) ch' ∧ ch'.(ch_state) = 3) w.
Proof.
  induction ts as [|now ts IH]; intros a last ch w HI Hs Hty Hj Hlen Hsp Hst.
  { apply wp_ret. split; [done|]. exists ch. split; [done|]. destruct Hst as [|[? _]]; [done|simpl in Hlen; lia]. }
  destruct Hsp as (Hel & Hnow & Hsp). cbn [service_times]. apply wp_bind.
  eapply wp_mono; [eapply (service_chan_served id k ch w now j a); [done|done|done|done|]|].
  { destruct Hst as [|(Ha & o & Ho & Hac & Hsm & Hl0 & Hat)]; [by left|right]. exists o. rewrite Hsm. by split_and!. }
  intros _ w' (HI' & ch' & Hs' & Hty' & Hsv). eapply (IH (a + 1) now ch'); [done|done|done|done| |done|].
  - cbn [length] in Hlen. lia.
  - destruct Hsv as [|(Ha & o & Ho & Hac & Hsm & Hat)]; [by left|right]. split; [lia|]. by exists o.
Qed.
End Timers.
