(* ===== verification/NcLimits.v ===== *)
(** * netchan at its limits

    Runs of both ends of a connection, on the model, on inputs at the limits of
    the protocol: an acknowledgement sent before anything was received in
    order, fragments that are longer than expected or repeated, messages that
    need too many fragments, and the timer of a channel that was given up. *)

From stdpp Require Import gmap.
From S2P Require Import Prelude NcState NcOps NcProto NcApi NcInv NcChan.
From S2P Require Import NcRecv NcFrag NcSafe NcFeed NcSend NcPublic NcQueue.
From S2P Require Import NcReach NcStream NcTheorems NcTimers.

#[local] Ltac Zify.zify_post_hook ::= Z.to_euclidean_division_equations.

(** ** Running two ends *)

Definition next (cl : call) (w : world) : world := after (run_call cl) w.

(** The packet an end has to send, and the end after it is sent or received. *)
Definition pkt_of (w : world) : list Z :=
  match result (netchan_send_next 1500 false) w with Some (_, bs, _) => bs | None => [] end.
Definition sent (w : world) : world := next (SendNext 1500 false) w.
Definition fed (p : list Z) (w : world) : world := next (Feed p None) w.

Definition bytesb (p : list Z) : bool := forallb (λ b, (0 <=? b) && (b <? 256)) p.

Lemma bytesb_ok p : bytesb p = true → Forall in8 p.
Proof.
  unfold bytesb. rewrite forallb_forall. intros H. apply Forall_forall. intros x Hx%list_elem_of_In.
  specialize (H x Hx). unfold inw. lia.
Qed.

Lemma reachable_next v w cl : cfg_ok v → reachable v w → allowed w cl → reachable v (next cl w).
Proof.
  intros Hv Hr Ha. eapply reach_call; [exact Hr|exact Ha|]. unfold next.
  pose proof (run_call_ok (frag_size v) cl w ltac:(unfold frag_size, cfg_ok in *; lia) (reachable_inv v w Hv Hr) Ha) as H.
  apply wp_run in H as ([] & w' & E & _). unfold after. by rewrite E.
Qed.

Lemma reachable_sent v w : cfg_ok v → reachable v w → reachable v (sent w).
Proof. intros. by apply reachable_next. Qed.

Lemma reachable_fed v w p :
  cfg_ok v → reachable v w → bytesb p = true → frames_fit (max_frag_payload w.(conn)) (packet_frames p) = true →
  reachable v (fed p w).
Proof. intros. apply reachable_next; [done|done|]. split; [by apply bytesb_ok|done]. Qed.

(** A client and a server that connect, and a channel from the client. *)
Definition client_hello : world := next (Connect demo_addr) (demo_world 0).
Definition server_hello : world := next Accept (fed (pkt_of client_hello) (demo_world 1)).
Definition client_up : world := fed (pkt_of server_hello) (sent client_hello).
Definition server_up : world := sent server_hello.
Definition client_open : world := next (ChanOpen NETCHAN_RELIABLE NETCHAN_DIR_SEND None) client_up.
Definition server_open : world := fed (pkt_of client_open) server_up.
Definition client_ready : world := fed (pkt_of server_open) (sent client_open).
Definition server_ready : world := sent server_open.

Lemma client_ready_reachable : reachable netchan_cfg_default client_ready.
Proof.
  pose proof demo_cfg_ok as Hv.
  apply reachable_fed; [done| |vm_compute; done|vm_compute; done]. apply reachable_sent; [done|].
  apply reachable_next; [done| |done].
  apply reachable_fed; [done| |vm_compute; done|vm_compute; done]. apply reachable_sent; [done|].
  apply reachable_next; [done|apply demo_reachable|]. by split; [|simpl; lia].
Qed.

(** The client writes two messages and sends both. *)
Definition wrote1 : world := next (ChanWrite (Some 0) [1; 2; 3]) client_ready.
Definition wrote2 : world := next (ChanWrite (Some 0) [4; 5]) wrote1.
Definition sent1 : world := sent wrote2.
Definition sent2 : world := sent sent1.

Lemma sent2_inv : Inv 1185 sent2.(conn).
Proof.
  pose proof demo_cfg_ok as Hv. apply (reachable_inv netchan_cfg_default); [done|].
  do 2 (apply reachable_sent; [done|]).
  apply reachable_next; [done| |].
  - apply reachable_next; [done|apply client_ready_reachable|]. split; [|by apply bytesb_ok].
    intros k [= <-]. split; [lia|]. by vm_compute.
  - split; [|by apply bytesb_ok]. intros k [= <-]. split; [lia|]. by vm_compute.
Qed.

(** ** Giving up *)



(** The timer of the channel [5 + n] seconds after the messages were sent. *)
Definition ticks (ts : list Z) (w : world) : world := foldl (λ w t, next (Service t) w) w ts.

Definition close_events (w : world) : nat :=
  length (filter (λ e, e.(ev_type) = NETCHAN_EV_CHAN_CLOSE) (queued w.(conn))).

(** Once the timer has given up a channel, every further run of
    [netchan_service] reports the same channel closed again: the fifth run
    reports it, and so do the sixth and the seventh. *)
Theorem given_up_channel_reported_again :
  let w5 := ticks [3000; 4000; 5000; 6000; 7000] sent2 in
  (chan0 w5).(ch_state) = 3 ∧ close_events w5 = 1%nat ∧ close_events (ticks [7001] w5) = 2%nat ∧
  close_events (ticks [7001; 7002] w5) = 3%nat.
Proof. by vm_compute. Qed.

(** ** Acknowledgements *)

(** The packet with the second message arrives, the one with the first is lost. *)
Definition server_second : world := fed (pkt_of sent1) server_ready.
Definition client_acked : world := fed (pkt_of server_second) sent2.

(** An acknowledgement for message 0 is sent although message 0 was never
    received: when message 1 arrives first, the receiver, which still expects
    number 0, acknowledges number 0, and the sender drops message 0 from its
    send queue; neither end holds it any more and the receiver waits for it. *)
Theorem early_ack_loses_message :
  outbox sent2.(conn).(pool_store) (chan0 sent2) = [(0, [1; 2; 3]); (1, [4; 5])] ∧
  pkt_of server_second = packet 77 2 (ack_frame 0 0) ∧
  inbox server_second.(conn).(pool_store) (chan0 server_second) = [] ∧
  (chan0 server_second).(recv_seq) = 0 ∧
  outbox client_acked.(conn).(pool_store) (chan0 client_acked) = [(1, [4; 5])].
Proof. by vm_compute. Qed.

(** ** Fragments *)

(** A fragment for the server, whose identifier is 0 before the handshake. *)
Definition frag_packet (seq idx total : Z) (data : list Z) : list Z :=
  packet 0 0 (data_frame 0 seq idx total data).


(** Four messages of two fragments each, and one fragment of each of them
    again, as after a retransmission. *)
Definition two_frags (seq : Z) (w : world) : world :=
  fed (frag_packet seq 1 2 [3; 4]) (fed (frag_packet seq 0 2 [1; 2]) w).
Definition four_messages : world := two_frags 3 (two_frags 2 (two_frags 1 (two_frags 0 demo_recv))).
Definition four_repeats : world := foldl (λ w s, fed (frag_packet s 0 2 [1; 2]) w) four_messages [0; 1; 2; 3].

(** A repeated fragment of a message that was already delivered occupies
    a reassembly slot that nothing frees: four of them, and no fragmented
    message is ever put together again on this channel, while without them the
    fifth message is delivered. *)
Theorem repeated_fragments_block_reassembly :
  inbox four_messages.(conn).(pool_store) (chan0 four_messages) = replicate 4 [1; 2; 3; 4] ∧
  (chan0 (two_frags 4 four_messages)).(recv_seq) = 5 ∧
  (λ f, (f.(f_active), f.(f_seq))) <$> (chan0 four_repeats).(frags) = [(1, 0); (1, 1); (1, 2); (1, 3)] ∧
  (chan0 (two_frags 4 four_repeats)).(recv_seq) = 4 ∧
  (chan0 (two_frags 4 (two_frags 4 four_repeats))).(recv_seq) = 4 ∧
  (chan0 (two_frags 4 four_repeats)).(frags) = (chan0 four_repeats).(frags).
Proof. by vm_compute. Qed.

(** A client with packets of 64 bytes, so that a message of 1600 bytes needs 33
    fragments. *)
Definition small_packets (w : world) : world :=
  after (netchan_config (mk_cfg 64 65536 30000 100)) w.

Definition refused_write : world := next (ChanWrite (Some 0) (replicate 1600 1)) (small_packets client_ready).
Definition later_write : world := next (ChanWrite (Some 0) [9]) refused_write.

(** A message refused because it needs more than 32 fragments still uses
    up a sequence number; the next message that is accepted carries number 1
    and the receiver, which waits for number 0, does not deliver it. *)
Theorem refused_message_leaves_gap :
  result (netchan_chan_write (Some 0) (replicate 1600 1)) (small_packets client_ready) = Some NETCHAN_ERR_TOOBIG ∧
  outbox refused_write.(conn).(pool_store) (chan0 refused_write) = [] ∧
  outbox later_write.(conn).(pool_store) (chan0 later_write) = [(1, [9])] ∧
  inbox (fed (pkt_of later_write) server_ready).(conn).(pool_store) (chan0 (fed (pkt_of later_write) server_ready)) = [].
Proof. by vm_compute. Qed.
