(* ===== verification/NcReassembly.v ===== *)
(** * Reassembly of fragmented messages

    A message that does not fit a packet travels in fragments.  Whatever the
    order in which they arrive, and even if some arrive several times, the
    message that the receiver queues once the last one is there is the message
    that was sent. *)

From stdpp Require Import gmap.
From S2P Require Import Prelude NcState NcOps NcProto NcApi NcInv NcChan.
From S2P Require Import NcRecv NcFrag NcSafe NcFeed NcSend NcPublic NcQueue.
From S2P Require Import NcReach NcStream NcTheorems NcLimits.

#[local] Ltac Zify.zify_post_hook ::= Z.to_euclidean_division_equations.

(** Fragment [i] of a message. *)
Definition chunk (fp : Z) (data : list Z) (i : Z) : list Z :=
  take (Z.to_nat fp) (drop (Z.to_nat (i * fp)) data).

(** A message that takes [total] fragments of [fp] bytes, the last one shorter. *)
Definition splits (fp total : Z) (data : list Z) : Prop :=
  0 < fp ∧ 2 <= total <= 32 ∧ (total - 1) * fp < Z.of_nat (length data) <= total * fp ∧
  Z.of_nat (length data) <= 2048 ∧ Forall in8 data.

Lemma chunk_length fp data i : 0 <= i → 0 <= fp →
  Z.of_nat (length (chunk fp data i)) = Z.max 0 (Z.min fp (Z.of_nat (length data) - i * fp)).
Proof. intros. unfold chunk. rewrite length_take, length_drop. nia. Qed.

Lemma concat_chunks fp data n :
  0 < fp → 0 <= n → concat (chunk fp data <$> upto n) = take (Z.to_nat (n * fp)) data.
Proof.
  intros Hf Hn. pattern n. apply natlike_ind; [done| |done]. intros x Hx IH.
  rewrite <-Z.add_1_r, upto_S, fmap_app, concat_app by done. rewrite IH. simpl. rewrite app_nil_r. unfold chunk.
  replace (Z.to_nat ((x + 1) * fp)) with (Z.to_nat (x * fp) + Z.to_nat fp)%nat by nia.
  by rewrite take_take_drop.
Qed.

Lemma chunks_whole fp total data : splits fp total data → concat (chunk fp data <$> upto total) = data.
Proof. intros (Hf & Ht & Hl & _). rewrite concat_chunks by lia. apply take_ge. lia. Qed.

Lemma chunk_fits fp total data i : splits fp total data → 0 <= i < total →
  0 < Z.of_nat (length (chunk fp data i)) <= fp ∧ i * fp + Z.of_nat (length (chunk fp data i)) <= 2048 ∧
  Forall in8 (chunk fp data i).
Proof.
  intros (Hf & Ht & Hl & Hm & Hd) Hi. rewrite chunk_length by lia. split; [nia|]. split; [nia|].
  by apply Forall_take, Forall_drop.
Qed.

Lemma find_frag_None i0 seq fs i f :
  find_frag i0 seq fs = None → fs !! i = Some f → nz f.(f_active) = true → f.(f_seq) ≠ seq.
Proof.
  revert i0 i. induction fs as [|g fs IH]; intros i0 i H Hf Ha; [done|]. simpl in H.
  destruct (nz (f_active g) && (f_seq g =? seq)) eqn:E; [done|].
  destruct i as [|i]; [|by eapply IH]. simplify_eq/=. rewrite Ha in E. simpl in E. lia.
Qed.

Section Reassembly.
Context (fp seq total : Z) (data : list Z).
Hypothesis Hsplit : splits fp total data.

(** Slot [i] holds the fragments [S] and no others, and is the only slot of the
    message. *)
Definition gathered (S : list Z) (ch : netchan_chan) (m : gmap Z Z) : Prop :=
  ∃ i f, ch.(frags) !! i = Some f ∧ f.(f_active) = 1 ∧ f.(f_seq) = seq ∧ f.(f_total) = total ∧
    (∀ j, 0 <= j < 32 → Z.testbit f.(f_bitmask) j = true ↔ j ∈ S) ∧
    (∀ j, j ∈ S → 0 <= j < total ∧ piece fp m f.(f_buf) f.(f_offsets) j = chunk fp data j) ∧
    (∀ i' f', ch.(frags) !! i' = Some f' → nz f'.(f_active) = true → f'.(f_seq) = seq → i' = i).

(** What has been gathered of the message; nothing yet if [S] is empty. *)
Definition gathering (S : list Z) (ch : netchan_chan) (w : world) : Prop :=
  match S with
  | [] => find_frag 0 seq ch.(frags) = None ∧ first_inactive 0 ch.(frags) ≠ None ∧ 2 <= w.(conn).(pool_free_top)
  | _ => gathered S ch w.(conn).(pool_store) ∧ 1 <= w.(conn).(pool_free_top)
  end.

(** The slot that [frag_store] uses is the one of the message. *)
Lemma slot_found S ch w i f ch1 w1 :
  gathering S ch w → Slot ch w seq total i f ch1 w1 →
  (S = [] ∧ (∃ b f0, ch1 = with_frag i (fresh_frag seq total b) ch ∧ f = fresh_frag seq total b ∧
     ch.(frags) !! Z.to_nat i = Some f0 ∧ f0.(f_active) = 0 ∧ find_frag 0 seq ch.(frags) = None ∧
     w1.(conn).(pool_free_top) = w.(conn).(pool_free_top) - 1)) ∨
  (S ≠ [] ∧ ch1 = ch ∧ w1 = w ∧ ch.(frags) !! Z.to_nat i = Some f ∧
   gathered S ch w.(conn).(pool_store) ∧ 1 <= w.(conn).(pool_free_top)).
Proof.
  intros HG (Hi & Hf & Ha & Hs & _ & _ & [[-> ->]|(b & f0 & -> & Hf0 & Ha0 & -> & _ & Hnone & Htop)]).
  - right. destruct S as [|j S]; [|done].
    destruct HG as (Hnone & _). exfalso. apply (find_frag_None _ _ _ _ _ Hnone Hf); [by rewrite Ha|done].
  - left. destruct S as [|j S]; [split; [done|]; by exists b, f0|].
    destruct HG as ((i' & f' & Hf' & Ha' & Hs' & _) & _). exfalso.
    apply (find_frag_None _ _ _ _ _ Hnone Hf'); [by rewrite Ha'|done].
Qed.

(** The slot of the message, when there is one. *)
Lemma slot_unique S ch m i f :
  gathered S ch m → ch.(frags) !! Z.to_nat i = Some f → f.(f_active) = 1 → f.(f_seq) = seq →
  f.(f_total) = total ∧ (∀ j, 0 <= j < 32 → Z.testbit f.(f_bitmask) j = true ↔ j ∈ S) ∧
  (∀ j, j ∈ S → 0 <= j < total ∧ piece fp m f.(f_buf) f.(f_offsets) j = chunk fp data j) ∧
  (∀ i' f', ch.(frags) !! i' = Some f' → nz f'.(f_active) = true → f'.(f_seq) = seq → i' = Z.to_nat i).
Proof.
  intros (i' & f' & Hf' & Ha' & Hs' & Ht' & Hb' & Hp' & Hu') Hf Ha Hs.
  assert (Z.to_nat i = i') as <- by (by apply (Hu' _ f); [|rewrite Ha|]).
  assert (f' = f) as -> by congruence. done.
Qed.

(** A new fragment in the slot. *)
Lemma gathered_store S ch i f idx m :
  0 <= idx < total → idx ∉ S → frag_ok fp f ∨ S = [] → ch.(frags) !! Z.to_nat i = Some f →
  f.(f_active) = 1 → f.(f_seq) = seq → f.(f_total) = total → length f.(f_offsets) = 32%nat →
  (∀ j, 0 <= j < 32 → Z.testbit f.(f_bitmask) j = true ↔ j ∈ S) →
  (∀ j, j ∈ S → 0 <= j < total ∧ piece fp m f.(f_buf) f.(f_offsets) j = chunk fp data j) →
  (∀ i' f', ch.(frags) !! i' = Some f' → nz f'.(f_active) = true → f'.(f_seq) = seq → i' = Z.to_nat i) →
  gathered (idx :: S) (with_frag i (stored_frag idx (Z.of_nat (length (chunk fp data idx))) f) ch)
    (store_write m (pool_ptr f.(f_buf) + idx * fp) (chunk fp data idx)).
Proof.
  intros Hidx Hnin Hfok Hf Ha Hs Ht Hol Hb Hp Hu. pose proof Hsplit as (Hfp & Htot & _).
  destruct (chunk_fits fp total data idx Hsplit Hidx) as (Hn & Hoff & _).
  exists (Z.to_nat i), (stored_frag idx (Z.of_nat (length (chunk fp data idx))) f).
  split; [simpl; apply list_lookup_insert_eq; by eapply lookup_lt_Some|].
  split; [done|]. split; [done|]. split; [done|]. split; [|split].
  - intros j Hj. simpl. rewrite lor_one_shift by lia. rewrite orb_true_iff, elem_of_cons, Hb, Z.eqb_eq by done.
    split; [intros [|]; [by right|by left]|intros [->|]; [by right|by left]].
  - intros j [->|Hj]%elem_of_cons.
    + split; [done|]. unfold piece, off_at. simpl. rewrite list_lookup_insert_eq by lia. simpl.
      rewrite Nat2Z.id. apply store_read_write.
    + destruct (Hp j Hj) as [Hjr Hpj]. split; [done|]. rewrite <-Hpj. destruct Hfok as [Hfok| ->]; [|set_solver].
      simpl. rewrite (piece_stored fp m f idx _ j) by (done || lia || (right; apply Hb; [lia|done])).
      unfold pieces_with. destruct (Z.eqb_spec j idx) as [->|]; [done|done].
  - intros i' f' Hf' Ha' Hs'. simpl in Hf'. destruct (decide (Z.to_nat i = i')) as [<-|Hne]; [done|].
    rewrite list_lookup_insert_ne in Hf' by done. by eapply Hu.
Qed.

(** The slot in which [frag_store] puts fragment [idx], and what it holds then. *)
Lemma gathering_store S ch w idx i f ch' m' top :
  chan_ok fp ch → gathering S ch w → 0 <= idx < total → idx ∉ S →
  FragStored fp ch w seq total idx (chunk fp data idx) i f ch' m' top →
  gathered (idx :: S) ch' m' ∧ 1 <= top ∧ f.(f_total) = total ∧
  (∀ j, 0 <= j < 32 → Z.testbit f.(f_bitmask) j = true ↔ j ∈ S) ∧
  (∀ j, j ∈ S → piece fp w.(conn).(pool_store) f.(f_buf) f.(f_offsets) j = chunk fp data j).
Proof.
  intros Hok HG Hidx Hnin (ch1 & w1 & Hslot & -> & Hlt & Hbit & -> & ->).
  pose proof Hslot as (Hi & Hf1 & Ha & Hs & _).
  destruct (slot_found _ _ _ _ _ _ _ HG Hslot) as
    [[-> (b & f0 & -> & -> & Hf0 & Ha0 & Hnone & Htop)]|(Hne & -> & -> & Hf & Hg & Htop)].
  - destruct HG as (_ & _ & H2). simpl in Hf1. pose proof (lookup_lt_Some _ _ _ Hf0) as Hlen.
    assert (Hz : ∀ j, 0 <= j < 32 → Z.testbit (fresh_frag seq total b).(f_bitmask) j = true ↔ j ∈ []).
    { intros j _. simpl. rewrite Z.bits_0. split; [done|]. intros H%not_elem_of_nil. done. }
    split; [|split; [lia|split; [done|split; [done|intros j Hj; set_solver]]]].
    apply gathered_store; try done; [by right|intros j Hj; set_solver|].
    intros i' f' Hf' Ha' Hs'. simpl in Hf'. destruct (decide (Z.to_nat i = i')); [done|].
    rewrite list_lookup_insert_ne in Hf' by done. by destruct (find_frag_None _ _ _ _ _ Hnone Hf' Ha').
  - destruct (slot_unique _ _ _ _ _ Hg Hf Ha Hs) as (Ht & Hb & Hp & Hu).
    pose proof (ok_frs _ _ Hok _ _ Hf) as Hfok.
    assert (Hol : length f.(f_offsets) = 32%nat) by (destruct Hfok as [[? _]|(_ & _ & _ & ? & _)]; [congruence|done]).
    split; [|split; [done|split; [done|split; [done|intros j Hj; by apply Hp]]]].
    apply gathered_store; try done. by left.
Qed.

(** One fragment. *)
Lemma wp_gather k idk ch w S idx rest (Q : option (Z * Z * Z) → world → Prop) :
  Opened fp k idk ch w → gathering S ch w → 0 <= idx < total → Forall in8 rest →
  (∀ ch' w', Opened fp k idk ch' w' → FragFrame ch w ch' w' → idx ∈ S → gathering S ch' w' → Q None (upd k ch' w')) →
  (∀ ch' w' j, Opened fp k idk ch' w' → FragFrame ch w ch' w' → idx ∉ S → 0 <= j < total → j ∉ idx :: S →
     gathering (idx :: S) ch' w' → Q None (upd k ch' w')) →
  (∀ i f ch' w', Opened fp k idk ch' w' → FragFrame ch w ch' w' → idx ∉ S → (∀ j, 0 <= j < total → j ∈ idx :: S) →
     ch'.(frags) !! Z.to_nat i = Some f → f.(f_active) = 1 → buf_ok f.(f_buf) → 0 <= i < 4 →
     1 <= w'.(conn).(pool_free_top) →
     store_read w'.(conn).(pool_store) (pool_ptr f.(f_buf)) (length data) = data →
     Q (Some (i, pool_ptr f.(f_buf), Z.of_nat (length data))) (upd k ch' w')) →
  wp (frag_store k seq idx total (chunk fp data idx ++ rest) (Z.of_nat (length (chunk fp data idx)))) Q (upd k ch w).
Proof.
  intros HO HG Hidx Hrest Hdup Hmore Hlast. pose proof Hsplit as (Hfp & Htot & Hlen & Hmax & Hd).
  destruct (chunk_fits fp total data idx Hsplit Hidx) as (Hn & Hoff & Hin). pose proof HO as (Hok & _).
  eapply (wp_frag_store fp k idk); [done|done|lia|lia|by apply Forall_app|lia|rewrite length_app; lia|..].
  all: rewrite Nat2Z.id, take_app_length.
  - intros ch' w' HO' HF Hcase. destruct (decide (idx ∈ S)) as [HinS|Hnin].
    + apply Hdup; [done..|]. destruct S as [|s0 S0]; [by apply not_elem_of_nil in HinS|].
      assert (Hg := HG). destruct Hg as [Hg Htop].
      destruct Hcase as [(-> & -> & _)|[(i & f & Hslot & _)|(i & f & Hst & _)]]; [done|..].
      * destruct (slot_found _ _ _ _ _ _ _ HG Hslot) as [[? _]|(_ & -> & -> & _)]; [done|done].
      * exfalso. destruct Hst as (ch1 & w1 & Hslot & _ & _ & Hbit & _). pose proof Hslot as (_ & _ & Ha & Hs & _).
        destruct (slot_found _ _ _ _ _ _ _ HG Hslot) as [[? _]|(_ & -> & -> & Hf & _)]; [done|].
        destruct (slot_unique _ _ _ _ _ Hg Hf Ha Hs) as (_ & Hb & _).
        apply (Hb idx) in HinS; [congruence|lia].
    + destruct Hcase as [(-> & -> & Hno)|[(i & f & Hslot & Hwhy)|(i & f & Hst & j & Hj & Hji & Hjb)]].
      * exfalso. destruct Hno as [Hnone Hwhy]. destruct S as [|s0 S0].
        { destruct HG as (_ & ? & ?). destruct Hwhy as [|[|]]; [lia|done|lia]. }
        destruct HG as ((i' & f' & Hf' & Ha' & Hs' & _) & _).
        apply (find_frag_None _ _ _ _ _ Hnone Hf'); [by rewrite Ha'|done].
      * exfalso. pose proof Hslot as (_ & _ & Ha & Hs & _).
        destruct (slot_found _ _ _ _ _ _ _ HG Hslot) as [[-> (b & f0 & _ & -> & _)]|(_ & -> & -> & Hf & Hg & _)].
        -- simpl in Hwhy. rewrite Z.bits_0 in Hwhy. destruct Hwhy as [|[|]]; [lia|done|lia].
        -- destruct (slot_unique _ _ _ _ _ Hg Hf Ha Hs) as (Ht & Hb & _).
           destruct Hwhy as [|[H%Hb|]]; [lia|done|lia|lia].
      * destruct (gathering_store _ _ _ _ _ _ _ _ _ Hok HG Hidx Hnin Hst) as (Hg' & Htop & Ht & Hb & _).
        apply (Hmore ch' w' j); try done; [lia|]. intros [|HjS]%elem_of_cons; [done|]. apply Hb in HjS; [congruence|lia].
  - intros i f ch' w' pos m HO' HF Hst Hbuf Hi Hpos Hread Hall.
    assert (Hnin : idx ∉ S).
    { intros HinS. destruct Hst as (ch1 & w1 & Hslot & _ & _ & Hbit & _). pose proof Hslot as (_ & _ & Ha & Hs & _).
      destruct (slot_found _ _ _ _ _ _ _ HG Hslot) as [[-> _]|(_ & -> & -> & Hf & Hg & _)];
        [by apply not_elem_of_nil in HinS|].
      destruct (slot_unique _ _ _ _ _ Hg Hf Ha Hs) as (_ & Hb & _). apply (Hb idx) in HinS; [congruence|lia]. }
    destruct (gathering_store _ _ _ _ _ _ _ _ _ Hok HG Hidx Hnin Hst) as (_ & Htop & Ht & Hb & Hp).
    destruct (stored_slot fp _ _ _ _ _ _ _ _ _ _ _ Hst) as (Hf1 & Ha1 & Hb1). rewrite Ht in Hread, Hall.
    assert (Hdata : store_read w'.(conn).(pool_store) (pool_ptr f.(f_buf)) (Z.to_nat pos) = data).
    { rewrite Hread. etrans; [|apply (chunks_whole fp total data Hsplit)]. f_equal. apply list_fmap_ext.
      intros p j Hj%list_elem_of_lookup_2%elem_of_seqZ. unfold pieces_with. destruct (Z.eqb_spec j idx) as [->|Hji]; [done|].
      apply Hp. apply Hb; [lia|]. destruct (Hall j); [lia|done|done]. }
    assert (Hpl : pos = Z.of_nat (length data)).
    { pose proof (store_read_length w'.(conn).(pool_store) (pool_ptr f.(f_buf)) (Z.to_nat pos)) as Hl.
      rewrite Hdata in Hl. lia. }
    rewrite Hpl, <-Hb1. apply (Hlast i _ ch' w'); try done; rewrite ?Hb1; try done.
    + intros j Hj. apply elem_of_cons. destruct (Hall j Hj) as [|H]; [by left|right]. apply Hb; [lia|done].
    + by rewrite Hpl, Nat2Z.id in Hdata.
Qed.

(** ** Fragments of an unreliable channel *)

(** A fragment that is not the last one changes nothing that is visible; the
    last one appends the message to the receive queue. *)
Lemma wp_unreliable_gather k idk ch w S idx rest (Q : unit → world → Prop) :
  Opened fp k idk ch w → gathering S ch w → 0 <= idx < total → Forall in8 rest →
  (ch.(rq_tail) + 1) mod 64 ≠ ch.(rq_head) →
  (∀ ch' w' S', Opened fp k idk ch' w' → FragFrame ch w ch' w' → gathering S' ch' w' →
     (∀ j, j ∈ S' ↔ j = idx ∨ j ∈ S) → (∃ j, 0 <= j < total ∧ j ∉ S') ∨ idx ∈ S → Q tt (upd k ch' w')) →
  (∀ ch' w', Opened fp k idk ch' w' → idx ∉ S → (∀ j, 0 <= j < total → j = idx ∨ j ∈ S) →
     ch'.(ch_role) = ch.(ch_role) → ch'.(ch_type) = ch.(ch_type) →
     inbox w'.(conn).(pool_store) ch' = inbox w.(conn).(pool_store) ch ++ [data] → Q tt (upd k ch' w')) →
  wp (unreliable_data k seq idx total (chunk fp data idx ++ rest) (Z.of_nat (length (chunk fp data idx))))
    Q (upd k ch w).
Proof.
  intros HO HG Hidx Hrest Hroom Hmore Hlast. unfold unreliable_data. pose proof Hsplit as (_ & Htot & _ & Hmax & _).
  destruct (Z.leb_spec total 1); [lia|]. apply wp_bind. eapply wp_gather; [done|done|done|done|..].
  - intros ch' w' HO' HF HinS HG'. apply wp_ret. apply (Hmore ch' w' S); try done; [|by right].
    intros j. split; [by right|intros [->|]; done].
  - intros ch' w' j HO' HF Hnin Hj Hjn HG'. apply wp_ret. apply (Hmore ch' w' (idx :: S)); try done.
    + intros j'. by rewrite elem_of_cons.
    + left. by exists j.
  - intros i f ch1 w1 HO1 HF Hnin Hall Hf Ha Hb Hi Htop Hread.
    pose proof HF as ([fr Efr] & _ & Hin & _).
    apply wp_bind. eapply (wp_recv_enqueue fp k idk); [done| |..].
    { split; [lia|]. exists f.(f_buf). split; [done|]. split; [done|]. by eapply frag_owned. }
    { intros r _ Hwhy. exfalso. rewrite Efr in Hwhy. simpl in Hwhy. lia. }
    intros b w2 HO2 _ _ _ _ _ _ Hst2 Hin2. cbn [src_data] in Hin2, Hst2. rewrite Nat2Z.id, Hread in Hin2.
    apply wp_bind. eapply (wp_ev_push fp k idk); [done|intros ? [= <-]; by eapply Opened_live|].
    intros w3 HO3 _ _ Hst3. eapply (wp_frag_free fp k idk); [done|done|exact Hf|done|].
    intros w4 HO4 _ Hst4 _. apply Hlast; [done|done| | | |].
    + intros j Hj. specialize (Hall j Hj). by rewrite elem_of_cons in Hall.
    + by rewrite Efr.
    + by rewrite Efr.
    + rewrite Hst4, Hst3. change (inbox ?m (with_frag _ _ ?c)) with (inbox m c). rewrite Hin2. by rewrite Hin.
Qed.

Lemma keeps_unreliable_data k idx payload n : keeps idents (unreliable_data k seq idx total payload n).
Proof.
  assert (Hgf : ∀ i, keeps idents (get_frag k i)) by (intros; unfold get_frag; keep).
  assert (Hpf : ∀ i f, keeps idents (put_frag k i f)) by (intros; unfold put_frag; keep).
  assert (Hff : ∀ i, keeps idents (frag_free k i)).
  { intros i. unfold frag_free. apply keeps_bind; [apply Hgf|intros f]. apply keeps_bind; [keep|intros _]. apply Hpf. }
  assert (Hfa : keeps idents (frag_alloc k seq total)).
  { unfold frag_alloc. destruct (_ <? _); [keep|]. apply keeps_bind; [keep|intros ch].
    destruct (first_inactive 0 (frags ch)); [|keep]. apply keeps_bind; [keep|intros b]. destruct (_ =? _); [keep|].
    apply keeps_bind; [apply Hpf|intros; keep]. }
  assert (Hfc : ∀ base fp' tot offs, keeps idents (frag_compact base fp' tot offs)).
  { intros base fp' tot offs. unfold frag_compact. generalize 0 as a. induction (upto tot) as [|j l IH]; intros a; [keep|].
    cbn [mloop]. apply keeps_bind; [keep|]. intros [a'|a']; [apply IH|keep]. }
  assert (Hfs : keeps idents (frag_store k seq idx total payload n)).
  { unfold frag_store, frag_find. apply keeps_bind; [keep|intros fo]. apply keeps_bind; [destruct fo; [keep|done]|].
    intros [i|]; [|keep]. apply keeps_bind; [apply Hgf|intros f]. destruct (_ && _); [|keep].
    apply keeps_bind; [keep|intros c]. cbv zeta. destruct (_ <=? _); [|keep]. apply keeps_bind; [keep|intros _].
    apply keeps_bind; [keep|intros offs]. apply keeps_bind; [apply Hpf|intros _]. destruct (_ =? _); [|keep].
    apply keeps_bind; [apply Hfc|intros; keep]. }
  unfold unreliable_data. destruct (_ <=? _); [keep|]. apply keeps_bind; [apply Hfs|].
  intros [[[i base] pos]|]; [|keep]. apply keeps_bind; [keep|intros _]. apply keeps_bind; [keep|intros _]. apply Hff.
Qed.
End Reassembly.

(** ** Packets with fragments *)

Section Packets.
Context (fp id k seq total : Z) (data : list Z).
Hypothesis Hsplit : splits fp total data.
Hypothesis Hseq : in16 seq.

(** An unreliable channel that receives. *)
Definition lossy (c : netchan_conn) (ch : netchan_chan) : Prop :=
  in8 id ∧ c.(channels) !! Z.to_nat id = Some (Some k) ∧ c.(chan_pool) !! Z.to_nat k = Some ch ∧
  ch.(ch_role) = 1 ∧ ch.(ch_type) = NETCHAN_UNRELIABLE.

Definition frag_frame (i : Z) : list Z := data_frame id seq i total (chunk fp data i).

Lemma wp_process_fragment ch w idx (Q : Z → world → Prop) :
  Inv fp w.(conn) → lossy w.(conn) ch → 0 <= idx < total →
  wp (unreliable_data k seq idx total (chunk fp data idx ++ []) (Z.of_nat (length (chunk fp data idx))))
    (λ _, Q (8 + Z.of_nat (length (chunk fp data idx)))) w →
  wp (process_data (frag_frame idx)) Q w.
Proof.
  intros HI (Hid & Htab & Hch & Hrole & Hty) Hidx HQ. pose proof Hsplit as (_ & Htot & _ & Hmax & _).
  destruct (chunk_fits fp total data idx Hsplit Hidx) as (Hn & Hoff & Hin). rewrite app_nil_r in HQ.
  unfold process_data. set (p := frag_frame idx).
  assert (El : Z.of_nat (length p) = 8 + Z.of_nat (length (chunk fp data idx))).
  { unfold p, frag_frame, data_frame. cbn [length app wr16]. lia. }
  rewrite El. apply wp_if; intros E; [lia|clear E].
  change (aget p 1) with (Some id). apply wp_bind, wp_some.
  assert (E2 : rd16 p 2 = Some seq) by (unfold rd16; simpl; f_equal; rewrite join16; by apply Z.mod_small).
  rewrite E2. apply wp_bind, wp_some.
  assert (E4 : rd16 p 4 = Some (Z.of_nat (length (chunk fp data idx)))).
  { unfold rd16; simpl; f_equal; rewrite join16; apply Z.mod_small; pose proof (Z.mul_nonneg_nonneg idx fp); lia. }
  rewrite E4. apply wp_bind, wp_some.
  change (aget p 6) with (Some idx). apply wp_bind, wp_some. change (aget p 7) with (Some total). apply wp_bind, wp_some.
  apply wp_if; intros E; [lia|clear E]. cbv zeta. change (drop 8 p) with (chunk fp data idx).
  apply wp_bind. eapply (wp_channel fp); [apply HI|done|congruence|]. intros k' Hk' Hl.
  assert (k' = k) as -> by congruence.
  destruct (open_world fp k w HI Hl) as (ch0 & Ew & Hch0 & HO). assert (ch0 = ch) as -> by congruence.
  pose proof HO as (_ & _ & t & HC & _). rewrite Ew. eapply wp_bind, wp_get_ch; [done|]. rewrite <-Ew.
  rewrite Hrole, Hty. apply wp_if; intros E; [done|clear E].
  apply wp_if; intros E; [clear E|done]. apply wp_bind. eapply wp_mono; [exact HQ|]. intros [] w' H. by apply wp_ret.
Qed.

(** The fragments [S] have arrived, [ib] waits in the receive queue. *)
Definition collecting (lid : Z) (ib : list (list Z)) (S : list Z) (w : world) : Prop :=
  Inv fp w.(conn) ∧ w.(conn).(local_id) = lid ∧ ∃ ch, lossy w.(conn) ch ∧ gathering fp seq total data S ch w ∧
    inbox w.(conn).(pool_store) ch = ib ∧ (ch.(rq_tail) + 1) mod 64 ≠ ch.(rq_head).

(** The messages [ib] wait in the receive queue. *)
Definition waiting (ib : list (list Z)) (w : world) : Prop :=
  Inv fp w.(conn) ∧ ∃ ch, lossy w.(conn) ch ∧ inbox w.(conn).(pool_store) ch = ib.

Lemma gathering_env S ch w w1 :
  w1.(conn).(pool_store) = w.(conn).(pool_store) → w1.(conn).(pool_free_top) = w.(conn).(pool_free_top) →
  gathering fp seq total data S ch w → gathering fp seq total data S ch w1.
Proof. intros E1 E2. unfold gathering. by rewrite E1, E2. Qed.

Lemma feed_fragment lid ib S w idx num :
  in32 lid → collecting lid ib S w → 0 <= idx < total →
  ∃ w', netchan_feed (packet lid num (frag_frame idx)) None w = Some (NETCHAN_OK, w') ∧
    ((∃ S', collecting lid ib S' w' ∧ (∀ j, j ∈ S' ↔ j = idx ∨ j ∈ S) ∧
        ((∃ j, 0 <= j < total ∧ j ∉ S') ∨ idx ∈ S)) ∨
     (idx ∉ S ∧ (∀ j, 0 <= j < total → j = idx ∨ j ∈ S) ∧ waiting (ib ++ [data]) w')).
Proof.
  intros Hlid (HI & <- & ch & Hr & HG & Hin & Hroom) Hidx. pose proof Hsplit as (_ & Htot & _).
  destruct (chunk_fits fp total data idx Hsplit Hidx) as (Hn & Hoff & Hc).
  apply (feed_frame fp); [done| |done|done|done|].
  { apply data_frame_in; [apply Hr|unfold inw; lia|unfold inw; lia|done]. }
  intros w1 HI1 [S1 S2 _ _ S5 _] Hst1 Hl1. change (process_frame _ _) with (process_data (frag_frame idx)).
  assert (Hr1 : lossy w1.(conn) ch) by (unfold lossy; by rewrite S1, S2).
  eapply (wp_process_fragment ch); [done|done|done|]. pose proof Hr1 as (Hid & Htab & Hch & Hrole & Hty).
  assert (Hlive : live w1.(conn) k) by (eapply ok_table; [apply (Inv_conn _ _ HI1)|done]).
  destruct (open_world fp k w1 HI1 Hlive) as (ch0 & Ew & Hch0 & HO). assert (ch0 = ch) as -> by congruence.
  assert (Hget : ∀ ch' w', Opened fp k ch.(ch_id) ch' w' → idents w' = idents w1 → ch'.(ch_role) = ch.(ch_role) →
    ch'.(ch_type) = ch.(ch_type) → lossy (upd k ch' w').(conn) ch').
  { intros ch' w' HO' [= Hc2 _] Er Et. split; [done|]. split; [simpl; by rewrite Hc2|]. split; [|split; congruence].
    apply (upd_get fp); [apply HO'|by eapply Opened_live|]. apply (ok_chan_pool fp), (Opened_conn _ _ _ _ _ HO'). }
  set (more := λ s, ∃ ch' w' S', s = upd k ch' w' ∧ Opened fp k ch.(ch_id) ch' w' ∧ FragFrame ch w1 ch' w' ∧
    gathering fp seq total data S' ch' w' ∧ (∀ j, j ∈ S' ↔ j = idx ∨ j ∈ S) ∧
    ((∃ j, 0 <= j < total ∧ j ∉ S') ∨ idx ∈ S)).
  set (last := λ s, ∃ ch' w', s = upd k ch' w' ∧ Opened fp k ch.(ch_id) ch' w' ∧ idx ∉ S ∧
    (∀ j, 0 <= j < total → j = idx ∨ j ∈ S) ∧ ch'.(ch_role) = ch.(ch_role) ∧ ch'.(ch_type) = ch.(ch_type) ∧
    inbox w'.(conn).(pool_store) ch' = inbox w1.(conn).(pool_store) ch ++ [data]).
  assert (Hwp : wp (unreliable_data k seq idx total (chunk fp data idx ++ []) (Z.of_nat (length (chunk fp data idx))))
    (λ _ s, more s ∨ last s) (upd k ch w1)).
  { eapply (wp_unreliable_gather fp seq total data Hsplit); [done|by eapply gathering_env|done|by apply Forall_nil|done|..].
    - intros. left. unfold more. eauto 15.
    - intros. right. unfold last. eauto 15. }
  rewrite <-Ew in Hwp. apply (keeps_wp idents) in Hwp; [|apply keeps_unreliable_data].
  eapply wp_mono; [exact Hwp|]. intros [] s [Hcase Hids].
  split; [unfold frag_frame, data_frame; cbn [length app wr16]; lia|].
  destruct Hcase as [(ch' & w' & S' & -> & HO' & HF & HG' & HS' & Hmiss)|
    (ch' & w' & -> & HO' & Hnin & Hall & Er & Et & Hib)].
  - left. exists S'. split; [|done]. pose proof HF as ([fr ->] & _ & Hin' & _). split; [by eapply close_world|].
    pose proof Hids as [= _ Hlid']. simpl in Hlid'. split; [simpl; congruence|].
    exists (set_frags fr ch). split; [by apply Hget|]. split; [done|]. split; [|done].
    simpl. by rewrite <-Hin, <-Hst1, <-Hin'.
  - right. split; [done|]. split; [done|]. split; [by eapply close_world|]. exists ch'. split; [by apply Hget|].
    simpl. by rewrite Hib, Hst1, Hin.
Qed.

(** The packets with the fragments [order], one after the other. *)
Fixpoint feed_all (pkts : list (list Z)) : M world unit :=
  match pkts with
  | [] => mret tt
  | p :: pkts => _ ← netchan_feed p None; feed_all pkts
  end.

Lemma feed_fragments lid ib last order : ∀ S w,
  in32 lid → collecting lid ib S w → 0 <= last < total → last ∉ S → last ∉ order →
  (∀ i, i ∈ order → 0 <= i < total) → (∀ i, 0 <= i < total → i = last ∨ i ∈ order ∨ i ∈ S) →
  ∃ w', feed_all ((λ i, packet lid 0 (frag_frame i)) <$> order ++ [last]) w = Some (tt, w') ∧
    waiting (ib ++ [data]) w'.
Proof.
  induction order as [|i order IH]; intros S w Hlid HC Hlast HlS Hlo Hord Hcov.
  - destruct (feed_fragment lid ib S w last 0 Hlid HC Hlast) as (w' & E & Hcase).
    exists w'. simpl. rewrite (bind_run _ _ _ _ _ E). split; [done|].
    destruct Hcase as [(S' & _ & HS' & [(j & Hj & Hjn)|])|(_ & _ & Hw)]; [|done|done].
    exfalso. rewrite HS' in Hjn. destruct (Hcov j Hj) as [->|[H|]]; [by auto|by apply not_elem_of_nil in H|by auto].
  - apply not_elem_of_cons in Hlo as [Hli Hlo].
    destruct (feed_fragment lid ib S w i 0 Hlid HC) as (w' & E & Hcase); [apply Hord; by left|].
    destruct Hcase as [(S' & HC' & HS' & _)|(_ & Hall & _)].
    + destruct (IH S' w' Hlid HC' Hlast) as (w2 & E2 & Hw2).
      * rewrite HS'. by intros [|].
      * done.
      * intros j Hj. apply Hord. by right.
      * intros j Hj. rewrite HS'. destruct (Hcov j Hj) as [|[[->|]%elem_of_cons|]]; auto.
      * exists w2. split; [|done]. simpl. by rewrite (bind_run _ _ _ _ _ E).
    + exfalso. destruct (Hall last Hlast); [done|done].
Qed.
End Packets.


(** A channel for snapshots, and a message in three fragments. *)
Definition lossy_world : world :=
  fed (packet 0 1 [NC_FRAME_CHANNEL_OPEN; 0; NETCHAN_UNRELIABLE; NETCHAN_DIR_SEND; 0])
    (mk_world (set_cfg (mk_cfg 19 65536 30000 100) (demo_conn 1)) demo_env 0 0 0).

Lemma lossy_inv : Inv 4 lossy_world.(conn).
Proof.
  apply (reachable_inv (mk_cfg 19 65536 30000 100)); [by split|].
  apply reachable_fed; [by split|by apply (reach_open _ 1)|vm_compute; done|vm_compute; done].
Qed.

