(* ===== verification/Gc.v ===== *)
(** * The garbage collector of TinScheme: src/portable-compiler/demo/scheme/gc.c and gc.h

    Tagged values, the mark phase, the sweep phase, allocation, the root stack
    and the allocators and accessors of every object type.

    A [val_t] is a 64-bit word of [Z].  The process is a [gc_mem]: the heap
    descriptor, the objects that are allocated, by address, and the variables
    whose addresses are registered as roots, a growing stack in which a
    [val_t *] is an index.  Access to an object that is not allocated, to a
    field that the type of the object does not have or to an array out of its
    range, and overflow of an [int], are undefined behaviour ([None]).
    [exit(1)] is the result [None] of an operation of type [M gc_mem (option A)].

    The allocator of the C library is the parameter [malloc]: the answer, an
    address or 0, of its [n]-th call, given what is allocated and the size. *)

From stdpp Require Import gmap.
From S2P Require Import Prelude.

(** ** Values *)

Definition TAG_MASK : Z := 3.
Definition TAG_OBJ : Z := 0.
Definition TAG_FIX : Z := 1.
Definition TAG_IMM : Z := 2.

Definition VAL_NIL : Z := 0.
Definition VAL_FALSE : Z := TAG_IMM.
Definition VAL_TRUE : Z := TAG_IMM .| 4.

(** The cast of a [uintptr_t] to [intptr_t]. *)
Definition intptr (v : Z) : Z := let v := u64 v in if v <? 2 ^ 63 then v else v - 2 ^ 64.

Definition MAKE_FIX (n : Z) : Z := u64 (u64 (s32 n) << 2) .| TAG_FIX.
Definition GET_FIX (v : Z) : Z := s32 (intptr v >> 2).
Definition IS_FIX (v : Z) : bool := v .& TAG_MASK =? TAG_FIX.
Definition IS_NIL (v : Z) : bool := v =? VAL_NIL.
Definition IS_PTR (v : Z) : bool := (v .& TAG_MASK =? TAG_OBJ) && negb (v =? VAL_NIL).
Definition IS_IMM (v : Z) : bool := v .& TAG_MASK =? TAG_IMM.
Definition IS_FALSE (v : Z) : bool := v =? VAL_FALSE.
Definition IS_TRUE (v : Z) : bool := negb (v =? VAL_FALSE).

(** ** Objects *)

Definition OBJ_PAIR : Z := 0.
Definition OBJ_STRING : Z := 1.
Definition OBJ_SYMBOL : Z := 2.
Definition OBJ_CLOSURE : Z := 3.

(** What follows the header: [struct gc_pair], [struct gc_string] with the
    bytes of its flexible array, [struct gc_closure] with its values. *)
Inductive gc_body : Type :=
  | Pair (car cdr : Z)
  | Str (len : Z) (data : list Z)
  | Clo (func_id nfree : Z) (free : list Z).

Record gc_obj : Type := mk_obj { type : Z; mark : Z; next : Z; body : gc_body }.

Definition set_mark (v : Z) (o : gc_obj) : gc_obj := mk_obj o.(type) v o.(next) o.(body).
Definition set_next (v : Z) (o : gc_obj) : gc_obj := mk_obj o.(type) o.(mark) v o.(body).
Definition set_body (b : gc_body) (o : gc_obj) : gc_obj := mk_obj o.(type) o.(mark) o.(next) b.

(** [sizeof] of the three structures and the offset of [data], with 64-bit
    pointers and 32-bit [int]s. *)
Definition SIZEOF_PAIR : Z := 32.
Definition SIZEOF_STRING : Z := 24.
Definition OFFSET_DATA : Z := 20.
Definition SIZEOF_CLOSURE : Z := 24.

(** The fields after the header of an object of [sz] bytes, all zero; a
    block smaller than the structure cannot be used as one. *)
Definition zero_body (type sz : Z) : option gc_body :=
  if type =? OBJ_PAIR then
    if SIZEOF_PAIR <=? sz then Some (Pair 0 0) else None
  else if (type =? OBJ_STRING) || (type =? OBJ_SYMBOL) then
    if SIZEOF_STRING <=? sz
    then Some (Str 0 (replicate (Z.to_nat (sz - OFFSET_DATA)) 0)) else None
  else if type =? OBJ_CLOSURE then
    if SIZEOF_CLOSURE <=? sz
    then Some (Clo 0 0 (replicate (Z.to_nat ((sz - SIZEOF_CLOSURE) / 8)) 0)) else None
  else None.

(** ** The heap *)

Definition GC_ROOTS_MAX : Z := 256.

Record gc_heap : Type := mk_heap {
  all : Z;
  count : Z;
  threshold : Z;
  roots : list nat;
  nroots : Z
}.

Definition set_all (v : Z) (h : gc_heap) : gc_heap :=
  mk_heap v h.(count) h.(threshold) h.(roots) h.(nroots).
Definition set_count (v : Z) (h : gc_heap) : gc_heap :=
  mk_heap h.(all) v h.(threshold) h.(roots) h.(nroots).
Definition set_threshold (v : Z) (h : gc_heap) : gc_heap :=
  mk_heap h.(all) h.(count) v h.(roots) h.(nroots).
Definition set_roots (v : list nat) (h : gc_heap) : gc_heap :=
  mk_heap h.(all) h.(count) h.(threshold) v h.(nroots).
Definition set_nroots (v : Z) (h : gc_heap) : gc_heap :=
  mk_heap h.(all) h.(count) h.(threshold) h.(roots) v.

Record gc_mem : Type := mk_mem {
  heap : gc_heap;
  objs : gmap Z gc_obj;
  vars : list Z;
  mallocs : nat
}.

Definition set_heap (h : gc_heap) (w : gc_mem) : gc_mem :=
  mk_mem h w.(objs) w.(vars) w.(mallocs).
Definition set_objs (m : gmap Z gc_obj) (w : gc_mem) : gc_mem :=
  mk_mem w.(heap) m w.(vars) w.(mallocs).
Definition set_vars (l : list Z) (w : gc_mem) : gc_mem :=
  mk_mem w.(heap) w.(objs) l w.(mallocs).
Definition set_mallocs (n : nat) (w : gc_mem) : gc_mem :=
  mk_mem w.(heap) w.(objs) w.(vars) n.

Definition geth : M gc_mem gc_heap := mgets heap.
Definition modh (f : gc_heap → gc_heap) : M gc_mem unit := mmod (λ w, set_heap (f w.(heap)) w).

(** ** Memory *)

Definition deref (a : Z) : M gc_mem gc_obj := λ w,
  match w.(objs) !! a with Some o => Some (o, w) | None => None end.

Definition store (a : Z) (o : gc_obj) : M gc_mem unit :=
  deref a;; mmod (λ w, set_objs (<[a := o]> w.(objs)) w).

Definition free (a : Z) : M gc_mem unit :=
  deref a;; mmod (λ w, set_objs (delete a w.(objs)) w).

Definition load_var (x : nat) : M gc_mem Z := w ← mget; must (w.(vars) !! x).
Definition store_var (x : nat) (v : Z) : M gc_mem unit :=
  load_var x;; mmod (λ w, set_vars (<[x := v]> w.(vars)) w).

(** A local variable whose address is taken, from its declaration to the end
    of its scope. *)
Definition enter (v : Z) : M gc_mem nat :=
  w ← mget; mmod (set_vars (w.(vars) ++ [v]));; mret (length w.(vars)).
Definition leave (n : nat) : M gc_mem unit :=
  mmod (λ w, set_vars (take (length w.(vars) - n) w.(vars)) w).

(** The fields of the structures behind a header. *)
Definition get_pair (a : Z) : M gc_mem (Z * Z) :=
  o ← deref a; match o.(body) with Pair x y => mret (x, y) | _ => ub end.
Definition get_str (a : Z) : M gc_mem (Z * list Z) :=
  o ← deref a; match o.(body) with Str n d => mret (n, d) | _ => ub end.
Definition get_clo (a : Z) : M gc_mem (Z * Z * list Z) :=
  o ← deref a; match o.(body) with Clo f n l => mret (f, n, l) | _ => ub end.
Definition put_body (a : Z) (b : gc_body) : M gc_mem unit :=
  o ← deref a; store a (set_body b o).

(** ** Accessors *)

Definition gc_car (v : Z) : M gc_mem Z := p ← get_pair v; mret p.1.
Definition gc_cdr (v : Z) : M gc_mem Z := p ← get_pair v; mret p.2.
Definition gc_set_car (v x : Z) : M gc_mem unit := p ← get_pair v; put_body v (Pair x p.2).
Definition gc_set_cdr (v x : Z) : M gc_mem unit := p ← get_pair v; put_body v (Pair p.1 x).

(** ** Life cycle of the heap *)

Definition gc_init : M gc_mem unit :=
  modh (λ h, set_nroots 0 (set_threshold 64 (set_count 0 (set_all 0 h)))).

Fixpoint destroy_loop (fuel : nat) (o : Z) : M gc_mem unit :=
  match fuel with
  | O => ub
  | S fuel =>
      if o =? 0 then mret tt
      else
        ob ← deref o;
        free o;;
        destroy_loop fuel ob.(next)
  end.

Definition gc_destroy : M gc_mem unit :=
  w ← mget;
  destroy_loop (S (size w.(objs))) w.(heap).(all);;
  modh (λ h, set_nroots 0 (set_count 0 (set_all 0 h))).

(** ** Mark *)

(** The recursion marks an object at every level, so that [fuel] above the
    number of objects never runs out. *)
Fixpoint mark_val (fuel : nat) (v : Z) : M gc_mem unit :=
  match fuel with
  | O => ub
  | S fuel =>
      if negb (IS_PTR v) then mret tt
      else
        o ← deref v;
        if nz o.(mark) then mret tt
        else
          store v (set_mark 1 o);;
          if o.(type) =? OBJ_PAIR then
            p ← get_pair v;
            mark_val fuel p.1;;
            p ← get_pair v;
            mark_val fuel p.2
          else if o.(type) =? OBJ_CLOSURE then
            c ← get_clo v;
            mfor (upto c.1.2) (λ i,
              c ← get_clo v;
              x ← must (aget c.2 i);
              mark_val fuel x)
          else mret tt
  end.

(** ** Collect *)

(** [pp] points to [h->all] ([None]) or to the [next] field of an object. *)
Definition load_link (pp : option Z) : M gc_mem Z :=
  match pp with
  | None => h ← geth; mret h.(all)
  | Some a => o ← deref a; mret o.(next)
  end.

Definition store_link (pp : option Z) (v : Z) : M gc_mem unit :=
  match pp with
  | None => modh (set_all v)
  | Some a => o ← deref a; store a (set_next v o)
  end.

Fixpoint sweep (fuel : nat) (pp : option Z) : M gc_mem unit :=
  match fuel with
  | O => ub
  | S fuel =>
      o ← load_link pp;
      if o =? 0 then mret tt
      else
        ob ← deref o;
        if nz ob.(mark) then
          store o (set_mark 0 ob);;
          sweep fuel (Some o)
        else
          store_link pp ob.(next);;
          free o;;
          h ← geth;
          n ← int (h.(count) - 1);
          modh (set_count n);;
          sweep fuel pp
  end.

Definition mark_roots : M gc_mem unit :=
  h ← geth;
  mfor (upto h.(nroots)) (λ i,
    r ← must (aget h.(roots) i);
    v ← load_var r;
    w ← mget;
    mark_val (S (size w.(objs))) v).

Definition gc_collect : M gc_mem unit :=
  mark_roots;;
  w ← mget;
  sweep (S (size w.(objs))) None;;
  h ← geth;
  n2 ← int (h.(count) * 2);
  (if h.(threshold) <? n2 then modh (set_threshold n2) else mret tt);;
  h ← geth;
  (if h.(threshold) <? 64 then modh (set_threshold 64) else mret tt).

(** ** Root stack *)

Definition gc_push (root : nat) : M gc_mem (option unit) :=
  h ← geth;
  if h.(nroots) >=? GC_ROOTS_MAX then mret None
  else
    l ← must (aset h.(roots) h.(nroots) root);
    modh (λ h, set_nroots (h.(nroots) + 1) (set_roots l h));;
    mret (Some tt).

Definition gc_pop (n : Z) : M gc_mem unit :=
  h ← geth;
  k ← int (h.(nroots) - n);
  modh (set_nroots k).

(** ** Allocation *)

(** [strlen] of the C string that starts [s]. *)
Fixpoint strlen (s : list Z) : option Z :=
  match s with
  | [] => None
  | b :: s => if b =? 0 then Some 0 else n ← strlen s; Some (n + 1)
  end.

Section alloc.
Context (malloc : nat → gmap Z gc_obj → Z → Z).

Definition do_malloc (sz : Z) : M gc_mem Z :=
  w ← mget;
  mmod (set_mallocs (S w.(mallocs)));;
  mret (malloc w.(mallocs) w.(objs) sz).

(** The rest of [gc_alloc] once [malloc] has returned [o]: clear the block
    and put it at the head of the list of all objects. *)
Definition link_obj (o : Z) (type sz : Z) : M gc_mem Z :=
  b ← must (zero_body type sz);
  h ← geth;
  mmod (λ w, set_objs (<[o := mk_obj (u8 type) 0 h.(all) b]> w.(objs)) w);;
  modh (set_all o);;
  n ← int (h.(count) + 1);
  modh (set_count n);;
  mret o.

Definition gc_alloc (type sz : Z) : M gc_mem (option Z) :=
  h ← geth;
  (if h.(count) >=? h.(threshold) then gc_collect else mret tt);;
  o ← do_malloc sz;
  if o =? 0 then
    gc_collect;;
    o ← do_malloc sz;
    if o =? 0 then mret None
    else p ← link_obj o type sz; mret (Some p)
  else p ← link_obj o type sz; mret (Some p).

Definition gc_cons (car cdr : Z) : M gc_mem (option Z) :=
  pcar ← enter car;
  pcdr ← enter cdr;
  _ ⇐ gc_push pcar;
  _ ⇐ gc_push pcdr;
  p ⇐ gc_alloc OBJ_PAIR SIZEOF_PAIR;
  car ← load_var pcar;
  gc_set_car p car;;
  cdr ← load_var pcdr;
  gc_set_cdr p cdr;;
  gc_pop 2;;
  leave 2;;
  mret (Some p).

(** [s] holds the bytes that can be read at the pointer. *)
Definition alloc_str (type : Z) (s : list Z) (len : Z) : M gc_mem (option Z) :=
  str ⇐ gc_alloc type (u64 (SIZEOF_STRING + u64 len + 1));
  d ← get_str str;
  put_body str (Str len d.2);;
  bs ← must (aslice s 0 (u64 len));
  d ← must (asplice d.2 0 bs);
  put_body str (Str len d);;
  d ← must (aset d len 0);
  put_body str (Str len d);;
  mret (Some str).

Definition gc_string (s : list Z) (len : Z) : M gc_mem (option Z) := alloc_str OBJ_STRING s len.

Definition gc_symbol (s : list Z) : M gc_mem (option Z) :=
  n ← must (strlen s);
  alloc_str OBJ_SYMBOL s (s32 n).

(** [captured] points to the first of [nfree] variables. *)
Definition gc_closure (func_id nfree : Z) (captured : nat) : M gc_mem (option Z) :=
  _ ⇐ mloop (upto nfree) (λ i _,
        r ← gc_push (captured + Z.to_nat i);
        mret (if r is Some _ then inl (Some tt) else inr None)) (Some tt);
  cl ⇐ gc_alloc OBJ_CLOSURE (u64 (SIZEOF_CLOSURE + u64 (u64 nfree * 8)));
  c ← get_clo cl;
  put_body cl (Clo func_id c.1.2 c.2);;
  c ← get_clo cl;
  put_body cl (Clo c.1.1 nfree c.2);;
  mfor (upto nfree) (λ i,
    x ← load_var (captured + Z.to_nat i);
    c ← get_clo cl;
    l ← must (aset c.2 i x);
    put_body cl (Clo c.1.1 c.1.2 l));;
  gc_pop nfree;;
  mret (Some cl).
End alloc.
