(* ===== verification/GcInv.v ===== *)
(** * Invariant of the garbage collector, and what marking and sweeping do

    The graph of the objects, reachability from the roots, the invariant
    [gc_ok] of the heap between calls, and the specifications of [mark_val],
    of the sweep and of [gc_collect]. *)

From stdpp Require Import gmap.
From S2P Require Import Prelude Gc.

(** ** The graph of the objects *)

(** The values an object holds. *)
Definition vals (b : gc_body) : list Z :=
  match b with
  | Pair x y => [x; y]
  | Str _ _ => []
  | Clo _ n l => take (Z.to_nat n) l
  end.

(** Type and body of the object at an address, without mark and link. *)
Definition content (m : gmap Z gc_obj) (a : Z) : option (Z * gc_body) :=
  (λ o, (o.(type), o.(body))) <$> m !! a.

(** A pointer to [b] is stored in the object at [a]. *)
Definition edge (m : gmap Z gc_obj) (a b : Z) : Prop :=
  ∃ t bd, content m a = Some (t, bd) ∧ b ∈ vals bd ∧ IS_PTR b = true.

Definition reach (m : gmap Z gc_obj) : Z → Z → Prop := rtc (edge m).

(** The values of the variables on the root stack. *)
Definition root_vals (w : gc_mem) : list Z :=
  omap (λ x, w.(vars) !! x) (take (Z.to_nat w.(heap).(nroots)) w.(heap).(roots)).

(** [a] can be reached from one of the values [vs]; [live] when from a root. *)
Definition from (m : gmap Z gc_obj) (vs : list Z) (a : Z) : Prop :=
  ∃ v, v ∈ vs ∧ IS_PTR v = true ∧ reach m v a.

Definition live (w : gc_mem) : Z → Prop := from w.(objs) (root_vals w).

(** ** The invariant *)

Definition val_ok (m : gmap Z gc_obj) (v : Z) : Prop := IS_PTR v = true → is_Some (m !! v).

Definition body_ok (t : Z) (b : gc_body) : Prop :=
  match b with
  | Pair _ _ => t = OBJ_PAIR
  | Str _ _ => t = OBJ_STRING ∨ t = OBJ_SYMBOL
  | Clo _ n l => t = OBJ_CLOSURE ∧ 0 <= n <= Z.of_nat (length l)
  end.

(** The list of all objects that starts at [a]. *)
Fixpoint chain (m : gmap Z gc_obj) (a : Z) (l : list Z) : Prop :=
  match l with
  | [] => a = 0
  | b :: l => a = b ∧ b ≠ 0 ∧ ∃ o, m !! b = Some o ∧ chain m o.(next) l
  end.

(** What every object satisfies, whatever its mark. *)
Record objs_ok (m : gmap Z gc_obj) : Prop := {
  obj_ptr a o : m !! a = Some o → IS_PTR a = true;
  obj_body a o : m !! a = Some o → body_ok o.(type) o.(body);
  obj_closed a o v : m !! a = Some o → v ∈ vals o.(body) → val_ok m v
}.

Record roots_ok (w : gc_mem) : Prop := {
  roots_len : length w.(heap).(roots) = 256%nat;
  roots_n : 0 <= w.(heap).(nroots) <= 256;
  roots_var i x : (i < Z.to_nat w.(heap).(nroots))%nat → w.(heap).(roots) !! i = Some x →
    (x < length w.(vars))%nat;
  roots_val v : v ∈ root_vals w → val_ok w.(objs) v
}.

Record gc_ok (w : gc_mem) : Prop := {
  ok_objs : objs_ok w.(objs);
  ok_marks a o : w.(objs) !! a = Some o → o.(mark) = 0;
  ok_chain : ∃ l, chain w.(objs) w.(heap).(all) l ∧ NoDup l ∧
    (∀ a, a ∈ l ↔ is_Some (w.(objs) !! a));
  ok_count : w.(heap).(count) = Z.of_nat (size w.(objs));
  ok_threshold : 64 <= w.(heap).(threshold) < 2 ^ 31;
  ok_roots : roots_ok w
}.

(** ** Contents *)

Lemma content_Some m a t b :
  content m a = Some (t, b) ↔ ∃ o, m !! a = Some o ∧ o.(type) = t ∧ o.(body) = b.
Proof. unfold content. destruct (m !! a); naive_solver. Qed.

Lemma content_None m a : content m a = None ↔ m !! a = None.
Proof. unfold content. destruct (m !! a); naive_solver. Qed.

Lemma content_dom m m' a : content m' a = content m a → is_Some (m !! a) → is_Some (m' !! a).
Proof. unfold content. destruct (m !! a), (m' !! a); naive_solver. Qed.

Lemma edge_ext m m' a b : content m' a = content m a → edge m a b → edge m' a b.
Proof. intros E (t & bd & H & ?). exists t, bd. by rewrite E. Qed.

(** Reachability only depends on the contents of what is reached. *)
Lemma reach_ext m m' a b :
  (∀ c, reach m a c → content m' c = content m c) → reach m a b → reach m' a b.
Proof.
  intros HE H. revert HE. induction H as [|a c b He Hr IH]; intros HE; [reflexivity|].
  eapply rtc_l; [eapply edge_ext; [|exact He]; apply HE; reflexivity|].
  apply IH. intros d Hd. apply HE. by eapply rtc_l.
Qed.

Lemma reach_ok m a b : objs_ok m → is_Some (m !! a) → reach m a b → is_Some (m !! b).
Proof.
  intros Hm Ha Hr. revert Ha. induction Hr as [|a c b He Hr IH]; [done|]. intros Ha. apply IH.
  destruct He as (t & bd & Hc & Hin & Hp). apply content_Some in Hc as (o & Ho & <- & <-).
  by eapply obj_closed.
Qed.

Lemma from_app m vs vs' a : from m (vs ++ vs') a ↔ from m vs a ∨ from m vs' a.
Proof. unfold from. setoid_rewrite elem_of_app. naive_solver. Qed.

Lemma from_ok m vs a : objs_ok m → (∀ v, v ∈ vs → val_ok m v) → from m vs a → is_Some (m !! a).
Proof. intros Hm Hv (v & Hin & Hp & Hr). eapply reach_ok; [done| |exact Hr]. by apply Hv. Qed.

Lemma from_step m vs a b : from m vs a → edge m a b → from m vs b.
Proof. intros (v & ? & ? & ?) He. exists v. split_and!; try done. by eapply rtc_r. Qed.

Lemma from_ext m m' vs a :
  (∀ c, from m vs c → content m' c = content m c) → from m vs a → from m' vs a.
Proof.
  intros HE (v & Hv & Hp & Hr). exists v. split_and!; [done|done|].
  eapply reach_ext; [|done]. intros c Hc. apply HE. by exists v.
Qed.

Lemma from_mono m vs vs' a : vs ⊆ vs' → from m vs a → from m vs' a.
Proof. intros Hs (v & Hv & ?). exists v. split; [by apply Hs|done]. Qed.

(** ** Marks *)

Definition marked (m : gmap Z gc_obj) (a : Z) : Prop := ∃ o, m !! a = Some o ∧ nz o.(mark) = true.

#[global] Instance marked_dec m a : Decision (marked m a).
Proof.
  refine (match m !! a as r return m !! a = r → _ with
          | Some o => λ E, if decide (nz o.(mark) = true) then left _ else right _
          | None => λ E, right _
          end eq_refl); unfold marked; naive_solver.
Defined.

(** The number of objects without mark. *)
Definition unmarked (m : gmap Z gc_obj) : nat := size (filter (λ p, nz (p.2).(mark) = false) m).

(** [m'] is [m] with more marks: what is reached from [vs] is marked, and
    nothing else, and a newly marked object points to marked objects only. *)
Record Marks (m : gmap Z gc_obj) (vs : list Z) (m' : gmap Z gc_obj) : Prop := {
  mk_rest a : set_mark 0 <$> m' !! a = set_mark 0 <$> m !! a;
  mk_mono a : marked m a → marked m' a;
  mk_vs v : v ∈ vs → IS_PTR v = true → marked m' v;
  mk_from a : marked m' a → ¬ marked m a → from m vs a;
  mk_succ a b : marked m' a → ¬ marked m a → edge m a b → marked m' b
}.

Lemma mk_content m vs m' a : Marks m vs m' → content m' a = content m a.
Proof.
  intros H. pose proof (mk_rest _ _ _ H a) as E. unfold content.
  destruct (m' !! a) as [o'|], (m !! a) as [o|]; simplify_eq/=; [|done].
  destruct o, o'. naive_solver.
Qed.

Lemma objs_ok_rest m m' :
  (∀ a, content m' a = content m a) → objs_ok m → objs_ok m'.
Proof.
  intros E [H1 H2 H3]. split.
  - intros a o Ho. assert (Hc : is_Some (m !! a)) by (eapply content_dom; [symmetry; apply E|eauto]).
    destruct Hc as [o' ?]. eauto.
  - intros a o Ho. pose proof (E a) as Ea. unfold content in Ea. rewrite Ho in Ea.
    destruct (m !! a) as [o'|] eqn:Ho'; simplify_eq/=. specialize (H2 _ _ Ho'). congruence.
  - intros a o v Ho Hv Hp. pose proof (E a) as Ea. unfold content in Ea. rewrite Ho in Ea.
    destruct (m !! a) as [o'|] eqn:Ho'; simplify_eq/=.
    eapply content_dom; [apply E|]. eapply H3; [exact Ho'| |done]. congruence.
Qed.

Lemma edge_all m m' a b : (∀ a, content m' a = content m a) → edge m a b ↔ edge m' a b.
Proof. intros E. split; apply edge_ext; [apply E|by rewrite E]. Qed.

Lemma from_all m m' vs a : (∀ a, content m' a = content m a) → from m vs a ↔ from m' vs a.
Proof. intros E. split; apply from_ext; intros c _; [apply E|by rewrite E]. Qed.

Lemma Marks_nil m : Marks m [] m.
Proof. split; naive_solver set_solver. Qed.

Lemma Marks_app m1 m2 m3 vs vs' :
  Marks m1 vs m2 → Marks m2 vs' m3 → Marks m1 (vs ++ vs') m3.
Proof.
  intros H1 H2. pose proof (λ a, mk_content _ _ _ a H1) as E. split.
  - intros a. by rewrite (mk_rest _ _ _ H2), (mk_rest _ _ _ H1).
  - intros a ?. by apply (mk_mono _ _ _ H2), (mk_mono _ _ _ H1).
  - intros v [Hv|Hv]%elem_of_app Hp; [|by apply (mk_vs _ _ _ H2)].
    by apply (mk_mono _ _ _ H2), (mk_vs _ _ _ H1).
  - intros a H3 Hn. apply from_app. destruct (decide (marked m2 a)).
    + left. by apply (mk_from _ _ _ H1).
    + right. eapply from_all; [exact E|]. by apply (mk_from _ _ _ H2).
  - intros a b H3 Hn He. destruct (decide (marked m2 a)).
    + by apply (mk_mono _ _ _ H2), (mk_succ _ _ _ H1 a).
    + apply (mk_succ _ _ _ H2 a); [done..|]. by apply (edge_all m1).
Qed.

Lemma unmarked_mono m vs m' : Marks m vs m' → (unmarked m' <= unmarked m)%nat.
Proof.
  intros H. unfold unmarked. rewrite <-!size_dom. apply subseteq_size.
  intros a. rewrite !elem_of_dom. intros [o' [Ho' Hm]%map_lookup_filter_Some].
  pose proof (mk_rest _ _ _ H a) as E. rewrite Ho' in E.
  destruct (m !! a) as [o|] eqn:Ho; [|done]. exists o. apply map_lookup_filter_Some. split; [done|].
  simpl. destruct (nz (mark o)) eqn:Hmk; [|done].
  destruct (mk_mono _ _ _ H a) as (o2 & Ho2 & Hm2); [by exists o|]. simpl in *. congruence.
Qed.

Lemma marked_insert m a o b :
  m !! a = Some o → marked (<[a := set_mark 1 o]> m) b ↔ b = a ∨ marked m b.
Proof.
  intros Ho. unfold marked. destruct (decide (b = a)) as [->|Hne].
  - rewrite lookup_insert_eq. naive_solver.
  - rewrite lookup_insert_ne by done. naive_solver.
Qed.

(** Marking the object at [a] itself, whose fields are marked next. *)
Lemma Marks_visit m a o vs m' :
  m !! a = Some o → nz o.(mark) = false → IS_PTR a = true →
  vs = vals o.(body) →
  Marks (<[a := set_mark 1 o]> m) vs m' → Marks m [a] m'.
Proof.
  intros Ho Hm Hp -> H.
  assert (E : ∀ b, content (<[a := set_mark 1 o]> m) b = content m b).
  { intros b. unfold content. destruct (decide (b = a)) as [->|];
      [by rewrite lookup_insert_eq, Ho|by rewrite lookup_insert_ne]. }
  assert (Hna : ¬ marked m a) by (intros (o' & ? & ?); congruence).
  assert (Hia : marked m' a) by (apply (mk_mono _ _ _ H), marked_insert; auto).
  assert (Hca : content m a = Some (o.(type), o.(body))) by (apply content_Some; eauto).
  split.
  - intros b. rewrite (mk_rest _ _ _ H). destruct (decide (b = a)) as [->|];
      [by rewrite lookup_insert_eq, Ho|by rewrite lookup_insert_ne].
  - intros b Hb. apply (mk_mono _ _ _ H), marked_insert; auto.
  - intros v Hv _. set_solver.
  - intros b Hb Hn. destruct (decide (b = a)) as [->|Hne].
    { exists a. split_and!; [set_solver|done|reflexivity]. }
    destruct (mk_from _ _ _ H b) as (v & Hv & Hpv & Hr); [done| |].
    { rewrite (marked_insert m a o) by done. naive_solver. }
    exists a. split_and!; [set_solver|done|]. eapply rtc_l; [by exists o.(type), o.(body)|].
    eapply reach_ext; [|exact Hr]. intros c _. by rewrite E.
  - intros b c Hb Hn He. destruct (decide (b = a)) as [->|Hne].
    + destruct He as (t & bd & Hc & Hin & Hpc). apply (mk_vs _ _ _ H); [|done].
      rewrite Hca in Hc. by simplify_eq.
    + apply (mk_succ _ _ _ H b); [done| |by apply (edge_all m)].
      rewrite (marked_insert m a o) by done. naive_solver.
Qed.

Lemma unmarked_insert m a o :
  m !! a = Some o → nz o.(mark) = false → unmarked m = S (unmarked (<[a := set_mark 1 o]> m)).
Proof.
  intros Ho Hm. unfold unmarked. rewrite map_filter_insert_False by done.
  rewrite map_filter_delete. symmetry.
  assert (Hf : filter (λ p, nz (p.2).(mark) = false) m !! a = Some o)
    by by apply map_lookup_filter_Some.
  rewrite <-(insert_delete_id _ _ _ Hf) at 2.
  rewrite map_size_insert_None; [done|apply lookup_delete_eq].
Qed.

(** ** Rules for memory accesses *)

Lemma wp_deref a o (Q : gc_obj → gc_mem → Prop) w :
  w.(objs) !! a = Some o → Q o w → wp (deref a) Q w.
Proof. unfold wp, deref. by intros ->. Qed.

Lemma wp_store a o o' (Q : unit → gc_mem → Prop) w :
  w.(objs) !! a = Some o → Q tt (set_objs (<[a := o']> w.(objs)) w) → wp (store a o') Q w.
Proof. intros Ho HQ. apply wp_bind. eapply wp_deref; [done|]. by apply wp_mod. Qed.

Lemma wp_free a o (Q : unit → gc_mem → Prop) w :
  w.(objs) !! a = Some o → Q tt (set_objs (delete a w.(objs)) w) → wp (free a) Q w.
Proof. intros Ho HQ. apply wp_bind. eapply wp_deref; [done|]. by apply wp_mod. Qed.

Lemma wp_get_pair a x y t (Q : Z * Z → gc_mem → Prop) w :
  content w.(objs) a = Some (t, Pair x y) → Q (x, y) w → wp (get_pair a) Q w.
Proof.
  intros (o & Ho & _ & Hb)%content_Some HQ. apply wp_bind. eapply wp_deref; [done|].
  rewrite Hb. by apply wp_ret.
Qed.

Lemma wp_get_str a n d t (Q : Z * list Z → gc_mem → Prop) w :
  content w.(objs) a = Some (t, Str n d) → Q (n, d) w → wp (get_str a) Q w.
Proof.
  intros (o & Ho & _ & Hb)%content_Some HQ. apply wp_bind. eapply wp_deref; [done|].
  rewrite Hb. by apply wp_ret.
Qed.

Lemma wp_get_clo a f n l t (Q : Z * Z * list Z → gc_mem → Prop) w :
  content w.(objs) a = Some (t, Clo f n l) → Q (f, n, l) w → wp (get_clo a) Q w.
Proof.
  intros (o & Ho & _ & Hb)%content_Some HQ. apply wp_bind. eapply wp_deref; [done|].
  rewrite Hb. by apply wp_ret.
Qed.

(** ** Mark *)

Lemma Marks_done m v : (IS_PTR v = true → marked m v) → Marks m [v] m.
Proof. intros H. split; try naive_solver. intros v' ->%list_elem_of_singleton. done. Qed.

Definition mark_spec (fuel : nat) : Prop := ∀ v w,
  objs_ok w.(objs) → val_ok w.(objs) v → (unmarked w.(objs) < fuel)%nat →
  wp (mark_val fuel v) (λ _ w', ∃ m', w' = set_objs m' w ∧ Marks w.(objs) [v] m') w.

(** [mark_val] on one more value, when [vs] have been marked. *)
Lemma wp_mark_more fuel m vs v m' w (Q : unit → gc_mem → Prop) :
  mark_spec fuel → objs_ok m → val_ok m v → (unmarked m < fuel)%nat → Marks m vs m' →
  (∀ m2, Marks m (vs ++ [v]) m2 → Q tt (set_objs m2 w)) → wp (mark_val fuel v) Q (set_objs m' w).
Proof.
  intros IH Hok Hv Hf Hm HQ. pose proof (λ a, mk_content _ _ _ a Hm) as E.
  eapply wp_mono; [apply IH; simpl|].
  - by eapply objs_ok_rest.
  - intros Hp. eapply content_dom; [apply E|auto].
  - pose proof (unmarked_mono _ _ _ Hm). lia.
  - intros [] w' (m2 & -> & H2). apply HQ. by eapply Marks_app.
Qed.

Lemma mark_pair fuel a o x y w (Q : unit → gc_mem → Prop) :
  mark_spec fuel → objs_ok w.(objs) → w.(objs) !! a = Some o → o.(body) = Pair x y →
  (unmarked w.(objs) < fuel)%nat →
  (∀ m', Marks w.(objs) [x; y] m' → Q tt (set_objs m' w)) →
  wp (p ← get_pair a; mark_val fuel p.1;; p ← get_pair a; mark_val fuel p.2) Q w.
Proof.
  intros IH Hok Ho Hb Hf HQ.
  assert (Hc : content w.(objs) a = Some (o.(type), Pair x y)) by (apply content_Some; eauto).
  assert (Hv : ∀ v, v ∈ [x; y] → val_ok w.(objs) v).
  { intros v Hv. eapply obj_closed; [done|exact Ho|]. by rewrite Hb. }
  apply wp_bind. eapply wp_get_pair; [exact Hc|]. apply wp_bind. destruct w as [h m vs n]; simpl in *.
  apply (wp_mark_more fuel m [] x m (mk_mem h m vs n)); [done|done| |done|apply Marks_nil|].
  { apply Hv. set_solver. }
  intros m2 H2. apply wp_bind. eapply wp_get_pair; [simpl; by rewrite (mk_content _ _ _ _ H2)|].
  apply (wp_mark_more fuel m [x] y m2 (mk_mem h m vs n)); [done|done| |done..].
  apply Hv. set_solver.
Qed.

Lemma mark_clo fuel a o f n l w (Q : unit → gc_mem → Prop) :
  mark_spec fuel → objs_ok w.(objs) → w.(objs) !! a = Some o → o.(body) = Clo f n l →
  0 <= n <= Z.of_nat (length l) → (unmarked w.(objs) < fuel)%nat →
  (∀ m', Marks w.(objs) (take (Z.to_nat n) l) m' → Q tt (set_objs m' w)) →
  wp (c ← get_clo a; mfor (upto c.1.2) (λ i, c ← get_clo a; x ← must (aget c.2 i); mark_val fuel x)) Q w.
Proof.
  intros IH Hok Ho Hb Hn Hf HQ.
  assert (Hc : content w.(objs) a = Some (o.(type), Clo f n l))
    by (apply content_Some; eauto).
  apply wp_bind. eapply wp_get_clo; [exact Hc|]. simpl. destruct w as [h m vs k]; simpl in *.
  eapply (wp_mfor_upto _ _ (λ i w', ∃ m', w' = mk_mem h m' vs k ∧ Marks m (take (Z.to_nat i) l) m')).
  - lia.
  - eexists. split; [done|]. apply Marks_nil.
  - intros i w' Hi (m1 & -> & H1). apply wp_bind.
    eapply wp_get_clo; [simpl; by rewrite (mk_content _ _ _ _ H1)|].
    destruct (aget_in l i) as (x & Hx & Hx'); [lia|]. simpl. apply wp_bind, (wp_must _ x); [done|].
    eapply (wp_mark_more fuel m _ x m1 (mk_mem h m vs k)); [done|done| |done|exact H1|].
    { eapply obj_closed; [done|exact Ho|]. rewrite Hb. simpl. apply (list_elem_of_lookup_2 _ (Z.to_nat i)).
      by rewrite lookup_take_lt by lia. }
    intros m2 H2. exists m2. split; [done|]. replace (Z.to_nat (i + 1)) with (S (Z.to_nat i)) by lia.
    by rewrite (take_S_r _ _ _ Hx').
  - intros w' (m' & -> & Hm'). by apply (HQ m').
Qed.

(** [mark_val] marks what can be reached from [v] and was not marked before. *)
Lemma wp_mark_val fuel : mark_spec fuel.
Proof.
  induction fuel as [|fuel IH]; intros v w Hok Hv Hf; [lia|]. simpl.
  apply wp_if; intros Hp.
  { apply wp_ret. exists w.(objs). split; [by destruct w|]. apply Marks_done.
    intros E. by rewrite E in Hp. }
  apply negb_false_iff in Hp. destruct (Hv Hp) as [o Ho].
  apply wp_bind. eapply wp_deref; [done|]. apply wp_if; intros Hm.
  { apply wp_ret. exists w.(objs). split; [by destruct w|]. apply Marks_done. by exists o. }
  apply wp_bind. eapply wp_store; [done|].
  set (m1 := <[v := set_mark 1 o]> w.(objs)).
  assert (Hm1 : m1 !! v = Some (set_mark 1 o)) by apply lookup_insert_eq.
  assert (E : ∀ b, content m1 b = content w.(objs) b).
  { intros b. unfold content, m1. destruct (decide (b = v)) as [->|];
      [by rewrite lookup_insert_eq, Ho|by rewrite lookup_insert_ne]. }
  assert (Hok1 : objs_ok m1) by by eapply objs_ok_rest.
  assert (Hf1 : (unmarked m1 < fuel)%nat) by (rewrite (unmarked_insert _ _ _ Ho Hm) in Hf; unfold m1; lia).
  assert (HF : ∀ m', Marks m1 (vals o.(body)) m' →
    ∃ m'0, set_objs m' (set_objs m1 w) = set_objs m'0 w ∧ Marks w.(objs) [v] m'0).
  { intros m' H'. exists m'. split; [done|]. by eapply Marks_visit. }
  pose proof (obj_body _ Hok _ _ Ho) as Hbo. unfold body_ok in Hbo.
  destruct (body o) as [x y|n d|f n l] eqn:Hb; [| |destruct Hbo as [Hbo Hn]]; simpl in HF.
  - rewrite Hbo. simpl. eapply mark_pair; [done|exact Hok1|exact Hm1|done|done|]. intros m' H'. eauto.
  - destruct Hbo as [-> | ->]; simpl; apply wp_ret; simpl; apply HF, Marks_nil.
  - rewrite Hbo. simpl. eapply mark_clo; [done|exact Hok1|exact Hm1|done|done|done|]. intros m' H'. eauto.
Qed.
