(* ===== verification/GcCollect.v ===== *)
(** * Sweeping and collecting

    The specification of the sweep of src/portable-compiler/demo/scheme/gc.c
    over the list of all objects, and of [gc_collect]: exactly the objects that
    can be reached from the roots survive. *)

From stdpp Require Import gmap.
From S2P Require Import Prelude Gc GcInv.

(** ** The list of all objects *)

Lemma chain_ext m m' a l :
  (∀ b, b ∈ l → next <$> m' !! b = next <$> m !! b) → chain m a l → chain m' a l.
Proof.
  revert a. induction l as [|b l IH]; intros a HE; [done|]. intros (-> & Hb & o & Ho & Hc).
  pose proof (HE b ltac:(set_solver)) as E. rewrite Ho in E.
  destruct (m' !! b) as [o'|] eqn:Ho'; simplify_eq/=. split_and!; [done|done|].
  exists o'. split; [done|]. rewrite E. apply IH; [|done]. intros c Hc'. apply HE. set_solver.
Qed.

(** What the pointer [pp] of the sweep points to. *)
Definition link (w : gc_mem) (pp : option Z) : Z :=
  match pp with
  | None => w.(heap).(all)
  | Some a => match w.(objs) !! a with Some o => o.(next) | None => 0 end
  end.

Definition link_ok (w : gc_mem) (pp : option Z) : Prop :=
  match pp with Some a => is_Some (w.(objs) !! a) | None => True end.

Lemma wp_load_link pp (Q : Z → gc_mem → Prop) w :
  link_ok w pp → Q (link w pp) w → wp (load_link pp) Q w.
Proof.
  destruct pp as [a|]; simpl; [|done]. intros [o Ho] HQ. rewrite Ho in HQ.
  apply wp_bind. by eapply wp_deref.
Qed.

(** The parts of the process the collector does not touch. *)
Record Frame (w w' : gc_mem) : Prop := {
  fr_vars : w'.(vars) = w.(vars);
  fr_roots : w'.(heap).(roots) = w.(heap).(roots);
  fr_nroots : w'.(heap).(nroots) = w.(heap).(nroots)
}.

Lemma Frame_refl w : Frame w w.
Proof. done. Qed.

Lemma Frame_trans w1 w2 w3 : Frame w1 w2 → Frame w2 w3 → Frame w1 w3.
Proof. intros [] []. split; congruence. Qed.

#[export] Hint Resolve Frame_refl : core.

(** The state after [*pp = v]. *)
Definition relink (pp : option Z) (v : Z) (w : gc_mem) : gc_mem :=
  match pp with
  | None => set_heap (set_all v w.(heap)) w
  | Some a => match w.(objs) !! a with
              | Some o => set_objs (<[a := set_next v o]> w.(objs)) w
              | None => w
              end
  end.

Lemma wp_store_link pp v (Q : unit → gc_mem → Prop) w :
  link_ok w pp → Q tt (relink pp v w) → wp (store_link pp v) Q w.
Proof.
  destruct pp as [a|]; simpl; [|done]. intros [o Ho] HQ. rewrite Ho in HQ.
  apply wp_bind. eapply wp_deref; [done|]. by eapply wp_store.
Qed.

Lemma relink_other pp v w a : Some a ≠ pp → (relink pp v w).(objs) !! a = w.(objs) !! a.
Proof.
  destruct pp as [p|]; simpl; [|done]. intros. destruct (objs w !! p); [|done]. simpl.
  rewrite lookup_insert_ne; [done|congruence].
Qed.

Lemma relink_self p v w : set_next 0 <$> (relink (Some p) v w).(objs) !! p = set_next 0 <$> w.(objs) !! p.
Proof. simpl. destruct (objs w !! p) as [o|] eqn:Ho; simpl; [by rewrite lookup_insert_eq|by rewrite Ho]. Qed.

Lemma relink_link pp v w : link_ok w pp → link (relink pp v w) pp = v.
Proof. destruct pp as [p|]; simpl; [|done]. intros [o Ho]. rewrite Ho. simpl. by rewrite lookup_insert_eq. Qed.

Lemma relink_frame pp v w : Frame w (relink pp v w).
Proof. destruct pp as [p|]; simpl; [destruct (objs w !! p)|]; done. Qed.

Lemma relink_heap pp v w :
  (relink pp v w).(heap).(count) = w.(heap).(count) ∧
  (relink pp v w).(heap).(threshold) = w.(heap).(threshold) ∧
  (pp ≠ None → (relink pp v w).(heap).(all) = w.(heap).(all)).
Proof. destruct pp as [p|]; simpl; [destruct (objs w !! p)|]; done. Qed.

(** ** Sweep *)

Section sweep.
Context (K : Z → Prop) `{!∀ a, Decision (K a)}.

(** The sweep from [pp], whose list is [l], keeps the objects of [K]. *)
Record Swept (w : gc_mem) (pp : option Z) (l : list Z) (w' : gc_mem) : Prop := {
  sw_chain : chain w'.(objs) (link w' pp) (filter K l);
  sw_keep a : a ∈ l → K a →
    content w'.(objs) a = content w.(objs) a ∧ ∀ o, w'.(objs) !! a = Some o → o.(mark) = 0;
  sw_free a : a ∈ l → ¬ K a → w'.(objs) !! a = None;
  sw_rest a : a ∉ l → Some a ≠ pp → w'.(objs) !! a = w.(objs) !! a;
  sw_pp a : pp = Some a → set_next 0 <$> w'.(objs) !! a = set_next 0 <$> w.(objs) !! a;
  sw_all : pp ≠ None → w'.(heap).(all) = w.(heap).(all);
  sw_count : w'.(heap).(count) = w.(heap).(count) - Z.of_nat (length l) + Z.of_nat (length (filter K l));
  sw_threshold : w'.(heap).(threshold) = w.(heap).(threshold);
  sw_frame : Frame w w'
}.

Record sweep_pre (w : gc_mem) (pp : option Z) (l : list Z) : Prop := {
  sp_chain : chain w.(objs) (link w pp) l;
  sp_nodup : NoDup l;
  sp_link : link_ok w pp;
  sp_notin a : pp = Some a → a ∉ l;
  sp_K a : a ∈ l → marked w.(objs) a ↔ K a;
  sp_count : Z.of_nat (length l) <= w.(heap).(count) < 2 ^ 31
}.

Lemma link_same w w' pp :
  (∀ a, pp = Some a → w'.(objs) !! a = w.(objs) !! a) →
  (pp = None → w'.(heap).(all) = w.(heap).(all)) → link w' pp = link w pp.
Proof. destruct pp as [a|]; simpl; intros H1 H2; [by rewrite H1|by rewrite H2]. Qed.

(** A marked object is kept, and the sweep goes on from its link. *)
Lemma sweep_kept w pp b o l :
  sweep_pre w pp (b :: l) → w.(objs) !! b = Some o → K b →
  let w1 := set_objs (<[b := set_mark 0 o]> w.(objs)) w in
  sweep_pre w1 (Some b) l ∧ (∀ w', Swept w1 (Some b) l w' → Swept w pp (b :: l) w').
Proof.
  intros [Hc [Hbl Hnd]%NoDup_cons Hl Hni HK Hn] Ho Hb w1.
  assert (H1 : ∀ a, a ≠ b → w1.(objs) !! a = w.(objs) !! a)
    by (intros; by apply lookup_insert_ne).
  assert (Hb1 : w1.(objs) !! b = Some (set_mark 0 o)) by apply lookup_insert_eq.
  destruct Hc as (Hlk & Hb0 & o' & Ho' & Hc). assert (o' = o) as -> by congruence. clear Ho'.
  split.
  - split; simpl in *.
    + rewrite lookup_insert_eq. simpl. eapply chain_ext; [|done]. intros a Ha.
      rewrite lookup_insert_ne by congruence. done.
    + done.
    + rewrite lookup_insert_eq. done.
    + naive_solver.
    + intros a Ha. rewrite <-HK by set_solver. unfold marked.
      rewrite lookup_insert_ne by congruence. done.
    + lia.
  - intros w' [Sc Sk Sf Sr Sp Sa Sn St SF].
    assert (Hpb : pp ≠ Some b) by (intros ->; specialize (Hni b eq_refl); set_solver).
    specialize (Sp b eq_refl). rewrite Hb1 in Sp.
    destruct (w'.(objs) !! b) as [o2|] eqn:Ho2; [|done]. simpl in Sp, Sc.
    assert (Hpp : ∀ a, pp = Some a → w'.(objs) !! a = w.(objs) !! a).
    { intros a ->. specialize (Hni a eq_refl). rewrite Sr by set_solver. apply H1. congruence. }
    rewrite Ho2 in Sc. split.
    + rewrite filter_cons_True by done. rewrite (link_same w w'); [|done|intros _; by apply Sa].
      simpl. eauto.
    + intros a [->|Ha]%elem_of_cons HKa; [|].
      * split; [unfold content; rewrite Ho, Ho2; destruct o, o2; naive_solver|].
        intros o3 Ho3. destruct o, o2; naive_solver.
      * destruct (Sk a Ha HKa) as [E Hm]. split; [|done]. rewrite E. unfold content.
        rewrite H1 by congruence. done.
    + intros a [->|Ha]%elem_of_cons HKa; [done|]. by apply Sf.
    + intros a [Hab Hal]%not_elem_of_cons Hne. rewrite Sr by (done || congruence). by apply H1.
    + intros a Ha. by rewrite Hpp.
    + intros _. by apply Sa.
    + rewrite filter_cons_True by done. simpl. rewrite Sn. simpl. lia.
    + done.
    + by destruct SF; split.
Qed.

(** An object without mark is unlinked and freed. *)
Lemma sweep_freed w pp b o l :
  sweep_pre w pp (b :: l) → w.(objs) !! b = Some o → ¬ K b →
  let w1 := relink pp o.(next) w in
  let w2 := set_objs (delete b w1.(objs)) w1 in
  let w3 := set_heap (set_count (w.(heap).(count) - 1) w2.(heap)) w2 in
  w1.(objs) !! b = Some o ∧ sweep_pre w3 pp l ∧ (∀ w', Swept w3 pp l w' → Swept w pp (b :: l) w').
Proof.
  intros [Hc [Hbl Hnd]%NoDup_cons Hl Hni HK Hn] Ho Hb w1 w2 w3.
  destruct Hc as (Hlk & Hb0 & o' & Ho' & Hc). assert (o' = o) as -> by congruence. clear Ho'.
  assert (Hpb : Some b ≠ pp) by (intros <-; specialize (Hni b eq_refl); set_solver).
  assert (H3 : ∀ a, a ≠ b → Some a ≠ pp → w3.(objs) !! a = w.(objs) !! a).
  { intros a Ha Hp. simpl. rewrite lookup_delete_ne by done. by apply relink_other. }
  assert (Hpp : ∀ a, pp = Some a → w3.(objs) !! a = w1.(objs) !! a).
  { intros a ->. simpl. rewrite lookup_delete_ne by congruence. done. }
  assert (Hlp : link w3 pp = o.(next)).
  { rewrite <-(relink_link pp o.(next) w Hl) at 1. by apply link_same. }
  destruct (relink_heap pp o.(next) w) as (R1 & R2 & R3).
  split; [by rewrite <-Ho; apply relink_other|]. split.
  - split.
    + rewrite Hlp. eapply chain_ext; [|done]. intros a Ha. rewrite H3; [done|congruence|].
      intros <-. specialize (Hni a eq_refl). set_solver.
    + done.
    + destruct pp as [p|]; [|done]. simpl in Hl |- *. rewrite lookup_delete_ne by congruence.
      destruct Hl as [op Hop]. unfold w1. simpl. rewrite Hop. simpl. by rewrite lookup_insert_eq.
    + intros a ->. specialize (Hni a eq_refl). set_solver.
    + intros a Ha. rewrite <-HK by set_solver. unfold marked. rewrite H3; [done|congruence|].
      intros <-. specialize (Hni a eq_refl). set_solver.
    + simpl in *. lia.
  - intros w' [Sc Sk Sf Sr Sp Sa Sn St SF]. split.
    + by rewrite filter_cons_False.
    + intros a [->|Ha]%elem_of_cons HKa; [done|]. destruct (Sk a Ha HKa) as [E Hm]. split; [|done].
      rewrite E. unfold content. rewrite H3; [done|congruence|].
      intros <-. specialize (Hni a eq_refl). set_solver.
    + intros a [->|Ha]%elem_of_cons HKa; [|by apply Sf]. rewrite Sr by done. simpl. apply lookup_delete_eq.
    + intros a [Hab Hal]%not_elem_of_cons Hne. rewrite Sr by done. by apply H3.
    + intros a ->. rewrite Sp by done. rewrite Hpp by done. apply relink_self.
    + intros Hne. rewrite Sa by done. by apply R3.
    + rewrite filter_cons_False by done. rewrite Sn. simpl. lia.
    + rewrite St. apply R2.
    + eapply Frame_trans; [apply (relink_frame pp o.(next))|]. destruct SF as [F1 F2 F3].
      split; [apply F1|apply F2|apply F3].
Qed.

Lemma wp_sweep fuel w pp l :
  sweep_pre w pp l → (length l < fuel)%nat → wp (sweep fuel pp) (λ _, Swept w pp l) w.
Proof.
  revert fuel w pp. induction l as [|b l IH]; intros fuel w pp Hp Hf.
  all: destruct fuel as [|fuel]; simpl in Hf; [lia|]; simpl.
  all: apply wp_bind, wp_load_link; [by apply Hp|].
  - rewrite (sp_chain _ _ _ Hp : link w pp = 0). simpl. apply wp_ret.
    split; try done; [apply Hp|set_solver..|simpl; lia].
  - destruct (sp_chain _ _ _ Hp) as (Hlk & Hb0 & o & Ho & _). rewrite Hlk.
    apply wp_if; intros Hz; [lia|]. apply wp_bind. eapply wp_deref; [done|]. apply wp_if; intros Hm.
    + assert (Hb : K b) by (apply (sp_K _ _ _ Hp); [set_solver|by exists o]).
      destruct (sweep_kept w pp b o l Hp Ho Hb) as [Hp1 Hs].
      apply wp_bind. eapply wp_store; [done|]. eapply wp_mono; [apply IH; [done|lia]|].
      intros [] w' Hw. by apply Hs.
    + assert (Hb : ¬ K b).
      { rewrite <-(sp_K _ _ _ Hp) by set_solver. intros (o' & ? & ?). congruence. }
      destruct (sweep_freed w pp b o l Hp Ho Hb) as (Ho1 & Hp1 & Hs).
      apply wp_bind, wp_store_link; [by apply Hp|]. apply wp_bind. eapply wp_free; [done|].
      apply wp_bind, wp_gets, wp_bind. pose proof (sp_count _ _ _ Hp) as Hn. simpl in Hn |- *.
      destruct (relink_heap pp o.(next) w) as (-> & _). apply wp_int; [lia|]. apply wp_bind, wp_mod.
      eapply wp_mono; [apply IH; [exact Hp1|lia]|]. intros [] w' Hw. by apply Hs.
Qed.
End sweep.

(** ** Collect *)

Lemma chain_size (m : gmap Z gc_obj) l :
  NoDup l → (∀ a, a ∈ l ↔ is_Some (m !! a)) → size m = length l.
Proof.
  intros Hnd Hl. rewrite <-size_dom, <-(size_list_to_set (C := gset Z) l Hnd). f_equal.
  apply leibniz_equiv. intros a. rewrite elem_of_dom, elem_of_list_to_set. by rewrite Hl.
Qed.

Lemma unmarked_le m : (unmarked m <= size m)%nat.
Proof. apply map_subseteq_size, map_filter_subseteq. Qed.

Lemma Frame_roots w w' : Frame w w' → root_vals w' = root_vals w.
Proof. intros [Hv Hr Hn]. unfold root_vals. by rewrite Hv, Hr, Hn. Qed.

(** The [i]-th registered variable. *)
Lemma root_at w i :
  roots_ok w → 0 <= i < w.(heap).(nroots) → ∃ x v,
    aget w.(heap).(roots) i = Some x ∧ w.(vars) !! x = Some v ∧ v ∈ root_vals w ∧
    omap (λ x, w.(vars) !! x) (take (Z.to_nat (i + 1)) w.(heap).(roots)) =
    omap (λ x, w.(vars) !! x) (take (Z.to_nat i) w.(heap).(roots)) ++ [v].
Proof.
  intros [Hlen Hn Hv _] Hi. destruct (aget_in w.(heap).(roots) i) as (x & Hx & Hx'); [lia|].
  destruct (lookup_lt_is_Some_2 w.(vars) x) as [v Hvx]; [eapply Hv; [|exact Hx']; lia|].
  exists x, v. split_and!; [done|done| |].
  - apply list_elem_of_omap. exists x. split; [|done].
    apply (list_elem_of_lookup_2 _ (Z.to_nat i)). rewrite lookup_take_lt by lia. exact Hx'.
  - replace (Z.to_nat (i + 1)) with (S (Z.to_nat i)) by lia.
    rewrite (take_S_r _ _ _ Hx'), omap_app. simpl. by rewrite Hvx.
Qed.

Lemma wp_mark_roots w (Q : unit → gc_mem → Prop) :
  objs_ok w.(objs) → roots_ok w →
  (∀ m', Marks w.(objs) (root_vals w) m' → Q tt (set_objs m' w)) → wp mark_roots Q w.
Proof.
  intros Hok Hr HQ. unfold mark_roots. apply wp_bind, wp_gets.
  apply (wp_mfor_upto _ _ (λ i w', ∃ m', w' = set_objs m' w ∧
    Marks w.(objs) (omap (λ x, w.(vars) !! x) (take (Z.to_nat i) w.(heap).(roots))) m')).
  - apply Hr.
  - exists w.(objs). split; [by destruct w|]. apply Marks_nil.
  - intros i w' Hi (m1 & -> & H1). destruct (root_at w i Hr Hi) as (x & v & Hx & Hv & Hin & ->).
    pose proof (λ a, mk_content _ _ _ a H1) as E.
    apply wp_bind, (wp_must _ x); [done|]. apply wp_bind. unfold load_var.
    apply wp_bind, wp_get, (wp_must _ v); [done|]. apply wp_bind, wp_get.
    eapply wp_mono; [apply wp_mark_val; simpl|].
    + by eapply objs_ok_rest.
    + intros Hp. eapply content_dom; [apply E|]. by apply (roots_val _ Hr v).
    + pose proof (unmarked_le m1). lia.
    + intros [] w2 (m2 & -> & H2). exists m2. split; [done|]. by eapply Marks_app.
  - intros w' (m' & -> & Hm'). by apply HQ.
Qed.

(** After marking from the roots, the marked objects are the live ones. *)
Lemma marked_live w m' a :
  (∀ a o, w.(objs) !! a = Some o → o.(mark) = 0) →
  Marks w.(objs) (root_vals w) m' → marked m' a ↔ live w a.
Proof.
  intros H0 Hm.
  assert (Hn : ∀ a, ¬ marked w.(objs) a).
  { intros b (o & Ho & Hz). rewrite (H0 _ _ Ho) in Hz. done. }
  split; [intros Ha; by apply (mk_from _ _ _ Hm)|].
  intros (v & Hv & Hp & Hr). assert (Hmv : marked m' v) by by apply (mk_vs _ _ _ Hm).
  clear Hv Hp. induction Hr as [|v b c He Hr IH]; [done|]. apply IH.
  by apply (mk_succ _ _ _ Hm v).
Qed.

Record Collected (w w' : gc_mem) : Prop := {
  co_ok : gc_ok w';
  co_live a : live w a → content w'.(objs) a = content w.(objs) a;
  co_dead a : is_Some (w'.(objs) !! a) → live w a;
  co_frame : Frame w w';
  co_count : w'.(heap).(count) <= w.(heap).(count);
  co_threshold : w'.(heap).(threshold) = Z.max w.(heap).(threshold) (2 * w'.(heap).(count))
}.

(** What is left after marking and sweeping. *)
Record Sweeped (w w' : gc_mem) : Prop := {
  se_objs : objs_ok w'.(objs);
  se_marks a o : w'.(objs) !! a = Some o → o.(mark) = 0;
  se_chain : ∃ l, chain w'.(objs) w'.(heap).(all) l ∧ NoDup l ∧
    (∀ a, a ∈ l ↔ is_Some (w'.(objs) !! a));
  se_count : w'.(heap).(count) = Z.of_nat (size w'.(objs));
  se_le : w'.(heap).(count) <= w.(heap).(count);
  se_threshold : w'.(heap).(threshold) = w.(heap).(threshold);
  se_live a : live w a → content w'.(objs) a = content w.(objs) a;
  se_dead a : is_Some (w'.(objs) !! a) → live w a;
  se_frame : Frame w w'
}.

Lemma kept_objs_ok (m m' : gmap Z gc_obj) (K : Z → Prop) :
  objs_ok m → (∀ a, K a → content m' a = content m a) → (∀ a, ¬ K a → m' !! a = None) →
  (∀ a, Decision (K a)) → (∀ a b, K a → edge m a b → K b) → objs_ok m'.
Proof.
  intros Hok HK Hd Hdec Hs.
  assert (Hin : ∀ a o, m' !! a = Some o → K a ∧ ∃ o0, m !! a = Some o0 ∧ type o0 = type o ∧ body o0 = body o).
  { intros a o Ho. destruct (Hdec a) as [Ha|Ha]; [|rewrite Hd in Ho; done]. split; [done|].
    specialize (HK a Ha). unfold content in HK. rewrite Ho in HK. destruct (m !! a); naive_solver. }
  split.
  - intros a o Ho. destruct (Hin _ _ Ho) as (_ & o0 & ? & _). by eapply obj_ptr.
  - intros a o Ho. destruct (Hin _ _ Ho) as (_ & o0 & H0 & <- & <-). by eapply obj_body.
  - intros a o v Ho Hv Hp. destruct (Hin _ _ Ho) as (Ha & o0 & H0 & Ht & Hb). rewrite <-Hb in Hv.
    assert (Kv : K v). { apply (Hs a); [done|]. exists (type o0), (body o0). split; [|done].
      apply content_Some. eauto. }
    eapply content_dom; [by apply HK|]. by eapply obj_closed.
Qed.

Lemma sweep_all w m1 w2 l :
  gc_ok w → Marks w.(objs) (root_vals w) m1 → NoDup l → (∀ a, a ∈ l ↔ is_Some (w.(objs) !! a)) →
  Swept (marked m1) (set_objs m1 w) None l w2 → Sweeped w w2.
Proof.
  intros Hok Hm Hnd Hl [Sc Sk Sf Sr _ _ Sn St SF]. pose proof (λ a, mk_content _ _ _ a Hm) as E.
  pose proof (λ a, marked_live w m1 a (ok_marks _ Hok) Hm) as HL.
  assert (Hd : ∀ a, ¬ marked m1 a → w2.(objs) !! a = None).
  { intros a Ha. destruct (decide (a ∈ l)) as [|Hal]; [by apply Sf|]. rewrite Sr by done. simpl.
    apply content_None. rewrite E. apply content_None. rewrite eq_None_not_Some, <-Hl. done. }
  assert (Hml : ∀ a, marked m1 a → a ∈ l).
  { intros a (o & Ho & _). apply Hl. eapply content_dom; [symmetry; apply E|]. simpl. eauto. }
  assert (Hk : ∀ a, marked m1 a → content w2.(objs) a = content w.(objs) a).
  { intros a Ha. destruct (Sk a (Hml a Ha) Ha) as [-> _]. simpl. apply E. }
  assert (Hdom : ∀ a, a ∈ filter (marked m1) l ↔ is_Some (w2.(objs) !! a)).
  { intros a. rewrite list_elem_of_filter. split.
    - intros [Ha Hal]. eapply content_dom; [by apply Hk|]. by apply Hl.
    - intros [o Ho]. destruct (decide (marked m1 a)) as [|Hn]; [split; [done|by apply Hml]|].
      by rewrite Hd in Ho. }
  assert (Hnf : NoDup (filter (marked m1) l)) by by apply NoDup_filter.
  pose proof (chain_size _ _ Hnd Hl) as Hsz. pose proof (chain_size _ _ Hnf Hdom) as Hsz2.
  pose proof (length_filter (marked m1) l). pose proof (ok_count _ Hok) as Hc. simpl in Sn.
  split.
  - eapply (kept_objs_ok w.(objs) _ (marked m1)); [apply Hok|done|done|apply _|].
    intros a b Ha He. rewrite HL in *. by eapply from_step.
  - intros a o Ho. assert (Ha : a ∈ filter (marked m1) l) by (apply Hdom; eauto).
    apply list_elem_of_filter in Ha as [Ha Hal]. by apply (Sk a Hal Ha).
  - exists (filter (marked m1) l). split_and!; done.
  - lia.
  - lia.
  - done.
  - intros a Ha. by apply Hk, HL.
  - intros a Ha. apply HL. destruct (decide (marked m1 a)) as [|Hn]; [done|]. rewrite Hd in Ha by done.
    by destruct Ha.
  - by destruct SF; split.
Qed.

Lemma live_roots w v : v ∈ root_vals w → IS_PTR v = true → live w v.
Proof. intros Hv Hp. exists v. split_and!; [done|done|reflexivity]. Qed.

Lemma Sweeped_ok w w2 w' :
  gc_ok w → w.(heap).(count) < 2 ^ 30 → Sweeped w w2 →
  w' = set_heap (set_threshold (Z.max w2.(heap).(threshold) (2 * w2.(heap).(count))) w2.(heap)) w2 →
  Collected w w'.
Proof.
  intros Hok Hn [S1 S2 S3 S4 S5 S6 S7 S8 S9] ->.
  assert (Hf : Frame w (set_heap (set_threshold (Z.max w2.(heap).(threshold) (2 * w2.(heap).(count)))
    w2.(heap)) w2)) by (destruct S9; by split).
  split; simpl; try done; [|by rewrite S6].
  pose proof (ok_threshold _ Hok). split; simpl; try done; [lia|].
  destruct (ok_roots _ Hok) as [R1 R2 R3 R4]. destruct S9 as [F1 F2 F3].
  split; simpl; [by rewrite F2|by rewrite F3|rewrite F1, F2, F3; apply R3|].
  intros v Hv Hp. rewrite (Frame_roots _ _ Hf) in Hv. simpl.
  eapply content_dom; [apply S7, live_roots; done|]. by apply R4.
Qed.

Lemma wp_gc_collect w : gc_ok w → w.(heap).(count) < 2 ^ 30 → wp gc_collect (λ _, Collected w) w.
Proof.
  intros Hok Hn. unfold gc_collect. apply wp_bind, wp_mark_roots; [apply Hok|apply Hok|].
  intros m1 Hm. apply wp_bind, wp_get, wp_bind. destruct (ok_chain _ Hok) as (l & Hc & Hnd & Hl).
  pose proof (chain_size _ _ Hnd Hl) as Hsz. pose proof (ok_count _ Hok) as Hcn.
  assert (Hs1 : size m1 = size w.(objs)).
  { rewrite <-!size_dom. f_equal. apply leibniz_equiv. intros a. rewrite !elem_of_dom.
    pose proof (mk_content _ _ _ a Hm). split; apply content_dom; done. }
  assert (Hf : (length l < S (size m1))%nat) by lia.
  eapply wp_mono; [apply (wp_sweep (marked m1) _ _ None l); [|exact Hf]|].
  { split; simpl; try done; [|lia]. eapply chain_ext; [|done]. intros b _.
    pose proof (mk_rest _ _ _ Hm b) as E. destruct (m1 !! b) as [o1|], (w.(objs) !! b) as [o|];
      simplify_eq/=; [|done]. destruct o, o1. naive_solver. }
  intros [] w2 HS%(sweep_all w m1 w2 l Hok Hm Hnd Hl). clear Hm Hs1 Hf.
  pose proof (se_le _ _ HS). pose proof (se_count _ _ HS). pose proof (se_threshold _ _ HS).
  pose proof (ok_threshold _ Hok).
  apply wp_bind, wp_gets, wp_bind. apply wp_int; [lia|]. apply wp_bind.
  apply wp_if; intros Ht; [apply wp_mod|apply wp_ret].
  all: apply wp_bind, wp_gets; apply wp_if; simpl; intros H64; [lia|]; apply wp_ret.
  all: eapply Sweeped_ok; [done..|].
  - f_equal. f_equal. lia.
  - replace (Z.max _ _) with (threshold (heap w2)) by lia. destruct w2 as [[]]. done.
Qed.
