(* ===== verification/GcAlloc.v ===== *)
(** * Allocation

    The root stack, [gc_alloc] and the allocators of
    src/portable-compiler/demo/scheme/gc.c: what is reachable from the roots
    or from the arguments of an allocator survives it unchanged. *)

From stdpp Require Import gmap.
From S2P Require Import Prelude Gc GcInv GcCollect.

(** What the C library promises of [malloc]: an address that is not in use
    and is aligned, when it does not return NULL. *)
Class Malloc (malloc : nat → gmap Z gc_obj → Z → Z) : Prop := malloc_fresh n m sz :
  malloc n m sz ≠ 0 → IS_PTR (malloc n m sz) = true ∧ m !! malloc n m sz = None.

(** ** States with the same objects *)

(** The caller's view: its variables and its part of the root stack. *)
Record Same (w w' : gc_mem) : Prop := {
  sm_vars : w'.(vars) = w.(vars);
  sm_nroots : w'.(heap).(nroots) = w.(heap).(nroots);
  sm_roots : take (Z.to_nat w.(heap).(nroots)) w'.(heap).(roots) =
    take (Z.to_nat w.(heap).(nroots)) w.(heap).(roots)
}.

Lemma Same_root_vals w w' : Same w w' → root_vals w' = root_vals w.
Proof. intros [Hv Hn Hr]. unfold root_vals. by rewrite Hv, Hn, Hr. Qed.

Lemma Frame_Same w w' : Frame w w' → Same w w'.
Proof. intros [Hv Hr Hn]. split; [done|done|by rewrite Hr]. Qed.

Lemma roots_ok_same w w' :
  roots_ok w → Same w w' → length w'.(heap).(roots) = 256%nat →
  (∀ v, v ∈ root_vals w → val_ok w'.(objs) v) → roots_ok w'.
Proof.
  intros [R1 R2 R3 R4] HS Hl Hv. pose proof (Same_root_vals _ _ HS) as Hrv. destruct HS as [S1 S2 S3].
  split; [done|by rewrite S2| |by rewrite Hrv].
  intros i x Hi Hx. rewrite S2 in Hi. rewrite S1. apply (R3 i); [done|].
  rewrite <-(lookup_take_lt _ (Z.to_nat w.(heap).(nroots))), <-S3 by done. by rewrite lookup_take_lt.
Qed.

(** Only the variables and the root stack have changed. *)
Lemma gc_ok_roots w w' :
  gc_ok w → w'.(objs) = w.(objs) → w'.(heap).(all) = w.(heap).(all) →
  w'.(heap).(count) = w.(heap).(count) → w'.(heap).(threshold) = w.(heap).(threshold) →
  roots_ok w' → gc_ok w'.
Proof. intros [] E1 E2 E3 E4 ?. split; rewrite ?E1, ?E2, ?E3, ?E4; done. Qed.

(** ** The root stack *)

Lemma omap_vars_ext (l l' : list Z) (xs : list nat) :
  (∀ x, x ∈ xs → l' !! x = l !! x) → omap (λ x, l' !! x) xs = omap (λ x, l !! x) xs.
Proof.
  induction xs as [|x xs IH]; intros HE; [done|]. csimpl. rewrite HE by set_solver.
  rewrite IH by set_solver. done.
Qed.

Lemma roots_elem w x :
  roots_ok w → x ∈ take (Z.to_nat w.(heap).(nroots)) w.(heap).(roots) → (x < length w.(vars))%nat.
Proof.
  intros Hr [i Hi]%list_elem_of_lookup. apply lookup_take_Some in Hi as [Hi Hlt].
  by eapply roots_var.
Qed.

(** Variables that are not roots come and go. *)
Lemma vars_ok w l :
  gc_ok w → (∀ x v, x ∈ take (Z.to_nat w.(heap).(nroots)) w.(heap).(roots) →
    w.(vars) !! x = Some v → l !! x = Some v) →
  gc_ok (set_vars l w) ∧ root_vals (set_vars l w) = root_vals w.
Proof.
  intros Hok Hl. pose proof (ok_roots _ Hok) as Hr.
  assert (Hrv : root_vals (set_vars l w) = root_vals w).
  { apply omap_vars_ext. intros x Hx. destruct (lookup_lt_is_Some_2 w.(vars) x) as [v Hv];
      [by apply roots_elem|]. rewrite Hv. by apply Hl. }
  split; [|done]. apply (gc_ok_roots w); try done. destruct Hr as [R1 R2 R3 R4].
  split; simpl; [done|done| |by rewrite Hrv].
  intros i x Hi Hx. destruct (lookup_lt_is_Some_2 w.(vars) x) as [v Hv]; [by eapply R3|].
  apply lookup_lt_Some with v. apply Hl; [|done].
  apply (list_elem_of_lookup_2 _ i). by rewrite lookup_take_lt.
Qed.

Lemma wp_enter v w (Q : nat → gc_mem → Prop) :
  gc_ok w →
  (gc_ok (set_vars (w.(vars) ++ [v]) w) → root_vals (set_vars (w.(vars) ++ [v]) w) = root_vals w →
    Q (length w.(vars)) (set_vars (w.(vars) ++ [v]) w)) → wp (enter v) Q w.
Proof.
  intros Hok HQ. apply wp_bind, wp_get, wp_bind, wp_mod, wp_ret.
  destruct (vars_ok w (w.(vars) ++ [v]) Hok) as [H1 H2]; [|by apply HQ].
  intros x u _. apply lookup_app_l_Some.
Qed.

Lemma wp_load_var x v w (Q : Z → gc_mem → Prop) :
  w.(vars) !! x = Some v → Q v w → wp (load_var x) Q w.
Proof. intros Hv HQ. apply wp_bind, wp_get. by eapply wp_must. Qed.

Lemma store_var_ok w d v :
  gc_ok w → val_ok w.(objs) v → gc_ok (set_vars (<[d := v]> w.(vars)) w).
Proof.
  intros Hok Hv. apply (gc_ok_roots w); try done. destruct (ok_roots _ Hok) as [R1 R2 R3 R4].
  split; simpl; [done|done|rewrite length_insert; done|].
  intros u (x & Hx & Hu)%list_elem_of_omap. simpl in Hx, Hu. destruct (decide (x = d)) as [->|Hne].
  - destruct (decide (d < length w.(vars))%nat).
    + rewrite list_lookup_insert_eq in Hu by done. by simplify_eq.
    + rewrite list_insert_ge in Hu by lia. apply R4, list_elem_of_omap. eauto.
  - rewrite list_lookup_insert_ne in Hu by done. apply R4, list_elem_of_omap. eauto.
Qed.

Lemma wp_store_var d v w (Q : unit → gc_mem → Prop) :
  (d < length w.(vars))%nat → Q tt (set_vars (<[d := v]> w.(vars)) w) → wp (store_var d v) Q w.
Proof.
  intros Hd HQ. destruct (lookup_lt_is_Some_2 _ _ Hd) as [u Hu].
  apply wp_bind. eapply wp_load_var; [done|]. by apply wp_mod.
Qed.

(** The state after [gc_push] of the variable [x]. *)
Definition pushed (x : nat) (w : gc_mem) : gc_mem :=
  set_heap (set_nroots (w.(heap).(nroots) + 1)
    (set_roots (<[Z.to_nat w.(heap).(nroots) := x]> w.(heap).(roots)) w.(heap))) w.

Lemma pushed_take x w :
  roots_ok w → w.(heap).(nroots) < 256 →
  take (Z.to_nat (w.(heap).(nroots) + 1)) (pushed x w).(heap).(roots) =
  take (Z.to_nat w.(heap).(nroots)) w.(heap).(roots) ++ [x].
Proof.
  intros [R1 R2 _ _] Hn. simpl. replace (Z.to_nat (nroots (heap w) + 1)) with
    (S (Z.to_nat (nroots (heap w)))) by lia.
  erewrite take_S_r; [|apply list_lookup_insert_eq; lia]. by rewrite take_insert_ge.
Qed.

Lemma pushed_ok x v w :
  gc_ok w → w.(heap).(nroots) < 256 → w.(vars) !! x = Some v → val_ok w.(objs) v →
  gc_ok (pushed x w) ∧ root_vals (pushed x w) = root_vals w ++ [v].
Proof.
  intros Hok Hn Hx Hv. pose proof (ok_roots _ Hok) as Hr.
  assert (Hrv : root_vals (pushed x w) = root_vals w ++ [v]).
  { unfold root_vals. change (nroots (heap (pushed x w))) with (nroots (heap w) + 1).
    rewrite pushed_take, omap_app by done. simpl. by rewrite Hx. }
  split; [|done]. apply (gc_ok_roots w); try done. pose proof Hr as [R1 R2 R3 R4]. split.
  - simpl. by rewrite length_insert.
  - simpl. lia.
  - simpl. intros i y Hi Hy. destruct (decide (i = Z.to_nat w.(heap).(nroots))) as [->|Hne].
    + rewrite list_lookup_insert_eq in Hy by lia. simplify_eq. by apply lookup_lt_Some in Hx.
    + rewrite list_lookup_insert_ne in Hy by done. eapply R3; [|done]. lia.
  - intros u. rewrite Hrv. intros [Hu|Hu%list_elem_of_singleton]%elem_of_app; [by apply R4|by subst].
Qed.

Lemma wp_gc_push x v w (Q : option unit → gc_mem → Prop) :
  gc_ok w → w.(vars) !! x = Some v → val_ok w.(objs) v →
  (w.(heap).(nroots) = 256 → Q None w) →
  (w.(heap).(nroots) < 256 → gc_ok (pushed x w) → root_vals (pushed x w) = root_vals w ++ [v] →
    Q (Some tt) (pushed x w)) →
  wp (gc_push x) Q w.
Proof.
  intros Hok Hx Hv H0 HQ. pose proof (ok_roots _ Hok) as [R1 R2 _ _].
  apply wp_bind, wp_gets, wp_if; unfold GC_ROOTS_MAX; intros Hn; [apply wp_ret, H0; lia|].
  apply wp_bind. rewrite aset_in by lia. apply wp_some, wp_bind, wp_mod, wp_ret.
  destruct (pushed_ok x v w) as [H1 H2]; [done|lia|done|done|]. apply HQ; [lia|done|done].
Qed.

Definition popped (n : Z) (w : gc_mem) : gc_mem := set_heap (set_nroots (w.(heap).(nroots) - n) w.(heap)) w.

Lemma gc_popped_ok n w : gc_ok w → 0 <= n <= w.(heap).(nroots) → gc_ok (popped n w).
Proof.
  intros Hok Hn. apply (gc_ok_roots w); try done. destruct (ok_roots _ Hok) as [R1 R2 R3 R4].
  split; simpl; [done|lia|intros i x Hi; apply R3; lia|].
  intros v (x & Hx & Hv)%list_elem_of_omap. apply R4, list_elem_of_omap. exists x. split; [|done].
  simpl in Hx. apply list_elem_of_lookup in Hx as [i Hi]. apply lookup_take_Some in Hi as [Hi Hlt].
  apply (list_elem_of_lookup_2 _ i). rewrite lookup_take_lt by lia. done.
Qed.

Lemma wp_gc_pop n w (Q : unit → gc_mem → Prop) :
  gc_ok w → 0 <= n <= w.(heap).(nroots) → (gc_ok (popped n w) → Q tt (popped n w)) → wp (gc_pop n) Q w.
Proof.
  intros Hok Hn HQ. pose proof (ok_roots _ Hok) as [_ R2 _ _].
  apply wp_bind, wp_gets, wp_bind. apply wp_int; [lia|]. apply wp_mod. by apply HQ, gc_popped_ok.
Qed.

(** ** The fields of an object *)

(** The state after the fields of the object at [p] have been written. *)
Definition upd (p : Z) (b : gc_body) (w : gc_mem) : gc_mem :=
  set_objs (alter (set_body b) p w.(objs)) w.

Lemma content_upd p b w a t bd :
  content w.(objs) p = Some (t, bd) →
  content (upd p b w).(objs) a = if decide (a = p) then Some (t, b) else content w.(objs) a.
Proof.
  intros (o & Ho & <- & _)%content_Some. unfold content. simpl. case_decide as Ha.
  - subst a. rewrite lookup_alter_eq, Ho. done.
  - rewrite lookup_alter_ne by done. done.
Qed.

Lemma upd_ok p b w t bd :
  gc_ok w → content w.(objs) p = Some (t, bd) → body_ok t b →
  (∀ v, v ∈ vals b → val_ok w.(objs) v) → gc_ok (upd p b w).
Proof.
  intros [O1 O2 O3 O4 O5 O6] Hp Hb Hv. pose proof Hp as (o & Ho & Ht & _)%content_Some.
  assert (Hd : ∀ a, is_Some (alter (set_body b) p w.(objs) !! a) ↔ is_Some (w.(objs) !! a)).
  { intros a. rewrite lookup_alter_is_Some. done. }
  assert (Hi : ∀ a o', alter (set_body b) p w.(objs) !! a = Some o' →
    ∃ o0, w.(objs) !! a = Some o0 ∧ o' = if decide (a = p) then set_body b o0 else o0).
  { intros a o' Ha. case_decide as Hc; [subst a; rewrite lookup_alter_eq in Ha|
      rewrite lookup_alter_ne in Ha by done]; [|eauto].
    rewrite Ho in Ha. simplify_eq/=. eauto. }
  split; simpl.
  - destruct O1 as [P1 P2 P3]. split.
    + intros a o' Ha. destruct (Hi _ _ Ha) as (o0 & H0 & _). eauto.
    + intros a o' Ha. destruct (Hi _ _ Ha) as (o0 & H0 & ->). case_decide as Hc; [|eauto].
      subst a. simplify_eq. done.
    + intros a o' v Ha Hin Hptr. destruct (Hi _ _ Ha) as (o0 & H0 & ->). apply Hd.
      case_decide as Hc; [by apply Hv|]. by eapply P3.
  - intros a o' Ha. destruct (Hi _ _ Ha) as (o0 & H0 & ->). case_decide; simpl; eauto.
  - destruct O3 as (l & Hc & Hn & Hl). exists l. split_and!; [|done|intros a; by rewrite Hl, Hd].
    eapply chain_ext; [|exact Hc]. intros a _. destruct (decide (a = p)) as [->|Hne].
    + rewrite lookup_alter_eq, Ho. done.
    + by rewrite lookup_alter_ne.
  - rewrite O4. f_equal. rewrite <-!size_dom, dom_alter_L. done.
  - done.
  - eapply roots_ok_same; [exact O6|done|apply O6|]. intros v Hin Hptr. apply Hd. by apply O6.
Qed.

Lemma wp_put_body p b w t bd (Q : unit → gc_mem → Prop) :
  content w.(objs) p = Some (t, bd) → Q tt (upd p b w) → wp (put_body p b) Q w.
Proof.
  intros (o & Ho & _)%content_Some HQ. apply wp_bind. eapply wp_deref; [done|].
  eapply wp_store; [done|]. unfold upd in HQ.
  replace (alter (set_body b) p (objs w)) with (<[p := set_body b o]> (objs w)) in HQ; [done|].
  apply map_eq. intros a. destruct (decide (a = p)) as [->|Hne].
  - by rewrite lookup_insert_eq, lookup_alter_eq, Ho.
  - by rewrite lookup_insert_ne, lookup_alter_ne.
Qed.

(** ** Allocation *)

Lemma zero_body_ok t sz b :
  zero_body t sz = Some b → u8 t = t ∧ body_ok t b ∧ ∀ v, v ∈ vals b → v = 0.
Proof.
  assert (Hr : ∀ n v, v ∈ replicate n 0 → v = 0) by (intros n v [? _]%elem_of_replicate; done).
  unfold zero_body, OBJ_PAIR, OBJ_STRING, OBJ_SYMBOL, OBJ_CLOSURE. intros H.
  repeat case_match; simplify_eq/=; split_and!; rewrite ?orb_true_iff, ?Z.eqb_eq in *.
  all: try (by subst); try set_solver; try lia; unfold OBJ_STRING, OBJ_SYMBOL; naive_solver.
Qed.

(** The collector may have run: nothing that is live was lost. *)
Record Shrunk (w w' : gc_mem) : Prop := {
  sh_ok : gc_ok w';
  sh_live a : live w a → content w'.(objs) a = content w.(objs) a;
  sh_only a : is_Some (w'.(objs) !! a) → content w'.(objs) a = content w.(objs) a;
  sh_frame : Frame w w';
  sh_count : w'.(heap).(count) <= w.(heap).(count)
}.

Lemma Shrunk_refl w : gc_ok w → Shrunk w w.
Proof. by split. Qed.

Lemma Shrunk_collected w w' : Collected w w' → Shrunk w w'.
Proof. intros [C1 C2 C3 C4 C5 _]. split; auto. Qed.

Lemma Shrunk_trans w1 w2 w3 : Shrunk w1 w2 → Shrunk w2 w3 → Shrunk w1 w3.
Proof.
  intros [S1 S2 S3 S4 S5] [T1 T2 T3 T4 T5]. split; [done| | |by eapply Frame_trans|lia].
  - intros a Ha. rewrite T2; [by apply S2|]. unfold live. rewrite (Frame_roots _ _ S4).
    by eapply from_ext.
  - intros a Ha. rewrite T3 by done. apply S3. eapply content_dom; [symmetry; by apply T3|done].
Qed.

(** The object at [p] is new. *)
Record Allocated (w : gc_mem) (p t : Z) (b : gc_body) (w' : gc_mem) : Prop := {
  al_ok : gc_ok w';
  al_new : content w'.(objs) p = Some (t, b);
  al_live a : live w a → a ≠ p ∧ content w'.(objs) a = content w.(objs) a;
  al_only a : a ≠ p → is_Some (w'.(objs) !! a) →
    content w'.(objs) a = content w.(objs) a ∧ ¬ edge w.(objs) a p;
  al_frame : Frame w w';
  al_count : w'.(heap).(count) <= w.(heap).(count) + 1
}.

Lemma wp_link_obj p t sz b w0 w (Q : Z → gc_mem → Prop) :
  Shrunk w0 w → w.(objs) !! p = None → IS_PTR p = true → zero_body t sz = Some b →
  w0.(heap).(count) < 2 ^ 30 →
  (gc_ok w0) →
  (∀ w', Allocated w0 p t b w' → Q p w') → wp (link_obj p t sz) Q w.
Proof.
  intros [Hok Hlv Hon Hfr Hcn] Hp Hptr Hz Hn Hok0 HQ. destruct (zero_body_ok _ _ _ Hz) as (Ht & Hb & Hv).
  apply wp_bind. rewrite Hz. apply wp_some, wp_bind, wp_gets, wp_bind, wp_mod, wp_bind, wp_mod.
  pose proof (ok_count _ Hok) as Hc. apply wp_bind. apply wp_int; [lia|]. apply wp_bind, wp_mod, wp_ret. rewrite Ht. apply HQ. clear HQ.
  destruct Hok as [O1 O2 O3 O4 O5 O6]. set (o := mk_obj t 0 w.(heap).(all) b).
  assert (Hc' : ∀ a, content (<[p := o]> w.(objs)) a = if decide (a = p) then Some (t, b) else content w.(objs) a).
  { intros a. unfold content. case_decide as Ha; [subst a; by rewrite lookup_insert_eq|].
    by rewrite lookup_insert_ne. }
  assert (Hval : ∀ v, val_ok w.(objs) v → val_ok (<[p := o]> w.(objs)) v).
  { intros v Hvo Hpv. rewrite lookup_insert_is_Some'. right. by apply Hvo. }
  split; simpl.
  - split; simpl.
    + destruct O1 as [P1 P2 P3]. split.
      * intros a o' [[-> _]|[_ ?]]%lookup_insert_Some; [done|eauto].
      * intros a o' [[-> <-]|[_ ?]]%lookup_insert_Some; [done|eauto].
      * intros a o' v [[-> <-]|[_ Ho]]%lookup_insert_Some Hin; [|by eapply Hval, P3].
        simpl in Hin. rewrite (Hv v Hin). done.
    + intros a o' [[-> <-]|[_ ?]]%lookup_insert_Some; [done|eauto].
    + destruct O3 as (l & Hch & Hnd & Hl). assert (Hpl : p ∉ l) by (rewrite Hl, Hp; by intros []).
      exists (p :: l). split_and!.
      * simpl. split; [done|]. split; [intros ->; done|]. exists o. rewrite lookup_insert_eq.
        split; [done|]. eapply chain_ext; [|exact Hch]. intros a Ha. rewrite lookup_insert_ne by congruence. done.
      * by apply NoDup_cons.
      * intros a. rewrite elem_of_cons, lookup_insert_is_Some', Hl. naive_solver.
    + rewrite map_size_insert_None by done. lia.
    + done.
    + eapply roots_ok_same; [exact O6|done|apply O6|]. intros v Hin. apply Hval. by apply O6.
  - rewrite Hc'. by rewrite decide_True.
  - intros a Ha. specialize (Hlv a Ha). assert (a ≠ p).
    { intros ->. assert (is_Some (w0.(objs) !! p)) as Hs.
      { eapply from_ok; [apply Hok0|apply Hok0|exact Ha]. }
      apply (content_dom _ _ _ Hlv) in Hs. rewrite Hp in Hs. by destruct Hs. }
    split; [done|]. rewrite Hc'. by rewrite decide_False.
  - intros a Ha Hs. rewrite lookup_insert_ne in Hs by done. specialize (Hon a Hs).
    rewrite Hc', decide_False by done. split; [done|]. intros He.
    apply (edge_ext _ w.(objs)) in He; [|done]. destruct He as (t' & bd & Hct & Hin & _).
    apply content_Some in Hct as (oa & Hoa & _ & <-).
    destruct (obj_closed _ O1 _ _ _ Hoa Hin Hptr) as [o' Ho']. congruence.
  - destruct Hfr; by split.
  - lia.
Qed.

(** The allocator fails at some point. *)
Definition oom (malloc : nat → gmap Z gc_obj → Z → Z) : Prop := ∃ n m sz, malloc n m sz = 0.

Section alloc.
Context (malloc : nat → gmap Z gc_obj → Z → Z) `{!Malloc malloc}.

Lemma wp_do_malloc sz w0 w (Q : Z → gc_mem → Prop) :
  Shrunk w0 w →
  (oom malloc → ∀ w', Shrunk w0 w' → Q 0 w') →
  (∀ w' p, Shrunk w0 w' → w'.(objs) !! p = None → IS_PTR p = true → Q p w') →
  wp (do_malloc malloc sz) Q w.
Proof.
  intros HS H0 HQ. apply wp_bind, wp_get, wp_bind, wp_mod, wp_ret.
  assert (HS' : Shrunk w0 (set_mallocs (S w.(mallocs)) w)).
  { destruct HS as [S1 S2 S3 S4 S5]. split; [|done|done|by destruct S4; split|done].
    apply (gc_ok_roots w); try done. destruct (ok_roots _ S1). by split. }
  destruct (decide (malloc w.(mallocs) w.(objs) sz = 0)) as [E|Hne].
  { rewrite E. apply H0; [by do 3 eexists|done]. }
  destruct (malloc_fresh _ _ _ Hne) as [H1 H2]. by apply HQ.
Qed.

Lemma wp_gc_alloc t sz b w (Q : option Z → gc_mem → Prop) :
  gc_ok w → w.(heap).(count) < 2 ^ 30 → zero_body t sz = Some b →
  (oom malloc → ∀ w', Q None w') → (∀ p w', Allocated w p t b w' → Q (Some p) w') →
  wp (gc_alloc malloc t sz) Q w.
Proof.
  intros Hok Hn Hz H0 HQ. unfold gc_alloc. apply wp_bind, wp_gets, wp_bind.
  assert (HK : ∀ w1, Shrunk w w1 → wp gc_collect (λ _, Shrunk w) w1).
  { intros w1 HS. eapply wp_mono; [apply wp_gc_collect; [apply HS|pose proof (sh_count _ _ HS); lia]|].
    intros [] w2 HC. by eapply Shrunk_trans, Shrunk_collected. }
  assert (HL : ∀ w1 p, Shrunk w w1 → w1.(objs) !! p = None → IS_PTR p = true →
    wp (p ← link_obj p t sz; mret (Some p)) Q w1).
  { intros w1 p HS Hp Hptr. apply wp_bind. eapply wp_link_obj; eauto. intros w2 HA. by apply wp_ret, HQ. }
  assert (Hnz : ∀ p, IS_PTR p = true → (p =? 0) = false) by (intros p Hp; by destruct p).
  eapply (wp_mono _ (λ _, Shrunk w)).
  { apply wp_if; intros _; [by apply HK, Shrunk_refl|by apply wp_ret, Shrunk_refl]. }
  intros [] w1 HS. apply wp_bind. eapply wp_do_malloc; [exact HS| |].
  - intros Ho w2 HS2. simpl. apply wp_bind. eapply wp_mono; [by apply HK|]. intros [] w3 HS3.
    apply wp_bind. eapply wp_do_malloc; [exact HS3| |].
    + intros _ w4 _. by apply wp_ret, H0.
    + intros w4 p HS4 Hp Hptr. rewrite Hnz by done. by apply HL.
  - intros w2 p HS2 Hp Hptr. rewrite Hnz by done. by apply HL.
Qed.
End alloc.
