(* ===== verification/GcMake.v ===== *)
(** * The allocators

    [gc_cons], [gc_string], [gc_symbol] and [gc_closure] of
    src/portable-compiler/demo/scheme/gc.c. *)

From stdpp Require Import gmap.
From S2P Require Import Prelude Gc GcInv GcCollect GcAlloc.

(** An allocator was called with the values [vs] and has returned [p]. *)
Record Made (w : gc_mem) (vs : list Z) (p t : Z) (b : gc_body) (w' : gc_mem) : Prop := {
  md_ok : gc_ok w';
  md_new : content w'.(objs) p = Some (t, b);
  md_live a : from w.(objs) (root_vals w ++ vs) a → a ≠ p ∧ content w'.(objs) a = content w.(objs) a;
  md_only a : a ≠ p → is_Some (w'.(objs) !! a) →
    content w'.(objs) a = content w.(objs) a ∧ ¬ edge w.(objs) a p;
  md_same : Same w w';
  md_count : w'.(heap).(count) <= w.(heap).(count) + 1
}.

(** The fields of the new object have been written. *)
Record Filled (w : gc_mem) (p t : Z) (b : gc_body) (w' : gc_mem) : Prop := {
  fi_ok : gc_ok w';
  fi_new : content w'.(objs) p = Some (t, b);
  fi_rest a : a ≠ p → content w'.(objs) a = content w.(objs) a;
  fi_heap : w'.(heap) = w.(heap);
  fi_vars : w'.(vars) = w.(vars)
}.

Lemma Filled_refl w p t b : gc_ok w → content w.(objs) p = Some (t, b) → Filled w p t b w.
Proof. by split. Qed.

Lemma content_Some_dom m a tb : content m a = Some tb → is_Some (m !! a).
Proof. destruct tb as [t b]. intros (o & Ho & _)%content_Some. eauto. Qed.

Lemma Filled_val w p t b w' v : Filled w p t b w' → val_ok w.(objs) v → val_ok w'.(objs) v.
Proof.
  intros [_ Hn Hr _ _] Hv Hp. destruct (decide (v = p)) as [->|]; [by eapply content_Some_dom|].
  eapply content_dom; [by apply Hr|]. by apply Hv.
Qed.

Lemma Filled_upd w p t b w1 b' :
  Filled w p t b w1 → body_ok t b' → (∀ v, v ∈ vals b' → val_ok w.(objs) v) → Filled w p t b' (upd p b' w1).
Proof.
  intros HF Hb Hv. pose proof HF as [F1 F2 F3 F4 F5]. split; [|..|done|done].
  - eapply upd_ok; eauto. intros v Hin. eapply Filled_val; eauto.
  - rewrite (content_upd p b' w1 p t b F2). by rewrite decide_True.
  - intros a Ha. rewrite (content_upd p b' w1 a t b F2). rewrite decide_False by done. by apply F3.
Qed.

(** The body of the new object is overwritten with [b']. *)
Lemma wp_fill w p t b w1 b' (Q : unit → gc_mem → Prop) :
  Filled w p t b w1 → body_ok t b' → (∀ v, v ∈ vals b' → val_ok w.(objs) v) →
  (∀ w2, Filled w p t b' w2 → Q tt w2) → wp (put_body p b') Q w1.
Proof.
  intros HF Hb Hv HQ. eapply wp_put_body; [apply HF|]. by eapply HQ, Filled_upd.
Qed.

(** An object that is filled after allocation, in a state [w1] that registers
    the arguments as roots. *)
Lemma Made_filled w vs w1 p t b0 w2 b w3 w4 :
  Allocated w1 p t b0 w2 → Filled w2 p t b w3 →
  w1.(objs) = w.(objs) → w1.(heap).(count) = w.(heap).(count) → root_vals w1 = root_vals w ++ vs →
  gc_ok w4 → w4.(objs) = w3.(objs) → w4.(heap).(count) = w3.(heap).(count) → Same w w4 →
  Made w vs p t b w4.
Proof.
  intros [A1 A2 A3 A4 A5 A6] [F1 F2 F3 F4 F5] E1 E2 E3 Hok E4 E5 HS.
  split; rewrite ?E4, ?E5; [done|done| | |done|rewrite F4; lia].
  - intros a Ha. destruct (A3 a) as [Hne HE]; [unfold live; by rewrite E1, E3|].
    split; [done|]. rewrite F3 by done. by rewrite HE, E1.
  - intros a Ha Hs. rewrite F3 by done. destruct (A4 a Ha) as [H1 H2];
      [eapply content_dom; [symmetry; by apply F3|done]|]. by rewrite E1 in H1, H2.
Qed.

Section make.
Context (malloc : nat → gmap Z gc_obj → Z → Z) `{!Malloc malloc}.

(** Leaving the scope of local variables that were registered and popped. *)
Lemma leave_ok w w' l :
  gc_ok w → gc_ok w' → w'.(vars) = w.(vars) ++ l → w'.(heap).(nroots) = w.(heap).(nroots) →
  take (Z.to_nat w.(heap).(nroots)) w'.(heap).(roots) = take (Z.to_nat w.(heap).(nroots)) w.(heap).(roots) →
  gc_ok (set_vars w.(vars) w') ∧ Same w (set_vars w.(vars) w').
Proof.
  intros Hok Hok' Hv Hn Hr. split; [|by split].
  apply (vars_ok w'); [done|]. intros x v. rewrite Hn, Hr, Hv. intros Hx Hl.
  rewrite lookup_app_l in Hl; [done|]. by apply roots_elem; [apply Hok|].
Qed.

Lemma val_ok_imm m v : IS_PTR v = false → val_ok m v.
Proof. intros E Hp. by rewrite E in Hp. Qed.

Lemma pair_vals m x y v : val_ok m x → val_ok m y → v ∈ vals (Pair x y) → val_ok m v.
Proof. intros Hx Hy [->|[->|[]%elem_of_nil]%elem_of_cons]%elem_of_cons; done. Qed.

(** The end of [gc_cons]: [w4] has the two arguments as variables and roots. *)
Lemma cons_tail x y w w4 p w5 (Q : option Z → gc_mem → Prop) :
  gc_ok w → Allocated w4 p OBJ_PAIR (Pair 0 0) w5 → w4.(objs) = w.(objs) →
  w4.(heap).(count) = w.(heap).(count) → w4.(vars) = w.(vars) ++ [x; y] →
  w4.(heap).(nroots) = w.(heap).(nroots) + 2 → root_vals w4 = root_vals w ++ [x; y] →
  take (Z.to_nat w.(heap).(nroots)) w4.(heap).(roots) = take (Z.to_nat w.(heap).(nroots)) w.(heap).(roots) →
  (∀ w', Made w [x; y] p OBJ_PAIR (Pair x y) w' → Q (Some p) w') →
  wp (car ← load_var (length w.(vars)); gc_set_car p car;;
      cdr ← load_var (length (w.(vars) ++ [x])); gc_set_cdr p cdr;;
      gc_pop 2;; leave 2;; mret (Some p)) Q w5.
Proof.
  intros Hok HA Eo Ec Ev En Hrv Er HQ. pose proof HA as [A1 A2 _ _ A5 _]. pose proof A5 as [Fv Fr Fn].
  assert (Hv : ∀ v, v ∈ [x; y] → val_ok w5.(objs) v).
  { intros v Hv. apply (roots_val w5 (ok_roots _ A1)). rewrite (Frame_roots _ _ A5), Hrv. set_solver. }
  assert (Hx : val_ok w5.(objs) x) by (apply Hv; set_solver).
  assert (Hy : val_ok w5.(objs) y) by (apply Hv; set_solver).
  pose proof (Filled_refl w5 p _ _ A1 A2) as F5. rewrite Ev in Fv.
  apply wp_bind. unfold load_var. apply wp_bind, wp_get, (wp_must _ x).
  { rewrite Fv. by rewrite lookup_app_r, Nat.sub_diag by done. }
  apply wp_bind, wp_bind. eapply wp_get_pair; [apply F5|].
  eapply (wp_fill w5); [exact F5|done|intros v; apply pair_vals; [done|by apply val_ok_imm]|]. intros w6 F6. simpl in F6.
  apply wp_bind, wp_bind, wp_get, (wp_must _ y).
  { rewrite (fi_vars _ _ _ _ _ F6), Fv, length_app, lookup_app_r by lia.
    by replace (_ + _ - _)%nat with 1%nat by (simpl; lia). }
  apply wp_bind, wp_bind. eapply wp_get_pair; [apply F6|].
  eapply (wp_fill w5); [exact F6|done|intros v; by apply pair_vals|]. intros w7 F7. simpl in F7.
  pose proof (ok_roots _ Hok) as [R1 R2 _ _]. pose proof (fi_heap _ _ _ _ _ F7) as Fh.
  apply wp_bind, wp_gc_pop; [apply F7|rewrite Fh; lia|]. intros Hok8.
  assert (Hv8 : vars (popped 2 w7) = vars w ++ [x; y]) by (simpl; by rewrite (fi_vars _ _ _ _ _ F7)).
  destruct (leave_ok w (popped 2 w7) [x; y] Hok Hok8 Hv8) as [Hok9 HS9];
    [simpl; rewrite Fh; lia|simpl; by rewrite Fh, Fr|].
  unfold leave. apply wp_bind, wp_mod, wp_ret. rewrite Hv8, length_app. simpl.
  replace (_ + 2 - 2)%nat with (length (vars w)) by lia.
  rewrite take_app_length. apply HQ. by eapply (Made_filled w _ w4).
Qed.

Lemma wp_gc_cons x y w (Q : option Z → gc_mem → Prop) :
  gc_ok w → w.(heap).(count) < 2 ^ 30 → val_ok w.(objs) x → val_ok w.(objs) y →
  (oom malloc ∨ 256 < w.(heap).(nroots) + 2 → ∀ w', Q None w') →
  (∀ p w', Made w [x; y] p OBJ_PAIR (Pair x y) w' → Q (Some p) w') →
  wp (gc_cons malloc x y) Q w.
Proof.
  intros Hok Hn Hx Hy H0 HQ. unfold gc_cons.
  apply wp_bind, wp_enter; [done|]. intros Hok1 Hrv1. set (w1 := set_vars (vars w ++ [x]) w) in *.
  apply wp_bind, wp_enter; [done|]. intros Hok2 Hrv2. set (w2 := set_vars (vars w1 ++ [y]) w1) in *.
  assert (Hv2 : vars w2 = vars w ++ [x; y]) by (simpl; by rewrite <-app_assoc).
  apply wp_on_exit, (wp_gc_push _ x); [done| |done|simpl; intros; apply H0; lia|].
  { rewrite Hv2. by rewrite lookup_app_r, Nat.sub_diag by done. }
  intros Hn3 Hok3 Hrv3. set (w3 := pushed (length (vars w)) w2) in *.
  apply wp_on_exit, (wp_gc_push _ y); [done| |done|simpl; intros; apply H0; lia|].
  { change (vars w3) with (vars w2). rewrite Hv2. change (vars w1) with (vars w ++ [x]).
    rewrite length_app. rewrite lookup_app_r by lia. by replace (_ + _ - _)%nat with 1%nat by (simpl; lia). }
  intros Hn4 Hok4 Hrv4. set (w4 := pushed (length (vars w1)) w3) in *.
  rewrite Hrv3, Hrv2, Hrv1, <-app_assoc in Hrv4. simpl in Hrv4.
  apply wp_on_exit. eapply (wp_gc_alloc malloc OBJ_PAIR SIZEOF_PAIR (Pair 0 0)); [done|done|done|auto|].
  intros p w5 HA. pose proof (ok_roots _ Hok) as [R1 R2 _ _].
  eapply (cons_tail x y w w4); [done|done|done|done|done|simpl; lia|done| |by apply HQ].
  simpl. by rewrite !take_insert_ge by lia.
Qed.

(** ** Strings and symbols *)

(** The bytes of a string object: the text, its terminator and the padding
    that [sizeof] adds. *)
Definition str_data (s : list Z) (len : Z) : list Z := take (Z.to_nat len) s ++ replicate 5 0.

Lemma zero_str t len :
  t = OBJ_STRING ∨ t = OBJ_SYMBOL → 0 <= len < 2 ^ 31 →
  zero_body t (u64 (SIZEOF_STRING + u64 len + 1)) = Some (Str 0 (replicate (Z.to_nat len + 5) 0)).
Proof.
  intros Ht Hl. unfold u64. rewrite !Z.mod_small by (unfold SIZEOF_STRING; rewrite ?Z.mod_small; lia).
  unfold zero_body, OFFSET_DATA, SIZEOF_STRING.
  replace (Z.to_nat (24 + len + 1 - 20)) with (Z.to_nat len + 5)%nat by lia.
  destruct Ht as [-> | ->]; simpl; by destruct (Z.leb_spec 24 (24 + len + 1)); [|lia].
Qed.

Lemma str_copied s len :
  0 <= len <= Z.of_nat (length s) →
  asplice (replicate (Z.to_nat len + 5) 0) 0 (take (Z.to_nat len) s) = Some (str_data s len) ∧
  aset (str_data s len) len 0 = Some (str_data s len).
Proof.
  intros Hl. assert (Ht : length (take (Z.to_nat len) s) = Z.to_nat len) by (rewrite length_take; lia).
  unfold str_data. split.
  - rewrite asplice_in by (rewrite ?length_replicate; lia). rewrite Ht. simpl.
    rewrite drop_replicate. by replace (_ + 5 - _)%nat with 5%nat by lia.
  - rewrite aset_in by (rewrite length_app, length_replicate; lia). f_equal.
    apply list_insert_id. rewrite lookup_app_r by lia. rewrite Ht, Nat.sub_diag. done.
Qed.

Lemma wp_alloc_str t s len w (Q : option Z → gc_mem → Prop) :
  gc_ok w → w.(heap).(count) < 2 ^ 30 → t = OBJ_STRING ∨ t = OBJ_SYMBOL →
  0 <= len < 2 ^ 31 → len <= Z.of_nat (length s) →
  (oom malloc → ∀ w', Q None w') → (∀ p w', Made w [] p t (Str len (str_data s len)) w' → Q (Some p) w') →
  wp (alloc_str malloc t s len) Q w.
Proof.
  intros Hok Hn Ht Hl Hs H0 HQ. unfold alloc_str. apply wp_on_exit.
  eapply wp_gc_alloc; [done|done|done|by apply zero_str|done|].
  intros p w1 HA. pose proof HA as [A1 A2 _ _ A5 _]. pose proof (Filled_refl w1 p _ _ A1 A2) as F1.
  destruct (str_copied s len ltac:(lia)) as [Hcp Hnul].
  assert (Hb : ∀ n d, body_ok t (Str n d)) by done.
  apply wp_bind. eapply wp_get_str; [apply F1|]. simpl.
  apply wp_bind. eapply (wp_fill w1); [exact F1|done|set_solver|]. intros w2 F2.
  apply wp_bind. rewrite aslice_in by (unfold u64; rewrite ?Z.mod_small; lia). apply wp_some.
  unfold u64. rewrite Z.mod_small by lia. rewrite drop_0.
  apply wp_bind, (wp_must _ _ _ _ Hcp). apply wp_bind.
  eapply (wp_fill w1); [exact F2|done|set_solver|]. intros w3 F3.
  apply wp_bind, (wp_must _ _ _ _ Hnul). apply wp_bind.
  eapply (wp_fill w1); [exact F3|done|set_solver|]. intros w4 F4. apply wp_ret, HQ.
  eapply (Made_filled w [] w); [done|exact F4|done|done|by rewrite app_nil_r|apply F4|done|done|].
  destruct A5 as [Fv Fr Fn]. split; rewrite ?(fi_vars _ _ _ _ _ F4), ?(fi_heap _ _ _ _ _ F4); congruence.
Qed.

Lemma strlen_le s n : strlen s = Some n → 0 <= n <= Z.of_nat (length s).
Proof.
  revert n. induction s as [|b s IH]; intros n; simpl; [done|]. case_match; [intros; simplify_eq; lia|].
  destruct (strlen s) as [k|]; simpl; [|done]. intros. simplify_eq. specialize (IH k eq_refl). lia.
Qed.

(** ** Closures *)

(** The captured values. *)
Definition captures (w : gc_mem) (c n : nat) : list Z := take n (drop c w.(vars)).

(** [i] of the captured variables have been pushed. *)
Record Protected (w : gc_mem) (c : nat) (i : Z) (w' : gc_mem) : Prop := {
  pt_ok : gc_ok w';
  pt_objs : w'.(objs) = w.(objs);
  pt_count : w'.(heap).(count) = w.(heap).(count);
  pt_vars : w'.(vars) = w.(vars);
  pt_nroots : w'.(heap).(nroots) = w.(heap).(nroots) + i;
  pt_vals : root_vals w' = root_vals w ++ captures w c (Z.to_nat i);
  pt_take : take (Z.to_nat w.(heap).(nroots)) w'.(heap).(roots) =
    take (Z.to_nat w.(heap).(nroots)) w.(heap).(roots)
}.

Lemma capture_at w c n i :
  (c + n <= length w.(vars))%nat → 0 <= i < Z.of_nat n →
  ∃ v, w.(vars) !! (c + Z.to_nat i)%nat = Some v ∧ v ∈ captures w c n ∧
    captures w c (Z.to_nat (i + 1)) = captures w c (Z.to_nat i) ++ [v].
Proof.
  intros Hc Hi. destruct (lookup_lt_is_Some_2 w.(vars) (c + Z.to_nat i)) as [v Hv]; [lia|].
  assert (Hd : drop c w.(vars) !! Z.to_nat i = Some v) by by rewrite lookup_drop.
  exists v. split_and!; [done| |].
  - apply (list_elem_of_lookup_2 _ (Z.to_nat i)). unfold captures. by rewrite lookup_take_lt by lia.
  - unfold captures. replace (Z.to_nat (i + 1)) with (S (Z.to_nat i)) by lia. by apply take_S_r.
Qed.

Lemma wp_protect w c n (Q : option unit → gc_mem → Prop) :
  gc_ok w → (c + n <= length w.(vars))%nat → (∀ v, v ∈ captures w c n → val_ok w.(objs) v) →
  (256 < w.(heap).(nroots) + Z.of_nat n → ∀ w', Q None w') → (∀ w', Protected w c (Z.of_nat n) w' → Q (Some tt) w') →
  wp (mloop (upto (Z.of_nat n)) (λ i _, r ← gc_push (c + Z.to_nat i);
      mret (if r is Some _ then inl (Some tt) else inr None)) (Some tt)) Q w.
Proof.
  intros Hok Hc Hv H0 HQ. apply (wp_mloop_upto _ _ (λ i r w', r = Some tt ∧ Protected w c i w')).
  - lia.
  - split; [done|]. split; try done; [lia|by rewrite app_nil_r].
  - intros i r w1 Hi [-> [P1 P2 P3 P4 P5 P6 P7]]. destruct (capture_at w c n i Hc Hi) as (v & Hx & Hin & Hcap).
    apply wp_bind, (wp_gc_push _ v); [done|by rewrite P4|rewrite P2; by apply Hv| |].
    + intros Hfull. apply wp_ret, H0. lia.
    + intros Hlt Hok2 Hrv2. apply wp_ret. split; [done|]. pose proof (ok_roots _ Hok) as [_ R2 _ _].
      split; try done; [simpl; lia|by rewrite Hrv2, P6, Hcap, app_assoc|].
      simpl. by rewrite take_insert_ge by lia.
  - intros r w' [-> HP]. by apply HQ.
Qed.

Lemma zero_clo n :
  (n < 2 ^ 31)%Z → 0 <= n →
  zero_body OBJ_CLOSURE (u64 (SIZEOF_CLOSURE + u64 (u64 n * 8))) = Some (Clo 0 0 (replicate (Z.to_nat n) 0)).
Proof.
  intros Hn H0. unfold u64, SIZEOF_CLOSURE. rewrite (Z.mod_small n), (Z.mod_small (n * 8)) by lia.
  rewrite Z.mod_small by lia. unfold zero_body, SIZEOF_CLOSURE. simpl.
  destruct (Z.leb_spec 24 (24 + n * 8)); [|lia]. do 3 f_equal.
  replace (24 + n * 8 - 24) with (n * 8) by lia. by rewrite Z.div_mul.
Qed.

(** The free variables while they are copied. *)
Definition copied (w : gc_mem) (c n : nat) (i : Z) : list Z :=
  captures w c (Z.to_nat i) ++ replicate (n - Z.to_nat i) 0.

Lemma length_captures w c k : (c + k <= length w.(vars))%nat → length (captures w c k) = k.
Proof. intros. unfold captures. rewrite length_take, length_drop. lia. Qed.

Lemma captures_sub w c k n v : (k <= n)%nat → v ∈ captures w c k → v ∈ captures w c n.
Proof.
  intros Hk [i Hi]%list_elem_of_lookup. unfold captures in *. apply lookup_take_Some in Hi as [Hi Hlt].
  apply (list_elem_of_lookup_2 _ i). by rewrite lookup_take_lt by lia.
Qed.

Lemma copied_vals m w c n i f v :
  (c + n <= length w.(vars))%nat → 0 <= i <= Z.of_nat n → (∀ v, v ∈ captures w c n → val_ok m v) →
  body_ok OBJ_CLOSURE (Clo f (Z.of_nat n) (copied w c n i)) ∧
  (v ∈ vals (Clo f (Z.of_nat n) (copied w c n i)) → val_ok m v).
Proof.
  intros Hc Hi Hv. unfold copied. split.
  - simpl. split; [done|]. rewrite length_app, length_captures, length_replicate by lia. lia.
  - intros [j Hj]%list_elem_of_lookup. simpl in Hj. apply lookup_take_Some in Hj as [Hj _].
    apply list_elem_of_lookup_2, elem_of_app in Hj as [Hj|[-> _]%elem_of_replicate].
    + apply Hv. eapply captures_sub; [|exact Hj]. lia.
    + by apply val_ok_imm.
Qed.

Lemma copied_step w c n i v :
  (c + n <= length w.(vars))%nat → 0 <= i < Z.of_nat n → w.(vars) !! (c + Z.to_nat i)%nat = Some v →
  captures w c (Z.to_nat (i + 1)) = captures w c (Z.to_nat i) ++ [v] →
  aset (copied w c n i) i v = Some (copied w c n (i + 1)).
Proof.
  intros Hc Hi Hx Hcap. assert (Hl : length (captures w c (Z.to_nat i)) = Z.to_nat i)
    by (apply length_captures; lia).
  unfold copied. rewrite aset_in by (rewrite length_app, Hl, length_replicate; lia). f_equal.
  rewrite insert_app_r_alt by lia. rewrite Hl, Nat.sub_diag, Hcap, <-app_assoc. f_equal.
  replace (n - Z.to_nat i)%nat with (S (n - Z.to_nat (i + 1))) by lia. done.
Qed.

(** Copying the captured values into the new closure. *)
Lemma wp_copy_free w w1 p f n c w2 (Q : unit → gc_mem → Prop) :
  w1.(vars) = w.(vars) → (c + n <= length w.(vars))%nat →
  (∀ v, v ∈ captures w c n → val_ok w1.(objs) v) →
  Filled w1 p OBJ_CLOSURE (Clo f (Z.of_nat n) (replicate n 0)) w2 →
  (∀ w3, Filled w1 p OBJ_CLOSURE (Clo f (Z.of_nat n) (captures w c n)) w3 → Q tt w3) →
  wp (mfor (upto (Z.of_nat n)) (λ i, x ← load_var (c + Z.to_nat i); cl ← get_clo p;
      l ← must (aset cl.2 i x); put_body p (Clo cl.1.1 cl.1.2 l))) Q w2.
Proof.
  intros Hvs Hc Hv HF HQ.
  apply (wp_mfor_upto _ _ (λ i, Filled w1 p OBJ_CLOSURE (Clo f (Z.of_nat n) (copied w c n i)))).
  - lia.
  - unfold copied. simpl. by rewrite Nat.sub_0_r.
  - intros i w3 Hi F3. destruct (capture_at w c n i Hc Hi) as (v & Hx & Hin & Hcap).
    apply wp_bind, wp_bind, wp_get, (wp_must _ v); [by rewrite (fi_vars _ _ _ _ _ F3), Hvs|].
    apply wp_bind. eapply wp_get_clo; [apply F3|]. simpl.
    apply wp_bind, (wp_must _ (copied w c n (i + 1))); [by apply copied_step|].
    destruct (copied_vals w1.(objs) w c n (i + 1) f 0) as [Hb _]; [done|lia|done|].
    eapply (wp_fill w1); [exact F3|done| |done]. intros u. apply copied_vals; [done|lia|done].
  - intros w3 F3. apply HQ. unfold copied in F3. by rewrite Nat2Z.id, Nat.sub_diag, app_nil_r in F3.
Qed.

Lemma wp_gc_closure f n c w (Q : option Z → gc_mem → Prop) :
  gc_ok w → w.(heap).(count) < 2 ^ 30 → Z.of_nat n < 2 ^ 31 → (c + n <= length w.(vars))%nat →
  (∀ v, v ∈ captures w c n → val_ok w.(objs) v) →
  (oom malloc ∨ 256 < w.(heap).(nroots) + Z.of_nat n → ∀ w', Q None w') →
  (∀ p w', Made w (captures w c n) p OBJ_CLOSURE (Clo f (Z.of_nat n) (captures w c n)) w' → Q (Some p) w') →
  wp (gc_closure malloc f (Z.of_nat n) c) Q w.
Proof.
  intros Hok Hn Hsz Hc Hv H0 HQ. unfold gc_closure. apply wp_on_exit, wp_protect; [done..|auto|].
  intros w1 [P1 P2 P3 P4 P5 P6 P7]. rewrite Nat2Z.id in P6.
  apply wp_on_exit. eapply wp_gc_alloc; [done|done|lia|apply zero_clo; lia|auto|].
  rewrite Nat2Z.id. intros p w2 HA. pose proof HA as [A1 A2 _ _ A5 _]. pose proof A5 as [Fv Fr Fn].
  pose proof (Filled_refl w2 p _ _ A1 A2) as F2.
  assert (Hv2 : ∀ v, v ∈ captures w c n → val_ok w2.(objs) v).
  { intros v Hin. apply (roots_val w2 (ok_roots _ A1)). rewrite (Frame_roots _ _ A5), P6. set_solver. }
  assert (Hz : ∀ f k v, v ∈ vals (Clo f k (replicate n 0)) → val_ok w2.(objs) v).
  { intros g k v [j Hj]%list_elem_of_lookup. simpl in Hj. apply lookup_take_Some in Hj as [Hj _].
    apply lookup_replicate in Hj as [-> _]. by apply val_ok_imm. }
  apply wp_bind. eapply wp_get_clo; [apply F2|]. simpl. apply wp_bind.
  eapply (wp_fill w2); [exact F2|split; [done|lia]|apply Hz|]. intros w3 F3.
  apply wp_bind. eapply wp_get_clo; [apply F3|]. simpl. apply wp_bind.
  eapply (wp_fill w2); [exact F3|split; [done|rewrite length_replicate; lia]|apply Hz|]. intros w4 F4.
  apply wp_bind. eapply (wp_copy_free w w2); [by rewrite Fv|done|done|exact F4|]. intros w5 F5.
  pose proof (fi_heap _ _ _ _ _ F5) as Fh. pose proof (ok_roots _ Hok) as [_ R2 _ _].
  apply wp_bind, wp_gc_pop; [apply F5|rewrite Fh; lia|]. intros Hok6. apply wp_ret, HQ.
  eapply (Made_filled w _ w1 p _ _ w2 _ w5); [done|done|done|done|done|done|done|done|].
  split; simpl; [by rewrite (fi_vars _ _ _ _ _ F5), Fv|rewrite Fh; lia|by rewrite Fh, Fr].
Qed.
End make.
