(* ===== verification/GcSim.v ===== *)
(** * Garbage collection is invisible

    An abstract heap that never collects, the programs that use the interface
    of src/portable-compiler/demo/scheme/gc.h, and the simulation between a
    program on the abstract heap and on the collector. *)

From stdpp Require Import gmap.
From S2P Require Import Prelude Gc GcInv GcCollect GcAlloc GcMake.

(** ** Programs

    A program works on variables, by index.  Each command is one call of the
    interface, or an assignment. *)
Inductive cmd : Type :=
  | CImm (d : nat) (z : Z)
  | CMove (d x : nat)
  | CPush (x : nat)
  | CPop (n : nat)
  | CCons (d x y : nat)
  | CString (d : nat) (s : list Z)
  | CSymbol (d : nat) (s : list Z)
  | CClosure (d : nat) (f : Z) (c n : nat)
  | CCar (d x : nat)
  | CCdr (d x : nat)
  | CSetCar (x y : nat)
  | CSetCdr (x y : nat)
  | CCollect.

Section run.
Context (malloc : nat → gmap Z gc_obj → Z → Z).

Definition result (d : nat) (m : M gc_mem (option Z)) : M gc_mem (option unit) :=
  on_exit m (λ p, store_var d p;; mret (Some tt)).

Definition run_cmd (c : cmd) : M gc_mem (option unit) :=
  match c with
  | CImm d z => store_var d z;; mret (Some tt)
  | CMove d x => v ← load_var x; store_var d v;; mret (Some tt)
  | CPush x => gc_push x
  | CPop n => gc_pop (Z.of_nat n);; mret (Some tt)
  | CCons d x y => a ← load_var x; b ← load_var y; result d (gc_cons malloc a b)
  | CString d s => result d (gc_string malloc s (Z.of_nat (length s)))
  | CSymbol d s => result d (gc_symbol malloc (s ++ [0]))
  | CClosure d f c n => result d (gc_closure malloc f (Z.of_nat n) c)
  | CCar d x => v ← load_var x; u ← gc_car v; store_var d u;; mret (Some tt)
  | CCdr d x => v ← load_var x; u ← gc_cdr v; store_var d u;; mret (Some tt)
  | CSetCar x y => v ← load_var x; u ← load_var y; gc_set_car v u;; mret (Some tt)
  | CSetCdr x y => v ← load_var x; u ← load_var y; gc_set_cdr v u;; mret (Some tt)
  | CCollect => gc_collect;; mret (Some tt)
  end.

Fixpoint run_cmds (cs : list cmd) : M gc_mem (option unit) :=
  match cs with
  | [] => mret (Some tt)
  | c :: cs => on_exit (run_cmd c) (λ _, run_cmds cs)
  end.
End run.

(** ** The abstract heap

    Objects have names that are never used again, and stay forever.  [aok] are
    the variables whose value may be used: what an allocation or a collection
    leaves are the registered variables, the arguments and the result. *)

Inductive aval : Type := Imm (z : Z) | Obj (id : nat).

Inductive abody : Type :=
  | APair (x y : aval)
  | AStr (t : Z) (s : list Z)
  | AClo (f : Z) (l : list aval).

Record astate : Type := mk_astate {
  aheap : gmap nat abody;
  anext : nat;
  avars : list aval;
  aroots : list nat;
  aok : gset nat
}.

Definition assign (d : nat) (v : aval) (s : astate) : option astate :=
  guard (d < length s.(avars))%nat;;
  Some (mk_astate s.(aheap) s.(anext) (<[d := v]> s.(avars)) s.(aroots) ({[d]} ∪ s.(aok))).

(** The value of a variable that may be used. *)
Definition use (x : nat) (s : astate) : option aval :=
  guard (x ∈ s.(aok));; s.(avars) !! x.

Definition use_pair (x : nat) (s : astate) : option (nat * aval * aval) :=
  v ← use x s;
  match v with
  | Obj id => b ← s.(aheap) !! id; match b with APair a b => Some (id, a, b) | _ => None end
  | Imm _ => None
  end.

Definition anew (d : nat) (b : abody) (args : list nat) (s : astate) : option astate :=
  guard (d < length s.(avars))%nat;;
  Some (mk_astate (<[s.(anext) := b]> s.(aheap)) (S s.(anext)) (<[d := Obj s.(anext)]> s.(avars))
    s.(aroots) ({[d]} ∪ (list_to_set s.(aroots) ∪ list_to_set args))).

Definition aupdate (id : nat) (b : abody) (s : astate) : astate :=
  mk_astate (<[id := b]> s.(aheap)) s.(anext) s.(avars) s.(aroots) s.(aok).

Definition astep (c : cmd) (s : astate) : option astate :=
  match c with
  | CImm d z => guard (IS_PTR z = false);; assign d (Imm z) s
  | CMove d x => v ← use x s; assign d v s
  | CPush x => use x s;;
      Some (mk_astate s.(aheap) s.(anext) s.(avars) (s.(aroots) ++ [x]) s.(aok))
  | CPop n => guard (n <= length s.(aroots))%nat;;
      Some (mk_astate s.(aheap) s.(anext) s.(avars) (take (length s.(aroots) - n) s.(aroots)) s.(aok))
  | CCons d x y => a ← use x s; b ← use y s; anew d (APair a b) [x; y] s
  | CString d t => guard (Z.of_nat (length t) < 2 ^ 31);; anew d (AStr OBJ_STRING t) [] s
  | CSymbol d t => guard (Z.of_nat (length t) < 2 ^ 31);; guard (0 ∉ t);;
      anew d (AStr OBJ_SYMBOL t) [] s
  | CClosure d f c n => guard (Z.of_nat n < 2 ^ 31);; guard (c + n <= length s.(avars))%nat;;
      l ← mapM (λ x, use x s) (seq c n); anew d (AClo f l) (seq c n) s
  | CCar d x => '(_, a, _) ← use_pair x s; assign d a s
  | CCdr d x => '(_, _, b) ← use_pair x s; assign d b s
  | CSetCar x y => '(id, _, b) ← use_pair x s; v ← use y s; Some (aupdate id (APair v b) s)
  | CSetCdr x y => '(id, a, _) ← use_pair x s; v ← use y s; Some (aupdate id (APair a v) s)
  | CCollect => Some (mk_astate s.(aheap) s.(anext) s.(avars) s.(aroots) (list_to_set s.(aroots)))
  end.

Definition arun (cs : list cmd) (s : astate) : option astate :=
  foldl (λ r c, s ← r; astep c s) (Some s) cs.

(** ** The simulation

    [R] gives the address of the objects that are still allocated. *)

Definition vrel (R : gmap nat Z) (v : aval) (z : Z) : Prop :=
  match v with
  | Imm i => z = i ∧ IS_PTR i = false
  | Obj id => R !! id = Some z
  end.

Definition brel (R : gmap nat Z) (ab : abody) (t : Z) (b : gc_body) : Prop :=
  match ab, b with
  | APair x y, Pair a b => t = OBJ_PAIR ∧ vrel R x a ∧ vrel R y b
  | AStr t' s, Str n d => t = t' ∧ n = Z.of_nat (length s) ∧ d = s ++ replicate 5 0
  | AClo f l, Clo f' n l' => t = OBJ_CLOSURE ∧ f' = f ∧ n = Z.of_nat (length l) ∧ Forall2 (vrel R) l l'
  | _, _ => False
  end.

Record sim (s : astate) (R : gmap nat Z) (w : gc_mem) : Prop := {
  si_ok : gc_ok w;
  si_len : length s.(avars) = length w.(vars);
  si_var x av : x ∈ s.(aok) → s.(avars) !! x = Some av → ∃ v, w.(vars) !! x = Some v ∧ vrel R av v;
  si_roots : take (Z.to_nat w.(heap).(nroots)) w.(heap).(roots) = s.(aroots);
  si_rooted x : x ∈ s.(aroots) → x ∈ s.(aok);
  si_heap id a : R !! id = Some a → ∃ ab t b,
    s.(aheap) !! id = Some ab ∧ content w.(objs) a = Some (t, b) ∧ brel R ab t b;
  si_inj i j a : R !! i = Some a → R !! j = Some a → i = j;
  si_new id a : R !! id = Some a → (id < s.(anext))%nat
}.

(** ** Related values *)

Lemma vrel_ok s R w av v : sim s R w → vrel R av v → val_ok w.(objs) v.
Proof.
  intros HS. destruct av as [z|id]; simpl.
  - intros [-> Hz]. by apply val_ok_imm.
  - intros (ab & t & b & _ & Hc & _)%(si_heap _ _ _ HS) _. by eapply content_Some_dom.
Qed.

Lemma vrel_ptr s R w id v : sim s R w → R !! id = Some v → IS_PTR v = true.
Proof.
  intros HS (ab & t & b & _ & Hc & _)%(si_heap _ _ _ HS). apply content_Some in Hc as (o & Ho & _).
  by eapply (obj_ptr _ (ok_objs _ (si_ok _ _ _ HS))).
Qed.

Lemma brel_mono R R' ab t b :
  brel R ab t b → (∀ av v, v ∈ vals b → vrel R av v → vrel R' av v) → brel R' ab t b.
Proof.
  destruct ab as [x y|t' s|f l], b as [a b|n d|f' n l']; simpl; try done.
  - intros (Ht & Hx & Hy) HR. split_and!; [done|apply HR; [set_solver|done]..].
  - intros (Ht & Hf & Hn & Hl) HR. split_and!; [done..|].
    rewrite Hn, (Forall2_length _ _ _ Hl), Nat2Z.id, firstn_all in HR.
    revert HR. clear Hn. induction Hl as [|av v l l' Hv Hl IH]; intros HR; [done|].
    constructor; [apply HR; [set_solver|done]|]. apply IH. intros; apply HR; [set_solver|done].
Qed.

Lemma use_sim s R w x av :
  sim s R w → use x s = Some av →
  x ∈ s.(aok) ∧ ∃ v, w.(vars) !! x = Some v ∧ vrel R av v ∧ val_ok w.(objs) v.
Proof.
  intros HS. unfold use. case_guard as Hx; simpl; [|done]. intros Hav. split; [done|].
  destruct (si_var _ _ _ HS x av Hx Hav) as (v & Hv & Hr). exists v. split_and!; [done..|].
  by eapply vrel_ok.
Qed.

Lemma use_pair_sim s R w x id a b :
  sim s R w → use_pair x s = Some (id, a, b) → ∃ v ca cb,
    w.(vars) !! x = Some v ∧ R !! id = Some v ∧ s.(aheap) !! id = Some (APair a b) ∧
    content w.(objs) v = Some (OBJ_PAIR, Pair ca cb) ∧ vrel R a ca ∧ vrel R b cb.
Proof.
  intros HS. unfold use_pair. destruct (use x s) as [av|] eqn:Hu; simpl; [|done].
  destruct (use_sim _ _ _ _ _ HS Hu) as (_ & v & Hv & Hr & _). destruct av as [|id']; [done|].
  simpl in Hr. destruct (si_heap _ _ _ HS _ _ Hr) as (ab & t & bd & Ha & Hc & Hb). rewrite Ha. simpl.
  destruct ab as [a' b'| |]; [|done..]. intros. simplify_eq.
  destruct bd as [ca cb| |]; simpl in Hb; [|done..]. destruct Hb as (-> & ? & ?).
  exists v, ca, cb. done.
Qed.

(** ** Assignments *)

(** The command has reached the abstract state [s], or has called [exit] for
    the reason [F]. *)
Definition sim_post (F : Prop) (s : astate) (w : gc_mem) (r : option unit) (w' : gc_mem) : Prop :=
  match r with
  | Some _ => (∃ R, sim s R w') ∧ w'.(heap).(count) <= w.(heap).(count) + 1
  | None => F
  end.

Lemma wp_assign F d av v s s' R w :
  sim s R w → assign d av s = Some s' → vrel R av v →
  wp (store_var d v;; mret (Some tt)) (sim_post F s' w) w.
Proof.
  intros HS Ha Hv. unfold assign in Ha. case_guard as Hd; simplify_eq/=.
  apply wp_bind. rewrite (si_len _ _ _ HS) in Hd. apply wp_store_var; [done|]. apply wp_ret.
  split; [|simpl; lia]. exists R. pose proof (vrel_ok _ _ _ _ _ HS Hv) as Hok.
  destruct HS as [S1 S2 S3 S4 S5 S6 S7 S8]. split; simpl; try done.
  - by apply store_var_ok.
  - by rewrite !length_insert.
  - intros x bv Hx Hb. destruct (decide (x = d)) as [->|Hne].
    + rewrite list_lookup_insert_eq in Hb by lia. simplify_eq. exists v. by rewrite list_lookup_insert_eq.
    + rewrite list_lookup_insert_ne in Hb by done. destruct (S3 x bv) as (u & Hu & Hr); [set_solver|done|].
      exists u. by rewrite list_lookup_insert_ne.
  - intros x Hx. specialize (S5 x Hx). set_solver.
Qed.

(** ** The root stack *)

Lemma aroots_length s R w : sim s R w → w.(heap).(nroots) = Z.of_nat (length s.(aroots)).
Proof.
  intros HS. pose proof (ok_roots _ (si_ok _ _ _ HS)) as [R1 R2 _ _].
  rewrite <-(si_roots _ _ _ HS), length_take. lia.
Qed.

Lemma wp_push x av s R w (F : Prop) :
  sim s R w → use x s = Some av → ((length s.(aroots) = 256)%nat → F) →
  wp (gc_push x) (sim_post F (mk_astate s.(aheap) s.(anext) s.(avars) (s.(aroots) ++ [x]) s.(aok)) w) w.
Proof.
  intros HS Hu HF. destruct (use_sim _ _ _ _ _ HS Hu) as (Hx & v & Hv & Hr & Hok).
  eapply wp_gc_push; [apply HS|done|done|rewrite (aroots_length _ _ _ HS); intros; apply HF; lia|].
  intros Hn Hok' _. split; [|simpl; lia].
  pose proof (ok_roots _ (si_ok _ _ _ HS)) as Hro. exists R.
  destruct HS as [S1 S2 S3 S4 S5 S6 S7 S8]. split; try done.
  - change (nroots (heap (pushed x w))) with (nroots (heap w) + 1). rewrite pushed_take by done.
    simpl. by rewrite S4.
  - simpl. intros y [Hy|Hy%list_elem_of_singleton]%elem_of_app; [by apply S5|by subst].
Qed.

Lemma wp_pop_cmd F n s R w :
  sim s R w → (n <= length s.(aroots))%nat →
  wp (gc_pop (Z.of_nat n);; mret (Some tt))
    (sim_post F (mk_astate s.(aheap) s.(anext) s.(avars) (take (length s.(aroots) - n) s.(aroots)) s.(aok)) w) w.
Proof.
  intros HS Hn. pose proof (ok_roots _ (si_ok _ _ _ HS)) as [R1 R2 _ _].
  pose proof (aroots_length _ _ _ HS) as Hl.
  apply wp_bind, wp_gc_pop; [apply HS|lia|]. intros Hok. apply wp_ret. split; [|simpl; lia].
  exists R. destruct HS as [S1 S2 S3 S4 S5 S6 S7 S8]. split; try done; simpl.
  - rewrite <-S4, take_take, length_take. f_equal. lia.
  - intros x [i Hi]%list_elem_of_lookup. apply lookup_take_Some in Hi as [Hi _].
    apply S5. by eapply list_elem_of_lookup_2.
Qed.

(** ** Collections *)

(** A variable on the root stack holds a root. *)
Lemma rooted_val s R w x v :
  sim s R w → x ∈ s.(aroots) → w.(vars) !! x = Some v → v ∈ root_vals w.
Proof.
  intros HS Hx Hv. apply list_elem_of_omap. exists x. by rewrite (si_roots _ _ _ HS).
Qed.

Lemma wp_collect F s R w :
  sim s R w → w.(heap).(count) < 2 ^ 30 →
  wp (gc_collect;; mret (Some tt))
    (sim_post F (mk_astate s.(aheap) s.(anext) s.(avars) s.(aroots) (list_to_set s.(aroots))) w) w.
Proof.
  intros HS Hn. apply wp_bind. eapply wp_mono; [apply wp_gc_collect; [apply HS|done]|].
  intros [] w' HC. apply wp_ret. split; [|pose proof (co_count _ _ HC); lia].
  set (R' := filter (λ p, is_Some (w'.(objs) !! p.2)) R).
  assert (HR : ∀ id a, R' !! id = Some a ↔ R !! id = Some a ∧ is_Some (w'.(objs) !! a))
    by (intros; apply map_lookup_filter_Some).
  pose proof (Shrunk_collected _ _ HC) as [T1 T2 T3 [F1 F2 F3] _].
  pose proof (λ id v, vrel_ptr s R w id v HS) as Hptr.
  pose proof (λ av v, vrel_ok s R w av v HS) as Hvok. exists R'.
  pose proof (λ x v, rooted_val s R w x v HS) as Hrt.
  destruct HS as [S1 S2 S3 S4 S5 S6 S7 S8]. split; simpl.
  - done.
  - by rewrite F1.
  - intros x av Hx%elem_of_list_to_set Hav. rewrite F1.
    destruct (S3 x av (S5 x Hx) Hav) as (v & Hv & Hr). exists v. split; [done|].
    destruct av as [|id]; [done|]. simpl in *. apply HR. split; [done|].
    eapply content_dom; [apply T2, live_roots; [by eapply Hrt|by eapply Hptr]|].
    eapply (Hvok (Obj id)); [done|by eapply Hptr].
  - by rewrite F2, F3.
  - intros x Hx. by apply elem_of_list_to_set.
  - intros id a [Hra Hs]%HR. destruct (S6 id a Hra) as (ab & t & b & Hab & Hc & Hb).
    exists ab, t, b. rewrite (T3 a Hs). split_and!; [done..|].
    apply (brel_mono R); [done|]. intros av v Hin Hv. destruct av as [|id']; [done|]. simpl in *.
    apply HR. split; [done|]. destruct Hs as [o Ho]. pose proof (T3 a ltac:(eauto)) as Hca.
    rewrite Hc in Hca. apply content_Some in Hca as (o' & Ho' & _ & <-). simplify_eq.
    eapply (obj_closed _ (ok_objs _ T1) a); [done|done|by eapply Hptr].
  - intros i j a [Hi _]%HR [Hj _]%HR. by eapply S7.
  - intros id a [Hi _]%HR. by eapply S8.
Qed.

(** ** Allocations *)

(** The addresses after an allocation at [p]. *)
Definition renamed (s : astate) (R : gmap nat Z) (p : Z) (w' : gc_mem) : gmap nat Z :=
  <[s.(anext) := p]> (filter (λ q, q.2 ≠ p ∧ is_Some (w'.(objs) !! q.2)) R).

Lemma renamed_old s R w p w' id a :
  sim s R w → R !! id = Some a → a ≠ p → is_Some (w'.(objs) !! a) → renamed s R p w' !! id = Some a.
Proof.
  intros HS Hr Hne Hs. pose proof (si_new _ _ _ HS _ _ Hr). unfold renamed.
  rewrite lookup_insert_ne by lia. by apply map_lookup_filter_Some.
Qed.

Lemma renamed_inv s R p w' id a :
  renamed s R p w' !! id = Some a →
  (id = s.(anext) ∧ a = p) ∨ (R !! id = Some a ∧ a ≠ p ∧ is_Some (w'.(objs) !! a)).
Proof.
  unfold renamed. intros [[<- <-]|[_ [? ?]%map_lookup_filter_Some]]%lookup_insert_Some; naive_solver.
Qed.

(** A value that an allocator protects keeps its meaning. *)
Lemma vrel_kept s R w vs p t b w' av v :
  sim s R w → Made w vs p t b w' → v ∈ root_vals w ++ vs → vrel R av v → vrel (renamed s R p w') av v.
Proof.
  intros HS HM Hin Hv. destruct av as [|id]; [done|]. simpl in *.
  pose proof (vrel_ptr _ _ _ _ _ HS Hv) as Hp.
  destruct (md_live _ _ _ _ _ _ HM v) as [Hne Hc]; [exists v; split_and!; [done|done|reflexivity]|].
  eapply renamed_old; [done..|]. eapply content_dom; [exact Hc|].
  by apply (vrel_ok s R w (Obj id) v HS).
Qed.

Lemma made_heap s R w vs p t b w' id a :
  sim s R w → Made w vs p t b w' → R !! id = Some a → a ≠ p → is_Some (w'.(objs) !! a) →
  ∃ ab t b, s.(aheap) !! id = Some ab ∧ content w'.(objs) a = Some (t, b) ∧
    brel (renamed s R p w') ab t b.
Proof.
  intros HS HM Hr Hne Hs. destruct (md_only _ _ _ _ _ _ HM a Hne Hs) as [Hc Hno].
  destruct (si_heap _ _ _ HS id a Hr) as (ab & t' & bd & Hab & Hca & Hb).
  exists ab, t', bd. rewrite Hc. split_and!; [done..|]. apply (brel_mono R); [done|].
  intros av v Hin Hv. destruct av as [|id']; [done|]. simpl in *.
  pose proof (vrel_ptr _ _ _ _ _ HS Hv) as Hp. eapply renamed_old; [done|done| |].
  - intros ->. apply Hno. by exists t', bd.
  - rewrite <-Hc in Hca. apply content_Some in Hca as (o & Ho & _ & <-).
    by eapply (obj_closed _ (ok_objs _ (md_ok _ _ _ _ _ _ HM)) a).
Qed.

Lemma sim_made s s' R w vs p t b w' d ab args :
  sim s R w → Made w vs p t b w' → anew d ab args s = Some s' →
  (∀ x, x ∈ args → x ∈ s.(aok) ∧ ∃ v, w.(vars) !! x = Some v ∧ v ∈ vs) →
  brel R ab t b → (∀ v, v ∈ vals b → v ∈ vs) →
  sim s' (renamed s R p w') (set_vars (<[d := p]> w'.(vars)) w') ∧ (d < length w'.(vars))%nat.
Proof.
  intros HS HM Hn Hargs Hb Hvs. unfold anew in Hn. case_guard as Hd; simplify_eq/=.
  pose proof (λ av v, vrel_kept s R w vs p t b w' av v HS HM) as HK.
  pose proof (λ id a, made_heap s R w vs p t b w' id a HS HM) as HH.
  pose proof (λ x v, rooted_val s R w x v HS) as Hrt.
  destruct (md_same _ _ _ _ _ _ HM) as [V1 V2 V3]. pose proof (md_new _ _ _ _ _ _ HM) as Hnew.
  assert (Hp' : val_ok w'.(objs) p) by (intros _; by eapply content_Some_dom).
  pose proof HS as [S1 S2 S3 S4 S5 S6 S7 S8]. split; [|by rewrite V1, <-S2].
  split; simpl; [apply store_var_ok; [apply HM|done]|by rewrite !length_insert, V1| | | | | |].
  - intros x av Hx Hav. rewrite V1. destruct (decide (x = d)) as [->|Hne].
    + rewrite list_lookup_insert_eq in Hav by done. simplify_eq. exists p.
      rewrite list_lookup_insert_eq by lia. split; [done|]. simpl. apply lookup_insert_eq.
    + rewrite list_lookup_insert_ne in Hav by done.
      assert (x ∈ s.(aok) ∧ ∃ v, w.(vars) !! x = Some v ∧ v ∈ root_vals w ++ vs) as (Ho & v & Hv & Hin).
      { apply elem_of_union in Hx as [?|[Hx%elem_of_list_to_set|Hx%elem_of_list_to_set]%elem_of_union];
          [set_solver| |].
        - split; [by apply S5|]. destruct (S3 x av (S5 x Hx) Hav) as (v & Hv & _). exists v.
          split; [done|]. apply elem_of_app. left. by eapply Hrt.
        - destruct (Hargs x Hx) as (? & v & ? & ?). split; [done|]. exists v. set_solver. }
      destruct (S3 x av Ho Hav) as (v' & Hv' & Hr). simplify_eq. exists v.
      rewrite list_lookup_insert_ne by done. split; [done|]. by apply HK.
  - by rewrite V2, V3.
  - intros x Hx. apply elem_of_union_r, elem_of_union_l. by apply elem_of_list_to_set.
  - intros id a [[-> ->]|(Hr & Hne & Hs)]%renamed_inv.
    + exists ab, t, b. rewrite lookup_insert_eq. split_and!; [done..|].
      apply (brel_mono R); [done|]. intros av v Hin. apply HK. apply elem_of_app. right. by apply Hvs.
    + rewrite lookup_insert_ne by (specialize (S8 _ _ Hr); lia). by apply HH.
  - intros i j a [[-> ->]|(Hi & Hni & _)]%renamed_inv [[-> Hj]|(Hj & Hnj & _)]%renamed_inv; try done.
    by eapply S7.
  - intros id a [[-> ->]|(Hi & _)]%renamed_inv; [lia|]. specialize (S8 _ _ Hi). lia.
Qed.

(** The end of every allocating command. *)
Lemma wp_result (F : Prop) s s' R w vs t b d ab args (m : M gc_mem (option Z)) :
  sim s R w → anew d ab args s = Some s' →
  (∀ x, x ∈ args → x ∈ s.(aok) ∧ ∃ v, w.(vars) !! x = Some v ∧ v ∈ vs) →
  brel R ab t b → (∀ v, v ∈ vals b → v ∈ vs) →
  (∀ Q : option Z → gc_mem → Prop, (F → ∀ w', Q None w') → (∀ p w', Made w vs p t b w' → Q (Some p) w') →
    wp m Q w) →
  wp (result d m) (sim_post F s' w) w.
Proof.
  intros HS Hn Hargs Hb Hvs Hm. apply wp_on_exit, Hm; [done|]. intros p w' HM.
  destruct (sim_made _ _ _ _ _ _ _ _ _ _ _ _ HS HM Hn Hargs Hb Hvs) as [HS' Hd].
  apply wp_bind, wp_store_var; [done|]. apply wp_ret. split; [by eexists|].
  simpl. apply HM.
Qed.

(** ** Mutation *)

Lemma sim_update s R w id v bd x y a b :
  sim s R w → R !! id = Some v → content w.(objs) v = Some (OBJ_PAIR, bd) →
  vrel R x a → vrel R y b → sim (aupdate id (APair x y) s) R (upd v (Pair a b) w).
Proof.
  intros HS Hr Hc Hx Hy. pose proof (vrel_ok _ _ _ _ _ HS Hx). pose proof (vrel_ok _ _ _ _ _ HS Hy).
  destruct HS as [S1 S2 S3 S4 S5 S6 S7 S8]. split; try done.
  - eapply upd_ok; [done|done|done|]. intros u. by apply pair_vals.
  - intros id' c Hr'. change (aheap (aupdate id (APair x y) s)) with (<[id := APair x y]> (aheap s)).
    destruct (decide (id' = id)) as [->|Hne].
    + assert (c = v) as -> by congruence. exists (APair x y), OBJ_PAIR, (Pair a b).
      rewrite lookup_insert_eq. split_and!; [done| |done..].
      rewrite (content_upd v (Pair a b) w v OBJ_PAIR bd Hc). by rewrite decide_True.
    + rewrite lookup_insert_ne by done. destruct (S6 id' c Hr') as (ab & t & b' & ? & ? & ?).
      exists ab, t, b'. split_and!; [done| |done].
      rewrite (content_upd v (Pair a b) w c OBJ_PAIR bd Hc).
      rewrite decide_False; [done|]. intros ->. by apply Hne, (S7 id' id v).
Qed.

(** ** Every command *)

Section sim.
Context (malloc : nat → gmap Z gc_obj → Z → Z) `{!Malloc malloc}.

Lemma strlen_app t : 0 ∉ t → strlen (t ++ [0]) = Some (Z.of_nat (length t)).
Proof.
  induction t as [|b t IH]; intros Hn; [done|]. simpl. destruct (Z.eqb_spec b 0); [set_solver|].
  rewrite IH by set_solver. simpl. f_equal. lia.
Qed.

Lemma captures_sim s R w c n l :
  sim s R w → (c + n <= length s.(avars))%nat → mapM (λ x, use x s) (seq c n) = Some l →
  Forall2 (vrel R) l (captures w c n) ∧
  ∀ x, x ∈ seq c n → x ∈ s.(aok) ∧ ∃ v, w.(vars) !! x = Some v ∧ v ∈ captures w c n.
Proof.
  intros HS Hlen Hl. rewrite (si_len _ _ _ HS) in Hlen. apply mapM_Some in Hl. pose proof (Forall2_length _ _ _ Hl) as Hll. rewrite length_seq in Hll.
  assert (Hat : ∀ i, (i < n)%nat → ∃ av v, l !! i = Some av ∧ (c + i)%nat ∈ s.(aok) ∧
    w.(vars) !! (c + i)%nat = Some v ∧ captures w c n !! i = Some v ∧ vrel R av v).
  { intros i Hi. destruct (Forall2_lookup_l _ _ _ i (c + i)%nat Hl) as (av & Hav & Hu); [by apply lookup_seq|].
    destruct (use_sim _ _ _ _ _ HS Hu) as (Ho & v & Hv & Hr & _). exists av, v. split_and!; try done.
    unfold captures. by rewrite lookup_take_lt, lookup_drop by done. }
  split.
  - apply Forall2_same_length_lookup_2.
    + by rewrite length_captures.
    + intros i av v Hav Hv. destruct (Hat i) as (av' & v' & ? & _ & _ & ? & ?);
        [apply lookup_lt_Some in Hav; lia|]. congruence.
  - intros x Hx%elem_of_seq. destruct (Hat (x - c)%nat) as (av & v & _ & Ho & Hv & Hcp & _); [lia|].
    replace (c + (x - c))%nat with x in * by lia. split; [done|]. exists v.
    split; [done|]. by eapply list_elem_of_lookup_2.
Qed.

(** How many entries of the root stack a command needs. *)
Definition need (c : cmd) : nat :=
  match c with CPush _ => 1 | CCons _ _ _ => 2 | CClosure _ _ _ n => n | _ => 0 end.

(** The reasons why a command calls [exit]. *)
Definition exits (c : cmd) (s : astate) : Prop :=
  oom malloc ∨ (256 < length s.(aroots) + need c)%nat.

Lemma wp_strings (F : Prop) s s' R w d t txt bytes :
  sim s R w → w.(heap).(count) < 2 ^ 30 → t = OBJ_STRING ∨ t = OBJ_SYMBOL →
  Z.of_nat (length txt) < 2 ^ 31 → anew d (AStr t txt) [] s = Some s' →
  take (length txt) bytes = txt → (oom malloc → F) →
  wp (result d (alloc_str malloc t bytes (Z.of_nat (length txt)))) (sim_post F s' w) w.
Proof.
  intros HS Hn Ht Hl Ha Htk HF. eapply (wp_result F s s' R w [] t
    (Str (Z.of_nat (length txt)) (str_data bytes (Z.of_nat (length txt))))); [done|done|set_solver| |done|].
  - simpl. split_and!; [done|done|]. unfold str_data. by rewrite Nat2Z.id, Htk.
  - intros Q H0 HQ. apply wp_alloc_str; [done|apply HS|done|done|lia| |auto|done].
    assert (length txt <= length bytes)%nat; [|lia]. rewrite <-Htk, length_take. lia.
Qed.

Lemma wp_cons s s' R w d x y :
  sim s R w → astep (CCons d x y) s = Some s' → w.(heap).(count) < 2 ^ 30 →
  wp (run_cmd malloc (CCons d x y)) (sim_post (exits (CCons d x y) s) s' w) w.
Proof.
  intros HS Ha Hn. simpl in *.
  destruct (use x s) as [av|] eqn:Hu; [|done]. destruct (use y s) as [bv|] eqn:Hu2; [|done]. simpl in Ha.
  destruct (use_sim _ _ _ _ _ HS Hu) as (Hx & v & Hv & Hr & Hok).
  destruct (use_sim _ _ _ _ _ HS Hu2) as (Hy & v2 & Hv2 & Hr2 & Hok2).
  apply wp_bind. eapply wp_load_var; [done|]. apply wp_bind. eapply wp_load_var; [done|].
  eapply (wp_result _ s s' R w [v; v2] OBJ_PAIR (Pair v v2)); [done|done| |done|done|].
  - intros z [->|[->|[]%elem_of_nil]%elem_of_cons]%elem_of_cons; (split; [done|]); eexists;
      (split; [done|set_solver]).
  - intros Q H0 HQ. apply wp_gc_cons; [done|apply HS|done..| |done].
    rewrite (aroots_length _ _ _ HS). intros [?|?]; apply H0; [by left|right; simpl; lia].
Qed.

Lemma wp_symbol s s' R w d t :
  sim s R w → astep (CSymbol d t) s = Some s' → w.(heap).(count) < 2 ^ 30 →
  wp (run_cmd malloc (CSymbol d t)) (sim_post (exits (CSymbol d t) s) s' w) w.
Proof.
  intros HS Ha Hn. simpl in *.
  repeat (case_guard; simpl in Ha; try done).
  unfold gc_symbol. rewrite strlen_app by done.
  assert (s32 (Z.of_nat (length t)) = Z.of_nat (length t)) as E.
  { unfold s32, u32. rewrite Z.mod_small by lia.
    by destruct (Z.ltb_spec (Z.of_nat (length t)) 2147483648); [|lia]. }
  assert (HW : wp (result d (alloc_str malloc OBJ_SYMBOL (t ++ [0]) (Z.of_nat (length t)))) (sim_post (exits (CSymbol d t) s) s' w) w).
  { eapply wp_strings; [done..|by right|done|done|by rewrite take_app_length|by left]. }
  rewrite <-E in HW at 1. exact HW.
Qed.

Lemma wp_closure s s' R w d f c n :
  sim s R w → astep (CClosure d f c n) s = Some s' → w.(heap).(count) < 2 ^ 30 →
  wp (run_cmd malloc (CClosure d f c n)) (sim_post (exits (CClosure d f c n) s) s' w) w.
Proof.
  intros HS Ha Hn. simpl in *. repeat (case_guard; simpl in Ha; try done).
  destruct (mapM _ _) as [l|] eqn:Hm; [|done]. simpl in Ha.
  destruct (captures_sim s R w c n l HS) as [Hf Hargs]; [done..|].
  pose proof (si_len _ _ _ HS) as Hsl. pose proof (Forall2_length _ _ _ Hf) as Hlen.
  rewrite length_captures in Hlen by lia.
  eapply (wp_result _ s s' R w (captures w c n) OBJ_CLOSURE (Clo f (Z.of_nat n) (captures w c n)));
    [done|done|done| | |].
  - simpl. by rewrite Hlen.
  - simpl. intros v. rewrite take_ge; [done|]. rewrite length_captures; lia.
  - intros Q HQ0 HQ. apply wp_gc_closure; [done|apply HS|done|done|lia| | |done].
    2: { rewrite (aroots_length _ _ _ HS). intros [?|?]; apply HQ0; [by left|right; simpl; lia]. }
    intros v [i Hi]%list_elem_of_lookup. destruct (Forall2_lookup_r _ _ _ i v Hf Hi) as (av & _ & Hr).
    by eapply vrel_ok.
Qed.

(** [gc_car], [gc_cdr], [gc_set_car] and [gc_set_cdr]. *)
Lemma wp_fields c s s' R w :
  match c with CCar _ _ | CCdr _ _ | CSetCar _ _ | CSetCdr _ _ => True | _ => False end →
  sim s R w → astep c s = Some s' → wp (run_cmd malloc c) (sim_post (exits c s) s' w) w.
Proof.
  intros Hc HS Ha. destruct c as [| | | | | | | |d x|d x|x y|x y|]; try done; simpl in *.
  all: destruct (use_pair x s) as [[[id a] b]|] eqn:Hu; [|done]; simpl in Ha.
  all: destruct (use_pair_sim _ _ _ _ _ _ _ HS Hu) as (v & ca & cb & Hv & Hr & Hh & Hct & Hra & Hrb).
  all: apply wp_bind; eapply wp_load_var; [done|].
  - apply wp_bind, wp_bind. eapply wp_get_pair; [done|]. apply wp_ret. by eapply wp_assign.
  - apply wp_bind, wp_bind. eapply wp_get_pair; [done|]. apply wp_ret. by eapply wp_assign.
  - destruct (use y s) as [u|] eqn:Hu2; simplify_eq/=.
    destruct (use_sim _ _ _ _ _ HS Hu2) as (_ & v2 & Hv2 & Hr2 & _).
    apply wp_bind. eapply wp_load_var; [done|]. apply wp_bind, wp_bind. eapply wp_get_pair; [done|].
    eapply wp_put_body; [done|]. apply wp_ret. split; [|simpl; lia].
    exists R. by eapply sim_update.
  - destruct (use y s) as [u|] eqn:Hu2; simplify_eq/=.
    destruct (use_sim _ _ _ _ _ HS Hu2) as (_ & v2 & Hv2 & Hr2 & _).
    apply wp_bind. eapply wp_load_var; [done|]. apply wp_bind, wp_bind. eapply wp_get_pair; [done|].
    eapply wp_put_body; [done|]. apply wp_ret. split; [|simpl; lia].
    exists R. by eapply sim_update.
Qed.

Lemma wp_cmd c s s' R w :
  sim s R w → astep c s = Some s' → w.(heap).(count) < 2 ^ 30 → wp (run_cmd malloc c) (sim_post (exits c s) s' w) w.
Proof.
  intros HS Ha Hn. destruct c as [d z|d x|x|n|d x y|d t|d t|d f c n|d x|d x|x y|x y|].
  5: by eapply wp_cons.
  6: by eapply wp_symbol.
  6: by eapply wp_closure.
  6,7,8,9: by eapply wp_fields.
  all: simpl in *.
  - case_guard as Hz; simpl in Ha; [|done]. by eapply wp_assign.
  - destruct (use x s) as [av|] eqn:Hu; [|done]. simpl in Ha.
    destruct (use_sim _ _ _ _ _ HS Hu) as (_ & v & Hv & Hr & _).
    apply wp_bind. eapply wp_load_var; [done|]. by eapply wp_assign.
  - destruct (use x s) as [av|] eqn:Hu; simplify_eq/=. eapply wp_push; [done|done|].
    intros Hr. right. simpl. lia.
  - case_guard as Hl; simplify_eq/=. by eapply wp_pop_cmd.
  - case_guard as Hl; simpl in Ha; [|done]. eapply wp_strings; [done..|by left|done|done|by rewrite firstn_all|by left].
  - simplify_eq. by eapply wp_collect.
Qed.

(** A program that never needs more than the 256 entries of the root stack. *)
Fixpoint roomy (cs : list cmd) (s : astate) : Prop :=
  match cs with
  | [] => True
  | c :: cs => (length s.(aroots) + need c <= 256)%nat ∧ (∀ s', astep c s = Some s' → roomy cs s')
  end.

(** A whole program, within the [int] that counts the objects. *)
Lemma wp_cmds cs s s' R w :
  sim s R w → arun cs s = Some s' → w.(heap).(count) + Z.of_nat (length cs) <= 2 ^ 30 →
  wp (run_cmds malloc cs) (λ r w',
    match r with Some _ => ∃ R, sim s' R w' | None => oom malloc ∨ ¬ roomy cs s end) w.
Proof.
  revert s R w. induction cs as [|c cs IH]; intros s R w HS Ha Hn; simpl in *.
  - apply wp_ret. unfold arun in Ha. simplify_eq/=. eauto.
  - unfold arun in Ha. simpl in Ha. destruct (astep c s) as [s1|] eqn:Hs1.
    2: { exfalso. clear -Ha. induction cs; simpl in *; [done|auto]. }
    apply wp_on_exit. eapply wp_mono; [eapply wp_cmd; [done|done|lia]|].
    intros [[]|] w1 Hp; simpl in Hp.
    + destruct Hp as [[R1 HS1] Hc1]. eapply wp_mono; [eapply IH; [done|done|lia]|].
      intros [[]|] w2; [done|]. intros [?|Hr]; [by left|]. right. intros [_ Hr']. auto.
    + destruct Hp as [?|?]; [by left|]. right. intros [? _]. lia.
Qed.
End sim.
