(* ===== verification/GcTheorems.v ===== *)
(** * Theorems about the garbage collector of TinScheme

    [gc_collect] keeps exactly what can be reached, and a program cannot tell
    that its heap is collected. *)

From stdpp Require Import gmap.
From S2P Require Import Prelude Gc GcInv GcCollect GcAlloc GcMake GcSim.

(** ** Destruction *)

Lemma wp_destroy_loop fuel l o w :
  chain w.(objs) o l → NoDup l → (length l < fuel)%nat →
  wp (destroy_loop fuel o) (λ _ w', w'.(heap) = w.(heap) ∧ w'.(vars) = w.(vars) ∧
    (∀ a, a ∈ l → w'.(objs) !! a = None) ∧ (∀ a, a ∉ l → w'.(objs) !! a = w.(objs) !! a)) w.
Proof.
  revert fuel o w. induction l as [|b l IH]; intros fuel o w Hc Hnd Hf;
    (destruct fuel as [|fuel]; simpl in Hf; [lia|]); simpl in *.
  - subst. apply wp_ret. split_and!; [done|done|set_solver|done].
  - destruct Hc as (-> & Hb & ob & Hob & Hc). apply NoDup_cons in Hnd as [Hbl Hnd].
    destruct (Z.eqb_spec b 0) as [|_]; [done|]. apply wp_bind. eapply wp_deref; [done|].
    apply wp_bind. eapply wp_free; [done|]. eapply wp_mono; [apply IH; [|done|lia]|].
    + simpl. eapply chain_ext; [|done]. intros a Ha. by rewrite lookup_delete_ne by congruence.
    + intros [] w' (H1 & H2 & H3 & H4). simpl in *. split_and!; [done|done| |].
      * intros a [->|Ha]%elem_of_cons; [|by apply H3]. rewrite H4 by done. apply lookup_delete_eq.
      * intros a [Hab Hal]%not_elem_of_cons. rewrite H4 by done. by apply lookup_delete_ne.
Qed.

Lemma wp_gc_destroy w :
  gc_ok w → wp gc_destroy (λ _ w', w'.(objs) = ∅ ∧ w'.(heap).(all) = 0 ∧ w'.(heap).(count) = 0) w.
Proof.
  intros Hok. destruct (ok_chain _ Hok) as (l & Hc & Hnd & Hl). pose proof (chain_size _ _ Hnd Hl) as Hsz.
  apply wp_bind, wp_get, wp_bind. eapply wp_mono; [apply (wp_destroy_loop _ l); [done|done|lia]|].
  intros [] w' (H1 & H2 & H3 & H4). apply wp_mod. split_and!; [|done|done]. simpl.
  apply map_empty. intros a. destruct (decide (a ∈ l)) as [|Ha]; [by apply H3|]. rewrite H4 by done.
  rewrite eq_None_not_Some, <-Hl. done.
Qed.

(** ** Collection *)

(** C36: a collection terminates without undefined behaviour and keeps
    exactly the objects that can be reached from the registered variables,
    with their type and contents; every other object is freed.  The variables
    and the root stack stay, the list of objects, the counter and the marks
    are consistent again, and the threshold grows to twice the survivors. *)
Theorem gc_collect_exact (w : gc_mem) :
  gc_ok w → w.(heap).(count) < 2 ^ 30 →
  ∃ w', gc_collect w = Some (tt, w') ∧ gc_ok w' ∧
    (∀ a, is_Some (w'.(objs) !! a) ↔ live w a) ∧
    (∀ a, live w a → content w'.(objs) a = content w.(objs) a) ∧
    w'.(vars) = w.(vars) ∧ root_vals w' = root_vals w ∧
    w'.(heap).(threshold) = Z.max w.(heap).(threshold) (2 * Z.of_nat (size w'.(objs))).
Proof.
  intros Hok Hn. pose proof (wp_gc_collect w Hok Hn) as ([] & w' & E & HC)%wp_run.
  exists w'. pose proof HC as [C1 C2 C3 C4 C5 C6]. split_and!; [done|done| |done|apply C4| |].
  - intros a. split; [apply C3|]. intros Ha. eapply content_dom; [by apply C2|].
    eapply from_ok; [apply Hok|apply Hok|exact Ha].
  - by apply Frame_roots.
  - by rewrite C6, <-(ok_count _ C1).
Qed.

(** ** Transparency *)

(** All variables of a program are uninitialised at first. *)
Definition start (n : nat) : astate := mk_astate ∅ 0 (replicate n (Imm 0)) [] ∅.

Lemma init_ok w :
  w.(objs) = ∅ → length w.(heap).(roots) = 256%nat →
  wp gc_init (λ _ w', sim (start (length w.(vars))) ∅ w' ∧ w'.(heap).(count) = 0) w.
Proof.
  intros Ho Hr. apply wp_mod. destruct w as [h m vs k]; simpl in *. subst m. split; [|done]. split.
  - split; simpl.
    + split; intros a o; by rewrite lookup_empty.
    + intros a o. by rewrite lookup_empty.
    + exists []. split_and!; [done|constructor|]. intros a. rewrite lookup_empty.
      split; [set_solver|by intros []].
    + done.
    + lia.
    + split; simpl; [done|lia|lia|]. intros v. unfold root_vals. simpl. set_solver.
  - simpl. by rewrite length_replicate.
  - set_solver.
  - done.
  - set_solver.
  - intros id a. by rewrite lookup_empty.
  - intros i j a. by rewrite lookup_empty.
  - intros id a. by rewrite lookup_empty.
Qed.

(** C37: a program that only uses values it has protected, as the interface
    asks, behaves on the collected heap as on an abstract heap that never
    frees anything.  For every allocator that satisfies the contract of
    [malloc] and every sequence of calls: no undefined behaviour (no access to
    a freed object, no overrun of the root stack), and at the end the
    variables that may be used hold the abstract values, with the same
    structure and contents behind them ([sim]).  The process exits only when
    [malloc] fails or when more than 256 roots are needed, and [gc_destroy]
    frees every object. *)
Theorem gc_transparent (malloc : nat → gmap Z gc_obj → Z → Z) (cs : list cmd) (w : gc_mem) (s : astate) :
  Malloc malloc → w.(objs) = ∅ → length w.(heap).(roots) = 256%nat →
  Z.of_nat (length cs) <= 2 ^ 30 → arun cs (start (length w.(vars))) = Some s →
  ∃ r w', (gc_init;; run_cmds malloc cs) w = Some (r, w') ∧
    match r with
    | Some _ => (∃ R, sim s R w') ∧ ∃ w'', gc_destroy w' = Some (tt, w'') ∧ w''.(objs) = ∅
    | None => oom malloc ∨ ¬ roomy cs (start (length w.(vars)))
    end.
Proof.
  intros HM Ho Hr Hl Ha. apply wp_run, wp_bind.
  eapply wp_mono; [by apply init_ok|]. intros [] w1 [HS Hc].
  eapply wp_mono; [eapply wp_cmds; [done|exact HS|exact Ha|lia]|].
  intros [[]|] w2; [|done]. intros [R HS2]. split; [by exists R|].
  pose proof (wp_gc_destroy w2 (si_ok _ _ _ HS2)) as ([] & w3 & E & ? & _)%wp_run. by exists w3.
Qed.

(** ** Witnesses *)

(** An allocator that returns addresses above all the ones in use. *)
Definition bump (n : nat) (m : gmap Z gc_obj) (sz : Z) : Z :=
  16 * (1 + foldr Z.max 0 (map_to_list m).*1).

Lemma max_le l x : x ∈ l → x <= foldr Z.max 0 l.
Proof. induction l as [|y l IH]; [set_solver|]. intros [->|Hx]%elem_of_cons; simpl; [lia|]. specialize (IH Hx). lia. Qed.

Lemma max_nonneg l : 0 <= foldr Z.max 0 l.
Proof. induction l; simpl; lia. Qed.

#[global] Instance bump_malloc : Malloc bump.
Proof.
  intros n m sz Hne. unfold bump in *. set (k := foldr Z.max 0 (map_to_list m).*1) in *.
  assert (Hk : 0 <= k) by apply max_nonneg. split.
  - unfold IS_PTR, TAG_MASK, TAG_OBJ, VAL_NIL. change 3 with (Z.ones 2). rewrite Z.land_ones by lia.
    replace (16 * (1 + k)) with ((4 * (1 + k)) * 2 ^ 2) by lia. rewrite Z.mod_mul by lia.
    by destruct (Z.eqb_spec (4 * (1 + k) * 2 ^ 2) 0); [lia|].
  - apply eq_None_not_Some. intros [o Ho%elem_of_map_to_list].
    assert (16 * (1 + k) <= k); [|lia]. apply max_le. apply list_elem_of_fmap. by eexists (_, o).
Qed.

Definition demo_heap : gc_mem := mk_mem (mk_heap 7 7 7 (replicate 256 0%nat) 7) ∅ [9; 9; 9] 0.

(** A list and a string; the string is dropped, the list is read after the
    collection. *)
Definition demo_prog : list cmd :=
  [CImm 0 (MAKE_FIX 1); CImm 1 VAL_NIL; CCons 0 0 1; CPush 0; CString 2 [104; 105]; CClosure 2 5 0 1;
   CPush 2; CPop 1; CCollect; CCar 1 0; CSetCdr 0 0].

Lemma gc_transparent_witness :
  ∃ s, arun demo_prog (start 3) = Some s ∧ s.(avars) !! 1%nat = Some (Imm (MAKE_FIX 1)) ∧
  ∃ r w', (gc_init;; run_cmds bump demo_prog) demo_heap = Some (r, w') ∧
    match r with
    | Some _ => (∃ R, sim s R w') ∧ ∃ w'', gc_destroy w' = Some (tt, w'') ∧ w''.(objs) = ∅
    | None => oom bump ∨ ¬ roomy demo_prog (start 3)
    end.
Proof.
  eexists. split; [vm_compute; reflexivity|]. split; [reflexivity|].
  apply (gc_transparent bump demo_prog demo_heap);
    [apply bump_malloc|reflexivity|reflexivity|vm_compute; congruence|vm_compute; reflexivity].
Defined.

(** A heap with a pair that is a root and a string that is not. *)
Definition demo_mem : gc_mem :=
  mk_mem (mk_heap 32 2 64 (replicate 256 0%nat) 1)
    (<[16 := mk_obj OBJ_PAIR 0 0 (Pair (MAKE_FIX 3) 16)]>
      (<[32 := mk_obj OBJ_STRING 0 16 (Str 1 (str_data [65] 1))]> ∅)) [16] 0.

Lemma demo_mem_ok : gc_ok demo_mem.
Proof.
  assert (HL : ∀ a o, objs demo_mem !! a = Some o → a = 16 ∨ a = 32).
  { intros a o Ha. simpl in Ha. rewrite !lookup_insert_Some, lookup_empty in Ha. naive_solver. }
  split.
  - split.
    + intros a o Ho. destruct (HL _ _ Ho) as [-> | ->]; reflexivity.
    + intros a o Ho. destruct (HL _ _ Ho) as [-> | ->]; vm_compute in Ho; simplify_eq; [done|by left].
    + intros a o v Ho Hv Hp. destruct (HL _ _ Ho) as [-> | ->]; vm_compute in Ho; simplify_eq; [|set_solver].
      apply elem_of_cons in Hv as [->|[->|[]%elem_of_nil]%elem_of_cons]; [done|]. by eexists.
  - intros a o Ho. destruct (HL _ _ Ho) as [-> | ->]; vm_compute in Ho; simplify_eq; done.
  - exists [32; 16]. split_and!.
    + simpl. split_and!; [done|done|]. eexists. split; [reflexivity|]. split_and!; [done|done|].
      eexists. split; reflexivity.
    + apply (bool_decide_unpack _). by vm_compute.
    + intros a. split.
      * intros [->|[->|[]%elem_of_nil]%elem_of_cons]%elem_of_cons; by eexists.
      * intros [o Ho]. destruct (HL _ _ Ho) as [-> | ->]; set_solver.
  - reflexivity.
  - vm_compute. split; congruence.
  - split; [reflexivity|vm_compute; split; congruence| |].
    + intros i x Hi Hx. apply lookup_replicate in Hx as [-> _]. simpl. lia.
    + intros v Hv. vm_compute in Hv. apply elem_of_cons in Hv as [->|[]%elem_of_nil]. intros _. by eexists.
Qed.

Lemma gc_collect_exact_witness :
  ∃ w', gc_collect demo_mem = Some (tt, w') ∧ gc_ok w' ∧
    (∀ a, is_Some (w'.(objs) !! a) ↔ live demo_mem a) ∧
    (∀ a, live demo_mem a → content w'.(objs) a = content demo_mem.(objs) a) ∧
    w'.(vars) = demo_mem.(vars) ∧ root_vals w' = root_vals demo_mem ∧
    w'.(heap).(threshold) = Z.max 64 (2 * Z.of_nat (size w'.(objs))).
Proof. apply (gc_collect_exact demo_mem); [exact demo_mem_ok|vm_compute; reflexivity]. Defined.
