(* ===== verification/Regalloc.v ===== *)
(** * The IR and the register allocator of the portable compiler

    src/portable-compiler/demo/ir/ir.h and ir.c, the instructions of a
    function and their construction, and
    src/portable-compiler/demo/backend/regalloc_cf.c, the linear-scan register
    allocator.

    The list of instructions of a function is a list, and a pointer to an
    instruction its index.  The local arrays of [regalloc] are the fields of
    a [ra_state]; the entries of [active] are indices into [ivs], which the
    code has as pointers, so that a change through [active] is seen in [ivs].
    [xmalloc] never fails.  The sorting routine of the C library is the
    parameter [qsort]. *)

From S2P Require Import Prelude.

(** ** IR *)

Inductive ir_op : Type :=
  | IR_NOP | IR_LIC | IR_LEA | IR_ADL | IR_MOV
  | IR_ADD | IR_SUB | IR_MUL | IR_DIVS | IR_DIVU | IR_MODS | IR_MODU
  | IR_AND | IR_OR | IR_XOR | IR_SHL | IR_SHRS | IR_SHRU | IR_NEG | IR_NOT
  | IR_LB | IR_LBS | IR_LH | IR_LHS | IR_LW | IR_SB | IR_SH | IR_SW
  | IR_LDL | IR_STL
  | IR_CMPEQ | IR_CMPNE | IR_CMPLTS | IR_CMPLES | IR_CMPGTS | IR_CMPGES
  | IR_CMPLTU | IR_CMPLEU | IR_CMPGTU | IR_CMPGEU
  | IR_JMP | IR_BZ | IR_BNZ
  | IR_ARG | IR_CALL | IR_CALLI | IR_RET | IR_RETV
  | IR_FUNC | IR_ENDF | IR_LABEL
  | IR_MARK | IR_CAPTURE | IR_RESUME.

Record ir_insn : Type := mk_insn {
  op : ir_op;
  dst : Z;
  ra : Z;
  rb : Z;
  imm : Z;
  sym : option string;
  slot : Z;
  label : Z;
  nargs : Z
}.

Record ir_func : Type := mk_func {
  name : string;
  nparams : Z;
  nslots : Z;
  slot_size : list Z;
  ntemps : Z;
  nlabels : Z;
  nspills : Z;
  temp_reg : list Z;
  temp_spill : list Z;
  insns : list ir_insn
}.

Definition ir_new_func (name : string) : ir_func := mk_func name 0 0 [] 0 0 0 [] [] [].

Definition set_ntemps (n : Z) (f : ir_func) : ir_func :=
  mk_func f.(name) f.(nparams) f.(nslots) f.(slot_size) n f.(nlabels) f.(nspills) f.(temp_reg)
    f.(temp_spill) f.(insns).
Definition set_nlabels (n : Z) (f : ir_func) : ir_func :=
  mk_func f.(name) f.(nparams) f.(nslots) f.(slot_size) f.(ntemps) n f.(nspills) f.(temp_reg)
    f.(temp_spill) f.(insns).
Definition set_insns (l : list ir_insn) (f : ir_func) : ir_func :=
  mk_func f.(name) f.(nparams) f.(nslots) f.(slot_size) f.(ntemps) f.(nlabels) f.(nspills) f.(temp_reg)
    f.(temp_spill) l.
Definition set_alloc (n : Z) (regs spills : list Z) (f : ir_func) : ir_func :=
  mk_func f.(name) f.(nparams) f.(nslots) f.(slot_size) f.(ntemps) f.(nlabels) n regs spills f.(insns).

Definition ir_new_temp : M ir_func Z :=
  f ← mget; n ← int (f.(ntemps) + 1); mmod (set_ntemps n);; mret f.(ntemps).

Definition ir_new_label : M ir_func Z :=
  f ← mget; n ← int (f.(nlabels) + 1); mmod (set_nlabels n);; mret f.(nlabels).

Definition ir_emit (op : ir_op) : M ir_func nat :=
  f ← mget;
  mmod (set_insns (f.(insns) ++ [mk_insn op (-1) (-1) (-1) 0 None (-1) (-1) 0]));;
  mret (length f.(insns)).

(** ** The register allocator *)

Definition NUM_REGS : Z := 6.
Definition FIRST_REG : Z := 2.

Record interval : Type := mk_iv { temp : Z; start : Z; stop : Z; reg : Z; spill : Z }.

Definition set_reg (r : Z) (v : interval) : interval := mk_iv v.(temp) v.(start) v.(stop) r v.(spill).
Definition set_spill (n : Z) (v : interval) : interval := mk_iv v.(temp) v.(start) v.(stop) v.(reg) n.

Definition sort_by_start (a b : interval) : Z :=
  if negb (a.(start) =? b.(start)) then a.(start) - b.(start) else a.(stop) - b.(stop).

(** [ra_nspills] is the local variable [nspills]. *)
Record ra_state : Type := mk_ra {
  first_def : list Z;
  last_use : list Z;
  ivs : list interval;
  pool : list Z;
  active : list Z;
  nactive : Z;
  ra_nspills : Z
}.

Definition set_first_def (l : list Z) (s : ra_state) : ra_state :=
  mk_ra l s.(last_use) s.(ivs) s.(pool) s.(active) s.(nactive) s.(ra_nspills).
Definition set_last_use (l : list Z) (s : ra_state) : ra_state :=
  mk_ra s.(first_def) l s.(ivs) s.(pool) s.(active) s.(nactive) s.(ra_nspills).
Definition set_ivs (l : list interval) (s : ra_state) : ra_state :=
  mk_ra s.(first_def) s.(last_use) l s.(pool) s.(active) s.(nactive) s.(ra_nspills).
Definition set_pool (l : list Z) (s : ra_state) : ra_state :=
  mk_ra s.(first_def) s.(last_use) s.(ivs) l s.(active) s.(nactive) s.(ra_nspills).
Definition set_active (l : list Z) (s : ra_state) : ra_state :=
  mk_ra s.(first_def) s.(last_use) s.(ivs) s.(pool) l s.(nactive) s.(ra_nspills).
Definition set_nactive (n : Z) (s : ra_state) : ra_state :=
  mk_ra s.(first_def) s.(last_use) s.(ivs) s.(pool) s.(active) n s.(ra_nspills).
Definition set_ra_nspills (n : Z) (s : ra_state) : ra_state :=
  mk_ra s.(first_def) s.(last_use) s.(ivs) s.(pool) s.(active) s.(nactive) n.

(** Reading and writing an array of the state. *)
Definition rd {A} (f : ra_state → list A) (i : Z) : M ra_state A := s ← mget; must (aget (f s) i).
Definition wr {A} (f : ra_state → list A) (upd : list A → ra_state → ra_state) (i : Z) (x : A) :
    M ra_state unit :=
  s ← mget; l ← must (aset (f s) i x); mmod (upd l).

Definition get_iv (i : Z) : M ra_state interval := rd ivs i.
Definition mod_iv (i : Z) (g : interval → interval) : M ra_state unit :=
  v ← get_iv i; wr ivs set_ivs i (g v).

(** [if (last_use[t] < pos) last_use[t] = pos;], for a temporary of the function. *)
Definition use_at (n t pos : Z) : M ra_state unit :=
  if (0 <=? t) && (t <? n) then
    l ← rd last_use t;
    if l <? pos then wr last_use set_last_use t pos else mret tt
  else mret tt.

Definition scan_insn (n pos : Z) (i : ir_insn) : M ra_state unit :=
  (if (0 <=? i.(dst)) && (i.(dst) <? n) then
     f ← rd first_def i.(dst);
     if f <? 0 then wr first_def set_first_def i.(dst) pos else mret tt
   else mret tt);;
  use_at n i.(dst) pos;;
  use_at n i.(ra) pos;;
  use_at n i.(rb) pos.

Fixpoint scan (n pos : Z) (l : list ir_insn) : M ra_state unit :=
  match l with
  | [] => mret tt
  | i :: l =>
      scan_insn n pos i;;
      pos ← int (pos + 1);
      scan n pos l
  end.

(** The intervals of the temporaries that are defined; the result is [niv]. *)
Definition build_ivs (n : Z) : M ra_state Z :=
  mloop (upto n) (λ t niv,
    f ← rd first_def t;
    if f <? 0 then mret (inl niv)
    else
      l ← rd last_use t;
      wr ivs set_ivs niv (mk_iv t f (if f <=? l then l else f) (-1) (-1));;
      mret (inl (niv + 1))) 0.

(** Registers of intervals that end before [iv] go back to the pool. *)
Definition expire (iv : interval) : M ra_state unit :=
  s ← mget;
  w ← mloop (upto s.(nactive)) (λ r w,
    a ← rd active r;
    v ← get_iv a;
    if v.(stop) <? iv.(start) then
      wr pool set_pool (v.(reg) - FIRST_REG) 1;;
      mret (inl w)
    else
      wr active set_active w a;;
      mret (inl (w + 1))) 0;
  mmod (set_nactive w).

(** The first free register, or -1. *)
Definition take_reg : M ra_state Z :=
  mloop (upto NUM_REGS) (λ k got,
    p ← rd pool k;
    if nz p then
      wr pool set_pool k 0;;
      mret (inr (k + FIRST_REG))
    else mret (inl got)) (-1).

(** Put the interval [p] into [active], which stays ordered by [stop]. *)
Definition insert_active (p : Z) (iv : interval) : M ra_state unit :=
  s ← mget;
  ins_at ← mloop (upto s.(nactive)) (λ r ins_at,
    a ← rd active r;
    v ← get_iv a;
    mret (if iv.(stop) <? v.(stop) then inr r else inl ins_at)) s.(nactive);
  mfor (upto (s.(nactive) - ins_at)) (λ k,
    a ← rd active (s.(nactive) - k - 1);
    wr active set_active (s.(nactive) - k) a);;
  wr active set_active ins_at p;;
  mmod (λ s, set_nactive (s.(nactive) + 1) s).

(** [x.spill = nspills++ * 4;] *)
Definition new_spill (x : Z) : M ra_state unit :=
  s ← mget;
  n ← int (s.(ra_nspills) * 4);
  mod_iv x (set_spill n);;
  mmod (set_ra_nspills (s.(ra_nspills) + 1)).

(** One turn of the main loop. *)
Definition alloc_one (p : Z) : M ra_state unit :=
  iv ← get_iv p;
  expire iv;;
  got ← take_reg;
  if 0 <=? got then
    mod_iv p (set_reg got);;
    insert_active p iv
  else
    s ← mget;
    sp ← rd active (s.(nactive) - 1);
    v ← get_iv sp;
    if iv.(stop) <? v.(stop) then
      mod_iv p (set_reg v.(reg));;
      mod_iv sp (set_reg (-1));;
      new_spill sp;;
      mmod (λ s, set_nactive (s.(nactive) - 1) s);;
      insert_active p iv
    else new_spill p.

Section regalloc.
Context (qsort : (interval → interval → Z) → list interval → list interval).

(** The allocation of registers, up to the copy of the result to [fn]. *)
Definition allocate (n : Z) (l : list ir_insn) : M ra_state Z :=
  scan n 0 l;;
  niv ← build_ivs n;
  s ← mget;
  sorted ← must (aslice s.(ivs) 0 niv);
  mmod (set_ivs (qsort sort_by_start sorted ++ drop (Z.to_nat niv) s.(ivs)));;
  mfor (upto niv) alloc_one;;
  mret niv.

(** [fn->temp_reg[ivs[p].temp] = ivs[p].reg], and the same for the spills. *)
Fixpoint write_back (l : list interval) (regs spills : list Z) : option (list Z * list Z) :=
  match l with
  | [] => Some (regs, spills)
  | v :: l =>
      regs ← aset regs v.(temp) v.(reg);
      spills ← aset spills v.(temp) v.(spill);
      write_back l regs spills
  end.

(** Arrays come from [xmalloc] with any contents; [junk] stands for it. *)
Definition regalloc (fn : ir_func) : option ir_func :=
  let n := fn.(ntemps) in
  let none := replicate (Z.to_nat n) (-1) in
  if n =? 0 then Some (set_alloc 0 none none fn)
  else
    let junk := mk_iv 0 0 0 0 0 in
    let s0 := mk_ra none none (replicate (Z.to_nat n) junk) (replicate 6 1) (replicate 7 0) 0 0 in
    '(niv, s) ← allocate n fn.(insns) s0;
    l ← aslice s.(ivs) 0 niv;
    '(regs, spills) ← write_back l none none;
    Some (set_alloc s.(ra_nspills) regs spills fn).
End regalloc.
