(* ===== verification/RegallocInv.v ===== *)
(** * Live ranges and the loops of the register allocator

    What the scan of src/portable-compiler/demo/backend/regalloc_cf.c computes,
    the live ranges, and the specification of the loops over [active] and
    [pool]. *)

From stdpp Require Import sets.
From S2P Require Import Prelude Regalloc.

(** ** Definitions and uses *)

Definition mentions (i : ir_insn) (t : Z) : Prop := i.(dst) = t ∨ i.(ra) = t ∨ i.(rb) = t.

#[global] Instance mentions_dec i t : Decision (mentions i t).
Proof. unfold mentions. apply _. Defined.

Definition def_at (l : list ir_insn) (t : Z) (p : nat) : Prop := ∃ i, l !! p = Some i ∧ i.(dst) = t.
Definition use_pos (l : list ir_insn) (t : Z) (p : nat) : Prop := ∃ i, l !! p = Some i ∧ mentions i t.

(** [p] is between a definition of [t] and an instruction that mentions it. *)
Definition live_at (l : list ir_insn) (t : Z) (p : nat) : Prop :=
  ∃ i j, (i <= p <= j)%nat ∧ def_at l t i ∧ use_pos l t j.

Lemma def_use l t p : def_at l t p → use_pos l t p.
Proof. intros (i & Hi & Hd). exists i. split; [done|by left]. Qed.

(** [f] is the first definition, or the last mention, before [k]; -1 if there
    is none. *)
Definition is_first (l : list ir_insn) (k : nat) (t f : Z) : Prop :=
  (f = -1 ∧ ∀ q, (q < k)%nat → ¬ def_at l t q) ∨
  (0 <= f < Z.of_nat k ∧ def_at l t (Z.to_nat f) ∧ ∀ q, (q < Z.to_nat f)%nat → ¬ def_at l t q).

Definition is_last (l : list ir_insn) (k : nat) (t f : Z) : Prop :=
  (f = -1 ∧ ∀ q, (q < k)%nat → ¬ use_pos l t q) ∨
  (0 <= f < Z.of_nat k ∧ use_pos l t (Z.to_nat f) ∧ ∀ q, (Z.to_nat f < q < k)%nat → ¬ use_pos l t q).

(** ** Arrays of the state *)

Lemma wp_rd {A} (f : ra_state → list A) i x s (Q : A → ra_state → Prop) :
  0 <= i → f s !! Z.to_nat i = Some x → Q x s → wp (rd f i) Q s.
Proof. intros Hi Hx HQ. apply wp_bind, wp_get, (wp_must _ x); [by rewrite aget_lookup|done]. Qed.

Lemma wp_wr {A} (f : ra_state → list A) upd i x s (Q : unit → ra_state → Prop) :
  0 <= i < Z.of_nat (length (f s)) → Q tt (upd (<[Z.to_nat i := x]> (f s)) s) → wp (wr f upd i x) Q s.
Proof. intros Hi HQ. apply wp_bind, wp_get, wp_bind. rewrite aset_in by done. by apply wp_some, wp_mod. Qed.

(** Every entry of an array satisfies [P]; one entry is changed. *)
Definition each (l : list Z) (n : Z) (P : Z → Z → Prop) : Prop :=
  length l = Z.to_nat n ∧ ∀ t, 0 <= t < n → ∃ x, l !! Z.to_nat t = Some x ∧ P t x.

Lemma each_insert l n P P' t y :
  each l n P → 0 <= t < n → P' t y → (∀ t' x, t' ≠ t → P t' x → P' t' x) → each (<[Z.to_nat t := y]> l) n P'.
Proof.
  intros [Hl HP] Ht Hy HI. split; [by rewrite length_insert|]. intros u Hu.
  destruct (decide (u = t)) as [->|Hne].
  - exists y. split; [apply list_lookup_insert_eq; lia|done].
  - destruct (HP u Hu) as (x & Hx & Hpx). exists x. rewrite list_lookup_insert_ne by lia. auto.
Qed.

Lemma each_mono l n (P P' : Z → Z → Prop) :
  each l n P → (∀ t x, 0 <= t < n → P t x → P' t x) → each l n P'.
Proof. intros [Hl HP] HI. split; [done|]. intros t Ht. destruct (HP t Ht) as (x & ? & ?). eauto. Qed.

(** ** The scan *)

(** The two arrays after the instructions before [k]. *)
Record Scanned (l : list ir_insn) (n : Z) (k : nat) (s0 s : ra_state) : Prop := {
  sc_first : each s.(first_def) n (is_first l k);
  sc_last : each s.(last_use) n (is_last l k);
  sc_rest : s = set_first_def s.(first_def) (set_last_use s.(last_use) s0)
}.

Lemma is_first_S l k t f i :
  l !! k = Some i → is_first l k t f →
  is_first l (S k) t (if decide (i.(dst) = t ∧ f < 0) then Z.of_nat k else f).
Proof.
  intros Hi [[-> Hn]|(Hf & Hd & Hn)].
  - case_decide as Hc.
    + destruct Hc as [<- _]. right. rewrite Nat2Z.id. split_and!; [lia|lia|by exists i|done].
    + left. split; [done|]. intros q Hq. destruct (decide (q = k)) as [->|]; [|apply Hn; lia].
      intros (i' & Hi' & Hd). simplify_eq. apply Hc. split; [done|lia].
  - rewrite decide_False by lia. right. split_and!; [lia|lia|done|done].
Qed.

Lemma is_last_hit l k t i : l !! k = Some i → mentions i t → is_last l (S k) t (Z.of_nat k).
Proof. intros Hi Hm. right. rewrite Nat2Z.id. split_and!; [lia|lia|by exists i|lia]. Qed.

Lemma is_last_miss l k t i f : l !! k = Some i → ¬ mentions i t → is_last l k t f → is_last l (S k) t f.
Proof.
  intros Hi Hm. assert (Hk : ¬ use_pos l t k) by (intros (i' & ? & ?); naive_solver).
  intros [[-> Hn]|(Hb & Hu & Hn)].
  - left. split; [done|]. intros q Hq. destruct (decide (q = k)) as [->|]; [done|apply Hn; lia].
  - right. split_and!; [lia|lia|done|]. intros q Hq.
    destruct (decide (q = k)) as [->|]; [done|apply Hn; lia].
Qed.

(** [use_at]: the entry of [t] becomes the position, which is the largest so far. *)
Lemma wp_use_at n t pos s (P : Z → Z → Prop) (Q : unit → ra_state → Prop) :
  each s.(last_use) n P → (∀ t x, P t x → x <= pos) →
  (∀ l', each l' n (λ u x, (P u x ∧ u ≠ t) ∨ (u = t ∧ x = pos)) → Q tt (set_last_use l' s)) →
  wp (use_at n t pos) Q s.
Proof.
  intros HP Hle HQ. unfold use_at. destruct (decide (0 <= t < n)) as [Ht|Ht].
  2: { apply wp_if; intros Hc; [lia|]. apply wp_ret. specialize (HQ s.(last_use)).
       replace (set_last_use (last_use s) s) with s in HQ by by destruct s.
       apply HQ. eapply each_mono; [done|]. intros u x Hu Hx. left. split; [done|lia]. }
  apply wp_if; intros Hc; [|lia]. destruct HP as [Hl HP]. destruct (HP t Ht) as (x & Hx & Hpx).
  apply wp_bind. eapply wp_rd; [lia|done|]. apply wp_if; intros Hx'.
  - apply wp_wr; [lia|]. apply HQ. eapply (each_insert _ _ P); [by split|done|by right|].
    intros u y Hu Hy. by left.
  - apply wp_ret. specialize (HQ s.(last_use)).
    replace (set_last_use (last_use s) s) with s in HQ by by destruct s. apply HQ.
    split; [done|]. intros u Hu. destruct (decide (u = t)) as [->|Hne].
    + exists x. split; [done|]. right. specialize (Hle _ _ Hpx). split; [done|lia].
    + destruct (HP u Hu) as (y & ? & ?). exists y. split; [done|]. by left.
Qed.

Lemma is_last_le l k t x : is_last l k t x → x <= Z.of_nat k.
Proof. intros [[-> _]|[? _]]; lia. Qed.

Lemma wp_first_at l n k i s (Q : unit → ra_state → Prop) :
  each s.(first_def) n (is_first l k) → l !! k = Some i →
  (∀ l', each l' n (is_first l (S k)) → Q tt (set_first_def l' s)) →
  wp (if (0 <=? i.(dst)) && (i.(dst) <? n) then
        f ← rd first_def i.(dst);
        if f <? 0 then wr first_def set_first_def i.(dst) (Z.of_nat k) else mret tt
      else mret tt) Q s.
Proof.
  intros Hf Hi HQ.
  assert (Hkeep : (∀ f, is_first l k i.(dst) f → s.(first_def) !! Z.to_nat i.(dst) = Some f →
    0 <= i.(dst) < n → 0 <= f) → Q tt s).
  { intros Hk. replace s with (set_first_def s.(first_def) s) by by destruct s. apply HQ.
    destruct Hf as [Hl Hf]. split; [done|]. intros t Ht. destruct (Hf t Ht) as (x & Hx & Hp).
    exists x. split; [done|]. pose proof (is_first_S _ _ _ _ _ Hi Hp) as HS.
    rewrite decide_False in HS; [done|]. intros [<- ?]. specialize (Hk x Hp Hx Ht). lia. }
  apply wp_if; intros Hc; [|apply wp_ret, Hkeep; lia].
  pose proof Hf as [Hl Hf']. destruct (Hf' i.(dst)) as (x & Hx & Hp); [lia|].
  apply wp_bind. eapply wp_rd; [lia|done|]. apply wp_if; intros Hx'.
  - apply wp_wr; [lia|]. apply HQ. eapply (each_insert _ _ (is_first l k)); [done|lia| |].
    + pose proof (is_first_S _ _ _ _ _ Hi Hp) as HS. rewrite decide_True in HS; [done|]. split; [done|lia].
    + intros t y Hne Hy. pose proof (is_first_S _ _ _ _ _ Hi Hy) as HS.
      rewrite decide_False in HS; [done|]. naive_solver.
  - apply wp_ret, Hkeep. intros f _ Hf2 _. simplify_eq. lia.
Qed.

Lemma wp_scan_insn l n k i s0 s (Q : unit → ra_state → Prop) :
  Scanned l n k s0 s → l !! k = Some i →
  (∀ s', Scanned l n (S k) s0 s' → Q tt s') → wp (scan_insn n (Z.of_nat k) i) Q s.
Proof.
  intros [Hf Hlast Hrest] Hi HQ. unfold scan_insn. apply wp_bind.
  eapply wp_first_at; [done|done|]. intros l1 Hf1.
  assert (Hle : ∀ t x, is_last l k t x → x <= Z.of_nat k) by (intros; by eapply is_last_le).
  apply wp_bind. eapply wp_use_at; [exact Hlast|done|]. intros l2 H2.
  apply wp_bind. eapply wp_use_at; [exact H2| |]; [intros; simpl in *; naive_solver lia|]. intros l3 H3.
  eapply wp_use_at; [exact H3| |]; [intros; simpl in *; naive_solver lia|]. intros l4 H4.
  apply HQ. split.
  - exact Hf1.
  - simpl. eapply each_mono; [exact H4|]. intros t x Ht Hx. simpl in Hx.
    destruct (decide (mentions i t)) as [Hm|Hm].
    + assert (x = Z.of_nat k) as -> by (unfold mentions in Hm; naive_solver). by eapply is_last_hit.
    + eapply is_last_miss; [done|done|]. unfold mentions in Hm. naive_solver.
  - rewrite Hrest. by destruct s0.
Qed.

Lemma wp_scan l n k s0 s (Q : unit → ra_state → Prop) :
  Scanned l n k s0 s → (k <= length l)%nat → Z.of_nat (length l) < 2 ^ 31 →
  (∀ s', Scanned l n (length l) s0 s' → Q tt s') → wp (scan n (Z.of_nat k) (drop k l)) Q s.
Proof.
  intros HS Hk Hl HQ. remember (drop k l) as rest eqn:Hr. revert k s HS Hk Hr.
  induction rest as [|i rest IH]; intros k s HS Hk Hr; simpl.
  - apply wp_ret, HQ. assert (length (drop k l) = 0%nat) by by rewrite <-Hr.
    rewrite length_drop in *. by replace (length l) with k by lia.
  - assert (Hi : l !! k = Some i).
    { rewrite <-(Nat.add_0_r k), <-lookup_drop, <-Hr. done. }
    pose proof (lookup_lt_Some _ _ _ Hi). apply wp_bind. eapply wp_scan_insn; [done|done|]. intros s' HS'.
    apply wp_bind, wp_int; [lia|]. replace (Z.of_nat k + 1) with (Z.of_nat (S k)) by lia.
    apply IH; [done|lia|]. rewrite (drop_S _ _ _ Hi) in Hr. congruence.
Qed.

(** ** The live ranges *)

(** [v] is the live range of its temporary, not yet placed. *)
Record is_range (l : list ir_insn) (n : Z) (v : interval) : Prop := {
  rg_temp : 0 <= v.(temp) < n;
  rg_le : 0 <= v.(start) <= v.(stop);
  rg_def : def_at l v.(temp) (Z.to_nat v.(start));
  rg_first q : def_at l v.(temp) q → (Z.to_nat v.(start) <= q)%nat;
  rg_last q : use_pos l v.(temp) q → (q <= Z.to_nat v.(stop))%nat
}.

Definition unplaced (v : interval) : Prop := v.(reg) = -1 ∧ v.(spill) = -1.

(** The ranges of the temporaries below [t] are the first [niv] entries of [ivs]. *)
Record Built (l : list ir_insn) (n t niv : Z) (s0 s : ra_state) : Prop := {
  bu_niv : 0 <= niv <= t;
  bu_len : length s.(ivs) = Z.to_nat n;
  bu_range v : v ∈ take (Z.to_nat niv) s.(ivs) → is_range l n v ∧ unplaced v ∧ v.(temp) < t;
  bu_nodup : NoDup (temp <$> take (Z.to_nat niv) s.(ivs));
  bu_all u q : 0 <= u < t → def_at l u q → u ∈ temp <$> take (Z.to_nat niv) s.(ivs);
  bu_rest : s = set_ivs s.(ivs) s0
}.

Lemma use_pos_lt l t q : use_pos l t q → (q < length l)%nat.
Proof. intros (i & Hi & _). by eapply lookup_lt_Some. Qed.

Lemma range_of l n t f k :
  is_first l (length l) t f → is_last l (length l) t k → 0 <= t < n → 0 <= f →
  f <= k ∧ is_range l n (mk_iv t f k (-1) (-1)).
Proof.
  intros [[-> _]|(Hf & Hd & Hn)] Hk Ht H0; [lia|].
  assert (Hkf : f <= k ∧ ∀ q, use_pos l t q → (q <= Z.to_nat k)%nat).
  { destruct Hk as [[-> Hno]|(Hk & Hu & Hno)].
    - exfalso. apply (Hno (Z.to_nat f)); [lia|by apply def_use].
    - assert (Hq : ∀ q, use_pos l t q → (q <= Z.to_nat k)%nat).
      { intros q Hq. destruct (decide (q <= Z.to_nat k)%nat) as [|Hgt]; [done|].
        exfalso. apply (Hno q); [|done]. apply use_pos_lt in Hq. lia. }
      split; [|done]. pose proof (Hq _ (def_use _ _ _ Hd)). lia. }
  destruct Hkf as [Hle Hq]. split; [done|]. split; simpl; [done|lia|done| |done].
  intros q Hdq. destruct (decide (Z.to_nat f <= q)%nat) as [|Hlt]; [done|]. exfalso.
  apply (Hn q); [lia|done].
Qed.

Lemma wp_build l n s (Q : Z → ra_state → Prop) :
  0 <= n → each s.(first_def) n (is_first l (length l)) → each s.(last_use) n (is_last l (length l)) →
  length s.(ivs) = Z.to_nat n →
  (∀ niv s', Built l n n niv s s' → Q niv s') → wp (build_ivs n) Q s.
Proof.
  intros Hn Hf Hl Hlen HQ. apply (wp_mloop_upto _ _ (λ t niv, Built l n t niv s)); [done| | |done].
  - split; simpl; [lia|done|set_solver|constructor|lia|by destruct s].
  - intros t niv s' Ht [B1 B2 B3 B4 B5 B6].
    destruct Hf as [Hfl Hf], Hl as [Hll Hl]. destruct (Hf t Ht) as (f & Hft & Hfi).
    destruct (Hl t Ht) as (k & Hkt & Hki).
    apply wp_bind. eapply wp_rd; [lia|rewrite B6; exact Hft|]. apply wp_if; intros Hneg.
    + apply wp_ret. split; [lia|done| |done| |done].
      * intros v Hv. destruct (B3 v Hv) as (? & ? & ?). split_and!; [done..|lia].
      * intros u q Hu Hd. destruct (decide (u = t)) as [->|]; [|apply (B5 u q); [lia|done]].
        destruct Hfi as [[_ Hno]|(? & _)]; [|lia]. exfalso. apply (Hno q); [|done].
        by eapply use_pos_lt, def_use.
    + destruct (range_of l n t f k Hfi Hki) as [Hfk Hr]; [lia|lia|].
      apply wp_bind. eapply wp_rd; [lia|rewrite B6; exact Hkt|]. apply wp_bind, wp_wr; [lia|].
      replace (f <=? k) with true by lia. set (v := mk_iv t f k (-1) (-1)) in *. apply wp_ret.
      assert (HT : take (Z.to_nat (niv + 1)) (<[Z.to_nat niv := v]> s'.(ivs)) = take (Z.to_nat niv) s'.(ivs) ++ [v]).
      { replace (Z.to_nat (niv + 1)) with (S (Z.to_nat niv)) by lia.
        erewrite take_S_r; [|apply list_lookup_insert_eq; lia]. by rewrite take_insert_ge. }
      split; simpl; rewrite ?HT, ?fmap_app.
      * lia.
      * by rewrite length_insert.
      * intros u [Hu|Hu%list_elem_of_singleton]%elem_of_app.
        -- destruct (B3 u Hu) as (? & ? & ?). split_and!; [done..|lia].
        -- subst u. split_and!; [done|done|simpl; lia].
      * apply NoDup_app. split_and!; [done| |apply NoDup_singleton].
        intros x (u & -> & Hu)%list_elem_of_fmap Hx%list_elem_of_singleton. destruct (B3 u Hu) as (_ & _ & ?).
        simpl in Hx. lia.
      * intros u q Hu Hd. apply elem_of_app. destruct (decide (u = t)) as [->|]; [right; set_solver|].
        left. apply (B5 u q); [lia|done].
      * rewrite B6. by destruct s.
Qed.

(** ** The loops over [active] and [pool] *)

Definition acts (s : ra_state) : list Z := take (Z.to_nat s.(nactive)) s.(active).

Record shape (s : ra_state) : Prop := {
  sp_active : length s.(active) = 7%nat;
  sp_nactive : 0 <= s.(nactive) <= 6;
  sp_pool : length s.(pool) = 6%nat
}.

(** The register [k + 2] is in the pool. *)
Definition free_reg (l : list Z) (k : nat) : Prop := ∃ x, l !! k = Some x ∧ nz x = true.

(** The entry [a] of [active] has not ended when [iv] starts. *)
Definition lasts (l : list interval) (iv : interval) (a : Z) : Prop :=
  ∃ v, l !! Z.to_nat a = Some v ∧ iv.(start) <= v.(stop).

#[global] Instance lasts_dec l iv a : Decision (lasts l iv a).
Proof.
  refine (match l !! Z.to_nat a as r return l !! Z.to_nat a = r → _ with
          | Some v => λ E, if decide (iv.(start) <= v.(stop)) then left _ else right _
          | None => λ E, right _
          end eq_refl); unfold lasts; naive_solver.
Defined.

(** Entries of [active] are placed intervals. *)
Definition placed (l : list interval) (a : Z) : Prop :=
  0 <= a ∧ ∃ v, l !! Z.to_nat a = Some v ∧ 2 <= v.(reg) < 8.

Lemma acts_lookup s r :
  shape s → 0 <= r < s.(nactive) → ∃ a, s.(active) !! Z.to_nat r = Some a ∧ acts s !! Z.to_nat r = Some a ∧
    take (Z.to_nat (r + 1)) (acts s) = take (Z.to_nat r) (acts s) ++ [a].
Proof.
  intros [H1 H2 _] Hr. destruct (lookup_lt_is_Some_2 s.(active) (Z.to_nat r)) as [a Ha]; [lia|].
  assert (Ha' : acts s !! Z.to_nat r = Some a) by (unfold acts; by rewrite lookup_take_lt by lia).
  exists a. split_and!; [done..|]. replace (Z.to_nat (r + 1)) with (S (Z.to_nat r)) by lia. by apply take_S_r.
Qed.

(** The state of the loop of [expire] before the turn [r]. *)
Record Expiring (iv : interval) (s0 : ra_state) (r w : Z) (s : ra_state) : Prop := {
  ex_w : w = Z.of_nat (length (filter (lasts s0.(ivs) iv) (take (Z.to_nat r) (acts s0))));
  ex_take : take (Z.to_nat w) s.(active) = filter (lasts s0.(ivs) iv) (take (Z.to_nat r) (acts s0));
  ex_drop j : (Z.to_nat r <= j)%nat → s.(active) !! j = s0.(active) !! j;
  ex_len : length s.(active) = 7%nat;
  ex_plen : length s.(pool) = 6%nat;
  ex_pool k : free_reg s.(pool) k ↔ free_reg s0.(pool) k ∨
    ∃ a v, a ∈ take (Z.to_nat r) (acts s0) ∧ ¬ lasts s0.(ivs) iv a ∧
      s0.(ivs) !! Z.to_nat a = Some v ∧ v.(reg) = Z.of_nat k + 2;
  ex_rest : s = set_active s.(active) (set_pool s.(pool) s0)
}.

Lemma free_reg_insert l i j :
  (i < length l)%nat → free_reg (<[i := 1]> l) j ↔ free_reg l j ∨ j = i.
Proof.
  intros Hi. unfold free_reg. destruct (decide (j = i)) as [->|Hne].
  - rewrite list_lookup_insert_eq by done. naive_solver.
  - rewrite list_lookup_insert_ne by done. naive_solver.
Qed.

Lemma expire_free iv s0 r w s a v :
  shape s0 → 0 <= r < s0.(nactive) → Expiring iv s0 r w s → s0.(active) !! Z.to_nat r = Some a →
  take (Z.to_nat (r + 1)) (acts s0) = take (Z.to_nat r) (acts s0) ++ [a] →
  s0.(ivs) !! Z.to_nat a = Some v → 2 <= v.(reg) < 8 → v.(stop) < iv.(start) →
  Expiring iv s0 (r + 1) w (set_pool (<[Z.to_nat (v.(reg) - FIRST_REG) := 1]> s.(pool)) s).
Proof.
  intros HS Hr [E1 E2 E3 E4 E5 E6 E7] Ha HT Hv Hreg Hlt.
  assert (Hnl : ¬ lasts s0.(ivs) iv a) by (intros (v' & ? & ?); simplify_eq; lia).
  assert (HF : filter (lasts s0.(ivs) iv) (take (Z.to_nat (r + 1)) (acts s0)) =
    filter (lasts s0.(ivs) iv) (take (Z.to_nat r) (acts s0))).
  { rewrite HT, filter_app, filter_cons_False by done. by rewrite filter_nil, app_nil_r. }
  split; simpl; rewrite ?HF; [done|done|intros; apply E3; lia|done|by rewrite length_insert| |].
  - intros k. unfold FIRST_REG. rewrite free_reg_insert by lia. rewrite E6, HT. setoid_rewrite elem_of_app.
    split.
    + intros [[?|(b & u & ? & ? & ? & ?)]| ->]; [by left|right; exists b, u; naive_solver|].
      right. exists a, v. split_and!; [right; set_solver|done|done|lia].
    + intros [?|(b & u & [?|Hb%list_elem_of_singleton] & ? & ? & ?)]; [naive_solver..|].
      subst b. simplify_eq. right. lia.
  - rewrite E7. by destruct s0.
Qed.

Lemma expire_keep iv s0 r w s a v :
  shape s0 → 0 <= r < s0.(nactive) → Expiring iv s0 r w s → s0.(active) !! Z.to_nat r = Some a →
  take (Z.to_nat (r + 1)) (acts s0) = take (Z.to_nat r) (acts s0) ++ [a] →
  s0.(ivs) !! Z.to_nat a = Some v → iv.(start) <= v.(stop) →
  0 <= w < 7 ∧ Expiring iv s0 (r + 1) (w + 1) (set_active (<[Z.to_nat w := a]> s.(active)) s).
Proof.
  intros HS Hr [E1 E2 E3 E4 E5 E6 E7] Ha HT Hv Hle.
  assert (Hl : lasts s0.(ivs) iv a) by by exists v.
  assert (HF : filter (lasts s0.(ivs) iv) (take (Z.to_nat (r + 1)) (acts s0)) =
    filter (lasts s0.(ivs) iv) (take (Z.to_nat r) (acts s0)) ++ [a]).
  { by rewrite HT, filter_app, filter_cons_True, filter_nil by done. }
  pose proof (length_filter (lasts s0.(ivs) iv) (take (Z.to_nat r) (acts s0))) as Hfl.
  rewrite length_take in Hfl. destruct HS as [S1 S2 S3].
  assert (Hw : 0 <= w <= r) by lia. split; [lia|]. split; simpl; rewrite ?HF.
  - rewrite length_app. simpl. lia.
  - replace (Z.to_nat (w + 1)) with (S (Z.to_nat w)) by lia.
    erewrite take_S_r; [|apply list_lookup_insert_eq; lia]. by rewrite take_insert_ge, E2.
  - intros j Hj. rewrite list_lookup_insert_ne by lia. apply E3. lia.
  - by rewrite length_insert.
  - done.
  - intros k. rewrite E6, HT. setoid_rewrite elem_of_app. split.
    + intros [?|(b & u & ? & ? & ? & ?)]; [by left|right; exists b, u; naive_solver].
    + intros [?|(b & u & [?|Hb%list_elem_of_singleton] & ? & ? & ?)]; [naive_solver..|]. subst b. done.
  - rewrite E7. by destruct s0.
Qed.

Lemma wp_expire iv s (Q : unit → ra_state → Prop) :
  shape s → (∀ a, a ∈ acts s → placed s.(ivs) a) →
  (∀ act pl n, let s' := set_nactive n (set_active act (set_pool pl s)) in
    shape s' → acts s' = filter (lasts s.(ivs) iv) (acts s) →
    (∀ k, free_reg pl k ↔ free_reg s.(pool) k ∨ ∃ a v, a ∈ acts s ∧ ¬ lasts s.(ivs) iv a ∧
      s.(ivs) !! Z.to_nat a = Some v ∧ v.(reg) = Z.of_nat k + 2) →
    Q tt s') → wp (expire iv) Q s.
Proof.
  intros HS HA HQ. pose proof HS as [S1 S2 S3]. unfold expire. apply wp_bind, wp_get, wp_bind.
  apply (wp_mloop_upto _ _ (λ r w, Expiring iv s r w)); [lia| | |].
  - split; simpl; try done; [|by destruct s]. intros k. split; [by left|]. intros [?|(? & ? & ? & _)]; [done|set_solver].
  - intros r w s' Hr HE. destruct (acts_lookup s r HS Hr) as (a & Ha & Ha' & HT).
    destruct (HA a) as (H0 & v & Hv & Hreg); [by eapply list_elem_of_lookup_2|].
    apply wp_bind. eapply wp_rd; [lia|rewrite (ex_drop _ _ _ _ _ HE) by lia; exact Ha|].
    apply wp_bind. eapply wp_rd; [lia|rewrite (ex_rest _ _ _ _ _ HE); exact Hv|].
    apply wp_if; intros Hlt; apply wp_bind, wp_wr.
    + rewrite (ex_plen _ _ _ _ _ HE). unfold FIRST_REG. lia.
    + apply wp_ret. eapply expire_free; [done|done|done|done|done|done|done|lia].
    + destruct (expire_keep iv s r w s' a v) as [Hw _]; [done..|lia|]. rewrite (ex_len _ _ _ _ _ HE). lia.
    + apply wp_ret. eapply expire_keep; [done|done|done|done|done|done|lia].
  - intros w s' [E1 E2 E3 E4 E5 E6 E7]. apply wp_mod. rewrite E7.
    assert (HT : take (Z.to_nat s.(nactive)) (acts s) = acts s).
    { unfold acts. rewrite take_take. f_equal. lia. }
    rewrite HT in *. apply HQ; [|done|done].
    pose proof (length_filter (lasts s.(ivs) iv) (acts s)). unfold acts in *. rewrite length_take in *.
    split; simpl; [done|lia|done].
Qed.

(** The first free register is taken. *)
Lemma wp_take_reg s (Q : Z → ra_state → Prop) :
  shape s → ((∀ k, ¬ free_reg s.(pool) k) → Q (-1) s) →
  (∀ k, (k < 6)%nat → free_reg s.(pool) k →
    Q (Z.of_nat k + 2) (set_pool (<[k := 0]> s.(pool)) s)) → wp take_reg Q s.
Proof.
  intros [S1 S2 S3] H0 HQ. unfold take_reg, NUM_REGS.
  apply (wp_mloop_upto _ _ (λ k got s', got = -1 ∧ s' = s ∧ ∀ j, (j < Z.to_nat k)%nat → ¬ free_reg s.(pool) j)).
  - done.
  - split_and!; [done|done|lia].
  - intros k got s' Hk (-> & -> & Hn). destruct (lookup_lt_is_Some_2 s.(pool) (Z.to_nat k)) as [x Hx]; [lia|].
    apply wp_bind. eapply wp_rd; [lia|done|]. apply wp_if; intros Hz.
    + apply wp_bind, wp_wr; [lia|]. apply wp_ret. unfold FIRST_REG.
      replace k with (Z.of_nat (Z.to_nat k)) at 1 by lia. apply HQ; [lia|by exists x].
    + apply wp_ret. split_and!; [done|done|]. intros j Hj. destruct (decide (j = Z.to_nat k)) as [->|].
      * intros (y & ? & ?). simplify_eq. congruence.
      * apply Hn. lia.
  - intros got s' (-> & -> & Hn). apply H0. intros k (x & Hx & Hz).
    apply (Hn k); [|by exists x]. apply lookup_lt_Some in Hx. lia.
Qed.

(** [k] entries of the tail of [active] have been moved up by one. *)
Definition shifted (n k : nat) (l0 l : list Z) : Prop :=
  length l = length l0 ∧
  ∀ j, l !! j = if decide (n - k < j <= n)%nat then l0 !! (j - 1)%nat else l0 !! j.

Lemma shifted_step n k l0 l a :
  shifted n k l0 l → (k < n < length l0)%nat → l0 !! (n - k - 1)%nat = Some a →
  l !! (n - k - 1)%nat = Some a ∧ shifted n (S k) l0 (<[(n - k)%nat := a]> l).
Proof.
  intros [Hl Hj] Hk Ha. split; [rewrite Hj; by rewrite decide_False by lia|].
  split; [by rewrite length_insert|]. intros j. destruct (decide (j = n - k)%nat) as [->|Hne].
  - rewrite list_lookup_insert_eq by lia. rewrite decide_True by lia. done.
  - rewrite list_lookup_insert_ne by done. rewrite Hj. repeat case_decide; try done; lia.
Qed.

Lemma shifted_insert n i l0 l p :
  shifted n (n - i) l0 l → (i <= n < length l0)%nat →
  take (S n) (<[i := p]> l) = take i l0 ++ p :: drop i (take n l0).
Proof.
  intros [Hl Hj] Hi. apply list_eq. intros j. destruct (decide (j < S n)%nat) as [Hjn|Hjn].
  2: { rewrite !lookup_ge_None_2; [done| |rewrite length_take; lia].
       rewrite length_app. simpl. rewrite length_drop, !length_take. lia. }
  rewrite lookup_take_lt by done. destruct (decide (j = i)) as [->|Hne].
  - rewrite list_lookup_insert_eq by lia. rewrite lookup_app_r; rewrite length_take; [|lia].
    by replace (i - i `min` length l0)%nat with 0%nat by lia.
  - rewrite list_lookup_insert_ne by done. rewrite Hj. destruct (decide (j < i)%nat).
    + rewrite decide_False by lia. rewrite lookup_app_l by (rewrite length_take; lia).
      by rewrite lookup_take_lt by lia.
    + rewrite decide_True by lia. rewrite lookup_app_r by (rewrite length_take; lia). rewrite length_take.
      replace (j - i `min` length l0)%nat with (S (j - S i)) by lia. simpl.
      rewrite lookup_drop, lookup_take_lt by lia. f_equal. lia.
Qed.

Lemma wp_insert_active p iv s (Q : unit → ra_state → Prop) :
  shape s → s.(nactive) < 6 → (∀ a, a ∈ acts s → placed s.(ivs) a) →
  (∀ act, let s' := set_nactive (s.(nactive) + 1) (set_active act s) in
    shape s' → acts s' ≡ₚ p :: acts s → Q tt s') → wp (insert_active p iv) Q s.
Proof.
  intros HS Hn HA HQ. pose proof HS as [S1 S2 S3]. unfold insert_active. apply wp_bind, wp_get, wp_bind.
  eapply (wp_mono _ (λ i s', s' = s ∧ 0 <= i <= s.(nactive))).
  { apply (wp_mloop_upto _ _ (λ r i s', s' = s ∧ i = s.(nactive))); [lia|done| |].
    - intros r i s' Hr [-> ->]. destruct (acts_lookup s r HS Hr) as (a & Ha & Ha' & _).
      destruct (HA a) as (H0 & v & Hv & _); [by eapply list_elem_of_lookup_2|].
      apply wp_bind. eapply wp_rd; [lia|done|]. apply wp_bind. eapply wp_rd; [lia|done|].
      apply wp_ret. destruct (stop iv <? stop v); split_and!; try done; lia.
    - intros i s' [-> ->]. split; [done|lia]. }
  intros i s' [-> Hi]. apply wp_bind.
  apply (wp_mfor_upto _ _ (λ k s', ∃ l, s' = set_active l s ∧
    shifted (Z.to_nat s.(nactive)) (Z.to_nat k) s.(active) l)).
  - lia.
  - exists s.(active). split; [by destruct s|]. split; [done|]. intros j. by rewrite decide_False by lia.
  - intros k s' Hk (l & -> & Hl).
    destruct (lookup_lt_is_Some_2 s.(active) (Z.to_nat s.(nactive) - Z.to_nat k - 1)) as [a Ha]; [lia|].
    destruct (shifted_step _ _ _ _ _ Hl ltac:(lia) Ha) as [Hla Hl'].
    apply wp_bind. eapply wp_rd; [lia| |]; simpl.
    { replace (Z.to_nat (s.(nactive) - k - 1)) with (Z.to_nat s.(nactive) - Z.to_nat k - 1)%nat by lia. done. }
    destruct Hl as [Hll _]. apply wp_wr; simpl; [lia|]. eexists. split; [done|].
    replace (Z.to_nat (s.(nactive) - k)) with (Z.to_nat s.(nactive) - Z.to_nat k)%nat by lia.
    by replace (Z.to_nat (k + 1)) with (S (Z.to_nat k)) by lia.
  - intros s' (l & -> & Hl). pose proof Hl as [Hll _]. apply wp_bind, wp_wr; simpl; [lia|]. apply wp_mod.
    simpl. eapply HQ.
    + split; simpl; [by rewrite length_insert, Hll|lia|done].
    + unfold acts. simpl. replace (Z.to_nat (s.(nactive) + 1)) with (S (Z.to_nat s.(nactive))) by lia.
      replace (Z.to_nat (s.(nactive) - i)) with (Z.to_nat s.(nactive) - Z.to_nat i)%nat in Hl by lia.
      rewrite (shifted_insert _ _ _ _ p Hl) by lia.
      rewrite <-(take_drop (Z.to_nat i) (take (Z.to_nat s.(nactive)) s.(active))) at 2.
      rewrite take_take. replace (Z.to_nat i `min` Z.to_nat s.(nactive))%nat with (Z.to_nat i) by lia.
      symmetry. apply Permutation_middle.
Qed.
