(* ===== verification/RegallocAlloc.v ===== *)
(** * The invariant of linear scan

    Every turn of the main loop of
    src/portable-compiler/demo/backend/regalloc_cf.c keeps the invariant that
    intervals which overlap are in different registers. *)

From stdpp Require Import sets.
From S2P Require Import Prelude Regalloc RegallocInv.

(** [v'] is [v] but for the place it is given. *)
Definition same_range (v v' : interval) : Prop :=
  v'.(temp) = v.(temp) ∧ v'.(start) = v.(start) ∧ v'.(stop) = v.(stop).

Definition spilled (n : Z) (v : interval) : Prop := v.(reg) = -1 ∧ ∃ k, v.(spill) = 4 * k ∧ 0 <= k < n.
Definition in_reg (v : interval) : Prop := 2 <= v.(reg) < 8 ∧ v.(spill) = -1.

(** The intervals of [L] before [p] have been placed; those that hold a
    register and are not active end before [b]. *)
Record Inv (L : list interval) (p : nat) (b : Z) (s : ra_state) : Prop := {
  iv_shape : shape s;
  iv_len : (length L <= length s.(ivs))%nat;
  iv_same j v : L !! j = Some v → ∃ v', s.(ivs) !! j = Some v' ∧ same_range v v';
  iv_new j v : (p <= j < length L)%nat → s.(ivs) !! j = Some v → unplaced v;
  iv_act a : a ∈ acts s → 0 <= a < Z.of_nat p ∧ ∃ v, s.(ivs) !! Z.to_nat a = Some v ∧ 2 <= v.(reg) < 8;
  iv_nodup : NoDup (acts s);
  iv_regs a c va vc : a ∈ acts s → c ∈ acts s → s.(ivs) !! Z.to_nat a = Some va →
    s.(ivs) !! Z.to_nat c = Some vc → va.(reg) = vc.(reg) → a = c;
  iv_pool k : (k < 6)%nat → free_reg s.(pool) k ↔
    ∀ a v, a ∈ acts s → s.(ivs) !! Z.to_nat a = Some v → v.(reg) ≠ Z.of_nat k + 2;
  iv_done j v : (j < p)%nat → s.(ivs) !! j = Some v →
    spilled s.(ra_nspills) v ∨ (in_reg v ∧ (Z.of_nat j ∈ acts s ∨ v.(stop) < b));
  iv_sep j k vj vk : (j < k < p)%nat → s.(ivs) !! j = Some vj → s.(ivs) !! k = Some vk →
    2 <= vj.(reg) → vj.(reg) = vk.(reg) → vj.(stop) < vk.(start);
  iv_spill j k vj vk : (j < p)%nat → (k < p)%nat → j ≠ k → s.(ivs) !! j = Some vj → s.(ivs) !! k = Some vk →
    0 <= vj.(spill) → vj.(spill) ≠ vk.(spill);
  iv_cnt : 0 <= s.(ra_nspills) ∧ s.(ra_nspills) + Z.of_nat (length (acts s)) <= Z.of_nat p
}.

Lemma Inv_placed L p b s a : Inv L p b s → a ∈ acts s → placed s.(ivs) a.
Proof. intros HI Ha. destruct (iv_act _ _ _ _ HI a Ha) as (? & v & ? & ?). split; [lia|eauto]. Qed.

Lemma Inv_mono L p b b' s : b <= b' → Inv L p b s → Inv L p b' s.
Proof.
  intros Hb [I1 I2 I3 I4 I5 I6 I7 I8 I9 I10 I11 I12]. split; try done.
  intros j v Hj Hv. destruct (I9 j v Hj Hv) as [?|(? & [?|?])]; [by left|right; split; [done|by left]|].
  right. split; [done|]. right. lia.
Qed.

(** ** Expired intervals *)

Lemma Inv_expire L p b iv s act pl n :
  Inv L p b s → b <= iv.(start) →
  let s' := set_nactive n (set_active act (set_pool pl s)) in
  shape s' → acts s' = filter (lasts s.(ivs) iv) (acts s) →
  (∀ k, free_reg pl k ↔ free_reg s.(pool) k ∨ ∃ a v, a ∈ acts s ∧ ¬ lasts s.(ivs) iv a ∧
    s.(ivs) !! Z.to_nat a = Some v ∧ v.(reg) = Z.of_nat k + 2) →
  Inv L p iv.(start) s'.
Proof.
  intros HI Hb s' Hsh HA HP. destruct HI as [I1 I2 I3 I4 I5 I6 I7 I8 I9 I10 I11 I12].
  assert (Hin : ∀ a, a ∈ acts s' → a ∈ acts s) by (intros a; rewrite HA, list_elem_of_filter; naive_solver).
  split; try done.
  - intros a Ha. apply I5. auto.
  - rewrite HA. by apply NoDup_filter.
  - intros a c va vc Ha Hc. apply I7; auto.
  - intros k Hk. simpl. rewrite HP, I8 by done. split.
    + intros [Hf|(a & v & Ha & Hnl & Hv & Hr)] c u Hc Hu; [apply (Hf c); auto|].
      intros Hru. assert (a = c) as -> by (eapply (I7 a c v u); [done|by apply Hin|done|done|congruence]).
      rewrite HA, list_elem_of_filter in Hc. by destruct Hc.
    + intros Hf. destruct (decide (Exists (λ a, ¬ lasts s.(ivs) iv a ∧
        from_option (λ v, v.(reg) =? Z.of_nat k + 2) false (s.(ivs) !! Z.to_nat a) = true) (acts s))) as [He|He].
      * right. apply Exists_exists in He as (a & Ha & Hnl & Hr).
        destruct (s.(ivs) !! Z.to_nat a) as [v|] eqn:Hv; [|done]. exists a, v. apply Z.eqb_eq in Hr. done.
      * left. intros a v Ha Hv Hr. destruct (decide (lasts s.(ivs) iv a)) as [Hl|Hl].
        -- apply (Hf a v); [|done|done]. rewrite HA. by apply list_elem_of_filter.
        -- apply He, Exists_exists. exists a. rewrite Hv. split_and!; [done..|]. by apply Z.eqb_eq.
  - intros j v Hj Hv. destruct (I9 j v Hj Hv) as [?|(Hr & Hd)]; [by left|]. right. split; [done|].
    destruct Hd as [Hd|Hd]; [|right; lia].
    destruct (decide (lasts s.(ivs) iv (Z.of_nat j))) as [Hl|Hl].
    + left. rewrite HA. by apply list_elem_of_filter.
    + right. destruct (decide (v.(stop) < iv.(start))) as [|Hge]; [done|]. exfalso. apply Hl.
      exists v. rewrite Nat2Z.id. split; [done|lia].
  - rewrite HA. pose proof (length_filter (lasts s.(ivs) iv) (acts s)). simpl. lia.
Qed.

(** ** Placing an interval *)

Lemma same_range_refl v : same_range v v.
Proof. done. Qed.

(** The interval [p] gets the register [r], which no active interval holds. *)
Lemma Inv_reg L p s s' vp r :
  Inv L p vp.(start) s → (p < length L)%nat → s.(ivs) !! p = Some vp → 2 <= r < 8 →
  (∀ a v, a ∈ acts s → s.(ivs) !! Z.to_nat a = Some v → v.(reg) ≠ r) →
  shape s' → s'.(ivs) = <[p := set_reg r vp]> s.(ivs) → acts s' ≡ₚ Z.of_nat p :: acts s →
  s'.(ra_nspills) = s.(ra_nspills) →
  (∀ k, (k < 6)%nat → free_reg s'.(pool) k ↔ free_reg s.(pool) k ∧ Z.of_nat k + 2 ≠ r) →
  Inv L (S p) vp.(start) s'.
Proof.
  intros [I1 I2 I3 I4 I5 I6 I7 I8 I9 I10 I11 I12] Hp Hvp Hr Hfree Hsh HIv HA Hn HP.
  pose proof (I4 p vp ltac:(lia) Hvp) as [_ Hsp].
  assert (Hlp : (p < length s.(ivs))%nat) by lia.
  assert (Hlk : ∀ j, s'.(ivs) !! j = if decide (j = p) then Some (set_reg r vp) else s.(ivs) !! j).
  { intros j. rewrite HIv. case_decide; [subst j; by apply list_lookup_insert_eq|].
    by rewrite list_lookup_insert_ne. }
  assert (Hin : ∀ a, a ∈ acts s' ↔ a = Z.of_nat p ∨ a ∈ acts s) by (intros a; by rewrite HA, elem_of_cons).
  assert (Hpn : Z.of_nat p ∉ acts s) by (intros [? _]%I5; lia).
  assert (Hne : ∀ a, a ∈ acts s → Z.to_nat a ≠ p) by (intros a [? _]%I5; lia).
  split; rewrite ?Hn.
  - done.
  - rewrite HIv, length_insert. done.
  - intros j v Hv. rewrite Hlk. case_decide as Hj; [|by apply I3]. subst j. eexists. split; [done|].
    destruct (I3 p v Hv) as (v' & Hv' & Hs). simplify_eq. done.
  - intros j v Hj. rewrite Hlk, decide_False by lia. apply I4. lia.
  - intros a [->|Ha]%Hin.
    + split; [lia|]. exists (set_reg r vp). by rewrite Hlk, Nat2Z.id, decide_True.
    + rewrite Hlk, decide_False by auto. destruct (I5 a Ha) as (? & ?). split; [lia|done].
  - rewrite HA. by apply NoDup_cons.
  - intros a c va vc [->|Ha]%Hin [->|Hc]%Hin; [done| | |]; rewrite !Hlk, ?Nat2Z.id.
    + rewrite decide_True, decide_False by auto. intros ? Hvc Hr'. simplify_eq/=. exfalso. by apply (Hfree c vc).
    + rewrite decide_False, decide_True by auto. intros Hva ? Hr'. simplify_eq/=. exfalso. by apply (Hfree a va).
    + rewrite !decide_False by auto. by apply I7.
  - intros k Hk. rewrite HP, I8 by done. split.
    + intros [Hf Hkr] a v [->|Ha]%Hin; rewrite Hlk, ?Nat2Z.id.
      * rewrite decide_True by done. intros. simplify_eq/=. done.
      * rewrite decide_False by auto. by apply Hf.
    + intros Hf. split.
      * intros a v Ha Hv. apply (Hf a); [apply Hin; by right|]. by rewrite Hlk, decide_False by auto.
      * intros Hkr. apply (Hf (Z.of_nat p) (set_reg r vp)); [apply Hin; by left| |done].
        by rewrite Hlk, Nat2Z.id, decide_True.
  - intros j v Hj. rewrite Hlk. case_decide as Hjp.
    + intros. simplify_eq. right. split; [done|]. left. apply Hin. by left.
    + intros Hv. destruct (I9 j v ltac:(lia) Hv) as [?|(? & [?|?])]; [by left|right; split; [done|]..].
      * left. apply Hin. by right.
      * by right.
  - intros j k vj vk Hjk. rewrite !Hlk. rewrite (decide_False (P := j = p)) by lia. case_decide as Hkp.
    + intros Hvj ? H2 Hrr. simplify_eq/=. destruct (I9 j vj ltac:(lia) Hvj) as [[? _]|(_ & [Hact|?])]; [lia| |done].
      exfalso. eapply (Hfree (Z.of_nat j) vj); [done|by rewrite Nat2Z.id|done].
    + apply I10. lia.
  - intros j k vj vk Hj Hk Hjk. rewrite !Hlk. repeat case_decide; subst; try done.
    + intros. simplify_eq/=. lia.
    + intros Hvj Hvk H0. simplify_eq/=. lia.
    + apply I11; lia.
  - rewrite (Permutation_length HA). simpl. lia.
Qed.

(** The active interval [sp] gives up its register. *)
Lemma Inv_evict L p b s s' sp vsp :
  Inv L p b s → sp ∈ acts s → s.(ivs) !! Z.to_nat sp = Some vsp →
  shape s' → s'.(ivs) = <[Z.to_nat sp := set_spill (4 * s.(ra_nspills)) (set_reg (-1) vsp)]> s.(ivs) →
  acts s ≡ₚ sp :: acts s' → s'.(ra_nspills) = s.(ra_nspills) + 1 →
  (∀ k, (k < 6)%nat → free_reg s'.(pool) k ↔ free_reg s.(pool) k ∨ Z.of_nat k + 2 = vsp.(reg)) →
  Inv L p b s'.
Proof.
  intros [I1 I2 I3 I4 I5 I6 I7 I8 I9 I10 I11 I12] Hsp Hvs Hsh HIv HA Hn HP.
  destruct (I5 sp Hsp) as (Hb & vsp' & Hvs' & Hreg). simplify_eq.
  assert (Hlk : ∀ j, s'.(ivs) !! j = if decide (j = Z.to_nat sp)
    then Some (set_spill (4 * s.(ra_nspills)) (set_reg (-1) vsp)) else s.(ivs) !! j).
  { intros j. rewrite HIv. case_decide; [subst j; apply list_lookup_insert_eq; by eapply lookup_lt_Some|].
    by rewrite list_lookup_insert_ne. }
  rewrite HA in I6. apply NoDup_cons in I6 as [Hns I6].
  assert (Hin : ∀ a, a ∈ acts s' → a ∈ acts s ∧ Z.to_nat a ≠ Z.to_nat sp).
  { intros a Ha. assert (a ∈ acts s) as Ha' by (rewrite HA; set_solver). split; [done|].
    destruct (I5 a Ha') as [? _]. intros E. assert (a = sp) by lia. congruence. }
  assert (Hout : ∀ a, a ∈ acts s → a = sp ∨ a ∈ acts s') by (intros a; rewrite HA, elem_of_cons; done).
  assert (Hs1 : ∀ j v, (j < p)%nat → s.(ivs) !! j = Some v → v.(spill) < 4 * s.(ra_nspills)).
  { intros j v Hj Hv. destruct (I9 j v Hj Hv) as [(_ & k & ? & ?)|([_ ?] & _)]; lia. }
  split; rewrite ?Hn.
  - done.
  - by rewrite HIv, length_insert.
  - intros j v Hv. rewrite Hlk. case_decide as Hj; [|by apply I3]. subst j. eexists. split; [done|].
    destruct (I3 _ v Hv) as (v' & Hv' & Hs). simplify_eq. done.
  - intros j v Hj. rewrite Hlk, decide_False by lia. by apply I4.
  - intros a Ha. destruct (Hin a Ha) as [Ha' Hne]. rewrite Hlk, decide_False by done. by apply I5.
  - done.
  - intros a c va vc Ha Hc. destruct (Hin a Ha), (Hin c Hc). rewrite !Hlk, !decide_False by done. by apply I7.
  - intros k Hk. rewrite HP, I8 by done. split.
    + intros Hf a v Ha. destruct (Hin a Ha) as [Ha' Hne]. rewrite Hlk, decide_False by done.
      intros Hv. destruct Hf as [Hf|Hf]; [by apply (Hf a)|]. rewrite Hf. intros E.
      apply Hne. f_equal. by eapply (I7 a sp v vsp).
    + intros Hf. destruct (decide (Z.of_nat k + 2 = vsp.(reg))) as [|Hkr]; [by right|]. left.
      intros a v Ha Hv. destruct (Hout a Ha) as [->|Ha']; [simplify_eq; congruence|].
      destruct (Hin a Ha'). apply (Hf a); [done|]. by rewrite Hlk, decide_False.
  - intros j v Hj. rewrite Hlk. case_decide as Hjp.
    + intros. simplify_eq. left. split; [done|]. exists s.(ra_nspills). simpl. split; [done|lia].
    + intros Hv. destruct (I9 j v Hj Hv) as [(? & k & ? & ?)|(? & [Hact|?])].
      * left. split; [done|]. exists k. split; [done|lia].
      * right. split; [done|]. left. destruct (Hout _ Hact); [lia|done].
      * right. split; [done|]. by right.
  - intros j k vj vk Hjk. rewrite !Hlk. repeat case_decide; intros; simplify_eq/=; try lia. by eapply (I10 j k).
  - intros j k vj vk Hj Hk Hjk. rewrite !Hlk. repeat case_decide; subst; try done; intros Hvj Hvk Hge; simplify_eq/=.
    + specialize (Hs1 k vk Hk Hvk). lia.
    + specialize (Hs1 j vj Hj Hvj). lia.
    + by eapply (I11 j k).
  - pose proof (Permutation_length HA) as Hlen. simpl in Hlen. lia.
Qed.

(** The interval [p] itself is spilled. *)
Lemma Inv_spill L p b s s' vp :
  Inv L p b s → (p < length L)%nat → s.(ivs) !! p = Some vp →
  s'.(ivs) = <[p := set_spill (4 * s.(ra_nspills)) vp]> s.(ivs) → s'.(active) = s.(active) →
  s'.(nactive) = s.(nactive) → s'.(pool) = s.(pool) → s'.(ra_nspills) = s.(ra_nspills) + 1 →
  Inv L (S p) b s'.
Proof.
  intros [I1 I2 I3 I4 I5 I6 I7 I8 I9 I10 I11 I12] Hp Hvp HIv Hac Hna Hpo Hn.
  pose proof (I4 p vp ltac:(lia) Hvp) as [Hrg Hsp].
  assert (HA : acts s' = acts s) by (unfold acts; by rewrite Hac, Hna).
  assert (Hlk : ∀ j, s'.(ivs) !! j = if decide (j = p) then Some (set_spill (4 * s.(ra_nspills)) vp)
    else s.(ivs) !! j).
  { intros j. rewrite HIv. case_decide; [subst j; apply list_lookup_insert_eq; by eapply lookup_lt_Some|].
    by rewrite list_lookup_insert_ne. }
  assert (Hne : ∀ a, a ∈ acts s → Z.to_nat a ≠ p) by (intros a [? _]%I5; lia).
  assert (Hs1 : ∀ j v, (j < p)%nat → s.(ivs) !! j = Some v → v.(spill) < 4 * s.(ra_nspills)).
  { intros j v Hj Hv. destruct (I9 j v Hj Hv) as [(_ & k & ? & ?)|([_ ?] & _)]; lia. }
  split; rewrite ?HA, ?Hn, ?Hpo.
  - destruct I1. split; congruence.
  - by rewrite HIv, length_insert.
  - intros j v Hv. rewrite Hlk. case_decide as Hj; [|by apply I3]. subst j. eexists. split; [done|].
    destruct (I3 p v Hv) as (v' & Hv' & Hs). simplify_eq. done.
  - intros j v Hj. rewrite Hlk, decide_False by lia. apply I4. lia.
  - intros a Ha. rewrite Hlk, decide_False by auto. destruct (I5 a Ha) as (? & ?). split; [lia|done].
  - done.
  - intros a c va vc Ha Hc. rewrite !Hlk, !decide_False by auto. by apply I7.
  - intros k Hk. rewrite I8 by done. split; intros Hf a v Ha; specialize (Hf a v Ha);
      rewrite Hlk, decide_False in * by auto; done.
  - intros j v Hj. rewrite Hlk. case_decide as Hjp.
    + intros. simplify_eq. left. split; [done|]. exists s.(ra_nspills). simpl. split; [done|lia].
    + intros Hv. destruct (I9 j v ltac:(lia) Hv) as [(? & k & ? & ?)|?]; [|by right].
      left. split; [done|]. exists k. split; [done|lia].
  - intros j k vj vk Hjk. rewrite !Hlk. repeat case_decide; intros; simplify_eq/=; try lia.
    eapply (I10 j k); try done; lia.
  - intros j k vj vk Hj Hk Hjk. rewrite !Hlk. repeat case_decide; subst; try done; intros Hvj Hvk Hge; simplify_eq/=.
    + specialize (Hs1 k vk ltac:(lia) Hvk). lia.
    + specialize (Hs1 j vj ltac:(lia) Hvj). lia.
    + eapply (I11 j k); try done; lia.
  - lia.
Qed.

(** ** One turn of the main loop *)

Lemma wp_get_iv i v s (Q : interval → ra_state → Prop) :
  0 <= i → s.(ivs) !! Z.to_nat i = Some v → Q v s → wp (get_iv i) Q s.
Proof. by apply wp_rd. Qed.

Lemma wp_mod_iv i v g s (Q : unit → ra_state → Prop) :
  0 <= i → s.(ivs) !! Z.to_nat i = Some v → Q tt (set_ivs (<[Z.to_nat i := g v]> s.(ivs)) s) →
  wp (mod_iv i g) Q s.
Proof.
  intros Hi Hv HQ. apply wp_bind. eapply wp_get_iv; [done|done|]. apply wp_wr; [|done].
  apply lookup_lt_Some in Hv. lia.
Qed.

Lemma wp_new_spill x v s (Q : unit → ra_state → Prop) :
  0 <= x → s.(ivs) !! Z.to_nat x = Some v → 0 <= s.(ra_nspills) < 2 ^ 29 →
  Q tt (set_ra_nspills (s.(ra_nspills) + 1)
    (set_ivs (<[Z.to_nat x := set_spill (4 * s.(ra_nspills)) v]> s.(ivs)) s)) → wp (new_spill x) Q s.
Proof.
  intros Hx Hv Hn HQ. apply wp_bind, wp_get, wp_bind, wp_int; [lia|].
  apply wp_bind. eapply wp_mod_iv; [done|done|]. apply wp_mod. by rewrite (Z.mul_comm _ 4).
Qed.

(** The last entry of [active]. *)
Lemma acts_last s :
  shape s → acts s ≠ [] → 1 <= s.(nactive) ∧ ∃ sp, s.(active) !! Z.to_nat (s.(nactive) - 1) = Some sp ∧
    acts s = take (Z.to_nat (s.(nactive) - 1)) s.(active) ++ [sp].
Proof.
  intros [S1 S2 S3] Hne. assert (Hn : s.(nactive) ≠ 0).
  { intros E. apply Hne. unfold acts. by rewrite E. }
  split; [lia|]. destruct (lookup_lt_is_Some_2 s.(active) (Z.to_nat (s.(nactive) - 1))) as [sp Hsp]; [lia|].
  exists sp. split; [done|]. unfold acts.
  replace (Z.to_nat s.(nactive)) with (S (Z.to_nat (s.(nactive) - 1))) by lia. by apply take_S_r.
Qed.

Section turn.
Context (L : list interval) (p : nat) (vp : interval) (s : ra_state).
Context (HI : Inv L p vp.(start) s) (Hp : (p < length L)%nat) (Hvp : s.(ivs) !! p = Some vp).
Context (Hpn : Z.of_nat p < 2 ^ 29).

Lemma spills_bound : 0 <= s.(ra_nspills) < 2 ^ 29.
Proof. pose proof (iv_cnt _ _ _ _ HI). lia. Qed.

(** A register is free: there is room in [active]. *)
Lemma room k : (k < 6)%nat → free_reg s.(pool) k → s.(nactive) < 6.
Proof.
  intros Hk Hf. pose proof (iv_shape _ _ _ _ HI) as [S1 S2 S3].
  destruct (decide (s.(nactive) < 6)) as [|Hge]; [done|]. exfalso.
  set (rg := λ a : Z, match s.(ivs) !! Z.to_nat a with Some v => v.(reg) | None => 0 end).
  assert (Hrg : ∀ a, a ∈ acts s → 2 <= rg a < 8 ∧ rg a ≠ Z.of_nat k + 2).
  { intros a Ha. destruct (iv_act _ _ _ _ HI a Ha) as (_ & v & Hv & Hr). unfold rg. rewrite Hv.
    split; [done|]. by apply (proj1 (iv_pool _ _ _ _ HI k Hk) Hf a). }
  assert (Hnd : NoDup (rg <$> acts s)).
  { apply NoDup_fmap_2_strong; [|apply HI]. intros a c Ha Hc.
    destruct (iv_act _ _ _ _ HI a Ha) as (_ & va & Hva & _), (iv_act _ _ _ _ HI c Hc) as (_ & vc & Hvc & _).
    unfold rg. rewrite Hva, Hvc. by apply (iv_regs _ _ _ _ HI a c va vc). }
  assert (Hsub : (Z.of_nat k + 2) :: (rg <$> acts s) ⊆+ seqZ 2 6).
  { apply NoDup_submseteq.
    - apply NoDup_cons. split; [|done]. intros (a & Ha & Hin)%list_elem_of_fmap.
      destruct (Hrg a Hin). congruence.
    - intros x [->|(a & -> & Ha)%list_elem_of_fmap]%elem_of_cons; apply elem_of_seqZ; [lia|].
      destruct (Hrg a Ha). lia. }
  apply submseteq_length in Hsub. simpl in Hsub. rewrite length_fmap in Hsub.
  unfold acts in Hsub. rewrite length_take in Hsub. lia.
Qed.

Lemma wp_place k iv :
  iv = vp → (k < 6)%nat → free_reg s.(pool) k →
  wp (mod_iv (Z.of_nat p) (set_reg (Z.of_nat k + 2));; insert_active (Z.of_nat p) iv)
    (λ _, Inv L (S p) vp.(start)) (set_pool (<[k := 0]> s.(pool)) s).
Proof.
  intros -> Hk Hf. pose proof (room k Hk Hf) as Hroom. pose proof (iv_shape _ _ _ _ HI) as [S1 S2 S3].
  assert (Hfr := proj1 (iv_pool _ _ _ _ HI k Hk) Hf).
  apply wp_bind. eapply wp_mod_iv; [lia|rewrite Nat2Z.id; exact Hvp|]. rewrite Nat2Z.id. simpl.
  apply wp_insert_active; simpl.
  - split; simpl; [done|done|by rewrite length_insert].
  - done.
  - intros a Ha. destruct (iv_act _ _ _ _ HI a Ha) as (Hb & v & Hv & Hr). split; [lia|].
    exists v. split; [|done]. rewrite list_lookup_insert_ne by lia. done.
  - intros act Hsh HA.
    eapply (Inv_reg L p s _ vp (Z.of_nat k + 2)); [done|done|done|lia|done|done|done|done|done|].
    intros j Hj. simpl. unfold free_reg. destruct (decide (j = k)) as [->|Hne].
    + rewrite list_lookup_insert_eq by lia. naive_solver.
    + rewrite list_lookup_insert_ne by done. naive_solver lia.
Qed.

Lemma wp_swap sp vsp iv :
  iv = vp → s.(active) !! Z.to_nat (s.(nactive) - 1) = Some sp → 1 <= s.(nactive) →
  acts s = take (Z.to_nat (s.(nactive) - 1)) s.(active) ++ [sp] → s.(ivs) !! Z.to_nat sp = Some vsp →
  wp (mod_iv (Z.of_nat p) (set_reg vsp.(reg));; mod_iv sp (set_reg (-1));; new_spill sp;;
      mmod (λ s, set_nactive (s.(nactive) - 1) s);; insert_active (Z.of_nat p) iv)
    (λ _, Inv L (S p) vp.(start)) s.
Proof.
  intros -> Hsp Hn1 HA Hvsp. pose proof (iv_shape _ _ _ _ HI) as [S1 S2 S3]. pose proof spills_bound as Hsb.
  assert (Hin : sp ∈ acts s) by (rewrite HA; set_solver).
  destruct (iv_act _ _ _ _ HI sp Hin) as (Hb & v & Hv & Hr). simplify_eq.
  assert (Hne : Z.to_nat sp ≠ p) by lia. set (r := vsp.(reg)) in *. set (k := Z.to_nat (r - 2)).
  assert ((k < 6)%nat ∧ Z.of_nat k + 2 = r) as [Hk Hkr] by lia.
  set (n4 := 4 * s.(ra_nspills)).
  set (sv := mk_ra s.(first_def) s.(last_use) (<[Z.to_nat sp := set_spill n4 (set_reg (-1) vsp)]> s.(ivs))
    (<[k := 1]> s.(pool)) s.(active) (s.(nactive) - 1) (s.(ra_nspills) + 1)).
  assert (HIv : Inv L p vp.(start) sv).
  { eapply (Inv_evict L p _ s); [done|done|done|split; simpl; [done|lia|by rewrite length_insert]|done| |done|].
    - rewrite HA. unfold acts. simpl. by rewrite Permutation_app_comm.
    - intros j Hj. simpl. rewrite free_reg_insert by lia. fold r. naive_solver lia. }
  assert (Hnf : ¬ free_reg s.(pool) k).
  { rewrite (iv_pool _ _ _ _ HI) by done. intros Hf. by apply (Hf sp vsp). }
  apply wp_bind. eapply wp_mod_iv; [lia|rewrite Nat2Z.id; exact Hvp|]. rewrite Nat2Z.id.
  apply wp_bind. eapply wp_mod_iv; [lia|simpl; rewrite list_lookup_insert_ne by done; exact Hvsp|].
  apply wp_bind. eapply wp_new_spill; [lia|simpl; apply list_lookup_insert_eq|done|].
  { rewrite length_insert. by eapply lookup_lt_Some. }
  apply wp_bind, wp_mod. simpl. rewrite list_insert_insert_eq.
  fold n4. apply wp_insert_active; simpl.
  - split; simpl; [done|lia|done].
  - lia.
  - intros a Ha. change (a ∈ acts sv) in Ha. destruct (iv_act _ _ _ _ HIv a Ha) as (Hba & va & Hva & Hra).
    split; [lia|]. exists va. split; [|done]. rewrite list_insert_insert_ne by done.
    rewrite list_lookup_insert_ne by lia. exact Hva.
  - intros act Hsh HAct. eapply (Inv_reg L p sv _ vp r); [done|done| |done| |done| |done|done|].
    + simpl. by rewrite list_lookup_insert_ne.
    + intros a va Ha Hva E. destruct (proj1 (iv_pool _ _ _ _ HIv k Hk)) with a va; [|done|done|lia].
      simpl. rewrite free_reg_insert by lia. by right.
    + simpl. by rewrite list_insert_insert_ne.
    + intros j Hj. simpl. rewrite free_reg_insert by lia. split.
      * intros Hf. split; [by left|]. intros E. apply Hnf. by replace k with j by lia.
      * intros [[?| ->] ?]; [done|lia].
Qed.
End turn.

Lemma wp_alloc_one L p b v0 s :
  Inv L p b s → L !! p = Some v0 → b <= v0.(start) → Z.of_nat p < 2 ^ 29 →
  wp (alloc_one (Z.of_nat p)) (λ _, Inv L (S p) v0.(start)) s.
Proof.
  intros HI Hv0 Hb Hp. pose proof (lookup_lt_Some _ _ _ Hv0) as HpL.
  destruct (iv_same _ _ _ _ HI p v0 Hv0) as (vp & Hvp & _ & Hst & _). rewrite <-Hst in Hb |- *.
  unfold alloc_one. apply wp_bind. eapply wp_get_iv; [lia|rewrite Nat2Z.id; exact Hvp|].
  apply wp_bind, wp_expire; [apply HI|intros a; by eapply Inv_placed|].
  intros act pl n s1 Hsh HA HP. pose proof (Inv_expire _ _ _ _ _ _ _ _ HI Hb Hsh HA HP) as HI1.
  assert (Hvp1 : s1.(ivs) !! p = Some vp) by done. fold s1 in HI1. clearbody s1. clear HI Hsh HA HP Hvp.
  apply wp_bind, wp_take_reg; [apply HI1| |].
  - intros Hnone. simpl. apply wp_bind, wp_get.
    assert (Hne : acts s1 ≠ []).
    { intros E. apply (Hnone 0%nat), (iv_pool _ _ _ _ HI1); [lia|]. rewrite E. set_solver. }
    destruct (acts_last s1 (iv_shape _ _ _ _ HI1) Hne) as (Hn1 & sp & Hsp & HA).
    assert (Hin : sp ∈ acts s1) by (rewrite HA; set_solver).
    destruct (iv_act _ _ _ _ HI1 sp Hin) as (Hb2 & vsp & Hvsp & _).
    apply wp_bind. eapply wp_rd; [lia|done|]. apply wp_bind. eapply wp_get_iv; [lia|done|].
    apply wp_if; intros Hlt; [by eapply wp_swap|].
    eapply wp_new_spill; [lia|rewrite Nat2Z.id; exact Hvp1|by eapply spills_bound|].
    rewrite Nat2Z.id. by eapply Inv_spill.
  - intros k Hk Hf. apply wp_if; intros Hge; [|lia]. by eapply wp_place.
Qed.

(** ** The contract of [qsort] *)

Definition valid_cmp (cmp : interval → interval → Z) : Prop :=
  (∀ a b, cmp a b <= 0 ∨ cmp b a <= 0) ∧ (∀ a b c, cmp a b <= 0 → cmp b c <= 0 → cmp a c <= 0).

(** What the C library promises for a comparison that is a total preorder. *)
Class Qsort (qsort : (interval → interval → Z) → list interval → list interval) : Prop := {
  qsort_perm cmp l : valid_cmp cmp → qsort cmp l ≡ₚ l;
  qsort_sorted cmp l i j a b : valid_cmp cmp → (i < j)%nat →
    qsort cmp l !! i = Some a → qsort cmp l !! j = Some b → cmp a b <= 0
}.

Lemma sort_by_start_valid : valid_cmp sort_by_start.
Proof.
  split; unfold sort_by_start; intros; repeat case_match; rewrite ?negb_true_iff, ?negb_false_iff in *; lia.
Qed.

Lemma sort_by_start_le a b : sort_by_start a b <= 0 → a.(start) <= b.(start).
Proof. unfold sort_by_start. case_match; rewrite ?negb_true_iff, ?negb_false_iff in *; lia. Qed.

(** ** The main loop *)

Lemma Inv_start L s rest :
  shape s → s.(ivs) = L ++ rest → (∀ v, v ∈ L → unplaced v) → acts s = [] →
  (∀ k, (k < 6)%nat → free_reg s.(pool) k) → s.(ra_nspills) = 0 → Inv L 0 0 s.
Proof.
  intros Hsh Hiv Hu HA HP Hn.
  assert (HL : ∀ j v, L !! j = Some v → s.(ivs) !! j = Some v) by (intros; rewrite Hiv; by apply lookup_app_l_Some).
  split; rewrite ?HA, ?Hn; try done; try lia.
  all: try (intros; set_solver).
  - rewrite Hiv, length_app. lia.
  - intros j v Hv. exists v. split; [by apply HL|done].
  - intros j v Hj Hv. rewrite Hiv, lookup_app_l in Hv by lia. apply Hu. by eapply list_elem_of_lookup_2.
  - constructor.
Qed.

Lemma wp_alloc_all L s (Q : unit → ra_state → Prop) :
  Inv L 0 0 s → (∀ v, v ∈ L → 0 <= v.(start)) → Z.of_nat (length L) < 2 ^ 29 →
  (∀ i j a b, (i < j)%nat → L !! i = Some a → L !! j = Some b → a.(start) <= b.(start)) →
  (∀ b s', Inv L (length L) b s' → Q tt s') →
  wp (mfor (upto (Z.of_nat (length L))) alloc_one) Q s.
Proof.
  intros HI H0 Hlen Hs HQ.
  apply (wp_mfor_upto _ _ (λ i s', ∃ b, Inv L (Z.to_nat i) b s' ∧
    ∀ v, L !! Z.to_nat i = Some v → b <= v.(start))).
  - lia.
  - exists 0. split; [done|]. intros v Hv. apply H0. by eapply list_elem_of_lookup_2.
  - intros i s' Hi (b & HI' & Hb). destruct (lookup_lt_is_Some_2 L (Z.to_nat i)) as [v Hv]; [lia|].
    replace i with (Z.of_nat (Z.to_nat i)) at 1 by lia.
    eapply wp_mono; [eapply wp_alloc_one; [done|done|by apply Hb|lia]|].
    intros [] s2 HI2. exists v.(start). replace (Z.to_nat (i + 1)) with (S (Z.to_nat i)) by lia.
    split; [done|]. intros u Hu. eapply (Hs (Z.to_nat i)); [|done|done]. lia.
  - intros s' (b & HI' & _). rewrite Nat2Z.id in HI'. by eapply HQ.
Qed.
