(* ===== verification/RegallocTheorems.v ===== *)
(** * Theorems about the register allocator

    Temporaries whose live ranges overlap get different places, and code that
    uses the places computes what code on temporaries computes. *)

From stdpp Require Import gmap sets sorting.
From S2P Require Import Prelude Regalloc RegallocInv RegallocAlloc.

(** ** Places *)

(** Where the emitter finds a temporary: a register, or a byte offset of the
    spill area. *)
Inductive place : Type := PReg (r : Z) | PSlot (o : Z) | PNone.

#[global] Instance place_eq_dec : EqDecision place.
Proof. solve_decision. Defined.

Definition place_of (fn : ir_func) (t : Z) : place :=
  match aget fn.(temp_reg) t with
  | Some r => if 0 <=? r then PReg r
              else match aget fn.(temp_spill) t with
                   | Some o => if 0 <=? o then PSlot o else PNone
                   | None => PNone
                   end
  | None => PNone
  end.

Definition place_ok (nspills : Z) (p : place) : Prop :=
  match p with
  | PReg r => 2 <= r <= 7
  | PSlot o => ∃ k, o = 4 * k ∧ 0 <= k < nspills
  | PNone => False
  end.

(** ** The result arrays *)

Lemma write_back_ok F n regs spills :
  NoDup (temp <$> F) → (∀ v, v ∈ F → 0 <= v.(temp) < n) →
  length regs = Z.to_nat n → length spills = Z.to_nat n →
  ∃ regs' spills', write_back F regs spills = Some (regs', spills') ∧
    length regs' = Z.to_nat n ∧ length spills' = Z.to_nat n ∧
    (∀ v, v ∈ F → aget regs' v.(temp) = Some v.(reg) ∧ aget spills' v.(temp) = Some v.(spill)) ∧
    (∀ t, t ∉ temp <$> F → aget regs' t = aget regs t ∧ aget spills' t = aget spills t).
Proof.
  revert regs spills. induction F as [|v F IH]; intros regs spills Hnd Ht Hl1 Hl2; simpl.
  - exists regs, spills. split_and!; set_solver.
  - csimpl in Hnd. apply NoDup_cons in Hnd as [Hv Hnd]. assert (Hvt : 0 <= v.(temp) < n) by (apply Ht; set_solver).
    rewrite !aset_in by lia. simpl.
    destruct (IH (<[Z.to_nat v.(temp) := v.(reg)]> regs) (<[Z.to_nat v.(temp) := v.(spill)]> spills))
      as (r' & s' & -> & H1 & H2 & H3 & H4); [done|set_solver|by rewrite length_insert..|].
    exists r', s'. split_and!; [done..| |].
    + intros u [->|Hu]%elem_of_cons; [|by apply H3]. destruct (H4 v.(temp) Hv) as [-> ->].
      rewrite !aget_lookup by lia. by rewrite !list_lookup_insert_eq by lia.
    + intros t Hn. csimpl in Hn. apply not_elem_of_cons in Hn as [Hne Hn]. destruct (H4 t Hn) as [-> ->].
      unfold aget. case_match; [|done]. by rewrite !list_lookup_insert_ne by lia.
Qed.

(** ** The allocation *)

(** The intervals [F] at the end: the live ranges of all temporaries, placed. *)
Record Placed (l : list ir_insn) (n nsp : Z) (F : list interval) : Prop := {
  pl_range v : v ∈ F → ∃ v0, is_range l n v0 ∧ same_range v0 v;
  pl_nodup : NoDup (temp <$> F);
  pl_all t q : 0 <= t < n → def_at l t q → t ∈ temp <$> F;
  pl_ok v : v ∈ F → spilled nsp v ∨ in_reg v;
  pl_sep v u : v ∈ F → u ∈ F → v.(temp) ≠ u.(temp) → v.(start) <= u.(stop) → u.(start) <= v.(stop) →
    2 <= v.(reg) → v.(reg) ≠ u.(reg);
  pl_slots v u : v ∈ F → u ∈ F → v.(temp) ≠ u.(temp) → 0 <= v.(spill) → v.(spill) ≠ u.(spill)
}.

Lemma Placed_Inv l n L b s :
  Inv L (length L) b s → (∀ v, v ∈ L → is_range l n v) → NoDup (temp <$> L) →
  (∀ t q, 0 <= t < n → def_at l t q → t ∈ temp <$> L) →
  Placed l n s.(ra_nspills) (take (length L) s.(ivs)).
Proof.
  intros HI Hr Hnd Hall. pose proof (iv_len _ _ _ _ HI) as Hlen. set (F := take (length L) s.(ivs)).
  assert (HF : ∀ j v, F !! j = Some v ↔ (j < length L)%nat ∧ s.(ivs) !! j = Some v)
    by (intros; unfold F; rewrite lookup_take_Some; naive_solver).
  assert (HLF : ∀ j v, F !! j = Some v → ∃ v0, L !! j = Some v0 ∧ same_range v0 v).
  { intros j v [Hj Hv]%HF. destruct (lookup_lt_is_Some_2 L j Hj) as [v0 Hv0]. exists v0. split; [done|].
    destruct (iv_same _ _ _ _ HI j v0 Hv0) as (v' & ? & ?). by simplify_eq. }
  assert (HT : temp <$> F = temp <$> L).
  { apply list_eq. intros j. rewrite !list_lookup_fmap. destruct (F !! j) as [v|] eqn:Hv.
    - destruct (HLF j v Hv) as (v0 & -> & E & _). simpl. by rewrite E.
    - apply lookup_ge_None in Hv. unfold F in Hv. rewrite length_take in Hv.
      by rewrite lookup_ge_None_2 by lia. }
  split; rewrite ?HT; try done.
  - intros v [j Hj]%list_elem_of_lookup. destruct (HLF j v Hj) as (v0 & Hv0 & ?). exists v0.
    split; [|done]. apply Hr. by eapply list_elem_of_lookup_2.
  - intros v [j Hj]%list_elem_of_lookup. apply HF in Hj as [Hj Hv].
    destruct (iv_done _ _ _ _ HI j v Hj Hv) as [?|[? _]]; [by left|by right].
  - intros v u [j Hj]%list_elem_of_lookup [k Hk]%list_elem_of_lookup. apply HF in Hj as [Hj Hv], Hk as [Hk Hu].
    intros Hne H1 H2 H3 H4. destruct (Nat.lt_trichotomy j k) as [?|[->|?]].
    + pose proof (iv_sep _ _ _ _ HI j k v u ltac:(lia) Hv Hu H3 H4). lia.
    + simplify_eq.
    + pose proof (iv_sep _ _ _ _ HI k j u v ltac:(lia) Hu Hv ltac:(lia) ltac:(done)). lia.
  - intros v u [j Hj]%list_elem_of_lookup [k Hk]%list_elem_of_lookup. apply HF in Hj as [Hj Hv], Hk as [Hk Hu].
    intros Hne. apply (iv_spill _ _ _ _ HI j k); [done|done| |done|done]. intros ->. simplify_eq.
Qed.

Section regalloc.
Context (qsort : (interval → interval → Z) → list interval → list interval) `{!Qsort qsort}.

Lemma wp_allocate l n s :
  0 <= n < 2 ^ 29 → Z.of_nat (length l) < 2 ^ 31 →
  s.(first_def) = replicate (Z.to_nat n) (-1) → s.(last_use) = replicate (Z.to_nat n) (-1) →
  length s.(ivs) = Z.to_nat n → s.(pool) = replicate 6 1 → length s.(active) = 7%nat →
  s.(nactive) = 0 → s.(ra_nspills) = 0 →
  wp (allocate qsort n l) (λ niv s', 0 <= niv <= Z.of_nat (length s'.(ivs)) ∧
    0 <= s'.(ra_nspills) ∧ Placed l n s'.(ra_nspills) (take (Z.to_nat niv) s'.(ivs))) s.
Proof.
  intros Hn Hl Hf Hu Hiv Hpo Hac Hna Hns. unfold allocate. apply wp_bind.
  eapply (wp_scan l n 0 s s); [|lia|done|].
  { assert (He : ∀ P : Z → Z → Prop, (∀ t, P t (-1)) → each (replicate (Z.to_nat n) (-1)) n P).
    { intros P HP. split; [apply length_replicate|]. intros t Ht. exists (-1). split; [|done].
      apply lookup_replicate. lia. }
    split; [rewrite Hf|rewrite Hu|by destruct s]; apply He; intros t; left; (split; [done|lia]). }
  intros s1 [Sf Sl Sr]. apply wp_bind. eapply wp_build; [lia|exact Sf|exact Sl|by rewrite Sr|].
  intros niv s2 [B1 B2 B3 B4 B5 B6]. apply wp_bind, wp_get, wp_bind.
  rewrite aslice_in by lia. apply wp_some, wp_bind, wp_mod. rewrite drop_0.
  set (L0 := take (Z.to_nat niv) s2.(ivs)) in *. set (L := qsort sort_by_start L0).
  assert (HP : L ≡ₚ L0) by apply qsort_perm, sort_by_start_valid.
  assert (HLen : length L = Z.to_nat niv).
  { rewrite (Permutation_length HP). unfold L0. rewrite length_take. lia. }
  assert (HLin : ∀ v, v ∈ L → is_range l n v ∧ unplaced v) by (intros v Hv; rewrite HP in Hv; destruct (B3 v Hv) as (? & ? & _); done).
  assert (E2 : s2 = set_ivs s2.(ivs) (set_first_def s1.(first_def) (set_last_use s1.(last_use) s))) by congruence.
  assert (Epool : s2.(pool) = replicate 6 1) by by rewrite E2.
  assert (Eact : s2.(nactive) = 0 ∧ length s2.(active) = 7%nat ∧ s2.(ra_nspills) = 0) by by rewrite E2.
  destruct Eact as (En & Ea & Es). clear E2 B6 Sr. apply wp_bind.
  replace niv with (Z.of_nat (length L)) at 1 by lia.
  eapply (wp_alloc_all L).
  - eapply (Inv_start L _ (drop (Z.to_nat niv) s2.(ivs))); simpl.
    + split; simpl; [done|lia|by rewrite Epool].
    + done.
    + intros v Hv. by apply HLin.
    + unfold acts. simpl. by rewrite En.
    + intros k Hk. exists 1. rewrite Epool. split; [|done]. apply lookup_replicate. lia.
    + done.
  - intros v Hv. destruct (HLin v Hv) as [[_ [? _] _ _ _] _]. done.
  - lia.
  - intros i j a b Hij Ha Hb. apply sort_by_start_le. eapply (qsort_sorted _ L0); [apply sort_by_start_valid|exact Hij|exact Ha|exact Hb].
  - intros b s3 HI. apply wp_ret. pose proof (iv_len _ _ _ _ HI). pose proof (iv_cnt _ _ _ _ HI).
    split; [lia|]. split; [lia|]. rewrite <-HLen. eapply Placed_Inv; [exact HI| | |].
    + intros v Hv. by apply HLin.
    + by rewrite HP.
    + intros t q Ht Hd. rewrite HP. by apply (B5 t q).
Qed.

(** What the places of [fn'] satisfy for the instructions [l]. *)
Record alloc_spec (l : list ir_insn) (n : Z) (fn' : ir_func) : Prop := {
  as_len : length fn'.(temp_reg) = Z.to_nat n ∧ length fn'.(temp_spill) = Z.to_nat n;
  as_place t q : 0 <= t < n → def_at l t q → place_ok fn'.(nspills) (place_of fn' t);
  as_none t : 0 <= t < n → (∀ q, ¬ def_at l t q) → place_of fn' t = PNone;
  as_sep t u p : 0 <= t < n → 0 <= u < n → t ≠ u → live_at l t p → live_at l u p →
    place_of fn' t ≠ place_of fn' u
}.

Lemma Placed_place l n nsp F fn' v :
  Placed l n nsp F → v ∈ F → aget fn'.(temp_reg) v.(temp) = Some v.(reg) →
  aget fn'.(temp_spill) v.(temp) = Some v.(spill) →
  (place_of fn' v.(temp) = PReg v.(reg) ∧ 2 <= v.(reg) <= 7) ∨
  (place_of fn' v.(temp) = PSlot v.(spill) ∧ 0 <= v.(spill) ∧ ∃ k, v.(spill) = 4 * k ∧ 0 <= k < nsp).
Proof.
  intros HP Hv Hr Hs. unfold place_of. rewrite Hr, Hs.
  destruct (pl_ok _ _ _ _ HP v Hv) as [(-> & k & -> & ?)|[? ?]]; simpl.
  - right. replace (0 <=? 4 * k) with true by lia. split_and!; [done|lia|by exists k].
  - left. replace (0 <=? v.(reg)) with true by lia. split; [done|lia].
Qed.

Lemma live_range l n F v t p nsp :
  Placed l n nsp F → v ∈ F → v.(temp) = t → live_at l t p → v.(start) <= Z.of_nat p <= v.(stop).
Proof.
  intros HP Hv <- (i & j & Hij & Hd & Hu). destruct (pl_range _ _ _ _ HP v Hv) as (v0 & Hr & E1 & E2 & E3).
  rewrite E1 in Hd, Hu. destruct Hr as [_ Hle _ H1 H2]. specialize (H1 i Hd). specialize (H2 j Hu). lia.
Qed.

Lemma alloc_spec_placed l n nsp F fn' :
  Placed l n nsp F → length fn'.(temp_reg) = Z.to_nat n → length fn'.(temp_spill) = Z.to_nat n →
  fn'.(nspills) = nsp →
  (∀ v, v ∈ F → aget fn'.(temp_reg) v.(temp) = Some v.(reg) ∧ aget fn'.(temp_spill) v.(temp) = Some v.(spill)) →
  (∀ t, 0 <= t < n → t ∉ temp <$> F → aget fn'.(temp_reg) t = Some (-1) ∧ aget fn'.(temp_spill) t = Some (-1)) →
  alloc_spec l n fn'.
Proof.
  intros HP H1 H2 <- H3 H4. split.
  - done.
  - intros t q Ht Hd. pose proof (pl_all _ _ _ _ HP t q Ht Hd) as (v & -> & Hv)%list_elem_of_fmap.
    destruct (H3 v Hv) as [Hr Hs]. destruct (Placed_place _ _ _ _ _ _ HP Hv Hr Hs) as [[-> ?]|(-> & _ & ?)]; done.
  - intros t Ht Hno. assert (Hn : t ∉ temp <$> F).
    { intros (v & -> & Hv)%list_elem_of_fmap. destruct (pl_range _ _ _ _ HP v Hv) as (v0 & Hr & E & _).
      apply (Hno (Z.to_nat v0.(start))). rewrite E. apply Hr. }
    destruct (H4 t Ht Hn) as [Hr Hs]. unfold place_of. by rewrite Hr, Hs.
  - intros t u p Ht Hu Hne Lt Lu.
    assert (Ht' : t ∈ temp <$> F) by (destruct Lt as (i & _ & _ & ? & _); by eapply pl_all).
    assert (Hu' : u ∈ temp <$> F) by (destruct Lu as (i & _ & _ & ? & _); by eapply pl_all).
    apply list_elem_of_fmap in Ht' as (v & -> & Hv), Hu' as (x & -> & Hx).
    pose proof (live_range _ _ _ _ _ _ _ HP Hv eq_refl Lt).
    pose proof (live_range _ _ _ _ _ _ _ HP Hx eq_refl Lu).
    destruct (H3 v Hv) as [Hr Hs], (H3 x Hx) as [Hr2 Hs2].
    destruct (Placed_place _ _ _ _ _ _ HP Hv Hr Hs) as [[-> ?]|(-> & ? & _)],
      (Placed_place _ _ _ _ _ _ HP Hx Hr2 Hs2) as [[-> ?]|(-> & ? & _)]; try done; intros E; simplify_eq.
    + apply (pl_sep _ _ _ _ HP v x); [done|done|done|lia|lia|lia|done].
    + by apply (pl_slots _ _ _ _ HP v x).
Qed.

Lemma regalloc_spec fn :
  0 <= fn.(ntemps) < 2 ^ 29 → Z.of_nat (length fn.(insns)) < 2 ^ 31 →
  ∃ fn', regalloc qsort fn = Some fn' ∧
    fn' = set_alloc fn'.(nspills) fn'.(temp_reg) fn'.(temp_spill) fn ∧
    alloc_spec fn.(insns) fn.(ntemps) fn'.
Proof.
  intros Hn Hl. unfold regalloc. set (n := fn.(ntemps)) in *. set (none := replicate (Z.to_nat n) (-1)).
  assert (Hnone : length none = Z.to_nat n) by apply length_replicate.
  destruct (Z.eqb_spec n 0) as [E|Hnz].
  { eexists. split; [done|]. split; [done|]. split; simpl; [done|lia..]. }
  set (s0 := mk_ra none none (replicate (Z.to_nat n) (mk_iv 0 0 0 0 0)) (replicate 6 1) (replicate 7 0) 0 0).
  pose proof (wp_allocate fn.(insns) n s0) as HW. destruct (proj1 (wp_run _ _ _) (HW Hn Hl eq_refl eq_refl
    ltac:(apply length_replicate) eq_refl eq_refl eq_refl eq_refl)) as (niv & s & -> & Hniv & Hns & HP).
  simpl. rewrite aslice_in by lia. simpl. rewrite drop_0.
  destruct (write_back_ok (take (Z.to_nat niv) s.(ivs)) n none none) as (regs & spills & -> & H1 & H2 & H3 & H4);
    [apply HP| |done|done|].
  { intros v Hv. destruct (pl_range _ _ _ _ HP v Hv) as (v0 & Hr & -> & _). apply Hr. }
  simpl. eexists. split; [done|]. split; [done|].
  eapply alloc_spec_placed; [exact HP|done|done|done|done|].
  intros t Ht Hnt. simpl. destruct (H4 t Hnt) as [-> ->]. rewrite aget_lookup by lia.
  assert (none !! Z.to_nat t = Some (-1)); [|done]. apply lookup_replicate. lia.
Qed.
End regalloc.

(** C38: register allocation never fails and never touches memory out of
    bounds; every temporary that is defined gets a register d2 to d7 or an own
    aligned slot below [4 * nspills] of the spill area, one that is never
    defined gets nothing, and two temporaries that are live at the same
    instruction are never in the same place. *)
Theorem regalloc_correct (qsort : (interval → interval → Z) → list interval → list interval) (fn : ir_func) :
  Qsort qsort → 0 <= fn.(ntemps) < 2 ^ 29 → Z.of_nat (length fn.(insns)) < 2 ^ 31 →
  ∃ fn', regalloc qsort fn = Some fn' ∧
    fn' = set_alloc fn'.(nspills) fn'.(temp_reg) fn'.(temp_spill) fn ∧
    (∀ t q, 0 <= t < fn.(ntemps) → def_at fn.(insns) t q → place_ok fn'.(nspills) (place_of fn' t)) ∧
    (∀ t, 0 <= t < fn.(ntemps) → (∀ q, ¬ def_at fn.(insns) t q) → place_of fn' t = PNone) ∧
    (∀ t u p, 0 <= t < fn.(ntemps) → 0 <= u < fn.(ntemps) → t ≠ u →
      live_at fn.(insns) t p → live_at fn.(insns) u p → place_of fn' t ≠ place_of fn' u).
Proof.
  intros HQ Hn Hl. destruct (regalloc_spec qsort fn Hn Hl) as (fn' & E & Hs & [S1 S2 S3 S4]).
  exists fn'. split_and!; done.
Qed.

(** ** Execution on temporaries and on places

    [X] is the state outside of the temporaries (slots, globals, arguments,
    output) and [sem] what an instruction does with it and with the values of
    its operands: the new state, the value of the destination and the next
    instruction, if any. *)

Section exec.
Context {X : Type} (sem : nat → ir_insn → X → option Z → option Z → X * Z * option nat).
Context (l : list ir_insn) (n : Z).

Definition is_temp (t : Z) : bool := (0 <=? t) && (t <? n).

(** An operand is read from the temporaries; reading one without value is an
    error. *)
Definition operand (env : gmap Z Z) (t : Z) : option (option Z) :=
  if is_temp t then Some <$> env !! t else Some None.

(** Temporaries do not survive a jump backwards. *)
Fixpoint run_temps (fuel : nat) (pc : nat) (x : X) (env : gmap Z Z) : option X :=
  match fuel with
  | O => None
  | S fuel =>
      match l !! pc with
      | None => Some x
      | Some i =>
          a ← operand env i.(ra);
          b ← operand env i.(rb);
          let '(x, v, next) := sem pc i x a b in
          let env := if is_temp i.(dst) then <[i.(dst) := v]> env else env in
          match next with
          | None => Some x
          | Some pc' => run_temps fuel pc' x (if decide (pc < pc')%nat then env else ∅)
          end
      end
  end.

(** The same code with every temporary in its place. *)
Fixpoint run_places (fn : ir_func) (fuel : nat) (pc : nat) (x : X) (env : place → Z) : option X :=
  match fuel with
  | O => None
  | S fuel =>
      match l !! pc with
      | None => Some x
      | Some i =>
          let get t := if is_temp t then Some (env (place_of fn t)) else None in
          let '(x, v, next) := sem pc i x (get i.(ra)) (get i.(rb)) in
          let env := if is_temp i.(dst)
                     then λ p, if decide (p = place_of fn i.(dst)) then v else env p
                     else env in
          match next with
          | None => Some x
          | Some pc' => run_places fn fuel pc' x env
          end
      end
  end.

(** The places hold the temporaries that are still used. *)
Definition agree (fn : ir_func) (pc : nat) (env : gmap Z Z) (penv : place → Z) : Prop :=
  ∀ t v, env !! t = Some v → 0 <= t < n ∧ (∃ p, (p < pc)%nat ∧ def_at l t p) ∧
    ∀ q, (pc <= q)%nat → use_pos l t q → penv (place_of fn t) = v.

Lemma agree_operand fn pc env penv i t o :
  agree fn pc env penv → l !! pc = Some i → mentions i t → operand env t = Some o →
  (if is_temp t then Some (penv (place_of fn t)) else None) = o.
Proof.
  intros HA Hi Hm. unfold operand. destruct (is_temp t); [|by intros; simplify_eq].
  destruct (env !! t) as [v|] eqn:Hv; intros; simplify_eq/=. f_equal.
  destruct (HA t v Hv) as (_ & _ & Hq). apply (Hq pc); [done|]. by exists i.
Qed.

Lemma agree_forward fn pc pc' env penv :
  (pc <= pc')%nat → agree fn pc env penv → agree fn pc' env penv.
Proof.
  intros Hpc HA t v Hv. destruct (HA t v Hv) as (Ht & (p & Hp & Hd) & Hq). split_and!; [lia|lia| |].
  - exists p. split; [lia|done].
  - intros q Hle. apply Hq. lia.
Qed.

Lemma agree_write fn pc i env penv v :
  alloc_spec l n fn → agree fn pc env penv → l !! pc = Some i → is_temp i.(dst) = true →
  agree fn (S pc) (<[i.(dst) := v]> env)
    (λ p, if decide (p = place_of fn i.(dst)) then v else penv p).
Proof.
  intros HS HA Hi Hd. unfold is_temp in Hd.
  assert (Hdef : def_at l i.(dst) pc) by by exists i.
  intros t u [[<- <-]|[Hne Hu]]%lookup_insert_Some.
  - split_and!; [lia|lia|exists pc; split; [lia|done]|]. intros. by rewrite decide_True.
  - destruct (HA t u Hu) as (Ht & (p & Hp & Hdp) & Hq). split_and!; [lia|lia|exists p; split; [lia|done]|].
    intros q Hle Huse. rewrite decide_False; [apply (Hq q); [lia|done]|].
    apply (as_sep _ _ _ HS t i.(dst) pc); [done|lia|done| |].
    + exists p, q. split_and!; [lia|lia|done|done].
    + exists pc, pc. split_and!; [lia|lia|done|by apply def_use].
Qed.

Lemma run_agree fn fuel pc x env penv x' :
  alloc_spec l n fn → agree fn pc env penv →
  run_temps fuel pc x env = Some x' → run_places fn fuel pc x penv = Some x'.
Proof.
  intros HS. revert pc x env penv. induction fuel as [|fuel IH]; intros pc x env penv HA; simpl; [done|].
  destruct (l !! pc) as [i|] eqn:Hi; [|done].
  destruct (operand env (ra i)) as [a|] eqn:Ha; [|done].
  destruct (operand env (rb i)) as [b|] eqn:Hb; [|done]. simpl.
  rewrite (agree_operand fn pc env penv i (ra i) a), (agree_operand fn pc env penv i (rb i) b)
    by (done || (right; auto)).
  destruct (sem pc i x a b) as [[x1 v] [pc'|]]; [|done]. apply IH. case_decide as Hpc.
  - destruct (is_temp (dst i)) eqn:Hd.
    + eapply agree_forward; [exact Hpc|]. by apply agree_write.
    + eapply agree_forward; [|done]. lia.
  - intros t u. by rewrite lookup_empty.
Qed.
End exec.

(** C39: allocated code computes what the code on temporaries computes.  For
    every meaning of the instructions and every run in which no temporary is
    read before it has a value, where a jump backwards ends the life of all
    temporaries (locals are in memory between blocks), the run with each
    temporary in its register or spill slot has the same result, whatever the
    registers and the spill area contain at first. *)
Theorem regalloc_preserves (qsort : (interval → interval → Z) → list interval → list interval)
    (fn fn' : ir_func) (X : Type)
    (sem : nat → ir_insn → X → option Z → option Z → X * Z * option nat) (fuel : nat) (x x' : X)
    (penv : place → Z) :
  Qsort qsort → 0 <= fn.(ntemps) < 2 ^ 29 → Z.of_nat (length fn.(insns)) < 2 ^ 31 →
  regalloc qsort fn = Some fn' →
  run_temps sem fn.(insns) fn.(ntemps) fuel 0 x ∅ = Some x' →
  run_places sem fn.(insns) fn.(ntemps) fn' fuel 0 x penv = Some x'.
Proof.
  intros HQ Hn Hl E. destruct (regalloc_spec qsort fn Hn Hl) as (fn2 & E2 & _ & HS).
  assert (fn2 = fn') as -> by congruence. eapply run_agree; [exact HS|].
  intros t v. by rewrite lookup_empty.
Qed.

(** ** Witnesses *)

(** Merge sort satisfies the contract of [qsort]. *)
Definition cmp_le (cmp : interval → interval → Z) (a b : interval) : Prop := cmp a b <= 0.

#[global] Instance cmp_le_dec cmp a b : Decision (cmp_le cmp a b).
Proof. unfold cmp_le. apply _. Defined.

Definition msort (cmp : interval → interval → Z) (l : list interval) : list interval :=
  merge_sort (cmp_le cmp) l.

Lemma sorted_lookup {A} (R : A → A → Prop) l i j a b :
  StronglySorted R l → (i < j)%nat → l !! i = Some a → l !! j = Some b → R a b.
Proof.
  intros HS. revert i j. induction HS as [|x l HS IH HF]; intros i j Hij Ha Hb; [done|].
  destruct j as [|j]; [lia|]. destruct i as [|i]; simpl in *; [|by apply (IH i j); [lia|..]].
  simplify_eq. rewrite Forall_lookup in HF. by eapply HF.
Qed.

#[global] Instance msort_qsort : Qsort msort.
Proof.
  split.
  - intros cmp l _. apply merge_sort_Permutation.
  - intros cmp l i j a b [Ht Htr] Hij Ha Hb.
    assert (HS : StronglySorted (cmp_le cmp) (msort cmp l)).
    { apply StronglySorted_merge_sort; [|intros x y; apply Ht]. intros x y z. apply Htr. }
    exact (sorted_lookup (cmp_le cmp) _ i j a b HS Hij Ha Hb).
Qed.

(** Nine temporaries that are live together, and their sum. *)
Definition lic (t v : Z) : ir_insn := mk_insn IR_LIC t (-1) (-1) v None (-1) (-1) 0.
Definition add (d a b : Z) : ir_insn := mk_insn IR_ADD d a b 0 None (-1) (-1) 0.

Definition demo_fn : ir_func :=
  mk_func "f" 0 0 [] 17 0 0 [] []
    (((λ t, lic t (t * t)) <$> seqZ 0 9) ++ [add 9 0 1; add 10 9 2; add 11 10 3; add 12 11 4; add 13 12 5;
      add 14 13 6; add 15 14 7; add 16 15 8; mk_insn IR_RETV (-1) 16 (-1) 0 None (-1) (-1) 0]).

Definition demo_sem (pc : nat) (i : ir_insn) (x : Z) (a b : option Z) : Z * Z * option nat :=
  match i.(op) with
  | IR_LIC => (x, i.(imm), Some (S pc))
  | IR_ADD => (x, default 0 a + default 0 b, Some (S pc))
  | _ => (default 0 a, 0, None)
  end.

Lemma regalloc_correct_witness :
  ∃ fn', regalloc msort demo_fn = Some fn' ∧ fn'.(nspills) = 4 ∧
    (∀ t q, 0 <= t < 17 → def_at demo_fn.(insns) t q → place_ok fn'.(nspills) (place_of fn' t)).
Proof.
  destruct (regalloc_correct msort demo_fn) as (fn' & E & _ & Hp & _);
    [apply msort_qsort|vm_compute; split; congruence|vm_compute; reflexivity|].
  exists fn'. split; [exact E|]. split; [|exact Hp].
  vm_compute in E. injection E as <-. reflexivity.
Defined.

Lemma regalloc_preserves_witness :
  ∃ fn', regalloc msort demo_fn = Some fn' ∧
    run_places demo_sem demo_fn.(insns) 17 fn' 20 0 0 (λ _, 77) = Some 204.
Proof.
  eexists. split; [vm_compute; reflexivity|].
  apply (regalloc_preserves msort demo_fn _ Z demo_sem 20 0 204 (λ _, 77));
    [apply msort_qsort|vm_compute; split; congruence|vm_compute; reflexivity|vm_compute; reflexivity|
     vm_compute; reflexivity].
Defined.
