(* ===== verification/Microser.v ===== *)
(** * Microser: src/serialization-formats/demo/microser.h

    The writers and readers of tagged fields, the skipping of unknown fields,
    and the encoder and decoder of a message that
    src/serialization-formats/demo/microser-gen.sh generates.

    A buffer is the list of its bytes.  A writer returns the new position and
    the buffer; [None] is an access outside of the buffer.  An output
    parameter of a reader is passed with its old value and returned. *)

From stdpp Require Import gmap.
From S2P Require Import Prelude.

Definition MS_WIRE_8 : Z := 0.
Definition MS_WIRE_16 : Z := 1.
Definition MS_WIRE_32 : Z := 2.
Definition MS_WIRE_64 : Z := 3.
Definition MS_WIRE_BYTES : Z := 4.

(** ** Writers *)

Definition ms_write_tag_u8 (buf : list Z) (pos len field val : Z) : option (Z * list Z) :=
  if len <? pos + 2 then Some (-1, buf)
  else
    buf ← aset buf pos (u8 ((field << 3) .| MS_WIRE_8));
    buf ← aset buf (pos + 1) val;
    Some (pos + 2, buf).

Definition ms_write_tag_i8 (buf : list Z) (pos len field val : Z) : option (Z * list Z) :=
  ms_write_tag_u8 buf pos len field (u8 val).

Definition ms_write_tag_u16 (buf : list Z) (pos len field val : Z) : option (Z * list Z) :=
  if len <? pos + 3 then Some (-1, buf)
  else
    buf ← aset buf pos (u8 ((field << 3) .| MS_WIRE_16));
    buf ← aset buf (pos + 1) (val .& 255);
    buf ← aset buf (pos + 2) ((val >> 8) .& 255);
    Some (pos + 3, buf).

Definition ms_write_tag_i16 (buf : list Z) (pos len field val : Z) : option (Z * list Z) :=
  ms_write_tag_u16 buf pos len field (u16 val).

Definition ms_write_tag_u32 (buf : list Z) (pos len field val : Z) : option (Z * list Z) :=
  if len <? pos + 5 then Some (-1, buf)
  else
    buf ← aset buf pos (u8 ((field << 3) .| MS_WIRE_32));
    buf ← aset buf (pos + 1) (val .& 255);
    buf ← aset buf (pos + 2) ((val >> 8) .& 255);
    buf ← aset buf (pos + 3) ((val >> 16) .& 255);
    buf ← aset buf (pos + 4) ((val >> 24) .& 255);
    Some (pos + 5, buf).

Definition ms_write_tag_i32 (buf : list Z) (pos len field val : Z) : option (Z * list Z) :=
  ms_write_tag_u32 buf pos len field (u32 val).

(** [data] are the bytes at the pointer, [dlen] a [uint16_t]. *)
Definition ms_write_tag_bytes (buf : list Z) (pos len field : Z) (data : list Z) (dlen : Z) :
    option (Z * list Z) :=
  if len <? pos + 3 + dlen then Some (-1, buf)
  else
    buf ← aset buf pos (u8 ((field << 3) .| MS_WIRE_BYTES));
    buf ← aset buf (pos + 1) (dlen .& 255);
    buf ← aset buf (pos + 2) ((dlen >> 8) .& 255);
    buf ← (if 0 <? dlen then d ← aslice data 0 dlen; asplice buf (pos + 3) d else Some buf);
    Some (pos + 3 + dlen, buf).

(** ** Readers *)

Definition ms_read_u8 (buf : list Z) (pos end_ val : Z) : option (Z * Z) :=
  if end_ <? pos + 1 then Some (-1, val)
  else
    b0 ← aget buf pos;
    Some (pos + 1, b0).

Definition ms_read_i8 (buf : list Z) (pos end_ val : Z) : option (Z * Z) :=
  '(ret, tmp) ← ms_read_u8 buf pos end_ 0;
  Some (ret, if 0 <=? ret then s8 tmp else val).

Definition ms_read_u16 (buf : list Z) (pos end_ val : Z) : option (Z * Z) :=
  if end_ <? pos + 2 then Some (-1, val)
  else
    b0 ← aget buf pos; b1 ← aget buf (pos + 1);
    Some (pos + 2, u16 (b0 .| (b1 << 8))).

Definition ms_read_i16 (buf : list Z) (pos end_ val : Z) : option (Z * Z) :=
  '(ret, tmp) ← ms_read_u16 buf pos end_ 0;
  Some (ret, if 0 <=? ret then s16 tmp else val).

Definition ms_read_u32 (buf : list Z) (pos end_ val : Z) : option (Z * Z) :=
  if end_ <? pos + 4 then Some (-1, val)
  else
    b0 ← aget buf pos; b1 ← aget buf (pos + 1); b2 ← aget buf (pos + 2); b3 ← aget buf (pos + 3);
    Some (pos + 4, u32 (b0 .| (b1 << 8) .| (b2 << 16) .| (b3 << 24))).

Definition ms_read_i32 (buf : list Z) (pos end_ val : Z) : option (Z * Z) :=
  '(ret, tmp) ← ms_read_u32 buf pos end_ 0;
  Some (ret, if 0 <=? ret then s32 tmp else val).

(** [data], a pointer into the buffer, is an offset. *)
Definition ms_read_bytes (buf : list Z) (pos end_ dmax : Z) (out : Z * Z) : option (Z * (Z * Z)) :=
  if end_ <? pos + 2 then Some (-1, out)
  else
    b0 ← aget buf pos; b1 ← aget buf (pos + 1);
    let dlen := u16 (b0 .| (b1 << 8)) in
    let pos := pos + 2 in
    if (end_ <? pos + dlen) || (dmax <? dlen) then Some (-1, out)
    else Some (pos + dlen, (pos, dlen)).

Definition ms_skip (buf : list Z) (pos end_ wire : Z) : option Z :=
  if wire <=? 3 then
    n ← aget [1; 2; 4; 8] wire;
    let pos := pos + n in
    Some (if pos <=? end_ then pos else -1)
  else if wire =? MS_WIRE_BYTES then
    if end_ <? pos + 2 then Some (-1)
    else
      b0 ← aget buf pos; b1 ← aget buf (pos + 1);
      let pos := pos + 2 + u16 (b0 .| (b1 << 8)) in
      Some (if pos <=? end_ then pos else -1)
  else Some (-1).

(** ** Generated code

    The types of fields that have writers and readers; an enumeration or any
    other name is a [TU8]. *)
Inductive ftype : Type := TU8 | TI8 | TU16 | TI16 | TU32 | TI32 | TBytes | TString.

(** The value of a field to be encoded; a field is its number and its value.
    The fields of a message with a [case] are the regular ones, the
    discriminant and those of the variant which the [switch] selects. *)
Inductive fvalue : Type := VInt (t : ftype) (z : Z) | VBytes (bs : list Z).

Definition write_field (buf : list Z) (pos len : Z) (f : Z * fvalue) : option (Z * list Z) :=
  match f.2 with
  | VInt TU8 z => ms_write_tag_u8 buf pos len f.1 z
  | VInt TI8 z => ms_write_tag_i8 buf pos len f.1 z
  | VInt TU16 z => ms_write_tag_u16 buf pos len f.1 z
  | VInt TI16 z => ms_write_tag_i16 buf pos len f.1 z
  | VInt TU32 z => ms_write_tag_u32 buf pos len f.1 z
  | VInt TI32 z => ms_write_tag_i32 buf pos len f.1 z
  | VInt (TBytes | TString) _ => None
  | VBytes bs => ms_write_tag_bytes buf pos len f.1 bs (u16 (Z.of_nat (length bs)))
  end.

(** The fields in order, with a return after the first one that does not fit. *)
Fixpoint write_fields (buf : list Z) (pos len : Z) (fs : list (Z * fvalue)) : option (Z * list Z) :=
  match fs with
  | [] => Some (pos, buf)
  | f :: fs =>
      '(pos, buf) ← write_field buf pos len f;
      if pos <? 0 then Some (-1, buf) else write_fields buf pos len fs
  end.

Definition encode (fs : list (Z * fvalue)) (buf : list Z) (len : Z) : option (Z * list Z) :=
  '(pos, buf) ← write_fields buf 2 len fs;
  if pos <? 0 then Some (-1, buf)
  else
    buf ← aset buf 0 (u8 ((pos - 2) .& 255));
    buf ← aset buf 1 (u8 (((pos - 2) >> 8) .& 255));
    Some (pos, buf).

(** A decoded field: an integer, or offset and length in the buffer. *)
Inductive dvalue : Type := DInt (z : Z) | DBytes (off len : Z).

Definition dint (d : option dvalue) : Z := match d with Some (DInt z) => z | _ => 0 end.
Definition dbytes (d : option dvalue) : Z * Z := match d with Some (DBytes o n) => (o, n) | _ => (0, 0) end.

(** One field of a message: the [switch] over the field number.  A [string] is
    read through [_tmp], which is null, the offset 0, when the read fails. *)
Definition read_field (schema : Z → option ftype) (buf : list Z) (pos end_ tag : Z) (msg : gmap Z dvalue) :
    option (Z * gmap Z dvalue) :=
  let k := tag >> 3 in
  let int_field (read : list Z → Z → Z → Z → option (Z * Z)) :=
    '(pos, v) ← read buf pos end_ (dint (msg !! k)); Some (pos, <[k := DInt v]> msg) in
  match schema k with
  | Some TU8 => int_field ms_read_u8
  | Some TI8 => int_field ms_read_i8
  | Some TU16 => int_field ms_read_u16
  | Some TI16 => int_field ms_read_i16
  | Some TU32 => int_field ms_read_u32
  | Some TI32 => int_field ms_read_i32
  | Some TBytes =>
      '(pos, (o, n)) ← ms_read_bytes buf pos end_ 65535 (dbytes (msg !! k));
      Some (pos, <[k := DBytes o n]> msg)
  | Some TString =>
      '(pos, (o, n)) ← ms_read_bytes buf pos end_ 65535 (0, (dbytes (msg !! k)).2);
      Some (pos, <[k := DBytes o n]> msg)
  | None => pos ← ms_skip buf pos end_ (tag .& 7); Some (pos, msg)
  end.

(** Every turn of the loop moves [pos], so that [end_] turns are enough. *)
Fixpoint decode_loop (fuel : nat) (schema : Z → option ftype) (buf : list Z) (pos end_ : Z)
    (msg : gmap Z dvalue) : option (Z * gmap Z dvalue) :=
  match fuel with
  | O => None
  | S fuel =>
      if pos <? end_ then
        tag ← aget buf pos;
        '(pos, msg) ← read_field schema buf (pos + 1) end_ tag msg;
        if pos <? 0 then Some (-1, msg) else decode_loop fuel schema buf pos end_ msg
      else Some (end_, msg)
  end.

Definition decode (schema : Z → option ftype) (buf : list Z) (len : Z) : option (Z * gmap Z dvalue) :=
  if len <? 2 then Some (-1, ∅)
  else
    b0 ← aget buf 0; b1 ← aget buf 1;
    let end_ := u16 (b0 .| (b1 << 8)) + 2 in
    if len <? end_ then Some (-1, ∅)
    else decode_loop (S (Z.to_nat end_)) schema buf 2 end_ ∅.
