(* ===== verification/MicroserTheorems.v ===== *)
(** * Theorems about Microser

    The wire format as a reference encoding, and the round trip of a message
    through the encoder and a decoder that may know fewer fields. *)

From stdpp Require Import gmap.
From S2P Require Import Prelude Microser.

#[local] Ltac Zify.zify_post_hook ::= Z.to_euclidean_division_equations.

(** ** The wire format *)

Definition wire (v : fvalue) : Z :=
  match v with
  | VInt (TU8 | TI8) _ => MS_WIRE_8
  | VInt (TU16 | TI16) _ => MS_WIRE_16
  | VInt _ _ => MS_WIRE_32
  | VBytes _ => MS_WIRE_BYTES
  end.

Definition payload (v : fvalue) : list Z :=
  match v with
  | VInt (TU8 | TI8) z => [u8 z]
  | VInt (TU16 | TI16) z => [u8 z; u8 (z >> 8)]
  | VInt _ z => [u8 z; u8 (z >> 8); u8 (z >> 16); u8 (z >> 24)]
  | VBytes bs => let n := Z.of_nat (length bs) in u8 n :: u8 (n >> 8) :: bs
  end.

(** A field: the tag byte and the value. *)
Definition field_bytes (f : Z * fvalue) : list Z := (f.1 * 8 + wire f.2) :: payload f.2.

Definition message (fs : list (Z * fvalue)) : list Z := fs ≫= field_bytes.

Definition has_type (v : fvalue) (t : ftype) : Prop :=
  match v with VInt t' _ => t = t' | VBytes _ => t = TBytes ∨ t = TString end.

(** Field numbers and values in their range. *)
Definition valid (f : Z * fvalue) : Prop :=
  1 <= f.1 <= 31 ∧
  match f.2 with
  | VInt TU8 z => 0 <= z < 2 ^ 8
  | VInt TI8 z => - 2 ^ 7 <= z < 2 ^ 7
  | VInt TU16 z => 0 <= z < 2 ^ 16
  | VInt TI16 z => - 2 ^ 15 <= z < 2 ^ 15
  | VInt TU32 z => 0 <= z < 2 ^ 32
  | VInt TI32 z => - 2 ^ 31 <= z < 2 ^ 31
  | VInt (TBytes | TString) _ => False
  | VBytes bs => Z.of_nat (length bs) < 65536
  end.

(** ** Bytes *)

Lemma land255 x : x .& 255 = u8 x.
Proof. change 255 with (Z.ones 8). by rewrite Z.land_ones. Qed.

Lemma u8_small x : 0 <= x < 256 → u8 x = x.
Proof. apply Z.mod_small. Qed.

Lemma u8_u16 z : u8 (u16 z) = u8 z ∧ u8 (u16 z >> 8) = u8 (z >> 8).
Proof. rewrite !Z.shiftr_div_pow2 by lia. unfold u8, u16. change (2 ^ 8) with 256. split; lia. Qed.

Lemma u8_u32 z : u8 (u32 z) = u8 z ∧ u8 (u32 z >> 8) = u8 (z >> 8) ∧
  u8 (u32 z >> 16) = u8 (z >> 16) ∧ u8 (u32 z >> 24) = u8 (z >> 24).
Proof.
  rewrite !Z.shiftr_div_pow2 by lia. unfold u8, u32. change (2 ^ 24) with 16777216.
  change (2 ^ 16) with 65536. change (2 ^ 8) with 256. split_and!; lia.
Qed.

Lemma le16 z : u16 (u8 z .| (u8 (z >> 8) << 8)) = u16 z.
Proof. rewrite Z.lor_comm. apply join16. Qed.

Lemma le32 z : u32 (u8 z .| (u8 (z >> 8) << 8) .| (u8 (z >> 16) << 16) .| (u8 (z >> 24) << 24)) = u32 z.
Proof.
  pose proof (join32 z) as J. rewrite (u32_small (u8 (z >> 24) << 24)) in J
    by (apply inw_shiftl; [lia|apply u8_in]).
  rewrite <-(u32_u32 z), <-J. f_equal. apply Z.bits_inj. intros i. rewrite !Z.lor_spec. btauto.
Qed.

(** The tag byte holds field number and wire type. *)
Lemma tag_byte k w : 0 <= k <= 31 → 0 <= w < 8 →
  u8 ((k << 3) .| w) = k * 8 + w ∧ (k * 8 + w) >> 3 = k ∧ (k * 8 + w) .& 7 = w.
Proof.
  intros Hk Hw. rewrite Z.shiftl_mul_pow2 by lia. rewrite (lor_low k w 3) by (unfold inw; lia).
  change (2 ^ 3) with 8. split_and!; [apply u8_small; lia|rewrite Z.shiftr_div_pow2 by lia; change (2 ^ 3) with 8; lia|].
  change 7 with (Z.ones 3). rewrite Z.land_ones by lia. change (2 ^ 3) with 8. lia.
Qed.

(** ** Writing *)

Lemma asplice_app {A} (l : list A) i bs bs' :
  0 <= i → i + Z.of_nat (length (bs ++ bs')) <= Z.of_nat (length l) →
  asplice l i (bs ++ bs') = (l ← asplice l i bs; asplice l (i + Z.of_nat (length bs)) bs').
Proof.
  revert l i. induction bs as [|b bs IH]; intros l i Hi Hl; simpl app in *.
  - rewrite asplice_nil by lia. simpl. by rewrite Z.add_0_r.
  - simpl in Hl. rewrite !asplice_cons by (simpl in *; rewrite ?length_app in *; lia).
    rewrite aset_in by lia. simpl. rewrite IH by (rewrite ?length_insert; lia).
    destruct (asplice _ _ bs); simpl; [|done]. f_equal. lia.
Qed.

(** The result of writing [bs] at [pos] if it fits. *)
Definition written (buf : list Z) (pos len : Z) (bs : list Z) : option (Z * list Z) :=
  if pos + Z.of_nat (length bs) <=? len
  then l ← asplice buf pos bs; Some (pos + Z.of_nat (length bs), l)
  else Some (-1, buf).

(** Bytes written one by one. *)
Ltac splice_bytes :=
  repeat (rewrite asplice_cons by (rewrite ?length_insert; simpl length in *; lia);
          rewrite ?aset_in by (rewrite ?length_insert; lia); cbn [mbind option_bind];
          rewrite <-?Z.add_assoc; cbn [Z.add Pos.add Pos.succ Pos.add_carry]).

Lemma write_u8_ok buf pos len k z :
  0 <= pos → len <= Z.of_nat (length buf) → 1 <= k <= 31 → 0 <= z < 256 →
  ms_write_tag_u8 buf pos len k z = written buf pos len [k * 8 + MS_WIRE_8; u8 z].
Proof.
  intros Hp Hl Hk Hz. unfold ms_write_tag_u8, written.
  destruct (tag_byte k MS_WIRE_8) as (-> & _); [lia|by unfold MS_WIRE_8|].
  change (Z.of_nat (length [_; u8 z])) with 2. rewrite u8_small by done.
  destruct (Z.ltb_spec len (pos + 2)), (Z.leb_spec (pos + 2) len); try lia; [done|].
  splice_bytes. by rewrite asplice_nil by (rewrite ?length_insert; lia).
Qed.

Lemma write_u16_ok buf pos len k z :
  0 <= pos → len <= Z.of_nat (length buf) → 1 <= k <= 31 →
  ms_write_tag_u16 buf pos len k z = written buf pos len [k * 8 + MS_WIRE_16; u8 z; u8 (z >> 8)].
Proof.
  intros Hp Hl Hk. unfold ms_write_tag_u16, written.
  destruct (tag_byte k MS_WIRE_16) as (-> & _); [lia|by unfold MS_WIRE_16|].
  change (Z.of_nat (length [_; u8 z; u8 (z >> 8)])) with 3. rewrite !land255.
  destruct (Z.ltb_spec len (pos + 3)), (Z.leb_spec (pos + 3) len); try lia; [done|].
  splice_bytes. by rewrite asplice_nil by (rewrite ?length_insert; lia).
Qed.

Lemma write_u32_ok buf pos len k z :
  0 <= pos → len <= Z.of_nat (length buf) → 1 <= k <= 31 →
  ms_write_tag_u32 buf pos len k z =
  written buf pos len [k * 8 + MS_WIRE_32; u8 z; u8 (z >> 8); u8 (z >> 16); u8 (z >> 24)].
Proof.
  intros Hp Hl Hk. unfold ms_write_tag_u32, written.
  destruct (tag_byte k MS_WIRE_32) as (-> & _); [lia|by unfold MS_WIRE_32|].
  change (Z.of_nat (length [_; u8 z; _; _; _])) with 5. rewrite !land255.
  destruct (Z.ltb_spec len (pos + 5)), (Z.leb_spec (pos + 5) len); try lia; [done|].
  splice_bytes. by rewrite asplice_nil by (rewrite ?length_insert; lia).
Qed.

Lemma ms_write_bytes_ok buf pos len k bs :
  0 <= pos → len <= Z.of_nat (length buf) → 1 <= k <= 31 → Z.of_nat (length bs) < 65536 →
  ms_write_tag_bytes buf pos len k bs (u16 (Z.of_nat (length bs))) =
  written buf pos len (field_bytes (k, VBytes bs)).
Proof.
  intros Hp Hl Hk Hb. set (n := Z.of_nat (length bs)).
  assert (u16 n = n) as -> by (unfold u16, n; apply Z.mod_small; lia).
  assert (Hlen : Z.of_nat (length (field_bytes (k, VBytes bs))) = 3 + n) by (unfold n, field_bytes; simpl length; lia).
  unfold ms_write_tag_bytes, written. rewrite Hlen.
  destruct (tag_byte k MS_WIRE_BYTES) as (-> & _); [lia|by unfold MS_WIRE_BYTES|].
  rewrite !land255, Z.add_assoc.
  destruct (Z.ltb_spec len (pos + 3 + n)), (Z.leb_spec (pos + 3 + n) len); try lia; [done|].
  unfold field_bytes. cbn [fst snd wire payload]. fold n.
  splice_bytes. destruct (Z.ltb_spec 0 n).
  - rewrite aslice_in by lia. cbn [mbind option_bind]. rewrite drop_0, take_ge by lia. done.
  - assert (bs = []) as -> by (apply nil_length_inv; lia).
    by rewrite asplice_nil by (rewrite ?length_insert; lia).
Qed.

Lemma write_field_ok buf pos len f :
  0 <= pos → len <= Z.of_nat (length buf) → valid f →
  write_field buf pos len f = written buf pos len (field_bytes f).
Proof.
  intros Hp Hl [Hk Hv]. destruct f as [k [[] z|bs]]; unfold write_field; cbn [fst snd] in *.
  - by apply write_u8_ok.
  - unfold ms_write_tag_i8. rewrite write_u8_ok by (done || apply u8_in). unfold field_bytes. simpl.
    by rewrite (u8_small (u8 z)) by apply u8_in.
  - by apply write_u16_ok.
  - unfold ms_write_tag_i16. rewrite write_u16_ok by done. by destruct (u8_u16 z) as [-> ->].
  - by apply write_u32_ok.
  - unfold ms_write_tag_i32. rewrite write_u32_ok by done. by destruct (u8_u32 z) as (-> & -> & -> & ->).
  - done.
  - done.
  - by apply ms_write_bytes_ok.
Qed.

Lemma write_fields_ok buf pos len fs :
  0 <= pos <= len → len <= Z.of_nat (length buf) → Forall valid fs →
  ∃ buf', length buf' = length buf ∧
    write_fields buf pos len fs = if pos + Z.of_nat (length (message fs)) <=? len
      then l ← asplice buf pos (message fs); Some (pos + Z.of_nat (length (message fs)), l)
      else Some (-1, buf').
Proof.
  revert buf pos. induction fs as [|f fs IH]; intros buf pos Hp Hl Hv; cbn [write_fields].
  - exists buf. split; [done|]. change (message []) with (@nil Z). simpl length. rewrite Z.add_0_r. destruct (Z.leb_spec pos len); [|lia].
    by rewrite asplice_nil by lia.
  - apply Forall_cons in Hv as [Hf Hv]. rewrite write_field_ok by (done || lia). unfold written.
    change (message (f :: fs)) with (field_bytes f ++ message fs). rewrite length_app.
    destruct (Z.leb_spec (pos + Z.of_nat (length (field_bytes f))) len) as [Hfit|Hno].
    + rewrite asplice_in by lia. cbn [mbind option_bind].
      set (buf1 := take (Z.to_nat pos) buf ++ field_bytes f ++ drop (Z.to_nat pos + length (field_bytes f)) buf). assert (Hb1 : length buf1 = length buf).
      { unfold buf1. rewrite !length_app, length_take, length_drop. lia. }
      destruct (Z.ltb_spec (pos + Z.of_nat (length (field_bytes f))) 0); [lia|].
      destruct (IH buf1 (pos + Z.of_nat (length (field_bytes f)))) as (buf' & Hb' & ->); [lia|lia|done|].
      exists buf'. split; [lia|]. rewrite Nat2Z.inj_add, Z.add_assoc.
      destruct (Z.leb_spec (pos + Z.of_nat (length (field_bytes f)) + Z.of_nat (length (message fs))) len); [|done].
      rewrite asplice_app by (rewrite ?length_app; lia). by rewrite (asplice_in buf) by lia.
    + exists buf. split; [done|]. cbn [mbind option_bind].
      by destruct (Z.leb_spec (pos + Z.of_nat (length (field_bytes f) + length (message fs))) len); [lia|].
Qed.

(** The header: the length of the payload. *)
Definition header (n : Z) : list Z := [u8 n; u8 (n >> 8)].

Lemma encode_ok fs buf len :
  2 <= len <= Z.of_nat (length buf) → Forall valid fs →
  2 + Z.of_nat (length (message fs)) <= len →
  encode fs buf len = Some (2 + Z.of_nat (length (message fs)),
    header (Z.of_nat (length (message fs))) ++ message fs ++ drop (2 + length (message fs)) buf).
Proof.
  intros Hl Hv Hfit. unfold encode.
  destruct (write_fields_ok buf 2 len fs) as (buf' & _ & ->); [lia|lia|done|].
  set (m := message fs) in *. set (n := Z.of_nat (length m)) in *.
  destruct (Z.leb_spec (2 + n) len); [|lia]. rewrite asplice_in by lia. csimpl.
  destruct (Z.ltb_spec (2 + n) 0); [lia|].
  replace (2 + n - 2) with n by lia. rewrite !land255, !(u8_small (u8 _)) by apply u8_in.
  destruct buf as [|b0 [|b1 rest]]; simpl length in Hl; [lia|lia|].
  rewrite aset_in by (simpl length; lia). csimpl. rewrite aset_in by (simpl length; lia). csimpl. done.
Qed.

Lemma encode_too_small fs buf len :
  2 <= len <= Z.of_nat (length buf) → Forall valid fs →
  len < 2 + Z.of_nat (length (message fs)) →
  ∃ buf', encode fs buf len = Some (-1, buf') ∧ length buf' = length buf.
Proof.
  intros Hl Hv Hfit. unfold encode.
  destruct (write_fields_ok buf 2 len fs) as (buf' & Hb & ->); [lia|lia|done|].
  destruct (Z.leb_spec (2 + Z.of_nat (length (message fs))) len); [lia|]. by exists buf'.
Qed.

(** ** Reading *)

(** A byte of a known part of the buffer. *)
Lemma aget_at (pre l post : list Z) i b :
  l !! Z.to_nat i = Some b → 0 <= i → aget (pre ++ l ++ post) (Z.of_nat (length pre) + i) = Some b.
Proof.
  intros Hb Hi. rewrite aget_lookup by lia. rewrite lookup_app_r by lia.
  replace (Z.to_nat (Z.of_nat (length pre) + i) - length pre)%nat with (Z.to_nat i) by lia.
  by apply lookup_app_l_Some.
Qed.

Lemma aget_here (pre l post : list Z) b :
  l !! 0%nat = Some b → aget (pre ++ l ++ post) (Z.of_nat (length pre)) = Some b.
Proof. intros Hb. rewrite <-(Z.add_0_r (Z.of_nat (length pre))). by apply aget_at. Qed.

(** What a decoder stores for a field whose payload starts at [pos]. *)
Definition decoded (pos : Z) (v : fvalue) : dvalue :=
  match v with VInt _ z => DInt z | VBytes bs => DBytes (pos + 2) (Z.of_nat (length bs)) end.

(** The decoder knows the type of the fields it knows. *)
Definition compatible (schema : Z → option ftype) (f : Z * fvalue) : Prop :=
  ∀ t, schema f.1 = Some t → has_type f.2 t.

Lemma sign8 z : - 2 ^ 7 <= z < 2 ^ 7 → s8 (u8 z) = z.
Proof. intros. unfold s8, u8. case_match; lia. Qed.
Lemma sign16 z : - 2 ^ 15 <= z < 2 ^ 15 → s16 (u16 z) = z.
Proof. intros. unfold s16, u16. case_match; lia. Qed.
Lemma sign32 z : - 2 ^ 31 <= z < 2 ^ 31 → s32 (u32 z) = z.
Proof. intros. unfold s32, u32. case_match; lia. Qed.

Section read.
Context (pre post : list Z) (end_ : Z).
Local Notation p := (Z.of_nat (length pre)).

Lemma read_u8_ok z val :
  p + 1 <= end_ → ms_read_u8 (pre ++ [u8 z] ++ post) p end_ val = Some (p + 1, u8 z).
Proof.
  intros He. unfold ms_read_u8. destruct (Z.ltb_spec end_ (p + 1)); [lia|].
  by rewrite (aget_here pre [u8 z] post _ eq_refl).
Qed.

Lemma read_u16_ok z val :
  p + 2 <= end_ → ms_read_u16 (pre ++ [u8 z; u8 (z >> 8)] ++ post) p end_ val = Some (p + 2, u16 z).
Proof.
  intros He. unfold ms_read_u16. destruct (Z.ltb_spec end_ (p + 2)); [lia|].
  rewrite (aget_here pre [u8 z; u8 (z >> 8)] post _ eq_refl), (aget_at pre [u8 z; u8 (z >> 8)] post 1 _ eq_refl) by done. csimpl.
  by rewrite le16.
Qed.

Lemma read_u32_ok z val :
  p + 4 <= end_ →
  ms_read_u32 (pre ++ [u8 z; u8 (z >> 8); u8 (z >> 16); u8 (z >> 24)] ++ post) p end_ val = Some (p + 4, u32 z).
Proof.
  intros He. unfold ms_read_u32. destruct (Z.ltb_spec end_ (p + 4)); [lia|].
  set (l := [u8 z; u8 (z >> 8); u8 (z >> 16); u8 (z >> 24)]).
  rewrite (aget_here pre l post _ eq_refl), (aget_at pre l post 1 _ eq_refl), (aget_at pre l post 2 _ eq_refl),
    (aget_at pre l post 3 _ eq_refl) by done. csimpl.
  by rewrite le32.
Qed.

Lemma ms_read_bytes_ok bs out :
  Z.of_nat (length bs) < 65536 → p + Z.of_nat (length (payload (VBytes bs))) <= end_ →
  ms_read_bytes (pre ++ payload (VBytes bs) ++ post) p end_ 65535 out =
  Some (p + Z.of_nat (length (payload (VBytes bs))), (p + 2, Z.of_nat (length bs))).
Proof.
  intros Hb He. simpl length in *. unfold ms_read_bytes. destruct (Z.ltb_spec end_ (p + 2)); [lia|].
  rewrite (aget_here pre (payload (VBytes bs)) post _ eq_refl), 
    (aget_at pre (payload (VBytes bs)) post 1 _ eq_refl) by done. csimpl.
  rewrite le16. replace (u16 (Z.of_nat (length bs))) with (Z.of_nat (length bs)) by (unfold u16; lia).
  destruct (Z.ltb_spec end_ (p + 2 + Z.of_nat (length bs))); [lia|].
  destruct (Z.ltb_spec 65535 (Z.of_nat (length bs))); [lia|]. simpl. do 2 f_equal. lia.
Qed.

Lemma skip_ok v :
  valid (1, v) → p + Z.of_nat (length (payload v)) <= end_ →
  ms_skip (pre ++ payload v ++ post) p end_ (wire v) = Some (p + Z.of_nat (length (payload v))).
Proof.
  intros [_ Hv] He. destruct v as [t z|bs].
  - unfold ms_skip. destruct t; try done; simpl in *; case_match eqn:E; (done || lia).
  - set (l := payload (VBytes bs)) in *. change (Z.of_nat (length bs) < 65536) in Hv.
    assert (Hl : Z.of_nat (length l) = 2 + Z.of_nat (length bs)) by (unfold l; simpl length; lia).
    rewrite Hl in *. unfold ms_skip. change (wire (VBytes bs) <=? 3) with false.
    change (wire (VBytes bs) =? MS_WIRE_BYTES) with true. cbv iota. destruct (Z.ltb_spec end_ (p + 2)); [lia|].
    rewrite (aget_here pre l post _ eq_refl), (aget_at pre l post 1 _ eq_refl) by done. cbn [mbind option_bind].
    rewrite le16. replace (u16 (Z.of_nat (length bs))) with (Z.of_nat (length bs)) by (unfold u16; lia).
    destruct (Z.leb_spec (p + 2 + Z.of_nat (length bs)) end_); [|lia]. f_equal. lia.
Qed.
End read.

(** A field that is read, or skipped when the decoder does not know it. *)
Lemma read_field_ok schema pre f post end_ msg :
  valid f → compatible schema f →
  Z.of_nat (length pre) + Z.of_nat (length (field_bytes f)) <= end_ →
  read_field schema (pre ++ field_bytes f ++ post) (Z.of_nat (length pre) + 1) end_ (f.1 * 8 + wire f.2) msg =
  Some (Z.of_nat (length pre) + Z.of_nat (length (field_bytes f)),
    match schema f.1 with
    | Some _ => <[f.1 := decoded (Z.of_nat (length pre) + 1) f.2]> msg
    | None => msg
    end).
Proof.
  intros [Hk Hv] Hc He. destruct f as [k v]; cbn [fst snd] in *. unfold compatible in Hc. cbn [fst snd] in Hc.
  assert (Hw : 0 <= wire v < 8) by (destruct v as [[]|]; by unfold wire).
  destruct (tag_byte k (wire v)) as (_ & Hk3 & Hw7); [lia|done|].
  unfold read_field. rewrite Hk3, Hw7. set (tag := k * 8 + wire v).
  replace (pre ++ field_bytes (k, v) ++ post) with ((pre ++ [tag]) ++ payload v ++ post)
    by (by rewrite <-app_assoc).
  replace (Z.of_nat (length pre) + 1) with (Z.of_nat (length (pre ++ [tag]))) by (rewrite length_app; simpl; lia).
  assert (Hp : Z.of_nat (length pre) + Z.of_nat (length (field_bytes (k, v))) =
    Z.of_nat (length (pre ++ [tag])) + Z.of_nat (length (payload v))).
  { rewrite length_app. unfold field_bytes. simpl length. lia. }
  rewrite Hp in *. clear Hp Hk3 Hw7. generalize dependent (pre ++ [tag]). intros q He.
  destruct (schema k) as [t|] eqn:Hs.
  2: { rewrite skip_ok by (done || (split; [simpl; lia|done])). done. }
  specialize (Hc t eq_refl). destruct v as [t' z|bs]; cbn [has_type payload decoded] in *.
  2: { fold (payload (VBytes bs)). destruct Hc as [-> | ->]; by rewrite ms_read_bytes_ok. }
  subst t'. destruct t; cbn [payload] in *; try done.
  - rewrite read_u8_ok by done. cbn [mbind option_bind]. by rewrite u8_small.
  - unfold ms_read_i8. rewrite read_u8_ok by done. cbn [mbind option_bind].
    destruct (Z.leb_spec 0 (Z.of_nat (length q) + 1)); [|lia]. by rewrite sign8.
  - rewrite read_u16_ok by done. cbn [mbind option_bind]. unfold u16. by rewrite Z.mod_small.
  - unfold ms_read_i16. rewrite read_u16_ok by done. cbn [mbind option_bind].
    destruct (Z.leb_spec 0 (Z.of_nat (length q) + 2)); [|lia]. by rewrite sign16.
  - rewrite read_u32_ok by done. cbn [mbind option_bind]. unfold u32. by rewrite Z.mod_small.
  - unfold ms_read_i32. rewrite read_u32_ok by done. cbn [mbind option_bind].
    destruct (Z.leb_spec 0 (Z.of_nat (length q) + 4)); [|lia]. by rewrite sign32.
Qed.

(** The values a decoder stores for [fs], which start at [pos]. *)
Fixpoint stored (schema : Z → option ftype) (pos : Z) (fs : list (Z * fvalue)) (msg : gmap Z dvalue) :
    gmap Z dvalue :=
  match fs with
  | [] => msg
  | f :: fs =>
      stored schema (pos + Z.of_nat (length (field_bytes f))) fs
        (match schema f.1 with Some _ => <[f.1 := decoded (pos + 1) f.2]> msg | None => msg end)
  end.

Lemma decode_loop_ok schema fs pre post fuel msg :
  Forall valid fs → Forall (compatible schema) fs → (length (message fs) < fuel)%nat →
  let end_ := Z.of_nat (length pre) + Z.of_nat (length (message fs)) in
  decode_loop fuel schema (pre ++ message fs ++ post) (Z.of_nat (length pre)) end_ msg =
  Some (end_, stored schema (Z.of_nat (length pre)) fs msg).
Proof.
  revert pre fuel msg. induction fs as [|f fs IH]; intros pre fuel msg Hv Hc Hf; cbv zeta;
    (destruct fuel as [|fuel]; [simpl in Hf; lia|]); cbn [decode_loop].
  - change (message []) with (@nil Z). simpl length. by destruct (Z.ltb_spec (Z.of_nat (length pre))
      (Z.of_nat (length pre) + Z.of_nat 0)) as [Hlt|]; [lia|].
  - apply Forall_cons in Hv as [Hvf Hv], Hc as [Hcf Hc].
    change (message (f :: fs)) with (field_bytes f ++ message fs) in *. rewrite length_app in *.
    rewrite Nat2Z.inj_add, Z.add_assoc.
    assert (Hlf : (0 < length (field_bytes f))%nat) by (unfold field_bytes; simpl; lia).
    set (e := Z.of_nat (length pre) + Z.of_nat (length (field_bytes f)) + Z.of_nat (length (message fs))).
    destruct (Z.ltb_spec (Z.of_nat (length pre)) e) as [_|Hge]; [|lia].
    rewrite <-app_assoc. rewrite (aget_here pre (field_bytes f) _ _ eq_refl). cbn [mbind option_bind].
    rewrite read_field_ok by (done || lia). cbn [mbind option_bind].
    destruct (Z.ltb_spec (Z.of_nat (length pre) + Z.of_nat (length (field_bytes f))) 0); [lia|].
    specialize (IH (pre ++ field_bytes f) fuel). rewrite length_app, <-!app_assoc in IH.
    rewrite !Nat2Z.inj_add in IH. cbn [stored]. apply IH; [done|done|lia].
Qed.

Lemma stored_other schema pos fs msg k : k ∉ fs.*1 → stored schema pos fs msg !! k = msg !! k.
Proof.
  revert pos msg. induction fs as [|f fs IH]; intros pos msg Hk; csimpl in *; [done|].
  apply not_elem_of_cons in Hk as [Hne Hk]. rewrite IH by done. case_match; [|done].
  by rewrite lookup_insert_ne.
Qed.

Lemma stored_at schema pos fs msg f :
  NoDup fs.*1 → f ∈ fs → ∃ l r, message fs = l ++ field_bytes f ++ r ∧
    stored schema pos fs msg !! f.1 =
    match schema f.1 with
    | Some _ => Some (decoded (pos + Z.of_nat (length l) + 1) f.2)
    | None => msg !! f.1
    end.
Proof.
  revert pos msg. induction fs as [|g fs IH]; intros pos msg Hnd Hf; [by apply elem_of_nil in Hf|].
  csimpl in Hnd. apply NoDup_cons in Hnd as [Hg Hnd]. cbn [stored]. apply elem_of_cons in Hf as [->|Hf].
  - exists [], (message fs). split; [done|]. rewrite stored_other by done. rewrite Z.add_0_r.
    destruct (schema g.1); [by rewrite lookup_insert_eq|done].
  - destruct (IH (pos + Z.of_nat (length (field_bytes g)))
      (match schema g.1 with Some _ => <[g.1 := decoded (pos + 1) g.2]> msg | None => msg end) Hnd Hf)
      as (l & r & E & ->).
    exists (field_bytes g ++ l), r. split; [by rewrite <-app_assoc, <-E|].
    rewrite length_app, Nat2Z.inj_add, Z.add_assoc. destruct (schema f.1); [done|].
    assert (g.1 ≠ f.1) by (intros Heq; apply Hg; rewrite Heq; by apply list_elem_of_fmap_2).
    case_match; [by rewrite lookup_insert_ne|done].
Qed.

Lemma aslice_mid {A} (a b c : list A) i n :
  i = Z.of_nat (length a) → n = Z.of_nat (length b) → aslice (a ++ b ++ c) i n = Some b.
Proof.
  intros -> ->. rewrite aslice_in by (rewrite ?length_app; lia). rewrite !Nat2Z.id.
  by rewrite drop_app_length, take_app_length.
Qed.

(** What the decoder reports for a field of the message. *)
Definition reported (buf : list Z) (v : fvalue) (d : option dvalue) : Prop :=
  match v with
  | VInt _ z => d = Some (DInt z)
  | VBytes bs => ∃ o n, d = Some (DBytes o n) ∧ aslice buf o n = Some bs
  end.

Lemma decode_ok schema fs rest len :
  Forall valid fs → Forall (compatible schema) fs → Z.of_nat (length (message fs)) < 65536 →
  2 + Z.of_nat (length (message fs)) <= len →
  decode schema (header (Z.of_nat (length (message fs))) ++ message fs ++ rest) len =
  Some (2 + Z.of_nat (length (message fs)), stored schema 2 fs ∅).
Proof.
  intros Hv Hc Hn Hl. unfold decode. destruct (Z.ltb_spec len 2); [lia|].
  set (n := Z.of_nat (length (message fs))) in *.
  change (aget (header n ++ message fs ++ rest) 0) with (Some (u8 n)).
  change (aget (header n ++ message fs ++ rest) 1) with (Some (u8 (n >> 8))). cbn [mbind option_bind].
  rewrite le16. replace (u16 n) with n by (unfold u16; lia).
  destruct (Z.ltb_spec len (n + 2)); [lia|]. rewrite (Z.add_comm n 2).
  apply (decode_loop_ok schema fs (header n) rest); [done|done|lia].
Qed.

(** C40: what a generated encoder writes, a generated decoder reads.  A message
    whose fields have distinct numbers from 1 to 31 and values in range, and
    whose encoding fits into the buffer and into the 16-bit length, is encoded
    without an access outside of the buffer, and the bytes behind it stay as
    they were; a decoder for any version of the message, which knows some of
    the fields with their types, accepts it, reports the value of every field it
    knows, bytes and strings as a slice of the buffer, and nothing for the
    fields it does not know, which it skips.  When the buffer is too small the
    encoder returns -1. *)
Theorem microser_roundtrip (schema : Z → option ftype) (fs : list (Z * fvalue)) (buf : list Z) (len : Z) :
  Forall valid fs → NoDup fs.*1 → Forall (compatible schema) fs → 2 <= len <= Z.of_nat (length buf) →
  let n := 2 + Z.of_nat (length (message fs)) in
  (n <= len → n - 2 < 65536 →
    ∃ buf' msg, encode fs buf len = Some (n, buf') ∧ length buf' = length buf ∧
      drop (Z.to_nat n) buf' = drop (Z.to_nat n) buf ∧ decode schema buf' n = Some (n, msg) ∧
      (∀ f t, f ∈ fs → schema f.1 = Some t → reported buf' f.2 (msg !! f.1)) ∧
      (∀ k, schema k = None ∨ k ∉ fs.*1 → msg !! k = None)) ∧
  (len < n → ∃ buf', encode fs buf len = Some (-1, buf') ∧ length buf' = length buf).
Proof.
  intros Hv Hnd Hc Hl n. split; [|intros; by apply encode_too_small].
  intros Hfit H16. set (m := message fs) in *.
  exists (header (Z.of_nat (length m)) ++ m ++ drop (2 + length m) buf), (stored schema 2 fs ∅).
  assert (Hn : Z.to_nat n = (2 + length m)%nat) by lia.
  split_and!; [by apply encode_ok| | | | |].
  - rewrite !length_app, length_drop. simpl. lia.
  - rewrite Hn, app_assoc, drop_app_length' by (rewrite length_app; simpl; lia). done.
  - apply decode_ok; [done|done|unfold n, m in *; lia|unfold n, m; lia].
  - intros f t Hf Hs. destruct (stored_at schema 2 fs ∅ f Hnd Hf) as (l & r & E & ->). rewrite Hs.
    destruct f as [k [ty z|bs]]; [done|]. cbn [snd decoded reported]. eexists _, _. split; [done|].
    fold m in E. set (h := header (Z.of_nat (length m))). rewrite E. unfold field_bytes. cbn [fst snd wire payload].
    set (tl := [k * 8 + MS_WIRE_BYTES; u8 (Z.of_nat (length bs)); u8 (Z.of_nat (length bs) >> 8)]).
    replace (h ++ _) with ((h ++ l ++ tl) ++ bs ++ r ++ drop (2 + length m) buf)
      by (rewrite E; unfold tl; by rewrite <-!app_assoc).
    apply aslice_mid; [|done]. rewrite !length_app. unfold h, tl. simpl length. lia.
  - intros k [Hk|Hk]; [|by rewrite stored_other, lookup_empty by done].
    destruct (decide (k ∈ fs.*1)) as [Hin|]; [|by rewrite stored_other, lookup_empty].
    apply list_elem_of_fmap in Hin as (f & -> & Hf).
    destruct (stored_at schema 2 fs ∅ f Hnd Hf) as (l & r & E & ->). by rewrite Hk, lookup_empty.
Qed.

(** ** Witness *)

(** The reading of a sensor with a name the decoder does not know. *)
Definition demo_fields : list (Z * fvalue) :=
  [(1, VInt TU8 7); (2, VInt TU32 1712000000); (3, VBytes [104; 105]); (4, VInt TI16 (-234))].

Definition demo_schema (k : Z) : option ftype :=
  if k =? 1 then Some TU8 else if k =? 2 then Some TU32 else if k =? 4 then Some TI16 else None.

Lemma microser_roundtrip_witness :
  ∃ buf' msg, encode demo_fields (replicate 32 0) 32 = Some (17, buf') ∧
    decode demo_schema buf' 17 = Some (17, msg) ∧ msg !! 4 = Some (DInt (-234)) ∧ msg !! 3 = None.
Proof.
  destruct (microser_roundtrip demo_schema demo_fields (replicate 32 0) 32) as [H _].
  - repeat constructor; simpl; lia.
  - apply (bool_decide_unpack _). vm_compute. exact I.
  - do 4 (apply Forall_cons; split; [intros t Ht; vm_compute in Ht; first [discriminate Ht | injection Ht as <-; reflexivity]|]). constructor.
  - vm_compute. split; congruence.
  - destruct H as (buf' & msg & H1 & _ & _ & H4 & H5 & H6); [vm_compute; congruence|vm_compute; congruence|].
    exists buf', msg. split; [exact H1|]. split; [exact H4|]. split.
    + apply (H5 (4, VInt TI16 (-234)) TI16); [|reflexivity]. do 3 apply list_elem_of_further. apply list_elem_of_here.
    + apply H6. left. reflexivity.
Defined.
