(* ===== verification/Scheme.v ===== *)
(** * The reader and the printer of TinScheme

    src/portable-compiler/demo/scheme/lex.c, parse.c, print.c, the types of
    scheme.h, and the path of main.c that prints a program.

    The global variables of the lexer are a record; the source is the array of
    its bytes with the terminating 0, and [p] an index into it.  The memory of
    a token's text is a list of bytes.  [die] is the result [None] of an
    operation of type [M S (option A)], whatever the message; [xmalloc] is
    taken to succeed, it dies otherwise.  [char] arithmetic is on bytes, the
    character classes are those of the C locale.  A local variable that is
    declared without a value holds whatever the parameter [uninit] says. *)

From stdpp Require Import gmap.
From S2P Require Import Prelude Gc.

(** ** Tokens *)

Inductive tok_kind : Type :=
  | TOK_EOF | TOK_LPAREN | TOK_RPAREN | TOK_DOT | TOK_QUOTE
  | TOK_NUM | TOK_STR | TOK_SYM | TOK_TRUE | TOK_FALSE.

#[global] Instance tok_kind_eq_dec : EqDecision tok_kind.
Proof. solve_decision. Defined.

Record token : Type := mk_token {
  kind : tok_kind;
  nval : Z;
  sval : option (list Z);
  slen : Z;
  tok_line : Z
}.

Definition set_nval (n : Z) (t : token) : token := mk_token t.(kind) n t.(sval) t.(slen) t.(tok_line).
Definition set_sval (bs : list Z) (t : token) : token :=
  mk_token t.(kind) t.(nval) (Some bs) t.(slen) t.(tok_line).
Definition set_slen (n : Z) (t : token) : token := mk_token t.(kind) t.(nval) t.(sval) n t.(tok_line).

(** ** The lexer *)

Record lexer : Type := mk_lexer {
  src_buf : list Z;
  lex_p : Z;
  line : Z;
  peeked : Z;
  peek_tok : token
}.

Definition set_p (n : Z) (l : lexer) : lexer := mk_lexer l.(src_buf) n l.(line) l.(peeked) l.(peek_tok).
Definition set_line (n : Z) (l : lexer) : lexer := mk_lexer l.(src_buf) l.(lex_p) n l.(peeked) l.(peek_tok).
Definition set_peeked (n : Z) (l : lexer) : lexer := mk_lexer l.(src_buf) l.(lex_p) l.(line) n l.(peek_tok).
Definition set_peek_tok (t : token) (l : lexer) : lexer := mk_lexer l.(src_buf) l.(lex_p) l.(line) l.(peeked) t.

(** [p[k]], and [p += k]. *)
Definition at_p (k : Z) : M lexer Z := l ← mget; must (aget l.(src_buf) (l.(lex_p) + k)).
Definition advance (k : Z) : M lexer unit := mmod (λ l, set_p (l.(lex_p) + k) l).

(** More turns than any loop over the source takes. *)
Definition lex_fuel : M lexer nat := l ← mget; mret (S (length l.(src_buf))).

Definition lex_init (src : list Z) : M lexer unit :=
  mmod (λ l, mk_lexer src 0 1 0 l.(peek_tok)).

(** A [while] loop that moves [p] over the characters that pass a test. *)
Definition skip_while (test : Z → bool) : M lexer unit :=
  n ← lex_fuel;
  mwhile n (λ _,
    c ← at_p 0;
    if test c then advance 1;; mret (inl tt) else mret (inr tt)) tt.

Definition skip_ws : M lexer unit :=
  n ← lex_fuel;
  mwhile n (λ _,
    skip_while (λ c, (c =? 32) || (c =? 9) || (c =? 13));;
    c ← at_p 0;
    if c =? 10 then
      l ← mget;
      k ← int (l.(line) + 1);
      mmod (set_line k);;
      advance 1;;
      mret (inl tt)
    else if c =? 59 then
      skip_while (λ c, nz c && negb (c =? 10));;
      mret (inl tt)
    else mret (inr tt)) tt.

Definition isdigit (c : Z) : bool := (48 <=? c) && (c <=? 57).
Definition isxdigit (c : Z) : bool :=
  isdigit c || ((97 <=? c) && (c <=? 102)) || ((65 <=? c) && (c <=? 70)).
Definition isalnum (c : Z) : bool :=
  isdigit c || ((97 <=? c) && (c <=? 122)) || ((65 <=? c) && (c <=? 90)).

(** The characters [!$%&*+-./:<=>?_~^]. *)
Definition is_sym_char (c : Z) : bool :=
  isalnum c ||
  existsb (Z.eqb c) [33; 36; 37; 38; 42; 43; 45; 46; 47; 58; 60; 61; 62; 63; 95; 126; 94].

Definition make (k : tok_kind) : M lexer token := l ← mget; mret (mk_token k 0 None 0 l.(line)).

(** [p++; return make(k);] *)
Definition make1 (k : tok_kind) : M lexer (option token) :=
  advance 1;; t ← make k; mret (Some t).

(** After the first character of [#t] or [#f]. *)
Definition lex_bool : M lexer (option token) :=
  advance 1;;
  let rest k := advance 1;; c ← at_p 0; if is_sym_char c then mret None else t ← make k; mret (Some t) in
  c ← at_p 0;
  if c =? 116 then rest TOK_TRUE
  else if c =? 102 then rest TOK_FALSE
  else mret None.

(** The character after a backslash. *)
Definition escape (c : Z) : option Z :=
  if c =? 110 then Some 10
  else if c =? 116 then Some 9
  else if c =? 114 then Some 13
  else if c =? 92 then Some 92
  else if c =? 34 then Some 34
  else if c =? 48 then Some 0
  else None.

(** One character of a string literal. *)
Definition lex_char (c : Z) : M lexer (option Z) :=
  if c =? 92 then
    advance 1;;
    e ← at_p 0;
    match escape e with
    | Some ch => advance 1;; mret (Some ch)
    | None => mret None
    end
  else if c =? 10 then mret None
  else advance 1;; mret (Some c).

(** What [xmalloc] and [realloc] leave in new memory is never read. *)
Definition lex_string : M lexer (option token) :=
  advance 1;;
  n ← lex_fuel;
  r ⇐ ewhile n (λ '(buf, cap, len),
    c ← at_p 0;
    if (c =? 0) || (c =? 34) then mret (Some (inr (buf, cap, len)))
    else
      ch ⇐ lex_char c;
      let '(buf, cap) := if len + 1 >=? cap then (buf ++ replicate (Z.to_nat cap) 0, cap * 2) else (buf, cap) in
      buf ← must (aset buf len ch);
      mret (Some (inl (buf, cap, len + 1)))) (replicate 16 0, 16, 0);
  let '(buf, cap, len) := r in
  c ← at_p 0;
  if negb (c =? 34) then mret None
  else
    advance 1;;
    buf ← must (aset buf len 0);
    t ← make TOK_STR;
    mret (Some (set_slen (s32 len) (set_sval buf t))).

Definition xdigit (c : Z) : Z :=
  if (48 <=? c) && (c <=? 57) then c - 48
  else if (97 <=? c) && (c <=? 102) then 10 + c - 97
  else 10 + c - 65.

(** A loop that accumulates the digits of a number. *)
Definition lex_digits (test : Z → bool) (add : Z → Z → M lexer Z) : M lexer Z :=
  fuel ← lex_fuel;
  mwhile fuel (λ n,
    c ← at_p 0;
    if test c then n ← add n c; advance 1;; mret (inl n) else mret (inr n)) 0.

Definition hex_digits : M lexer Z :=
  lex_digits isxdigit (λ n c, m ← long (n << 4); mret (m .| xdigit c)).
Definition dec_digits : M lexer Z :=
  lex_digits isdigit (λ n c, m ← long (n * 10); long (m + (c - 48))).

Definition lex_number (c : Z) : M lexer (option token) :=
  let sign := if c =? 45 then -1 else 1 in
  (if (c =? 45) || (c =? 43) then advance 1 else mret tt);;
  c0 ← at_p 0;
  c1 ← (if c0 =? 48 then at_p 1 else mret 0);
  n ⇐ (if (c0 =? 48) && ((c1 =? 120) || (c1 =? 88)) then
         advance 2;;
         c ← at_p 0;
         if negb (isxdigit c) then mret None
         else n ← hex_digits; mret (Some n)
       else n ← dec_digits; mret (Some n));
  t ← make TOK_NUM;
  v ← long (sign * n);
  mret (Some (set_nval v t)).

(** [xstrndup] of the characters from [start] to [p]. *)
Definition lex_symbol : M lexer (option token) :=
  l ← mget;
  let start := l.(lex_p) in
  skip_while is_sym_char;;
  t ← make TOK_SYM;
  l ← mget;
  bs ← must (aslice l.(src_buf) start (l.(lex_p) - start));
  mret (Some (set_sval (bs ++ [0]) t)).

(** The token that starts at [p]. *)
Definition lex_tok : M lexer (option token) :=
  t ← make TOK_EOF;
  c ← at_p 0;
  if c =? 0 then mret (Some t)
  else if c =? 40 then make1 TOK_LPAREN
  else if c =? 41 then make1 TOK_RPAREN
  else if c =? 39 then make1 TOK_QUOTE
  else if c =? 35 then lex_bool
  else if c =? 34 then lex_string
  else
    c1 ← (if (c =? 45) || (c =? 43) || (c =? 46) then at_p 1 else mret 0);
    if isdigit c || (((c =? 45) || (c =? 43)) && isdigit c1) then lex_number c
    else if (c =? 46) && negb (is_sym_char c1) then make1 TOK_DOT
    else if is_sym_char c then lex_symbol
    else mret None.

Definition lex_one : M lexer (option token) :=
  skip_ws;;
  lex_tok.

Definition lex_next : M lexer (option token) :=
  l ← mget;
  if nz l.(peeked) then
    mmod (set_peeked 0);;
    mret (Some l.(peek_tok))
  else lex_one.

Definition lex_peek : M lexer (option token) :=
  l ← mget;
  if negb (nz l.(peeked)) then
    t ⇐ lex_one;
    mmod (set_peek_tok t);;
    mmod (set_peeked 1);;
    mret (Some t)
  else mret (Some l.(peek_tok)).

(** ** The process *)

Record scm : Type := mk_scm { lx : lexer; mem : gc_mem; out : list Z }.

Definition in_lex {A} (m : M lexer A) : M scm A := λ s,
  match m s.(lx) with Some (a, l) => Some (a, mk_scm l s.(mem) s.(out)) | None => None end.
Definition in_gc {A} (m : M gc_mem A) : M scm A := λ s,
  match m s.(mem) with Some (a, w) => Some (a, mk_scm s.(lx) w s.(out)) | None => None end.

Definition puts (bs : list Z) : M scm unit := mmod (λ s, mk_scm s.(lx) s.(mem) (s.(out) ++ bs)).

(** The bytes of a string literal of the source. *)
Definition str (s : string) : list Z := (λ a, Z.of_N (Ascii.N_of_ascii a)) <$> String.list_ascii_of_string s.

(** ** The reader *)

Section read.
Context (malloc : nat → gmap Z gc_obj → Z → Z) (uninit : gc_mem → Z).

Definition declare : M gc_mem nat := w ← mget; enter (uninit w).

(** [cell = gc_cons(h, elem, VAL_NIL)], appended to the list from [head] to
    [tail], four variables on the stack. *)
Definition append_cell (head tail elem cell : nat) : M gc_mem (option unit) :=
  e ← load_var elem;
  c ⇐ gc_cons malloc e VAL_NIL;
  store_var cell c;;
  h ← load_var head;
  (if IS_NIL h then c ← load_var cell; store_var head c
   else t ← load_var tail; c ← load_var cell; gc_set_cdr t c);;
  c ← load_var cell;
  store_var tail c;;
  mret (Some tt).

(** The declarations and [gc_push] calls at the start of [read_list] and
    [scm_read_all]. *)
Definition list_vars : M gc_mem (option (nat * nat * nat * nat)) :=
  head ← enter VAL_NIL;
  tail ← enter VAL_NIL;
  elem ← declare;
  cell ← declare;
  _ ⇐ gc_push head;
  _ ⇐ gc_push tail;
  _ ⇐ gc_push elem;
  _ ⇐ gc_push cell;
  mret (Some (head, tail, elem, cell)).

(** [gc_pop(h, n); return x;] at the end of a function with [n] variables. *)
Definition pop_result (n x : nat) : M gc_mem Z :=
  gc_pop (Z.of_nat n);;
  v ← load_var x;
  leave n;;
  mret v.

(** One turn of the loop of [read_list]. *)
Definition read_item (head tail elem cell : nat) (read_datum : M scm (option Z)) :
    M scm (option (unit + unit)) :=
  t ⇐ in_lex lex_peek;
  match t.(kind) with
  | TOK_EOF => mret None
  | TOK_RPAREN => _ ⇐ in_lex lex_next; mret (Some (inr tt))
  | TOK_DOT =>
      _ ⇐ in_lex lex_next;
      h ← in_gc (load_var head);
      if IS_NIL h then mret None
      else
        e ⇐ read_datum;
        in_gc (store_var elem e);;
        t ⇐ in_lex lex_next;
        if decide (t.(kind) ≠ TOK_RPAREN) then mret None
        else
          tl ← in_gc (load_var tail);
          e ← in_gc (load_var elem);
          in_gc (gc_set_cdr tl e);;
          mret (Some (inr tt))
  | _ =>
      e ⇐ read_datum;
      in_gc (store_var elem e);;
      _ ⇐ in_gc (append_cell head tail elem cell);
      mret (Some (inl tt))
  end.

Definition read_list (fuel : nat) (read_datum : M scm (option Z)) : M scm (option Z) :=
  vs ⇐ in_gc list_vars;
  let '(head, tail, elem, cell) := vs in
  _ ⇐ ewhile fuel (λ _, read_item head tail elem cell read_datum) tt;
  v ← in_gc (pop_result 4 head);
  mret (Some v).

(** The list around a quoted datum, in the variable [v] of [read_datum]. *)
Definition make_quote (v : nat) (quoted : Z) : M gc_mem (option Z) :=
  c ⇐ gc_cons malloc quoted VAL_NIL;
  store_var v c;;
  q ⇐ gc_symbol malloc (str "quote" ++ [0]);
  c ← load_var v;
  c ⇐ gc_cons malloc q c;
  store_var v c;;
  r ← pop_result 1 v;
  mret (Some r).

(** The case [TOK_QUOTE] of [read_datum]. *)
Definition read_quote (read_datum : M scm (option Z)) : M scm (option Z) :=
  v ← in_gc (enter VAL_NIL);
  _ ⇐ in_gc (gc_push v);
  quoted ⇐ read_datum;
  in_gc (make_quote v quoted).

(** Every level of the recursion and every turn of a loop consumes a token. *)
Fixpoint read_datum (fuel : nat) : M scm (option Z) :=
  match fuel with
  | O => ub
  | S fuel =>
      t ⇐ in_lex lex_next;
      match t.(kind) with
      | TOK_NUM => mret (Some (MAKE_FIX (s32 t.(nval))))
      | TOK_STR => s ← must t.(sval); in_gc (gc_string malloc s t.(slen))
      | TOK_SYM => s ← must t.(sval); in_gc (gc_symbol malloc s)
      | TOK_TRUE => mret (Some VAL_TRUE)
      | TOK_FALSE => mret (Some VAL_FALSE)
      | TOK_LPAREN => read_list fuel (read_datum fuel)
      | TOK_QUOTE => read_quote (read_datum fuel)
      | TOK_RPAREN | TOK_DOT | TOK_EOF => mret None
      end
  end.

(** Twice the length of the source, see [rem] in SchemeLex. *)
Definition read_fuel : M scm nat := s ← mget; mret (S (2 * length s.(lx).(src_buf))).

Definition scm_read : M scm (option Z) :=
  t ⇐ in_lex lex_peek;
  if decide (t.(kind) = TOK_EOF) then mret (Some VAL_NIL)
  else fuel ← read_fuel; read_datum fuel.

(** One turn of the loop of [scm_read_all]. *)
Definition read_form (head tail form cell : nat) (fuel : nat) : M scm (option (unit + unit)) :=
  t ⇐ in_lex lex_peek;
  if decide (t.(kind) = TOK_EOF) then mret (Some (inr tt))
  else
    e ⇐ read_datum fuel;
    in_gc (store_var form e);;
    _ ⇐ in_gc (append_cell head tail form cell);
    mret (Some (inl tt)).

Definition scm_read_all : M scm (option Z) :=
  vs ⇐ in_gc list_vars;
  let '(head, tail, form, cell) := vs in
  fuel ← read_fuel;
  _ ⇐ ewhile fuel (λ _, read_form head tail form cell fuel) tt;
  v ← in_gc (pop_result 4 head);
  mret (Some v).
End read.

(** ** The printer *)

(** [printf] with [%d]. *)
Fixpoint digits (fuel : nat) (n : Z) : list Z :=
  match fuel with
  | O => []
  | S fuel => if n <? 10 then [48 + n] else digits fuel (n / 10) ++ [48 + n mod 10]
  end.

Definition dec (z : Z) : list Z := if z <? 0 then 45 :: digits 10 (- z) else digits 10 z.

(** The C string at the start of an array, without its terminator. *)
Fixpoint c_string (l : list Z) : option (list Z) :=
  match l with
  | [] => None
  | b :: l => if b =? 0 then Some [] else s ← c_string l; Some (b :: s)
  end.

(** The text of a symbol or of a string object. *)
Definition get_text (v : Z) : M scm (list Z) := d ← in_gc (get_str v); must (c_string d.2).

Definition is_pair (v : Z) : M scm bool :=
  if IS_PTR v then o ← in_gc (deref v); mret (o.(type) =? OBJ_PAIR) else mret false.

Fixpoint scm_print (fuel : nat) (v : Z) : M scm unit :=
  match fuel with
  | O => ub
  | S fuel =>
      if IS_NIL v then puts (str "()")
      else if v =? VAL_TRUE then puts (str "#t")
      else if v =? VAL_FALSE then puts (str "#f")
      else if IS_FIX v then puts (dec (GET_FIX v))
      else if negb (IS_PTR v) then puts (str "#<unknown>")
      else
        o ← in_gc (deref v);
        if o.(type) =? OBJ_SYMBOL then bs ← get_text v; puts bs
        else if o.(type) =? OBJ_STRING then bs ← get_text v; puts ([34] ++ bs ++ [34])
        else if o.(type) =? OBJ_PAIR then
          puts (str "(");;
          x ← in_gc (gc_car v);
          scm_print fuel x;;
          rest ← in_gc (gc_cdr v);
          rest ← mwhile (S := scm) (A := Z) (B := Z) fuel (λ rest,
            b ← is_pair rest;
            if (b : bool) then
              puts (str " ");;
              x ← in_gc (gc_car rest);
              scm_print fuel x;;
              rest ← in_gc (gc_cdr rest);
              mret (inl rest)
            else mret (inr rest)) rest;
          (if negb (IS_NIL rest) then puts (str " . ");; scm_print fuel rest else mret tt);;
          puts (str ")")
        else if o.(type) =? OBJ_CLOSURE then puts (str "#<closure>")
        else mret tt
  end.

Definition scm_println (fuel : nat) (v : Z) : M scm unit :=
  scm_print fuel v;;
  puts [10].

(** ** [tinscheme -p]

    The part of [main] behind the option; [src] are the bytes of the file and
    the 0 that [slurp] appends. *)
Definition main_print (malloc : nat → gmap Z gc_obj → Z → Z) (uninit : gc_mem → Z) (src : list Z) :
    M scm (option unit) :=
  program ← in_gc (enter VAL_NIL);
  in_gc gc_init;;
  _ ⇐ in_gc (gc_push program);
  in_lex (lex_init src);;
  v ⇐ scm_read_all malloc uninit;
  in_gc (store_var program v);;
  cur ← in_gc (load_var program);
  s ← mget;
  let fuel := S (size s.(mem).(objs)) in
  mwhile (S := scm) (A := Z) (B := unit) fuel (λ cur,
    if IS_NIL cur then mret (inr tt)
    else
      x ← in_gc (gc_car cur);
      scm_println fuel x;;
      cur ← in_gc (gc_cdr cur);
      mret (inl cur)) cur;;
  in_gc (gc_pop 1);;
  in_gc gc_destroy;;
  mret (Some tt).
