(* ===== verification/SchemeLex.v ===== *)
(** * The lexer of TinScheme is total

    Every call returns or dies without reading outside of the source, moves
    forward, and gives tokens that the reader can use; and what the loops of
    the lexer compute. *)

From stdpp Require Import gmap.
From S2P Require Import Prelude Gc Scheme.

(** ** Sources and positions *)

(** A C string that is not too long for the line counter. *)
Record good_src (src : list Z) : Prop := {
  gs_end : ∃ txt, src = txt ++ [0] ∧ 0 ∉ txt;
  gs_len : Z.of_nat (length src) < 2 ^ 31
}.

Record pos_ok (l : lexer) : Prop := {
  po_src : good_src l.(src_buf);
  po_p : 0 <= l.(lex_p) < Z.of_nat (length l.(src_buf));
  po_line : 1 <= l.(line) <= l.(lex_p) + 1
}.

(** The character [i] places after [p]. *)
Definition char_at (l : lexer) (i : Z) : option Z := aget l.(src_buf) (l.(lex_p) + i).

(** The lexer has moved from [l] to [l']. *)
Record Moves (l l' : lexer) : Prop := {
  mo_ok : pos_ok l';
  mo_src : l'.(src_buf) = l.(src_buf);
  mo_p : l.(lex_p) <= l'.(lex_p);
  mo_peeked : l'.(peeked) = l.(peeked);
  mo_tok : l'.(peek_tok) = l.(peek_tok)
}.

Lemma Moves_refl l : pos_ok l → Moves l l.
Proof. by split. Qed.

Lemma Moves_trans l1 l2 l3 : Moves l1 l2 → Moves l2 l3 → Moves l1 l3.
Proof. intros [] []. split; (done || congruence || lia). Qed.

(** A read of the source that is not behind the end. *)
Lemma char_in l i : pos_ok l → 0 <= l.(lex_p) + i < Z.of_nat (length l.(src_buf)) → ∃ c, char_at l i = Some c.
Proof. intros _ Hi. destruct (aget_in l.(src_buf) (l.(lex_p) + i)) as (c & Hc & _); [lia|]. by exists c. Qed.

(** Only the last character is 0. *)
Lemma char_nz l i c :
  pos_ok l → 0 <= l.(lex_p) + i → char_at l i = Some c → c ≠ 0 → l.(lex_p) + i + 1 < Z.of_nat (length l.(src_buf)).
Proof.
  intros [[(txt & E & H0) _] _ _] Hi Hc Hz. unfold char_at in Hc. rewrite aget_lookup in Hc by lia.
  rewrite E, length_app in *. simpl. destruct (decide (Z.to_nat (l.(lex_p) + i) < length txt)%nat); [lia|].
  pose proof (lookup_lt_Some _ _ _ Hc) as Hlt. rewrite length_app in Hlt. simpl in Hlt.
  rewrite lookup_app_r in Hc by lia. replace (_ - _)%nat with 0%nat in Hc by lia. simpl in Hc. congruence.
Qed.

Lemma char_at_p k l i : char_at (set_p (l.(lex_p) + k) l) i = char_at l (k + i).
Proof. unfold char_at. simpl. f_equal. lia. Qed.

Lemma wp_at_p i c l (Q : Z → lexer → Prop) : char_at l i = Some c → Q c l → wp (at_p i) Q l.
Proof. intros Hc HQ. apply wp_bind, wp_get. by eapply wp_must. Qed.

Lemma set_p_moves l k :
  pos_ok l → 0 <= k → l.(lex_p) + k < Z.of_nat (length l.(src_buf)) → Moves l (set_p (l.(lex_p) + k) l).
Proof. intros [] ??. split; simpl; [split; simpl; (done || lia)|done|lia|done|done]. Qed.

Lemma wp_lex_fuel l (Q : nat → lexer → Prop) : Q (S (length l.(src_buf))) l → wp lex_fuel Q l.
Proof. done. Qed.

Lemma wp_advance k l (Q : unit → lexer → Prop) : Q tt (set_p (l.(lex_p) + k) l) → wp (advance k) Q l.
Proof. done. Qed.

(** ** Runs of characters *)

(** The [k] characters from [p] on, and not the next one, pass a test. *)
Record run (test : Z → bool) (l : lexer) (k : Z) : Prop := {
  run_nonneg : 0 <= k;
  run_pass i : 0 <= i < k → ∃ c, char_at l i = Some c ∧ test c = true;
  run_stop : ∃ c, char_at l k = Some c ∧ test c = false
}.

Lemma run_unique test l k k' : run test l k → run test l k' → k = k'.
Proof.
  intros [N1 P1 (c1 & S1 & F1)] [N2 P2 (c2 & S2 & F2)]. destruct (Z.lt_trichotomy k k') as [Hl|[->|Hl]]; [|done|].
  - destruct (P2 k) as (c & Hc & Ht); [lia|]. congruence.
  - destruct (P1 k') as (c & Hc & Ht); [lia|]. congruence.
Qed.

Lemma run_in test l k : pos_ok l → test 0 = false → run test l k → l.(lex_p) + k < Z.of_nat (length l.(src_buf)).
Proof.
  intros Hl H0 [Hk _ (c & Hc & _)]. unfold char_at in Hc. rewrite aget_lookup in Hc by (pose proof (po_p _ Hl); lia).
  apply lookup_lt_Some in Hc. lia.
Qed.

Lemma set_p_id l : set_p (l.(lex_p) + 0) l = l.
Proof. destruct l. unfold set_p. simpl. by rewrite Z.add_0_r. Qed.

Lemma run_exists test l : pos_ok l → test 0 = false → ∃ k, run test l k.
Proof.
  intros Hl H0. remember (Z.to_nat (Z.of_nat (length l.(src_buf)) - l.(lex_p))) as n eqn:Hn.
  revert l Hl Hn. induction n as [|n IH]; intros l Hl Hn; [pose proof (po_p _ Hl); lia|].
  destruct (char_in l 0) as [c Hc]; [done|pose proof (po_p _ Hl); lia|].
  destruct (test c) eqn:Ht; [|exists 0; split; [done|lia|by exists c]].
  assert (Hz : c ≠ 0) by congruence. apply char_nz in Hc as Hlt; [|done|pose proof (po_p _ Hl); lia|done].
  assert (HM : Moves l (set_p (l.(lex_p) + 1) l)) by (apply set_p_moves; (done || lia)).
  destruct (IH (set_p (l.(lex_p) + 1) l)) as (k & [K1 K2 K3]); [apply HM|simpl; lia|].
  exists (1 + k). split; [lia| |by rewrite char_at_p in K3].
  intros i Hi. destruct (decide (i = 0)) as [->|Hne]; [by exists c|].
  destruct (K2 (i - 1)) as (d & Hd & ?); [lia|]. rewrite char_at_p in Hd. exists d.
  by replace (1 + (i - 1)) with i in Hd by lia.
Qed.

Lemma wp_skip_while test l k (Q : unit → lexer → Prop) :
  pos_ok l → run test l k → l.(lex_p) + k < Z.of_nat (length l.(src_buf)) →
  Q tt (set_p (l.(lex_p) + k) l) → wp (skip_while test) Q l.
Proof.
  intros Hl [K1 K2 (c & Hc & Hf)] Hk HQ. apply wp_bind, wp_lex_fuel. pose proof (po_p _ Hl) as Hp.
  apply (wp_mwhile (λ _ l', ∃ j, 0 <= j <= k ∧ l' = set_p (l.(lex_p) + j) l)
    (λ _ l', Z.to_nat (l.(lex_p) + k - l'.(lex_p)))).
  - exists 0. split; [lia|by rewrite set_p_id].
  - lia.
  - intros _ l' (j & Hj & ->). apply wp_bind. destruct (decide (j = k)) as [->|Hne].
    + eapply wp_at_p; [by rewrite char_at_p, Z.add_0_r|]. rewrite Hf. by apply wp_ret.
    + destruct (K2 j) as (d & Hd & Ht); [lia|].
      eapply wp_at_p; [by rewrite char_at_p, Z.add_0_r|]. rewrite Ht.
      apply wp_bind, wp_advance, wp_ret. simpl. split; [|lia]. exists (j + 1). split; [lia|].
      unfold set_p. simpl. f_equal. lia.
Qed.

(** [I i n] holds when [n] has been computed from the first [i] digits. *)
Lemma wp_lex_digits test add (I : Z → Z → Prop) l k (Q : Z → lexer → Prop) :
  pos_ok l → run test l k → l.(lex_p) + k < Z.of_nat (length l.(src_buf)) → I 0 0 →
  (∀ i c n l', 0 <= i < k → char_at l i = Some c → test c = true → I i n →
    wp (add n c) (λ m l'', l'' = l' ∧ I (i + 1) m) l') →
  (∀ n, I k n → Q n (set_p (l.(lex_p) + k) l)) → wp (lex_digits test add) Q l.
Proof.
  intros Hl [K1 K2 (c & Hc & Hf)] Hk HI Hadd HQ. apply wp_bind, wp_lex_fuel. pose proof (po_p _ Hl) as Hp.
  apply (wp_mwhile (λ n l', ∃ j, 0 <= j <= k ∧ l' = set_p (l.(lex_p) + j) l ∧ I j n)
    (λ _ l', Z.to_nat (l.(lex_p) + k - l'.(lex_p)))).
  - exists 0. split; [lia|by rewrite set_p_id].
  - lia.
  - intros n l' (j & Hj & -> & Hn). apply wp_bind. destruct (decide (j = k)) as [->|Hne].
    + eapply wp_at_p; [by rewrite char_at_p, Z.add_0_r|]. rewrite Hf. by apply wp_ret, HQ.
    + destruct (K2 j) as (d & Hd & Ht); [lia|].
      eapply wp_at_p; [by rewrite char_at_p, Z.add_0_r|]. rewrite Ht.
      apply wp_bind. eapply wp_mono; [apply (Hadd j); (done || lia)|]. intros m l'' [-> Hm].
      apply wp_bind, wp_advance, wp_ret. simpl. split; [|lia]. exists (j + 1). split; [lia|].
      split; [|done]. unfold set_p. simpl. f_equal. lia.
Qed.

(** ** Blanks and comments *)

Lemma wp_skip_ws l :
  pos_ok l → wp skip_ws (λ _ l', Moves l l') l.
Proof.
  intros Hl. apply wp_bind, wp_lex_fuel. pose proof (po_p _ Hl) as Hp.
  apply (wp_mwhile (λ _ l', Moves l l')
    (λ _ l', Z.to_nat (Z.of_nat (length l.(src_buf)) - l'.(lex_p)))); [by apply Moves_refl|lia|].
  intros _ l1 H1. pose proof (mo_ok _ _ H1) as Hok1. pose proof (po_p _ Hok1) as Hp1.
  assert (Hend : ∀ test k, test 0 = false → run test l1 k → Moves l (set_p (l1.(lex_p) + k) l1)).
  { intros test k H0 Hr. eapply Moves_trans; [exact H1|]. apply set_p_moves; [done|apply Hr|by eapply run_in]. }
  set (blank := λ c, (c =? 32) || (c =? 9) || (c =? 13)).
  destruct (run_exists blank l1) as [k Hk]; [done|done|].
  pose proof (run_in _ _ _ Hok1 eq_refl Hk) as Hin.
  apply wp_bind. eapply wp_skip_while; [done|exact Hk|done|].
  pose proof (Hend blank k eq_refl Hk) as H2. set (l2 := set_p (lex_p l1 + k) l1) in *.
  pose proof (mo_ok _ _ H2) as Hok2. pose proof (po_p _ Hok2) as Hp2. pose proof (po_line _ Hok2) as Hn2.
  pose proof (run_nonneg _ _ _ Hk) as Hk0. rewrite <-(mo_src _ _ H1). assert (Hle : lex_p l1 <= lex_p l2) by (simpl; lia).
  destruct (char_in l2 0) as [c Hc]; [done|lia|].
  apply wp_bind. eapply wp_at_p; [done|]. apply wp_if; intros Hnl.
  - apply Z.eqb_eq in Hnl. subst c. apply char_nz in Hc as Hlt; [|done|lia|done].
    apply wp_bind, wp_get, wp_bind, wp_int; [pose proof (gs_len _ (po_src _ Hok2)); lia|].
    apply wp_bind, wp_mod, wp_bind, wp_advance, wp_ret. split.
    + eapply Moves_trans; [exact H2|]. split; simpl; [|done|lia|done|done].
      split; simpl; [apply Hok2|simpl in *; lia|simpl in *; lia].
    + simpl in *. lia.
  - apply wp_if; intros Hsc; [|by apply wp_ret].
    set (other := λ c, nz c && negb (c =? 10)). destruct (run_exists other l2) as [j Hj]; [done|done|].
    pose proof (run_in _ _ _ Hok2 eq_refl Hj) as Hin2.
    apply wp_bind. eapply wp_skip_while; [done|exact Hj|done|]. apply wp_ret.
    assert (0 < j).
    { destruct (decide (j = 0)) as [->|]; [|pose proof (run_nonneg _ _ _ Hj); lia].
      destruct (run_stop _ _ _ Hj) as (d & Hd & Hf). assert (d = c) by congruence. subst d.
      apply Z.eqb_eq in Hsc. subst c. done. }
    split; [|simpl in *; lia]. eapply Moves_trans; [exact H2|]. apply set_p_moves; [done|lia|done].
Qed.

(** ** Tokens *)

(** What the reader relies on. *)
Definition tok_ok (t : token) : Prop :=
  match t.(kind) with
  | TOK_STR => ∃ bs, t.(sval) = Some bs ∧ 0 <= t.(slen) < 2 ^ 31 ∧ t.(slen) <= Z.of_nat (length bs)
  | TOK_SYM => ∃ bs, t.(sval) = Some (bs ++ [0]) ∧ 0 ∉ bs ∧ Z.of_nat (length bs) < 2 ^ 31
  | _ => True
  end.

(** Number literals have at most 15 digits. *)
Definition short_runs (src : list Z) : Prop :=
  ∀ i k, 0 <= i → (∀ j, 0 <= j < k → ∃ c, aget src (i + j) = Some c ∧ isxdigit c = true) → k <= 15.

(** A token, or the end of the source, or an error. *)
Definition lexed (l : lexer) (r : option token) (l' : lexer) : Prop :=
  Moves l l' ∧
  match r with
  | Some t => tok_ok t ∧ (t.(kind) ≠ TOK_EOF → l.(lex_p) < l'.(lex_p))
  | None => True
  end.

Lemma lexed_moves l l1 r l2 : Moves l l1 → lexed l1 r l2 → lexed l r l2.
Proof.
  intros H1 [H2 H3]. split; [by eapply Moves_trans|]. destruct r as [t|]; [|done].
  destruct H3 as [H3 H4]. split; [done|]. intros Hk. specialize (H4 Hk). pose proof (mo_p _ _ H1). lia.
Qed.

Lemma wp_make k l (Q : token → lexer → Prop) : Q (mk_token k 0 None 0 l.(line)) l → wp (make k) Q l.
Proof. done. Qed.

(** The next character is not 0. *)
Lemma next_moves l c : pos_ok l → char_at l 0 = Some c → c ≠ 0 → Moves l (set_p (l.(lex_p) + 1) l).
Proof.
  intros Hl Hc Hz. apply char_nz in Hc; [|done|pose proof (po_p _ Hl); lia|done]. apply set_p_moves; (done || lia).
Qed.

Lemma wp_make1 k l c :
  pos_ok l → char_at l 0 = Some c → c ≠ 0 → k ∉ [TOK_STR; TOK_SYM] → wp (make1 k) (lexed l) l.
Proof.
  intros Hl Hc Hz Hk. apply wp_bind, wp_advance, wp_bind, wp_make, wp_ret.
  split; [by eapply next_moves|]. split; [|simpl; lia]. destruct k; (done || set_solver).
Qed.

Lemma wp_lex_bool l c : pos_ok l → char_at l 0 = Some c → c ≠ 0 → wp lex_bool (lexed l) l.
Proof.
  intros Hl Hc Hz. apply wp_bind, wp_advance. pose proof (next_moves _ _ Hl Hc Hz) as H1.
  set (l1 := set_p (lex_p l + 1) l) in *. pose proof (mo_ok _ _ H1) as Hok1.
  destruct (char_in l1 0) as [c1 Hc1]; [done|pose proof (po_p _ Hok1); lia|].
  assert (Hrest : ∀ k, c1 ≠ 0 → k ∉ [TOK_STR; TOK_SYM] →
    wp (advance 1;; c ← at_p 0; if is_sym_char c then mret None else t ← make k; mret (Some t)) (lexed l) l1).
  { intros k Hz1 Hk. pose proof (next_moves _ _ Hok1 Hc1 Hz1) as H2. apply wp_bind, wp_advance.
    set (l2 := set_p (lex_p l1 + 1) l1) in *. pose proof (mo_ok _ _ H2) as Hok2.
    assert (H12 : Moves l l2) by by eapply Moves_trans.
    destruct (char_in l2 0) as [c2 Hc2]; [done|pose proof (po_p _ Hok2); lia|].
    apply wp_bind. eapply wp_at_p; [done|]. apply wp_if; intros _; [by apply wp_ret|].
    apply wp_bind, wp_make, wp_ret. split; [done|]. split; [destruct k; (done || set_solver)|simpl; lia]. }
  cbv zeta. apply wp_bind. eapply wp_at_p; [done|].
  apply wp_if; intros E1; [apply Hrest; [lia|set_solver]|].
  apply wp_if; intros E2; [apply Hrest; [lia|set_solver]|]. by apply wp_ret.
Qed.

(** One character is appended to the buffer of a string literal, which grows
    when it is full. *)
Lemma grow_ok (buf : list Z) cap len ch :
  cap = Z.of_nat (length buf) → 0 <= len < cap →
  ∃ buf' cap', (let '(buf, cap) := if len + 1 >=? cap then (buf ++ replicate (Z.to_nat cap) 0, cap * 2) else (buf, cap) in
    (aset buf len ch, cap)) = (Some buf', cap') ∧ cap' = Z.of_nat (length buf') ∧ len + 1 < cap' ∧
    take (Z.to_nat (len + 1)) buf' = take (Z.to_nat len) buf ++ [ch].
Proof.
  intros Hc Hl. set (b2 := if len + 1 >=? cap then buf ++ replicate (Z.to_nat cap) 0 else buf).
  set (c2 := if len + 1 >=? cap then cap * 2 else cap).
  assert (Hb2 : Z.of_nat (length b2) = c2 ∧ len + 1 < c2 ∧ take (Z.to_nat len) b2 = take (Z.to_nat len) buf).
  { unfold b2, c2. rewrite Z.geb_leb. destruct (Z.leb_spec cap (len + 1)); [|split_and!; (done || lia)].
    rewrite length_app, length_replicate. split_and!; [lia|lia|]. by rewrite take_app_le by lia. }
  destruct Hb2 as (B1 & B2 & B3). exists (<[Z.to_nat len := ch]> b2), c2. split_and!.
  - unfold b2, c2 in *. destruct (len + 1 >=? cap); rewrite aset_in by lia; done.
  - rewrite length_insert. lia.
  - done.
  - replace (Z.to_nat (len + 1)) with (S (Z.to_nat len)) by lia.
    erewrite take_S_r; [|apply list_lookup_insert_eq; lia]. by rewrite take_insert_ge, B3 by lia.
Qed.

Lemma wp_lex_char l c :
  pos_ok l → char_at l 0 = Some c → c ≠ 0 →
  wp (lex_char c) (λ r l', Moves l l' ∧ (is_Some r → l.(lex_p) < l'.(lex_p))) l.
Proof.
  intros Hl Hc Hz. pose proof (next_moves _ _ Hl Hc Hz) as H1. unfold lex_char.
  apply wp_if; intros E.
  - apply wp_bind, wp_advance. set (l1 := set_p (lex_p l + 1) l) in *. pose proof (mo_ok _ _ H1) as Hok1.
    destruct (char_in l1 0) as [e He]; [done|pose proof (po_p _ Hok1); lia|].
    apply wp_bind. eapply wp_at_p; [done|]. destruct (escape e) as [ch|] eqn:Ee.
    + assert (Hze : e ≠ 0) by (intros ->; done). apply wp_bind, wp_advance, wp_ret.
      split; [eapply Moves_trans; [exact H1|by eapply next_moves]|simpl; lia].
    + apply wp_ret. split; [done|]. by intros [].
  - apply wp_if; intros _; [apply wp_ret; split; [by apply Moves_refl|by intros []]|].
    apply wp_bind, wp_advance, wp_ret. split; [done|simpl; lia].
Qed.

Lemma wp_lex_string l :
  pos_ok l → char_at l 0 = Some 34 → wp lex_string (lexed l) l.
Proof.
  intros Hl Hc. pose proof (next_moves _ _ Hl Hc ltac:(done)) as H1. apply wp_bind, wp_advance.
  set (l1 := set_p (lex_p l + 1) l) in *. pose proof (mo_ok _ _ H1) as Hok1. pose proof (po_p _ Hok1) as Hp1.
  apply wp_bind, wp_lex_fuel, wp_on_exit.
  apply (wp_ewhile (λ '(buf, cap, len) l', Moves l1 l' ∧ cap = Z.of_nat (length buf) ∧ 0 <= len < cap ∧
      len <= l'.(lex_p) - l1.(lex_p))
    (λ _ l', Z.to_nat (Z.of_nat (length l1.(src_buf)) - l'.(lex_p)))).
  - split_and!; [by apply Moves_refl|done|lia|lia|lia].
  - lia.
  - intros [[buf cap] len] l2 (H2 & Hcap & Hlen & Hle). pose proof (mo_ok _ _ H2) as Hok2.
    pose proof (po_p _ Hok2) as Hp2. rewrite (mo_src _ _ H2) in Hp2.
    destruct (char_in l2 0) as [c Hc2]; [done|pose proof (po_p _ Hok2); lia|].
    apply wp_bind. eapply wp_at_p; [done|]. apply wp_if; intros Hstop.
    + apply wp_ret, wp_bind. eapply wp_at_p; [done|]. assert (H02 : Moves l l2) by by eapply Moves_trans.
      apply wp_if; intros Hq; [by apply wp_ret|].
      apply wp_bind, wp_advance, wp_bind. rewrite aset_in by lia. apply wp_some, wp_bind, wp_make, wp_ret.
      assert (Hs : s32 len = len).
      { pose proof (gs_len _ (po_src _ Hok1)). unfold s32, u32. rewrite Z.mod_small by lia.
        by destruct (Z.ltb_spec len 2147483648); [|lia]. }
      split; [eapply Moves_trans; [exact H02|by eapply next_moves; [done|done|lia]]|].
      split; [|simpl in *; lia]. eexists. split; [done|]. simpl. rewrite Hs, length_insert.
      pose proof (gs_len _ (po_src _ Hok1)). lia.
    + apply orb_false_iff in Hstop as [Hz _]. apply wp_on_exit.
      eapply wp_mono; [apply (wp_lex_char l2); [done|done|lia]|]. intros [ch|] l3 [H3 Hlt].
      * destruct (grow_ok buf cap len ch Hcap Hlen) as (buf' & cap' & E & G1 & G2 & _).
        destruct (if len + 1 >=? cap then _ else _) as [b2 c2]. injection E as E ->. 
        apply wp_bind. rewrite E. apply wp_some, wp_ret.
        assert (lex_p l2 < lex_p l3) by (apply Hlt; eauto).
        split; [split_and!; [by eapply Moves_trans|done|lia|lia|lia]|].
        pose proof (po_p _ (mo_ok _ _ H3)) as Hp3. rewrite (mo_src _ _ H3), (mo_src _ _ H2) in Hp3. lia.
      * split; [|done]. do 2 (eapply Moves_trans; [done|]). done.
Qed.

(** A string literal of plain characters. *)
Definition plain (c : Z) : bool := negb ((c =? 0) || (c =? 34) || (c =? 92) || (c =? 10)).

Lemma wp_lex_plain l bs (Q : option token → lexer → Prop) :
  pos_ok l → char_at l 0 = Some 34 → Forall (λ c, plain c = true) bs →
  (∀ i, (i < length bs)%nat → char_at l (1 + Z.of_nat i) = bs !! i) →
  char_at l (1 + Z.of_nat (length bs)) = Some 34 →
  (∀ buf, take (length bs) buf = bs → (length bs <= length buf)%nat →
    Q (Some (mk_token TOK_STR 0 (Some buf) (Z.of_nat (length bs)) l.(line)))
      (set_p (l.(lex_p) + (2 + Z.of_nat (length bs))) l)) →
  wp lex_string Q l.
Proof.
  intros Hl Hc Hbs Hat Hend HQ. apply wp_bind, wp_advance, wp_bind, wp_lex_fuel, wp_on_exit. simpl length.
  pose proof (po_p _ Hl) as Hp.
  assert (Hlen : 1 + Z.of_nat (length bs) + lex_p l < Z.of_nat (length l.(src_buf))).
  { apply char_nz in Hend; [lia|done|lia|done]. }
  apply (wp_ewhile (λ '(buf, cap, len) l', ∃ j, (j <= length bs)%nat ∧ len = Z.of_nat j ∧
      l' = set_p (lex_p l + (1 + Z.of_nat j)) l ∧ cap = Z.of_nat (length buf) ∧ len < cap ∧ take j buf = take j bs)
    (λ _ l', Z.to_nat (Z.of_nat (length l.(src_buf)) - l'.(lex_p)))).
  - exists 0%nat. split_and!; try done; lia.
  - simpl. lia.
  - intros [[buf cap] len] l2 (j & Hj & -> & -> & Hcap & Hlt & Ht). apply wp_bind.
    destruct (decide (j = length bs)) as [->|Hne].
    + eapply wp_at_p; [by rewrite char_at_p, Z.add_0_r|]. simpl.
      apply wp_ret, wp_bind. eapply wp_at_p; [by rewrite char_at_p, Z.add_0_r|].
      simpl. apply wp_bind, wp_advance, wp_bind. rewrite aset_in by lia.
      apply wp_some, wp_bind, wp_make, wp_ret.
      assert (Hs : s32 (Z.of_nat (length bs)) = Z.of_nat (length bs)).
      { pose proof (gs_len _ (po_src _ Hl)). unfold s32, u32. rewrite Z.mod_small by lia.
        by destruct (Z.ltb_spec (Z.of_nat (length bs)) 2147483648); [|lia]. }
      unfold set_slen, set_sval. cbn [kind nval sval slen tok_line line set_p]. rewrite Hs.
      unfold set_p at 1. cbn [lex_p src_buf line peeked peek_tok set_p].
      replace (_ + 1) with (lex_p l + (2 + Z.of_nat (length bs))) by lia. apply HQ.
      * rewrite Nat2Z.id, take_insert_ge by lia. by rewrite Ht, firstn_all.
      * rewrite length_insert. lia.
    + destruct (lookup_lt_is_Some_2 bs j) as [c Hcj]; [lia|].
      eapply wp_at_p; [rewrite char_at_p, Z.add_0_r, Hat by lia; exact Hcj|].
      pose proof (Forall_lookup_1 _ _ _ _ Hbs Hcj) as Hpl. unfold plain in Hpl.
      destruct (Z.eqb_spec c 0), (Z.eqb_spec c 34), (Z.eqb_spec c 92) as [|H92], (Z.eqb_spec c 10) as [|H10]; try done.
      simpl. apply wp_on_exit. unfold lex_char.
      destruct (Z.eqb_spec c 92), (Z.eqb_spec c 10); try done. apply wp_bind, wp_advance, wp_ret.
      destruct (grow_ok buf cap (Z.of_nat j) c Hcap ltac:(lia)) as (buf' & cap' & E & G1 & G2 & G3).
      destruct (if _ + 1 >=? cap then _ else _) as [b2 c2]. injection E as E ->.
      apply wp_bind. rewrite E. apply wp_some, wp_ret. split; [|simpl; lia].
      exists (S j). split_and!; [lia|lia| |done|lia|].
      * unfold set_p. simpl. f_equal. lia.
      * replace (S j) with (Z.to_nat (Z.of_nat j + 1)) by lia. rewrite G3, Nat2Z.id, Ht.
        replace (Z.to_nat (Z.of_nat j + 1)) with (S j) by lia. by rewrite (take_S_r _ _ _ Hcj).
Qed.

(** ** Numbers and symbols *)

Lemma xdigit_range c : isxdigit c = true → 0 <= xdigit c < 16.
Proof. unfold isxdigit, isdigit, xdigit. intros. repeat case_match; lia. Qed.

Lemma isdigit_xdigit c : isdigit c = true → isxdigit c = true.
Proof. unfold isxdigit. by intros ->. Qed.

Lemma runs_bound test l k :
  pos_ok l → short_runs l.(src_buf) → (∀ c, test c = true → isxdigit c = true) → run test l k → k <= 15.
Proof.
  intros Hl Hs Ht Hr. apply (Hs l.(lex_p)); [apply Hl|]. intros j Hj.
  destruct (run_pass _ _ _ Hr j Hj) as (c & Hc & ?). exists c. auto.
Qed.

Lemma pow16 i : 0 <= i < 15 → 16 ^ (i + 1) = 16 * 16 ^ i ∧ 0 < 16 ^ i <= 16 ^ 14.
Proof.
  intros Hi. rewrite Z.pow_add_r by lia. split; [lia|]. split; [apply Z.pow_pos_nonneg; lia|].
  apply Z.pow_le_mono_r; lia.
Qed.

Lemma wp_hex_digits l :
  pos_ok l → short_runs l.(src_buf) →
  wp hex_digits (λ n l', Moves l l' ∧ 0 <= n < 2 ^ 60) l.
Proof.
  intros Hl Hs. destruct (run_exists isxdigit l Hl eq_refl) as [k Hk].
  pose proof (runs_bound _ _ _ Hl Hs (λ c H, H) Hk). pose proof (run_in _ _ _ Hl eq_refl Hk) as Hin.
  pose proof (run_nonneg _ _ _ Hk).
  apply (wp_lex_digits _ _ (λ i n, 0 <= n < 16 ^ i) l k); [done|done|done|done| |].
  - intros i c n l' Hi _ Hc%xdigit_range Hn. destruct (pow16 i) as [P1 P2]; [lia|]. change (16 ^ 14) with (2 ^ 56) in P2.
    rewrite Z.shiftl_mul_pow2 by lia. apply wp_bind, wp_long; [lia|]. apply wp_ret. split; [done|].
    rewrite lor_low by (unfold inw; lia). lia.
  - intros n Hn. split; [by apply set_p_moves|]. assert (16 ^ k <= 16 ^ 15) by (apply Z.pow_le_mono_r; lia).
    change (16 ^ 15) with (2 ^ 60) in *. lia.
Qed.

(** The value of decimal digits. *)
Definition dec_value (bs : list Z) : Z := foldl (λ n c, n * 10 + (c - 48)) 0 bs.

Lemma dec_value_snoc bs c : dec_value (bs ++ [c]) = dec_value bs * 10 + (c - 48).
Proof. unfold dec_value. by rewrite foldl_app. Qed.

Lemma wp_dec_digits l bs (Q : Z → lexer → Prop) :
  pos_ok l → (length bs <= 15)%nat → Forall (λ c, isdigit c = true) bs →
  (∀ i, (i < length bs)%nat → char_at l (Z.of_nat i) = bs !! i) →
  run isdigit l (Z.of_nat (length bs)) →
  (0 <= dec_value bs < 2 ^ 60 → Q (dec_value bs) (set_p (l.(lex_p) + Z.of_nat (length bs)) l)) →
  wp dec_digits Q l.
Proof.
  intros Hl Hlen Hbs Hat Hk HQ. pose proof (run_in _ _ _ Hl eq_refl Hk) as Hin.
  apply (wp_lex_digits _ _ (λ i n, n = dec_value (take (Z.to_nat i) bs) ∧ 0 <= n < 16 ^ i) l (Z.of_nat (length bs)));
    [done|done|done|done| |].
  - intros i c n l' Hi Hc Hd [-> Hn]. destruct (pow16 i) as [P1 P2]; [lia|]. change (16 ^ 14) with (2 ^ 56) in P2.
    assert (Hb : bs !! Z.to_nat i = Some c) by (rewrite <-Hat, Z2Nat.id by lia; done).
    assert (48 <= c <= 57) by (unfold isdigit in Hd; lia).
    apply wp_bind, wp_long; [lia|]. apply wp_long; [lia|]. split; [done|].
    replace (Z.to_nat (i + 1)) with (S (Z.to_nat i)) by lia. rewrite (take_S_r _ _ _ Hb), dec_value_snoc. lia.
  - intros n [-> Hn]. rewrite Nat2Z.id, firstn_all in *. apply HQ.
    assert (16 ^ Z.of_nat (length bs) <= 16 ^ 15) by (apply Z.pow_le_mono_r; lia).
    change (16 ^ 15) with (2 ^ 60) in *. lia.
Qed.

(** The characters of a run. *)
Lemma run_chars test l k :
  pos_ok l → run test l k →
  ∃ bs, length bs = Z.to_nat k ∧ Forall (λ c, test c = true) bs ∧
    (∀ i, (i < length bs)%nat → char_at l (Z.of_nat i) = bs !! i) ∧
    bs = take (Z.to_nat k) (drop (Z.to_nat l.(lex_p)) l.(src_buf)).
Proof.
  intros Hl [K1 K2 (c & Hc & _)]. pose proof (po_p _ Hl) as Hp.
  set (bs := take (Z.to_nat k) (drop (Z.to_nat l.(lex_p)) l.(src_buf))).
  assert (Hat : ∀ i, (i < Z.to_nat k)%nat → char_at l (Z.of_nat i) = bs !! i).
  { intros i Hi. unfold bs, char_at. rewrite aget_lookup, lookup_take_lt, lookup_drop by lia. f_equal. lia. }
  unfold char_at in Hc. rewrite aget_lookup in Hc by lia. apply lookup_lt_Some in Hc.
  assert (Hlen : length bs = Z.to_nat k) by (unfold bs; rewrite length_take, length_drop; lia).
  exists bs. split_and!; [done| |by rewrite Hlen|done]. apply Forall_lookup. intros i d Hi.
  pose proof (lookup_lt_Some _ _ _ Hi). rewrite Hlen in *. rewrite <-Hat in Hi by done.
  destruct (K2 (Z.of_nat i)) as (e & He & ?); [lia|]. congruence.
Qed.

Lemma wp_dec_total l :
  pos_ok l → short_runs l.(src_buf) →
  wp dec_digits (λ n l', Moves l l' ∧ 0 <= n < 2 ^ 60 ∧
    ∀ c, char_at l 0 = Some c → isdigit c = true → l.(lex_p) < l'.(lex_p)) l.
Proof.
  intros Hl Hs. destruct (run_exists isdigit l Hl eq_refl) as [k Hk].
  pose proof (runs_bound _ _ _ Hl Hs isdigit_xdigit Hk). pose proof (run_in _ _ _ Hl eq_refl Hk) as Hin.
  pose proof (run_nonneg _ _ _ Hk). destruct (run_chars _ _ _ Hl Hk) as (bs & Hb & Hd & Hat & _).
  apply (wp_dec_digits l bs); [done|lia|done|done|by rewrite Hb, Z2Nat.id|]. intros Hn.
  rewrite Hb, Z2Nat.id by done. split_and!; [by apply set_p_moves|lia|lia|]. intros c Hc Hdc. simpl.
  destruct (decide (k = 0)) as [->|]; [|lia]. destruct (run_stop _ _ _ Hk) as (d & Hd0 & ?). congruence.
Qed.

Lemma wp_lex_number l c :
  pos_ok l → short_runs l.(src_buf) → char_at l 0 = Some c →
  (isdigit c = true ∨ (c = 45 ∨ c = 43) ∧ ∃ d, char_at l 1 = Some d ∧ isdigit d = true) →
  wp (lex_number c) (lexed l) l.
Proof.
  intros Hl Hs Hc Hd. unfold lex_number. cbv zeta. apply wp_bind.
  apply (wp_mono _ (λ _ l', Moves l l' ∧ ∃ d, char_at l' 0 = Some d ∧ isdigit d = true)).
  { apply wp_if; intros Hsign.
    - destruct Hd as [Hd|[Hd (d & Hd1 & Hd2)]]; [unfold isdigit in Hd; lia|].
      apply wp_advance. split; [eapply next_moves; [done|done|lia]|]. exists d. by rewrite char_at_p.
    - destruct Hd as [Hd|[Hd _]]; [|lia]. apply wp_ret. split; [by apply Moves_refl|by exists c]. }
  intros [] l1 (H1 & d & Hd1 & Hd2). pose proof (mo_ok _ _ H1) as Hok1. pose proof (po_p _ Hok1) as Hp1.
  rewrite <-(mo_src _ _ H1) in Hs.
  assert (Hdz : d ≠ 0) by (intros ->; done). pose proof Hd1 as Hlt. apply char_nz in Hlt; [|done|lia|done].
  apply wp_bind. eapply wp_at_p; [done|]. apply wp_bind.
  apply (wp_mono _ (λ c1 l', l' = l1 ∧ (d = 48 → char_at l1 1 = Some c1))).
  { destruct (char_in l1 1) as [c1 Hc1]; [done|lia|]. apply wp_if; intros E; [by eapply wp_at_p|].
    apply wp_ret. split; [done|lia]. }
  intros c1 l2 [-> Hc1]. apply wp_on_exit.
  apply (wp_mono _ (λ r l', Moves l1 l' ∧ match r with
    | Some n => 0 <= n < 2 ^ 60 ∧ l1.(lex_p) < l'.(lex_p) | None => True end)).
  { apply wp_if; intros Hx.
    - apply andb_true_iff in Hx as [Hx0 Hx1]. assert (Hz1 : c1 ≠ 0) by lia.
      apply wp_bind, wp_advance. assert (H2 : Moves l1 (set_p (lex_p l1 + 2) l1)).
      { apply set_p_moves; [done|lia|]. pose proof (Hc1 ltac:(lia)) as H. apply char_nz in H; [lia|done|lia|done]. }
      set (l2 := set_p (lex_p l1 + 2) l1) in *. pose proof (mo_ok _ _ H2) as Hok2.
      destruct (char_in l2 0) as [e He]; [done|pose proof (po_p _ Hok2); lia|].
      apply wp_bind. eapply wp_at_p; [done|]. apply wp_if; intros _; [by apply wp_ret|].
      apply wp_bind. eapply wp_mono; [by apply wp_hex_digits|]. intros n l3 [H3 Hn].
      apply wp_ret. split; [by eapply Moves_trans|]. split; [lia|]. pose proof (mo_p _ _ H3). simpl in *. lia.
    - apply wp_bind. eapply wp_mono; [by apply wp_dec_total|]. intros n l3 (H3 & Hn & Hlt3).
      apply wp_ret. split_and!; [done|lia|lia|by eapply Hlt3]. }
  intros [n|] l3 [H3 Hn]; [|split; [by eapply Moves_trans|done]].
  apply wp_bind, wp_make, wp_bind, wp_long; [case_match; lia|]. apply wp_ret.
  split; [by eapply Moves_trans|]. split; [done|]. intros _. pose proof (mo_p _ _ H1). lia.
Qed.

Lemma wp_lex_symbol_run l bs (Q : option token → lexer → Prop) :
  pos_ok l → run is_sym_char l (Z.of_nat (length bs)) →
  bs = take (length bs) (drop (Z.to_nat l.(lex_p)) l.(src_buf)) →
  Q (Some (mk_token TOK_SYM 0 (Some (bs ++ [0])) 0 l.(line))) (set_p (l.(lex_p) + Z.of_nat (length bs)) l) →
  wp lex_symbol Q l.
Proof.
  intros Hl Hr Hbs HQ. pose proof (run_in _ _ _ Hl eq_refl Hr) as Hin. pose proof (po_p _ Hl).
  apply wp_bind, wp_get, wp_bind. eapply wp_skip_while; [done|done|done|].
  apply wp_bind, wp_make, wp_bind, wp_get, wp_bind. simpl.
  replace (_ + _ - _) with (Z.of_nat (length bs)) by lia. rewrite aslice_in by lia.
  rewrite Nat2Z.id, <-Hbs. by apply wp_some, wp_ret.
Qed.

Lemma wp_lex_symbol l c :
  pos_ok l → char_at l 0 = Some c → is_sym_char c = true → wp lex_symbol (lexed l) l.
Proof.
  intros Hl Hc Hs. destruct (run_exists is_sym_char l Hl eq_refl) as [k Hk].
  pose proof (run_nonneg _ _ _ Hk). pose proof (run_in _ _ _ Hl eq_refl Hk) as Hin.
  destruct (run_chars _ _ _ Hl Hk) as (bs & Hb & Hf & _ & E).
  apply (wp_lex_symbol_run l bs); [done|by rewrite Hb, Z2Nat.id|by rewrite Hb|].
  rewrite Hb, Z2Nat.id by done. split; [by apply set_p_moves|]. split.
  - exists bs. split_and!; [done| |].
    + intros H0. rewrite Forall_forall in Hf. by specialize (Hf 0 H0).
    + pose proof (gs_len _ (po_src _ Hl)). pose proof (po_p _ Hl). lia.
  - intros _. simpl. destruct (decide (k = 0)) as [->|]; [|lia].
    destruct (run_stop _ _ _ Hk) as (d & Hd & ?). congruence.
Qed.

(** ** The entry points *)

Lemma wp_lex_one l : pos_ok l → short_runs l.(src_buf) → wp lex_one (lexed l) l.
Proof.
  intros Hl Hs. apply wp_bind. eapply wp_mono; [by apply wp_skip_ws|]. intros [] l1 H1.
  pose proof (mo_ok _ _ H1) as Hok1. pose proof (po_p _ Hok1) as Hp1. rewrite <-(mo_src _ _ H1) in Hs.
  assert (HL : ∀ r l', lexed l1 r l' → lexed l r l') by (intros r l'; by apply lexed_moves).
  apply wp_bind, wp_make. destruct (char_in l1 0) as [c Hc]; [done|lia|].
  apply wp_bind. eapply wp_at_p; [done|].
  apply wp_if; intros Hz; [apply wp_ret; split; [done|]; by split|].
  assert (Hcz : c ≠ 0) by lia. pose proof Hc as Hlt. apply char_nz in Hlt; [|done|lia|done].
  assert (HM : ∀ k, k ∉ [TOK_STR; TOK_SYM] → wp (make1 k) (lexed l) l1).
  { intros k Hk. eapply wp_mono; [by eapply wp_make1|apply HL]. }
  apply wp_if; intros _; [apply HM; set_solver|]. apply wp_if; intros _; [apply HM; set_solver|].
  apply wp_if; intros _; [apply HM; set_solver|].
  apply wp_if; intros _; [eapply wp_mono; [by eapply wp_lex_bool|apply HL]|].
  apply wp_if; intros Hq; [apply Z.eqb_eq in Hq; subst c; eapply wp_mono; [by eapply wp_lex_string|apply HL]|].
  apply wp_bind. apply (wp_mono _ (λ c1 l', l' = l1 ∧ (c = 45 ∨ c = 43 → char_at l1 1 = Some c1))).
  { destruct (char_in l1 1) as [c1 Hc1]; [done|lia|]. apply wp_if; intros E; [by eapply wp_at_p|].
    apply wp_ret. split; [done|lia]. }
  intros c1 l2 [-> Hc1]. apply wp_if; intros Hn.
  { eapply wp_mono; [apply wp_lex_number; [done|done|done|]|apply HL].
    apply orb_true_iff in Hn as [Hn|Hn]; [by left|]. apply andb_true_iff in Hn as [Hn Hd]. right.
    split; [lia|]. exists c1. split; [apply Hc1; lia|done]. }
  apply wp_if; intros _; [apply HM; set_solver|].
  apply wp_if; intros Hsym; [eapply wp_mono; [by eapply wp_lex_symbol|apply HL]|]. apply wp_ret.
  by split.
Qed.

(** The state of the lexer between calls, and what is left to read: two for a
    character, one for a token that was peeked. *)
Record lex_ok (l : lexer) : Prop := {
  lo_pos : pos_ok l;
  lo_runs : short_runs l.(src_buf);
  lo_tok : nz l.(peeked) = true → tok_ok l.(peek_tok)
}.

Definition rem (l : lexer) : nat :=
  (2 * Z.to_nat (Z.of_nat (length l.(src_buf)) - 1 - l.(lex_p)) +
   if nz l.(peeked) && bool_decide (l.(peek_tok).(kind) ≠ TOK_EOF) then 1 else 0)%nat.

Lemma wp_lex_next l :
  lex_ok l → wp lex_next (λ r l', lex_ok l' ∧ l'.(src_buf) = l.(src_buf) ∧ (rem l' <= rem l)%nat ∧
    match r with
    | Some t => tok_ok t ∧ (t.(kind) ≠ TOK_EOF → (rem l' < rem l)%nat) ∧ nz l'.(peeked) = false
    | None => True
    end) l.
Proof.
  intros [H1 H2 H3]. apply wp_bind, wp_get, wp_if; intros Hp.
  - apply wp_bind, wp_mod, wp_ret. unfold rem. simpl. rewrite Hp. simpl. split_and!; [|done| |by apply H3| |done].
    + split; [destruct H1; by split|done|done].
    + case_bool_decide; lia.
    + intros Hk. rewrite bool_decide_eq_true_2 by done. lia.
  - eapply wp_mono; [by apply wp_lex_one|]. intros r l' [HM Hr].
    pose proof (po_p _ (mo_ok _ _ HM)) as Hp'. pose proof (mo_p _ _ HM).
    assert (Hpk : nz l'.(peeked) = false) by by rewrite (mo_peeked _ _ HM).
    unfold rem. rewrite (mo_src _ _ HM), Hp, Hpk in *. simpl. split_and!; [|done|lia|].
    + split; [apply HM|by rewrite (mo_src _ _ HM)|congruence].
    + destruct r as [t|]; [|done]. split_and!; [apply Hr| |done]. intros Hk. destruct Hr as [_ Hr]. specialize (Hr Hk). lia.
Qed.

Lemma wp_lex_peek l :
  lex_ok l → wp lex_peek (λ r l', lex_ok l' ∧ l'.(src_buf) = l.(src_buf) ∧ (rem l' <= rem l)%nat ∧
    match r with Some t => tok_ok t ∧ nz l'.(peeked) = true ∧ l'.(peek_tok) = t | None => True end) l.
Proof.
  intros Hok. pose proof Hok as [H1 H2 H3]. apply wp_bind, wp_get, wp_if; intros Hp.
  - apply negb_true_iff in Hp. apply wp_on_exit. eapply wp_mono; [by apply wp_lex_one|].
    intros r l' [HM Hr]. pose proof (po_p _ (mo_ok _ _ HM)) as Hp'. pose proof (mo_p _ _ HM).
    rewrite (mo_src _ _ HM) in Hp'. destruct r as [t|].
    + apply wp_bind, wp_mod, wp_bind, wp_mod, wp_ret. destruct Hr as [Ht Hlt].
      unfold rem. simpl. rewrite (mo_src _ _ HM), Hp. simpl.
      split_and!; [|done| |done|done|done].
      * split; simpl; [pose proof (mo_ok _ _ HM) as []; by split|by rewrite (mo_src _ _ HM)|done].
      * case_bool_decide as Hk; [specialize (Hlt Hk)|]; lia.
    + assert (Hpk : nz l'.(peeked) = false) by by rewrite (mo_peeked _ _ HM).
      unfold rem. rewrite (mo_src _ _ HM), Hp, Hpk. simpl. split_and!; [|done|lia|done].
      split; [apply HM|by rewrite (mo_src _ _ HM)|congruence].
  - apply negb_false_iff in Hp. apply wp_ret. split_and!; [done|done|done|by apply H3|done|done].
Qed.
