(* ===== verification/SchemeData.v ===== *)
(** * Data on the heap

    The data of TinScheme as trees, their representation by the objects of
    the collector, and lists under construction. *)

From stdpp Require Import gmap.
From S2P Require Import Prelude Gc GcInv Scheme.

Inductive datum : Type :=
  | DNil
  | DBool (b : bool)
  | DNum (z : Z)
  | DStr (bs : list Z)
  | DSym (bs : list Z)
  | DPair (a d : datum).

#[global] Instance datum_eq_dec : EqDecision datum.
Proof. solve_decision. Defined.

(** A list of [ds] that ends in [e]. *)
Definition dlist (ds : list datum) (e : datum) : datum := foldr DPair e ds.

(** The number of objects of a datum. *)
Fixpoint cells (d : datum) : nat :=
  match d with
  | DNil | DBool _ | DNum _ => 0
  | DStr _ | DSym _ => 1
  | DPair a d => S (cells a + cells d)
  end.

(** The bytes of a string or symbol object: the text, the terminator and
    padding. *)
Definition text_body (bs : list Z) (b : gc_body) : Prop :=
  ∃ pad, b = Str (Z.of_nat (length bs)) (bs ++ 0 :: pad).

(** The value [v] represents a datum by the objects [X], which are used once. *)
Fixpoint rep (m : gmap Z gc_obj) (d : datum) (v : Z) (X : gset Z) : Prop :=
  match d with
  | DNil => v = VAL_NIL ∧ X = ∅
  | DBool b => v = (if b then VAL_TRUE else VAL_FALSE) ∧ X = ∅
  | DNum z => v = MAKE_FIX z ∧ X = ∅
  | DStr bs => (∃ b, content m v = Some (OBJ_STRING, b) ∧ text_body bs b) ∧ X = {[v]}
  | DSym bs => (∃ b, content m v = Some (OBJ_SYMBOL, b) ∧ text_body bs b) ∧ X = {[v]}
  | DPair a d => ∃ x y X1 X2, content m v = Some (OBJ_PAIR, Pair x y) ∧ rep m a x X1 ∧ rep m d y X2 ∧
      X1 ## X2 ∧ v ∉ X1 ∪ X2 ∧ X = {[v]} ∪ (X1 ∪ X2)
  end.

(** The terminator ends a C string. *)
Lemma strlen_sym bs : 0 ∉ bs → strlen (bs ++ [0]) = Some (Z.of_nat (length bs)) ∧ c_string (bs ++ [0]) = Some bs.
Proof.
  induction bs as [|b bs IH]; intros Hz; [done|]. destruct IH as [IH1 IH2]; [set_solver|]. simpl.
  destruct (Z.eqb_spec b 0); [set_solver|]. rewrite IH1, IH2. simpl. split; [f_equal; lia|done].
Qed.

(** ** Immediate values *)

Lemma land3 v : v .& 3 = v mod 4.
Proof. change 3 with (Z.ones 2). by rewrite Z.land_ones. Qed.

Lemma MAKE_FIX_eq z : MAKE_FIX z = (u64 (s32 z) * 4) mod 2 ^ 64 + 1.
Proof.
  unfold MAKE_FIX, TAG_FIX. rewrite Z.shiftl_mul_pow2 by lia. change (2 ^ 2) with 4. unfold u64 at 1.
  change 18446744073709551616 with (2 ^ 64).
  replace ((u64 (s32 z) * 4) mod 2 ^ 64) with (((u64 (s32 z) * 4) mod 2 ^ 64) / 2 ^ 1 * 2 ^ 1) at 1.
  - rewrite lor_low by (unfold inw; lia). f_equal. Z.to_euclidean_division_equations. lia.
  - Z.to_euclidean_division_equations. lia.
Qed.

Lemma MAKE_FIX_tag z : MAKE_FIX z mod 4 = 1.
Proof. rewrite MAKE_FIX_eq. Z.to_euclidean_division_equations. lia. Qed.

Lemma fix_not_ptr z : IS_PTR (MAKE_FIX z) = false.
Proof. unfold IS_PTR, TAG_MASK, TAG_OBJ. by rewrite land3, MAKE_FIX_tag. Qed.

Lemma fix_is_fix z : IS_FIX (MAKE_FIX z) = true.
Proof. unfold IS_FIX, TAG_MASK, TAG_FIX. by rewrite land3, MAKE_FIX_tag. Qed.

(** A number comes back from its tagged form. *)
Lemma GET_MAKE_FIX z : GET_FIX (MAKE_FIX z) = s32 z.
Proof.
  pose proof (s32_range z) as Hr. unfold GET_FIX, intptr. rewrite Z.shiftr_div_pow2 by lia. change (2 ^ 2) with 4.
  rewrite MAKE_FIX_eq. set (s := s32 z) in *. clearbody s. clear z.
  assert (Hs : (u64 s * 4) mod 2 ^ 64 = if s <? 0 then 4 * s + 2 ^ 64 else 4 * s).
  { unfold u64. destruct (Z.ltb_spec s 0); Z.to_euclidean_division_equations; lia. }
  rewrite Hs. unfold u64. destruct (Z.ltb_spec s 0).
  - rewrite (Z.mod_small _ 18446744073709551616) by lia. destruct (Z.ltb_spec (4 * s + 2 ^ 64 + 1) (2 ^ 63)); [lia|].
    replace ((4 * s + 2 ^ 64 + 1 - 2 ^ 64) / 4) with s by (Z.to_euclidean_division_equations; lia).
    unfold s32, u32. destruct (Z.ltb_spec (s mod 4294967296) 2147483648); Z.to_euclidean_division_equations; lia.
  - rewrite (Z.mod_small _ 18446744073709551616) by lia. destruct (Z.ltb_spec (4 * s + 1) (2 ^ 63)); [|lia].
    replace ((4 * s + 1) / 4) with s by (Z.to_euclidean_division_equations; lia).
    unfold s32, u32. destruct (Z.ltb_spec (s mod 4294967296) 2147483648); Z.to_euclidean_division_equations; lia.
Qed.

(** ** Representation *)

Lemma rep_ext m m' d v X :
  (∀ a, a ∈ X → content m' a = content m a) → rep m d v X → rep m' d v X.
Proof.
  revert v X. induction d as [| | | | |a IHa d IHd]; intros v X HE; simpl; try done.
  1-2: intros [(b & Hb & ?) ->]; split; [|done]; exists b; by rewrite HE by set_solver.
  intros (x & y & X1 & X2 & Hc & Ha & Hd & Hs & Hv & ->). exists x, y, X1, X2.
  rewrite HE by set_solver. split_and!; try done; [apply IHa|apply IHd]; set_solver.
Qed.

Lemma rep_size m d v X : rep m d v X → size X = cells d.
Proof.
  revert v X. induction d as [| | | | |a IHa d IHd]; intros v X; simpl.
  1-3: by intros [_ ->].
  1-2: intros [_ ->]; apply size_singleton.
  intros (x & y & X1 & X2 & _ & Ha & Hd & Hs & Hv & ->). rewrite size_union, size_singleton by set_solver.
  rewrite size_union by done. by rewrite (IHa _ _ Ha), (IHd _ _ Hd).
Qed.

Lemma content_ptr m a tb : objs_ok m → content m a = Some tb → IS_PTR a = true.
Proof. intros Hm Hc. destruct tb as [t b]. apply content_Some in Hc as (o & Ho & _). by eapply obj_ptr. Qed.

(** The objects of a datum can be reached from its value. *)
Lemma rep_reach m d v X a : objs_ok m → rep m d v X → a ∈ X → IS_PTR v = true ∧ reach m v a.
Proof.
  intros Hm. revert v X. induction d as [| | | | |x IHx y IHy]; intros v X; simpl.
  1-3: intros [_ ->]; set_solver.
  1-2: intros [(b & Hb & _) ->] ->%elem_of_singleton; split; [by eapply content_ptr|reflexivity].
  intros (p & q & X1 & X2 & Hc & Hx & Hy & _ & _ & ->) Hin. split; [by eapply content_ptr|].
  assert (HE : ∀ u, u ∈ [p; q] → IS_PTR u = true → reach m u a → reach m v a).
  { intros u Hu Hp Hr. eapply rtc_l; [|exact Hr]. by exists OBJ_PAIR, (Pair p q). }
  apply elem_of_union in Hin as [->%elem_of_singleton|Hin]; [reflexivity|].
  apply elem_of_union in Hin as [Hin|Hin].
  - destruct (IHx _ _ Hx Hin). eapply HE; [|done..]. set_solver.
  - destruct (IHy _ _ Hy Hin). eapply HE; [|done..]. set_solver.
Qed.

Lemma rep_val_ok m d v X : rep m d v X → val_ok m v.
Proof.
  assert (H : ∀ tb, content m v = Some tb → val_ok m v).
  { intros [t b] Hc _. apply content_Some in Hc as (o & -> & _). eauto. }
  assert (Hi : IS_PTR v = false → val_ok m v) by (intros E Hp; by rewrite E in Hp).
  destruct d as [|b| | | |]; simpl.
  - intros [-> _]. by apply Hi.
  - intros [-> _]. apply Hi. by destruct b.
  - intros [-> _]. apply Hi, fix_not_ptr.
  - intros [(b & ? & _) _]. eauto.
  - intros [(b & ? & _) _]. eauto.
  - intros (? & ? & ? & ? & ? & _). eauto.
Qed.

(** ** Lists under construction

    A list of pairs from [v] to [last], whose last [cdr] is [y]. *)
Inductive lseg (m : gmap Z gc_obj) (last y : Z) : Z → list datum → gset Z → Prop :=
  | lseg_one d x X1 :
      content m last = Some (OBJ_PAIR, Pair x y) → rep m d x X1 → last ∉ X1 →
      lseg m last y last [d] ({[last]} ∪ X1)
  | lseg_cons v v' d ds x X1 X2 :
      content m v = Some (OBJ_PAIR, Pair x v') → rep m d x X1 → lseg m last y v' ds X2 →
      X1 ## X2 → v ∉ X1 ∪ X2 → lseg m last y v (d :: ds) ({[v]} ∪ (X1 ∪ X2)).

Lemma lseg_ext m m' last y v ds X :
  (∀ a, a ∈ X → content m' a = content m a) → lseg m last y v ds X → lseg m' last y v ds X.
Proof.
  intros HE H. induction H as [d x X1 Hc Hr Hn|v v' d ds x X1 X2 Hc Hr Hs IH Hd Hn].
  - apply (lseg_one _ _ _ d x); [rewrite HE by set_solver; done|eapply rep_ext; [|done]; set_solver|done].
  - eapply lseg_cons; [rewrite HE by set_solver; done|eapply rep_ext; [|done]; set_solver|apply IH; set_solver|done|done].
Qed.

Lemma lseg_last m last y v ds X :
  lseg m last y v ds X → last ∈ X ∧ ∃ x, content m last = Some (OBJ_PAIR, Pair x y).
Proof.
  induction 1 as [d x X1 Hc Hr Hn|v v' d ds x X1 X2 Hc Hr Hs [IH1 IH2] Hd Hn]; (split; [set_solver|]); eauto.
Qed.

Lemma lseg_head m last y v ds X : objs_ok m → lseg m last y v ds X → IS_PTR v = true.
Proof. intros Hm. destruct 1; by eapply content_ptr. Qed.

Lemma lseg_reach m last y v ds X a : objs_ok m → lseg m last y v ds X → a ∈ X → reach m v a.
Proof.
  intros Hm H. revert a. induction H as [d x X1 Hc Hr Hn|v v' d ds x X1 X2 Hc Hr Hs IH Hd Hn]; intros a Ha.
  - apply elem_of_union in Ha as [->%elem_of_singleton|Ha]; [reflexivity|].
    destruct (rep_reach _ _ _ _ _ Hm Hr Ha). eapply rtc_l; [|done]. exists OBJ_PAIR, (Pair x y). set_solver.
  - apply elem_of_union in Ha as [->%elem_of_singleton|Ha]; [reflexivity|].
    apply elem_of_union in Ha as [Ha|Ha].
    + destruct (rep_reach _ _ _ _ _ Hm Hr Ha). eapply rtc_l; [|done]. exists OBJ_PAIR, (Pair x v'). set_solver.
    + eapply rtc_l; [|by apply IH]. exists OBJ_PAIR, (Pair x v'). split_and!; [done|set_solver|by eapply lseg_head].
Qed.

(** The last [cdr] is overwritten. *)
Lemma lseg_link m m' last x y y' v ds X :
  content m last = Some (OBJ_PAIR, Pair x y) → content m' last = Some (OBJ_PAIR, Pair x y') →
  (∀ a, a ∈ X → a ≠ last → content m' a = content m a) →
  lseg m last y v ds X → lseg m' last y' v ds X.
Proof.
  intros H1 H2 HE H. induction H as [d z X1 Hc Hr Hn|v v' d ds z X1 X2 Hc Hr Hs IH Hd Hn].
  - simplify_eq. apply (lseg_one _ _ _ d x); [done|eapply rep_ext; [|done]; set_solver|done].
  - pose proof (lseg_last _ _ _ _ _ _ Hs) as [Hl _].
    eapply lseg_cons; [rewrite HE by set_solver; done|eapply rep_ext; [|done]; set_solver| |done|done].
    apply IH. set_solver.
Qed.

(** A complete list. *)
Lemma lseg_close m last y v ds X e Xe :
  lseg m last y v ds X → rep m e y Xe → X ## Xe → rep m (dlist ds e) v (X ∪ Xe).
Proof.
  intros H. induction H as [d x X1 Hc Hr Hn|v v' d ds x X1 X2 Hc Hr Hs IH Hd Hn]; intros He Hdj.
  - exists x, y, X1, Xe. split_and!; try done; set_solver.
  - exists x, v', X1, (X2 ∪ Xe). split_and!; try done; [apply IH; set_solver|set_solver..].
Qed.

(** A list that is one longer. *)
Lemma lseg_snoc m last c v ds X d x y Xd :
  lseg m last c v ds X → content m c = Some (OBJ_PAIR, Pair x y) → rep m d x Xd →
  X ## Xd → c ∉ X ∪ Xd → lseg m c y v (ds ++ [d]) (X ∪ ({[c]} ∪ Xd)).
Proof.
  intros H Hc Hd. induction H as [d' x' X1 Hc' Hr Hn|v v' d' ds x' X1 X2 Hc' Hr Hs IH Hdj Hn]; intros Hdx Hcx; simpl.
  - replace ({[last]} ∪ X1 ∪ ({[c]} ∪ Xd)) with ({[last]} ∪ (X1 ∪ ({[c]} ∪ Xd))) by set_solver.
    eapply lseg_cons; [done|done|apply (lseg_one _ _ _ d x); [done|done|set_solver]|set_solver|set_solver].
  - replace ({[v]} ∪ (X1 ∪ X2) ∪ ({[c]} ∪ Xd)) with ({[v]} ∪ (X1 ∪ (X2 ∪ ({[c]} ∪ Xd)))) by set_solver.
    eapply lseg_cons; [done|done|apply IH; set_solver|set_solver|set_solver].
Qed.
