(* ===== verification/SchemeRead.v ===== *)
(** * The reader builds the data of the source

    A reference reader, which returns trees, and the proof that the reader of
    src/portable-compiler/demo/scheme/parse.c builds the same data on the
    collected heap. *)

From stdpp Require Import gmap.
From S2P Require Import Prelude Gc GcInv GcCollect GcAlloc GcMake Scheme SchemeLex SchemeData.

#[local] Arguments Z.mul : simpl never.
#[local] Arguments Z.of_nat : simpl never.
#[local] Arguments rem : simpl never.

(** ** The reference reader

    It calls the same lexer.  The second result is the number of entries of
    the root stack that the reader needs for the datum: four for a list, one
    for a quotation, and two for the construction of a pair. *)

Fixpoint ref_items (fuel : nat) (rd : M lexer (option (datum * nat))) (first : bool) :
    M lexer (option (datum * nat)) :=
  match fuel with
  | O => ub
  | S fuel =>
      t ⇐ lex_peek;
      match t.(kind) with
      | TOK_EOF => mret None
      | TOK_RPAREN => _ ⇐ lex_next; mret (Some (DNil, 0%nat))
      | TOK_DOT =>
          _ ⇐ lex_next;
          if first then mret None
          else
            d ⇐ rd;
            t ⇐ lex_next;
            if decide (t.(kind) ≠ TOK_RPAREN) then mret None else mret (Some d)
      | _ =>
          d ⇐ rd;
          r ⇐ ref_items fuel rd false;
          mret (Some (DPair d.1 r.1, (d.2 `max` 2 `max` r.2)%nat))
      end
  end.

Definition ref_quote (r : datum * nat) : datum * nat :=
  (DPair (DSym (str "quote")) (DPair r.1 DNil), S (r.2 `max` 2)).

Fixpoint ref_datum (fuel : nat) : M lexer (option (datum * nat)) :=
  match fuel with
  | O => ub
  | S fuel =>
      t ⇐ lex_next;
      match t.(kind) with
      | TOK_NUM => mret (Some (DNum (s32 t.(nval)), 0%nat))
      | TOK_STR => s ← must t.(sval); mret (Some (DStr (take (Z.to_nat t.(slen)) s), 0%nat))
      | TOK_SYM => s ← must t.(sval); bs ← must (c_string s); mret (Some (DSym bs, 0%nat))
      | TOK_TRUE => mret (Some (DBool true, 0%nat))
      | TOK_FALSE => mret (Some (DBool false, 0%nat))
      | TOK_LPAREN => r ⇐ ref_items fuel (ref_datum fuel) true; mret (Some (r.1, (4 + r.2)%nat))
      | TOK_QUOTE => r ⇐ ref_datum fuel; mret (Some (ref_quote r))
      | TOK_RPAREN | TOK_DOT | TOK_EOF => mret None
      end
  end.

(** The forms of a program. *)
Fixpoint ref_forms (fuel : nat) (rd : M lexer (option (datum * nat))) : M lexer (option (list datum * nat)) :=
  match fuel with
  | O => ub
  | S fuel =>
      t ⇐ lex_peek;
      if decide (t.(kind) = TOK_EOF) then mret (Some ([], 0%nat))
      else
        d ⇐ rd;
        r ⇐ ref_forms fuel rd;
        mret (Some (d.1 :: r.1, (d.2 `max` 2 `max` r.2)%nat))
  end.

(** A reader that returns when [fuel] exceeds what is left, and moves on. *)
Definition progress {A} (l : lexer) (r : option A) (l' : lexer) : Prop :=
  lex_ok l' ∧ l'.(src_buf) = l.(src_buf) ∧ (rem l' <= rem l)%nat ∧ (is_Some r → (rem l' < rem l)%nat).

Definition total {A} (fuel : nat) (f : M lexer (option A)) : Prop :=
  ∀ l, lex_ok l → (rem l < fuel)%nat → wp f (progress l) l.

Lemma progress_none {A} l l1 : lex_ok l1 → l1.(src_buf) = l.(src_buf) → (rem l1 <= rem l)%nat →
  progress (A := A) l None l1.
Proof. intros. split_and!; try done; by intros []. Qed.

(** A token that is not the end. *)
Lemma wp_next_tok {A} l (k : token → M lexer (option A)) (Q : option A → lexer → Prop) :
  lex_ok l → (∀ l', progress l (None : option A) l' → Q None l') →
  (∀ t l', tok_ok t → lex_ok l' → l'.(src_buf) = l.(src_buf) → (rem l' <= rem l)%nat →
    (t.(kind) ≠ TOK_EOF → (rem l' < rem l)%nat) → wp (k t) Q l') →
  wp (t ⇐ lex_next; k t) Q l.
Proof.
  intros Hl H0 HQ. apply wp_on_exit. eapply wp_mono; [by apply wp_lex_next|].
  intros [t|] l' (H1 & H2 & H3 & H4); [destruct H4 as (?&?&_); by apply HQ|]. apply H0. by apply progress_none.
Qed.

Lemma wp_peek_tok {A} l (k : token → M lexer (option A)) (Q : option A → lexer → Prop) :
  lex_ok l → (∀ l', progress l (None : option A) l' → Q None l') →
  (∀ t l', lex_ok l' → l'.(src_buf) = l.(src_buf) → (rem l' <= rem l)%nat →
    nz l'.(peeked) = true → l'.(peek_tok) = t → wp (k t) Q l') →
  wp (t ⇐ lex_peek; k t) Q l.
Proof.
  intros Hl H0 HQ. apply wp_on_exit. eapply wp_mono; [by apply wp_lex_peek|].
  intros [t|] l' (H1 & H2 & H3 & H4); [destruct H4 as (_&?&?); by apply HQ|]. apply H0. by apply progress_none.
Qed.

Lemma wp_total {A B} fuel (f : M lexer (option A)) l l1 (k : A → M lexer (option B)) :
  total fuel f → lex_ok l1 → l1.(src_buf) = l.(src_buf) → (rem l1 <= rem l)%nat → (rem l1 < fuel)%nat →
  (∀ a l2, lex_ok l2 → l2.(src_buf) = l.(src_buf) → (rem l2 < rem l1)%nat → wp (k a) (progress l) l2) →
  wp (a ⇐ f; k a) (progress l) l1.
Proof.
  intros Hf H1 H2 H3 H4 HQ. apply wp_on_exit. eapply wp_mono; [by apply Hf|].
  intros [a|] l2 (P1 & P2 & P3 & P4).
  - apply HQ; [done|congruence|]. apply P4. eauto.
  - apply progress_none; [done|congruence|lia].
Qed.

Lemma progress_some {A} l l1 (a : A) :
  lex_ok l1 → l1.(src_buf) = l.(src_buf) → (rem l1 < rem l)%nat → progress l (Some a) l1.
Proof. intros. split_and!; try done; lia. Qed.

(** The token that was peeked is taken: it is not the end. *)
Lemma wp_take_peeked {A} l l1 t (m : M lexer (option A)) :
  lex_ok l1 → l1.(src_buf) = l.(src_buf) → (rem l1 <= rem l)%nat →
  nz l1.(peeked) = true → l1.(peek_tok) = t → t.(kind) ≠ TOK_EOF →
  (∀ l2, lex_ok l2 → l2.(src_buf) = l.(src_buf) → (rem l2 < rem l1)%nat → wp m (progress l) l2) →
  wp (_ ⇐ lex_next; m) (progress l) l1.
Proof.
  intros H1 H2 H3 Hp Ht Hk HQ. apply wp_on_exit.
  apply (wp_mono _ (λ r l2, r = Some t ∧ l2 = set_peeked 0 l1)).
  { apply wp_bind, wp_get. rewrite Hp. apply wp_bind, wp_mod, wp_ret. by rewrite Ht. }
  intros _ l2 [-> ->]. assert (E : lex_next l1 = Some (Some t, set_peeked 0 l1)).
  { unfold lex_next, mbind, M_bind, mget. rewrite Hp. by rewrite <-Ht. }
  pose proof (wp_lex_next l1 H1) as HN. unfold wp in HN. rewrite E in HN.
  destruct HN as (N1 & N2 & N3 & _ & N4 & _). apply HQ; [done|congruence|by apply N4].
Qed.

Lemma ref_items_total fuel n f first : total n f → (fuel <= n)%nat → total fuel (ref_items fuel f first).
Proof.
  intros Hf. revert first. induction fuel as [|fuel IH]; intros first Hn l Hl Hr; [lia|]. simpl.
  apply wp_peek_tok; [done|done|]. intros t l1 H1 H2 H3 H4 H5.
  assert (Hrec : wp (d ⇐ f; r ⇐ ref_items fuel f false;
    mret (Some (DPair d.1 r.1, (d.2 `max` 2 `max` r.2)%nat))) (progress l) l1).
  { eapply wp_total; [done|done|done|done|lia|]. intros d l2 G1 G2 G3.
    eapply wp_total; [apply IH; lia|done|done|lia|lia|]. intros r l3 K1 K2 K3.
    apply wp_ret, progress_some; [done|congruence|lia]. }
  destruct (kind t) eqn:Ek; try exact Hrec.
  - apply wp_ret. by apply progress_none.
  - eapply wp_take_peeked; try done; [congruence|]. intros l2 G1 G2 G3. apply wp_ret, progress_some; [done|done|lia].
  - eapply wp_take_peeked; try done; [congruence|]. intros l2 G1 G2 G3.
    destruct first; [apply wp_ret, progress_none; (done || lia)|].
    eapply wp_total; [done|done|done|lia|lia|]. intros d l3 K1 K2 K3.
    apply wp_next_tok; [done| |].
    + intros l4 (P1 & P2 & P3 & _). apply progress_none; [done|congruence|lia].
    + intros t4 l4 _ Q1 Q2 Q3 _. case_decide; apply wp_ret.
      * apply progress_none; [done|congruence|lia].
      * apply progress_some; [done|congruence|lia].
Qed.

Lemma ref_datum_total fuel : total fuel (ref_datum fuel).
Proof.
  induction fuel as [|fuel IH]; intros l Hl Hr; [lia|]. simpl.
  apply wp_next_tok; [done|done|]. intros t l1 Ht H1 H2 H3 H4.
  assert (Hn : wp (mret None) (progress (A := datum * nat) l) l1) by by apply wp_ret, progress_none.
  assert (Hs : ∀ d, t.(kind) ≠ TOK_EOF → wp (mret (Some d)) (progress (A := datum * nat) l) l1).
  { intros d Hk. by apply wp_ret, progress_some; [..|apply H4]. }
  unfold tok_ok in Ht. destruct (kind t) eqn:Ek; try done; try by apply Hs.
  - assert (rem l1 < rem l)%nat by by apply H4. eapply wp_total; [by apply (ref_items_total _ fuel)|done|done|lia|lia|].
    intros r l2 G1 G2 G3. apply wp_ret, progress_some; [done|done|lia].
  - assert (rem l1 < rem l)%nat by by apply H4. eapply wp_total; [done|done|done|lia|lia|].
    intros r l2 G1 G2 G3. apply wp_ret, progress_some; [done|done|lia].
  - destruct Ht as (bs & -> & _). apply wp_bind, wp_some. by apply Hs.
  - destruct Ht as (bs & -> & Hz & _). apply wp_bind, wp_some, wp_bind, (wp_must _ bs); [|by apply Hs].
    clear -Hz. induction bs as [|b bs IH]; [done|]. simpl. destruct (Z.eqb_spec b 0) as [->|]; [set_solver|].
    rewrite IH by set_solver. done.
Qed.

Lemma ref_forms_total fuel n f : total n f → (fuel <= n)%nat →
  ∀ l, lex_ok l → (rem l < fuel)%nat →
  wp (ref_forms fuel f) (λ _ l', lex_ok l' ∧ l'.(src_buf) = l.(src_buf) ∧ (rem l' <= rem l)%nat) l.
Proof.
  intros Hf. induction fuel as [|fuel IH]; intros Hn l Hl Hr; [lia|]. simpl.
  apply wp_peek_tok; [done|by intros l' (?&?&?&_)|]. intros t l1 H1 H2 H3 H4 H5.
  case_decide; [by apply wp_ret|]. apply wp_on_exit. eapply wp_mono; [apply Hf; [done|lia]|].
  intros [d|] l2 (P1 & P2 & P3 & P4); [|split_and!; [done|congruence|lia]].
  assert (rem l2 < rem l1)%nat by (apply P4; eauto).
  apply wp_on_exit. eapply wp_mono; [apply IH; [lia|done|lia]|].
  intros [r|] l3 (Q1 & Q2 & Q3); [apply wp_ret|]; split_and!; (done || congruence || lia).
Qed.

(** ** Local variables that are roots *)

(** The state [w] has the local variables [vs] more than [w0], the first [k] of
    them are on the root stack, and what was live is unchanged. *)
Record Vars (w0 : gc_mem) (vs : list Z) (k : nat) (w : gc_mem) : Prop := {
  va_ok : gc_ok w;
  va_vars : w.(vars) = w0.(vars) ++ vs;
  va_k : (k <= length vs)%nat;
  va_nroots : w.(heap).(nroots) = w0.(heap).(nroots) + Z.of_nat k;
  va_roots : take (Z.to_nat w.(heap).(nroots)) w.(heap).(roots) =
    take (Z.to_nat w0.(heap).(nroots)) w0.(heap).(roots) ++ seq (length w0.(vars)) k;
  va_live a : live w0 a → content w.(objs) a = content w0.(objs) a
}.

Section vars.
Context (w0 : gc_mem) (Hok0 : gc_ok w0).

Lemma Vars_nil : Vars w0 [] 0 w0.
Proof.
  split; [done| |done|lia| |done]; [by rewrite app_nil_r|]. simpl. by rewrite app_nil_r.
Qed.

Lemma omap_seq (l vs : list Z) k :
  (k <= length vs)%nat → omap (λ x, (l ++ vs) !! x) (seq (length l) k) = take k vs.
Proof.
  revert l vs. induction k as [|k IH]; intros l vs Hk; [done|]. destruct vs as [|v vs]; [simpl in Hk; lia|].
  rewrite <-cons_seq. csimpl. rewrite lookup_app_r, Nat.sub_diag by lia. simpl. f_equal.
  specialize (IH (l ++ [v]) vs). rewrite length_app in IH. simpl in *. rewrite Nat.add_1_r in IH.
  rewrite <-app_assoc in IH. apply IH. lia.
Qed.

Lemma Vars_roots vs k w : Vars w0 vs k w → root_vals w = root_vals w0 ++ take k vs.
Proof.
  intros [V1 V2 V3 V4 V5 V6]. unfold root_vals. rewrite V5, V2, omap_app, omap_seq by done. f_equal.
  apply omap_vars_ext. intros x Hx. apply lookup_app_l. apply roots_elem; [apply Hok0|done].
Qed.

Lemma Vars_live vs k w a : Vars w0 vs k w → live w0 a → live w a.
Proof.
  intros HV Ha. unfold live. rewrite (Vars_roots _ _ _ HV), from_app. left.
  eapply from_ext; [|exact Ha]. apply HV.
Qed.

Lemma Vars_reach vs k w i v a :
  Vars w0 vs k w → vs !! i = Some v → (i < k)%nat → IS_PTR v = true → reach w.(objs) v a → live w a.
Proof.
  intros HV Hv Hi Hp Hr. exists v. split_and!; [|done|done]. rewrite (Vars_roots _ _ _ HV).
  apply elem_of_app. right. apply (list_elem_of_lookup_2 _ i). by rewrite lookup_take_lt.
Qed.

Lemma Vars_var vs k w i v : Vars w0 vs k w → vs !! i = Some v → w.(vars) !! (length w0.(vars) + i)%nat = Some v.
Proof. intros HV Hv. rewrite (va_vars _ _ _ _ HV), lookup_app_r by lia. by replace (_ + i - _)%nat with i by lia. Qed.

(** An operation that keeps what is live. *)
Lemma Vars_step vs k w w' :
  Vars w0 vs k w → gc_ok w' → Same w w' → (∀ a, live w a → content w'.(objs) a = content w.(objs) a) →
  Vars w0 vs k w'.
Proof.
  intros HV Hok [S1 S2 S3] HE. pose proof HV as [V1 V2 V3 V4 V5 V6]. split; rewrite ?S1, ?S2; try done.
  - by rewrite S3.
  - intros a Ha. rewrite HE; [by apply V6|by eapply Vars_live].
Qed.

Lemma wp_enter_var vs w v (Q : nat → gc_mem → Prop) :
  Vars w0 vs 0 w → (∀ w', Vars w0 (vs ++ [v]) 0 w' → w'.(objs) = w.(objs) → w'.(heap) = w.(heap) →
    Q (length w0.(vars) + length vs)%nat w') →
  wp (enter v) Q w.
Proof.
  intros HV HQ. pose proof HV as [V1 V2 V3 V4 V5 V6]. apply wp_enter; [done|]. intros Hok Hrv.
  rewrite V2, length_app. apply HQ; [|done|done]. split; simpl; [by rewrite <-V2|by rewrite app_assoc|lia|done|done|done].
Qed.

Lemma wp_push_var vs k w v (Q : option unit → gc_mem → Prop) :
  Vars w0 vs k w → vs !! k = Some v → val_ok w.(objs) v →
  (256 <= w0.(heap).(nroots) + Z.of_nat k → ∀ w', Q None w') →
  (∀ w', Vars w0 vs (S k) w' → w'.(objs) = w.(objs) → w'.(heap).(count) = w.(heap).(count) → Q (Some tt) w') →
  wp (gc_push (length w0.(vars) + k)) Q w.
Proof.
  intros HV Hv Hval H0 HQ. pose proof HV as [V1 V2 V3 V4 V5 V6].
  eapply wp_gc_push; [done|by eapply Vars_var|done|intros; apply H0; lia|]. intros Hn Hok _.
  apply HQ; [|done|done]. split; [done|done|by apply lookup_lt_Some in Hv|simpl; lia| |done].
  change (nroots (heap (pushed (length (vars w0) + k) w))) with (nroots (heap w) + 1).
  rewrite pushed_take, V5 by (done || apply V1). by rewrite seq_S, app_assoc.
Qed.

Lemma wp_load_local vs k w i v (Q : Z → gc_mem → Prop) :
  Vars w0 vs k w → vs !! i = Some v → Q v w → wp (load_var (length w0.(vars) + i)) Q w.
Proof. intros HV Hv. apply wp_load_var. by eapply Vars_var. Qed.

Lemma wp_store_local vs k w i v (Q : unit → gc_mem → Prop) :
  Vars w0 vs k w → (i < length vs)%nat → val_ok w.(objs) v →
  (∀ w', Vars w0 (<[i := v]> vs) k w' → w'.(objs) = w.(objs) → w'.(heap) = w.(heap) → Q tt w') →
  wp (store_var (length w0.(vars) + i) v) Q w.
Proof.
  intros HV Hi Hv HQ. pose proof HV as [V1 V2 V3 V4 V5 V6].
  apply wp_store_var; [rewrite V2, length_app; lia|]. apply HQ; [|done|done].
  split; simpl; [by apply store_var_ok| |by rewrite length_insert|done|done|done].
  rewrite V2, insert_app_r. done.
Qed.

(** The fields of an object that is not the caller's are overwritten. *)
Lemma wp_put_local vs k w p t b b0 (Q : unit → gc_mem → Prop) :
  Vars w0 vs k w → content w.(objs) p = Some (t, b0) → body_ok t b → (∀ v, v ∈ vals b → val_ok w.(objs) v) →
  ¬ live w0 p →
  (∀ w', Vars w0 vs k w' → content w'.(objs) p = Some (t, b) →
    (∀ a, a ≠ p → content w'.(objs) a = content w.(objs) a) → w'.(heap) = w.(heap) → Q tt w') →
  wp (put_body p b) Q w.
Proof.
  intros HV Hp Hb Hv Hl HQ. pose proof HV as [V1 V2 V3 V4 V5 V6].
  assert (HC := λ a, content_upd p b w a t b0 Hp).
  eapply wp_put_body; [done|]. apply HQ; [| | |done].
  - split; simpl; try done; [by eapply upd_ok|]. intros a Ha.
    change (content (upd p b w).(objs) a = content w0.(objs) a). rewrite HC, decide_False; [by apply V6|]. by intros ->.
  - by rewrite HC, decide_True.
  - intros a Ha. by rewrite HC, decide_False.
Qed.

(** The end of the scope: the roots are popped and the variables are gone. *)
Lemma Vars_end vs w :
  Vars w0 vs (length vs) w →
  let w' := set_vars w0.(vars) (popped (Z.of_nat (length vs)) w) in gc_ok w' ∧ Same w0 w'.
Proof.
  intros HV w'. pose proof HV as [V1 V2 V3 V4 V5 V6]. destruct (ok_roots _ Hok0) as [R1 R2 _ _].
  apply (leave_ok w0 (popped (Z.of_nat (length vs)) w) vs); [done|apply gc_popped_ok; [done|lia]|done|simpl; lia|].
  simpl. assert (Hl : length (take (Z.to_nat (nroots (heap w0))) (roots (heap w0))) = Z.to_nat (nroots (heap w0)))
    by (rewrite length_take; lia).
  rewrite <-(take_app_length' _ (seq (length (vars w0)) (length vs)) _ (eq_sym Hl)), <-V5 at 1.
  rewrite take_take. f_equal. lia.
Qed.

Lemma wp_pop_result vs w i v (Q : Z → gc_mem → Prop) :
  Vars w0 vs (length vs) w → vs !! i = Some v →
  (∀ w', gc_ok w' → Same w0 w' → w'.(objs) = w.(objs) → w'.(heap).(count) = w.(heap).(count) → Q v w') →
  wp (pop_result (length vs) (length w0.(vars) + i)) Q w.
Proof.
  intros HV Hi HQ. destruct (Vars_end _ _ HV) as [H1 H2]. pose proof HV as [V1 V2 V3 V4 V5 V6].
  destruct (ok_roots _ Hok0) as [R1 R2 _ _].
  apply wp_bind, wp_gc_pop; [done|lia|]. intros _. apply wp_bind. apply (wp_load_var _ v); [exact (Vars_var _ _ _ _ _ HV Hi)|].
  apply wp_bind, wp_mod, wp_ret. simpl. rewrite V2, length_app.
  replace (_ + _ - _)%nat with (length (vars w0)) by lia. rewrite take_app_length. by apply HQ.
Qed.
End vars.

(** ** Lifting *)

Lemma wp_in_lex {A} (m : M lexer A) (Q : A → scm → Prop) s a l :
  m s.(lx) = Some (a, l) → Q a (mk_scm l s.(mem) s.(out)) → wp (in_lex m) Q s.
Proof. intros E HQ. unfold wp, in_lex. by rewrite E. Qed.

Lemma wp_in_gc {A} (m : M gc_mem A) (Q : A → scm → Prop) s :
  wp m (λ a w, Q a (mk_scm s.(lx) w s.(out))) s.(mem) → wp (in_gc m) Q s.
Proof. unfold wp, in_gc. by destruct (m s.(mem)) as [[]|]. Qed.

(** A computation that may die returns. *)
Lemma on_exit_inv {S A B} (m : M S (option A)) (k : A → M S (option B)) s r s' :
  on_exit m k s = Some (r, s') →
  (m s = Some (None, s') ∧ r = None) ∨ ∃ a s1, m s = Some (Some a, s1) ∧ k a s1 = Some (r, s').
Proof.
  unfold on_exit, mbind, M_bind. destruct (m s) as [[[a|] s1]|]; [eauto| |done].
  unfold mret, M_ret. intros. simplify_eq. by left.
Qed.

Lemma wp_eq {S A} (m : M S A) (Q : A → S → Prop) s a s' : wp m Q s → m s = Some (a, s') → Q a s'.
Proof. unfold wp. intros H E. by rewrite E in H. Qed.

(** ** The heap reader *)

(** A datum was read and is represented by new objects. *)
Record Read (w : gc_mem) (d : datum) (v : Z) (X : gset Z) (w' : gc_mem) : Prop := {
  re_ok : gc_ok w';
  re_rep : rep w'.(objs) d v X;
  re_live a : live w a → a ∉ X ∧ content w'.(objs) a = content w.(objs) a;
  re_same : Same w w'
}.

Section reader.
Context (malloc : nat → gmap Z gc_obj → Z → Z) `{!Malloc malloc} (uninit : gc_mem → Z).
Context (Huninit : ∀ w, gc_ok w → val_ok w.(objs) (uninit w)).

(** There is room for the objects the rest of the source can need. *)
Definition roomy (s : scm) : Prop := s.(mem).(heap).(count) + 4 * Z.of_nat (rem s.(lx)) <= 2 ^ 30.

(** The result of the reader when the reference returns [r] in the state [l']. *)
Definition read_post (s : scm) (r : option (datum * nat)) (l' : lexer) (x : option Z) (s' : scm) : Prop :=
  match x, r with
  | Some v, Some (d, n) => s'.(lx) = l' ∧ s'.(out) = s.(out) ∧ (∃ X, Read s.(mem) d v X s'.(mem)) ∧
      s'.(mem).(heap).(count) + 4 * Z.of_nat (rem l') + 1 <= s.(mem).(heap).(count) + 4 * Z.of_nat (rem s.(lx))
  | Some _, None => False
  | None, Some (d, n) => oom malloc ∨ 256 < s.(mem).(heap).(nroots) + Z.of_nat n
  | None, None => True
  end.

Definition reads (fuel : nat) (m : M scm (option Z)) (f : M lexer (option (datum * nat))) : Prop :=
  ∀ s r l', gc_ok s.(mem) → lex_ok s.(lx) → roomy s → (rem s.(lx) < fuel)%nat →
    f s.(lx) = Some (r, l') → wp m (read_post s r l') s.

(** The elements [ds] of a list have been read; the locals are [head], [tail],
    the last element and the last cell. *)
Definition seg (m : gmap Z gc_obj) (h t : Z) (ds : list datum) (X : gset Z) : Prop :=
  match ds with [] => h = VAL_NIL ∧ X = ∅ | _ => lseg m t VAL_NIL h ds X end.

Definition Items (w0 : gc_mem) (ds : list datum) (w : gc_mem) : Prop :=
  ∃ h t e c X, Vars w0 [h; t; e; c] 4 w ∧ (∀ a, a ∈ X → ¬ live w0 a) ∧ seg w.(objs) h t ds X.

Lemma seg_live w0 h t e c w ds X a :
  gc_ok w0 → Vars w0 [h; t; e; c] 4 w → seg w.(objs) h t ds X → a ∈ X → live w a.
Proof.
  intros Hok0 HV HS Ha. destruct ds as [|d ds]; [destruct HS as [_ ->]; set_solver|].
  eapply (Vars_reach w0 Hok0 _ _ _ 0); [done|done|lia| |].
  - eapply lseg_head; [apply HV|exact HS].
  - eapply lseg_reach; [apply HV|exact HS|done].
Qed.

Lemma seg_ext m m' h t ds X :
  (∀ a, a ∈ X → content m' a = content m a) → seg m h t ds X → seg m' h t ds X.
Proof. intros HE. destruct ds; [done|]. by apply lseg_ext. Qed.

(** A value that represents a datum with new objects. *)
Definition fresh_rep (w0 : gc_mem) (X : gset Z) (w : gc_mem) (d : datum) (v : Z) (Xd : gset Z) : Prop :=
  rep w.(objs) d v Xd ∧ X ## Xd ∧ ∀ a, a ∈ Xd → ¬ live w0 a.

(** An element was read and is stored in [elem]. *)
Lemma Items_read w0 ds w d v Xd w1 (Q : unit → gc_mem → Prop) :
  gc_ok w0 → Items w0 ds w → Read w d v Xd w1 →
  (∀ h t c X w2, Vars w0 [h; t; v; c] 4 w2 → (∀ a, a ∈ X → ¬ live w0 a) → seg w2.(objs) h t ds X →
    fresh_rep w0 X w2 d v Xd → w2.(heap).(count) = w1.(heap).(count) → Q tt w2) →
  wp (store_var (length w0.(vars) + 2) v) Q w1.
Proof.
  intros Hok0 (h & t & e & c & X & HV & HX & HS) [R1 R2 R3 R4] HQ.
  assert (HV1 : Vars w0 [h; t; e; c] 4 w1) by (eapply Vars_step; [done|done|done|done|]; intros a Ha; by apply R3).
  eapply wp_store_local; [exact HV1|simpl; lia|by eapply rep_val_ok|]. intros w2 HV2 Eo Eh.
  apply (HQ h t c X); [done|done| | |by rewrite Eh].
  - rewrite Eo. eapply seg_ext; [|exact HS]. intros a Ha. apply R3. by apply (seg_live w0 h t e c w ds X).
  - split_and!; [by rewrite Eo| |].
    + intros a Ha Hd. destruct (R3 a) as [Hn _]; [by apply (seg_live w0 h t e c w ds X)|]. done.
    + intros a Hd Ha. destruct (R3 a) as [Hn _]; [exact (Vars_live w0 Hok0 _ _ _ _ HV Ha)|]. done.
Qed.
(** The state in which a new cell [p] is stored in [cell]. *)
Record Celled (w0 : gc_mem) (h t v p : Z) (ds : list datum) (X : gset Z) (d : datum) (Xd : gset Z)
    (w : gc_mem) : Prop := {
  ce_vars : Vars w0 [h; t; v; p] 4 w;
  ce_new a : a ∈ X → ¬ live w0 a;
  ce_seg : seg w.(objs) h t ds X;
  ce_rep : fresh_rep w0 X w d v Xd;
  ce_cell : content w.(objs) p = Some (OBJ_PAIR, Pair v VAL_NIL);
  ce_fresh : p ∉ X ∪ Xd ∧ ¬ live w0 p
}.

Lemma made_cell w0 h t v c ds X d Xd w p w1 (Q : unit → gc_mem → Prop) :
  gc_ok w0 → Vars w0 [h; t; v; c] 4 w → (∀ a, a ∈ X → ¬ live w0 a) → seg w.(objs) h t ds X →
  fresh_rep w0 X w d v Xd → Made w [v; VAL_NIL] p OBJ_PAIR (Pair v VAL_NIL) w1 →
  (∀ w2, Celled w0 h t v p ds X d Xd w2 → w2.(heap).(count) = w1.(heap).(count) → Q tt w2) →
  wp (store_var (length w0.(vars) + 3) p) Q w1.
Proof.
  intros Hok0 HV HX HS (Hr & Hdj & Hnew) [M1 M2 M3 M4 M5 M6] HQ.
  assert (Hl : ∀ a, live w a → a ≠ p ∧ content w1.(objs) a = content w.(objs) a).
  { intros a Ha. apply M3. rewrite from_app. by left. }
  assert (HlX : ∀ a, a ∈ X → live w a) by (intros a Ha; by apply (seg_live w0 h t v c w ds X)).
  assert (HlD : ∀ a, a ∈ Xd → live w a).
  { intros a Ha. destruct (rep_reach _ _ _ _ _ (ok_objs _ (va_ok _ _ _ _ HV)) Hr Ha).
    by apply (Vars_reach w0 Hok0 _ _ _ 2 v _ HV); [|lia|..]. }
  assert (HV1 : Vars w0 [h; t; v; c] 4 w1) by (eapply Vars_step; [done|done|done|done|]; intros a Ha; by apply Hl).
  eapply wp_store_local; [exact HV1|simpl; lia| |].
  { intros _. apply content_Some in M2 as (o & -> & _). eauto. }
  intros w2 HV2 Eo Eh. apply HQ; [|by rewrite Eh]. split; rewrite ?Eo; try done.
  - eapply seg_ext; [|exact HS]. intros a Ha. by apply Hl, HlX.
  - split_and!; [|done|done]. rewrite Eo. eapply rep_ext; [|exact Hr]. intros a Ha. by apply Hl, HlD.
  - split; [intros [Ha|Ha]%elem_of_union|intros Ha%(Vars_live w0 Hok0 _ _ _ _ HV)].
    + by destruct (Hl p); [by apply HlX|].
    + by destruct (Hl p); [by apply HlD|].
    + by destruct (Hl p).
Qed.

Lemma seg_nil m h t ds X : objs_ok m → seg m h t ds X → IS_NIL h = bool_decide (ds = []).
Proof.
  intros Hm HS. destruct ds as [|d ds]; [by destruct HS as [-> _]|]. pose proof (lseg_head _ _ _ _ _ _ Hm HS) as Hp.
  unfold IS_NIL. destruct (Z.eqb_spec h VAL_NIL) as [->|]; [done|]. by rewrite bool_decide_eq_false_2.
Qed.

Lemma wp_append_tail w0 h t v p ds X d Xd w :
  gc_ok w0 → Celled w0 h t v p ds X d Xd w →
  let n := length w0.(vars) in
  wp (h ← load_var (n + 0);
      (if IS_NIL h then c ← load_var (n + 3); store_var (n + 0) c
       else t ← load_var (n + 1); c ← load_var (n + 3); gc_set_cdr t c);;
      c ← load_var (n + 3); store_var (n + 1) c;; mret (Some tt))
    (λ r w', r = Some tt ∧ Items w0 (ds ++ [d]) w' ∧ w'.(heap).(count) = w.(heap).(count)) w.
Proof.
  intros Hok0 [HV HX HS (Hr & Hdj & Hnew) Hp [Hpf Hpl]] n.
  assert (Hvp : ∀ w', content w'.(objs) p = Some (OBJ_PAIR, Pair v VAL_NIL) → val_ok w'.(objs) p).
  { intros w' Hc _. apply content_Some in Hc as (o & -> & _). eauto. }
  assert (Hnil : val_ok w.(objs) VAL_NIL) by done.
  apply wp_bind. eapply wp_load_local; [exact HV|done|]. apply wp_bind.
  rewrite (seg_nil _ _ _ _ _ (ok_objs _ (va_ok _ _ _ _ HV)) HS). apply wp_if; intros Hds.
  - apply bool_decide_eq_true in Hds. subst ds. destruct HS as [-> ->].
    apply wp_bind. eapply wp_load_local; [exact HV|done|].
    eapply wp_store_local; [exact HV|simpl; lia|by apply Hvp|]. intros w2 HV2 Eo2 Eh2. cbn [list_insert] in HV2.
    apply wp_bind. eapply wp_load_local; [exact HV2|done|].
    apply wp_bind. eapply wp_store_local; [exact HV2|simpl; lia|apply Hvp; by rewrite Eo2|].
    intros w3 HV3 Eo3 Eh3. apply wp_ret. split_and!; [done| |congruence].
    exists p, p, v, p, ({[p]} ∪ Xd). split_and!; [exact HV3|set_solver|]. rewrite Eo3, Eo2.
    apply (lseg_one _ _ _ d v); [done|done|set_solver].
  - apply bool_decide_eq_false in Hds. assert (HL : lseg w.(objs) t VAL_NIL h ds X) by (by destruct ds).
    pose proof (lseg_last _ _ _ _ _ _ HL) as [Ht [x Hx]].
    apply wp_bind. eapply wp_load_local; [exact HV|done|].
    apply wp_bind. eapply wp_load_local; [exact HV|done|].
    apply wp_bind. eapply wp_get_pair; [exact Hx|]. simpl.
    eapply wp_put_local; [exact HV|exact Hx|done| |by apply HX|].
    { intros u. apply pair_vals; [|by apply Hvp]. intros Hu. apply content_Some in Hx as (o & Ho & _ & Hb).
      eapply obj_closed; [apply HV|exact Ho| |done]. rewrite Hb. set_solver. }
    intros w2 HV2 Hc2 Hrest Eh2. assert (Htp : p ≠ t) by set_solver.
    apply wp_bind. eapply wp_load_local; [exact HV2|done|].
    apply wp_bind. eapply wp_store_local; [exact HV2|simpl; lia|apply Hvp; by rewrite Hrest|].
    intros w3 HV3 Eo3 Eh3. apply wp_ret. split_and!; [done| |congruence].
    exists h, p, v, p, (X ∪ ({[p]} ∪ Xd)). split_and!; [exact HV3|set_solver|].
    assert (lseg w3.(objs) p VAL_NIL h (ds ++ [d]) (X ∪ ({[p]} ∪ Xd))) as HL3.
    { rewrite Eo3. eapply lseg_snoc; [|by rewrite Hrest| |done|done].
      - eapply (lseg_link _ _ _ x); [exact Hx|exact Hc2| |exact HL]. intros a _. apply Hrest.
      - eapply rep_ext; [|exact Hr]. intros a Ha. apply Hrest. set_solver. }
    destruct ds; [done|exact HL3].
Qed.

Lemma wp_append_cell w0 h t v c ds X d Xd w :
  gc_ok w0 → Vars w0 [h; t; v; c] 4 w → (∀ a, a ∈ X → ¬ live w0 a) → seg w.(objs) h t ds X →
  fresh_rep w0 X w d v Xd → w.(heap).(count) < 2 ^ 30 →
  let n := length w0.(vars) in
  wp (append_cell malloc (n + 0) (n + 1) (n + 2) (n + 3)) (λ r w', match r with
    | Some _ => Items w0 (ds ++ [d]) w' ∧ w'.(heap).(count) <= w.(heap).(count) + 1
    | None => oom malloc ∨ 256 < w0.(heap).(nroots) + (4 + 2) end) w.
Proof.
  intros Hok0 HV HX HS HR Hn n. unfold append_cell.
  apply wp_bind. eapply wp_load_local; [exact HV|done|]. apply wp_on_exit.
  eapply wp_gc_cons; [done|apply HV|done|eapply rep_val_ok, HR|done| |].
  { rewrite (va_nroots _ _ _ _ HV). intros [?|?] w'; [by left|right; lia]. }
  intros p w1 HM. apply wp_bind. eapply made_cell; [done|exact HV|done|done|exact HR|exact HM|].
  intros w2 HC Hc2. eapply wp_mono; [eapply wp_append_tail; [done|exact HC]|].
  intros r w3 (-> & HI & Hc3). split; [done|]. pose proof (md_count _ _ _ _ _ _ HM). lia.
Qed.
(** *** Lists *)

Lemma wp_list_vars w :
  gc_ok w →
  let n := length w.(vars) in
  wp (list_vars uninit) (λ r w', match r with
    | Some x => x = (n + 0, n + 1, n + 2, n + 3)%nat ∧ Items w [] w' ∧ w'.(heap).(count) = w.(heap).(count)
    | None => 256 < w.(heap).(nroots) + 4 end) w.
Proof.
  intros Hok n. unfold list_vars.
  apply wp_bind. eapply wp_enter_var; [by apply Vars_nil|]. intros w1 V1 O1 E1.
  apply wp_bind. eapply wp_enter_var; [exact V1|]. intros w2 V2 O2 E2.
  apply wp_bind, wp_bind, wp_get. eapply wp_enter_var; [exact V2|]. intros w3 V3 O3 E3.
  apply wp_bind, wp_bind, wp_get. eapply wp_enter_var; [exact V3|]. intros w4 V4 O4 E4. simpl app in V4.
  assert (U2 : val_ok w4.(objs) (uninit w2)) by (rewrite O4, O3; apply Huninit, V2).
  assert (U3 : val_ok w4.(objs) (uninit w3)) by (rewrite O4; apply Huninit, V3).
  assert (C4 : w4.(heap).(count) = w.(heap).(count)) by congruence.
  apply wp_on_exit. eapply wp_push_var; [exact V4|done|done|simpl; intros; lia|]. intros w5 V5 O5 C5.
  apply wp_on_exit. eapply wp_push_var; [exact V5|done|done|simpl; intros; lia|]. intros w6 V6 O6 C6.
  apply wp_on_exit. eapply wp_push_var; [exact V6|done|by rewrite O6, O5|simpl; intros; lia|]. intros w7 V7 O7 C7.
  apply wp_on_exit. eapply wp_push_var; [exact V7|done|by rewrite O7, O6, O5|simpl; intros; lia|]. intros w8 V8 O8 C8.
  apply wp_ret. split_and!; [done| |congruence]. eexists _, _, _, _, ∅. split_and!; [exact V8|set_solver|done].
Qed.

(** The list is complete: its value is in [head]. *)
Definition Closed (w0 : gc_mem) (d : datum) (w : gc_mem) : Prop :=
  ∃ h t e c X, Vars w0 [h; t; e; c] 4 w ∧ (∀ a, a ∈ X → ¬ live w0 a) ∧ rep w.(objs) d h X.

Lemma Items_closed w0 ds w : Items w0 ds w → Closed w0 (dlist ds DNil) w.
Proof.
  intros (h & t & e & c & X & HV & HX & HS). exists h, t, e, c, X. split_and!; [done|done|].
  destruct ds as [|d ds]; [done|]. rewrite <-(union_empty_r_L X).
  eapply lseg_close; [exact HS|done|set_solver].
Qed.

(** The dotted end of a list. *)
Lemma wp_set_end w0 h t v c ds X d Xd w (Q : unit → gc_mem → Prop) :
  Vars w0 [h; t; v; c] 4 w → (∀ a, a ∈ X → ¬ live w0 a) → seg w.(objs) h t ds X → ds ≠ [] →
  fresh_rep w0 X w d v Xd →
  (∀ w', Closed w0 (dlist ds d) w' → w'.(heap).(count) = w.(heap).(count) → Q tt w') →
  wp (gc_set_cdr t v) Q w.
Proof.
  intros HV HX HS Hds (Hr & Hdj & Hnew) HQ. assert (HL : lseg w.(objs) t VAL_NIL h ds X) by (by destruct ds).
  pose proof (lseg_last _ _ _ _ _ _ HL) as [Ht [x Hx]].
  apply wp_bind. eapply wp_get_pair; [exact Hx|]. simpl.
  eapply wp_put_local; [exact HV|exact Hx|done| |by apply HX|].
  { intros u. apply pair_vals; [|by eapply rep_val_ok]. intros Hu. apply content_Some in Hx as (o & Ho & _ & Hb).
    eapply obj_closed; [apply HV|exact Ho| |done]. rewrite Hb. set_solver. }
  intros w2 HV2 Hc2 Hrest Eh2. apply HQ; [|by rewrite Eh2].
  exists h, t, v, c, (X ∪ Xd). split_and!; [done|set_solver|].
  eapply lseg_close; [|eapply rep_ext; [|exact Hr]|done].
  - eapply (lseg_link _ _ _ x); [exact Hx|exact Hc2| |exact HL]. intros a _. apply Hrest.
  - intros a Ha. apply Hrest. set_solver.
Qed.
(** An element is read into [elem]. *)
Lemma wp_read_store {B} fuel rd f w0 ds s o l2 (K : M scm (option B)) (Q : option B → scm → Prop) :
  reads fuel rd f → gc_ok w0 → Items w0 ds s.(mem) → lex_ok s.(lx) → roomy s → (rem s.(lx) < fuel)%nat →
  f s.(lx) = Some (o, l2) →
  (∀ s', match o with None => True | Some d => oom malloc ∨ 256 < w0.(heap).(nroots) + (4 + Z.of_nat d.2) end → Q None s') →
  (∀ d h t v c X Xd w, o = Some d → Vars w0 [h; t; v; c] 4 w → (∀ a, a ∈ X → ¬ live w0 a) →
    seg w.(objs) h t ds X → fresh_rep w0 X w d.1 v Xd →
    w.(heap).(count) + 4 * Z.of_nat (rem l2) + 1 <= s.(mem).(heap).(count) + 4 * Z.of_nat (rem s.(lx)) →
    wp K Q (mk_scm l2 w s.(out))) →
  wp (e ⇐ rd; in_gc (store_var (length w0.(vars) + 2) e);; K) Q s.
Proof.
  intros Hrd Hok0 HI Hl Hr Hn E H0 HQ. pose proof HI as (h & t & e & c & X & HV & HX & HS).
  apply wp_on_exit. eapply wp_mono; [by apply Hrd; [apply HV|..]|].
  pose proof (va_nroots _ _ _ _ HV) as Hnr. intros [v|] s1 HP.
  - destruct o as [[d k]|]; [|done]. destruct HP as (El & Eo & (Xd & HR) & Hc).
    apply wp_bind, wp_in_gc. eapply Items_read; [done|exact HI|exact HR|].
    intros h' t' c' X' w2 V2 HX2 HS2 HF2 C2. rewrite El, Eo. eapply HQ; try done. lia.
  - apply H0. destruct o as [[d k]|]; [|done]. destruct HP as [|HP]; [by left|right]. simpl. lia.
Qed.

Lemma wp_read_elem fuel rd f w0 ds s o l2 :
  reads fuel rd f → gc_ok w0 → Items w0 ds s.(mem) → lex_ok s.(lx) → roomy s → (rem s.(lx) < fuel)%nat →
  f s.(lx) = Some (o, l2) →
  let n := length w0.(vars) in
  wp (e ⇐ rd; in_gc (store_var (n + 2) e);;
      _ ⇐ in_gc (append_cell malloc (n + 0) (n + 1) (n + 2) (n + 3)); mret (Some (inl tt)))
    (λ (x : option (unit + unit)) s', match x, o with
      | Some (inl _), Some d => s'.(lx) = l2 ∧ s'.(out) = s.(out) ∧ Items w0 (ds ++ [d.1]) s'.(mem) ∧
          s'.(mem).(heap).(count) + 4 * Z.of_nat (rem l2) <= s.(mem).(heap).(count) + 4 * Z.of_nat (rem s.(lx))
      | None, Some d => oom malloc ∨ 256 < w0.(heap).(nroots) + (4 + Z.max (Z.of_nat d.2) 2)
      | None, None => True
      | _, _ => False
      end) s.
Proof.
  intros Hrd Hok0 HI Hl Hr Hn E n. eapply wp_read_store; [exact Hrd|done|exact HI|done|done|done|exact E| |].
  - intros s' Ho. destruct o as [d|]; [|done]. destruct Ho as [|Ho]; [by left|right; lia].
  - intros d h t v c X Xd w -> HV HX HS HF Hc. unfold roomy in Hr. apply wp_on_exit, wp_in_gc.
    eapply wp_mono; [eapply wp_append_cell; [done|exact HV|exact HX|exact HS|exact HF|simpl; lia]|].
    intros [[]|] w2 HA; simpl.
    + apply wp_ret. destruct HA as [HA Hc2]. simpl in *. split_and!; [done|done|done|lia].
    + destruct HA as [|HA]; [by left|right; lia].
Qed.

Definition items_post (w0 : gc_mem) (ds : list datum) (s : scm) (r : option (datum * nat)) (l' : lexer)
    (x : option unit) (s' : scm) : Prop :=
  match x, r with
  | Some _, Some (d, n) => s'.(lx) = l' ∧ s'.(out) = s.(out) ∧ Closed w0 (dlist ds d) s'.(mem) ∧
      s'.(mem).(heap).(count) + 4 * Z.of_nat (rem l') <= s.(mem).(heap).(count) + 4 * Z.of_nat (rem s.(lx))
  | Some _, None => False
  | None, Some (d, n) => oom malloc ∨ 256 < w0.(heap).(nroots) + (4 + Z.of_nat n)
  | None, None => True
  end.

(** What the lexer does, from the equation of the reference reader. *)
Lemma peek_eq l t l1 :
  lex_ok l → lex_peek l = Some (Some t, l1) →
  lex_ok l1 ∧ (rem l1 <= rem l)%nat ∧
  (t.(kind) ≠ TOK_EOF → ∃ l2, lex_next l1 = Some (Some t, l2) ∧ lex_ok l2 ∧ (rem l2 < rem l1)%nat).
Proof.
  intros Hl E. pose proof (wp_eq _ _ _ _ _ (wp_lex_peek l Hl) E) as (H1 & _ & H3 & H4 & H5 & H6).
  split_and!; [done|done|]. intros Hk. exists (set_peeked 0 l1).
  assert (En : lex_next l1 = Some (Some t, set_peeked 0 l1)).
  { unfold lex_next, mbind, M_bind, mget. rewrite H5. by rewrite <-H6. }
  pose proof (wp_eq _ _ _ _ _ (wp_lex_next l1 H1) En) as (N1 & _ & _ & _ & N2 & _). auto.
Qed.

Lemma next_eq l t l1 : lex_ok l → lex_next l = Some (t, l1) → lex_ok l1 ∧ (rem l1 <= rem l)%nat.
Proof. intros Hl E. by pose proof (wp_eq _ _ _ _ _ (wp_lex_next l Hl) E) as (? & _ & ? & _). Qed.

(** The item that starts with the datum at [l1], and the items after it. *)
Lemma wp_item_datum n rd f w0 fuel ds s l1 r l' :
  reads n rd f → total n f → gc_ok w0 → (S fuel <= n)%nat → Items w0 ds s.(mem) → lex_ok l1 →
  roomy s → (rem l1 <= rem s.(lx))%nat → (rem s.(lx) < S fuel)%nat →
  let k := length w0.(vars) in
  let items := ewhile fuel (λ _ : unit, read_item malloc (k + 0) (k + 1) (k + 2) (k + 3) rd) in
  (∀ ds s r, Items w0 ds s.(mem) → lex_ok s.(lx) → roomy s → (rem s.(lx) < fuel)%nat →
     ref_items fuel f (bool_decide (ds = [])) s.(lx) = Some (r, l') → wp (items tt) (items_post w0 ds s r l') s) →
  (d ⇐ f; r ⇐ ref_items fuel f false; mret (Some (DPair d.1 r.1, (d.2 `max` 2 `max` r.2)%nat))) l1 = Some (r, l') →
  wp (e ⇐ rd; in_gc (store_var (k + 2) e);;
    _ ⇐ in_gc (append_cell malloc (k + 0) (k + 1) (k + 2) (k + 3)); mret (Some (inl tt)))
    (λ (x : option (unit + unit)) s', match x with
      | Some r' => wp (match r' with inl a => items a | inr b => mret (Some b) end) (items_post w0 ds s r l') s'
      | None => items_post w0 ds s r l' None s' end) (mk_scm l1 s.(mem) s.(out)).
Proof.
  intros Hrd Hf Hok0 Hfuel HI Hl1 Hr Hr1 Hn k items IH E. unfold roomy in Hr. set (s1 := mk_scm l1 s.(mem) s.(out)).
  assert (∃ o l2, f l1 = Some (o, l2)) as (o & l2 & Ef).
  { pose proof (Hf l1 Hl1 ltac:(lia)) as (o & l2 & Ef & _)%wp_run. eauto. }
  pose proof (wp_eq _ _ _ _ _ (Hf l1 Hl1 ltac:(lia)) Ef) as (P1 & P2 & P3 & P4).
  eapply wp_mono; [eapply (wp_read_elem n rd f w0 ds s1 o l2); try done; unfold roomy, s1; cbn [lx mem]; lia|].
  apply on_exit_inv in E as [[E ->]|(d & l2' & E & E2)].
  - simplify_eq/=. intros [[[]|[]]|] s2 HP; done.
  - assert (o = Some d ∧ l2' = l2) as [-> ->] by (split; congruence). assert (rem l2 < rem l1)%nat by (apply P4; eauto).
    unfold s1; cbn [lx mem out].
    apply on_exit_inv in E2 as [[E2 ->]|([e m] & l3 & E2 & E3)].
    + intros [[[]|[]]|] s2 HP; [|done|done]. destruct HP as (L2 & O2 & I2 & C2).
      eapply wp_mono; [eapply (IH (ds ++ [d.1])); [done|by rewrite L2|unfold roomy; rewrite L2; lia|by rewrite L2; lia|]|].
      { rewrite L2, bool_decide_eq_false_2 by (by destruct ds). exact E2. }
      intros [[]|] s3 HP3; done.
    + unfold mret, M_ret in E3. simplify_eq/=. intros [[[]|[]]|] s2 HP; [|done|].
      * destruct HP as (L2 & O2 & I2 & C2).
        eapply wp_mono; [eapply (IH (ds ++ [d.1])); [done|by rewrite L2|unfold roomy; rewrite L2; lia|by rewrite L2; lia|]|].
        { rewrite L2, bool_decide_eq_false_2 by (by destruct ds). exact E2. }
        intros [[]|] s3; simpl.
        -- intros (L3 & O3 & I3 & C3). rewrite L2 in C3. split_and!; [done|congruence| |lia].
           unfold dlist in *. by rewrite foldr_app in I3.
        -- intros [|HP3]; [by left|right; lia].
      * simpl in HP |- *. destruct HP as [|HP]; [by left|right; lia].
Qed.

Lemma wp_items n rd f w0 fuel ds s r l' :
  reads n rd f → total n f → gc_ok w0 → (fuel <= n)%nat → Items w0 ds s.(mem) → lex_ok s.(lx) → roomy s →
  (rem s.(lx) < fuel)%nat → ref_items fuel f (bool_decide (ds = [])) s.(lx) = Some (r, l') →
  let k := length w0.(vars) in
  wp (ewhile fuel (λ _ : unit, read_item malloc (k + 0) (k + 1) (k + 2) (k + 3) rd) tt) (items_post w0 ds s r l') s.
Proof.
  intros Hrd Hf Hok0 Hfuel HI Hl Hr Hn E k. revert ds s r Hfuel HI Hl Hr Hn E.
  induction fuel as [|fuel IH]; intros ds s r Hfuel HI Hl Hr Hn E; [lia|].
  simpl in E |- *. apply wp_on_exit. unfold read_item. apply wp_on_exit. unfold roomy in Hr.
  apply on_exit_inv in E as [[E ->]|(t & l1 & E & Ek)]; [by eapply wp_in_lex|].
  eapply wp_in_lex; [exact E|]. cbv beta iota.
  destruct (peek_eq _ _ _ Hl E) as (Hl1 & Hr1 & Hnext). clear E Hl.
  pose proof (wp_item_datum n rd f w0 fuel ds s l1 r l' Hrd Hf Hok0 Hfuel HI Hl1 Hr Hr1 Hn
    (λ ds s r, IH ds s r ltac:(lia))) as Hdef.
  destruct (kind t) eqn:Hk; try (exact (Hdef Ek)); clear Hdef.
  - unfold mret, M_ret in Ek. simplify_eq. done.
  - destruct Hnext as (l2 & E2 & Hl2 & Hr2); [done|].
    apply on_exit_inv in Ek as [[E3 _]|(t' & l3 & E3 & E4)]; [congruence|].
    injection E4 as <- <-. assert (l3 = l2) as -> by congruence. apply wp_on_exit. eapply wp_in_lex; [exact E2|].
    apply wp_ret, wp_ret. simpl. split_and!; [done|done|by apply Items_closed|lia].
  - destruct Hnext as (l2 & E2 & Hl2 & Hr2); [done|].
    apply on_exit_inv in Ek as [[E3 _]|(t' & l3' & E3 & E4)]; [congruence|]. assert (l3' = l2) as -> by congruence.
    apply wp_on_exit. eapply wp_in_lex; [exact E2|]. cbv beta iota.
    pose proof HI as (h & tl & e & c & X & HV & HX & HS).
    apply wp_bind, wp_in_gc. eapply (wp_load_local w0); [exact HV|done|].
    rewrite (seg_nil _ _ _ _ _ (ok_objs _ (va_ok _ _ _ _ HV)) HS). apply wp_if; intros Hds; rewrite Hds in E4.
    + unfold mret, M_ret in E4. simplify_eq. done.
    + apply bool_decide_eq_false in Hds. assert (∃ o l3, f l2 = Some (o, l3)) as (o & l3 & Ef).
      { pose proof (Hf l2 Hl2 ltac:(lia)) as (o & l3 & Ef & _)%wp_run. eauto. }
      pose proof (wp_eq _ _ _ _ _ (Hf l2 Hl2 ltac:(lia)) Ef) as (P1 & P2 & P3 & P4).
      eapply (wp_read_store n rd f w0 ds (mk_scm l2 s.(mem) s.(out)) o l3); [done|done|done|done|unfold roomy; simpl; lia|simpl; lia|done| |].
      * intros s' Ho. apply on_exit_inv in E4 as [[E4 ->]|(d & l4 & E4 & E5)]; [done|]. simplify_eq.
        destruct r as [[d' m]|]; [|done]. apply on_exit_inv in E5 as [[_ ?]|(t5 & l5 & _ & E5)]; [done|].
        case_decide; unfold mret, M_ret in E5; simplify_eq. done.
      * intros d h2 tl2 v c2 X2 Xd w -> HV2 HX2 HS2 HF2 Hc2. simpl in Hc2.
        apply on_exit_inv in E4 as [[E4 ->]|(d' & l4 & E4 & E5)]; [congruence|]. simplify_eq.
        apply wp_on_exit. apply on_exit_inv in E5 as [[E5 ->]|(t5 & l5 & E5 & E6)]; [by eapply wp_in_lex|].
        eapply wp_in_lex; [exact E5|]. destruct (next_eq _ _ _ P1 E5) as [Hl5 Hr5].
        case_decide; unfold mret, M_ret in E6; simplify_eq; [done|].
        apply wp_bind, wp_in_gc. eapply (wp_load_local w0); [exact HV2|done|].
        apply wp_bind, wp_in_gc. eapply (wp_load_local w0); [exact HV2|done|].
        apply wp_bind, wp_in_gc. eapply wp_set_end; [exact HV2|exact HX2|exact HS2|done|exact HF2|].
        intros w3 HC3 C3. apply wp_ret, wp_ret. destruct d' as [d m]. simpl in *. split_and!; [done|done|done|lia].
Qed.
(** The value of a complete list is returned. *)
Lemma wp_closed w0 d w :
  gc_ok w0 → Closed w0 d w →
  wp (pop_result 4 (length w0.(vars) + 0)) (λ v w', (∃ X, Read w0 d v X w') ∧ w'.(heap).(count) = w.(heap).(count)) w.
Proof.
  intros Hok0 (h & t & e & c & X & HV & HX & HR).
  apply (wp_pop_result w0 Hok0 [h; t; e; c] w 0 h); [done|done|]. intros w' O1 O2 O3 O4. split; [|done].
  exists X. split; [done|by rewrite O3| |done]. intros a Ha. split; [by intros ?%HX|]. rewrite O3. by apply HV.
Qed.

(** The parts of [read_post] that hold of a list which starts behind [s]. *)
Lemma wp_read_list fuel rd f s r l' :
  reads fuel rd f → total fuel f → gc_ok s.(mem) → lex_ok s.(lx) → roomy s → (rem s.(lx) < fuel)%nat →
  ref_items fuel f true s.(lx) = Some (r, l') →
  wp (read_list malloc uninit fuel rd) (λ x s', match x, r with
    | Some v, Some (d, n) => s'.(lx) = l' ∧ s'.(out) = s.(out) ∧ (∃ X, Read s.(mem) d v X s'.(mem)) ∧
        s'.(mem).(heap).(count) + 4 * Z.of_nat (rem l') <= s.(mem).(heap).(count) + 4 * Z.of_nat (rem s.(lx))
    | Some _, None => False
    | None, Some (d, n) => oom malloc ∨ 256 < s.(mem).(heap).(nroots) + (4 + Z.of_nat n)
    | None, None => True
    end) s.
Proof.
  intros Hrd Hf Hok Hl Hr Hn E. unfold read_list. apply wp_on_exit, wp_in_gc.
  eapply wp_mono; [by apply wp_list_vars|]. intros [x|] w1 HP.
  - destruct HP as (-> & HI & C1). apply wp_on_exit.
    eapply wp_mono; [eapply (wp_items fuel rd f s.(mem) fuel [] (mk_scm s.(lx) w1 s.(out))); try done|].
    { unfold roomy in *. simpl. lia. }
    intros [[]|] s2; simpl.
    + destruct r as [[d n]|]; [|done]. intros (L2 & O2 & HC & C2). apply wp_bind, wp_in_gc.
      eapply wp_mono; [by apply wp_closed|]. intros v w3 [HX C3]. apply wp_ret. simpl. split_and!; [done|done|done|lia].
    + destruct r as [[d n]|]; [|done]. intros [|?]; [by left|right; lia].
  - destruct r as [[d n]|]; [|done]. right. lia.
Qed.

(** *** Atoms *)

(** A new string or symbol. *)
Lemma Made_read w p d t b w' :
  gc_ok w → Made w [] p t b w' → rep w'.(objs) d p {[p]} → Read w d p {[p]} w'.
Proof.
  intros Hok [M1 M2 M3 M4 M5 M6] HR. split; [done|done| |done]. intros a Ha.
  destruct (M3 a) as [Hne HE]; [by rewrite app_nil_r|]. split; [set_solver|done].
Qed.

Lemma str_data_text bs n rest :
  0 <= n <= Z.of_nat (length bs) → text_body (take (Z.to_nat n) bs) (Str n (str_data (bs ++ rest) n)).
Proof.
  intros Hn. exists (replicate 4 0). unfold str_data. rewrite length_take, take_app_le by lia.
  f_equal. lia.
Qed.

Lemma wp_read_symbol bs w :
  gc_ok w → w.(heap).(count) < 2 ^ 30 → 0 ∉ bs → Z.of_nat (length bs) < 2 ^ 31 →
  wp (gc_symbol malloc (bs ++ [0])) (λ x w', match x with
    | Some v => Read w (DSym bs) v {[v]} w' ∧ w'.(heap).(count) <= w.(heap).(count) + 1
    | None => oom malloc end) w.
Proof.
  intros Hok Hn Hz Hl. destruct (strlen_sym bs Hz) as [E _]. apply wp_bind, (wp_must _ _ _ _ E).
  assert (Es : s32 (Z.of_nat (length bs)) = Z.of_nat (length bs)).
  { unfold s32, u32. rewrite Z.mod_small by lia. by destruct (Z.ltb_spec (Z.of_nat (length bs)) 2147483648); [|lia]. }
  rewrite Es. eapply wp_alloc_str; [done|done|done|by right|lia|rewrite length_app; lia|done|].
  intros p w' HM. split; [|by apply HM]. eapply Made_read; [done|exact HM|]. split; [|done].
  eexists. split; [apply HM|]. pose proof (str_data_text bs (Z.of_nat (length bs)) [0]) as HT.
  rewrite Nat2Z.id, firstn_all in HT. apply HT. lia.
Qed.

Lemma wp_read_string bs n w :
  gc_ok w → w.(heap).(count) < 2 ^ 30 → 0 <= n < 2 ^ 31 → n <= Z.of_nat (length bs) →
  wp (gc_string malloc bs n) (λ x w', match x with
    | Some v => Read w (DStr (take (Z.to_nat n) bs)) v {[v]} w' ∧ w'.(heap).(count) <= w.(heap).(count) + 1
    | None => oom malloc end) w.
Proof.
  intros Hok Hn Hl Hb. eapply wp_alloc_str; [done|done|done|by left|lia|lia|done|].
  intros p w' HM. split; [|by apply HM]. eapply Made_read; [done|exact HM|]. split; [|done].
  eexists. split; [apply HM|]. pose proof (str_data_text bs n []) as HT. rewrite app_nil_r in HT. apply HT. lia.
Qed.

(** A value without objects. *)
Lemma Read_imm w d v : gc_ok w → rep w.(objs) d v ∅ → Read w d v ∅ w.
Proof. intros Hok HR. split; [done|done|set_solver|done]. Qed.
(** *** Quotations *)

Lemma Made_rep w vs p t b w' d v X :
  gc_ok w → Made w vs p t b w' → rep w.(objs) d v X → v ∈ root_vals w ++ vs → rep w'.(objs) d v X ∧ p ∉ X.
Proof.
  intros Hok HM HR Hv. assert (HX : ∀ a, a ∈ X → a ≠ p ∧ content w'.(objs) a = content w.(objs) a).
  { intros a Ha. apply HM. exists v. destruct (rep_reach _ _ _ _ _ (ok_objs _ Hok) HR Ha). done. }
  split; [eapply rep_ext; [|exact HR]; intros a Ha; by apply HX|]. intros Hp. by destruct (HX p Hp).
Qed.

Lemma Vars_made w0 vs k w us p t b w' :
  gc_ok w0 → Vars w0 vs k w → Made w us p t b w' → Vars w0 vs k w' ∧ ¬ live w0 p ∧ val_ok w'.(objs) p.
Proof.
  intros Hok0 HV HM. assert (HL : ∀ a, live w a → a ≠ p ∧ content w'.(objs) a = content w.(objs) a).
  { intros a Ha. apply HM. rewrite from_app. by left. }
  split_and!.
  - eapply Vars_step; [done|done|apply HM|apply HM|]. intros a Ha. by apply HL.
  - intros Hp%(Vars_live w0 Hok0 _ _ _ _ HV). by destruct (HL p Hp).
  - intros _. pose proof (md_new _ _ _ _ _ _ HM) as Hc. apply content_Some in Hc as (o & -> & _). eauto.
Qed.

Lemma rep_pair m d x X e y Y p :
  content m p = Some (OBJ_PAIR, Pair x y) → rep m d x X → rep m e y Y → X ## Y → p ∉ X ∪ Y →
  rep m (DPair d e) p ({[p]} ∪ (X ∪ Y)).
Proof. intros. by exists x, y, X, Y. Qed.

(** The pairs and the symbol around a quoted datum, whose list is in [v]. *)
Lemma wp_quote_tail w0 d p X w :
  gc_ok w0 → Vars w0 [p] 1 w → rep w.(objs) (DPair d DNil) p X → (∀ a, a ∈ X → ¬ live w0 a) →
  w.(heap).(count) + 1 < 2 ^ 30 →
  wp (q ⇐ gc_symbol malloc (str "quote" ++ [0]); c ← load_var (length w0.(vars) + 0); c ⇐ gc_cons malloc q c;
      store_var (length w0.(vars) + 0) c;; r ← pop_result 1 (length w0.(vars) + 0); mret (Some r))
    (λ x w', match x with
      | Some v => (∃ Y, Read w0 (DPair (DSym (str "quote")) (DPair d DNil)) v Y w') ∧
          w'.(heap).(count) <= w.(heap).(count) + 2
      | None => oom malloc ∨ 256 < w0.(heap).(nroots) + 3 end) w.
Proof.
  intros Hok0 HV HR HX Hn. apply wp_on_exit.
  eapply wp_mono; [apply wp_read_symbol; [apply HV|lia|vm_compute; set_solver|done]|].
  intros [q|] w1; [|by left]. intros [[R1 R2 R3 R4] C1].
  assert (HXl : ∀ a, a ∈ X → live w a).
  { intros a Ha. destruct (rep_reach _ _ _ _ _ (ok_objs _ (va_ok _ _ _ _ HV)) HR Ha).
    by apply (Vars_reach w0 Hok0 _ _ _ 0 p _ HV); [|lia|..]. }
  assert (HV1 : Vars w0 [p] 1 w1) by (eapply Vars_step; [done|done|done|done|]; intros a Ha; by apply R3).
  assert (HR1 : rep w1.(objs) (DPair d DNil) p X).
  { eapply rep_ext; [|exact HR]. intros a Ha. by apply R3, HXl. }
  assert (Hq : ¬ live w0 q).
  { intros Ha%(Vars_live w0 Hok0 _ _ _ _ HV). destruct (R3 q Ha). set_solver. }
  assert (HqX : q ∉ X) by (intros Ha; destruct (R3 q (HXl _ Ha)); set_solver).
  apply wp_bind. eapply wp_load_local; [exact HV1|done|]. apply wp_on_exit.
  eapply wp_gc_cons; [done|done|lia|by eapply rep_val_ok|by eapply rep_val_ok| |].
  { rewrite (va_nroots _ _ _ _ HV1). intros [?|?] w'; [by left|right; lia]. }
  intros c w2 HM. destruct (Vars_made w0 _ _ _ _ _ _ _ _ Hok0 HV1 HM) as (HV2 & Hc & Hvc).
  destruct (Made_rep _ _ _ _ _ _ _ _ _ R1 HM R2) as [RQ HcQ]; [set_solver|].
  destruct (Made_rep _ _ _ _ _ _ _ _ _ R1 HM HR1) as [RD HcX]; [set_solver|].
  apply wp_bind. eapply wp_store_local; [exact HV2|simpl; lia|done|]. intros w3 HV3 O3 E3. cbn [list_insert] in HV3.
  apply wp_bind. apply (wp_pop_result w0 Hok0 [c] w3 0 c); [done|done|]. intros w4 O1 O2 O4 C4.
  apply wp_ret. split; [|rewrite C4, E3; pose proof (md_count _ _ _ _ _ _ HM); lia].
  exists ({[c]} ∪ ({[q]} ∪ X)). split; [done| | |done].
  - rewrite O4, O3. eapply rep_pair; [apply HM|done|done|set_solver|set_solver].
  - intros a Ha. split; [set_solver|]. rewrite O4. by apply HV3.
Qed.

Lemma wp_read_quote fuel rd f s r l' :
  reads fuel rd f → gc_ok s.(mem) → lex_ok s.(lx) →
  s.(mem).(heap).(count) + 4 * Z.of_nat (rem s.(lx)) + 4 <= 2 ^ 30 → (rem s.(lx) < fuel)%nat →
  f s.(lx) = Some (r, l') →
  wp (read_quote malloc rd) (λ x s', match x, ref_quote <$> r with
    | Some v, Some (d, n) => s'.(lx) = l' ∧ s'.(out) = s.(out) ∧ (∃ X, Read s.(mem) d v X s'.(mem)) ∧
        s'.(mem).(heap).(count) + 4 * Z.of_nat (rem l') <= s.(mem).(heap).(count) + 4 * Z.of_nat (rem s.(lx)) + 2
    | Some _, None => False
    | None, Some (d, n) => oom malloc ∨ 256 < s.(mem).(heap).(nroots) + Z.of_nat n
    | None, None => True
    end) s.
Proof.
  intros Hrd Hok Hl Hr Hn E. set (w0 := s.(mem)) in *. unfold read_quote.
  apply wp_bind, wp_in_gc. eapply (wp_enter_var w0); [by apply Vars_nil|]. intros w1 V1 O1 E1. simpl in V1.
  apply wp_on_exit, wp_in_gc. eapply (wp_push_var w0 [VAL_NIL] 0); [exact V1|done|done| |].
  { intros Hd w'. destruct r as [[d n]|]; [|done]. right. simpl. lia. }
  intros w2 V2 O2 C2. apply wp_on_exit.
  assert (Cw : w2.(heap).(count) = w0.(heap).(count)) by (simpl in C2; by rewrite C2, E1).
  eapply wp_mono; [apply (Hrd (mk_scm s.(lx) w2 s.(out)) r l'); try done; [apply V2|unfold roomy; simpl; lia]|].
  pose proof (va_nroots _ _ _ _ V2) as Hnr.
  intros [v|] s3; simpl; destruct r as [[d n]|]; simpl; try done; [|intros [|?]; [by left|right; lia]].
  intros (L3 & U3 & (X & R3) & C3). destruct R3 as [R1 R2 R4 R5].
  assert (V3 : Vars w0 [VAL_NIL] 1 s3.(mem)) by (eapply Vars_step; [done|done|done|done|]; intros a Ha; by apply R4).
  assert (HX : ∀ a, a ∈ X → ¬ live w0 a).
  { intros a Ha Hla%(Vars_live w0 Hok _ _ _ _ V2). by destruct (R4 a Hla). }
  apply wp_in_gc. apply wp_on_exit. eapply wp_gc_cons; [done|done|lia|by eapply rep_val_ok|done| |].
  { rewrite (va_nroots _ _ _ _ V3). intros [?|?] w'; [by left|right; lia]. }
  intros p w4 HM. destruct (Vars_made w0 _ _ _ _ _ _ _ _ Hok V3 HM) as (V4 & Hp & Hvp).
  destruct (Made_rep _ _ _ _ _ _ _ _ _ R1 HM R2) as [RD HpX]; [set_solver|].
  apply wp_bind. eapply (wp_store_local w0); [exact V4|simpl; lia|done|].
  intros w5 V5 O5 E5. cbn [list_insert] in V5.
  assert (RP : rep w5.(objs) (DPair d DNil) p ({[p]} ∪ (X ∪ ∅))).
  { rewrite O5. eapply rep_pair; [apply HM|done|done|set_solver|set_solver]. }
  pose proof (md_count _ _ _ _ _ _ HM) as Hc4. pose proof (f_equal count E5) as C5.
  eapply wp_mono; [apply (wp_quote_tail w0 d p _ w5 Hok V5 RP); [set_solver|lia]|].
  intros [u|] w6; [intros [HY C6]; simpl; split_and!; (done || lia)|intros [|?]; [by left|right; lia]].
Qed.
(** *** The reader *)

Lemma reads_datum fuel : reads fuel (read_datum malloc uninit fuel) (ref_datum fuel).
Proof.
  induction fuel as [|fuel IH]; intros s r l' Hok Hl Hr Hn E; [lia|]. simpl in E |- *. unfold roomy in Hr.
  apply wp_on_exit. apply on_exit_inv in E as [[E ->]|(t & l1 & E & Ek)]; [by eapply wp_in_lex|].
  eapply wp_in_lex; [exact E|]. cbv beta iota.
  pose proof (wp_eq _ _ _ _ _ (wp_lex_next _ Hl) E) as (Hl1 & _ & _ & Ht & Hlt & _). clear E.
  assert (Himm : ∀ v d, t.(kind) ≠ TOK_EOF → r = Some (d, 0%nat) → l1 = l' → rep s.(mem).(objs) d v ∅ →
    read_post s r l' (Some v) (mk_scm l1 s.(mem) s.(out))).
  { intros v d Hk -> -> HR. specialize (Hlt Hk). simpl. split_and!; [done|done|exists ∅; by apply Read_imm|lia]. }
  unfold tok_ok in Ht. destruct (kind t) eqn:Ek2; try (unfold mret, M_ret in Ek; simplify_eq; apply wp_ret).
  all: try done; try (eapply Himm; [congruence|done|done|done]).
  - assert (rem l1 < rem s.(lx))%nat by by apply Hlt.
    apply on_exit_inv in Ek as [[Ek ->]|([d n] & l2 & Ek & E2)];
      (eapply wp_mono; [apply (wp_read_list fuel _ (ref_datum fuel) (mk_scm l1 s.(mem) s.(out))); try done;
        [by apply ref_datum_total|unfold roomy; simpl; lia|simpl; lia]|]).
    + by intros [v|] s2 HP.
    + unfold mret, M_ret in E2. simplify_eq. intros [v|] s2; simpl.
      * intros (L2 & O2 & HX & C2). split_and!; [done|done|done|lia].
      * intros [|?]; [by left|right; lia].
  - assert (rem l1 < rem s.(lx))%nat by by apply Hlt.
    apply on_exit_inv in Ek as [[Ek ->]|([d n] & l2 & Ek & E2)];
      (eapply wp_mono; [eapply (wp_read_quote fuel _ (ref_datum fuel) (mk_scm l1 s.(mem) s.(out)) _ _ IH); try done;
        [simpl; lia|simpl; lia]|]).
    + by intros [v|] s2 HP.
    + unfold mret, M_ret in E2. simplify_eq. intros [v|] s2; simpl.
      * intros (L2 & O2 & HX & C2). split_and!; [done|done|done|lia].
      * done.
  - destruct Ht as (bs & Es & Hb). rewrite Es in Ek |- *. unfold must, mbind, M_bind, mret, M_ret in Ek. simplify_eq.
    assert (rem l' < rem s.(lx))%nat by by apply Hlt.
    apply wp_bind, wp_some, wp_in_gc. eapply wp_mono; [apply wp_read_string; (done || lia || simpl; lia)|].
    intros [v|] w'; [|by left]. intros [HR HC]. simpl in *. split_and!; [done|done|by exists {[v]}|lia].
  - destruct Ht as (bs & Es & Hz & Hb). destruct (strlen_sym bs Hz) as [_ Ec]. rewrite Es in Ek |- *.
    unfold must, mbind, M_bind, mret, M_ret in Ek. rewrite Ec in Ek. simplify_eq.
    assert (rem l' < rem s.(lx))%nat by by apply Hlt.
    apply wp_bind, wp_some, wp_in_gc. eapply wp_mono; [apply wp_read_symbol; (done || simpl; lia)|].
    intros [v|] w'; [|by left]. intros [HR HC]. simpl in *. split_and!; [done|done|by exists {[v]}|lia].
Qed.

Definition forms_post (w0 : gc_mem) (ds : list datum) (s : scm) (r : option (list datum * nat)) (l' : lexer)
    (x : option unit) (s' : scm) : Prop :=
  match x, r with
  | Some _, Some (es, n) => s'.(lx) = l' ∧ s'.(out) = s.(out) ∧ Items w0 (ds ++ es) s'.(mem) ∧
      s'.(mem).(heap).(count) + 4 * Z.of_nat (rem l') <= s.(mem).(heap).(count) + 4 * Z.of_nat (rem s.(lx))
  | Some _, None => False
  | None, Some (es, n) => oom malloc ∨ 256 < w0.(heap).(nroots) + (4 + Z.of_nat n)
  | None, None => True
  end.

Lemma wp_forms n w0 fuel ds s r l' :
  gc_ok w0 → (fuel <= n)%nat → Items w0 ds s.(mem) → lex_ok s.(lx) → roomy s →
  (rem s.(lx) < fuel)%nat → ref_forms fuel (ref_datum n) s.(lx) = Some (r, l') →
  let k := length w0.(vars) in
  wp (ewhile fuel (λ _ : unit, read_form malloc uninit (k + 0) (k + 1) (k + 2) (k + 3) n) tt) (forms_post w0 ds s r l') s.
Proof.
  intros Hok0 Hfuel HI Hl Hr Hn E k. revert ds s r Hfuel HI Hl Hr Hn E.
  induction fuel as [|fuel IH]; intros ds s r Hfuel HI Hl Hr Hn E; [lia|].
  simpl in E |- *. apply wp_on_exit. unfold read_form. apply wp_on_exit. unfold roomy in Hr.
  apply on_exit_inv in E as [[E ->]|(t & l1 & E & Ek)]; [by eapply wp_in_lex|].
  eapply wp_in_lex; [exact E|]. cbv beta iota. destruct (peek_eq _ _ _ Hl E) as (Hl1 & Hr1 & _). clear E Hl.
  case_decide as Hk.
  { unfold mret, M_ret in Ek. simplify_eq. apply wp_ret, wp_ret. simpl. rewrite app_nil_r. split_and!; [done|done|done|lia]. }
  pose proof (ref_datum_total n l1 Hl1 ltac:(lia)) as (o & l2 & Ef & P1 & P2 & P3 & P4)%wp_run.
  eapply wp_mono; [eapply (wp_read_elem n _ _ w0 ds (mk_scm l1 s.(mem) s.(out)) o l2 (reads_datum n)); try done;
    unfold roomy; cbn [lx mem]; lia|].
  apply on_exit_inv in Ek as [[Ek ->]|(d & l2' & Ek & E2)].
  { assert (o = None) as -> by congruence. intros [[[]|[]]|] s2 HP; done. }
  assert (o = Some d ∧ l2' = l2) as [-> ->] by (split; congruence). assert (rem l2 < rem l1)%nat by (apply P4; eauto).
  intros [[[]|[]]|] s2 HP; cbn [lx mem out] in HP; [|done|].
  - destruct HP as (L2 & O2 & I2 & C2). apply on_exit_inv in E2 as [[E2 ->]|([es m] & l3 & E2 & E3)];
      [|injection E3 as <- ->];
      (eapply wp_mono; [eapply (IH (ds ++ [d.1])); [lia|done|by rewrite L2|unfold roomy; rewrite L2; lia|by rewrite L2; lia|rewrite L2; exact E2]|]).
    + intros [[]|] s3 HP3; done.
    + intros [[]|] s3; simpl.
      * intros (L3 & O3 & I3 & C3). rewrite L2 in C3. rewrite <-app_assoc in I3. split_and!; [done|congruence|done|lia].
      * intros [|?]; [by left|right; lia].
  - apply on_exit_inv in E2 as [[E2 ->]|([es m] & l3 & E2 & E3)]; [done|].
    unfold mret, M_ret in E3. simplify_eq/=. destruct HP as [|?]; [by left|right; lia].
Qed.

(** The reference for a whole program. *)
Definition ref_program (l : lexer) : option (option (list datum * nat)) :=
  let fuel := S (2 * length l.(src_buf)) in fst <$> ref_forms fuel (ref_datum fuel) l.

Lemma rem_bound l : lex_ok l → (rem l < S (2 * length l.(src_buf)))%nat.
Proof. intros [[_ Hp _] _ _]. unfold rem. case_match; lia. Qed.

Lemma ref_program_total l : lex_ok l → ∃ r, ref_program l = Some r.
Proof.
  intros Hl. pose proof (ref_forms_total _ _ _ (ref_datum_total (S (2 * length l.(src_buf)))) ltac:(done) l Hl (rem_bound l Hl))
    as (r & l' & E & _)%wp_run. exists r. unfold ref_program. by rewrite E.
Qed.

Lemma wp_scm_read_all s r :
  gc_ok s.(mem) → lex_ok s.(lx) → roomy s → ref_program s.(lx) = Some r →
  wp (scm_read_all malloc uninit) (λ x s', match x, r with
    | Some v, Some (ds, n) => s'.(out) = s.(out) ∧ (∃ X, Read s.(mem) (dlist ds DNil) v X s'.(mem)) ∧
        s'.(mem).(heap).(count) <= s.(mem).(heap).(count) + 4 * Z.of_nat (rem s.(lx))
    | Some _, None => False
    | None, Some (ds, n) => oom malloc ∨ 256 < s.(mem).(heap).(nroots) + (4 + Z.of_nat n)
    | None, None => True
    end) s.
Proof.
  intros Hok Hl Hr E. unfold ref_program in E. set (fuel := S _) in E.
  destruct (ref_forms _ _ _) as [[r' l']|] eqn:Ef; simplify_eq/=.
  unfold scm_read_all. apply wp_on_exit, wp_in_gc.
  eapply wp_mono; [by apply wp_list_vars|]. intros [x|] w1 HP.
  - destruct HP as (-> & HI & C1). apply wp_bind. apply wp_bind, wp_get, wp_ret. fold fuel. apply wp_on_exit.
    eapply wp_mono; [apply (wp_forms fuel s.(mem) fuel [] (mk_scm s.(lx) w1 s.(out)) r l'); try done|].
    { unfold roomy in *. simpl. lia. }
    { by apply rem_bound. }
    intros [[]|] s2; simpl.
    + destruct r as [[ds n]|]; [|done]. intros (L2 & O2 & HC & C2). apply wp_bind, wp_in_gc.
      eapply wp_mono; [apply wp_closed; [done|by apply Items_closed]|]. intros v w3 [HX C3]. apply wp_ret. simpl.
      split_and!; [done|done|lia].
    + by destruct r as [[ds n]|].
  - destruct r as [[ds n]|]; [|done]. right. lia.
Qed.
End reader.
