(* ===== verification/SchemePrint.v ===== *)
(** * The printer of TinScheme, and reading its output

    What src/portable-compiler/demo/scheme/print.c prints for a datum, and
    that the lexer and the reference reader get the datum back. *)

From stdpp Require Import gmap.
From S2P Require Import Prelude Gc GcInv GcCollect Scheme SchemeLex SchemeData SchemeRead.

#[local] Arguments Z.mul : simpl never.
#[local] Arguments Z.of_nat : simpl never.
#[local] Arguments digits : simpl never.

(** ** The text of a datum *)

(** A C string ends at the first 0. *)
Fixpoint cut (bs : list Z) : list Z :=
  match bs with
  | [] => []
  | b :: bs => if b =? 0 then [] else b :: cut bs
  end.

(** The text of a datum, or ([tl]) of the rest of a list. *)
Fixpoint text (tl : bool) (d : datum) : list Z :=
  match d with
  | DNil => if tl then [] else str "()"
  | DPair a d => (if tl then str " " else str "(") ++ text false a ++ text true d ++ (if tl then [] else str ")")
  | DBool b => (if tl then str " . " else []) ++ (if b then str "#t" else str "#f")
  | DNum z => (if tl then str " . " else []) ++ dec (s32 z)
  | DStr bs => (if tl then str " . " else []) ++ [34] ++ cut bs ++ [34]
  | DSym bs => (if tl then str " . " else []) ++ cut bs
  end.

Definition is_dpair (d : datum) : bool := match d with DPair _ _ => true | _ => false end.

Lemma text_atom d : is_dpair d = false → d ≠ DNil → text true d = str " . " ++ text false d.
Proof. by destruct d. Qed.

Lemma c_string_cut bs pad : c_string (bs ++ 0 :: pad) = Some (cut bs).
Proof. induction bs as [|b bs IH]; simpl; [done|]. destruct (b =? 0); [done|]. by rewrite IH. Qed.

(** ** The printer *)

Definition printed (s : scm) (bs : list Z) : scm := mk_scm s.(lx) s.(mem) (s.(out) ++ bs).

Lemma printed_app s bs bs' : printed (printed s bs) bs' = printed s (bs ++ bs').
Proof. unfold printed. simpl. by rewrite app_assoc. Qed.

Lemma printed_nil s : printed s [] = s.
Proof. destruct s. unfold printed. simpl. by rewrite app_nil_r. Qed.

Lemma wp_puts bs s (Q : unit → scm → Prop) : Q tt (printed s bs) → wp (puts bs) Q s.
Proof. done. Qed.

Lemma wp_text v t bs b s (Q : list Z → scm → Prop) :
  content s.(mem).(objs) v = Some (t, b) → text_body bs b → Q (cut bs) s → wp (get_text v) Q s.
Proof.
  intros Hc (pad & ->) HQ. apply wp_bind, wp_in_gc. eapply wp_get_str; [exact Hc|]. simpl.
  apply (wp_must _ (cut bs)); [apply c_string_cut|]. by destruct s.
Qed.

Lemma wp_pair_at v t x y s (Q : Z → scm → Prop) :
  content s.(mem).(objs) v = Some (t, Pair x y) → Q x s → wp (in_gc (gc_car v)) Q s.
Proof. intros Hc HQ. apply wp_in_gc, wp_bind. eapply wp_get_pair; [exact Hc|]. by destruct s. Qed.

Lemma wp_pair_cdr v t x y s (Q : Z → scm → Prop) :
  content s.(mem).(objs) v = Some (t, Pair x y) → Q y s → wp (in_gc (gc_cdr v)) Q s.
Proof. intros Hc HQ. apply wp_in_gc, wp_bind. eapply wp_get_pair; [exact Hc|]. by destruct s. Qed.

Lemma wp_type_at {A} v t b s (k : Z → M scm A) (Q : A → scm → Prop) :
  content s.(mem).(objs) v = Some (t, b) → wp (k t) Q s → wp (o ← in_gc (deref v); k o.(type)) Q s.
Proof.
  intros (o & Ho & <- & _)%content_Some HQ. apply wp_bind, wp_in_gc. eapply wp_deref; [exact Ho|]. by destruct s.
Qed.

(** The tests before the type of an object is looked at. *)
Lemma ptr_tests v : IS_PTR v = true →
  IS_NIL v = false ∧ (v =? VAL_TRUE) = false ∧ (v =? VAL_FALSE) = false ∧ IS_FIX v = false.
Proof.
  unfold IS_PTR, IS_NIL, IS_FIX. intros [Ht Hn]%andb_true_iff. apply Z.eqb_eq in Ht. apply negb_true_iff in Hn.
  split_and!; [done| | |by rewrite Ht]; apply Z.eqb_neq; intros ->; done.
Qed.

Lemma wp_is_pair m d v X s (Q : bool → scm → Prop) :
  objs_ok m → m = s.(mem).(objs) → rep m d v X → Q (is_dpair d) s → wp (is_pair v) Q s.
Proof.
  intros Hm Em HR HQ. subst m. unfold is_pair.
  assert (Himm : IS_PTR v = false → is_dpair d = false → wp (is_pair v) Q s).
  { intros E E2. unfold is_pair. rewrite E. rewrite E2 in HQ. by apply wp_ret. }
  assert (Hobj : ∀ t b, content s.(mem).(objs) v = Some (t, b) → (t =? OBJ_PAIR) = is_dpair d → wp (is_pair v) Q s).
  { intros t b Hc Ht. unfold is_pair. rewrite (content_ptr _ _ _ Hm Hc). eapply (wp_type_at v t b s (λ t, mret (t =? OBJ_PAIR))); [done|].
    rewrite Ht. by apply wp_ret. }
  fold (is_pair v). destruct d as [|b|z|bs|bs|a d]; simpl in HR.
  - destruct HR as [-> _]. by apply Himm.
  - destruct HR as [-> _]. apply Himm; [by destruct b|done].
  - destruct HR as [-> _]. apply Himm; [apply fix_not_ptr|done].
  - destruct HR as [(b & Hb & _) _]. by eapply Hobj.
  - destruct HR as [(b & Hb & _) _]. by eapply Hobj.
  - destruct HR as (x & y & X1 & X2 & Hc & _). by eapply Hobj.
Qed.

(** The rest of a list, up to its end [e]. *)
Lemma wp_print_rest (print : Z → M scm unit) (n k : nat) d v X s :
  objs_ok s.(mem).(objs) → rep s.(mem).(objs) d v X → (cells d < k)%nat → (cells d < n)%nat →
  (∀ d v X s', s'.(mem) = s.(mem) → rep s.(mem).(objs) d v X → (cells d < n)%nat →
    wp (print v) (λ _ s'', s'' = printed s' (text false d)) s') →
  wp (mwhile (S := scm) (A := Z) (B := Z) k (λ rest,
        b ← is_pair rest;
        if (b : bool) then
          puts (str " ");;
          x ← in_gc (gc_car rest);
          print x;;
          rest ← in_gc (gc_cdr rest);
          mret (inl rest)
        else mret (inr rest)) v)
    (λ r s', ∃ e Y bs, rep s.(mem).(objs) e r Y ∧ is_dpair e = false ∧ (cells e <= cells d)%nat ∧
       s' = printed s bs ∧ text true d = bs ++ text true e) s.
Proof.
  intros Hm HR Hk Hn HP. remember (mem s) as m eqn:Em. assert (E0 : mem s = m) by done. clear Em.
  revert v X k s HR Hk HP E0. induction d as [|b|z|bs|bs|a _ d IHd]; intros v X k s HR Hk HP E0;
    (destruct k as [|k]; [lia|]); simpl mwhile; apply wp_bind.
  1-5: apply wp_bind; eapply wp_is_pair; [done|by rewrite E0|exact HR|]; apply wp_ret, wp_ret;
    eexists _, X, []; (split_and!; [exact HR|done|done|by rewrite printed_nil|done]).
  apply wp_bind. eapply wp_is_pair; [done|by rewrite E0|exact HR|]. simpl is_dpair. cbv iota.
  destruct HR as (x & y & X1 & X2 & Hc & Ha & Hd & _). simpl in Hk, Hn.
  apply wp_bind, wp_puts, wp_bind. eapply wp_pair_at; [simpl; by rewrite E0|].
  apply wp_bind. eapply wp_mono; [apply (HP a x X1); [done|done|lia]|]. intros [] s2 ->. rewrite printed_app.
  apply wp_bind. eapply wp_pair_cdr; [simpl; by rewrite E0|]. apply wp_ret.
  eapply wp_mono; [eapply (IHd ltac:(lia) y X2 k (printed s (str " " ++ text false a))); [done|lia| |done]|].
  - intros d0 v0 X0 s' Es. by apply HP.
  - intros r s3 (e & Y & bs & He & Hp & Hce & -> & Ht). exists e, Y, (str " " ++ text false a ++ bs).
    split_and!; [done|done|simpl; lia|by rewrite printed_app, <-app_assoc|].
    change (text true (DPair a d)) with (str " " ++ text false a ++ text true d ++ []).
    by rewrite app_nil_r, Ht, !app_assoc.
Qed.

(** C code that prints a value prints the text of its datum. *)
Lemma wp_scm_print fuel d v X s :
  objs_ok s.(mem).(objs) → rep s.(mem).(objs) d v X → (cells d < fuel)%nat →
  wp (scm_print fuel v) (λ _ s', s' = printed s (text false d)) s.
Proof.
  revert d v X s. induction fuel as [|fuel IH]; intros d v X s Hm HR Hf; [lia|]. simpl scm_print.
  destruct d as [|b|z|bs|bs|a d].
  - destruct HR as [-> _]. by apply wp_puts.
  - destruct HR as [-> _]. destruct b; by apply wp_puts.
  - destruct HR as [-> _]. pose proof (MAKE_FIX_tag z) as Ht.
    assert (Hne : ∀ u, u mod 4 ≠ 1 → (MAKE_FIX z =? u) = false) by (intros u Hu; apply Z.eqb_neq; congruence).
    unfold IS_NIL. rewrite !Hne by done. rewrite fix_is_fix, GET_MAKE_FIX. by apply wp_puts.
  - destruct HR as [(b & Hc & Hb) _]. destruct (ptr_tests v) as (-> & -> & -> & ->); [by eapply content_ptr|].
    rewrite (content_ptr _ _ _ Hm Hc). simpl. pose proof Hc as (o & Ho & Et & _)%content_Some.
    apply wp_bind, wp_in_gc. eapply wp_deref; [exact Ho|]. rewrite Et. simpl.
    apply wp_bind. eapply wp_text; [exact Hc|done|]. apply wp_puts. by destruct s.
  - destruct HR as [(b & Hc & Hb) _]. destruct (ptr_tests v) as (-> & -> & -> & ->); [by eapply content_ptr|].
    rewrite (content_ptr _ _ _ Hm Hc). simpl. pose proof Hc as (o & Ho & Et & _)%content_Some.
    apply wp_bind, wp_in_gc. eapply wp_deref; [exact Ho|]. rewrite Et. simpl.
    apply wp_bind. eapply wp_text; [exact Hc|done|]. apply wp_puts. by destruct s.
  - destruct HR as (x & y & X1 & X2 & Hc & Ha & Hd & _). simpl in Hf.
    destruct (ptr_tests v) as (-> & -> & -> & ->); [by eapply content_ptr|].
    rewrite (content_ptr _ _ _ Hm Hc). pose proof Hc as (o & Ho & Et & _)%content_Some. cbn [negb].
    apply wp_bind, wp_in_gc. eapply wp_deref; [exact Ho|]. rewrite Et. cbn [Z.eqb OBJ_PAIR OBJ_SYMBOL OBJ_STRING].
    replace (mk_scm (lx s) (mem s) (out s)) with s by (by destruct s).
    apply wp_bind, wp_puts, wp_bind. eapply wp_pair_at; [exact Hc|].
    apply wp_bind. eapply wp_mono; [apply (IH a x X1); [done|done|lia]|]. intros [] s2 ->. rewrite printed_app.
    apply wp_bind. eapply wp_pair_cdr; [exact Hc|]. apply wp_bind.
    eapply wp_mono; [apply (wp_print_rest (scm_print fuel) fuel fuel d y X2); [done|done|lia|lia|]|].
    { intros d0 v0 X0 s' Es HR0 Hc0. eapply (IH d0 v0 X0); rewrite ?Es; done. }
    intros r s3 (e & Y & bs & He & Hp & Hce & -> & Ht). rewrite printed_app.
    assert (Hend : text false (DPair a d) = ((str "(" ++ text false a) ++ bs ++ text true e) ++ str ")").
    { change (text false (DPair a d)) with (str "(" ++ text false a ++ text true d ++ str ")"). by rewrite Ht, !app_assoc. }
    destruct (decide (e = DNil)) as [->|Hne].
    + destruct He as [-> _]. change (negb (IS_NIL VAL_NIL)) with false. apply wp_bind, wp_ret, wp_puts.
      rewrite Hend, printed_app. f_equal. change (text true DNil) with (@nil Z). by rewrite (app_nil_r bs).
    + assert (Hnil : IS_NIL r = false).
      { destruct e as [|b| | | |]; try done; simpl in He.
        - destruct He as [-> _]. by destruct b.
        - destruct He as [-> _]. unfold IS_NIL. apply Z.eqb_neq. intros E. pose proof (MAKE_FIX_tag z). by rewrite E in *.
        - destruct He as [(b & Hb & _) _]. by apply ptr_tests, (content_ptr _ _ _ Hm Hb).
        - destruct He as [(b & Hb & _) _]. by apply ptr_tests, (content_ptr _ _ _ Hm Hb). }
      rewrite Hnil. cbn [negb]. apply wp_bind, wp_bind, wp_puts. rewrite printed_app.
      eapply wp_mono; [apply (IH e r Y); [done|done|lia]|]. intros [] s4 ->. apply wp_puts.
      rewrite !printed_app, Hend. f_equal. rewrite (text_atom e) by done. by rewrite <-!app_assoc.
Qed.
