(* ===== verification/SchemeRound.v ===== *)
(** * Printed data are read back

    The lexer on the text that the printer writes, and the reference reader
    on a whole program. *)

From stdpp Require Import gmap.
From S2P Require Import Prelude Gc GcInv GcCollect Scheme SchemeLex SchemeData SchemeRead SchemePrint.

#[local] Arguments Z.mul : simpl never.
#[local] Arguments Z.of_nat : simpl never.

(** ** The text ahead *)

Definition ahead (l : lexer) : list Z := drop (Z.to_nat l.(lex_p)) l.(src_buf).

Lemma char_ahead l i : pos_ok l → 0 <= i → char_at l i = ahead l !! Z.to_nat i.
Proof.
  intros Hl Hi. pose proof (po_p _ Hl). unfold char_at, ahead.
  rewrite aget_lookup, lookup_drop by lia. f_equal. lia.
Qed.

Lemma ahead_set_p l k : pos_ok l → 0 <= k → ahead (set_p (l.(lex_p) + k) l) = drop (Z.to_nat k) (ahead l).
Proof.
  intros Hl Hk. pose proof (po_p _ Hl). unfold ahead. simpl. rewrite drop_drop. f_equal. lia.
Qed.

(** The text begins with the run [bs]. *)
Lemma run_ahead test l bs c rest :
  pos_ok l → ahead l = bs ++ c :: rest → Forall (λ c, test c = true) bs → test c = false →
  run test l (Z.of_nat (length bs)).
Proof.
  intros Hl E Hbs Hc. split; [lia| |].
  - intros i Hi. rewrite char_ahead, E by (done || lia).
    destruct (lookup_lt_is_Some_2 bs (Z.to_nat i)) as [d Hd]; [lia|]. exists d.
    rewrite lookup_app_l by lia. split; [done|]. by apply (Forall_lookup_1 _ _ _ _ Hbs Hd).
  - exists c. rewrite char_ahead, E, Nat2Z.id by (done || lia). by rewrite lookup_app_r, Nat.sub_diag.
Qed.

Definition blank (c : Z) : bool := (c =? 32) || (c =? 10).
Definition solid (c : Z) : bool := negb (existsb (Z.eqb c) [32; 9; 13; 10; 59]).

Lemma wp_skip_exact l ws c rest :
  pos_ok l → ahead l = ws ++ c :: rest → Forall (λ c, blank c = true) ws → solid c = true →
  wp skip_ws (λ _ l', Moves l l' ∧ ahead l' = c :: rest) l.
Proof.
  intros Hl E Hws Hc. apply wp_bind, wp_lex_fuel. pose proof (po_p _ Hl) as Hp.
  apply (wp_mwhile (λ _ l', Moves l l' ∧ ∃ ws, ahead l' = ws ++ c :: rest ∧ Forall (λ c, blank c = true) ws)
    (λ _ l', length (ahead l'))); [split; [by apply Moves_refl|eauto]|unfold ahead; rewrite length_drop; lia|].
  clear ws E Hws. intros _ l1 (H1 & ws & E & Hws). pose proof (mo_ok _ _ H1) as Hok1.
  set (test := λ c, (c =? 32) || (c =? 9) || (c =? 13)).
  assert (Hct : test c = false) by (unfold solid in Hc; unfold test; simpl in Hc; lia).
  assert (∃ a b, ws = a ++ b ∧ Forall (λ c, test c = true) a ∧ match b with [] => True | d :: _ => d = 10 end)
    as (a & b & -> & Ha & Hb).
  { clear -Hws. induction Hws as [|d ws Hd _ (a & b & -> & Ha & Hb)]; [by exists [], []|].
    unfold blank in Hd. destruct (decide (d = 32)) as [E|].
    - subst d. exists (32 :: a), b. split_and!; [done|by constructor|done].
    - exists [], (d :: a ++ b). split_and!; [done|done|lia]. }
  assert (Hrun : run test l1 (Z.of_nat (length a))).
  { destruct b as [|d b]; [rewrite app_nil_r in E; by eapply run_ahead|]. subst d.
    rewrite <-app_assoc in E. by eapply run_ahead. }
  pose proof (run_in _ _ _ Hok1 eq_refl Hrun) as Hin.
  apply wp_bind. eapply wp_skip_while; [done|exact Hrun|done|].
  assert (H2 : Moves l1 (set_p (lex_p l1 + Z.of_nat (length a)) l1)) by (apply set_p_moves; (done || lia)).
  assert (E2 : ahead (set_p (lex_p l1 + Z.of_nat (length a)) l1) = b ++ c :: rest).
  { rewrite ahead_set_p, E, Nat2Z.id, <-app_assoc by (done || lia). by rewrite drop_app_length. }
  set (l2 := set_p _ l1) in *. pose proof (mo_ok _ _ H2) as Hok2. pose proof (po_p _ Hok2) as Hp2.
  apply wp_bind. destruct b as [|d b].
  - eapply wp_at_p; [rewrite char_ahead, E2 by done; done|]. unfold solid in Hc. simpl in Hc.
    apply wp_if; intros; [lia|]. apply wp_if; intros; [lia|]. apply wp_ret. split; [by eapply Moves_trans|done].
  - subst d. assert (Hc2 : char_at l2 0 = Some 10) by (by rewrite char_ahead, E2).
    eapply wp_at_p; [exact Hc2|]. change (10 =? 10) with true. cbv iota.
    apply char_nz in Hc2 as Hlt; [|done|lia|done]. pose proof (po_line _ Hok2).
    apply wp_bind, wp_get, wp_bind, wp_int; [pose proof (gs_len _ (po_src _ Hok2)); lia|].
    apply wp_bind, wp_mod, wp_bind, wp_advance, wp_ret.
    assert (E3 : ahead (set_p (lex_p l2 + 1) l2) = b ++ c :: rest) by (rewrite (ahead_set_p l2 1), E2 by (done || lia); reflexivity).
    split; [split|].
    + do 2 (eapply Moves_trans; [done|]). split; simpl; [|done|lia|done|done].
      split; simpl; [apply Hok2|simpl in *; lia|simpl in *; lia].
    + exists b. split; [exact E3|]. apply Forall_app in Hws as [_ Hws]. by inversion Hws.
    + change (length (ahead (set_p (lex_p l2 + 1) l2)) < length (ahead l1))%nat.
      rewrite E3, E, !length_app. simpl. lia.
Qed.

(** ** Tokens *)

(** From the text [bs] the lexer gets a token with [T], and [rest] is left. *)
Definition Lex (bs : list Z) (T : token → Prop) (rest : list Z) : Prop :=
  ∀ l, pos_ok l → ahead l = bs →
    wp lex_one (λ r l', ∃ t, r = Some t ∧ T t ∧ Moves l l' ∧ ahead l' = rest) l.

Definition blanks (ws : list Z) : Prop := Forall (λ c, blank c = true) ws.

Lemma Lex_tok ws c bs T rest :
  blanks ws → solid c = true →
  (∀ l, pos_ok l → ahead l = c :: bs → char_at l 0 = Some c →
    wp lex_tok (λ r l', ∃ t, r = Some t ∧ T t ∧ Moves l l' ∧ ahead l' = rest) l) →
  Lex (ws ++ c :: bs) T rest.
Proof.
  intros Hws Hc HT l Hl E. apply wp_bind. eapply wp_mono; [by eapply wp_skip_exact|]. intros [] l1 [H1 E1].
  assert (Hok1 : pos_ok l1) by apply H1.
  eapply wp_mono; [apply HT; [done|done|by rewrite char_ahead, E1]|].
  intros r l2 (t & -> & Ht & H2 & E2). exists t. split_and!; [done|done|by eapply Moves_trans|done].
Qed.

Definition lex_end (c : Z) : Prop := is_sym_char c = false.

Lemma next_ahead l c bs : pos_ok l → ahead l = c :: bs → c ≠ 0 →
  Moves l (set_p (l.(lex_p) + 1) l) ∧ ahead (set_p (l.(lex_p) + 1) l) = bs.
Proof.
  intros Hl E Hc. split; [eapply next_moves; [done|by rewrite char_ahead, E|done]|].
  rewrite ahead_set_p, E by (done || lia). done.
Qed.

Lemma wp_make1_at l c bs k : pos_ok l → ahead l = c :: bs → c ≠ 0 →
  wp (make1 k) (λ r l', ∃ t, r = Some t ∧ t.(kind) = k ∧ Moves l l' ∧ ahead l' = bs) l.
Proof.
  intros Hl E Hc. destruct (next_ahead l c bs Hl E Hc). apply wp_bind, wp_advance, wp_bind, wp_make, wp_ret.
  eexists. split_and!; done.
Qed.

Lemma Lex_lparen ws bs : blanks ws → Lex (ws ++ 40 :: bs) (λ t, t.(kind) = TOK_LPAREN) bs.
Proof.
  intros Hws. apply Lex_tok; [done|done|]. intros l Hl E Hc. apply wp_bind, wp_make, wp_bind.
  eapply wp_at_p; [exact Hc|]. by eapply wp_make1_at.
Qed.

Lemma Lex_rparen ws bs : blanks ws → Lex (ws ++ 41 :: bs) (λ t, t.(kind) = TOK_RPAREN) bs.
Proof.
  intros Hws. apply Lex_tok; [done|done|]. intros l Hl E Hc. apply wp_bind, wp_make, wp_bind.
  eapply wp_at_p; [exact Hc|]. by eapply wp_make1_at.
Qed.

Lemma Lex_dot ws c bs :
  blanks ws → is_sym_char c = false → Lex (ws ++ 46 :: c :: bs) (λ t, t.(kind) = TOK_DOT) (c :: bs).
Proof.
  intros Hws Hs. apply Lex_tok; [done|done|]. intros l Hl E Hc. apply wp_bind, wp_make, wp_bind.
  eapply wp_at_p; [exact Hc|]. simpl (_ =? _). cbv iota. simpl orb. cbv iota.
  apply wp_bind. eapply wp_at_p; [by rewrite char_ahead, E by done|].
  simpl (isdigit 46). simpl orb. simpl andb. cbv iota. rewrite Hs. simpl. by eapply wp_make1_at.
Qed.

Lemma Lex_eof ws : blanks ws → Lex (ws ++ [0]) (λ t, t.(kind) = TOK_EOF) [0].
Proof.
  intros Hws. apply Lex_tok; [done|done|]. intros l Hl E Hc. apply wp_bind, wp_make, wp_bind.
  eapply wp_at_p; [exact Hc|]. apply wp_ret. eexists. split_and!; [done|done|by apply Moves_refl|done].
Qed.

Lemma Lex_bool ws (b : bool) c bs :
  blanks ws → is_sym_char c = false →
  Lex (ws ++ (if b then str "#t" else str "#f") ++ c :: bs)
    (λ t, t.(kind) = if b then TOK_TRUE else TOK_FALSE) (c :: bs).
Proof.
  intros Hws Hs. replace ((if b then str "#t" else str "#f") ++ c :: bs)
    with (35 :: (if b then 116 else 102) :: c :: bs) by (by destruct b).
  apply Lex_tok; [done|done|]. intros l Hl E Hc. apply wp_bind, wp_make, wp_bind.
  eapply wp_at_p; [exact Hc|]. simpl (_ =? _). cbv iota.
  destruct (next_ahead l _ _ Hl E) as [H1 E1]; [done|]. apply wp_bind, wp_advance.
  set (l1 := set_p (lex_p l + 1) l) in *. pose proof (mo_ok _ _ H1) as Hok1.
  destruct (next_ahead l1 _ _ Hok1 E1) as [H2 E2]; [by destruct b|]. cbv zeta.
  apply wp_bind. eapply wp_at_p; [by rewrite char_ahead, E1 by done|]. simpl lookup.
  destruct b; simpl (_ =? _); cbv iota.
  all: apply wp_bind, wp_advance; set (l2 := set_p (lex_p l1 + 1) l1) in *; pose proof (mo_ok _ _ H2) as Hok2;
    apply wp_bind; (eapply wp_at_p; [by rewrite char_ahead, E2 by done|]); simpl lookup; rewrite Hs;
    apply wp_bind, wp_make, wp_ret; eexists; split_and!; [done|done|by eapply Moves_trans|done].
Qed.

Lemma Lex_string ws bs rest :
  blanks ws → Forall (λ c, plain c = true) bs →
  Lex (ws ++ (34 :: bs ++ [34]) ++ rest)
    (λ t, t.(kind) = TOK_STR ∧ (∃ buf, t.(sval) = Some buf ∧ take (Z.to_nat t.(slen)) buf = bs)) rest.
Proof.
  intros Hws Hbs. simpl. rewrite <-app_assoc. simpl. apply Lex_tok; [done|done|]. intros l Hl E Hc.
  apply wp_bind, wp_make, wp_bind. eapply wp_at_p; [exact Hc|]. simpl (_ =? _). cbv iota.
  assert (Hend : char_at l (1 + Z.of_nat (length bs)) = Some 34).
  { rewrite char_ahead, E by (done || lia). replace (Z.to_nat _) with (S (length bs)) by lia.
    simpl. by rewrite lookup_app_r, Nat.sub_diag by done. }
  eapply (wp_lex_plain l bs); [done|done|done| |done|].
  - intros i Hi. rewrite char_ahead, E by (done || lia). replace (Z.to_nat _) with (S i) by lia.
    simpl. by rewrite lookup_app_l.
  - intros buf Hb Hlen. eexists. split_and!; [done|done| | |].
    + exists buf. split; [done|]. simpl. by rewrite Nat2Z.id.
    + apply set_p_moves; [done|lia|]. apply char_nz in Hend; [lia|done|pose proof (po_p _ Hl); lia|done].
    + rewrite ahead_set_p, E by (done || lia). replace (Z.to_nat _) with (S (length bs + 1)) by lia.
      simpl. by rewrite drop_app_add.
Qed.

(** Symbols that are not numbers or the dot. *)
Definition good_sym (bs : list Z) : Prop :=
  Forall (λ c, is_sym_char c = true) bs ∧
  match bs with
  | [] => False
  | [c] => isdigit c = false ∧ c ≠ 46
  | c :: d :: _ => isdigit c = false ∧ (c = 45 ∨ c = 43 → isdigit d = false)
  end.

Lemma sym_solid c : is_sym_char c = true → solid c = true.
Proof.
  unfold is_sym_char, isalnum, isdigit, solid. simpl. intros H.
  repeat match goal with |- context [?a =? ?b] => destruct (Z.eqb_spec a b); [subst; done|] end. done.
Qed.

Lemma sym_first c : is_sym_char c = true →
  (c =? 0) = false ∧ (c =? 40) = false ∧ (c =? 41) = false ∧ (c =? 39) = false ∧ (c =? 35) = false ∧ (c =? 34) = false.
Proof. intros H. split_and!; apply Z.eqb_neq; intros ->; done. Qed.

Lemma Lex_symbol ws bs c rest :
  blanks ws → good_sym bs → is_sym_char c = false →
  Lex (ws ++ bs ++ c :: rest) (λ t, t.(kind) = TOK_SYM ∧ t.(sval) = Some (bs ++ [0])) (c :: rest).
Proof.
  intros Hws [Hbs Hg] Hc. destruct bs as [|b bs]; [done|]. pose proof (Forall_inv Hbs) as Hb. simpl in Hb.
  simpl. apply Lex_tok; [done|by apply sym_solid|]. intros l Hl E Hb0.
  apply wp_bind, wp_make, wp_bind. eapply wp_at_p; [exact Hb0|].
  destruct (sym_first b Hb) as (-> & -> & -> & -> & -> & ->).
  assert (Hrun : run is_sym_char l (Z.of_nat (length (b :: bs)))) by (by eapply run_ahead).
  pose proof (run_in _ _ _ Hl eq_refl Hrun) as Hin.
  apply wp_bind. apply (wp_mono _ (λ c1 l', l' = l ∧
    (isdigit b || (((b =? 45) || (b =? 43)) && isdigit c1) = false) ∧ ((b =? 46) && negb (is_sym_char c1) = false))).
  { destruct bs as [|d bs].
    - assert (Hc1 : char_at l 1 = Some c) by (by rewrite char_ahead, E by done). destruct Hg as [Hd H46].
      assert (Hnd : isdigit c = false).
      { destruct (isdigit c) eqn:Ed; [|done]. unfold is_sym_char, isalnum in Hc. by rewrite Ed in Hc. }
      apply wp_if; intros _; [eapply wp_at_p; [exact Hc1|]|apply wp_ret]; rewrite Hd, ?Hnd, ?andb_false_r;
        (split_and!; [done|done|]); destruct (Z.eqb_spec b 46); done.
    - assert (Hc1 : char_at l 1 = Some d) by (by rewrite char_ahead, E by done). destruct Hg as [Hd H46].
      assert (Hds : is_sym_char d = true) by (inversion Hbs as [|? ? ? Hbs2]; by inversion Hbs2).
      apply wp_if; intros Ht; [eapply wp_at_p; [exact Hc1|]|apply wp_ret]; rewrite Hd, ?Hds, ?andb_false_r.
      + split_and!; [done| |done]. simpl. destruct ((b =? 45) || (b =? 43)) eqn:Es; [|done]. apply H46. lia.
      + split_and!; [done| |]; simpl; [by rewrite ?andb_false_r|]. destruct (Z.eqb_spec b 46); [lia|done]. }
  intros c1 l1 (-> & -> & ->). rewrite Hb.
  apply (wp_lex_symbol_run l (b :: bs)); [done|done| |].
  { fold (ahead l). rewrite E. change (b :: bs ++ c :: rest) with ((b :: bs) ++ c :: rest). by rewrite take_app_length. }
  eexists. split_and!; [done|done|done|apply set_p_moves; (done || lia)|].
  rewrite ahead_set_p, E, Nat2Z.id by (done || lia). change (b :: bs ++ c :: rest) with ((b :: bs) ++ c :: rest).
  by rewrite drop_app_length.
Qed.

(** ** Numbers *)

Lemma digits_ok fuel n :
  0 <= n < 10 ^ Z.of_nat fuel → (0 < fuel)%nat →
  Forall (λ c, isdigit c = true) (digits fuel n) ∧ dec_value (digits fuel n) = n ∧ (0 < length (digits fuel n) <= fuel)%nat.
Proof.
  revert n. induction fuel as [|fuel IH]; intros n Hn Hf; [lia|]. simpl digits. destruct (Z.ltb_spec n 10).
  - split_and!; [|unfold dec_value; simpl; lia|simpl; lia|simpl; lia]. constructor; [|done]. unfold isdigit. lia.
  - rewrite Nat2Z.inj_succ, Z.pow_succ_r in Hn by lia.
    assert (Hd : 0 <= n / 10 < 10 ^ Z.of_nat fuel) by (Z.to_euclidean_division_equations; nia).
    destruct fuel as [|fuel]; [simpl in Hn; lia|]. destruct (IH (n / 10) Hd) as (I1 & I2 & I3); [lia|].
    split_and!.
    + apply Forall_app. split; [done|]. constructor; [|done]. unfold isdigit. Z.to_euclidean_division_equations. lia.
    + rewrite dec_value_snoc, I2. Z.to_euclidean_division_equations. lia.
    + rewrite length_app. simpl length at 2. lia.
    + rewrite length_app. simpl length at 2. lia.
Qed.

#[local] Arguments digits : simpl never.

(** The digits after the sign. *)
Lemma wp_dec_at l n c rest (Q : Z → lexer → Prop) :
  pos_ok l → 0 <= n < 2 ^ 32 → ahead l = digits 10 n ++ c :: rest → is_sym_char c = false →
  (∀ l', Moves l l' → ahead l' = c :: rest → Q n l') → wp dec_digits Q l.
Proof.
  intros Hl Hn E Hc HQ. destruct (digits_ok 10 n) as (D1 & D2 & D3); [split; [lia|]; change (10 ^ Z.of_nat 10) with 10000000000; lia|lia|].
  assert (Hnd : isdigit c = false).
  { destruct (isdigit c) eqn:Ed; [|done]. unfold is_sym_char, isalnum in Hc. by rewrite Ed in Hc. }
  pose proof (run_ahead _ _ _ _ _ Hl E D1 Hnd) as Hrun. pose proof (run_in _ _ _ Hl eq_refl Hrun) as Hin.
  apply (wp_dec_digits l (digits 10 n)); [done|lia|done| |done|].
  - intros i Hi. rewrite char_ahead, E, Nat2Z.id by (done || lia). by rewrite lookup_app_l.
  - intros _. rewrite D2. apply HQ; [apply set_p_moves; (done || lia)|].
    rewrite ahead_set_p, E, Nat2Z.id by (done || lia). by rewrite drop_app_length.
Qed.

(** From the first digit on. *)
Lemma wp_number_at l n c rest (sign : Z) (Q : option token → lexer → Prop) :
  pos_ok l → 0 <= n < 2 ^ 32 → ahead l = digits 10 n ++ c :: rest → is_sym_char c = false →
  - 1 <= sign <= 1 →
  (∀ t l', t.(kind) = TOK_NUM → t.(nval) = sign * n → Moves l l' → ahead l' = c :: rest → Q (Some t) l') →
  wp (c0 ← at_p 0;
      c1 ← (if c0 =? 48 then at_p 1 else mret 0);
      n ⇐ (if (c0 =? 48) && ((c1 =? 120) || (c1 =? 88)) then
             advance 2;; c ← at_p 0; if negb (isxdigit c) then mret None else n ← hex_digits; mret (Some n)
           else n ← dec_digits; mret (Some n));
      t ← make TOK_NUM;
      v ← long (sign * n);
      mret (Some (set_nval v t))) Q l.
Proof.
  intros Hl Hn E Hc Hs HQ. destruct (digits_ok 10 n) as (D1 & D2 & D3); [split; [lia|]; change (10 ^ Z.of_nat 10) with 10000000000; lia|lia|].
  destruct (digits 10 n) as [|d ds] eqn:Ed; [simpl in D3; lia|]. rewrite <-Ed in E.
  apply wp_bind. eapply (wp_at_p 0 d); [by rewrite char_ahead, E, Ed by done|]. apply wp_bind.
  assert (∃ c1, char_at l 1 = Some c1 ∧ c1 ≠ 120 ∧ c1 ≠ 88) as (c1 & Hc1 & Hx1 & Hx2).
  { rewrite char_ahead, E, Ed by done. destruct ds as [|e ds].
    - exists c. split; [done|]. split; intros ->; done.
    - exists e. split; [done|]. inversion D1 as [|? ? _ D1']; inversion D1' as [|? ? He _].
      split; intros ->; done. }
  apply (wp_mono _ (λ c1 l', l' = l ∧ c1 ≠ 120 ∧ c1 ≠ 88)).
  { apply wp_if; intros _; [by eapply wp_at_p|by apply wp_ret]. }
  intros c2 l' (-> & Hy1 & Hy2). apply wp_on_exit. destruct (Z.eqb_spec c2 120), (Z.eqb_spec c2 88); try done.
  rewrite andb_false_r. apply wp_bind. eapply wp_dec_at; [done|exact Hn|exact E|done|]. intros l2 H2 E2.
  apply wp_ret, wp_bind, wp_make, wp_bind, wp_long; [nia|]. apply wp_ret. by apply HQ.
Qed.

Lemma digits_first n : 0 <= n < 2 ^ 32 → ∃ d ds, digits 10 n = d :: ds ∧ isdigit d = true.
Proof.
  intros Hn. destruct (digits_ok 10 n) as (D1 & D2 & D3); [split; [lia|]; change (10 ^ Z.of_nat 10) with 10000000000; lia|lia|].
  destruct (digits 10 n) as [|d ds]; [simpl in D3; lia|]. exists d, ds. split; [done|]. by inversion D1.
Qed.

Lemma Lex_number ws z c rest :
  blanks ws → - 2 ^ 31 <= z < 2 ^ 31 → is_sym_char c = false →
  Lex (ws ++ dec z ++ c :: rest) (λ t, t.(kind) = TOK_NUM ∧ t.(nval) = z) (c :: rest).
Proof.
  intros Hws Hz Hc. unfold dec. destruct (Z.ltb_spec z 0) as [Hneg|Hpos].
  - destruct (digits_first (- z)) as (d & ds & Ed & Hd); [lia|]. simpl. apply Lex_tok; [done|done|].
    intros l Hl E Hc0. apply wp_bind, wp_make, wp_bind. eapply wp_at_p; [exact Hc0|].
    simpl (_ =? _). cbv iota. simpl orb. cbv iota. apply wp_bind.
    eapply (wp_at_p 1 d); [by rewrite char_ahead, E, Ed by done|]. rewrite Hd. change (isdigit 45 || true && true) with true. cbv iota.
    destruct (next_ahead l _ _ Hl E) as [H1 E1]; [done|]. unfold lex_number. cbv zeta. simpl (_ =? _). cbv iota.
    simpl orb. cbv iota. apply wp_bind, wp_advance.
    eapply (wp_number_at _ (- z) c rest (-1)); [apply H1|lia|exact E1|done|lia|].
    intros t l' Hk Hv HM Ha. exists t. split_and!; [done|done|lia|by eapply Moves_trans|done].
  - destruct (digits_first z) as (d & ds & Ed & Hd); [lia|]. rewrite Ed. simpl.
    assert (Hdr : 48 <= d <= 57) by (unfold isdigit in Hd; lia).
    apply Lex_tok; [done|unfold solid; simpl; lia|].
    intros l Hl E Hc0. apply wp_bind, wp_make, wp_bind. eapply wp_at_p; [exact Hc0|].
    do 6 (apply wp_if; intros; [lia|]). apply wp_bind.
    apply (wp_mono _ (λ _ l', l' = l)); [apply wp_if; intros; [lia|by apply wp_ret]|].
    intros c1 l1 ->. rewrite Hd. simpl orb. cbv iota. unfold lex_number. cbv zeta.
    replace (d =? 45) with false by lia. replace (d =? 43) with false by lia. simpl orb. cbv iota.
    apply wp_bind, wp_ret. eapply (wp_number_at _ z c rest 1); [done|lia|by rewrite E, Ed|done|lia|].
    intros t l' Hk Hv HM Ha. exists t. split_and!; [done|done|lia|done|done].
Qed.

(** ** What the lexer will see *)

Record fresh_at (l : lexer) (bs : list Z) : Prop := {
  fa_pos : pos_ok l;
  fa_peeked : nz l.(peeked) = false;
  fa_ahead : ahead l = bs
}.

(** The lexer is in front of [bs], or has peeked its first token. *)
Definition starts (l : lexer) (bs : list Z) : Prop :=
  fresh_at l bs ∨ ∃ l0 l1 t, fresh_at l0 bs ∧ lex_one l0 = Some (Some t, l1) ∧ l = set_peeked 1 (set_peek_tok t l1).

Lemma Lex_run l bs T rest :
  Lex bs T rest → fresh_at l bs → ∃ t l', lex_one l = Some (Some t, l') ∧ T t ∧ Moves l l' ∧ ahead l' = rest.
Proof.
  intros HL [H1 H2 H3]. pose proof (HL l H1 H3) as (r & l' & E & t & -> & Ht & HM & Ha)%wp_run. by exists t, l'.
Qed.

Lemma starts_next l bs T rest :
  Lex bs T rest → starts l bs → ∃ t l', lex_next l = Some (Some t, l') ∧ T t ∧ fresh_at l' rest.
Proof.
  intros HL [HF|(l0 & l1 & t & HF & E & ->)].
  - destruct (Lex_run _ _ _ _ HL HF) as (t & l' & E & Ht & HM & Ha). exists t, l'. split_and!; [|done|].
    + unfold lex_next, mbind, M_bind, mget. by rewrite (fa_peeked _ _ HF).
    + split; [apply HM|rewrite (mo_peeked _ _ HM); apply HF|done].
  - destruct (Lex_run _ _ _ _ HL HF) as (t' & l' & E' & Ht & HM & Ha). assert (t' = t ∧ l' = l1) as [-> ->] by (split; congruence).
    exists t, (set_peeked 0 (set_peeked 1 (set_peek_tok t l1))). split_and!; [done|done|].
    split; [|done|done]. pose proof (mo_ok _ _ HM) as []. by split.
Qed.

Lemma starts_peek l bs T rest :
  Lex bs T rest → starts l bs → ∃ t l', lex_peek l = Some (Some t, l') ∧ T t ∧ starts l' bs.
Proof.
  intros HL [HF|(l0 & l1 & t & HF & E & ->)].
  - destruct (Lex_run _ _ _ _ HL HF) as (t & l' & E & Ht & HM & Ha).
    exists t, (set_peeked 1 (set_peek_tok t l')). split_and!; [|done|right; by exists l, l', t].
    unfold lex_peek, on_exit, mbind, M_bind, mget. rewrite (fa_peeked _ _ HF). simpl. by rewrite E.
  - destruct (Lex_run _ _ _ _ HL HF) as (t' & l' & E' & Ht & HM & Ha). assert (t' = t ∧ l' = l1) as [-> ->] by (split; congruence).
    eexists t, _. split_and!; [done|done|]. right. by exists l0, l1, t.
Qed.

(** ** Data *)

Fixpoint printable (d : datum) : Prop :=
  match d with
  | DNil | DBool _ => True
  | DNum z => - 2 ^ 31 <= z < 2 ^ 31
  | DStr bs => Forall (λ c, plain c = true) bs
  | DSym bs => good_sym bs
  | DPair a d => printable a ∧ printable d
  end.

(** The entries of the root stack the reader needs. *)
Fixpoint need (tl : bool) (d : datum) : nat :=
  match d with
  | DNil => if tl then 0 else 4
  | DPair a d => (if tl then 0 else 4) + (need false a `max` 2 `max` need true d)
  | _ => 0
  end.

(** The datum of a token that is a datum by itself. *)
Definition atom_of (t : token) : option datum :=
  match t.(kind) with
  | TOK_NUM => Some (DNum (s32 t.(nval)))
  | TOK_STR => s ← t.(sval); Some (DStr (take (Z.to_nat t.(slen)) s))
  | TOK_SYM => s ← t.(sval); bs ← c_string s; Some (DSym bs)
  | TOK_TRUE => Some (DBool true)
  | TOK_FALSE => Some (DBool false)
  | _ => None
  end.

Lemma cut_id bs : 0 ∉ bs → cut bs = bs.
Proof.
  induction bs as [|b bs IH]; intros Hz; [done|]. simpl. destruct (Z.eqb_spec b 0); [set_solver|].
  by rewrite IH by set_solver.
Qed.

Lemma Forall_nonzero (f : Z → bool) bs : f 0 = false → Forall (λ c, f c = true) bs → 0 ∉ bs.
Proof. intros H0 Hf Hin. rewrite Forall_forall in Hf. specialize (Hf 0 Hin). congruence. Qed.

Definition atom (d : datum) : Prop := is_dpair d = false ∧ d ≠ DNil.

Lemma Lex_atom ws d c rest :
  blanks ws → atom d → printable d → is_sym_char c = false →
  Lex (ws ++ text false d ++ c :: rest) (λ t, atom_of t = Some d) (c :: rest).
Proof.
  intros Hws [Hd1 Hd2] Hp Hc. assert (HW : ∀ bs (T T' : token → Prop) r, Lex bs T r → (∀ t, T t → T' t) → Lex bs T' r).
  { intros bs T T' r HL HT l Hl E. eapply wp_mono; [by apply HL|]. intros x l' (t & ? & ? & ?). exists t. auto. }
  destruct d as [|b|z|bs|bs|a d]; try done; simpl text; simpl in Hp.
  - eapply HW; [by apply (Lex_bool ws b)|]. intros t Hk. unfold atom_of. rewrite Hk. by destruct b.
  - assert (Hz : s32 z = z).
    { unfold s32, u32. destruct (Z.ltb_spec (z mod 4294967296) 2147483648); Z.to_euclidean_division_equations; lia. }
    rewrite Hz. eapply HW; [by apply Lex_number|]. intros t [Hk Hv]. unfold atom_of. by rewrite Hk, Hv, Hz.
  - rewrite cut_id by (by apply (Forall_nonzero plain)). eapply HW; [exact (Lex_string ws bs (c :: rest) Hws Hp)|].
    intros t (Hk & buf & Hs & Ht). unfold atom_of. rewrite Hk, Hs. simpl. by rewrite Ht.
  - assert (Hz : 0 ∉ bs) by (destruct Hp as [Hp _]; by apply (Forall_nonzero is_sym_char)).
    rewrite cut_id by done. eapply HW; [by apply Lex_symbol|]. intros t [Hk Hs]. unfold atom_of. rewrite Hk, Hs. simpl.
    by destruct (strlen_sym bs Hz) as [_ ->].
Qed.

Lemma ref_atom fuel l t l' d :
  lex_next l = Some (Some t, l') → atom_of t = Some d → ref_datum (S fuel) l = Some (Some (d, 0%nat), l').
Proof.
  intros E Ht. simpl. unfold on_exit, mbind at 1, M_bind at 1. rewrite E. unfold atom_of in Ht.
  destruct (kind t); try discriminate Ht; try (injection Ht as <-; reflexivity);
    (destruct (sval t) as [s|]; [|discriminate Ht]); simpl in Ht.
  - injection Ht as <-. reflexivity.
  - destruct (c_string s) as [bs|] eqn:Ec; [|discriminate Ht]. injection Ht as <-.
    unfold mbind, M_bind, must. by rewrite Ec.
Qed.

(** The first token of a datum makes the reader of a list read a datum. *)
Definition opens (t : token) : Prop := t.(kind) ∉ [TOK_EOF; TOK_RPAREN; TOK_DOT].

Lemma text_ends d rest : ∃ c r, text true d ++ 41 :: rest = c :: r ∧ is_sym_char c = false.
Proof. destruct d; simpl; eauto. Qed.

Lemma Lex_opens ws d c rest :
  blanks ws → printable d → is_sym_char c = false → ∃ r, Lex (ws ++ text false d ++ c :: rest) opens r.
Proof.
  intros Hws Hp Hc. destruct (decide (is_dpair d = true ∨ d = DNil)) as [Hd|Hd].
  - assert (∃ bs, text false d = 40 :: bs) as (bs & ->) by (destruct d; simpl; destruct Hd; (done || eauto)).
    eexists. intros l Hl E. eapply wp_mono; [by eapply (Lex_lparen ws)|]. intros x l' (t & ? & Hk & ?).
    exists t. split; [done|]. split; [|done]. unfold opens. rewrite Hk. set_solver.
  - eexists. intros l Hl E. eapply wp_mono; [eapply (Lex_atom ws d c rest); try done|].
    { destruct (is_dpair d) eqn:Ed; [tauto|]. split; [done|]. tauto. }
    intros x l' (t & ? & Hk & ?). exists t. split; [done|]. split; [|done].
    unfold opens, atom_of in *. destruct (kind t); (done || set_solver).
Qed.

Lemma items_opens fuel rd first l t l1 :
  lex_peek l = Some (Some t, l1) → opens t →
  ref_items (S fuel) rd first l =
  (d ⇐ rd; r ⇐ ref_items fuel rd false; mret (Some (DPair d.1 r.1, (d.2 `max` 2 `max` r.2)%nat))) l1.
Proof.
  intros E Ho. simpl. unfold on_exit at 1, mbind at 1, M_bind at 1. rewrite E. unfold opens in Ho.
  destruct (kind t); (done || set_solver).
Qed.

Lemma on_exit_some {S A B} (m : M S (option A)) (k : A → M S (option B)) s a s' :
  m s = Some (Some a, s') → on_exit m k s = k a s'.
Proof. intros E. unfold on_exit, mbind, M_bind. by rewrite E. Qed.

Definition reads_back (d : datum) : Prop :=
  (∀ fuel l ws c rest, (S (cells d) < fuel)%nat → blanks ws → is_sym_char c = false →
    starts l (ws ++ text false d ++ c :: rest) →
    ∃ l', ref_datum fuel l = Some (Some (d, need false d), l') ∧ fresh_at l' (c :: rest)) ∧
  (∀ fuel n l rest, (cells d < fuel)%nat → (S (cells d) < n)%nat → starts l (text true d ++ 41 :: rest) →
    ∃ l', ref_items fuel (ref_datum n) false l = Some (Some (d, need true d), l') ∧ fresh_at l' rest).

Lemma atom_reads_back d : atom d → printable d → reads_back d.
Proof.
  intros Ha Hp. assert (Hneed : ∀ b, need b d = 0%nat) by (destruct Ha; by destruct d).
  assert (HA : ∀ fuel l ws c rest, (0 < fuel)%nat → blanks ws → is_sym_char c = false →
    starts l (ws ++ text false d ++ c :: rest) →
    ∃ l', ref_datum fuel l = Some (Some (d, need false d), l') ∧ fresh_at l' (c :: rest)).
  { intros fuel l ws c rest Hf Hws Hc Hs. destruct fuel as [|fuel]; [lia|].
    destruct (starts_next _ _ _ _ (Lex_atom ws d c rest Hws Ha Hp Hc) Hs) as (t & l' & E & Ht & HF).
    exists l'. rewrite Hneed. split; [by eapply ref_atom|done]. }
  split; [intros fuel l ws c rest Hf; apply HA; lia|]. intros fuel n l rest Hf Hn Hs. destruct fuel as [|fuel]; [lia|].
  destruct Ha as [Hd1 Hd2]. rewrite (text_atom d Hd1 Hd2), <-app_assoc in Hs.
  change (str " . " ++ ?x) with ([32] ++ 46 :: 32 :: x) in Hs.
  assert (HL := λ x, Lex_dot [32] 32 x ltac:(by repeat constructor) eq_refl).
  destruct (starts_peek _ _ _ _ (HL _) Hs) as (t & l1 & E1 & Hk & Hs1).
  destruct (starts_next _ _ _ _ (HL _) Hs1) as (t2 & l2 & E2 & _ & HF2).
  destruct (HA n l2 [32] 41 rest) as (l3 & E3 & HF3); [lia|by repeat constructor|done|by left|].
  destruct (starts_next l3 (41 :: rest) _ rest (Lex_rparen [] rest ltac:(constructor))) as (t4 & l4 & E4 & Hk4 & HF4); [by left|].
  exists l4. split; [|done]. simpl. rewrite (on_exit_some _ _ _ _ _ E1), Hk, (on_exit_some _ _ _ _ _ E2),
    (on_exit_some _ _ _ _ _ E3), (on_exit_some _ _ _ _ _ E4), Hk4. rewrite !Hneed. done.
Qed.

Lemma round_trip d : printable d → reads_back d.
Proof.
  induction d as [|b|z|bs|bs|a IHa d IHd]; intros Hp; try (by apply atom_reads_back).
  - split.
    + intros fuel l ws c rest Hf Hws Hc Hs. destruct fuel as [|[|fuel]]; [simpl in Hf; lia..|].
      change (ws ++ text false DNil ++ c :: rest) with (ws ++ 40 :: 41 :: c :: rest) in Hs.
      destruct (starts_next _ _ _ _ (Lex_lparen ws _ Hws) Hs) as (t & l1 & E1 & Hk & HF1).
      assert (HL := Lex_rparen [] (c :: rest) ltac:(constructor)).
      destruct (starts_peek l1 _ _ _ HL) as (t2 & l2 & E2 & Hk2 & Hs2); [by left|].
      destruct (starts_next _ _ _ _ HL Hs2) as (t3 & l3 & E3 & _ & HF3).
      exists l3. split; [|done]. simpl ref_datum. rewrite (on_exit_some _ _ _ _ _ E1), Hk. simpl ref_items.
      unfold on_exit at 1, mbind at 1, M_bind at 1. rewrite (on_exit_some _ _ _ _ _ E2), Hk2, (on_exit_some _ _ _ _ _ E3). done.
    + intros fuel n l rest Hf Hn Hs. destruct fuel as [|fuel]; [lia|]. simpl in Hs.
      assert (HL := Lex_rparen [] rest ltac:(constructor)).
      destruct (starts_peek l _ _ _ HL Hs) as (t2 & l2 & E2 & Hk2 & Hs2).
      destruct (starts_next _ _ _ _ HL Hs2) as (t3 & l3 & E3 & _ & HF3).
      exists l3. split; [|done]. simpl ref_items. rewrite (on_exit_some _ _ _ _ _ E2), Hk2, (on_exit_some _ _ _ _ _ E3). done.
  - destruct Hp as [Hpa Hpd]. destruct (IHa Hpa) as [Aa _]. destruct (IHd Hpd) as [_ Bd].
    assert (HB : ∀ first ws fuel n l rest, blanks ws → (S (cells a + cells d) < fuel)%nat → (S (cells a + cells d) < n)%nat →
      starts l (ws ++ text false a ++ text true d ++ 41 :: rest) →
      ∃ l', ref_items fuel (ref_datum n) first l =
        Some (Some (DPair a d, (need false a `max` 2 `max` need true d)%nat), l') ∧ fresh_at l' rest).
    { intros first ws fuel n l rest Hws Hf Hn Hs. destruct fuel as [|fuel]; [lia|].
      destruct (text_ends d rest) as (c & r & Ec & Hc). rewrite Ec in Hs.
      destruct (Lex_opens ws a c r Hws Hpa Hc) as [r0 HL].
      destruct (starts_peek _ _ _ _ HL Hs) as (t & l1 & E1 & Ho & Hs1).
      destruct (Aa n l1 ws c r) as (l2 & E2 & HF2); [lia|done|done|done|]. rewrite <-Ec in HF2.
      destruct (Bd fuel n l2 rest) as (l3 & E3 & HF3); [lia|lia|by left|].
      exists l3. split; [|done]. rewrite (items_opens _ _ _ _ _ _ E1 Ho), (on_exit_some _ _ _ _ _ E2), (on_exit_some _ _ _ _ _ E3). done. }
    split.
    + intros fuel l ws c rest Hf Hws Hc Hs. destruct fuel as [|fuel]; [lia|].
      replace (text false (DPair a d) ++ c :: rest) with (40 :: text false a ++ text true d ++ 41 :: c :: rest) in Hs
        by (simpl; by rewrite <-!app_assoc).
      destruct (starts_next _ _ _ _ (Lex_lparen ws _ Hws) Hs) as (t & l1 & E1 & Hk & HF1). simpl in Hf.
      destruct (HB true [] fuel fuel l1 (c :: rest)) as (l2 & E2 & HF2); [constructor|lia|lia|by left|].
      exists l2. split; [|done]. simpl ref_datum. rewrite (on_exit_some _ _ _ _ _ E1), Hk, (on_exit_some _ _ _ _ _ E2). done.
    + intros fuel n l rest Hf Hn Hs. simpl in Hf, Hn.
      replace (text true (DPair a d) ++ 41 :: rest) with ([32] ++ text false a ++ text true d ++ 41 :: rest) in Hs
        by (simpl; by rewrite app_nil_r, <-!app_assoc).
      destruct (HB false [32] fuel n l rest) as (l2 & E2 & HF2); [by repeat constructor|lia|lia|done|].
      exists l2. done.
Qed.

(** ** Programs *)

(** One form per line, as [tinscheme -p] prints them. *)
Definition program_text (ds : list datum) : list Z := ds ≫= λ d, text false d ++ [10].

Definition forms_need (ds : list datum) : nat := foldr (λ d n, need false d `max` 2 `max` n)%nat 0%nat ds.

Lemma forms_back ds fuel n ws l :
  Forall printable ds → (length ds < fuel)%nat → Forall (λ d, S (cells d) < n)%nat ds → blanks ws →
  starts l (ws ++ program_text ds ++ [0]) →
  ∃ l', ref_forms fuel (ref_datum n) l = Some (Some (ds, forms_need ds), l').
Proof.
  revert fuel ws l. induction ds as [|d ds IH]; intros fuel ws l Hp Hf Hn Hws Hs;
    (destruct fuel as [|fuel]; [simpl in Hf; lia|]).
  - destruct (starts_peek _ _ _ _ (Lex_eof ws Hws) Hs) as (t & l1 & E1 & Hk & _). exists l1.
    simpl ref_forms. by rewrite (on_exit_some _ _ _ _ _ E1), decide_True.
  - apply Forall_cons in Hp as [Hpd Hp]. apply Forall_cons in Hn as [Hnd Hn]. simpl in Hf.
    assert (Hs' : starts l (ws ++ text false d ++ 10 :: program_text ds ++ [0])).
    { unfold program_text in Hs. csimpl in Hs. rewrite <-!app_assoc in Hs. exact Hs. }
    destruct (Lex_opens ws d 10 (program_text ds ++ [0]) Hws Hpd eq_refl) as [r0 HL].
    destruct (starts_peek _ _ _ _ HL Hs') as (t & l1 & E1 & Ho & Hs1).
    destruct (proj1 (round_trip d Hpd) n l1 ws 10 (program_text ds ++ [0])) as (l2 & E2 & HF2); [done..|].
    destruct (IH fuel [10] l2) as (l3 & E3); [done|lia|done|by repeat constructor|by left|].
    exists l3. simpl ref_forms. rewrite (on_exit_some _ _ _ _ _ E1), decide_False by (unfold opens in Ho; set_solver).
    by rewrite (on_exit_some _ _ _ _ _ E2), (on_exit_some _ _ _ _ _ E3).
Qed.

(** ** Sizes and bytes of texts *)

Lemma text_cells d tl : printable d → (cells d <= length (text tl d))%nat.
Proof.
  revert tl. induction d as [|b|z|bs|bs|a IHa d IHd]; intros tl Hp; cbn [cells]; try lia.
  - simpl text. rewrite !length_app. simpl. lia.
  - simpl text. rewrite length_app. destruct Hp as [Hp Hg].
    rewrite cut_id by (by apply (Forall_nonzero is_sym_char)). destruct bs; [done|simpl; lia].
  - destruct Hp as [Ha Hd]. specialize (IHa false Ha). specialize (IHd true Hd). simpl text. rewrite !length_app.
    destruct tl; simpl (length (str _)); lia.
Qed.

Lemma dec_nonzero z : 0 ∉ dec (s32 z).
Proof.
  pose proof (s32_range z) as Hr. set (s := s32 z) in *.
  assert (Hd : ∀ n, 0 <= n < 2 ^ 32 → 0 ∉ digits 10 n).
  { intros n Hn. apply (Forall_nonzero isdigit); [done|]. apply digits_ok; [|lia].
    change (10 ^ Z.of_nat 10) with 10000000000. lia. }
  unfold dec. destruct (Z.ltb_spec s 0); [|apply Hd; lia].
  apply not_elem_of_cons. split; [done|apply Hd; lia].
Qed.

Lemma cut_nonzero bs : 0 ∉ cut bs.
Proof.
  induction bs as [|b bs IH]; simpl; [apply not_elem_of_nil|]. destruct (Z.eqb_spec b 0); [apply not_elem_of_nil|].
  apply not_elem_of_cons. split; [congruence|done].
Qed.

Lemma text_nonzero d tl : 0 ∉ text tl d.
Proof.
  assert (Hb : ∀ (x y : list Z) (b : bool), 0 ∉ x → 0 ∉ y → 0 ∉ (if b then x else y)) by (by intros x y []).
  assert (Hl : ∀ l : list Z, forallb (λ c, negb (c =? 0)) l = true → 0 ∉ l).
  { intros l. induction l as [|c l IH]; simpl; [intros; apply not_elem_of_nil|].
    intros [Hc Hf]%andb_true_iff. apply not_elem_of_cons. split; [intros <-; done|by apply IH]. }
  revert tl. induction d as [|b|z|bs|bs|a IHa d IHd]; intros tl; cbn [text]; rewrite ?not_elem_of_app; split_and?.
  all: try apply dec_nonzero; try (apply Hb); try (by apply Hl); try apply cut_nonzero; try done; try (by apply IHa); try (by apply IHd).
Qed.

Lemma program_nonzero ds : 0 ∉ program_text ds.
Proof.
  induction ds as [|d ds IH]; csimpl; [apply not_elem_of_nil|]. unfold program_text. csimpl.
  rewrite !not_elem_of_app. split_and!; [apply text_nonzero|set_solver|exact IH].
Qed.

Lemma program_size ds :
  Forall printable ds →
  (length ds <= length (program_text ds))%nat ∧ Forall (λ d, cells d <= length (program_text ds))%nat ds.
Proof.
  induction 1 as [|d ds Hd _ [IH1 IH2]]; [done|]. unfold program_text in *. csimpl. rewrite !length_app. simpl.
  split; [lia|]. constructor; [pose proof (text_cells d false Hd); lia|].
  eapply Forall_impl; [exact IH2|]. simpl. lia.
Qed.

(** The lexer after [lex_init]. *)
Definition at_start (src : list Z) (t : token) : lexer := mk_lexer src 0 1 0 t.

Lemma start_ok txt t :
  0 ∉ txt → Z.of_nat (length txt) + 1 < 2 ^ 31 → short_runs (txt ++ [0]) → lex_ok (at_start (txt ++ [0]) t).
Proof.
  intros Hz Hl Hs. split; [|done|done]. split; simpl; [|rewrite length_app; simpl; lia|lia].
  split; [by exists txt|rewrite length_app; simpl; lia].
Qed.

Lemma start_fresh txt t :
  0 ∉ txt → Z.of_nat (length txt) + 1 < 2 ^ 31 → fresh_at (at_start (txt ++ [0]) t) (txt ++ [0]).
Proof.
  intros Hz Hl. split; [|done|done]. split; simpl; [|rewrite length_app; simpl; lia|lia].
  split; [by exists txt|rewrite length_app; simpl; lia].
Qed.

(** The reference reader gets the forms back from the text of a program. *)
Lemma program_back ds t :
  Forall printable ds → Z.of_nat (length (program_text ds)) + 1 < 2 ^ 31 →
  ref_program (at_start (program_text ds ++ [0]) t) = Some (Some (ds, forms_need ds)).
Proof.
  intros Hp Hl. destruct (program_size ds Hp) as [S1 S2]. unfold ref_program. cbn [src_buf at_start].
  set (fuel := S _). destruct (forms_back ds fuel fuel [] (at_start (program_text ds ++ [0]) t)) as (l' & ->).
  - done.
  - unfold fuel. rewrite length_app. simpl. lia.
  - eapply Forall_impl; [exact S2|]. unfold fuel. rewrite length_app. simpl. lia.
  - constructor.
  - left. simpl. by apply start_fresh; [apply program_nonzero|].
  - done.
Qed.
