(* ===== verification/SchemeTheorems.v ===== *)
(** * Theorems about the reader and the printer of TinScheme

    The reader builds what the reference reader returns, [tinscheme -p] prints
    it, and printed data are read back. *)

From stdpp Require Import gmap.
From S2P Require Import Prelude Gc GcInv GcCollect GcAlloc GcMake GcTheorems.
From S2P Require Import Scheme SchemeLex SchemeData SchemeRead SchemePrint SchemeRound.

#[local] Arguments Z.mul : simpl never.
#[local] Arguments Z.of_nat : simpl never.
#[local] Arguments rem : simpl never.

(** ** The forms of a program are printed *)

Lemma rep_dom m d v X : rep m d v X → X ⊆ dom m.
Proof.
  revert v X. induction d as [| | | | |a IHa d IHd]; intros v X; simpl.
  1-3: intros [_ ->]; set_solver.
  1-2: intros [(b & Hb & _) ->]; apply singleton_subseteq_l, elem_of_dom; by eapply content_Some_dom.
  intros (x & y & X1 & X2 & Hc & Ha & Hd & _ & _ & ->). specialize (IHa _ _ Ha). specialize (IHd _ _ Hd).
  assert (v ∈ dom m) by (apply elem_of_dom; by eapply content_Some_dom). set_solver.
Qed.

Lemma rep_cells m d v X : rep m d v X → (cells d <= size m)%nat.
Proof.
  intros HR. rewrite <-(rep_size _ _ _ _ HR), <-size_dom. apply subseteq_size. by eapply rep_dom.
Qed.

Lemma wp_print_forms n k ds v X s :
  objs_ok s.(mem).(objs) → rep s.(mem).(objs) (dlist ds DNil) v X →
  (length ds < k)%nat → (cells (dlist ds DNil) < n)%nat →
  wp (mwhile (S := scm) (A := Z) (B := unit) k (λ cur,
        if IS_NIL cur then mret (inr tt)
        else
          x ← in_gc (gc_car cur);
          scm_println n x;;
          cur ← in_gc (gc_cdr cur);
          mret (inl cur)) v) (λ _ s', s' = printed s (program_text ds)) s.
Proof.
  revert k v X s. induction ds as [|d ds IH]; intros k v X s Hm HR Hk Hn; (destruct k as [|k]; [simpl in Hk; lia|]);
    simpl mwhile; apply wp_bind.
  - destruct HR as [-> _]. apply wp_ret, wp_ret. by rewrite printed_nil.
  - destruct HR as (x & y & X1 & X2 & Hc & Hd & Hds & _). simpl in Hk, Hn.
    destruct (ptr_tests v) as (-> & _); [by eapply content_ptr|].
    apply wp_bind. eapply wp_pair_at; [exact Hc|]. apply wp_bind, wp_bind.
    eapply wp_mono; [eapply wp_scm_print; [done|exact Hd|lia]|]. intros [] s2 ->. apply wp_puts. rewrite printed_app.
    apply wp_bind. eapply wp_pair_cdr; [exact Hc|]. apply wp_ret.
    eapply wp_mono; [apply (IH k y X2); [done|done|lia|unfold dlist in *; lia]|].
    intros [] s3 ->. rewrite printed_app. done.
Qed.

Section scheme.
Context (malloc : nat → gmap Z gc_obj → Z → Z) (uninit : gc_mem → Z).

(** What the reader may assume of locals without a value: they do not look
    like a pointer to freed memory. *)
Definition harmless : Prop := ∀ w, gc_ok w → val_ok w.(objs) (uninit w).

(** *** Start of the program *)

Definition started (w : gc_mem) : gc_mem :=
  mk_mem (mk_heap 0 0 64 (<[0%nat := length w.(vars)]> w.(heap).(roots)) 1) ∅ (w.(vars) ++ [VAL_NIL]) w.(mallocs).

Lemma started_ok w : length w.(heap).(roots) = 256%nat → gc_ok (started w).
Proof.
  intros Hr. split; simpl.
  - split; intros a o; by rewrite lookup_empty.
  - intros a o Ho. by rewrite lookup_empty in Ho.
  - exists []. split_and!; [done|constructor|]. intros a. rewrite lookup_empty. split; [set_solver|by intros []].
  - done.
  - lia.
  - split; simpl; [by rewrite length_insert|lia| |].
    + intros i x Hi Hx. assert (i = 0%nat) as -> by lia. rewrite list_lookup_insert_eq in Hx by lia. simplify_eq.
      rewrite length_app. simpl. lia.
    + intros v (x & Hx & Hv)%list_elem_of_omap. simpl in Hx, Hv. apply list_elem_of_lookup in Hx as [i Hi].
      apply lookup_take_Some in Hi as [Hi Hlt]. change (Z.to_nat 1) with 1%nat in Hlt. assert (i = 0%nat) as -> by lia.
      rewrite list_lookup_insert_eq in Hi by lia. simplify_eq. rewrite lookup_app_r, Nat.sub_diag in Hv by done.
      injection Hv as <-. done.
Qed.

Lemma wp_started s (Q : option unit → scm → Prop) (K : nat → M scm (option unit)) :
  s.(mem).(objs) = ∅ → length s.(mem).(heap).(roots) = 256%nat →
  wp (K (length s.(mem).(vars))) Q (mk_scm s.(lx) (started s.(mem)) s.(out)) →
  wp (program ← in_gc (enter VAL_NIL); in_gc gc_init;; _ ⇐ in_gc (gc_push program); K program) Q s.
Proof.
  intros Ho Hr HK. apply wp_bind, wp_in_gc, wp_bind, wp_get, wp_bind, wp_mod, wp_ret.
  apply wp_bind, wp_in_gc, wp_mod, wp_on_exit, wp_in_gc, wp_bind, wp_gets. simpl.
  apply wp_bind. rewrite aset_in by (simpl; lia). apply wp_some, wp_bind, wp_mod, wp_ret.
  unfold started in HK. rewrite <-Ho in HK. exact HK.
Qed.

(** The variable [program] is the last one. *)
Lemma wp_store_last w l u v (Q : unit → gc_mem → Prop) :
  gc_ok w → w.(vars) = l ++ [u] → val_ok w.(objs) v →
  (∀ w', gc_ok w' → w'.(vars) = l ++ [v] → w'.(objs) = w.(objs) → w'.(heap) = w.(heap) → Q tt w') →
  wp (store_var (length l) v) Q w.
Proof.
  intros Hok Hv Hval HQ. apply wp_store_var; [rewrite Hv, length_app; simpl; lia|].
  apply HQ; [by apply store_var_ok| |done|done]. simpl. rewrite Hv. by rewrite insert_app_r_alt, Nat.sub_diag by done.
Qed.

(** The end of [main], once the program has been read. *)
Lemma wp_main_end ds v X l u s :
  gc_ok s.(mem) → s.(mem).(vars) = l ++ [u] → s.(mem).(heap).(nroots) = 1 →
  rep s.(mem).(objs) (dlist ds DNil) v X →
  wp (in_gc (store_var (length l) v);;
      cur ← in_gc (load_var (length l));
      s ← mget;
      let fuel := S (size s.(mem).(objs)) in
      mwhile (S := scm) (A := Z) (B := unit) fuel (λ cur,
        if IS_NIL cur then mret (inr tt)
        else
          x ← in_gc (gc_car cur);
          scm_println fuel x;;
          cur ← in_gc (gc_cdr cur);
          mret (inl cur)) cur;;
      in_gc (gc_pop 1);;
      in_gc gc_destroy;;
      mret (Some tt))
    (λ r s', r = Some tt ∧ s'.(out) = s.(out) ++ program_text ds ∧ s'.(mem).(objs) = ∅) s.
Proof.
  intros Hok Hv Hn HR. apply wp_bind, wp_in_gc. eapply wp_store_last; [done|done|by eapply rep_val_ok|].
  intros w1 Hok1 V1 O1 E1. apply wp_bind, wp_in_gc. apply (wp_load_var _ v).
  { simpl. rewrite V1. by rewrite lookup_app_r, Nat.sub_diag by done. }
  apply wp_bind, wp_get. cbv zeta. cbn [mem]. rewrite <-O1 in HR.
  pose proof (rep_cells _ _ _ _ HR) as Hcells.
  assert (Hlen : (length ds <= cells (dlist ds DNil))%nat).
  { clear. induction ds as [|d ds IH]; unfold dlist in *; simpl; lia. }
  apply wp_bind. eapply wp_mono; [eapply wp_print_forms; [apply Hok1|exact HR|lia|lia]|].
  intros [] s2 ->. apply wp_bind, wp_in_gc, wp_gc_pop; [done|simpl; rewrite E1; lia|]. intros Hok3.
  apply wp_bind, wp_in_gc. eapply wp_mono; [apply wp_gc_destroy, Hok3|].
  intros [] w4 (O4 & _). apply wp_ret. done.
Qed.
End scheme.

(** *** [tinscheme -p] *)

Section main.
Context (malloc : nat → gmap Z gc_obj → Z → Z) `{!Malloc malloc} (uninit : gc_mem → Z).
Context (Hun : harmless uninit).

Definition main_post (r : option (list datum * nat)) (s : scm) (x : option unit) (s' : scm) : Prop :=
  match x, r with
  | Some _, Some (ds, n) => s'.(out) = s.(out) ++ program_text ds ∧ s'.(mem).(objs) = ∅
  | Some _, None => False
  | None, Some (ds, n) => oom malloc ∨ (251 < n)%nat
  | None, None => True
  end.

Lemma wp_main txt s r :
  0 ∉ txt → short_runs (txt ++ [0]) → Z.of_nat (length txt) < 2 ^ 26 →
  s.(mem).(objs) = ∅ → length s.(mem).(heap).(roots) = 256%nat →
  ref_program (at_start (txt ++ [0]) s.(lx).(peek_tok)) = Some r →
  wp (main_print malloc uninit (txt ++ [0])) (main_post r s) s.
Proof.
  intros Hz Hsr Hlen Ho Hr E. unfold main_print. apply wp_started; [done|done|].
  apply wp_bind. eapply wp_in_lex; [reflexivity|]. cbn [mem out lx].
  pose proof (start_ok txt s.(lx).(peek_tok) Hz ltac:(lia) Hsr) as Hl.
  set (s1 := mk_scm _ _ _). apply wp_on_exit.
  assert (Hroom : roomy s1).
  { unfold roomy. simpl. pose proof (rem_bound _ Hl) as Hb. unfold at_start in Hb. simpl in Hb.
    rewrite length_app in Hb. simpl in Hb. lia. }
  eapply wp_mono; [apply (wp_scm_read_all malloc uninit Hun s1 r); [by apply started_ok|done|done|done]|].
  intros [v|] s2; destruct r as [[ds n]|]; try done; simpl.
  - intros (O2 & (X & [R1 R2 R3 [S1 S2 S3]]) & _). simpl in S1, S2.
    eapply wp_mono; [eapply wp_main_end; [done|exact S1|done|exact R2]|].
    intros _ s3 (-> & O3 & M3). simpl. by rewrite O3, O2.
  - intros [|?]; [by left|right; lia].
Qed.
End main.

(** ** Theorems *)




(** The output of [tinscheme -p] is a program with the same forms: run on
    it, [tinscheme -p] prints it again. *)
Theorem tinscheme_print_idempotent (malloc : nat → gmap Z gc_obj → Z → Z) (uninit : gc_mem → Z)
    (ds : list datum) (s : scm) :
  Malloc malloc → harmless uninit → Forall printable ds →
  short_runs (program_text ds ++ [0]) → Z.of_nat (length (program_text ds)) < 2 ^ 26 →
  s.(mem).(objs) = ∅ → length s.(mem).(heap).(roots) = 256%nat →
  ∃ x s', main_print malloc uninit (program_text ds ++ [0]) s = Some (x, s') ∧
    match x with
    | Some _ => s'.(out) = s.(out) ++ program_text ds ∧ s'.(mem).(objs) = ∅
    | None => oom malloc ∨ (251 < forms_need ds)%nat
    end.
Proof.
  intros HM Hun Hp Hsr Hlen Ho Hr. apply wp_run.
  eapply wp_mono; [apply (wp_main malloc uninit Hun (program_text ds) s (Some (ds, forms_need ds))); try done|].
  - apply program_nonzero.
  - apply program_back; [done|lia].
  - by intros [[]|] s'.
Qed.

(** ** Witnesses *)

Lemma short_small src : (length src <= 15)%nat → short_runs src.
Proof.
  intros Hl i k Hi Hk. destruct (decide (k <= 15)) as [|Hn]; [done|]. destruct (Hk 15) as (c & Hc & _); [lia|].
  rewrite aget_lookup in Hc by lia. apply lookup_lt_Some in Hc. lia.
Qed.

Lemma harmless_nil : harmless (λ _, VAL_NIL).
Proof. by intros w _. Qed.

Definition demo_tok : token := mk_token TOK_EOF 0 None 0 0.
Definition demo_scm (txt : list Z) : scm := mk_scm (at_start (txt ++ [0]) demo_tok) demo_mem [].

Lemma demo_lex txt : 0 ∉ txt → (length txt < 15)%nat → lex_ok (at_start (txt ++ [0]) demo_tok).
Proof. intros. apply start_ok; [done|lia|]. apply short_small. rewrite length_app. simpl. lia. Qed.


Definition demo_start : scm := mk_scm (at_start [] demo_tok) demo_heap [].



Lemma tinscheme_print_idempotent_witness :
  ∃ x s', main_print bump (λ _, VAL_NIL) (program_text [DPair (DNum 1) DNil; DBool true] ++ [0]) demo_start = Some (x, s') ∧
    match x with
    | Some _ => s'.(out) = str "(1)" ++ [10] ++ str "#t" ++ [10] ∧ s'.(mem).(objs) = ∅
    | None => oom bump ∨ (251 < 6)%nat
    end.
Proof.
  apply (tinscheme_print_idempotent bump (λ _, VAL_NIL) [DPair (DNum 1) DNil; DBool true] demo_start).
  - apply bump_malloc.
  - apply harmless_nil.
  - repeat constructor; vm_compute; congruence.
  - apply short_small. vm_compute. lia.
  - vm_compute. reflexivity.
  - reflexivity.
  - reflexivity.
Defined.

(** ** Locals without a value

    [read_list] and [scm_read_all] register [elem] and [cell] as roots before
    they have a value.  When a collection runs before the first assignment and
    the memory holds a value that looks like a pointer, the collector
    dereferences it. *)
Lemma unset_root_dereferenced :
  let malloc := λ n m sz, if (n =? 0)%nat then 0 else bump n m sz in
  scm_read_all malloc (λ _, 4096) (mk_scm (at_start (str "1" ++ [0]) demo_tok) demo_mem []) = None.
Proof. vm_compute. reflexivity. Qed.
