(* ===== verification/CfState.v ===== *)
(** * The state of the ColdFire emulator: src/coldfire-emulator/demo/coldfire.h

    The diagnostic trace ring, the processor state [cf_cpu] with one assignment
    function per field, the table of host callbacks, what the emulator leaves
    to the C implementation it is compiled with, and the invariant [wf_cpu]
    that every operation keeps. *)

From S2P Require Import Prelude HostFloat.

(** ** Trace ring buffer *)

Inductive cf_trace_type : Type :=
  | CF_TR_NONE | CF_TR_ILLEGAL | CF_TR_ACCESS_ERROR | CF_TR_ADDRESS_ERROR
  | CF_TR_ZERO_DIVIDE | CF_TR_PRIVILEGE | CF_TR_FORMAT_ERROR | CF_TR_LINE_A
  | CF_TR_LINE_F | CF_TR_TRAP | CF_TR_BUS_READ | CF_TR_BUS_WRITE
  | CF_TR_DOUBLE_FAULT.

#[global] Instance cf_trace_type_eq_dec : EqDecision cf_trace_type.
Proof. solve_decision. Defined.

Definition CF_TRACE_NOTE_SIZE : nat := 48.
Definition CF_TRACE_CAPACITY : Z := 64.

(** The [note] of an event is the C string its buffer holds. *)
Record cf_trace_event : Type := mk_event {
  ev_pc : Z;
  ev_addr : Z;
  ev_opword : Z;
  ev_type : cf_trace_type;
  ev_note : string
}.

Record cf_trace : Type := mk_trace {
  events : list cf_trace_event;
  head : Z;
  total : Z
}.

Definition cf_trace_init : cf_trace :=
  mk_trace (replicate 64 (mk_event 0 0 0 CF_TR_NONE EmptyString)) 0 0.

Definition cf_trace_push (t : cf_trace) (type : cf_trace_type) (pc opword addr : Z)
    (note : option string) : cf_trace :=
  let note := match note with
              | Some n =>
                  let len := String.length n in
                  let len := if (CF_TRACE_NOTE_SIZE <=? len)%nat
                             then (CF_TRACE_NOTE_SIZE - 1)%nat else len in
                  String.substring 0 len n
              | None => EmptyString
              end in
  mk_trace (<[Z.to_nat (t.(head) .& (CF_TRACE_CAPACITY - 1)) := mk_event pc addr opword type note]>
              t.(events))
    (u32 (t.(head) + 1)) (u32 (t.(total) + 1)).

Definition cf_trace_count (t : cf_trace) : Z :=
  let n := t.(head) in if n <? CF_TRACE_CAPACITY then n else CF_TRACE_CAPACITY.

Definition cf_trace_overflowed (t : cf_trace) : bool := CF_TRACE_CAPACITY <? t.(total).

(** [None] is the NULL the C function returns past the newest event. *)
Definition cf_trace_peek (t : cf_trace) (i : Z) : option cf_trace_event :=
  let n := cf_trace_count t in
  if n <=? i then None
  else
    let start := if t.(head) <=? CF_TRACE_CAPACITY then 0 else t.(head) in
    t.(events) !! Z.to_nat (u32 (start + i) .& (CF_TRACE_CAPACITY - 1)).

Definition cf_trace_clear (t : cf_trace) : cf_trace := mk_trace t.(events) 0 0.

(** ** Constants *)

Definition CF_SR_C : Z := 1 << 0.
Definition CF_SR_V : Z := 1 << 1.
Definition CF_SR_Z : Z := 1 << 2.
Definition CF_SR_N : Z := 1 << 3.
Definition CF_SR_X : Z := 1 << 4.
Definition CF_SR_S : Z := 1 << 13.
Definition CF_SR_T : Z := 1 << 15.

Definition CF_VEC_ACCESS_ERROR : Z := 2.
Definition CF_VEC_ADDRESS_ERROR : Z := 3.
Definition CF_VEC_ILLEGAL : Z := 4.
Definition CF_VEC_ZERO_DIVIDE : Z := 5.
Definition CF_VEC_PRIVILEGE : Z := 8.
Definition CF_VEC_LINE_A : Z := 10.
Definition CF_VEC_LINE_F : Z := 11.
Definition CF_VEC_FORMAT_ERROR : Z := 14.
Definition CF_VEC_TRAP (n : Z) : Z := 32 + n.

(** ** The processor

    The fields of [struct cf_cpu], in its order; the [int] fields are used as
    truth values only.  A floating-point register is the bit pattern of its
    [double], since the emulator copies registers from and to memory with
    [memcpy].  The callback pointers are in the table [cf_callbacks] below. *)

Record cf_cpu : Type := mk_cpu {
  d : list Z;
  a : list Z;
  pc : Z;
  sr : Z;
  vbr : Z;
  cacr : Z;
  other_a7 : Z;
  fp : list Z;
  fpcr : Z;
  fpsr : Z;
  fpiar : Z;
  acc : list Z;
  macsr : Z;
  mask : Z;
  halted : bool;
  cycles : Z;
  fault : bool;
  fault_status : Z;
  in_exception : bool;
  trace : cf_trace
}.

(** Assignments [cpu->field = v]. *)
Definition with_d (v : list Z) (c : cf_cpu) : cf_cpu :=
  mk_cpu v c.(a) c.(pc) c.(sr) c.(vbr) c.(cacr) c.(other_a7) c.(fp) c.(fpcr) c.(fpsr) c.(fpiar)
    c.(acc) c.(macsr) c.(mask) c.(halted) c.(cycles) c.(fault) c.(fault_status)
    c.(in_exception) c.(trace).
Definition with_a (v : list Z) (c : cf_cpu) : cf_cpu :=
  mk_cpu c.(d) v c.(pc) c.(sr) c.(vbr) c.(cacr) c.(other_a7) c.(fp) c.(fpcr) c.(fpsr) c.(fpiar)
    c.(acc) c.(macsr) c.(mask) c.(halted) c.(cycles) c.(fault) c.(fault_status)
    c.(in_exception) c.(trace).
Definition with_pc (v : Z) (c : cf_cpu) : cf_cpu :=
  mk_cpu c.(d) c.(a) v c.(sr) c.(vbr) c.(cacr) c.(other_a7) c.(fp) c.(fpcr) c.(fpsr) c.(fpiar)
    c.(acc) c.(macsr) c.(mask) c.(halted) c.(cycles) c.(fault) c.(fault_status)
    c.(in_exception) c.(trace).
Definition with_sr (v : Z) (c : cf_cpu) : cf_cpu :=
  mk_cpu c.(d) c.(a) c.(pc) v c.(vbr) c.(cacr) c.(other_a7) c.(fp) c.(fpcr) c.(fpsr) c.(fpiar)
    c.(acc) c.(macsr) c.(mask) c.(halted) c.(cycles) c.(fault) c.(fault_status)
    c.(in_exception) c.(trace).
Definition with_vbr (v : Z) (c : cf_cpu) : cf_cpu :=
  mk_cpu c.(d) c.(a) c.(pc) c.(sr) v c.(cacr) c.(other_a7) c.(fp) c.(fpcr) c.(fpsr) c.(fpiar)
    c.(acc) c.(macsr) c.(mask) c.(halted) c.(cycles) c.(fault) c.(fault_status)
    c.(in_exception) c.(trace).
Definition with_cacr (v : Z) (c : cf_cpu) : cf_cpu :=
  mk_cpu c.(d) c.(a) c.(pc) c.(sr) c.(vbr) v c.(other_a7) c.(fp) c.(fpcr) c.(fpsr) c.(fpiar)
    c.(acc) c.(macsr) c.(mask) c.(halted) c.(cycles) c.(fault) c.(fault_status)
    c.(in_exception) c.(trace).
Definition with_other_a7 (v : Z) (c : cf_cpu) : cf_cpu :=
  mk_cpu c.(d) c.(a) c.(pc) c.(sr) c.(vbr) c.(cacr) v c.(fp) c.(fpcr) c.(fpsr) c.(fpiar)
    c.(acc) c.(macsr) c.(mask) c.(halted) c.(cycles) c.(fault) c.(fault_status)
    c.(in_exception) c.(trace).
Definition with_fp (v : list Z) (c : cf_cpu) : cf_cpu :=
  mk_cpu c.(d) c.(a) c.(pc) c.(sr) c.(vbr) c.(cacr) c.(other_a7) v c.(fpcr) c.(fpsr) c.(fpiar)
    c.(acc) c.(macsr) c.(mask) c.(halted) c.(cycles) c.(fault) c.(fault_status)
    c.(in_exception) c.(trace).
Definition with_fpcr (v : Z) (c : cf_cpu) : cf_cpu :=
  mk_cpu c.(d) c.(a) c.(pc) c.(sr) c.(vbr) c.(cacr) c.(other_a7) c.(fp) v c.(fpsr) c.(fpiar)
    c.(acc) c.(macsr) c.(mask) c.(halted) c.(cycles) c.(fault) c.(fault_status)
    c.(in_exception) c.(trace).
Definition with_fpsr (v : Z) (c : cf_cpu) : cf_cpu :=
  mk_cpu c.(d) c.(a) c.(pc) c.(sr) c.(vbr) c.(cacr) c.(other_a7) c.(fp) c.(fpcr) v c.(fpiar)
    c.(acc) c.(macsr) c.(mask) c.(halted) c.(cycles) c.(fault) c.(fault_status)
    c.(in_exception) c.(trace).
Definition with_fpiar (v : Z) (c : cf_cpu) : cf_cpu :=
  mk_cpu c.(d) c.(a) c.(pc) c.(sr) c.(vbr) c.(cacr) c.(other_a7) c.(fp) c.(fpcr) c.(fpsr) v
    c.(acc) c.(macsr) c.(mask) c.(halted) c.(cycles) c.(fault) c.(fault_status)
    c.(in_exception) c.(trace).
Definition with_acc (v : list Z) (c : cf_cpu) : cf_cpu :=
  mk_cpu c.(d) c.(a) c.(pc) c.(sr) c.(vbr) c.(cacr) c.(other_a7) c.(fp) c.(fpcr) c.(fpsr)
    c.(fpiar) v c.(macsr) c.(mask) c.(halted) c.(cycles) c.(fault) c.(fault_status)
    c.(in_exception) c.(trace).
Definition with_macsr (v : Z) (c : cf_cpu) : cf_cpu :=
  mk_cpu c.(d) c.(a) c.(pc) c.(sr) c.(vbr) c.(cacr) c.(other_a7) c.(fp) c.(fpcr) c.(fpsr)
    c.(fpiar) c.(acc) v c.(mask) c.(halted) c.(cycles) c.(fault) c.(fault_status)
    c.(in_exception) c.(trace).
Definition with_mask (v : Z) (c : cf_cpu) : cf_cpu :=
  mk_cpu c.(d) c.(a) c.(pc) c.(sr) c.(vbr) c.(cacr) c.(other_a7) c.(fp) c.(fpcr) c.(fpsr)
    c.(fpiar) c.(acc) c.(macsr) v c.(halted) c.(cycles) c.(fault) c.(fault_status)
    c.(in_exception) c.(trace).
Definition with_halted (v : bool) (c : cf_cpu) : cf_cpu :=
  mk_cpu c.(d) c.(a) c.(pc) c.(sr) c.(vbr) c.(cacr) c.(other_a7) c.(fp) c.(fpcr) c.(fpsr)
    c.(fpiar) c.(acc) c.(macsr) c.(mask) v c.(cycles) c.(fault) c.(fault_status)
    c.(in_exception) c.(trace).
Definition with_cycles (v : Z) (c : cf_cpu) : cf_cpu :=
  mk_cpu c.(d) c.(a) c.(pc) c.(sr) c.(vbr) c.(cacr) c.(other_a7) c.(fp) c.(fpcr) c.(fpsr)
    c.(fpiar) c.(acc) c.(macsr) c.(mask) c.(halted) v c.(fault) c.(fault_status)
    c.(in_exception) c.(trace).
Definition with_fault (v : bool) (c : cf_cpu) : cf_cpu :=
  mk_cpu c.(d) c.(a) c.(pc) c.(sr) c.(vbr) c.(cacr) c.(other_a7) c.(fp) c.(fpcr) c.(fpsr)
    c.(fpiar) c.(acc) c.(macsr) c.(mask) c.(halted) c.(cycles) v c.(fault_status)
    c.(in_exception) c.(trace).
Definition with_fault_status (v : Z) (c : cf_cpu) : cf_cpu :=
  mk_cpu c.(d) c.(a) c.(pc) c.(sr) c.(vbr) c.(cacr) c.(other_a7) c.(fp) c.(fpcr) c.(fpsr)
    c.(fpiar) c.(acc) c.(macsr) c.(mask) c.(halted) c.(cycles) c.(fault) v c.(in_exception)
    c.(trace).
Definition with_in_exception (v : bool) (c : cf_cpu) : cf_cpu :=
  mk_cpu c.(d) c.(a) c.(pc) c.(sr) c.(vbr) c.(cacr) c.(other_a7) c.(fp) c.(fpcr) c.(fpsr)
    c.(fpiar) c.(acc) c.(macsr) c.(mask) c.(halted) c.(cycles) c.(fault) c.(fault_status) v
    c.(trace).
Definition with_trace (v : cf_trace) (c : cf_cpu) : cf_cpu :=
  mk_cpu c.(d) c.(a) c.(pc) c.(sr) c.(vbr) c.(cacr) c.(other_a7) c.(fp) c.(fpcr) c.(fpsr)
    c.(fpiar) c.(acc) c.(macsr) c.(mask) c.(halted) c.(cycles) c.(fault) c.(fault_status)
    c.(in_exception) v.

(** ** Host callbacks

    [B] is the host state behind [bus_ctx] and [hypercall_ctx].  A callback may
    update it, and [None] is undefined behaviour inside the callback.  A NULL
    [hypercall] pointer is the outer [None]. *)

Class cf_callbacks (B : Type) : Type := mk_callbacks {
  read8 : B → Z → option (Z * B);
  read16 : B → Z → option (Z * B);
  read32 : B → Z → option (Z * B);
  write8 : B → Z → Z → option B;
  write16 : B → Z → Z → option B;
  write32 : B → Z → Z → option B;
  hypercall : option (cf_cpu → Z → B → option (Z * (cf_cpu * B)))
}.
#[global] Arguments mk_callbacks {B}.

(** The processor together with the host state, on which the emulator runs. *)
Record cf_sys (B : Type) : Type := mk_sys { cpu : cf_cpu; bus : B }.
Arguments mk_sys {B}. Arguments cpu {B}. Arguments bus {B}.

(** ** The C implementation

    What the emulator leaves to the compiler and the machine: the value of an
    [int] or [int64_t] expression that overflows, of a shift to the left of a
    negative or overflowing [int64_t], and of a conversion of a [double] out of
    the range of a [w]-bit integer, each undefined in C ([None]) unless the
    implementation defines it; and the bit pattern of a NaN that an operation
    makes from the patterns of its operands. *)

Definition is_nan64 (b : Z) : bool :=
  (((b >> 52) .& 0x7ff) =? 0x7ff) && negb ((b .& 0xfffffffffffff) =? 0).
Definition is_nan32 (b : Z) : bool :=
  (((b >> 23) .& 0xff) =? 0xff) && negb ((b .& 0x7fffff) =? 0).

Class CImpl : Type := {
  ov32 : Z → option Z;
  ov64 : Z → option Z;
  ovshl : Z → option Z;
  ovcvt : Z → Z → option Z;
  nan64 : Z → Z → Z;
  nan32 : Z → Z;
  nan_widen : Z → Z;
  nan64_ok x y : in64 (nan64 x y) ∧ is_nan64 (nan64 x y) = true;
  nan32_ok x : in32 (nan32 x) ∧ is_nan32 (nan32 x) = true;
  nan_widen_ok x : in64 (nan_widen x) ∧ is_nan64 (nan_widen x) = true
}.

(** The standard, which defines none of them. *)
Definition std_c : CImpl.
Proof.
  refine {| ov32 _ := None; ov64 _ := None; ovshl _ := None; ovcvt _ _ := None;
            nan64 _ _ := 0x7ff8000000000000; nan32 _ := 0x7fc00000;
            nan_widen _ := 0x7ff8000000000000 |}; intros; by vm_compute.
Defined.

(** Two's complement with wrap-around, and the conversions of x86-64: through
    [int], of which an out-of-range value gives the least. *)
Definition s64 (z : Z) : Z := let v := u64 z in if v <? 2 ^ 63 then v else v - 2 ^ 64.

Definition wrap_c : CImpl.
Proof.
  refine {| ov32 z := Some (s32 z); ov64 z := Some (s64 z); ovshl z := Some (s64 z);
            ovcvt w x := Some
              (let t := default (- 2 ^ 31) (d_to_int32 (d_from_bits x)) in
               if w =? 8 then s8 t else if w =? 16 then s16 t else s32 t);
            nan64 _ _ := 0xfff8000000000000; nan32 _ := 0xffc00000;
            nan_widen _ := 0xfff8000000000000 |}; intros; by vm_compute.
Defined.

(** An implementation that defines them all, with values of the right type. *)
Class CTotal (C : CImpl) : Prop := {
  ov32_total z : ∃ v, ov32 z = Some v ∧ - 2 ^ 31 <= v < 2 ^ 31;
  ov64_total z : ∃ v, ov64 z = Some v ∧ - 2 ^ 63 <= v < 2 ^ 63;
  ovshl_total z : ∃ v, ovshl z = Some v ∧ - 2 ^ 63 <= v < 2 ^ 63;
  ovcvt_total w x : ∃ v, ovcvt w x = Some v ∧ - 2 ^ 31 <= v < 2 ^ 31
}.

Lemma s8_range z : - 2 ^ 7 <= s8 z < 2 ^ 7.
Proof. unfold s8. pose proof (u8_in z). unfold inw in *. case_match; lia. Qed.
Lemma s16_range z : - 2 ^ 15 <= s16 z < 2 ^ 15.
Proof. unfold s16. pose proof (u16_in z). unfold inw in *. case_match; lia. Qed.
Lemma s64_range z : - 2 ^ 63 <= s64 z < 2 ^ 63.
Proof. unfold s64. pose proof (u64_in z). unfold inw in *. case_match; lia. Qed.

#[global] Instance wrap_c_total : CTotal wrap_c.
Proof.
  split; intros; eexists; (split; [done|]); auto using s32_range, s64_range.
  cbv beta zeta. generalize (default (- 2 ^ 31) (d_to_int32 (d_from_bits x))). intros t.
  pose proof (s8_range t). pose proof (s16_range t). pose proof (s32_range t).
  destruct (w =? 8); [lia|]. destruct (w =? 16); lia.
Qed.

(** ** Invariant

    Registers hold values of their width, the status register 16 bits and an
    accumulator a 48-bit integer. *)

Definition in48s (z : Z) : Prop := - 2 ^ 47 <= z < 2 ^ 47.

Record wf_cpu (c : cf_cpu) : Prop := {
  wf_d_len : length c.(d) = 8%nat;
  wf_d : Forall in32 c.(d);
  wf_a_len : length c.(a) = 8%nat;
  wf_a : Forall in32 c.(a);
  wf_pc : in32 c.(pc);
  wf_sr : in16 c.(sr);
  wf_vbr : in32 c.(vbr);
  wf_cacr : in32 c.(cacr);
  wf_other : in32 c.(other_a7);
  wf_fp_len : length c.(fp) = 8%nat;
  wf_fp : Forall in64 c.(fp);
  wf_fpcr : in32 c.(fpcr);
  wf_fpsr : in32 c.(fpsr);
  wf_fpiar : in32 c.(fpiar);
  wf_acc_len : length c.(acc) = 4%nat;
  wf_acc : Forall in48s c.(acc);
  wf_macsr : in32 c.(macsr);
  wf_mask : in32 c.(mask);
  wf_cycles : in64 c.(cycles);
  wf_fs : in8 c.(fault_status);
  wf_trace : length c.(trace).(events) = 64%nat
}.
