(* ===== verification/CfOps.v ===== *)
(** * Helpers of the ColdFire emulator: src/coldfire-emulator/demo/coldfire.c

    The memory bus wrappers, operand sizes, the condition codes, exception
    processing and the effective address engine, on which the handlers of the
    opcode groups are built. *)

From S2P Require Import Prelude HostFloat CfState.

Section Ops.
Context {B : Type} {cb : cf_callbacks B} {C : CImpl}.

Abbreviation CF := (M (cf_sys B)).

(** ** Access to the processor *)

Definition getc {A} (f : cf_cpu → A) : CF A := mgets (λ s, f s.(cpu)).
Definition modc (f : cf_cpu → cf_cpu) : CF unit := mmod (λ s, mk_sys (f s.(cpu)) s.(bus)).

Definition getd (i : Z) : CF Z := l ← getc d; must (aget l i).
Definition setd (i v : Z) : CF unit := l ← getc d; l ← must (aset l i v); modc (with_d l).
Definition geta (i : Z) : CF Z := l ← getc a; must (aget l i).
Definition seta (i v : Z) : CF unit := l ← getc a; l ← must (aset l i v); modc (with_a l).
Definition getfp (i : Z) : CF Z := l ← getc fp; must (aget l i).
Definition setfp (i v : Z) : CF unit := l ← getc fp; l ← must (aset l i v); modc (with_fp l).
Definition getacc (i : Z) : CF Z := l ← getc acc; must (aget l i).
Definition setacc (i v : Z) : CF unit := l ← getc acc; l ← must (aset l i v); modc (with_acc l).

(** The value of a signed expression of C, by the implementation where it
    overflows. *)
Definition cint (z : Z) : CF Z :=
  if (- 2 ^ 31 <=? z) && (z <? 2 ^ 31) then mret z else must (ov32 z).
Definition clong (z : Z) : CF Z :=
  if (- 2 ^ 63 <=? z) && (z <? 2 ^ 63) then mret z else must (ov64 z).
Definition cshl (z n : Z) : CF Z :=
  if (0 <=? z) && (z << n <? 2 ^ 63) then mret (z << n) else must (ovshl (z << n)).

(** ** Privilege *)

Definition is_supervisor : CF bool := getc (λ c, nz (c.(sr) .& CF_SR_S)).

Definition update_sp (new_sr : Z) : CF unit :=
  was_super ← getc (λ c, nz (c.(sr) .& CF_SR_S));
  let now_super := nz (new_sr .& CF_SR_S) in
  if negb (eqb was_super now_super) then
    tmp ← geta 7;
    o ← getc other_a7;
    seta 7 o;;
    modc (with_other_a7 tmp)
  else mret tt.

(** ** Memory bus wrappers *)

Definition bus_rd (f : B → Z → option (Z * B)) (addr : Z) : CF Z := λ s,
  match f s.(bus) addr with Some (v, b) => Some (v, mk_sys s.(cpu) b) | None => None end.
Definition bus_wr (f : B → Z → Z → option B) (addr val : Z) : CF unit := λ s,
  match f s.(bus) addr val with Some b => Some (tt, mk_sys s.(cpu) b) | None => None end.

Definition bus_read8 (addr : Z) : CF Z := v ← bus_rd read8 addr; mret (v .& 0xFF).
Definition bus_read16 (addr : Z) : CF Z := v ← bus_rd read16 addr; mret (v .& 0xFFFF).
Definition bus_read32 (addr : Z) : CF Z := bus_rd read32 addr.
Definition bus_write8 (addr val : Z) : CF unit := bus_wr write8 addr (val .& 0xFF).
Definition bus_write16 (addr val : Z) : CF unit := bus_wr write16 addr (val .& 0xFFFF).
Definition bus_write32 (addr val : Z) : CF unit := bus_wr write32 addr val.

Definition fetch16 : CF Z :=
  p ← getc pc;
  w ← bus_read16 p;
  modc (λ c, with_pc (u32 (c.(pc) + 2)) c);;
  mret (u16 w).

Definition fetch32 : CF Z :=
  hi ← fetch16;
  lo ← fetch16;
  mret (u32 (hi << 16) .| lo).

(** ** Operand sizes *)

Definition SZ_BYTE : Z := 1.
Definition SZ_WORD : Z := 2.
Definition SZ_LONG : Z := 4.

Definition size_bytes (sz : Z) : Z := sz.

Definition size_mask (val sz : Z) : Z :=
  if sz =? SZ_BYTE then val .& 0xFF
  else if sz =? SZ_WORD then val .& 0xFFFF
  else val.

Definition sign_extend (val sz : Z) : Z :=
  if sz =? SZ_BYTE then s8 (val .& 0xFF)
  else if sz =? SZ_WORD then s16 (val .& 0xFFFF)
  else s32 val.

Definition decode_size (bits : Z) : Z :=
  nth (Z.to_nat (bits .& 3)) [SZ_BYTE; SZ_WORD; SZ_LONG; 0] 0.

(** The [switch (sz)] that gives the sign bit of an operand. *)
Definition size_msb (sz : Z) : Z :=
  if sz =? SZ_BYTE then 0x80 else if sz =? SZ_WORD then 0x8000 else 0x80000000.

(** ** Condition codes *)

Definition set_flag (flag : Z) (cond : bool) : CF unit :=
  if cond then modc (λ c, with_sr (c.(sr) .| flag) c)
  else modc (λ c, with_sr (c.(sr) .& not32 flag) c).

(** [cpu->sr &= ~flags] *)
Definition clear_flags (flags : Z) : CF unit := modc (λ c, with_sr (c.(sr) .& not32 flags) c).

Definition set_nz (result sz : Z) : CF unit :=
  let m := size_mask result sz in
  let msb := size_msb sz in
  set_flag CF_SR_N (nz (m .& msb));;
  set_flag CF_SR_Z (m =? 0).

Definition set_flags_move (result sz : Z) : CF unit :=
  set_nz result sz;;
  clear_flags (CF_SR_V .| CF_SR_C).

Definition set_flags_add (src dst res sz : Z) : CF unit :=
  let msb := size_msb sz in
  let sm := src .& msb in
  let dm := dst .& msb in
  let rm := res .& msb in
  set_nz res sz;;
  set_flag CF_SR_V ((sm =? dm) && negb (rm =? sm));;
  set_flag CF_SR_C ((nz sm && nz dm) || (negb (nz rm) && (nz sm || nz dm)));;
  s ← getc sr;
  set_flag CF_SR_X (nz (s .& CF_SR_C)).

Definition set_flags_sub (src dst res sz : Z) : CF unit :=
  let msb := size_msb sz in
  let sm := src .& msb in
  let dm := dst .& msb in
  let rm := res .& msb in
  set_nz res sz;;
  set_flag CF_SR_V (negb (sm =? dm) && (rm =? sm));;
  set_flag CF_SR_C ((negb (nz dm) && nz sm) || (nz rm && (negb (nz dm) || nz sm)));;
  s ← getc sr;
  set_flag CF_SR_X (nz (s .& CF_SR_C)).

Definition set_flags_cmp (src dst res sz : Z) : CF unit :=
  let msb := size_msb sz in
  let sm := src .& msb in
  let dm := dst .& msb in
  let rm := res .& msb in
  set_nz res sz;;
  set_flag CF_SR_V (negb (sm =? dm) && (rm =? sm));;
  set_flag CF_SR_C ((negb (nz dm) && nz sm) || (nz rm && (negb (nz dm) || nz sm))).

(** The condition [cc] in the status register [sr]. *)
Definition cond_holds (sr cc : Z) : bool :=
  let n := nz ((sr >> 3) .& 1) in
  let z := nz ((sr >> 2) .& 1) in
  let v := nz ((sr >> 1) .& 1) in
  let c := nz (sr .& 1) in
  match cc .& 0xF with
  | 0x0 => true
  | 0x1 => false
  | 0x2 => negb c && negb z
  | 0x3 => c || z
  | 0x4 => negb c
  | 0x5 => c
  | 0x6 => negb z
  | 0x7 => z
  | 0x8 => negb v
  | 0x9 => v
  | 0xA => negb n
  | 0xB => n
  | 0xC => eqb n v
  | 0xD => negb (eqb n v)
  | 0xE => negb z && eqb n v
  | 0xF => z || negb (eqb n v)
  | _ => false
  end.

Definition eval_cc (cc : Z) : CF bool := getc (λ c, cond_holds c.(sr) cc).

(** ** Exception processing *)

Definition vec_to_trace_type (vector : Z) : cf_trace_type :=
  if vector =? CF_VEC_ACCESS_ERROR then CF_TR_ACCESS_ERROR
  else if vector =? CF_VEC_ADDRESS_ERROR then CF_TR_ADDRESS_ERROR
  else if vector =? CF_VEC_ILLEGAL then CF_TR_ILLEGAL
  else if vector =? CF_VEC_ZERO_DIVIDE then CF_TR_ZERO_DIVIDE
  else if vector =? CF_VEC_PRIVILEGE then CF_TR_PRIVILEGE
  else if vector =? CF_VEC_LINE_A then CF_TR_LINE_A
  else if vector =? CF_VEC_LINE_F then CF_TR_LINE_F
  else if vector =? CF_VEC_FORMAT_ERROR then CF_TR_FORMAT_ERROR
  else if (32 <=? vector) && (vector <? 48) then CF_TR_TRAP
  else CF_TR_NONE.

Definition push_event (type : cf_trace_type) (opword : Z) : CF unit :=
  modc (λ c, with_trace (cf_trace_push c.(trace) type c.(pc) opword 0 None) c).

(** [cpu->a[7] -= n] *)
Definition sub_sp (n : Z) : CF unit := v ← geta 7; seta 7 (u32 (v - n)).
Definition add_sp (n : Z) : CF unit := v ← geta 7; seta 7 (u32 (v + n)).

(** The part of [cf_exception] after the check for a double fault. *)
Definition enter_exception (vector : Z) : CF unit :=
  modc (with_in_exception true);;
  old_sr ← getc sr;
  let new_sr := (old_sr .| CF_SR_S) .& not32 CF_SR_T in
  update_sp new_sr;;
  modc (with_sr new_sr);;
  sub_sp 4;;
  sp ← geta 7;
  p ← getc pc;
  bus_write32 sp p;;
  sub_sp 2;;
  sp ← geta 7;
  bus_write16 sp (old_sr .& 0xFFFF);;
  sub_sp 2;;
  fs ← getc fault_status;
  let fmt := u16 ((4 << 12) .| ((vector .& 0xFF) << 2)) in
  let fmt := if vector =? CF_VEC_ACCESS_ERROR then u16 (fmt .| ((fs .& 0x3) << 10)) else fmt in
  sp ← geta 7;
  bus_write16 sp fmt;;
  vb ← getc vbr;
  handler ← bus_read32 (u32 (vb + u32 (vector * 4)));
  modc (with_pc handler);;
  modc (with_halted false);;
  modc (with_in_exception false).

Definition cf_exception (vector : Z) : CF unit :=
  let tt' := vec_to_trace_type vector in
  (if decide (tt' ≠ CF_TR_NONE) then
     p ← getc pc;
     opword ← (if 2 <=? p then w ← bus_rd read16 (u32 (p - 2)); mret (u16 w) else mret 0);
     push_event tt' opword
   else mret tt);;
  inx ← getc in_exception;
  if inx : bool then
    push_event CF_TR_DOUBLE_FAULT 0;;
    modc (with_fault true);;
    modc (with_halted true);;
    modc (with_in_exception false)
  else enter_exception vector.

(** ** Effective address engine *)

Record ea_loc : Type := mk_loc {
  ltype : Z;
  lreg : Z;
  laddr : Z;
  limm : Z
}.

Definition loc_zero : ea_loc := mk_loc 0 0 0 0.
Definition loc_mem (addr : Z) : ea_loc := mk_loc 2 0 addr 0.

(** [base + (int32_t)xval * scale + disp] for the extension word [ext]. *)
Definition indexed (base : CF Z) (ext : Z) : CF ea_loc :=
  let xreg := (ext >> 12) .& 7 in
  let is_addr := (ext >> 15) .& 1 in
  let scale_bits := (ext >> 9) .& 3 in
  let scale := 1 << scale_bits in
  let disp := s8 (ext .& 0xFF) in
  xval ← (if nz is_addr then geta xreg else getd xreg);
  b ← base;
  i ← cint (s32 xval * scale);
  mret (loc_mem (u32 (b + i + disp))).

Definition decode_ea (mode reg sz : Z) : CF ea_loc :=
  match mode with
  | 0 => mret (mk_loc 0 reg 0 0)
  | 1 => mret (mk_loc 1 reg 0 0)
  | 2 => v ← geta reg; mret (loc_mem v)
  | 3 =>
      let inc := size_bytes sz in
      let inc := if (reg =? 7) && (inc <? 2) then 2 else inc in
      v ← geta reg;
      seta reg (u32 (v + inc));;
      mret (loc_mem v)
  | 4 =>
      let dec := size_bytes sz in
      let dec := if (reg =? 7) && (dec <? 2) then 2 else dec in
      v ← geta reg;
      seta reg (u32 (v - dec));;
      v ← geta reg;
      mret (loc_mem v)
  | 5 =>
      w ← fetch16;
      v ← geta reg;
      mret (loc_mem (u32 (v + s16 w)))
  | 6 =>
      ext ← fetch16;
      if nz (ext .& 0x0100) || negb (nz (ext .& 0x0800)) then
        cf_exception CF_VEC_ADDRESS_ERROR;;
        modc (with_fault true);;
        mret loc_zero
      else indexed (geta reg) ext
  | 7 =>
      match reg with
      | 0 => w ← fetch16; mret (loc_mem (u32 (s16 w)))
      | 1 => v ← fetch32; mret (loc_mem v)
      | 2 => base_pc ← getc pc; w ← fetch16; mret (loc_mem (u32 (base_pc + s16 w)))
      | 3 => base_pc ← getc pc; ext ← fetch16; indexed (mret base_pc) ext
      | 4 =>
          imm ← (if sz =? SZ_BYTE then w ← fetch16; mret (w .& 0xFF)
                 else if sz =? SZ_WORD then fetch16
                 else if sz =? SZ_LONG then fetch32
                 else mret 0);
          mret (mk_loc 3 0 0 imm)
      | _ => cf_exception CF_VEC_ILLEGAL;; mret loc_zero
      end
  | _ => cf_exception CF_VEC_ILLEGAL;; mret loc_zero
  end.

Definition read_mem (addr sz : Z) : CF Z :=
  if sz =? SZ_BYTE then bus_read8 addr
  else if sz =? SZ_WORD then bus_read16 addr
  else bus_read32 addr.

Definition write_mem (addr sz val : Z) : CF unit :=
  if sz =? SZ_BYTE then bus_write8 addr val
  else if sz =? SZ_WORD then bus_write16 addr val
  else bus_write32 addr val.

Definition read_ea (loc : ea_loc) (sz : Z) : CF Z :=
  match loc.(ltype) with
  | 0 => v ← getd loc.(lreg); mret (size_mask v sz)
  | 1 => geta loc.(lreg)
  | 2 => read_mem loc.(laddr) sz
  | 3 => mret (size_mask loc.(limm) sz)
  | _ => mret 0
  end.

(** The [switch (sz)] that stores the low part of a data register. *)
Definition put_d (reg sz val : Z) : CF unit :=
  if sz =? SZ_BYTE then v ← getd reg; setd reg ((v .& 0xFFFFFF00) .| (val .& 0xFF))
  else if sz =? SZ_WORD then v ← getd reg; setd reg ((v .& 0xFFFF0000) .| (val .& 0xFFFF))
  else setd reg val.

Definition write_ea (loc : ea_loc) (sz val : Z) : CF unit :=
  match loc.(ltype) with
  | 0 => put_d loc.(lreg) sz val
  | 1 => seta loc.(lreg) val
  | 2 => write_mem loc.(laddr) sz val
  | _ => mret tt
  end.

Definition ea_read (mode reg sz : Z) : CF Z :=
  loc ← decode_ea mode reg sz;
  read_ea loc sz.
End Ops.
