(* ===== verification/CfInt.v ===== *)
(** * Integer instructions of the ColdFire emulator: coldfire.c, groups 0 to 9 and B to E

    One definition per opcode group, and one per instruction of the large
    group 4, each with the tests on the opcode word in the order of the
    source. *)

From S2P Require Import Prelude HostFloat CfState CfOps.

Section Exec.
Context {B : Type} {cb : cf_callbacks B} {C : CImpl}.

Abbreviation CF := (M (cf_sys B)).

Definition illegal : CF unit := cf_exception CF_VEC_ILLEGAL.

(** ** Groups 0: bit operations and immediates *)

(** The common part of BTST, BCHG, BCLR and BSET on the bit [bitnum]. *)
Definition bit_ops (bit_op bitnum ea_mode ea_reg : Z) : CF unit :=
  if ea_mode =? 0 then
    let bitnum := bitnum .& 31 in
    let b := 1 << bitnum in
    val ← getd ea_reg;
    set_flag CF_SR_Z (negb (nz (val .& b)));;
    match bit_op with
    | 1 => setd ea_reg (val .^ b)
    | 2 => setd ea_reg (val .& not32 b)
    | 3 => setd ea_reg (val .| b)
    | _ => mret tt
    end
  else
    let bitnum := bitnum .& 7 in
    let b := 1 << bitnum in
    loc ← decode_ea ea_mode ea_reg SZ_BYTE;
    val ← read_ea loc SZ_BYTE;
    set_flag CF_SR_Z (negb (nz (val .& b)));;
    match bit_op with
    | 1 => write_ea loc SZ_BYTE (val .^ b)
    | 2 => write_ea loc SZ_BYTE (val .& not32 b)
    | 3 => write_ea loc SZ_BYTE (val .| b)
    | _ => mret tt
    end.

Definition exec_bit_reg (op : Z) : CF unit :=
  let bit_reg := (op >> 9) .& 7 in
  let bit_op := (op >> 6) .& 3 in
  let ea_mode := (op >> 3) .& 7 in
  let ea_reg := op .& 7 in
  bitnum ← getd bit_reg;
  bit_ops bit_op (s32 bitnum) ea_mode ea_reg.

(** The loop of FF1: [val] is not zero, so that it ends after at most 31
    shifts. *)
Fixpoint ff1_loop (fuel : nat) (val n : Z) : Z :=
  match fuel with
  | O => n
  | S fuel => if nz (val .& 0x80000000) then n else ff1_loop fuel (u32 (val << 1)) (n + 1)
  end.

Definition ff1 (val : Z) : Z := if val =? 0 then 32 else ff1_loop 32 val 0.

Definition byterev (val : Z) : Z :=
  ((val >> 24) .& 0xFF) .| ((val >> 8) .& 0xFF00) .|
  (u32 (val << 8) .& 0xFF0000) .| (u32 (val << 24) .& 0xFF000000).

(** The immediate operations, after the size is known to be valid. *)
Definition exec_imm (imm_op sz ea_mode ea_reg : Z) : CF unit :=
  imm ← (if sz =? SZ_LONG then fetch32
         else w ← fetch16; mret (w .& (if sz =? SZ_BYTE then 0xFF else 0xFFFF)));
  loc ← decode_ea ea_mode ea_reg sz;
  dst ← read_ea loc sz;
  match imm_op with
  | 0 => let res := dst .| imm in write_ea loc sz res;; set_flags_move res sz
  | 1 => let res := dst .& imm in write_ea loc sz res;; set_flags_move res sz
  | 2 => let res := u32 (dst - imm) in write_ea loc sz res;; set_flags_sub imm dst res sz
  | 3 => let res := u32 (dst + imm) in write_ea loc sz res;; set_flags_add imm dst res sz
  | 5 => let res := dst .^ imm in write_ea loc sz res;; set_flags_move res sz
  | 6 => let res := u32 (dst - imm) in set_flags_cmp imm dst res sz
  | _ => illegal
  end.

Definition exec_group0 (op : Z) : CF unit :=
  let upper := (op >> 8) .& 0xFF in
  if (upper .& 0xFE) =? 0x08 then
    let bit_op := (op >> 6) .& 3 in
    let ea_mode := (op >> 3) .& 7 in
    let ea_reg := op .& 7 in
    ext ← fetch16;
    bit_ops bit_op (ext .& 0xFF) ea_mode ea_reg
  else if (op .& 0xFFF8) =? 0x04C0 then
    let reg := op .& 7 in
    val ← getd reg;
    setd reg (ff1 val)
  else if (op .& 0xFFF8) =? 0x02C0 then
    let reg := op .& 7 in
    val ← getd reg;
    setd reg (byterev val)
  else
    let imm_op := (op >> 9) .& 7 in
    let sz := decode_size ((op >> 6) .& 3) in
    let ea_mode := (op >> 3) .& 7 in
    let ea_reg := op .& 7 in
    if sz =? 0 then illegal else exec_imm imm_op sz ea_mode ea_reg.

(** ** Groups 1 to 3: MOVE *)

Definition exec_move (op sz : Z) : CF unit :=
  let src_mode := (op >> 3) .& 7 in
  let src_reg := op .& 7 in
  let dst_reg := (op >> 9) .& 7 in
  let dst_mode := (op >> 6) .& 7 in
  val ← ea_read src_mode src_reg sz;
  if (dst_mode =? 1) && (sz =? SZ_BYTE) then illegal
  else if dst_mode =? 1 then seta dst_reg (u32 (sign_extend val sz))
  else
    dst ← decode_ea dst_mode dst_reg sz;
    write_ea dst sz val;;
    set_flags_move val sz.

(** ** Group 4: miscellaneous *)

(** [if (!is_supervisor(cpu)) { cf_exception(cpu, CF_VEC_PRIVILEGE); return; }] *)
Definition privileged (k : CF unit) : CF unit :=
  s ← is_supervisor;
  if s : bool then k else cf_exception CF_VEC_PRIVILEGE.

Definition exec_tas (mode reg : Z) : CF unit :=
  loc ← decode_ea mode reg SZ_BYTE;
  val ← read_ea loc SZ_BYTE;
  set_flags_move val SZ_BYTE;;
  write_ea loc SZ_BYTE (val .| 0x80).

Definition exec_tst (op mode reg : Z) : CF unit :=
  let sz := decode_size ((op >> 6) .& 3) in
  if sz =? 0 then illegal
  else
    val ← ea_read mode reg sz;
    set_flags_move val sz.

Definition exec_clr (op mode reg : Z) : CF unit :=
  let sz := decode_size ((op >> 6) .& 3) in
  if sz =? 0 then illegal
  else
    loc ← decode_ea mode reg sz;
    write_ea loc sz 0;;
    clear_flags (CF_SR_N .| CF_SR_V .| CF_SR_C);;
    modc (λ c, with_sr (c.(sr) .| CF_SR_Z) c).

Definition exec_neg (reg : Z) : CF unit :=
  src ← getd reg;
  let res := u32 (0 - src) in
  setd reg res;;
  set_flags_sub src 0 res SZ_LONG.

(** [(cpu->sr & CF_SR_X) ? 1 : 0] *)
Definition get_x : CF Z := getc (λ c, Z.b2z (nz (c.(sr) .& CF_SR_X))).

(** [cpu->sr &= ~CF_SR_Z] when the result is not zero *)
Definition sticky_z (res : Z) : CF unit :=
  if negb (res =? 0) then clear_flags CF_SR_Z else mret tt.

Definition exec_negx (reg : Z) : CF unit :=
  src ← getd reg;
  x ← get_x;
  let diff := u64 (0 - src - x) in
  let res := u32 diff in
  setd reg res;;
  set_flag CF_SR_C (nz (diff >> 32));;
  set_flag CF_SR_X (nz (diff >> 32));;
  set_flag CF_SR_V (nz (res .& 0x80000000) && nz (src .& 0x80000000));;
  set_flag CF_SR_N (nz (res .& 0x80000000));;
  sticky_z res.

Definition exec_not (reg : Z) : CF unit :=
  v ← getd reg;
  setd reg (not32 v);;
  v ← getd reg;
  set_flags_move v SZ_LONG.

Definition exec_ext_w (reg : Z) : CF unit :=
  v ← getd reg;
  let val := s8 (v .& 0xFF) in
  setd reg ((v .& 0xFFFF0000) .| (val .& 0xFFFF));;
  set_flags_move (u16 val) SZ_WORD.

Definition exec_ext_l (reg : Z) : CF unit :=
  v ← getd reg;
  let val := s16 (v .& 0xFFFF) in
  setd reg (u32 val);;
  set_flags_move (u32 val) SZ_LONG.

Definition exec_extb (reg : Z) : CF unit :=
  v ← getd reg;
  let val := s8 (v .& 0xFF) in
  setd reg (u32 val);;
  set_flags_move (u32 val) SZ_LONG.

Definition exec_swap (reg : Z) : CF unit :=
  val ← getd reg;
  setd reg ((val >> 16) .| u32 (val << 16));;
  v ← getd reg;
  set_flags_move v SZ_LONG.

Definition exec_pea (mode reg : Z) : CF unit :=
  if mode =? 0 then illegal
  else
    loc ← decode_ea mode reg SZ_LONG;
    sub_sp 4;;
    sp ← geta 7;
    bus_write32 sp loc.(laddr).

(** Register [i] of a MOVEM mask: D0 to D7, then A0 to A7. *)
Definition get_r (i : Z) : CF Z := if i <? 8 then getd i else geta (i - 8).
Definition set_r (i v : Z) : CF unit := if i <? 8 then setd i v else seta (i - 8) v.

Definition movem_predec (mask reg : Z) : CF unit :=
  mfor (upto 16) (λ j,
    if negb (nz (mask .& (1 << j))) then mret tt
    else
      let r := 15 - j in
      v ← geta reg;
      seta reg (u32 (v - 4));;
      v ← geta reg;
      x ← get_r r;
      bus_write32 v x).

Definition movem_postinc (mask reg : Z) : CF unit :=
  mfor (upto 16) (λ i,
    if negb (nz (mask .& (1 << i))) then mret tt
    else
      v ← geta reg;
      val ← bus_read32 v;
      set_r i val;;
      v ← geta reg;
      seta reg (u32 (v + 4))).

Definition movem_store (mask addr : Z) : CF unit :=
  mloop (upto 16) (λ i addr,
    if nz (mask .& (1 << i)) then
      x ← get_r i;
      bus_write32 addr x;;
      mret (inl (u32 (addr + 4)))
    else mret (inl addr)) addr;;
  mret tt.

Definition movem_load (mask addr : Z) : CF unit :=
  mloop (upto 16) (λ i addr,
    if nz (mask .& (1 << i)) then
      val ← bus_read32 addr;
      set_r i val;;
      mret (inl (u32 (addr + 4)))
    else mret (inl addr)) addr;;
  mret tt.

Definition exec_movem (op mode reg : Z) : CF unit :=
  let dir := (op >> 10) .& 1 in
  if ((op >> 6) .& 1) =? 0 then illegal
  else
    mask ← fetch16;
    if mode =? 0 then illegal
    else if (mode =? 4) && (dir =? 0) then movem_predec mask reg
    else if (mode =? 3) && (dir =? 1) then movem_postinc mask reg
    else if negb (mode =? 2) && negb (mode =? 5) then illegal
    else
      loc ← decode_ea mode reg SZ_LONG;
      if dir =? 0 then movem_store mask loc.(laddr) else movem_load mask loc.(laddr).

Definition exec_lea (op mode reg : Z) : CF unit :=
  let dst := (op >> 9) .& 7 in
  loc ← decode_ea mode reg SZ_LONG;
  seta dst loc.(laddr).

Definition exec_link (reg : Z) : CF unit :=
  w ← fetch16;
  let disp := s16 w in
  sub_sp 4;;
  sp ← geta 7;
  v ← geta reg;
  bus_write32 sp v;;
  sp ← geta 7;
  seta reg sp;;
  add_sp disp.

Definition exec_unlk (reg : Z) : CF unit :=
  v ← geta reg;
  seta 7 v;;
  sp ← geta 7;
  w ← bus_read32 sp;
  seta reg w;;
  add_sp 4.

Definition exec_rts : CF unit :=
  sp ← geta 7;
  p ← bus_read32 sp;
  modc (with_pc p);;
  add_sp 4.

Definition exec_rte : CF unit :=
  privileged (
    sp ← geta 7;
    fmt ← bus_read16 sp;
    let format := (fmt >> 12) .& 0xF in
    if negb (format =? 4) then cf_exception CF_VEC_FORMAT_ERROR
    else
      add_sp 2;;
      sp ← geta 7;
      new_sr ← bus_read16 sp;
      add_sp 2;;
      sp ← geta 7;
      new_pc ← bus_read32 sp;
      add_sp 4;;
      update_sp new_sr;;
      modc (with_sr new_sr);;
      modc (with_pc new_pc)).

Definition exec_stop : CF unit :=
  privileged (
    new_sr ← fetch16;
    update_sp new_sr;;
    modc (with_sr new_sr);;
    modc (with_halted true)).

Definition exec_jsr (mode reg : Z) : CF unit :=
  loc ← decode_ea mode reg SZ_LONG;
  sub_sp 4;;
  sp ← geta 7;
  p ← getc pc;
  bus_write32 sp p;;
  modc (with_pc loc.(laddr)).

Definition exec_jmp (mode reg : Z) : CF unit :=
  loc ← decode_ea mode reg SZ_LONG;
  modc (with_pc loc.(laddr)).

Definition exec_move_from_sr (mode reg : Z) : CF unit :=
  privileged (
    loc ← decode_ea mode reg SZ_WORD;
    s ← getc sr;
    write_ea loc SZ_WORD (s .& 0xFFFF)).

Definition exec_move_to_ccr (mode reg : Z) : CF unit :=
  val ← ea_read mode reg SZ_WORD;
  modc (λ c, with_sr ((c.(sr) .& 0xFF00) .| (val .& 0xFF)) c).

Definition exec_move_to_sr (mode reg : Z) : CF unit :=
  privileged (
    val ← ea_read mode reg SZ_WORD;
    let new_sr := val .& 0xFFFF in
    update_sp new_sr;;
    modc (with_sr new_sr)).

Definition exec_move_usp (op reg : Z) : CF unit :=
  privileged (
    let dir := (op >> 3) .& 1 in
    if dir =? 0 then v ← geta reg; modc (with_other_a7 v)
    else v ← getc other_a7; seta reg v).

Definition exec_mul_l (mode reg : Z) : CF unit :=
  ext ← fetch16;
  let is_signed := (ext >> 11) .& 1 in
  let dst_reg := (ext >> 12) .& 7 in
  loc ← decode_ea mode reg SZ_LONG;
  src ← read_ea loc SZ_LONG;
  dst ← getd dst_reg;
  res ← (if nz is_signed then p ← cint (s32 dst * s32 src); mret (u32 p)
         else mret (u32 (dst * src)));
  setd dst_reg res;;
  set_flags_move res SZ_LONG.

Definition exec_div_l (mode reg : Z) : CF unit :=
  ext ← fetch16;
  let is_signed := (ext >> 11) .& 1 in
  let quot_reg := (ext >> 12) .& 7 in
  let rem_reg := ext .& 7 in
  loc ← decode_ea mode reg SZ_LONG;
  divisor ← read_ea loc SZ_LONG;
  if divisor =? 0 then cf_exception CF_VEC_ZERO_DIVIDE
  else
    dividend ← getd quot_reg;
    if nz is_signed && (dividend =? 0x80000000) && (s32 divisor =? -1) then
      modc (λ c, with_sr (c.(sr) .| (CF_SR_V .| CF_SR_N)) c);;
      clear_flags CF_SR_Z
    else
      qr ← (if nz is_signed then
              q ← int (Z.quot (s32 dividend) (s32 divisor));
              r ← int (Z.rem (s32 dividend) (s32 divisor));
              mret (u32 q, u32 r)
            else mret (dividend / divisor, dividend mod divisor));
      let '(quotient, remainder) := qr : Z * Z in
      (if quot_reg =? rem_reg then setd quot_reg quotient
       else setd quot_reg quotient;; setd rem_reg remainder);;
      set_flags_move quotient SZ_LONG.

Definition exec_movec (op : Z) : CF unit :=
  privileged (
    let dir := op .& 1 in
    ext ← fetch16;
    let rn := (ext >> 12) .& 0xF in
    let is_addr := 8 <=? rn in
    let rn_idx := rn .& 7 in
    let rc := ext .& 0xFFF in
    let set v := if is_addr then seta rn_idx v else setd rn_idx v in
    if dir =? 0 then
      match rc with
      | 0x002 => v ← getc cacr; set v
      | 0x801 => v ← getc vbr; set v
      | _ => set 0
      end
    else
      val ← (if is_addr then geta rn_idx else getd rn_idx);
      match rc with
      | 0x002 => modc (with_cacr val)
      | 0x801 => modc (with_vbr (val .& 0xFFF00000))
      | _ => mret tt
      end).

Definition exec_group4 (op : Z) : CF unit :=
  let mode := (op >> 3) .& 7 in
  let reg := op .& 7 in
  if op =? 0x4AC8 then privileged (modc (with_halted true))
  else if op =? 0x4AFC then illegal
  else if (op .& 0xFFC0) =? 0x4AC0 then exec_tas mode reg
  else if (op .& 0xFF00) =? 0x4A00 then exec_tst op mode reg
  else if (op .& 0xFF00) =? 0x4200 then exec_clr op mode reg
  else if (op .& 0xFFF8) =? 0x4480 then exec_neg reg
  else if (op .& 0xFFF8) =? 0x4080 then exec_negx reg
  else if (op .& 0xFFF8) =? 0x4680 then exec_not reg
  else if (op .& 0xFFF8) =? 0x4880 then exec_ext_w reg
  else if (op .& 0xFFF8) =? 0x48C0 then exec_ext_l reg
  else if (op .& 0xFFF8) =? 0x49C0 then exec_extb reg
  else if (op .& 0xFFF8) =? 0x4840 then exec_swap reg
  else if (op .& 0xFFC0) =? 0x4840 then exec_pea mode reg
  else if (op .& 0xFB80) =? 0x4880 then exec_movem op mode reg
  else if (op .& 0xF1C0) =? 0x41C0 then exec_lea op mode reg
  else if (op .& 0xFFF8) =? 0x4E50 then exec_link reg
  else if (op .& 0xFFF8) =? 0x4E58 then exec_unlk reg
  else if op =? 0x4E71 then mret tt
  else if op =? 0x4E75 then exec_rts
  else if op =? 0x4E73 then exec_rte
  else if op =? 0x4E72 then exec_stop
  else if (op .& 0xFFF0) =? 0x4E40 then cf_exception (CF_VEC_TRAP (op .& 0xF))
  else if (op .& 0xFFC0) =? 0x4E80 then exec_jsr mode reg
  else if (op .& 0xFFC0) =? 0x4EC0 then exec_jmp mode reg
  else if (op .& 0xFFC0) =? 0x40C0 then exec_move_from_sr mode reg
  else if (op .& 0xFFC0) =? 0x44C0 then exec_move_to_ccr mode reg
  else if (op .& 0xFFC0) =? 0x46C0 then exec_move_to_sr mode reg
  else if (op .& 0xFFF0) =? 0x4E60 then exec_move_usp op reg
  else if (op .& 0xFFC0) =? 0x4C00 then exec_mul_l mode reg
  else if (op .& 0xFFC0) =? 0x4C40 then exec_div_l mode reg
  else if (op .& 0xFFFE) =? 0x4E7A then exec_movec op
  else illegal.

(** ** Group 5: ADDQ, SUBQ, Scc *)

Definition exec_group5 (op : Z) : CF unit :=
  if (op .& 0xF0C0) =? 0x50C0 then
    let cc := (op >> 8) .& 0xF in
    let mode := (op >> 3) .& 7 in
    let reg := op .& 7 in
    if mode =? 0 then
      v ← getd reg;
      b ← eval_cc cc;
      setd reg ((v .& 0xFFFFFF00) .| (if b : bool then 0xFF else 0x00))
    else illegal
  else
    let data3 := (op >> 9) .& 7 in
    let imm := if nz data3 then data3 else 8 in
    let sub := (op >> 8) .& 1 in
    let sz_bits := (op >> 6) .& 3 in
    if sz_bits =? 3 then illegal
    else
      let sz := decode_size sz_bits in
      if sz =? 0 then illegal
      else
        let mode := (op >> 3) .& 7 in
        let reg := op .& 7 in
        if mode =? 1 then
          v ← geta reg;
          if nz sub then seta reg (u32 (v - imm)) else seta reg (u32 (v + imm))
        else
          loc ← decode_ea mode reg sz;
          dst ← read_ea loc sz;
          if nz sub then
            let res := u32 (dst - imm) in
            write_ea loc sz res;;
            set_flags_sub imm dst res sz
          else
            let res := u32 (dst + imm) in
            write_ea loc sz res;;
            set_flags_add imm dst res sz.

(** ** Group 6: Bcc, BRA, BSR *)

Definition exec_group6 (op : Z) : CF unit :=
  let cc := (op >> 8) .& 0xF in
  let disp8 := s8 (op .& 0xFF) in
  base_pc ← getc pc;
  disp ← (if disp8 =? 0 then w ← fetch16; mret (s16 w)
          else if disp8 =? -1 then w ← fetch32; mret (s32 w)
          else mret disp8);
  if cc =? 0 then modc (with_pc (u32 (base_pc + disp)))
  else if cc =? 1 then
    sub_sp 4;;
    sp ← geta 7;
    p ← getc pc;
    bus_write32 sp p;;
    modc (with_pc (u32 (base_pc + disp)))
  else
    b ← eval_cc cc;
    if b : bool then modc (with_pc (u32 (base_pc + disp))) else mret tt.

(** ** Group 7: MOVEQ, MVS, MVZ *)

Definition exec_group7 (op : Z) : CF unit :=
  let reg := (op >> 9) .& 7 in
  if negb (nz (op .& 0x100)) then
    let data := s8 (op .& 0xFF) in
    setd reg (u32 data);;
    v ← getd reg;
    set_flags_move v SZ_LONG
  else
    let sz_bit := (op >> 6) .& 1 in
    let is_zero := (op >> 7) .& 1 in
    let ea_mode := (op >> 3) .& 7 in
    let ea_reg := op .& 7 in
    let sz := if nz sz_bit then SZ_WORD else SZ_BYTE in
    src ← ea_read ea_mode ea_reg sz;
    (if nz is_zero then
       if sz =? SZ_BYTE then setd reg (src .& 0xFF) else setd reg (src .& 0xFFFF)
     else setd reg (u32 (sign_extend src sz)));;
    v ← getd reg;
    set_flags_move v SZ_LONG.

(** ** Groups 8 and C: logic, and the word multiplications and divisions *)

(** The form shared by OR, AND, ADD and SUB: [f] the operation on destination
    and source, [fl] the flags from source, destination and result. *)
Definition exec_alu (f : Z → Z → Z) (fl : Z → Z → Z → Z → CF unit) (op : Z) : CF unit :=
  let reg_dx := (op >> 9) .& 7 in
  let opmode := (op >> 6) .& 7 in
  let ea_mode := (op >> 3) .& 7 in
  let ea_reg := op .& 7 in
  let sz := decode_size (opmode .& 3) in
  if sz =? 0 then illegal
  else
    let dir := (opmode >> 2) .& 1 in
    if dir =? 0 then
      src ← ea_read ea_mode ea_reg sz;
      v ← getd reg_dx;
      let dst := size_mask v sz in
      let res := f dst src in
      put_d reg_dx sz res;;
      fl src dst res sz
    else
      loc ← decode_ea ea_mode ea_reg sz;
      v ← getd reg_dx;
      let src := size_mask v sz in
      dst ← read_ea loc sz;
      let res := f dst src in
      write_ea loc sz res;;
      fl src dst res sz.

Definition fl_move (src dst res sz : Z) : CF unit := set_flags_move res sz.

Definition exec_div_w (is_signed : bool) (reg_dx ea_mode ea_reg : Z) : CF unit :=
  src ← ea_read ea_mode ea_reg SZ_WORD;
  if (src .& 0xFFFF) =? 0 then cf_exception CF_VEC_ZERO_DIVIDE
  else
    dst ← getd reg_dx;
    let store quot rem :=
      setd reg_dx (u32 (rem << 16) .| (quot .& 0xFFFF));;
      set_flags_move (quot .& 0xFFFF) SZ_WORD in
    if is_signed then
      let src16 := s16 src in
      if (s32 dst =? - 2 ^ 31) && (src16 =? -1) then
        modc (λ c, with_sr (c.(sr) .| (CF_SR_V .| CF_SR_N)) c);;
        clear_flags CF_SR_Z
      else
        q ← int (Z.quot (s32 dst) src16);
        r ← int (Z.rem (s32 dst) src16);
        if (32767 <? q) || (q <? -32768) then modc (λ c, with_sr (c.(sr) .| CF_SR_V) c)
        else store (u16 q) (u16 r)
    else store (dst / (src .& 0xFFFF)) (dst mod (src .& 0xFFFF)).

Definition exec_group8 (op : Z) : CF unit :=
  let reg_dx := (op >> 9) .& 7 in
  let opmode := (op >> 6) .& 7 in
  let ea_mode := (op >> 3) .& 7 in
  let ea_reg := op .& 7 in
  if (opmode =? 3) || (opmode =? 7) then exec_div_w (opmode =? 7) reg_dx ea_mode ea_reg
  else exec_alu Z.lor fl_move op.

(** EXG, when the opcode is one of its three forms. *)
Definition exec_exg (opm5 reg_dx ea_reg : Z) (k : CF unit) : CF unit :=
  match opm5 with
  | 0x08 => tmp ← getd reg_dx; v ← getd ea_reg; setd reg_dx v;; setd ea_reg tmp
  | 0x09 => tmp ← geta reg_dx; v ← geta ea_reg; seta reg_dx v;; seta ea_reg tmp
  | 0x11 => tmp ← getd reg_dx; v ← geta ea_reg; setd reg_dx v;; seta ea_reg tmp
  | _ => k
  end.

Definition exec_groupC (op : Z) : CF unit :=
  let reg_dx := (op >> 9) .& 7 in
  let opmode := (op >> 6) .& 7 in
  let ea_mode := (op >> 3) .& 7 in
  let ea_reg := op .& 7 in
  if opmode =? 3 then
    v ← ea_read ea_mode ea_reg SZ_WORD;
    let src := v .& 0xFFFF in
    w ← getd reg_dx;
    let dst := w .& 0xFFFF in
    let res := u32 (dst * src) in
    setd reg_dx res;;
    set_flags_move res SZ_LONG
  else if opmode =? 7 then
    v ← ea_read ea_mode ea_reg SZ_WORD;
    let src := s16 v in
    w ← getd reg_dx;
    let dst := s16 (w .& 0xFFFF) in
    res ← int (dst * src);
    setd reg_dx (u32 res);;
    set_flags_move (u32 res) SZ_LONG
  else
    let and := exec_alu (λ dst src, src .& dst) fl_move op in
    if (op .& 0xF130) =? 0xC100 then exec_exg ((op >> 3) .& 0x1F) reg_dx ea_reg and
    else and.

(** ** Groups 9, D and B: SUB, ADD, CMP, EOR *)

(** SUBX and ADDX: [wide] is the 64-bit difference or sum. *)
Definition exec_addx (is_add : bool) (reg_dx ea_reg : Z) : CF unit :=
  src ← getd ea_reg;
  dst ← getd reg_dx;
  x ← get_x;
  let wide := u64 (if is_add then dst + src + x else dst - src - x) in
  let res := u32 wide in
  setd reg_dx res;;
  set_flag CF_SR_C (nz (wide >> 32));;
  set_flag CF_SR_X (nz (wide >> 32));;
  let sm := src .& 0x80000000 in
  let dm := dst .& 0x80000000 in
  let rm := res .& 0x80000000 in
  set_flag CF_SR_V (if is_add then (sm =? dm) && negb (rm =? sm) else negb (sm =? dm) && (rm =? sm));;
  set_flag CF_SR_N (nz rm);;
  sticky_z res.

Definition exec_group9 (op : Z) : CF unit :=
  let reg_dx := (op >> 9) .& 7 in
  let opmode := (op >> 6) .& 7 in
  let ea_mode := (op >> 3) .& 7 in
  let ea_reg := op .& 7 in
  if opmode =? 7 then
    src ← ea_read ea_mode ea_reg SZ_LONG;
    v ← geta reg_dx;
    seta reg_dx (u32 (v - src))
  else if opmode =? 3 then
    src ← ea_read ea_mode ea_reg SZ_WORD;
    v ← geta reg_dx;
    seta reg_dx (u32 (v - u32 (sign_extend src SZ_WORD)))
  else if ((opmode .& 0x4) =? 0x4) && (ea_mode =? 0) then exec_addx false reg_dx ea_reg
  else exec_alu (λ dst src, u32 (dst - src)) set_flags_sub op.

Definition exec_groupD (op : Z) : CF unit :=
  let reg_dx := (op >> 9) .& 7 in
  let opmode := (op >> 6) .& 7 in
  let ea_mode := (op >> 3) .& 7 in
  let ea_reg := op .& 7 in
  if opmode =? 3 then
    src ← ea_read ea_mode ea_reg SZ_WORD;
    v ← geta reg_dx;
    seta reg_dx (u32 (v + u32 (sign_extend src SZ_WORD)))
  else if opmode =? 7 then
    src ← ea_read ea_mode ea_reg SZ_LONG;
    v ← geta reg_dx;
    seta reg_dx (u32 (v + src))
  else if ((opmode .& 0x4) =? 0x4) && (ea_mode =? 0) then exec_addx true reg_dx ea_reg
  else exec_alu (λ dst src, u32 (dst + src)) set_flags_add op.

Definition exec_groupB (op : Z) : CF unit :=
  let reg_dx := (op >> 9) .& 7 in
  let opmode := (op >> 6) .& 7 in
  let ea_mode := (op >> 3) .& 7 in
  let ea_reg := op .& 7 in
  if opmode =? 3 then
    v ← ea_read ea_mode ea_reg SZ_WORD;
    let src := u32 (sign_extend v SZ_WORD) in
    dst ← geta reg_dx;
    let res := u32 (dst - src) in
    set_flags_cmp src dst res SZ_LONG
  else if opmode =? 7 then
    src ← ea_read ea_mode ea_reg SZ_LONG;
    dst ← geta reg_dx;
    let res := u32 (dst - src) in
    set_flags_cmp src dst res SZ_LONG
  else if (4 <=? opmode) && (opmode <=? 6) then
    let sz := decode_size (opmode .& 3) in
    if sz =? 0 then illegal
    else
      loc ← decode_ea ea_mode ea_reg sz;
      v ← getd reg_dx;
      let src := size_mask v sz in
      dst ← read_ea loc sz;
      let res := src .^ dst in
      write_ea loc sz res;;
      set_flags_move res sz
  else
    let sz := decode_size (opmode .& 3) in
    if sz =? 0 then illegal
    else
      src ← ea_read ea_mode ea_reg sz;
      v ← getd reg_dx;
      let dst := size_mask v sz in
      let res := u32 (dst - src) in
      set_flags_cmp src dst res sz.

(** ** Group E: shifts and rotates

    The loops that shift one bit at a time: the value and the last bit shifted
    out. *)

Definition lsl_loop (msb : Z) (count : nat) (res : Z) (last_out : bool) : Z * bool :=
  Nat.iter count (λ '(res, _), (u32 (res << 1), nz (res .& msb))) (res, last_out).
Definition asr_loop (count : nat) (sval : Z) (last_out : bool) : Z * bool :=
  Nat.iter count (λ '(sval, _), (sval >> 1, nz (sval .& 1))) (sval, last_out).
Definition lsr_loop (count : nat) (res : Z) (last_out : bool) : Z * bool :=
  Nat.iter count (λ '(res, _), (res >> 1, nz (res .& 1))) (res, last_out).
Definition ror_loop (msb : Z) (count : nat) (res : Z) (last_out : bool) : Z * bool :=
  Nat.iter count (λ '(res, _),
    let last_out := nz (res .& 1) in
    ((res >> 1) .| (if last_out then msb else 0), last_out)) (res, last_out).

(** The value, the carry and whether X takes it; [None] is an illegal
    instruction. *)
Definition shift_result (type : Z) (left : bool) (val sz count : Z) : option (Z * bool * bool) :=
  let msb := size_msb sz in
  let bits := sz * 8 in
  let mask := if sz =? SZ_LONG then 0xFFFFFFFF else (1 << bits) - 1 in
  let n := Z.to_nat count in
  match type with
  | 0 =>
      if left then let '(res, o) := lsl_loop msb n val false in Some (res .& mask, o, true)
      else let '(sval, o) := asr_loop n (sign_extend val sz) false in
           Some (u32 sval .& mask, o, true)
  | 1 =>
      if left then let '(res, o) := lsl_loop msb n val false in Some (res .& mask, o, true)
      else let '(res, o) := lsr_loop n val false in Some (res, o, true)
  | 3 =>
      if left then None
      else let '(res, o) := ror_loop msb n val false in Some (res .& mask, o, false)
  | _ => None
  end.

Definition exec_groupE (op : Z) : CF unit :=
  let count_reg := (op >> 9) .& 7 in
  let dir := (op >> 8) .& 1 in
  let sz_bits := (op >> 6) .& 3 in
  let ir := (op >> 5) .& 1 in
  let type := (op >> 3) .& 3 in
  let reg := op .& 7 in
  if sz_bits =? 3 then illegal
  else
    let sz := decode_size sz_bits in
    if sz =? 0 then illegal
    else
      count ← (if nz ir then v ← getd count_reg; mret (v .& 63)
               else mret (if nz count_reg then count_reg else 8));
      v ← getd reg;
      let val := size_mask v sz in
      if count =? 0 then
        set_nz val sz;;
        clear_flags (CF_SR_V .| CF_SR_C);;
        put_d reg sz val
      else
        match shift_result type (nz dir) val sz count with
        | Some (res, last_out, x) =>
            set_nz res sz;;
            set_flag CF_SR_C last_out;;
            (if x : bool then set_flag CF_SR_X last_out else mret tt);;
            clear_flags CF_SR_V;;
            put_d reg sz res
        | None => illegal
        end.
End Exec.
