(* ===== verification/CfExec.v ===== *)
(** * EMAC, FPU and the decoder of the ColdFire emulator: coldfire.c

    Group A (MOV3Q, hypercalls, the multiply-accumulate unit), group F (the
    floating-point unit), the main decoder [cf_step], [cf_run] and the public
    interface. *)

From S2P Require Import Prelude HostFloat CfState CfOps CfInt.

(** ** Accumulators *)

Definition MACSR_PAV0 : Z := 1 << 12.
Definition MACSR_OMC : Z := 1 << 7.
Definition MACSR_SU : Z := 1 << 6.
Definition MACSR_FI : Z := 1 << 5.
Definition MACSR_N : Z := 1 << 3.
Definition MACSR_Z : Z := 1 << 2.
Definition MACSR_V : Z := 1 << 1.
Definition MACSR_EV : Z := 1 << 0.

Definition sign_extend48 (v : Z) : Z := s64 (u64 (u64 v << 16)) >> 16.
Definition sign_extend40 (v : Z) : Z := s64 (u64 (u64 v << 24)) >> 24.

(** The longword of the extensions of accumulators [x] (low) and [y]. *)
Definition ext_pair (x y : Z) : Z :=
  u32 (((y >> 32) .& 0xFFFF) << 16) .| u32 ((x >> 32) .& 0xFFFF).

(** The value that loading [val] gives an accumulator in the mode of [macsr]. *)
Definition acc_load (macsr val : Z) : Z :=
  let neg := nz (val .& 0x80000000) in
  let ext := if nz (macsr .& MACSR_FI) then (if neg then 0xFF00 else 0x0000)
             else if nz (macsr .& MACSR_SU) then 0x0000
             else (if neg then 0xFFFF else 0x0000) in
  sign_extend48 ((ext << 32) .| val).

(** ** Floating point on bit patterns *)

Section Float.
Context {C : CImpl}.

(** The pattern of a result, with the NaN the machine makes. *)
Definition d_pack (nan : Z) (x : double) : Z :=
  match x with S754_nan => nan | _ => d_bits x end.

Definition d_op1 (f : double → double) (x : Z) : Z := d_pack (nan64 x x) (f (d_from_bits x)).
Definition d_op2 (f : double → double → double) (x y : Z) : Z :=
  d_pack (nan64 x y) (f (d_from_bits x) (d_from_bits y)).

(** Rounding of the magnitude to an integer: to nearest even for [rint] (the
    default mode, which the emulator never changes), towards zero for
    [trunc]. *)
Definition nearest_even (m : positive) (e : Z) : Z :=
  let q := Z.pos m / 2 ^ (- e) in
  let r := Z.pos m mod 2 ^ (- e) in
  let half := 2 ^ (- e - 1) in
  if r <? half then q
  else if half <? r then q + 1
  else if Z.even q then q else q + 1.

Definition d_integral (round : positive → Z → Z) (x : double) : double :=
  match x with
  | S754_finite s m e =>
      if 0 <=? e then x else binary_normalize 53 1024 (cond_Zopp s (round m e)) 0 s
  | _ => x
  end.

Definition d_rint : double → double := d_integral nearest_even.
Definition d_truncate : double → double := d_integral (λ m e, Z.pos m / 2 ^ (- e)).

Definition d_fabs (x : Z) : Z := x .& 0x7fffffffffffffff.
Definition d_neg (x : Z) : Z := x .^ 0x8000000000000000.

(** [(float)x] and back. *)
Definition to_single (x : double) : double := d_of_f (f_of_d x).

Definition f_raw (x : Z) : Z :=
  match f_of_d (d_from_bits x) with S754_nan => nan32 x | f => f32_bits f end.

Definition d_of_raw (raw : Z) : Z :=
  match f32_val raw with S754_nan => nan_widen raw | f => d_bits (d_of_f f) end.

(** The condition code of the value [v], with the infinity bit [inf]. *)
Definition fpcc_of (v : double) (inf : bool) : Z :=
  let cc := match v with
            | S754_nan => 1 << 24
            | _ => if SFltb v (S754_zero false) then 1 << 27
                   else if SFeqb v (S754_zero false) then 1 << 26 else 0
            end in
  if inf then cc .| (1 << 25) else cc.

Definition is_inf (x : double) : bool :=
  match x with S754_infinity _ => true | _ => false end.

(** The new value of the register, or the new condition code, or [None] for an
    opcode that is not implemented. *)
Definition fpu_op (opcode dp src : Z) : option (Z + Z) :=
  match opcode with
  | 0x00 => Some (inl src)
  | 0x01 => Some (inl (d_op1 d_rint src))
  | 0x03 => Some (inl (d_op1 d_truncate src))
  | 0x04 => Some (inl (d_op1 (SFsqrt 53 1024) src))
  | 0x18 => Some (inl (d_fabs src))
  | 0x1A => Some (inl (d_neg src))
  | 0x20 => Some (inl (d_op2 d_div dp src))
  | 0x22 => Some (inl (d_op2 d_add dp src))
  | 0x23 => Some (inl (d_op2 d_mul dp src))
  | 0x28 => Some (inl (d_op2 d_sub dp src))
  | 0x38 =>
      let x := d_from_bits dp in
      let y := d_from_bits src in
      Some (inr (fpcc_of (d_sub x y) (is_inf y || is_inf x)))
  | 0x3A =>
      let y := d_from_bits src in
      Some (inr (fpcc_of y (is_inf y)))
  | 0x40 => Some (inl (d_op1 to_single src))
  | 0x41 => Some (inl (d_op1 (λ x, d_of_f (SFsqrt 24 128 (f_of_d x))) src))
  | 0x58 => Some (inl (d_op1 (λ x, d_of_f (SFabs (f_of_d x))) src))
  | 0x5A => Some (inl (d_op1 (λ x, d_of_f (SFopp (f_of_d x))) src))
  | 0x60 => Some (inl (d_op2 (λ x y, to_single (d_div x y)) dp src))
  | 0x62 => Some (inl (d_op2 (λ x y, to_single (d_add x y)) dp src))
  | 0x63 => Some (inl (d_op2 (λ x y, to_single (d_mul x y)) dp src))
  | 0x68 => Some (inl (d_op2 (λ x y, to_single (d_sub x y)) dp src))
  | 0x44 => Some (inl src)
  | 0x45 => Some (inl (d_op1 (SFsqrt 53 1024) src))
  | 0x5C => Some (inl (d_fabs src))
  | 0x5E => Some (inl (d_neg src))
  | 0x64 => Some (inl (d_op2 d_div dp src))
  | 0x66 => Some (inl (d_op2 d_add dp src))
  | 0x67 => Some (inl (d_op2 d_mul dp src))
  | 0x6C => Some (inl (d_op2 d_sub dp src))
  | _ => None
  end.

(** The condition [cc] in the status register [fpsr]. *)
Definition fp_cond_holds (fpsr cc : Z) : bool :=
  let fpcc := fpsr >> 24 in
  let fn := nz ((fpcc >> 3) .& 1) in
  let fz := nz ((fpcc >> 2) .& 1) in
  let fnan := nz (fpcc .& 1) in
  match cc .& 0xF with
  | 0x0 => false
  | 0x1 => fz
  | 0x2 => negb (fnan || fz || fn)
  | 0x3 => fz || negb (fnan || fn)
  | 0x4 => fn && negb (fnan || fz)
  | 0x5 => fz || (fn && negb fnan)
  | 0x6 => negb (fnan || fz)
  | 0x7 => negb fnan
  | 0x8 => fnan
  | 0x9 => fnan || fz
  | 0xA => fnan || negb (fn || fz)
  | 0xB => fnan || fz || negb fn
  | 0xC => fnan || (fn && negb fz)
  | 0xD => fnan || fz || fn
  | 0xE => negb fz
  | 0xF => true
  | _ => false
  end.
End Float.

Section Step.
Context {B : Type} {cb : cf_callbacks B} {C : CImpl}.

Abbreviation CF := (M (cf_sys B)).

(** ** Group A: MOV3Q, hypercalls and EMAC *)

Definition acc_ext_pair (n : Z) : CF Z :=
  y ← getacc (n + 1);
  x ← getacc n;
  mret (ext_pair x y).

Definition set_acc_ext_pair (n val : Z) : CF unit :=
  x ← getacc n;
  setacc n (sign_extend48 (((val .& 0xFFFF) << 32) .| (x .& 0xFFFFFFFF)));;
  y ← getacc (n + 1);
  setacc (n + 1) (sign_extend48 (((val >> 16) << 32) .| (y .& 0xFFFFFFFF))).

Definition clear_macsr (m : Z) : CF unit := modc (λ c, with_macsr (c.(macsr) .& not32 m) c).
Definition or_macsr (cond : bool) (m : Z) : CF unit :=
  if cond then modc (λ c, with_macsr (c.(macsr) .| m) c) else mret tt.

Definition exec_mov3q (op : Z) : CF unit :=
  let data_field := (op >> 9) .& 7 in
  let val := if data_field =? 0 then -1 else data_field in
  let ea_mode := (op >> 3) .& 7 in
  let ea_reg := op .& 7 in
  if ea_mode =? 1 then seta ea_reg (u32 val)
  else
    (if ea_mode =? 0 then setd ea_reg (u32 val)
     else
       loc ← decode_ea ea_mode ea_reg SZ_LONG;
       write_ea loc SZ_LONG (u32 val));;
    set_flags_move (u32 val) SZ_LONG.

Definition emac_read (emac_reg : Z) : CF Z :=
  match emac_reg with
  | 0 | 1 | 2 | 3 => v ← getacc emac_reg; mret (u32 (v .& 0xFFFFFFFF))
  | 4 => getc macsr
  | 5 => acc_ext_pair 0
  | 6 => getc mask
  | 7 => acc_ext_pair 2
  | _ => mret 0
  end.

Definition emac_write (emac_reg val : Z) : CF unit :=
  match emac_reg with
  | 0 | 1 | 2 | 3 =>
      m ← getc macsr;
      setacc emac_reg (acc_load m val);;
      clear_macsr (MACSR_N .| MACSR_Z .| MACSR_V .| MACSR_EV .| (MACSR_PAV0 << emac_reg));;
      v ← getacc emac_reg;
      or_macsr (v =? 0) MACSR_Z;;
      v ← getacc emac_reg;
      or_macsr (v <? 0) MACSR_N
  | 4 => modc (with_macsr val)
  | 5 => set_acc_ext_pair 0 val
  | 6 => modc (with_mask val)
  | 7 => set_acc_ext_pair 2 val
  | _ => mret tt
  end.

Definition exec_emac_move (op : Z) : CF unit :=
  let emac_reg := (op >> 9) .& 7 in
  let dir := (op >> 7) .& 1 in
  let special := (op >> 6) .& 1 in
  let rn := op .& 7 in
  if nz special && (emac_reg =? 4) && nz dir then
    modc (λ c, with_sr ((c.(sr) .& not32 0x0F) .| (c.(macsr) .& (MACSR_N .| MACSR_Z .| MACSR_V))) c)
  else if nz dir then
    val ← emac_read emac_reg;
    setd rn val;;
    if nz special && (emac_reg <=? 3) then
      setacc emac_reg 0;;
      clear_macsr (MACSR_PAV0 << emac_reg)
    else mret tt
  else
    val ← getd rn;
    emac_write emac_reg val.

(** The product of MAC.L and MSAC.L in the mode of MACSR. *)
Definition mac_product (macsr rx ry sf : Z) : CF Z :=
  product ← (if nz (macsr .& MACSR_SU) then mret (s64 (u64 (rx * ry)))
             else clong (s32 rx * s32 ry));
  if sf =? 1 then cshl product 1
  else if sf =? 3 then mret (product >> 1)
  else mret product.

(** The accumulator and the flags after the operation, from its exact
    [result]. *)
Definition mac_store (acc_idx result : Z) : CF unit :=
  let max48 := (1 << 47) - 1 in
  let min48 := - (1 << 47) in
  let pav := MACSR_PAV0 << acc_idx in
  result ← (if (max48 <? result) || (result <? min48) then
              or_macsr true pav;;
              m ← getc macsr;
              mret (if nz (m .& MACSR_OMC) then (if max48 <? result then max48 else min48)
                    else sign_extend48 result)
            else mret result);
  setacc acc_idx result;;
  m ← getc macsr;
  let ev := if nz (m .& MACSR_FI) then negb (result =? sign_extend40 result)
            else if nz (m .& MACSR_SU) then 0xFFFFFFFF <? u64 result
            else negb (result =? s32 result) in
  clear_macsr (MACSR_N .| MACSR_Z .| MACSR_V .| MACSR_EV);;
  m ← getc macsr;
  or_macsr (nz (m .& pav)) MACSR_V;;
  or_macsr ev MACSR_EV;;
  or_macsr (result =? 0) MACSR_Z;;
  or_macsr (result <? 0) MACSR_N.

Definition exec_mac (op : Z) : CF unit :=
  let rx_num := (op >> 9) .& 7 in
  let rx_is_addr := (op >> 6) .& 1 in
  let ry_num := op .& 7 in
  let ry_is_addr := (op >> 3) .& 1 in
  let acc_lo := (op >> 7) .& 1 in
  ext ← fetch16;
  let sf := (ext >> 9) .& 3 in
  let is_msac := (ext >> 8) .& 1 in
  let acc_hi := (ext >> 4) .& 1 in
  let acc_idx := (acc_hi << 1) .| acc_lo in
  rx_val ← (if nz rx_is_addr then geta rx_num else getd rx_num);
  ry_val ← (if nz ry_is_addr then geta ry_num else getd ry_num);
  m ← getc macsr;
  product ← mac_product m rx_val ry_val sf;
  v ← getacc acc_idx;
  result ← clong (if nz is_msac then v - product else v + product);
  mac_store acc_idx result.

(** [cpu->hypercall && cpu->hypercall(...) == 0], which may change the whole
    processor. *)
Definition try_hypercall (op : Z) : CF bool := λ s,
  match hypercall with
  | None => Some (false, s)
  | Some h =>
      match h s.(cpu) op s.(bus) with
      | Some (r, (c, b)) => Some (r =? 0, mk_sys c b)
      | None => None
      end
  end.

Definition exec_groupA (op : Z) : CF unit :=
  let subop := (op >> 6) .& 7 in
  if subop =? 5 then exec_mov3q op
  else
    handled ← try_hypercall op;
    if handled : bool then mret tt
    else if nz (op .& 0x0100) then exec_emac_move op
    else exec_mac op.

(** ** Group F: FPU *)

Definition eval_fpcc (cc : Z) : CF bool := getc (λ c, fp_cond_holds c.(fpsr) cc).

Definition read_pair (addr : Z) : CF Z :=
  hi ← bus_read32 addr;
  lo ← bus_read32 (u32 (addr + 4));
  mret (u64 (hi << 32) .| lo).

Definition write_pair (addr bits : Z) : CF unit :=
  bus_write32 addr (u32 (bits >> 32));;
  bus_write32 (u32 (addr + 4)) (u32 bits).

Definition fpu_read_double (ea_mode ea_reg : Z) : CF Z :=
  if ea_mode =? 3 then
    addr ← geta ea_reg;
    bits ← read_pair addr;
    seta ea_reg (u32 (addr + 8));;
    mret bits
  else
    loc ← decode_ea ea_mode ea_reg SZ_LONG;
    read_pair loc.(laddr).

(** The source operand in memory or an integer register; [None] is a format
    that is not implemented. *)
Definition fpu_source (src_fmt ea_mode ea_reg : Z) : option (CF Z) :=
  match src_fmt with
  | 0 => Some (raw ← ea_read ea_mode ea_reg SZ_LONG; mret (d_bits (d_of_Z (s32 raw))))
  | 1 => Some (raw ← ea_read ea_mode ea_reg SZ_LONG; mret (d_of_raw raw))
  | 4 => Some (raw ← ea_read ea_mode ea_reg SZ_WORD; mret (d_bits (d_of_Z (s16 raw))))
  | 5 => Some (fpu_read_double ea_mode ea_reg)
  | 6 => Some (raw ← ea_read ea_mode ea_reg SZ_BYTE; mret (d_bits (d_of_Z (s8 raw))))
  | _ => None
  end.

Definition line_f : CF unit := cf_exception CF_VEC_LINE_F.

Definition exec_fpu_arith (opcode dst_fp src_val : Z) : CF unit :=
  dp ← getfp dst_fp;
  match fpu_op opcode dp src_val with
  | Some (inl v) => setfp dst_fp v
  | Some (inr fpcc) => modc (λ c, with_fpsr ((c.(fpsr) .& 0x00FFFFFF) .| fpcc) c)
  | None => line_f
  end.

(** [(intw_t)val] *)
Definition cvt (w val : Z) : CF Z :=
  match d_to_int (- 2 ^ (w - 1)) (2 ^ (w - 1) - 1) (d_from_bits val) with
  | Some n => mret n
  | None => must (ovcvt w val)
  end.

Definition exec_fmove_out (op ext : Z) : CF unit :=
  let ea_mode := (op >> 3) .& 7 in
  let ea_reg := op .& 7 in
  let dst_fmt := (ext >> 10) .& 7 in
  let src_fp := (ext >> 7) .& 7 in
  val ← getfp src_fp;
  match dst_fmt with
  | 0 =>
      ival ← cvt 32 val;
      loc ← decode_ea ea_mode ea_reg SZ_LONG;
      write_ea loc SZ_LONG (u32 ival)
  | 1 =>
      loc ← decode_ea ea_mode ea_reg SZ_LONG;
      write_ea loc SZ_LONG (f_raw val)
  | 4 =>
      ival ← cvt 16 val;
      loc ← decode_ea ea_mode ea_reg SZ_WORD;
      write_ea loc SZ_WORD (u16 ival)
  | 5 =>
      if ea_mode =? 4 then
        v ← geta ea_reg;
        seta ea_reg (u32 (v - 8));;
        addr ← geta ea_reg;
        write_pair addr val
      else
        loc ← decode_ea ea_mode ea_reg SZ_LONG;
        write_pair loc.(laddr) val
  | 6 =>
      ival ← cvt 8 val;
      loc ← decode_ea ea_mode ea_reg SZ_BYTE;
      write_ea loc SZ_BYTE (u8 ival)
  | _ => line_f
  end.

(** One register of FMOVE to and from the control registers: the next address. *)
Definition ctl_in (sel : bool) (loc : ea_loc) (set : Z → cf_cpu → cf_cpu) (addr : Z) : CF Z :=
  if sel then
    v ← (if loc.(ltype) =? 2 then bus_read32 addr else read_ea loc SZ_LONG);
    modc (set v);;
    mret (if loc.(ltype) =? 2 then u32 (addr + 4) else addr)
  else mret addr.

Definition ctl_out (sel : bool) (loc : ea_loc) (get : cf_cpu → Z) (addr : Z) : CF Z :=
  if sel then
    v ← getc get;
    if loc.(ltype) =? 2 then bus_write32 addr v;; mret (u32 (addr + 4))
    else write_ea loc SZ_LONG v;; mret addr
  else mret addr.

Definition exec_fmove_ctl (op ext : Z) (to_ctl : bool) : CF unit :=
  let ea_mode := (op >> 3) .& 7 in
  let ea_reg := op .& 7 in
  let regsel := (ext >> 10) .& 7 in
  loc ← decode_ea ea_mode ea_reg SZ_LONG;
  if to_ctl then
    addr ← ctl_in (nz (regsel .& 4)) loc with_fpcr loc.(laddr);
    addr ← ctl_in (nz (regsel .& 2)) loc with_fpsr addr;
    ctl_in (nz (regsel .& 1)) loc with_fpiar addr;; mret tt
  else
    addr ← ctl_out (nz (regsel .& 4)) loc fpcr loc.(laddr);
    addr ← ctl_out (nz (regsel .& 2)) loc fpsr addr;
    ctl_out (nz (regsel .& 1)) loc fpiar addr;; mret tt.

Definition fmovem_predec (regmask ea_reg : Z) : CF unit :=
  mfor (upto 8) (λ i,
    if nz (regmask .& (1 << (7 - i))) then
      v ← geta ea_reg;
      seta ea_reg (u32 (v - 8));;
      bits ← getfp i;
      v ← geta ea_reg;
      bus_write32 v (u32 (bits >> 32));;
      v ← geta ea_reg;
      bus_write32 (u32 (v + 4)) (u32 bits)
    else mret tt).

Definition fmovem_load (regmask addr : Z) : CF unit :=
  mloop (upto 8) (λ i addr,
    if nz (regmask .& (1 << (7 - i))) then
      bits ← read_pair addr;
      setfp i bits;;
      mret (inl (u32 (addr + 8)))
    else mret (inl addr)) addr;;
  mret tt.

Definition fmovem_store (regmask addr : Z) : CF unit :=
  mloop (upto 8) (λ i addr,
    if nz (regmask .& (1 << (7 - i))) then
      bits ← getfp i;
      write_pair addr bits;;
      mret (inl (u32 (addr + 8)))
    else mret (inl addr)) addr;;
  mret tt.

Definition exec_fmovem (op ext opclass : Z) : CF unit :=
  let ea_mode := (op >> 3) .& 7 in
  let ea_reg := op .& 7 in
  let regmask := ext .& 0xFF in
  if (opclass =? 7) && (ea_mode =? 4) then fmovem_predec regmask ea_reg
  else if negb (ea_mode =? 2) && negb (ea_mode =? 5) && negb (ea_mode =? 6) then line_f
  else
    loc ← decode_ea ea_mode ea_reg SZ_LONG;
    if opclass =? 6 then fmovem_load regmask loc.(laddr) else fmovem_store regmask loc.(laddr).

Definition exec_fbcc (op : Z) : CF unit :=
  let sz := (op >> 6) .& 1 in
  let cc := op .& 0x3F in
  base_pc ← getc pc;
  disp ← (if nz sz then w ← fetch32; mret (s32 w) else w ← fetch16; mret (s16 w));
  b ← eval_fpcc cc;
  if b : bool then modc (with_pc (u32 (base_pc + disp))) else mret tt.

Definition exec_groupF (op : Z) : CF unit :=
  let cp_id := (op >> 9) .& 7 in
  if negb (cp_id =? 1) then line_f
  else if nz ((op >> 7) .& 1) then exec_fbcc op
  else
    ext ← fetch16;
    let opclass := (ext >> 13) .& 7 in
    let dst_fp := (ext >> 7) .& 7 in
    let opcode := ext .& 0x7F in
    match opclass with
    | 0 =>
        src_val ← getfp ((ext >> 10) .& 7);
        exec_fpu_arith opcode dst_fp src_val
    | 2 =>
        match fpu_source ((ext >> 10) .& 7) ((op >> 3) .& 7) (op .& 7) with
        | Some get => src_val ← get; exec_fpu_arith opcode dst_fp src_val
        | None => line_f
        end
    | 3 => exec_fmove_out op ext
    | 4 => exec_fmove_ctl op ext true
    | 5 => exec_fmove_ctl op ext false
    | 6 | 7 => exec_fmovem op ext opclass
    | _ => line_f
    end.

(** ** Main decoder *)

Definition exec (op : Z) : CF unit :=
  match (op >> 12) .& 0xF with
  | 0x0 => if nz (op .& 0x0100) then exec_bit_reg op else exec_group0 op
  | 0x1 => exec_move op SZ_BYTE
  | 0x2 => exec_move op SZ_LONG
  | 0x3 => exec_move op SZ_WORD
  | 0x4 => exec_group4 op
  | 0x5 => exec_group5 op
  | 0x6 => exec_group6 op
  | 0x7 => exec_group7 op
  | 0x8 => exec_group8 op
  | 0x9 => exec_group9 op
  | 0xA => exec_groupA op
  | 0xB => exec_groupB op
  | 0xC => exec_groupC op
  | 0xD => exec_groupD op
  | 0xE => exec_groupE op
  | 0xF => exec_groupF op
  | _ => mret tt
  end.

Definition stopped (c : cf_cpu) : bool := c.(halted) || c.(fault).

(** The result is [-1] or 0. *)
Definition cf_step : CF Z :=
  st ← getc stopped;
  if st : bool then mret (-1)
  else
    op ← fetch16;
    exec op;;
    modc (λ c, with_cycles (u64 (c.(cycles) + 1)) c);;
    st ← getc stopped;
    mret (if st : bool then -1 else 0).

(** The loop of [cf_run] from [i], with [n] iterations left. *)
Fixpoint cf_run_loop (n : nat) (i : Z) : CF Z :=
  match n with
  | O => mret i
  | S n =>
      r ← cf_step;
      if r <? 0 then mret i else cf_run_loop n (i + 1)
  end.

Definition cf_run (count : Z) : CF Z := cf_run_loop (Z.to_nat count) 0.

(** ** Public interface *)

Definition cf_init : cf_cpu :=
  mk_cpu (replicate 8 0) (replicate 8 0) 0 CF_SR_S 0 0 0 (replicate 8 0) 0 0 0 (replicate 4 0)
    0 0 false 0 false 0 false cf_trace_init.

Definition cf_reset : CF unit :=
  modc (with_sr (CF_SR_S .| (7 << 8)));;
  vb ← getc vbr;
  sp ← bus_read32 (u32 (vb + 0));
  seta 7 sp;;
  vb ← getc vbr;
  p ← bus_read32 (u32 (vb + 4));
  modc (with_pc p);;
  modc (with_halted false);;
  modc (with_fault false);;
  modc (with_in_exception false);;
  modc (with_cycles 0);;
  mfor (upto 8) (λ i, setfp i 0);;
  modc (with_fpcr 0);;
  modc (with_fpsr 0);;
  modc (with_fpiar 0);;
  mfor (upto 4) (λ i, setacc i 0);;
  modc (with_macsr 0);;
  modc (with_mask 0xFFFFFFFF).

Definition cf_get_d (n : Z) : CF Z := getd (n .& 7).
Definition cf_get_a (n : Z) : CF Z := geta (n .& 7).
Definition cf_get_pc : CF Z := getc pc.
Definition cf_get_sr : CF Z := getc sr.
Definition cf_set_d (n val : Z) : CF unit := setd (n .& 7) val.
Definition cf_set_a (n val : Z) : CF unit := seta (n .& 7) val.
Definition cf_set_pc (val : Z) : CF unit := modc (with_pc val).
Definition cf_set_sr (val : Z) : CF unit := update_sp val;; modc (with_sr (val .& 0xFFFF)).
Definition cf_get_fp (n : Z) : CF Z := getfp (n .& 7).
Definition cf_set_fp (n val : Z) : CF unit := setfp (n .& 7) val.
End Step.
