(* ===== verification/CfFrame.v ===== *)
(** * What an instruction can change: frames of the ColdFire emulator

    A frame is a pair of predicates on the state, [I] inside an instruction and
    [J] after it, such that the elementary operations of the emulator keep [I]
    and an exception leads from [I] to [J].  For every frame, each unprivileged
    instruction leads from [I] to [J] without undefined behaviour.  The safety of
    the emulator and the confinement of user programs are two such frames. *)

From S2P Require Import Prelude HostFloat CfState CfOps CfInt CfExec.

(** ** Ranges *)

Lemma field3 x : 0 <= x .& 7 < 8.
Proof. apply (inw_land_r 3). unfold inw; lia. Qed.
Lemma field4 x : 0 <= x .& 0xF < 16.
Proof. apply (inw_land_r 4). unfold inw; lia. Qed.

Lemma size_mask_in v sz : in32 v → in32 (size_mask v sz).
Proof. unfold size_mask. intros. repeat case_match; auto with word. Qed.
#[export] Hint Resolve size_mask_in : word.

Definition is_size (sz : Z) : Prop := sz = SZ_BYTE ∨ sz = SZ_WORD ∨ sz = SZ_LONG.

Lemma decode_size_cases b : decode_size b = 0 ∨ is_size (decode_size b).
Proof.
  unfold decode_size, is_size. assert (0 <= b .& 3 < 4) by (apply (inw_land_r 2); unfold inw; lia).
  assert (b .& 3 = 0 ∨ b .& 3 = 1 ∨ b .& 3 = 2 ∨ b .& 3 = 3) as [-> | [-> | [-> | ->]]] by lia; auto.
Qed.

(** A flag of the low byte leaves the high byte of the status register. *)
Lemma lor_high s f : in8 f → (s .| f) .& 0xFF00 = s .& 0xFF00.
Proof.
  intros Hf. apply Z.bits_inj'. intros i Hi. rewrite !Z.land_spec, Z.lor_spec.
  destruct (decide (i < 8)).
  - change 0xFF00 with (0xFF << 8). rewrite Z.shiftl_spec, (Z.testbit_neg_r 0xFF) by lia.
    by rewrite !andb_false_r.
  - by rewrite (testbit_inw 8 f), orb_false_r by (done || lia).
Qed.

Lemma land_not_high s f : in8 f → (s .& not32 f) .& 0xFF00 = s .& 0xFF00.
Proof.
  intros Hf. assert (in32 f) by (apply (inw_mono 8); [lia|done]).
  rewrite not32_spec by done. apply Z.bits_inj'. intros i Hi. rewrite !Z.land_spec.
  destruct (decide (i < 8)); [|destruct (decide (i < 32))].
  - change 0xFF00 with (0xFF << 8). rewrite Z.shiftl_spec, (Z.testbit_neg_r 0xFF) by lia.
    by rewrite !andb_false_r.
  - unfold u32. change 4294967296 with (2 ^ 32). rewrite Z.mod_pow2_bits_low by lia.
    rewrite Z.lnot_spec, (testbit_inw 8 f) by (done || lia). by rewrite andb_true_r.
  - rewrite (testbit_inw 16 0xFF00) by (unfold inw; lia). by rewrite !andb_false_r.
Qed.

(** ** Computations that lead from [I] to [J] *)

Section Keep.
Context {S : Type}.
Implicit Types I J : S → Prop.

Definition keep {A} I J (m : M S A) (Q : A → Prop) : Prop :=
  ∀ s, I s → wp m (λ a s', J s' ∧ Q a) s.

Lemma keep_ret {A} I (a : A) (Q : A → Prop) : Q a → keep I I (mret a) Q.
Proof. intros HQ s Hs. by apply wp_ret. Qed.

Lemma keep_bind {A A'} I K J (m : M S A) (k : A → M S A') P Q :
  keep I K m P → (∀ a, P a → keep K J (k a) Q) → keep I J (m ≫= k) Q.
Proof.
  intros Hm Hk s Hs. apply wp_bind. eapply wp_mono; [by apply Hm|]. intros a s' [HI HP]. by apply Hk.
Qed.

Lemma keep_mono {A} I J J' (m : M S A) (P Q : A → Prop) :
  keep I J m P → (∀ s, J s → J' s) → (∀ a, P a → Q a) → keep I J' m Q.
Proof. intros Hm HJ HQ s Hs. eapply wp_mono; [by apply Hm|]. naive_solver. Qed.

Lemma keep_if {A} I J (b : bool) (m1 m2 : M S A) Q :
  (b = true → keep I J m1 Q) → (b = false → keep I J m2 Q) → keep I J (if b then m1 else m2) Q.
Proof. destruct b; auto. Qed.

Lemma keep_gets {A} I (f : S → A) (Q : A → Prop) : (∀ s, I s → Q (f s)) → keep I I (mgets f) Q.
Proof. intros H s Hs. apply wp_gets. auto. Qed.

Lemma keep_int I z : - 2 ^ 31 <= z < 2 ^ 31 → keep I I (int z) (λ v, v = z).
Proof. intros Hz s Hs. by apply wp_int. Qed.

Lemma keep_mfor I l (body : Z → M S unit) :
  (∀ i, i ∈ l → keep I I (body i) (λ _, True)) → keep I I (mfor l body) (λ _, True).
Proof.
  intros Hb s Hs. apply (wp_mfor _ _ I); [done| |done].
  intros i s' Hi Hs'. eapply wp_mono; [by apply Hb|]. naive_solver.
Qed.

Lemma keep_mloop {A} I (P : A → Prop) l (body : Z → A → M S (A + A)) a :
  P a → (∀ i a, i ∈ l → P a → keep I I (body i a) (λ r, match r with inl a | inr a => P a end)) →
  keep I I (mloop l body a) P.
Proof.
  intros Ha Hb s Hs. apply (wp_mloop_inv _ _ (λ a s, I s ∧ P a)); [done| |done].
  intros i a' s' Hi [HI HP]. eapply wp_mono; [by apply Hb|]. intros [] s2; naive_solver.
Qed.
End Keep.

(** ** Frames *)

Section Frame.
Context {B : Type} {cb : cf_callbacks B} {C : CImpl} `{!CTotal C}.
Implicit Types s : cf_sys B.

Abbreviation CF := (M (cf_sys B)).

Definition upd (f : cf_cpu → cf_cpu) (s : cf_sys B) : cf_sys B := mk_sys (f s.(cpu)) s.(bus).

(** [valid] are the addressing modes the instruction may use. *)
Record frame (I J : cf_sys B → Prop) (valid : Z → Z → Prop) : Prop := {
  fr_wf s : I s → wf_cpu s.(cpu);
  fr_out s : I s → J s;
  fr_d s l : I s → length l = 8%nat → Forall in32 l → I (upd (with_d l) s);
  fr_a s l : I s → length l = 8%nat → Forall in32 l → I (upd (with_a l) s);
  fr_fp s l : I s → length l = 8%nat → Forall in64 l → I (upd (with_fp l) s);
  fr_acc s l : I s → length l = 4%nat → Forall in48s l → I (upd (with_acc l) s);
  fr_pc s v : I s → in32 v → I (upd (with_pc v) s);
  fr_sr s v : I s → in16 v → v .& 0xFF00 = s.(cpu).(sr) .& 0xFF00 → I (upd (with_sr v) s);
  fr_fpcr s v : I s → in32 v → I (upd (with_fpcr v) s);
  fr_fpsr s v : I s → in32 v → I (upd (with_fpsr v) s);
  fr_fpiar s v : I s → in32 v → I (upd (with_fpiar v) s);
  fr_macsr s v : I s → in32 v → I (upd (with_macsr v) s);
  fr_mask s v : I s → in32 v → I (upd (with_mask v) s);
  fr_read8 p : in32 p → keep I I (bus_rd read8 p) in32;
  fr_read16 p : in32 p → keep I I (bus_rd read16 p) in32;
  fr_read32 p : in32 p → keep I I (bus_rd read32 p) in32;
  fr_write8 p v : in32 p → in32 v → keep I I (bus_wr write8 p v) (λ _, True);
  fr_write16 p v : in32 p → in32 v → keep I I (bus_wr write16 p v) (λ _, True);
  fr_write32 p v : in32 p → in32 v → keep I I (bus_wr write32 p v) (λ _, True);
  fr_hyper op : keep I I (try_hypercall op) (λ _, True);
  fr_exc v : inw 8 v → keep I J (cf_exception v) (λ _, True);
  fr_bad_ext : keep I I (cf_exception CF_VEC_ADDRESS_ERROR;; modc (with_fault true)) (λ _, True);
  fr_bad_ea mode reg : valid mode reg → mode = 7 → 5 <= reg →
    keep I I (cf_exception CF_VEC_ILLEGAL) (λ _, True)
}.

Context (I J : cf_sys B → Prop) (valid : Z → Z → Prop) (F : frame I J valid).

Abbreviation kp := (keep I I).
Abbreviation done_J := (λ m : CF unit, keep I J m (λ _, True)).

Lemma kp_out (m : CF unit) Q : kp m Q → keep I J m (λ _, True).
Proof. intros Hm. eapply keep_mono; [exact Hm|apply (fr_out _ _ _ F)|done]. Qed.

(** *** Registers *)

Lemma list_get {P : Z → Prop} (l : list Z) i n :
  length l = n → Forall P l → 0 <= i < Z.of_nat n → ∃ v, aget l i = Some v ∧ P v.
Proof.
  intros <- HP Hi. destruct (aget_in l i Hi) as (v & E & El). exists v. split; [done|].
  by eapply Forall_lookup_1.
Qed.

Lemma list_set {P : Z → Prop} (l : list Z) i v n :
  length l = n → Forall P l → 0 <= i < Z.of_nat n → P v →
  ∃ l', aset l i v = Some l' ∧ length l' = n ∧ Forall P l'.
Proof.
  intros <- HP Hi Hv. rewrite aset_in by done. eexists. split; [done|].
  rewrite length_insert. split; [done|]. by apply Forall_insert.
Qed.

Lemma kp_get (P : Z → Prop) (f : cf_cpu → list Z) n i :
  (∀ c, wf_cpu c → length (f c) = n ∧ Forall P (f c)) → 0 <= i < Z.of_nat n →
  kp (l ← getc f; must (aget l i)) P.
Proof.
  intros Hf Hi s Hs. apply wp_bind, wp_gets. destruct (Hf _ (fr_wf _ _ _ F _ Hs)) as [Hl HP].
  destruct (list_get _ i _ Hl HP Hi) as (v & E & Hv). eapply wp_must; [exact E|]. done.
Qed.

Lemma kp_set (P : Z → Prop) (f : cf_cpu → list Z) (w : list Z → cf_cpu → cf_cpu) n i v :
  (∀ c, wf_cpu c → length (f c) = n ∧ Forall P (f c)) →
  (∀ s l, I s → length l = n → Forall P l → I (upd (w l) s)) → 0 <= i < Z.of_nat n → P v →
  kp (l ← getc f; l ← must (aset l i v); modc (w l)) (λ _, True).
Proof.
  intros Hf Hw Hi Hv s Hs. apply wp_bind, wp_gets. destruct (Hf _ (fr_wf _ _ _ F _ Hs)) as [Hl HP].
  destruct (list_set _ i v _ Hl HP Hi Hv) as (l' & E & Hl' & HP').
  apply wp_bind. eapply wp_must; [exact E|]. apply wp_mod. split; [|done]. by apply Hw.
Qed.

Lemma kp_getd i : 0 <= i < 8 → kp (getd i) in32.
Proof. apply (kp_get in32 d 8). intros c []; auto. Qed.
Lemma kp_geta i : 0 <= i < 8 → kp (geta i) in32.
Proof. apply (kp_get in32 a 8). intros c []; auto. Qed.
Lemma kp_getfp i : 0 <= i < 8 → kp (getfp i) in64.
Proof. apply (kp_get in64 fp 8). intros c []; auto. Qed.
Lemma kp_getacc i : 0 <= i < 4 → kp (getacc i) in48s.
Proof. apply (kp_get in48s acc 4). intros c []; auto. Qed.
Lemma kp_setd i v : 0 <= i < 8 → in32 v → kp (setd i v) (λ _, True).
Proof. apply (kp_set in32 d with_d 8); [intros c []; auto|apply F]. Qed.
Lemma kp_seta i v : 0 <= i < 8 → in32 v → kp (seta i v) (λ _, True).
Proof. apply (kp_set in32 a with_a 8); [intros c []; auto|apply F]. Qed.
Lemma kp_setfp i v : 0 <= i < 8 → in64 v → kp (setfp i v) (λ _, True).
Proof. apply (kp_set in64 fp with_fp 8); [intros c []; auto|apply F]. Qed.
Lemma kp_setacc i v : 0 <= i < 4 → in48s v → kp (setacc i v) (λ _, True).
Proof. apply (kp_set in48s acc with_acc 4); [intros c []; auto|apply F]. Qed.

Lemma kp_getc {A} (f : cf_cpu → A) (Q : A → Prop) :
  (∀ c, wf_cpu c → Q (f c)) → kp (getc f) Q.
Proof. intros H. apply keep_gets. intros s Hs. apply H. by apply F. Qed.

Lemma kp_modc (f : cf_cpu → cf_cpu) : (∀ s, I s → I (upd f s)) → kp (modc f) (λ _, True).
Proof. intros H s Hs. apply wp_mod. split; [by apply H|done]. Qed.

(** *** Automation: the goals are decomposed along the text of the program,
    operations by the lemmas of the database [cfk], ranges by [rng]. *)

Create HintDb cfk discriminated.
#[local] Hint Constants Opaque : cfk.

Ltac rng := first
  [ assumption | apply field3 | apply field4 | lia | solve [auto with word]
  | solve [apply size_mask_in; auto with word] | solve [unfold inw in *; lia]
  | solve [unfold inw; apply field3] ].

Ltac kstep :=
  lazymatch goal with
  | |- keep ?I _ (mbind _ _) _ => eapply (keep_bind I I); [|intros ? ?]
  | |- keep _ _ (if _ then _ else _) _ => apply keep_if; intros ?
  | |- keep _ _ (let '(_, _) := ?p in _) _ => destruct p
  | |- keep _ _ (match ?x with _ => _ end) _ => destruct x
  | |- keep ?I ?I (mret _) _ => apply keep_ret
  | |- keep ?I ?I _ _ => solve [eauto 3 with cfk]
  | |- keep _ _ _ (λ _, True) => first [solve [eauto 3 with cfk]|refine (kp_out _ (λ _, True) _)]
  end.
Ltac kgo := cbv zeta; repeat kstep; try rng; try done.

Hint Resolve kp_getd kp_geta kp_getfp kp_getacc kp_setd kp_seta kp_setfp kp_setacc : cfk.
Hint Extern 2 (0 <= _ < _) => rng : cfk.
Hint Extern 2 (inw _ _) => rng : cfk.
Hint Extern 2 (in48s _) => assumption : cfk.

(** *** Bus *)

Lemma kp_read8 p : in32 p → kp (bus_read8 p) in8.
Proof. intros. eapply keep_bind; [by apply F|]. intros v Hv. apply keep_ret. auto with word. Qed.
Lemma kp_read16 p : in32 p → kp (bus_read16 p) in16.
Proof. intros. eapply keep_bind; [by apply F|]. intros v Hv. apply keep_ret. auto with word. Qed.
Lemma kp_read32 p : in32 p → kp (bus_read32 p) in32.
Proof. apply F. Qed.
Lemma kp_write8 p v : in32 p → kp (bus_write8 p v) (λ _, True).
Proof. intros. apply F; auto with word. Qed.
Lemma kp_write16 p v : in32 p → kp (bus_write16 p v) (λ _, True).
Proof. intros. apply F; auto with word. Qed.
Lemma kp_write32 p v : in32 p → in32 v → kp (bus_write32 p v) (λ _, True).
Proof. intros. by apply F. Qed.
Hint Resolve kp_read8 kp_read16 kp_read32 kp_write8 kp_write16 kp_write32 : cfk.

Lemma kp_pc v : in32 v → kp (modc (with_pc v)) (λ _, True).
Proof. intros. apply kp_modc. intros s Hs. by apply F. Qed.
Hint Resolve kp_pc : cfk.

Lemma kp_field (f : cf_cpu → Z) w : (∀ c, wf_cpu c → inw w (f c)) → kp (getc f) (inw w).
Proof. apply kp_getc. Qed.
Hint Extern 1 (keep _ _ (getc sr) _) => apply kp_field, wf_sr : cfk.
Hint Extern 1 (keep _ _ (getc pc) _) => apply kp_field, wf_pc : cfk.
Hint Extern 1 (keep _ _ (getc fpcr) _) => apply kp_field, wf_fpcr : cfk.
Hint Extern 1 (keep _ _ (getc fpsr) _) => apply kp_field, wf_fpsr : cfk.
Hint Extern 1 (keep _ _ (getc fpiar) _) => apply kp_field, wf_fpiar : cfk.
Hint Extern 1 (keep _ _ (getc macsr) _) => apply kp_field, wf_macsr : cfk.
Hint Extern 1 (keep _ _ (getc mask) _) => apply kp_field, wf_mask : cfk.

Lemma kp_fetch16 : kp fetch16 in16.
Proof.
  unfold fetch16. eapply keep_bind; [by apply (kp_getc pc in32), wf_pc|]. intros p Hp.
  eapply keep_bind; [by apply kp_read16|]. intros w Hw.
  eapply keep_bind; [|intros; apply keep_ret; apply u16_in].
  apply kp_modc. intros s Hs. apply (fr_pc _ _ _ F); [done|apply u32_in].
Qed.
Hint Resolve kp_fetch16 : cfk.

Lemma in16_32 v : in16 v → in32 v.
Proof. apply inw_mono. lia. Qed.
Lemma in8_32 v : in8 v → in32 v.
Proof. apply inw_mono. lia. Qed.
Hint Resolve in16_32 in8_32 : word.

Lemma kp_fetch32 : kp fetch32 in32.
Proof. unfold fetch32. kgo. Qed.
Hint Resolve kp_fetch32 : cfk.

(** *** Condition codes *)

Lemma kp_sr (f : Z → Z) :
  (∀ v, in16 v → in16 (f v) ∧ f v .& 0xFF00 = v .& 0xFF00) →
  kp (modc (λ c, with_sr (f c.(sr)) c)) (λ _, True).
Proof.
  intros Hf. apply kp_modc. intros s Hs. destruct (Hf s.(cpu).(sr)) as [H1 H2].
  { apply wf_sr. by apply F. }
  apply (fr_sr _ _ _ F _ (f s.(cpu).(sr))); done.
Qed.

Lemma kp_or_sr flag : in8 flag → kp (modc (λ c, with_sr (c.(sr) .| flag) c)) (λ _, True).
Proof.
  intros Hf. apply (kp_sr (λ v, v .| flag)). intros v Hv. split; [|by apply lor_high].
  apply inw_lor; [done|]. by apply (inw_mono 8).
Qed.

Lemma kp_clear_flags flag : in8 flag → kp (clear_flags flag) (λ _, True).
Proof.
  intros Hf. apply (kp_sr (λ v, v .& not32 flag)). intros v Hv. split; [|by apply land_not_high].
  by apply inw_land_l.
Qed.

Lemma kp_set_flag flag b : in8 flag → kp (set_flag flag b) (λ _, True).
Proof. intros. destruct b; [by apply kp_or_sr|by apply kp_clear_flags]. Qed.

Ltac flag := solve [by vm_compute].
Hint Resolve kp_or_sr kp_clear_flags kp_set_flag : cfk.
Hint Extern 1 (inw 8 _) => flag : cfk.

Lemma kp_set_nz r sz : kp (set_nz r sz) (λ _, True).
Proof. unfold set_nz. kgo. Qed.
Hint Resolve kp_set_nz : cfk.
Lemma kp_flags_move r sz : kp (set_flags_move r sz) (λ _, True).
Proof. unfold set_flags_move. kgo. Qed.
Lemma kp_flags_add x y r sz : kp (set_flags_add x y r sz) (λ _, True).
Proof. unfold set_flags_add. kgo. Qed.
Lemma kp_flags_sub x y r sz : kp (set_flags_sub x y r sz) (λ _, True).
Proof. unfold set_flags_sub. kgo. Qed.
Lemma kp_flags_cmp x y r sz : kp (set_flags_cmp x y r sz) (λ _, True).
Proof. unfold set_flags_cmp. kgo. Qed.
Hint Resolve kp_flags_move kp_flags_add kp_flags_sub kp_flags_cmp : cfk.

Lemma kp_eval_cc cc : kp (eval_cc cc) (λ _, True).
Proof. by apply kp_getc. Qed.
Lemma kp_get_x : kp get_x (inw 1).
Proof. apply kp_getc. intros. apply inw_b2z. lia. Qed.
Hint Resolve kp_eval_cc kp_get_x : cfk.

(** *** Effective addresses *)

Lemma kp_cint z : kp (cint z) (λ v, - 2 ^ 31 <= v < 2 ^ 31).
Proof.
  unfold cint. apply keep_if; intros Hz; [apply keep_ret; lia|].
  intros s Hs. destruct (ov32_total z) as (v & E & Hv). by eapply wp_must.
Qed.
Lemma kp_clong z : kp (clong z) (λ v, - 2 ^ 63 <= v < 2 ^ 63).
Proof.
  unfold clong. apply keep_if; intros Hz; [apply keep_ret; lia|].
  intros s Hs. destruct (ov64_total z) as (v & E & Hv). by eapply wp_must.
Qed.
Hint Resolve kp_cint kp_clong : cfk.

Record wf_loc (loc : ea_loc) : Prop := {
  wf_lreg : 0 <= loc.(lreg) < 8;
  wf_laddr : in32 loc.(laddr);
  wf_limm : in32 loc.(limm)
}.
Hint Resolve wf_laddr wf_limm wf_lreg : cfk word.

Lemma wf_loc_mem v : in32 v → wf_loc (loc_mem v).
Proof. intros. split; simpl; [lia|done|by vm_compute]. Qed.
Lemma wf_loc_zero : wf_loc loc_zero.
Proof. split; simpl; [lia|by vm_compute..]. Qed.
Hint Resolve wf_loc_mem wf_loc_zero : word.

Lemma kp_indexed base ext : kp base in32 → kp (indexed base ext) wf_loc.
Proof. intros Hb. unfold indexed. kgo. Qed.

Hint Resolve kp_indexed : cfk.
Hint Extern 1 (keep _ _ (mret _) _) => apply keep_ret : cfk.

Lemma kp_weaken {A} (m : CF A) (P Q : A → Prop) : kp m P → (∀ a, P a → Q a) → kp m Q.
Proof. intros Hm HQ. by eapply keep_mono. Qed.

Lemma kp_imm sz :
  kp (if sz =? SZ_BYTE then w ← fetch16; mret (w .& 0xFF) else if sz =? SZ_WORD then fetch16
      else if sz =? SZ_LONG then fetch32 else mret 0) in32.
Proof.
  repeat (apply keep_if; intros _); [|eapply kp_weaken; [apply kp_fetch16|apply in16_32]| |].
  - eapply keep_bind; [apply kp_fetch16|]. intros w Hw. apply keep_ret. auto with word.
  - apply kp_fetch32.
  - apply keep_ret. by vm_compute.
Qed.

(** The location and the side effects of an effective address. *)
Lemma kp_decode_ea mode reg sz :
  0 <= mode < 8 → 0 <= reg < 8 → valid mode reg → kp (decode_ea mode reg sz) wf_loc.
Proof.
  intros Hm Hr Hv. unfold decode_ea.
  assert (mode = 0 ∨ mode = 1 ∨ mode = 2 ∨ mode = 3 ∨ mode = 4 ∨ mode = 5 ∨ mode = 6 ∨ mode = 7)
    as Hcases by lia.
  destruct Hcases as [-> | [-> | [-> | [-> | [-> | [-> | [-> | ->]]]]]]]; cbv zeta.
  1,2: apply keep_ret; split; simpl; (lia || by vm_compute).
  1-4: kgo.
  - eapply keep_bind; [apply kp_fetch16|]. intros ext Hext. apply keep_if; intros Hc.
    + intros s Hs. pose proof (fr_bad_ext _ _ _ F s Hs) as Hb. revert Hb.
      unfold wp, mbind, M_bind. destruct (cf_exception _ s) as [[[] s1]|]; [|done].
      unfold modc, mmod, mret, M_ret. intros [HI _]. split; [done|apply wf_loc_zero].
    + apply kp_indexed. by apply kp_geta.
  - assert (reg = 0 ∨ reg = 1 ∨ reg = 2 ∨ reg = 3 ∨ reg = 4 ∨ reg = 5 ∨ reg = 6 ∨ reg = 7)
      as Hreg by lia.
    destruct Hreg as [-> | [-> | [-> | [-> | [-> | Hreg]]]]].
    1-4: kgo; eauto with cfk.
    { eapply keep_bind; [apply kp_imm|]. intros v Hv'. apply keep_ret. split; simpl; [lia|by vm_compute|done]. }
    assert (kp (cf_exception CF_VEC_ILLEGAL;; mret loc_zero) wf_loc) as Hk.
    { eapply keep_bind; [eapply (fr_bad_ea _ _ _ F 7 reg); [done..|lia]|].
      intros. apply keep_ret, wf_loc_zero. }
    by destruct Hreg as [-> | [-> | ->]].
Qed.
Hint Resolve kp_decode_ea : cfk.

Lemma kp_read_mem p sz : in32 p → kp (read_mem p sz) in32.
Proof.
  intros Hp. unfold read_mem. repeat (apply keep_if; intros _); [..|by apply kp_read32].
  - eapply kp_weaken; [by apply kp_read8|apply in8_32].
  - eapply kp_weaken; [by apply kp_read16|apply in16_32].
Qed.

Lemma kp_write_mem p sz v : in32 p → in32 v → kp (write_mem p sz v) (λ _, True).
Proof. intros. unfold write_mem. kgo. Qed.
Hint Resolve kp_read_mem kp_write_mem : cfk.

Lemma kp_read_ea loc sz : wf_loc loc → kp (read_ea loc sz) in32.
Proof.
  intros Hl. unfold read_ea. pose proof (wf_lreg _ Hl). pose proof (wf_laddr _ Hl).
  pose proof (wf_limm _ Hl). kgo.
Qed.

Lemma kp_put_d reg sz v : 0 <= reg < 8 → in32 v → kp (put_d reg sz v) (λ _, True).
Proof. intros. unfold put_d. kgo. Qed.
Hint Resolve kp_read_ea kp_put_d : cfk.

Lemma kp_write_ea loc sz v : wf_loc loc → in32 v → kp (write_ea loc sz v) (λ _, True).
Proof.
  intros Hl Hv. unfold write_ea. pose proof (wf_lreg _ Hl). pose proof (wf_laddr _ Hl). kgo.
Qed.
Hint Resolve kp_write_ea : cfk.

Lemma kp_ea_read mode reg sz :
  0 <= mode < 8 → 0 <= reg < 8 → valid mode reg → kp (ea_read mode reg sz) in32.
Proof. intros. unfold ea_read. eapply keep_bind; [by apply kp_decode_ea|]. eauto with cfk. Qed.
Hint Resolve kp_ea_read : cfk.

Lemma kp_sub_sp n : kp (sub_sp n) (λ _, True).
Proof. unfold sub_sp. kgo. Qed.
Lemma kp_add_sp n : kp (add_sp n) (λ _, True).
Proof. unfold add_sp. kgo. Qed.
Hint Resolve kp_sub_sp kp_add_sp : cfk.

Lemma kp_exc v : inw 8 v → keep I J (cf_exception v) (λ _, True).
Proof. apply F. Qed.
Hint Resolve kp_exc : cfk.
Lemma kp_illegal : keep I J illegal (λ _, True).
Proof. by apply kp_exc. Qed.
Hint Resolve kp_illegal : cfk.

(** *** Groups 0 to 3 *)

Abbreviation ends m := (keep I J m (λ _, True)).
Context (op : Z) (Hop : in16 op).
Abbreviation ea_mode := ((op >> 3) .& 7).
Abbreviation ea_reg := (op .& 7).

Lemma bit_in n : 0 <= n < 32 → in32 (1 << n).
Proof. intros. apply inw_shiftl; [lia|]. split; [lia|]. apply (Z.pow_gt_1 2); lia. Qed.
Lemma land31 n : 0 <= n .& 31 < 32.
Proof. apply (inw_land_r 5). unfold inw; lia. Qed.
Lemma land7_31 n : 0 <= n .& 7 < 32.
Proof. pose proof (field3 n). lia. Qed.

Lemma kp_bit_ops bit_op bitnum mode reg :
  0 <= mode < 8 → 0 <= reg < 8 → valid mode reg → ends (bit_ops bit_op bitnum mode reg).
Proof.
  intros. unfold bit_ops. pose proof (bit_in _ (land31 bitnum)). pose proof (bit_in _ (land7_31 bitnum)).
  kgo.
Qed.
Hint Resolve kp_bit_ops : cfk.

Lemma ff1_in v : in32 (ff1 v).
Proof.
  unfold ff1. case_match; [by vm_compute|]. assert (∀ f v n, 0 <= n → 0 <= ff1_loop f v n <= n + Z.of_nat f) as Hl.
  { induction f as [|f IH]; intros w n Hn; simpl; [lia|]. case_match; [lia|]. specialize (IH (u32 (w << 1)) (n + 1)). lia. }
  specialize (Hl 32%nat v 0). unfold inw. lia.
Qed.
Lemma byterev_in v : in32 v → in32 (byterev v).
Proof. intros. unfold byterev. auto 8 with word. Qed.
Hint Resolve ff1_in byterev_in : word.

Lemma kp_exec_imm imm_op sz mode reg :
  0 <= mode < 8 → 0 <= reg < 8 → valid mode reg → ends (exec_imm imm_op sz mode reg).
Proof.
  intros. unfold exec_imm. eapply (keep_bind I I _ _ _ in32).
  { apply keep_if; intros _; [apply kp_fetch32|]. kgo. }
  intros imm Himm. kgo.
Qed.
Hint Resolve kp_exec_imm : cfk.

Lemma kp_bit_reg : valid ea_mode ea_reg → ends (exec_bit_reg op).
Proof. intros. unfold exec_bit_reg. kgo. Qed.

Lemma kp_group0 : valid ea_mode ea_reg → ends (exec_group0 op).
Proof. intros. unfold exec_group0. kgo. Qed.

Lemma kp_move sz :
  valid ea_mode ea_reg → valid ((op >> 6) .& 7) ((op >> 9) .& 7) → ends (exec_move op sz).
Proof. intros. unfold exec_move. kgo. Qed.

(** *** Group 4, without the privileged instructions *)

Lemma kp_sticky_z r : kp (sticky_z r) (λ _, True).
Proof. unfold sticky_z. kgo. Qed.
Hint Resolve kp_sticky_z : cfk.

Lemma kp_get_r i : 0 <= i < 16 → kp (get_r i) in32.
Proof. intros. unfold get_r. apply keep_if; intros Hi; [apply kp_getd|apply kp_geta]; lia. Qed.
Lemma kp_set_r i v : 0 <= i < 16 → in32 v → kp (set_r i v) (λ _, True).
Proof. intros. unfold set_r. apply keep_if; intros Hi; [apply kp_setd|apply kp_seta]; (lia || done). Qed.
Hint Resolve kp_get_r kp_set_r : cfk.

Lemma upto_range i n : i ∈ upto n → 0 <= i < n.
Proof. unfold upto. rewrite elem_of_seqZ. lia. Qed.

Lemma kp_movem_predec mask reg : 0 <= reg < 8 → kp (movem_predec mask reg) (λ _, True).
Proof. intros. apply keep_mfor. intros i Hi%upto_range. kgo. Qed.
Lemma kp_movem_postinc mask reg : 0 <= reg < 8 → kp (movem_postinc mask reg) (λ _, True).
Proof. intros. apply keep_mfor. intros i Hi%upto_range. kgo. Qed.
Lemma kp_movem_store mask addr : in32 addr → kp (movem_store mask addr) (λ _, True).
Proof.
  intros. unfold movem_store. eapply keep_bind; [|intros; by apply keep_ret].
  apply (keep_mloop I in32); [done|]. intros i v Hi%upto_range Hv. kgo.
Qed.
Lemma kp_movem_load mask addr : in32 addr → kp (movem_load mask addr) (λ _, True).
Proof.
  intros. unfold movem_load. eapply keep_bind; [|intros; by apply keep_ret].
  apply (keep_mloop I in32); [done|]. intros i v Hi%upto_range Hv. kgo.
Qed.
Hint Resolve kp_movem_predec kp_movem_postinc kp_movem_store kp_movem_load : cfk.

Section Group4.
Context (Hea : valid ea_mode ea_reg).

Lemma kp_tas : ends (exec_tas ea_mode ea_reg).
Proof. unfold exec_tas. kgo. Qed.
Lemma kp_tst : ends (exec_tst op ea_mode ea_reg).
Proof. unfold exec_tst. kgo. Qed.
Lemma kp_clr : ends (exec_clr op ea_mode ea_reg).
Proof. unfold exec_clr. kgo. Qed.
Lemma kp_neg : ends (exec_neg ea_reg).
Proof. unfold exec_neg. kgo. Qed.
Lemma kp_negx : ends (exec_negx ea_reg).
Proof. unfold exec_negx. kgo. Qed.
Lemma kp_not : ends (exec_not ea_reg).
Proof. unfold exec_not. kgo. Qed.
Lemma kp_ext_w : ends (exec_ext_w ea_reg).
Proof. unfold exec_ext_w. kgo. Qed.
Lemma kp_ext_l : ends (exec_ext_l ea_reg).
Proof. unfold exec_ext_l. kgo. Qed.
Lemma kp_extb : ends (exec_extb ea_reg).
Proof. unfold exec_extb. kgo. Qed.
Lemma kp_swap : ends (exec_swap ea_reg).
Proof. unfold exec_swap. kgo. Qed.
Lemma kp_pea : ends (exec_pea ea_mode ea_reg).
Proof. unfold exec_pea. kgo. Qed.
Lemma kp_movem : ends (exec_movem op ea_mode ea_reg).
Proof. unfold exec_movem. kgo. Qed.
Lemma kp_lea : ends (exec_lea op ea_mode ea_reg).
Proof. unfold exec_lea. kgo. Qed.
Lemma kp_link : ends (exec_link ea_reg).
Proof. unfold exec_link. kgo. Qed.
Lemma kp_unlk : ends (exec_unlk ea_reg).
Proof. unfold exec_unlk. kgo. Qed.
Lemma kp_rts : ends exec_rts.
Proof. unfold exec_rts. kgo. Qed.
Lemma kp_jsr : ends (exec_jsr ea_mode ea_reg).
Proof. unfold exec_jsr. kgo. Qed.
Lemma kp_jmp : ends (exec_jmp ea_mode ea_reg).
Proof. unfold exec_jmp. kgo. Qed.
Lemma kp_mul_l : ends (exec_mul_l ea_mode ea_reg).
Proof. unfold exec_mul_l. kgo. Qed.
Lemma kp_move_to_ccr : ends (exec_move_to_ccr ea_mode ea_reg).
Proof.
  unfold exec_move_to_ccr. eapply keep_bind; [by apply kp_ea_read; [apply field3..|]|].
  intros v Hv. eapply kp_out. apply (kp_sr (λ w, (w .& 0xFF00) .| (v .& 0xFF))). intros w Hw.
  assert (in8 (v .& 0xFF)) by auto with word. split.
  - apply inw_lor; [auto with word|by apply (inw_mono 8)].
  - rewrite lor_high by done. by rewrite <-Z.land_assoc.
Qed.

Lemma quot_range x y : - 2 ^ 31 <= x < 2 ^ 31 → - 2 ^ 31 <= y < 2 ^ 31 → y ≠ 0 →
  ¬ (x = - 2 ^ 31 ∧ y = -1) → - 2 ^ 31 <= Z.quot x y < 2 ^ 31.
Proof.
  intros Hx Hy Hz Hn. pose proof (Z.quot_abs x y Hz) as Ha.
  assert (Z.abs (Z.quot x y) = Z.abs x ÷ Z.abs y) as Hq by (by rewrite Z.quot_abs).
  clear Ha. destruct (decide (Z.abs y = 1)) as [H1|H1].
  - rewrite H1, Z.quot_1_r in Hq. assert (y = 1 ∨ y = -1) as [-> | ->] by lia.
    + rewrite Z.quot_1_r. lia.
    + lia.
  - assert (Z.abs x ÷ Z.abs y <= Z.abs x ÷ 2).
    { apply Z.quot_le_compat_l; lia. }
    assert (Z.abs x ÷ 2 <= 2 ^ 30). { rewrite Z.quot_div_nonneg by lia. apply Z.div_le_upper_bound; lia. }
    lia.
Qed.

Lemma rem_range x y : - 2 ^ 31 <= x < 2 ^ 31 → y ≠ 0 → - 2 ^ 31 <= Z.rem x y < 2 ^ 31.
Proof.
  intros Hx Hy. pose proof (Z.rem_abs x y Hy). pose proof (Z.rem_le (Z.abs x) (Z.abs y)).
  pose proof (Z.rem_sign_nz x y Hy). destruct (decide (Z.rem x y = 0)) as [-> |Hr]; [lia|].
  destruct (decide (0 <= x)); [|lia]. pose proof (Z.rem_nonneg x y Hy). lia.
Qed.

Lemma s32_eq_0 v : in32 v → s32 v = 0 → v = 0.
Proof. unfold s32. intros Hv. rewrite u32_small by done. unfold inw in Hv. case_match; lia. Qed.
Lemma s32_min v : in32 v → s32 v = - 2 ^ 31 → v = 0x80000000.
Proof. unfold s32. intros Hv. rewrite u32_small by done. unfold inw in Hv. case_match; lia. Qed.

Lemma kp_div_l : ends (exec_div_l ea_mode ea_reg).
Proof.
  unfold exec_div_l. kstep; [kgo|]. cbv zeta. kstep; [kgo|]. kstep; [kgo|].
  apply keep_if; intros Hz; [kgo|]. apply Z.eqb_neq in Hz.
  rename a into ext, a1 into divisor. kstep; [kgo|]. rename a into dividend.
  apply keep_if; intros Hc; [kgo|].
  eapply (keep_bind I I _ _ _ (λ qr, in32 qr.1 ∧ in32 qr.2)).
  - apply keep_if; intros Hs.
    + rewrite Hs in Hc. simpl in Hc.
      assert (s32 divisor ≠ 0) by (intros E; by apply s32_eq_0 in E).
      eapply keep_bind; [apply keep_int, quot_range; auto using s32_range|].
      { intros [E1%s32_min E2]; [|done]. rewrite E1, E2 in Hc. done. }
      intros q ->. eapply keep_bind; [apply keep_int, rem_range; auto using s32_range|].
      intros r ->. apply keep_ret. split; apply u32_in.
    + apply keep_ret. unfold inw in *. simpl. split.
      * split; [apply Z.div_pos; lia|]. apply Z.div_lt_upper_bound; nia.
      * pose proof (Z.mod_pos_bound dividend divisor). lia.
  - intros [q r] [Hq Hr]. simpl in Hq, Hr. kgo.
Qed.
End Group4.

(** *** Groups 5 to 9 and B to E *)

Lemma kp_group5 : valid ea_mode ea_reg → ends (exec_group5 op).
Proof. intros. unfold exec_group5. kgo. Qed.

Lemma kp_group6 : ends (exec_group6 op).
Proof.
  unfold exec_group6. cbv zeta. kstep; [kgo|].
  eapply (keep_bind I I _ _ _ (λ _, True)); [kgo|]. intros disp _. kgo.
Qed.

Lemma sign_extend_u32 v sz : in32 (u32 (sign_extend v sz)).
Proof. apply u32_in. Qed.

Lemma kp_group7 : (nz (op .& 0x100) = true → valid ea_mode ea_reg) → ends (exec_group7 op).
Proof.
  intros Hv. unfold exec_group7. apply keep_if; intros Hb; [kgo|].
  apply negb_false_iff in Hb. specialize (Hv Hb). kgo.
Qed.

Lemma kp_alu (f : Z → Z → Z) (fl : Z → Z → Z → Z → CF unit) :
  (∀ x y, in32 x → in32 y → in32 (f x y)) → (∀ w x y sz, kp (fl w x y sz) (λ _, True)) →
  valid ea_mode ea_reg → ends (exec_alu f fl op).
Proof. intros Hf Hfl Hv. unfold exec_alu. kgo. Qed.

Lemma kp_fl_move w x y sz : kp (fl_move w x y sz) (λ _, True).
Proof. apply kp_flags_move. Qed.
Hint Resolve kp_alu kp_fl_move : cfk.

Lemma kp_div_w sg reg mode r :
  0 <= reg < 8 → 0 <= mode < 8 → 0 <= r < 8 → valid mode r → ends (exec_div_w sg reg mode r).
Proof.
  intros Hreg Hm Hr Hv. unfold exec_div_w. kstep; [kgo|]. rename a into src.
  apply keep_if; intros Hz; [kgo|]. apply Z.eqb_neq in Hz. kstep; [kgo|]. rename a into dst. cbv zeta.
  apply keep_if; intros Hs; [|kgo; apply inw_lor; auto with word].
  apply keep_if; intros Hc; [kgo|].
  assert (s16 src ≠ 0).
  { intros E. apply Hz. change 0xFFFF with (Z.ones 16). rewrite Z.land_ones by lia. unfold s16, u16 in E.
    change 65536 with (2 ^ 16) in E. pose proof (Z.mod_pos_bound src (2 ^ 16)). case_match; lia. }
  eapply keep_bind; [apply keep_int, quot_range; auto using s32_range|].
  { pose proof (s16_range src). lia. }
  { intros [E1 E2]. rewrite E1, E2 in Hc. done. }
  intros q ->. eapply keep_bind; [apply keep_int, rem_range; auto using s32_range|].
  intros rm ->. kgo. all: apply inw_lor; auto with word.
Qed.
Hint Resolve kp_div_w : cfk.

Lemma kp_group8 : valid ea_mode ea_reg → ends (exec_group8 op).
Proof.
  intros. unfold exec_group8. apply keep_if; intros _; [kgo|]. apply kp_alu; auto with word cfk.
Qed.

Lemma kp_exg opm5 x y (k : CF unit) :
  0 <= x < 8 → 0 <= y < 8 → ends k → ends (exec_exg opm5 x y k).
Proof. intros. unfold exec_exg. kgo. Qed.

Lemma kp_groupC : valid ea_mode ea_reg → ends (exec_groupC op).
Proof.
  intros. unfold exec_groupC. cbv zeta. apply keep_if; intros _; [kgo|]. apply keep_if; intros _.
  - kstep; [kgo|]. kstep; [kgo|]. eapply keep_bind; [apply keep_int|intros r ->; kgo].
    pose proof (s16_range a). pose proof (s16_range (a0 .& 0xFFFF)). nia.
  - assert (ends (exec_alu (λ dst src, src .& dst) fl_move op)).
    { apply kp_alu; [intros; by apply inw_land_l|apply kp_fl_move|done]. }
    apply keep_if; intros _; [|done]. apply kp_exg; auto using field3.
Qed.

Lemma kp_addx b x y : 0 <= x < 8 → 0 <= y < 8 → ends (exec_addx b x y).
Proof. intros. unfold exec_addx. kgo. Qed.
Hint Resolve kp_addx : cfk.

Lemma kp_group9 : valid ea_mode ea_reg → ends (exec_group9 op).
Proof.
  intros. unfold exec_group9. cbv zeta. do 3 (apply keep_if; intros _; [kgo|]).
  apply kp_alu; auto using kp_flags_sub, u32_in.
Qed.
Lemma kp_groupD : valid ea_mode ea_reg → ends (exec_groupD op).
Proof.
  intros. unfold exec_groupD. cbv zeta. do 3 (apply keep_if; intros _; [kgo|]).
  apply kp_alu; auto using kp_flags_add, u32_in.
Qed.
Lemma kp_groupB : valid ea_mode ea_reg → ends (exec_groupB op).
Proof. intros. unfold exec_groupB. kgo. Qed.

(** *** Shifts *)

Lemma iter_in {A} (P : A → Prop) (f : A → A) n x : P x → (∀ y, P y → P (f y)) → P (Nat.iter n f x).
Proof. intros. induction n; simpl; auto. Qed.

Lemma msb_in sz : in32 (size_msb sz).
Proof. unfold size_msb. repeat case_match; by vm_compute. Qed.

Lemma shift_mask_in sz : is_size sz → in32 (if sz =? SZ_LONG then 0xFFFFFFFF else (1 << (sz * 8)) - 1).
Proof. intros [-> | [-> | ->]]; by vm_compute. Qed.

Lemma shift_result_in type left val sz count r :
  in32 val → is_size sz → shift_result type left val sz count = Some r → in32 r.1.1.
Proof.
  intros Hv Hsz. unfold shift_result. set (msk := if sz =? SZ_LONG then _ else _).
  assert (in32 msk) as Hm by (by apply shift_mask_in). cbv zeta.
  assert (∀ x, in32 (x .& msk)) as Hx by (intros; by apply inw_land_r).
  destruct (lsl_loop _ _ _ _), (asr_loop _ _ _), (ror_loop _ _ _ _).
  destruct (lsr_loop (Z.to_nat count) val false) as [rr o] eqn:E.
  assert (in32 rr).
  { change rr with (rr, o).1. rewrite <-E. unfold lsr_loop. apply (iter_in (λ p, in32 p.1)); [done|].
    intros [y ?] Hy. simpl in *. auto with word. }
  repeat case_match; intros; simplify_eq; simpl; done.
Qed.

Lemma kp_groupE : ends (exec_groupE op).
Proof.
  unfold exec_groupE. cbv zeta. apply keep_if; intros _; [kgo|].
  destruct (decode_size_cases ((op >> 6) .& 3)) as [-> |Hsz]; [exact kp_illegal|].
  apply keep_if; intros _; [kgo|].
  eapply (keep_bind I I _ _ _ (λ _, True)); [kgo|]. intros count _.
  kstep; [kgo|]. rename a into v. apply keep_if; intros _; [kgo|].
  destruct (shift_result _ _ _ _ _) as [[[res o] x]|] eqn:E; [|kgo].
  apply shift_result_in in E; [|by apply size_mask_in|done]. simpl in E.
  do 2 (kstep; [kgo|]). eapply (keep_bind I I _ _ _ (λ _, True)); [kgo|]. intros _ _. kgo.
Qed.

(** *** Group A *)

Lemma sign_extend48_in v : in48s (sign_extend48 v).
Proof.
  unfold sign_extend48, in48s. pose proof (s64_range (u64 (u64 v << 16))).
  rewrite Z.shiftr_div_pow2 by lia. Z.to_euclidean_division_equations. lia.
Qed.

Lemma acc_load_in m v : in48s (acc_load m v).
Proof. apply sign_extend48_in. Qed.

Hint Resolve sign_extend48_in acc_load_in : cfk word.
Hint Extern 5 (in48s _) => unfold in48s; lia : cfk.

Lemma ext_pair_in x y : in32 (ext_pair x y).
Proof. unfold ext_pair. apply inw_lor; apply u32_in. Qed.
Hint Resolve ext_pair_in : word.

Lemma kp_acc_ext_pair n : 0 <= n < 3 → kp (acc_ext_pair n) in32.
Proof. intros. unfold acc_ext_pair. kgo. Qed.
Lemma kp_set_acc_ext_pair n v : 0 <= n < 3 → kp (set_acc_ext_pair n v) (λ _, True).
Proof. intros. unfold set_acc_ext_pair. kgo. Qed.

Lemma kp_clear_macsr m : kp (clear_macsr m) (λ _, True).
Proof.
  apply kp_modc. intros s Hs. apply (fr_macsr _ _ _ F s (s.(cpu).(macsr) .& not32 m)); [done|].
  apply inw_land_l. by apply wf_macsr, F.
Qed.
Lemma kp_or_macsr b m : in32 m → kp (or_macsr b m) (λ _, True).
Proof.
  intros Hm. destruct b; [|by apply keep_ret].
  apply kp_modc. intros s Hs. apply (fr_macsr _ _ _ F s (s.(cpu).(macsr) .| m)); [done|].
  apply inw_lor; [|done]. by apply wf_macsr, F.
Qed.
Hint Resolve kp_acc_ext_pair kp_set_acc_ext_pair kp_clear_macsr kp_or_macsr : cfk.
Hint Extern 1 (inw 32 MACSR_Z) => flag : cfk.
Hint Extern 1 (inw 32 MACSR_N) => flag : cfk.
Hint Extern 1 (inw 32 MACSR_V) => flag : cfk.
Hint Extern 1 (inw 32 MACSR_EV) => flag : cfk.

Lemma kp_mov3q : valid ea_mode ea_reg → ends (exec_mov3q op).
Proof.
  intros. unfold exec_mov3q. cbv zeta. apply keep_if; intros _; [kgo|].
  eapply (keep_bind I I _ _ _ (λ _, True)); [kgo|]. intros _ _. kgo.
Qed.

Lemma eight_cases (P : Z → Prop) x :
  0 <= x < 8 → P 0 → P 1 → P 2 → P 3 → P 4 → P 5 → P 6 → P 7 → P x.
Proof.
  intros Hx ????????.
  assert (x = 0 ∨ x = 1 ∨ x = 2 ∨ x = 3 ∨ x = 4 ∨ x = 5 ∨ x = 6 ∨ x = 7)
    as [-> | [-> | [-> | [-> | [-> | [-> | [-> | ->]]]]]]] by lia; done.
Qed.

Lemma kp_emac_read r : 0 <= r < 8 → kp (emac_read r) in32.
Proof. intros Hr. apply (eight_cases (λ r, kp (emac_read r) in32)); [done|..]; unfold emac_read; kgo. Qed.

Lemma kp_set_macsr v : in32 v → kp (modc (with_macsr v)) (λ _, True).
Proof. intros. apply kp_modc. intros s Hs. by apply F. Qed.
Lemma kp_set_mask v : in32 v → kp (modc (with_mask v)) (λ _, True).
Proof. intros. apply kp_modc. intros s Hs. by apply F. Qed.
Hint Resolve kp_emac_read kp_set_macsr kp_set_mask : cfk.

Lemma kp_emac_write r v : 0 <= r < 8 → in32 v → kp (emac_write r v) (λ _, True).
Proof.
  intros Hr Hv. apply (eight_cases (λ r, kp (emac_write r v) (λ _, True))); [done|..];
    unfold emac_write; kgo.
Qed.
Hint Resolve kp_emac_write : cfk.

Lemma kp_emac_move : ends (exec_emac_move op).
Proof.
  unfold exec_emac_move. cbv zeta. apply keep_if; intros _.
  - eapply kp_out. apply kp_modc. intros s Hs.
    apply (fr_sr _ _ _ F s ((s.(cpu).(sr) .& not32 0x0F) .| (s.(cpu).(macsr) .& (MACSR_N .| MACSR_Z .| MACSR_V))));
      [done|..].
    + apply inw_lor; [apply inw_land_l; by apply wf_sr, F|]. apply inw_land_r. by vm_compute.
    + rewrite lor_high by (apply inw_land_r; by vm_compute). by apply land_not_high.
  - apply keep_if; intros _; [|kgo]. kstep; [kgo|]. kstep; [kgo|]. apply keep_if; intros Hc; [|kgo].
    assert (0 <= (op >> 9) .& 7 < 4) by (pose proof (field3 (op >> 9)); lia). kgo.
Qed.

Lemma kp_cshl z n : 0 <= n → kp (cshl z n) (λ v, - 2 ^ 63 <= v < 2 ^ 63).
Proof.
  intros Hn. unfold cshl. apply keep_if; intros Hz.
  - apply keep_ret. apply andb_prop in Hz as [H1 H2]. assert (0 <= z << n) by (apply Z.shiftl_nonneg; lia). lia.
  - intros s Hs. destruct (ovshl_total (z << n)) as (v & E & Hv). by eapply wp_must.
Qed.
Hint Resolve kp_cshl : cfk.

Lemma kp_mac_product m x y sf : kp (mac_product m x y sf) (λ v, - 2 ^ 63 <= v < 2 ^ 63).
Proof.
  unfold mac_product. eapply (keep_bind I I _ _ _ (λ v, - 2 ^ 63 <= v < 2 ^ 63)).
  - apply keep_if; intros _; [apply keep_ret, s64_range|apply kp_clong].
  - intros p Hp. apply keep_if; intros _; [by apply kp_cshl|]. apply keep_if; intros _; apply keep_ret; [|done].
    rewrite Z.shiftr_div_pow2 by lia. Z.to_euclidean_division_equations. lia.
Qed.
Hint Resolve kp_mac_product : cfk.

Lemma pav_in i : 0 <= i < 4 → in32 (MACSR_PAV0 << i).
Proof. intros. assert (i = 0 ∨ i = 1 ∨ i = 2 ∨ i = 3) as [-> | [-> | [-> | ->]]] by lia; by vm_compute. Qed.
Hint Resolve pav_in : word.

Lemma kp_mac_store i r : 0 <= i < 4 → kp (mac_store i r) (λ _, True).
Proof.
  intros Hi. unfold mac_store. pose proof (pav_in i Hi). cbv zeta.
  eapply (keep_bind I I _ _ _ in48s).
  - apply keep_if; intros Hr; [|apply keep_ret; unfold in48s; change (1 << 47) with (2 ^ 47) in Hr; lia].
    eapply keep_bind; [by apply kp_or_macsr|]. intros _ _. kstep; [kgo|]. apply keep_ret.
    case_match; [|apply sign_extend48_in]. change (1 << 47) with (2 ^ 47). unfold in48s. case_match; lia.
  - intros v Hv. kgo.
Qed.
Hint Resolve kp_mac_store : cfk.

Lemma kp_mac : ends (exec_mac op).
Proof.
  unfold exec_mac. cbv zeta. kstep; [kgo|].
  set (idx := (((a >> 4) .& 1) << 1) .| ((op >> 7) .& 1)).
  assert (0 <= idx < 4).
  { apply (inw_lor 2); [apply inw_shiftl; [lia|]; apply inw_land_r; by vm_compute|].
    apply inw_land_r. by vm_compute. }
  clearbody idx. do 2 (eapply (keep_bind I I _ _ _ in32); [kgo|intros ? ?]). kgo.
Qed.

Lemma kp_groupA : valid ea_mode ea_reg → ends (exec_groupA op).
Proof.
  intros. unfold exec_groupA. cbv zeta. apply keep_if; intros _; [by apply kp_mov3q|].
  eapply keep_bind; [apply (fr_hyper _ _ _ F)|]. intros b _.
  apply keep_if; intros _; [eapply (kp_out _ (λ _, True)); by apply keep_ret|].
  apply keep_if; intros _; [apply kp_emac_move|apply kp_mac].
Qed.

(** *** Group F *)

Lemma d_pack_in nan x : in64 nan → okn 53 1024 x → in64 (d_pack nan x).
Proof. intros Hn Hx. destruct x; [..|done|]; by apply d_bits_in. Qed.

Lemma d_op1_in f x : (∀ y, okn 53 1024 y → okn 53 1024 (f y)) → in64 (d_op1 f x).
Proof. intros Hf. apply d_pack_in; [apply nan64_ok|]. apply Hf, d_from_bits_okn. Qed.
Lemma d_op2_in f x y :
  (∀ u v, okn 53 1024 u → okn 53 1024 v → okn 53 1024 (f u v)) → in64 (d_op2 f x y).
Proof. intros Hf. apply d_pack_in; [apply nan64_ok|]. apply Hf; apply d_from_bits_okn. Qed.

Lemma d_integral_okn round x : okn 53 1024 x → okn 53 1024 (d_integral round x).
Proof.
  destruct x; simpl; try done. intros. case_match; [done|]. by apply okf_okn, binary_normalize_ok.
Qed.

Lemma fpcc_in v b : in32 (fpcc_of v b).
Proof. unfold fpcc_of. destruct v, b; repeat case_match; by vm_compute. Qed.

Lemma fpu_op_in opcode dp src r :
  in64 dp → in64 src → fpu_op opcode dp src = Some r →
  match r with inl v => in64 v | inr cc => in32 cc end.
Proof.
  intros Hd Hs E.
  assert (in64 (d_fabs src)) as Ha by (by apply inw_land_l).
  assert (in64 (d_neg src)) as Hn by (apply inw_lxor; [done|by vm_compute]).
  assert (∀ f, (∀ u v, okn 53 1024 u → okn 53 1024 v → okn 53 1024 (f u v)) → in64 (d_op2 f dp src)) as H2.
  { intros. by apply d_op2_in. }
  assert (∀ f, (∀ u, okn 53 1024 u → okn 53 1024 (f u)) → in64 (d_op1 f src)) as H1.
  { intros. by apply d_op1_in. }
  unfold fpu_op, d_add, d_sub, d_mul, d_div, d_rint, d_truncate, to_single in E.
  assert (∀ x, in32 (Z.lor x 0) → in32 x) by (intros x; by rewrite Z.lor_0_r).
  repeat case_match; simplify_eq; try done;
    first [apply fpcc_in | apply H1 | apply H2]; intros;
    first [by apply SFadd_okn | by apply SFsub_okn | by apply SFmul_okn | by apply SFdiv_okn
          | by apply SFsqrt_okn | by apply d_integral_okn | apply d_of_f_okn].
Qed.

Lemma kp_read_pair p : in32 p → kp (read_pair p) in64.
Proof.
  intros. unfold read_pair. kgo. apply inw_lor; [apply u64_in|]. by apply (inw_mono 32).
Qed.
Lemma kp_write_pair p v : in32 p → kp (write_pair p v) (λ _, True).
Proof. intros. unfold write_pair. kgo. Qed.
Hint Resolve kp_read_pair kp_write_pair : cfk.

Lemma kp_fpu_read_double mode reg :
  0 <= mode < 8 → 0 <= reg < 8 → valid mode reg → kp (fpu_read_double mode reg) in64.
Proof. intros. unfold fpu_read_double. kgo. Qed.

Lemma d_of_raw_in r : in64 (d_of_raw r).
Proof.
  unfold d_of_raw. pose proof (d_bits_in _ (d_of_f_okn (f32_val r))). destruct (f32_val r); try done.
  apply nan_widen_ok.
Qed.
Lemma f_raw_in x : in32 (f_raw x).
Proof.
  unfold f_raw. pose proof (f_of_d_okn (d_from_bits x)) as H.
  destruct (f_of_d (d_from_bits x)) eqn:E; [..|apply nan32_ok|]; by apply f32_bits_in.
Qed.
Lemma d_bits_of_Z_in n : in64 (d_bits (d_of_Z n)).
Proof. by apply d_bits_in, okf_okn, d_of_Z_ok. Qed.
Hint Resolve d_of_raw_in f_raw_in d_bits_of_Z_in : word cfk.

Lemma kp_line_f : ends line_f.
Proof. by apply kp_exc. Qed.
Hint Resolve kp_line_f : cfk.

Lemma kp_fpsr (f : Z → Z) : (∀ v, in32 v → in32 (f v)) → kp (modc (λ c, with_fpsr (f c.(fpsr)) c)) (λ _, True).
Proof.
  intros Hf. apply kp_modc. intros s Hs. apply (fr_fpsr _ _ _ F s (f s.(cpu).(fpsr))); [done|].
  by apply Hf, wf_fpsr, F.
Qed.

Lemma kp_fpu_arith opcode r v : 0 <= r < 8 → in64 v → ends (exec_fpu_arith opcode r v).
Proof.
  intros Hr Hv. unfold exec_fpu_arith. kstep; [kgo|]. rename a into dp.
  destruct (fpu_op opcode dp v) as [[x|cc]|] eqn:E; [| |kgo]; apply fpu_op_in in E; try done; [kgo|].
  eapply kp_out. apply (kp_fpsr (λ w, (w .& 0x00FFFFFF) .| cc)). intros. apply inw_lor; [|done].
  auto with word.
Qed.
Hint Resolve kp_fpu_arith : cfk.

Lemma kp_fpu_source fmt mode reg m :
  0 <= mode < 8 → 0 <= reg < 8 → valid mode reg → fpu_source fmt mode reg = Some m → kp m in64.
Proof.
  intros Hm Hr Hv. unfold fpu_source. pose proof (kp_fpu_read_double mode reg Hm Hr Hv).
  repeat case_match; intros; simplify_eq; kgo.
Qed.

Lemma kp_cvt w v : 1 <= w <= 32 → kp (cvt w v) (λ n, - 2 ^ 31 <= n < 2 ^ 31).
Proof.
  intros Hw. unfold cvt. destruct (d_to_int _ _ _) as [n|] eqn:E.
  - apply keep_ret. unfold d_to_int in E. repeat case_match; simplify_eq.
    assert (2 ^ (w - 1) <= 2 ^ 31) by (apply Z.pow_le_mono_r; lia). lia.
  - intros s Hs. destruct (ovcvt_total w v) as (n & En & Hn). by eapply wp_must.
Qed.
Hint Extern 1 (keep _ _ (cvt _ _) _) => apply kp_cvt; lia : cfk.

Lemma kp_fmove_out ext : valid ea_mode ea_reg → ends (exec_fmove_out op ext).
Proof. intros. unfold exec_fmove_out. kgo. Qed.

Lemma kp_ctl_in sel loc set p :
  wf_loc loc → in32 p → (∀ s v, I s → in32 v → I (upd (set v) s)) → kp (ctl_in sel loc set p) in32.
Proof.
  intros Hl Hp Hset. unfold ctl_in. apply keep_if; intros _; [|by apply keep_ret].
  eapply (keep_bind I I _ _ _ in32); [kgo|]. intros v Hv.
  eapply keep_bind; [apply kp_modc; intros; by apply Hset|]. intros _ _. apply keep_ret.
  case_match; [apply u32_in|done].
Qed.

Lemma kp_ctl_out sel loc get p :
  wf_loc loc → in32 p → (∀ c, wf_cpu c → in32 (get c)) → kp (ctl_out sel loc get p) in32.
Proof.
  intros Hl Hp Hget. unfold ctl_out. apply keep_if; intros _; [|by apply keep_ret].
  eapply keep_bind; [by apply kp_field|]. intros v Hv. kgo.
Qed.

Lemma kp_fmove_ctl ext b : valid ea_mode ea_reg → ends (exec_fmove_ctl op ext b).
Proof.
  intros. unfold exec_fmove_ctl. cbv zeta. kstep; [kgo|]. pose proof (wf_laddr _ H0).
  apply keep_if; intros _;
    (eapply keep_bind; [first [apply kp_ctl_in|apply kp_ctl_out]; [done..|apply F || apply wf_fpcr]|]; intros p1 Hp1;
     eapply keep_bind; [first [apply kp_ctl_in|apply kp_ctl_out]; [done..|apply F || apply wf_fpsr]|]; intros p2 Hp2;
     eapply keep_bind; [first [apply kp_ctl_in|apply kp_ctl_out]; [done..|apply F || apply wf_fpiar]|]; intros; kgo).
Qed.

Lemma kp_fmovem_predec m reg : 0 <= reg < 8 → kp (fmovem_predec m reg) (λ _, True).
Proof. intros. apply keep_mfor. intros i Hi%upto_range. kgo. Qed.
Lemma kp_fmovem_load m addr : in32 addr → kp (fmovem_load m addr) (λ _, True).
Proof.
  intros. unfold fmovem_load. eapply keep_bind; [|intros; by apply keep_ret].
  apply (keep_mloop I in32); [done|]. intros i v Hi%upto_range Hv. kgo.
Qed.
Lemma kp_fmovem_store m addr : in32 addr → kp (fmovem_store m addr) (λ _, True).
Proof.
  intros. unfold fmovem_store. eapply keep_bind; [|intros; by apply keep_ret].
  apply (keep_mloop I in32); [done|]. intros i v Hi%upto_range Hv. kgo.
Qed.
Hint Resolve kp_fmovem_predec kp_fmovem_load kp_fmovem_store : cfk.

Lemma kp_fmovem ext cl : valid ea_mode ea_reg → ends (exec_fmovem op ext cl).
Proof. intros. unfold exec_fmovem. kgo. Qed.

Lemma kp_fbcc : ends (exec_fbcc op).
Proof.
  unfold exec_fbcc. cbv zeta. kstep; [kgo|]. eapply (keep_bind I I _ _ _ (λ _, True)); [kgo|]. intros disp _.
  eapply keep_bind; [by apply (kp_getc _ (λ _, True))|]. intros b _. kgo.
Qed.
Hint Resolve kp_fmove_out kp_fmove_ctl kp_fmovem kp_fbcc : cfk.

Lemma kp_groupF : valid ea_mode ea_reg → ends (exec_groupF op).
Proof.
  intros. unfold exec_groupF. cbv zeta. do 2 (apply keep_if; intros _; [kgo|]). kstep; [kgo|].
  destruct (fpu_source _ _ _) as [m|] eqn:E; [apply kp_fpu_source in E; auto using field3|]; kgo.
Qed.

(** *** The decoder

    [I0] is what holds before the instruction, from which the privileged
    instructions are to be handled. *)

Record privileged_ok (I0 : cf_sys B → Prop) : Prop := {
  pv_in s : I0 s → I s;
  pv_halt : keep I0 J (privileged (modc (with_halted true))) (λ _, True);
  pv_rte : keep I0 J exec_rte (λ _, True);
  pv_stop : keep I0 J exec_stop (λ _, True);
  pv_from_sr mode reg : 0 <= mode < 8 → 0 <= reg < 8 → valid mode reg →
    keep I0 J (exec_move_from_sr mode reg) (λ _, True);
  pv_to_sr mode reg : 0 <= mode < 8 → 0 <= reg < 8 → valid mode reg →
    keep I0 J (exec_move_to_sr mode reg) (λ _, True);
  pv_usp o reg : 0 <= reg < 8 → keep I0 J (exec_move_usp o reg) (λ _, True);
  pv_movec o : keep I0 J (exec_movec o) (λ _, True)
}.

(** The addressing modes in the fields of an opcode word are valid, where its
    group has such fields. *)
Definition ea_valid (o : Z) : Prop :=
  match (o >> 12) .& 0xF with
  | 1 | 2 | 3 => valid ((o >> 3) .& 7) (o .& 7) ∧ valid ((o >> 6) .& 7) ((o >> 9) .& 7)
  | 6 | 14 => True
  | 7 => nz (o .& 0x100) = true → valid ((o >> 3) .& 7) (o .& 7)
  | _ => valid ((o >> 3) .& 7) (o .& 7)
  end.

Context (I0 : cf_sys B → Prop) (P : privileged_ok I0).

Lemma from_I0 (m : CF unit) : ends m → keep I0 J m (λ _, True).
Proof. intros Hm s Hs. by apply Hm, P. Qed.

Lemma kp_trap : ends (cf_exception (CF_VEC_TRAP (op .& 0xF))).
Proof. apply kp_exc. unfold CF_VEC_TRAP. pose proof (field4 op). unfold inw. lia. Qed.

Lemma kp_group4 : valid ea_mode ea_reg → keep I0 J (exec_group4 op) (λ _, True).
Proof.
  intros Hv. unfold exec_group4. cbv zeta.
  repeat lazymatch goal with |- keep _ _ (if _ then _ else _) _ => apply keep_if; intros _ end.
  all: first [ apply (pv_halt _ P) | apply (pv_rte _ P) | apply (pv_stop _ P)
             | apply (pv_from_sr _ P); [apply field3..|done] | apply (pv_to_sr _ P); [apply field3..|done]
             | apply (pv_usp _ P), field3 | apply (pv_movec _ P) | apply from_I0 ].
  all: auto using kp_illegal, kp_tas, kp_tst, kp_clr, kp_neg, kp_negx, kp_not, kp_ext_w, kp_ext_l,
    kp_extb, kp_swap, kp_pea, kp_movem, kp_lea, kp_link, kp_unlk, kp_rts, kp_trap, kp_jsr, kp_jmp,
    kp_move_to_ccr, kp_mul_l, kp_div_l.
  kgo.
Qed.

Theorem kp_exec : ea_valid op → keep I0 J (exec op) (λ _, True).
Proof.
  unfold ea_valid, exec. intros Hv. pose proof (field4 (op >> 12)) as Hg.
  assert (∃ n, (n < 16)%nat ∧ (op >> 12) .& 0xF = Z.of_nat n) as (n & Hn & E).
  { exists (Z.to_nat ((op >> 12) .& 0xF)). lia. }
  rewrite E in *. clear E Hg.
  let rec go n := (destruct n as [|n]; [|first [exfalso; lia|go n]]) in go n; simpl in Hv |- *.
  all: first [by apply kp_group4 | apply from_I0].
  all: try (destruct Hv as [Hv Hv']); auto using kp_move, kp_group5, kp_group6, kp_group7, kp_group8,
    kp_group9, kp_groupA, kp_groupB, kp_groupC, kp_groupD, kp_groupE, kp_groupF.
  case_match; auto using kp_bit_reg, kp_group0.
Qed.
End Frame.
