(* ===== verification/CfSafe.v ===== *)
(** * Safety of the ColdFire emulator

    What the emulator expects of its host ([BusLaws]), the exact effect of an
    exception, and that every instruction keeps the invariant of the processor
    without undefined behaviour of its own. *)

From S2P Require Import Prelude HostFloat CfState CfOps CfInt CfExec CfFrame.

(** ** The interface with the host *)

Class BusLaws {B} (cb : cf_callbacks B) (bus_ok : B → Prop) : Prop := {
  read8_ok b p : bus_ok b → in32 p → ∃ v b', read8 b p = Some (v, b') ∧ in32 v ∧ bus_ok b';
  read16_ok b p : bus_ok b → in32 p → ∃ v b', read16 b p = Some (v, b') ∧ in32 v ∧ bus_ok b';
  read32_ok b p : bus_ok b → in32 p → ∃ v b', read32 b p = Some (v, b') ∧ in32 v ∧ bus_ok b';
  write8_ok b p v : bus_ok b → in32 p → in32 v → ∃ b', write8 b p v = Some b' ∧ bus_ok b';
  write16_ok b p v : bus_ok b → in32 p → in32 v → ∃ b', write16 b p v = Some b' ∧ bus_ok b';
  write32_ok b p v : bus_ok b → in32 p → in32 v → ∃ b', write32 b p v = Some b' ∧ bus_ok b';
  hypercall_ok h c op b : hypercall = Some h → wf_cpu c → bus_ok b →
    ∃ r c' b', h c op b = Some (r, (c', b')) ∧ wf_cpu c' ∧ bus_ok b'
}.

Section Safe.
Context {B : Type} {cb : cf_callbacks B} {C : CImpl} `{!CTotal C}.
Context (bus_ok : B → Prop) `{BL : !BusLaws cb bus_ok}.
Implicit Types s : cf_sys B.

Abbreviation CF := (M (cf_sys B)).

Record Inv (s : cf_sys B) : Prop := {
  inv_wf : wf_cpu s.(cpu);
  inv_bus : bus_ok s.(bus)
}.

(** ** Elementary operations *)

Lemma wp_bus_rd (f : B → Z → option (Z * B)) p (Q : Z → cf_sys B → Prop) s :
  (∃ v b', f s.(bus) p = Some (v, b') ∧ in32 v ∧ bus_ok b') →
  (∀ v b', f s.(bus) p = Some (v, b') → in32 v → bus_ok b' → Q v (mk_sys s.(cpu) b')) →
  wp (bus_rd f p) Q s.
Proof. intros (v & b' & E & Hv & Hb) HQ. unfold wp, bus_rd. rewrite E. auto. Qed.

Lemma wp_bus_wr (f : B → Z → Z → option B) p x (Q : unit → cf_sys B → Prop) s :
  (∃ b', f s.(bus) p x = Some b' ∧ bus_ok b') →
  (∀ b', f s.(bus) p x = Some b' → bus_ok b' → Q tt (mk_sys s.(cpu) b')) →
  wp (bus_wr f p x) Q s.
Proof. intros (b' & E & Hb) HQ. unfold wp, bus_wr. rewrite E. auto. Qed.

Lemma wp_geta i v (Q : Z → cf_sys B → Prop) s :
  0 <= i → s.(cpu).(a) !! Z.to_nat i = Some v → Q v s → wp (geta i) Q s.
Proof.
  intros Hi E HQ. apply wp_bind, wp_gets. eapply wp_must; [|exact HQ]. by rewrite aget_lookup.
Qed.

Lemma wp_seta i v (Q : unit → cf_sys B → Prop) s :
  length s.(cpu).(a) = 8%nat → 0 <= i < 8 →
  Q tt (upd (with_a (<[Z.to_nat i := v]> s.(cpu).(a))) s) → wp (seta i v) Q s.
Proof.
  intros Hl Hi HQ. apply wp_bind, wp_gets, wp_bind. eapply wp_must; [|exact HQ].
  rewrite aset_in by lia. done.
Qed.

(** The stack pointers: of the current mode, and of the supervisor. *)
Definition sp_of (c : cf_cpu) : Z := default 0 (c.(a) !! 7%nat).
Definition super (c : cf_cpu) : bool := nz (c.(sr) .& CF_SR_S).
Definition ssp_of (c : cf_cpu) : Z := if super c then sp_of c else c.(other_a7).
Definition usp_of (c : cf_cpu) : Z := if super c then c.(other_a7) else sp_of c.

Lemma sp_lookup c : length c.(a) = 8%nat → c.(a) !! 7%nat = Some (sp_of c).
Proof.
  intros Hl. unfold sp_of. destruct (lookup_lt_is_Some_2 c.(a) 7) as [v ->]; [lia|done].
Qed.

Lemma wp_sp (Q : Z → cf_sys B → Prop) s :
  length s.(cpu).(a) = 8%nat → Q (sp_of s.(cpu)) s → wp (geta 7) Q s.
Proof. intros Hl HQ. eapply wp_geta; [lia|by apply sp_lookup|done]. Qed.

Definition with_sp (v : Z) (c : cf_cpu) : cf_cpu := with_a (<[7%nat := v]> c.(a)) c.

Lemma sp_with_sp v c : length c.(a) = 8%nat → sp_of (with_sp v c) = v.
Proof. intros. unfold sp_of, with_sp. simpl. by rewrite list_lookup_insert_eq by lia. Qed.

Lemma with_sp_sp v w c : with_sp v (with_sp w c) = with_sp v c.
Proof. unfold with_sp. simpl. rewrite list_insert_insert_eq. by destruct c. Qed.

Lemma wp_sub_sp n (Q : unit → cf_sys B → Prop) s :
  length s.(cpu).(a) = 8%nat → Q tt (upd (with_sp (u32 (sp_of s.(cpu) - n))) s) → wp (sub_sp n) Q s.
Proof. intros Hl HQ. apply wp_bind, wp_sp; [done|]. by apply wp_seta. Qed.

Lemma wp_add_sp n (Q : unit → cf_sys B → Prop) s :
  length s.(cpu).(a) = 8%nat → Q tt (upd (with_sp (u32 (sp_of s.(cpu) + n))) s) → wp (add_sp n) Q s.
Proof. intros Hl HQ. apply wp_bind, wp_sp; [done|]. by apply wp_seta. Qed.

(** The processor after its stack pointers were set for the status [new]. *)
Definition switched (new : Z) (c : cf_cpu) : cf_cpu :=
  if eqb (super c) (nz (new .& CF_SR_S)) then c
  else with_other_a7 (sp_of c) (with_sp c.(other_a7) c).

Lemma wp_update_sp new (Q : unit → cf_sys B → Prop) s :
  length s.(cpu).(a) = 8%nat → Q tt (upd (switched new) s) → wp (update_sp new) Q s.
Proof.
  intros Hl HQ. unfold update_sp. apply wp_bind, wp_gets. unfold switched, super, upd in HQ.
  apply wp_if; intros Hc.
  - apply negb_true_iff in Hc. rewrite Hc in HQ. apply wp_bind, wp_sp; [done|].
    apply wp_bind, wp_gets, wp_bind, wp_seta; [done..|]. by apply wp_mod.
  - apply negb_false_iff in Hc. rewrite Hc in HQ. apply wp_ret. by destruct s.
Qed.

(** ** Exceptions

    The frame pointer and the status register of the handler. *)

Definition exc_sr (c : cf_cpu) : Z := (c.(sr) .| CF_SR_S) .& not32 CF_SR_T.

Definition exc_fmt (c : cf_cpu) (vector : Z) : Z :=
  let fmt := u16 ((4 << 12) .| ((vector .& 0xFF) << 2)) in
  if vector =? CF_VEC_ACCESS_ERROR then u16 (fmt .| ((c.(fault_status) .& 0x3) << 10)) else fmt.

(** The processor that enters the handler [h]. *)
Definition entered (h : Z) (c : cf_cpu) : cf_cpu :=
  with_in_exception false (with_halted false (with_pc h
    (with_sp (u32 (ssp_of c - 8)) (with_sr (exc_sr c) (with_other_a7 (usp_of c) c))))).

Lemma u32_sub_l x y : u32 (u32 x - y) = u32 (x - y).
Proof. unfold u32. by rewrite Zminus_mod_idemp_l. Qed.

(** Pushing [n] bytes below a stack pointer that was pushed to before. *)
Lemma push_again x n v c :
  length c.(a) = 8%nat →
  with_sp (u32 (sp_of (with_sp (u32 (x - v)) c) - n)) (with_sp (u32 (x - v)) c) =
  with_sp (u32 (x - (v + n))) c.
Proof.
  intros Hl. rewrite sp_with_sp, with_sp_sp, u32_sub_l by done.
  by replace (x - v - n) with (x - (v + n)) by lia.
Qed.

(** The processor before the frame is pushed. *)
Definition exc_start (c : cf_cpu) : cf_cpu :=
  with_sr (exc_sr c) (switched (exc_sr c) (with_in_exception true c)).

Lemma exc_sr_super c : nz (exc_sr c .& CF_SR_S) = true.
Proof.
  unfold nz, exc_sr. apply negb_true_iff, Z.eqb_neq. intros E.
  assert (Z.testbit (((c.(sr) .| CF_SR_S) .& not32 CF_SR_T) .& CF_SR_S) 13 = true) as Ht.
  { rewrite !Z.land_spec, Z.lor_spec.
    change (Z.testbit CF_SR_S 13) with true. change (Z.testbit (not32 CF_SR_T) 13) with true.
    by rewrite orb_true_r. }
  by rewrite E in Ht.
Qed.

Lemma exc_start_eq c :
  length c.(a) = 8%nat →
  exc_start c = with_in_exception true
    (with_sp (ssp_of c) (with_sr (exc_sr c) (with_other_a7 (usp_of c) c))).
Proof.
  intros Hl. unfold exc_start, switched, ssp_of, usp_of. rewrite exc_sr_super.
  change (super (with_in_exception true c)) with (super c). destruct (super c); simpl.
  - unfold with_sp. simpl. rewrite list_insert_id by (by apply sp_lookup). by destruct c.
  - by destruct c.
Qed.

Lemma wp_enter_exception v (Q : unit → cf_sys B → Prop) s :
  Inv s → inw 8 v →
  (∀ b1 b2 b3 h b',
    write32 s.(bus) (u32 (ssp_of s.(cpu) - 4)) s.(cpu).(pc) = Some b1 →
    write16 b1 (u32 (ssp_of s.(cpu) - 6)) ((s.(cpu).(sr) .& 0xFFFF) .& 0xFFFF) = Some b2 →
    write16 b2 (u32 (ssp_of s.(cpu) - 8)) (exc_fmt s.(cpu) v .& 0xFFFF) = Some b3 →
    read32 b3 (u32 (s.(cpu).(vbr) + u32 (v * 4))) = Some (h, b') →
    in32 h → bus_ok b' → Q tt (mk_sys (entered h s.(cpu)) b')) →
  wp (enter_exception v) Q s.
Proof.
  intros [Hw Hb] Hv HQ. destruct s as [c b]. simpl in *. pose proof (wf_a_len _ Hw) as Hl.
  unfold enter_exception. apply wp_bind, wp_mod, wp_bind, wp_gets. cbv zeta.
  apply wp_bind, wp_update_sp; [done|]. apply wp_bind, wp_mod. unfold upd. simpl cpu. simpl bus.
  change (with_sr _ (switched _ (with_in_exception true c))) with (exc_start c).
  rewrite exc_start_eq by done. set (c0 := with_sr (exc_sr c) (with_other_a7 (usp_of c) c)).
  assert (length c0.(a) = 8%nat) as Hl0 by done.
  change (with_in_exception true (with_sp (ssp_of c) c0)) with (with_sp (ssp_of c) (with_in_exception true c0)).
  set (c1 := with_in_exception true c0). assert (length c1.(a) = 8%nat) as Hl1 by done.
  assert (∀ x, length (a (with_sp x c1)) = 8%nat) as Hlx by (intros; simpl; by rewrite length_insert).
  apply wp_bind, wp_sub_sp; [apply Hlx|]. unfold upd. simpl cpu. simpl bus.
  rewrite sp_with_sp, with_sp_sp by done.
  apply wp_bind, wp_sp; [apply Hlx|]. cbn [cpu bus]. rewrite sp_with_sp by done. apply wp_bind, wp_gets.
  apply wp_bind, wp_bus_wr.
  { apply (write32_ok b); [done|apply u32_in|exact (wf_pc _ Hw)]. }
  intros b1 E1 Hb1. apply wp_bind, wp_sub_sp; [apply Hlx|]. unfold upd. simpl cpu. simpl bus.
  rewrite push_again by done.
  apply wp_bind, wp_sp; [apply Hlx|]. cbn [cpu bus]. rewrite sp_with_sp by done. apply wp_bind, wp_bus_wr.
  { apply (write16_ok b1); [done|apply u32_in|]. auto with word. }
  intros b2 E2 Hb2. apply wp_bind, wp_sub_sp; [apply Hlx|]. unfold upd. simpl cpu. simpl bus.
  rewrite push_again by done. apply wp_bind, wp_gets.
  apply wp_bind, wp_sp; [apply Hlx|]. cbn [cpu bus]. rewrite sp_with_sp by done. apply wp_bind, wp_bus_wr.
  { apply (write16_ok b2); [done|apply u32_in|]. auto with word. }
  intros b3 E3 Hb3. apply wp_bind, wp_gets, wp_bind, wp_bus_rd.
  { apply (read32_ok b3); [done|apply u32_in]. }
  intros h b4 E4 Hh Hb4. apply wp_bind, wp_mod, wp_bind, wp_mod, wp_mod.
  by apply (HQ b1 b2 b3 h b4).
Qed.

(** Assignments keep the invariant. *)
Ltac wf_upd := intros; repeat match goal with H : wf_cpu _ |- _ => destruct H end; by split.

Lemma wf_set_trace t c : wf_cpu c → length t.(events) = 64%nat → wf_cpu (with_trace t c).
Proof. wf_upd. Qed.

Lemma wf_with_sp v c : wf_cpu c → in32 v → wf_cpu (with_sp v c).
Proof.
  intros Hc Hv. pose proof (wf_a_len _ Hc). pose proof (wf_a _ Hc). destruct Hc. split; try done.
  - simpl. by rewrite length_insert.
  - simpl. by apply Forall_insert.
Qed.

Lemma sp_in c : wf_cpu c → in32 (sp_of c).
Proof. intros Hc. eapply Forall_lookup_1; [apply (wf_a _ Hc)|]. apply sp_lookup, wf_a_len, Hc. Qed.

Lemma usp_in c : wf_cpu c → in32 (usp_of c).
Proof. intros Hc. unfold usp_of. case_match; [by apply wf_other|by apply sp_in]. Qed.

Lemma exc_sr_in c : wf_cpu c → in16 (exc_sr c).
Proof.
  intros Hc. apply inw_land_l, inw_lor; [by apply wf_sr|]. by vm_compute.
Qed.

Lemma wf_entered h c : wf_cpu c → in32 h → wf_cpu (entered h c).
Proof.
  intros Hc Hh. unfold entered.
  assert (wf_cpu (with_sr (exc_sr c) (with_other_a7 (usp_of c) c))) as H1.
  { pose proof (exc_sr_in _ Hc). pose proof (usp_in _ Hc). wf_upd. }
  pose proof (wf_with_sp (u32 (ssp_of c - 8)) _ H1 (u32_in _)) as H2. clear H1 Hc. destruct H2. by split.
Qed.

Lemma wf_push t ty p o x : length t.(events) = 64%nat → length (cf_trace_push t ty p o x None).(events) = 64%nat.
Proof. intros. simpl. by rewrite length_insert. Qed.

(** The bus after the opcode word was read for the trace, if it was. *)
Definition peeked (b b' : B) : Prop := b' = b ∨ ∃ p w, in32 p ∧ read16 b p = Some (w, b').

Lemma wp_exception v (Q : unit → cf_sys B → Prop) s :
  Inv s → inw 8 v →
  (∀ t b, Inv (mk_sys (with_trace t s.(cpu)) b) → peeked s.(bus) b →
    if s.(cpu).(in_exception) then
      Q tt (mk_sys (with_in_exception false (with_halted true (with_fault true (with_trace t s.(cpu))))) b)
    else wp (enter_exception v) Q (mk_sys (with_trace t s.(cpu)) b)) →
  wp (cf_exception v) Q s.
Proof.
  intros Hs Hv HQ. destruct s as [c b]. destruct Hs as [Hw Hb]. simpl in *. pose proof (wf_trace _ Hw) as Ht.
  unfold cf_exception. cbv zeta. apply wp_bind.
  assert (∀ t b', length t.(events) = 64%nat → bus_ok b' → peeked b b' →
    wp (inx ← getc in_exception;
        if inx : bool then push_event CF_TR_DOUBLE_FAULT 0;; modc (with_fault true);;
          modc (with_halted true);; modc (with_in_exception false)
        else enter_exception v) Q (mk_sys (with_trace t c) b')) as Hrest.
  { intros t b' Ht' Hb' Hpk. apply wp_bind, wp_gets. simpl.
    destruct (in_exception c) eqn:E.
    - apply wp_bind, wp_mod, wp_bind, wp_mod, wp_bind, wp_mod, wp_mod. simpl.
      apply (HQ (cf_trace_push t CF_TR_DOUBLE_FAULT c.(pc) 0 0 None) b'); [|done].
      split; [|done]. apply wf_set_trace; [done|]. by apply wf_push.
    - apply (HQ t b'); [|done]. split; [|done]. by apply wf_set_trace. }
  case_decide.
  - apply wp_bind, wp_gets, wp_bind. simpl. apply wp_if; intros Hp.
    + apply wp_bind, wp_bus_rd; [by apply read16_ok; [|apply u32_in]|]. intros w b1 E1 Hw1 Hb1.
      apply wp_ret, wp_mod. apply Hrest; [by apply wf_push|done|]. right. exists (u32 (c.(pc) - 2)), w.
      split; [apply u32_in|done].
    + apply wp_ret, wp_mod. apply Hrest; [by apply wf_push|done|by left].
  - apply wp_ret. specialize (Hrest c.(trace) b Ht Hb (or_introl eq_refl)). by destruct c.
Qed.

Lemma keep_exception v : inw 8 v → keep Inv Inv (cf_exception v) (λ _, True).
Proof.
  intros Hv s Hs. apply wp_exception; [done..|]. intros t b Hi _. case_match.
  - split; [|done]. destruct Hi as [Hw Hb]. split; [|done]. simpl in *. wf_upd.
  - apply wp_enter_exception; [done..|]. intros b1 b2 b3 h b' _ _ _ _ Hh Hb'. split; [|done].
    split; [|done]. by apply wf_entered; [apply Hi|].
Qed.

(** ** The frame of the invariant *)

Lemma Inv_upd f s : Inv s → wf_cpu (f s.(cpu)) → Inv (upd f s).
Proof. intros [Hw Hb] Hf. by split. Qed.

Lemma frame_inv : frame Inv Inv (λ _ _, True).
Proof.
  split; try (intros s l [Hw Hb]; intros; apply Inv_upd; [done|wf_upd]).
  - by intros s [].
  - done.
  - intros p Hp s [Hw Hb]. apply wp_bus_rd; [by apply read8_ok|]. by intros v b _ Hv Hb'.
  - intros p Hp s [Hw Hb]. apply wp_bus_rd; [by apply read16_ok|]. by intros v b _ Hv Hb'.
  - intros p Hp s [Hw Hb]. apply wp_bus_rd; [by apply read32_ok|]. by intros v b _ Hv Hb'.
  - intros p v Hp Hv s [Hw Hb]. apply wp_bus_wr; [by apply write8_ok|]. by intros b _ Hb'.
  - intros p v Hp Hv s [Hw Hb]. apply wp_bus_wr; [by apply write16_ok|]. by intros b _ Hb'.
  - intros p v Hp Hv s [Hw Hb]. apply wp_bus_wr; [by apply write32_ok|]. by intros b _ Hb'.
  - intros op s [Hw Hb]. unfold wp, try_hypercall. destruct hypercall as [h|] eqn:E; [|done].
    destruct (hypercall_ok h s.(cpu) op s.(bus) E Hw Hb) as (r & c' & b' & -> & Hw' & Hb'). done.
  - apply keep_exception.
  - eapply keep_bind; [by apply keep_exception|]. intros _ _ s [Hw Hb]. apply wp_mod. split; [|done].
    apply Inv_upd; [done|]. wf_upd.
  - intros _ _ _ _ _. by apply keep_exception.
Qed.

(** ** Privileged instructions *)

Lemma keep_modc f : (∀ c, wf_cpu c → wf_cpu (f c)) → keep Inv Inv (modc f) (λ _, True).
Proof. intros Hf s Hs. apply wp_mod. split; [|done]. apply Inv_upd; [done|]. apply Hf, Hs. Qed.

Lemma wf_switched new c : wf_cpu c → wf_cpu (switched new c).
Proof.
  intros Hc. unfold switched. case_match; [done|]. pose proof (sp_in _ Hc).
  pose proof (wf_with_sp _ _ Hc (wf_other _ Hc)) as H2. destruct H2. by split.
Qed.

Lemma keep_update_sp new : keep Inv Inv (update_sp new) (λ _, True).
Proof.
  intros s Hs. apply wp_update_sp; [by apply wf_a_len, Hs|]. split; [|done].
  apply Inv_upd; [done|]. apply wf_switched, Hs.
Qed.

Lemma keep_with_sr v : in16 v → keep Inv Inv (modc (with_sr v)) (λ _, True).
Proof. intros. apply keep_modc. wf_upd. Qed.
Lemma keep_with_pc v : in32 v → keep Inv Inv (modc (with_pc v)) (λ _, True).
Proof. intros. apply keep_modc. wf_upd. Qed.

Lemma keep_privileged (k : CF unit) : keep Inv Inv k (λ _, True) → keep Inv Inv (privileged k) (λ _, True).
Proof.
  intros Hk s Hs. apply wp_bind, wp_gets, wp_if; intros _; [by apply Hk|]. by apply keep_exception.
Qed.


Lemma keep_rte : keep Inv Inv exec_rte (λ _, True).
Proof.
  apply keep_privileged. eapply keep_bind; [by apply (kp_geta _ _ _ frame_inv)|]. intros sp Hsp.
  eapply keep_bind; [by apply (kp_read16 _ _ _ frame_inv)|]. intros fmt Hfmt. cbv zeta.
  apply keep_if; intros _; [by apply keep_exception|].
  eapply keep_bind; [by apply (kp_add_sp _ _ _ frame_inv)|]. intros _ _.
  eapply keep_bind; [by apply (kp_geta _ _ _ frame_inv)|]. intros sp1 Hsp1.
  eapply keep_bind; [by apply (kp_read16 _ _ _ frame_inv)|]. intros new_sr Hsr.
  eapply keep_bind; [by apply (kp_add_sp _ _ _ frame_inv)|]. intros _ _.
  eapply keep_bind; [by apply (kp_geta _ _ _ frame_inv)|]. intros sp2 Hsp2.
  eapply keep_bind; [by apply (kp_read32 _ _ _ frame_inv)|]. intros new_pc Hpc.
  eapply keep_bind; [by apply (kp_add_sp _ _ _ frame_inv)|]. intros _ _.
  eapply keep_bind; [apply keep_update_sp|]. intros _ _.
  eapply keep_bind; [by apply keep_with_sr|]. intros _ _. by apply keep_with_pc.
Qed.

Lemma keep_stop : keep Inv Inv exec_stop (λ _, True).
Proof.
  apply keep_privileged. eapply keep_bind; [apply (kp_fetch16 _ _ _ frame_inv)|]. intros new_sr Hsr.
  eapply keep_bind; [apply keep_update_sp|]. intros _ _.
  eapply keep_bind; [by apply keep_with_sr|]. intros _ _. apply keep_modc. wf_upd.
Qed.

Lemma keep_from_sr mode reg :
  0 <= mode < 8 → 0 <= reg < 8 → keep Inv Inv (exec_move_from_sr mode reg) (λ _, True).
Proof.
  intros. apply keep_privileged. eapply keep_bind; [by apply (kp_decode_ea _ _ _ frame_inv)|].
  intros loc Hloc. eapply keep_bind; [apply keep_gets; intros s Hs; exact (wf_sr _ (inv_wf _ Hs))|]. intros v Hv.
  apply (kp_write_ea _ _ _ frame_inv); [done|]. auto with word.
Qed.

Lemma keep_to_sr mode reg :
  0 <= mode < 8 → 0 <= reg < 8 → keep Inv Inv (exec_move_to_sr mode reg) (λ _, True).
Proof.
  intros. apply keep_privileged. eapply keep_bind; [by apply (kp_ea_read _ _ _ frame_inv)|].
  intros v Hv. cbv zeta. eapply keep_bind; [apply keep_update_sp|]. intros _ _.
  apply keep_with_sr. auto with word.
Qed.

Lemma keep_usp op reg : 0 <= reg < 8 → keep Inv Inv (exec_move_usp op reg) (λ _, True).
Proof.
  intros. apply keep_privileged. cbv zeta. apply keep_if; intros _.
  - eapply keep_bind; [by apply (kp_geta _ _ _ frame_inv)|]. intros v Hv. apply keep_modc. wf_upd.
  - eapply keep_bind; [apply keep_gets; intros s Hs; exact (wf_other _ (inv_wf _ Hs))|]. intros v Hv.
    by apply (kp_seta _ _ _ frame_inv).
Qed.

Lemma keep_movec op : keep Inv Inv (exec_movec op) (λ _, True).
Proof.
  apply keep_privileged. cbv zeta. eapply keep_bind; [apply (kp_fetch16 _ _ _ frame_inv)|]. intros ext Hext.
  pose proof (field3 ((ext >> 12) .& 0xF)) as Hr.
  assert (∀ v, in32 v → keep Inv Inv (if 8 <=? (ext >> 12) .& 0xF then seta (((ext >> 12) .& 0xF) .& 7) v
                          else setd (((ext >> 12) .& 0xF) .& 7) v) (λ _, True)) as Hset.
  { intros v Hv. apply keep_if; intros _; [by apply (kp_seta _ _ _ frame_inv)|by apply (kp_setd _ _ _ frame_inv)]. }
  assert (in32 0) by (by vm_compute).
  apply keep_if; intros _.
  - assert (∀ f, (∀ c, wf_cpu c → in32 (f c)) → keep Inv Inv (v ← getc f;
        if 8 <=? (ext >> 12) .& 0xF then seta (((ext >> 12) .& 0xF) .& 7) v
        else setd (((ext >> 12) .& 0xF) .& 7) v) (λ _, True)) as Hget.
    { intros f Hf. eapply keep_bind; [apply (keep_gets _ _ in32); intros s Hs; apply Hf, Hs|]. apply Hset. }
    pose proof (Hget cacr wf_cacr). pose proof (Hget vbr wf_vbr). repeat case_match; auto.
  - eapply (keep_bind Inv Inv _ _ _ in32).
    + apply keep_if; intros _; [by apply (kp_geta _ _ _ frame_inv)|by apply (kp_getd _ _ _ frame_inv)].
    + intros v Hv. assert (in32 (v .& 0xFFF00000)) by auto with word.
      assert (keep Inv Inv (modc (with_cacr v)) (λ _, True)) by (apply keep_modc; wf_upd).
      assert (keep Inv Inv (modc (with_vbr (v .& 0xFFF00000))) (λ _, True)) by (apply keep_modc; wf_upd).
      repeat case_match; auto using keep_ret.
Qed.

Lemma privileged_inv : privileged_ok Inv Inv (λ _ _, True) Inv.
Proof.
  split; auto using keep_rte, keep_stop, keep_from_sr, keep_to_sr, keep_usp, keep_movec.
  apply keep_privileged, keep_modc. wf_upd.
Qed.

(** ** Runs *)

Lemma keep_exec op : in16 op → keep Inv Inv (exec op) (λ _, True).
Proof.
  intros Hop. apply (kp_exec Inv Inv (λ _ _, True) frame_inv op Inv privileged_inv).
  unfold ea_valid. by repeat case_match.
Qed.

Lemma keep_step : keep Inv Inv cf_step (λ r, r = -1 ∨ r = 0).
Proof.
  eapply keep_bind; [by apply (keep_gets _ _ (λ _, True))|]. intros st _. apply keep_if; intros _; [apply keep_ret; auto|].
  eapply keep_bind; [apply (kp_fetch16 _ _ _ frame_inv)|]. intros op Hop.
  eapply keep_bind; [by apply keep_exec|]. intros _ _.
  eapply keep_bind; [apply keep_modc; intros c Hc; pose proof (u64_in (c.(cycles) + 1)); wf_upd|]. intros _ _.
  eapply keep_bind; [by apply (keep_gets _ _ (λ _, True))|]. intros b _. apply keep_ret. case_match; auto.
Qed.

Lemma keep_run_loop n i : keep Inv Inv (cf_run_loop n i) (λ r, i <= r <= i + Z.of_nat n).
Proof.
  revert i. induction n as [|n IH]; intros i; [apply keep_ret; lia|].
  eapply keep_bind; [apply keep_step|]. intros r Hr. apply keep_if; intros Hc; [apply keep_ret; lia|].
  eapply keep_mono; [apply IH|done|]. intros j Hj. simpl in Hj |- *. lia.
Qed.

Lemma keep_reset : keep Inv Inv cf_reset (λ _, True).
Proof.
  assert (∀ f, (∀ c, wf_cpu c → wf_cpu (f c)) → ∀ k : CF unit,
    keep Inv Inv k (λ _, True) → keep Inv Inv (modc f;; k) (λ _, True)) as Hm.
  { intros f Hf k Hk. eapply keep_bind; [by apply keep_modc|]. done. }
  assert (in16 (CF_SR_S .| (7 << 8)) ∧ in64 0 ∧ in32 0 ∧ in32 0xFFFFFFFF ∧ in48s 0) as (? & ? & ? & ? & ?).
  { repeat split; by vm_compute. }
  unfold cf_reset. apply Hm; [wf_upd|].
  eapply keep_bind; [apply (keep_gets _ _ in32); intros s Hs; apply wf_vbr, Hs|]. intros vb Hvb.
  eapply keep_bind; [by apply (kp_read32 _ _ _ frame_inv), u32_in|]. intros sp Hsp.
  eapply keep_bind; [by apply (kp_seta _ _ _ frame_inv)|]. intros _ _.
  eapply keep_bind; [apply (keep_gets _ _ in32); intros s Hs; apply wf_vbr, Hs|]. intros vb' Hvb'.
  eapply keep_bind; [by apply (kp_read32 _ _ _ frame_inv), u32_in|]. intros p Hp.
  do 5 (apply Hm; [wf_upd|]).
  eapply keep_bind; [apply keep_mfor; intros i Hi%upto_range; by apply (kp_setfp _ _ _ frame_inv)|]. intros _ _.
  do 3 (apply Hm; [wf_upd|]).
  eapply keep_bind; [apply keep_mfor; intros i Hi%upto_range; by apply (kp_setacc _ _ _ frame_inv)|]. intros _ _.
  apply Hm; [wf_upd|]. apply keep_modc. wf_upd.
Qed.
End Safe.
