(* ===== verification/CfUser.v ===== *)
(** * Confinement of user programs

    A step of a program in user mode changes nothing that belongs to the
    supervisor: the control registers, the system byte of the status register
    and the supervisor stack pointer.  It can only enter an exception handler
    through the vector table.  This needs instructions whose addressing modes
    exist: for the others the emulator takes the exception and then goes on with
    the instruction, in supervisor mode. *)

From S2P Require Import Prelude HostFloat CfState CfOps CfInt CfExec CfFrame CfSafe.

(** Modes 7.5 to 7.7 do not exist. *)
Definition valid_mode (mode reg : Z) : Prop := ¬ (mode = 7 ∧ 5 <= reg).

(** What a hypercall may not touch. *)
Record confined (c c' : cf_cpu) : Prop := {
  cf_vbr : c'.(vbr) = c.(vbr);
  cf_cacr : c'.(cacr) = c.(cacr);
  cf_sr : c'.(sr) .& 0xFF00 = c.(sr) .& 0xFF00;
  cf_other : c'.(other_a7) = c.(other_a7);
  cf_inx : c'.(in_exception) = c.(in_exception);
  cf_halted : c'.(halted) = c.(halted);
  cf_fault : c'.(fault) = c.(fault)
}.

Class HypercallConfined {B} (cb : cf_callbacks B) : Prop :=
  hypercall_confined h c op b r c' b' :
    hypercall = Some h → h c op b = Some (r, (c', b')) → confined c c'.

(** The processor [c'] is at the start of the handler of a vector, which it was
    sent to from a state of user mode like [c]. *)
Record handler_entered {B} (cb : cf_callbacks B) (c c' : cf_cpu) : Prop := {
  he_vbr : c'.(vbr) = c.(vbr);
  he_cacr : c'.(cacr) = c.(cacr);
  he_sr : c'.(sr) .& 0xFF00 = exc_sr c .& 0xFF00;
  he_sp : sp_of c' = u32 (c.(other_a7) - 8);
  he_inx : c'.(in_exception) = false;
  he_halted : c'.(halted) = false;
  he_fault : c'.(fault) = c.(fault);
  he_pc : ∃ v b b', inw 8 v ∧ read32 b (u32 (c.(vbr) + u32 (v * 4))) = Some (c'.(pc), b')
}.

Section User.
Context {B : Type} {cb : cf_callbacks B} {C : CImpl} `{!CTotal C}.
Context (bus_ok : B → Prop) `{BL : !BusLaws cb bus_ok} `{HC : !HypercallConfined cb}.
Context (c0 : cf_cpu) (Huser : super c0 = false).
Implicit Types s : cf_sys B.

Abbreviation Inv := (Inv bus_ok).

(** Before and inside an instruction: still in user mode, or stopped by a
    fault. *)
Record U (s : cf_sys B) : Prop := {
  u_inv : Inv s;
  u_conf : confined c0 s.(cpu)
}.

Record UF (s : cf_sys B) : Prop := {
  uf_inv : Inv s;
  uf_vbr : s.(cpu).(vbr) = c0.(vbr);
  uf_cacr : s.(cpu).(cacr) = c0.(cacr);
  uf_or : confined c0 s.(cpu) ∨ s.(cpu).(fault) = true
}.

Definition UJ (s : cf_sys B) : Prop := UF s ∨ Inv s ∧ handler_entered cb c0 s.(cpu).

Lemma U_UF s : U s → UF s.
Proof. intros [Hi Hc]. split; [done|apply Hc..|by left]. Qed.

Lemma sr_super sr sr' : sr' .& 0xFF00 = sr .& 0xFF00 → nz (sr' .& CF_SR_S) = nz (sr .& CF_SR_S).
Proof.
  intros E. change CF_SR_S with (0xFF00 .& CF_SR_S). by rewrite !Z.land_assoc, E.
Qed.

Lemma exc_sr_high c : c.(sr) .& 0xFF00 = c0.(sr) .& 0xFF00 → exc_sr c .& 0xFF00 = exc_sr c0 .& 0xFF00.
Proof.
  intros E. unfold exc_sr.
  assert (∀ v, ((v .| CF_SR_S) .& not32 CF_SR_T) .& 0xFF00 = ((v .& 0xFF00) .| CF_SR_S) .& (not32 CF_SR_T .& 0xFF00)) as H.
  { intros v. apply Z.bits_inj'. intros i Hi. rewrite !Z.land_spec, !Z.lor_spec, !Z.land_spec. btauto. }
  by rewrite !H, E.
Qed.

(** An assignment to a field that is not the supervisor's. *)
Lemma uf_upd f s :
  (Inv s → Inv (upd f s)) → (∀ c, confined c (f c)) → UF s → UF (upd f s).
Proof.
  intros Hi Hf [Hs Hv Hc Ho]. destruct (Hf s.(cpu)) as [F1 F2 F3 F4 F5 F6 F7]. split; [auto|..]; simpl.
  - by rewrite F1.
  - by rewrite F2.
  - destruct Ho as [[]|Hx]; [left; split; congruence|right; congruence].
Qed.

Lemma uf_keep {A} (m : M (cf_sys B) A) Q :
  keep Inv Inv m Q → (∀ s, wp m (λ _ s', s'.(cpu) = s.(cpu)) s ∨ m s = None) → keep UF UF m Q.
Proof.
  intros Hm Hc s [Hs Hv Hcc Ho]. specialize (Hm s Hs). destruct (Hc s) as [Hx|Hx].
  - eapply wp_mono; [apply (wp_and _ _ _ _ Hm Hx)|]. intros a s' [[Hi HQ] E]. simpl in E.
    split; [|done]. split; [done|..]; rewrite E; done.
  - unfold wp in Hm. by rewrite Hx in Hm.
Qed.

Lemma rd_cpu f p s : wp (bus_rd f p) (λ _ s', s'.(cpu) = s.(cpu)) s ∨ bus_rd f p s = None.
Proof. unfold wp, bus_rd. destruct (f _ _) as [[]|]; auto. Qed.
Lemma wr_cpu f p v s : wp (bus_wr f p v) (λ _ s', s'.(cpu) = s.(cpu)) s ∨ bus_wr f p v s = None.
Proof. unfold wp, bus_wr. destruct (f _ _ _) as [|]; auto. Qed.

(** An exception of a user program enters a handler; after a fault nothing
    brings it back. *)
Lemma uj_exception v : inw 8 v → keep UF UJ (cf_exception v) (λ _, True).
Proof.
  intros Hv s [Hs Hvbr Hcacr Ho]. apply (wp_exception bus_ok); [done..|]. intros t b Hi _.
  assert (Inv (mk_sys (with_in_exception false (with_halted true (with_fault true (with_trace t s.(cpu))))) b)) as Hd.
  { destruct Hi as [[] ?]. split; [|done]. by split. }
  destruct (in_exception s.(cpu)) eqn:Ex.
  { split; [|done]. left. split; [done..|]. by right. }
  apply (wp_enter_exception bus_ok); [done..|]. intros b1 b2 b3 h b' _ _ _ Eh Hh Hb'. split; [|done].
  assert (Inv (mk_sys (entered h (with_trace t s.(cpu))) b')) as He.
  { split; [|done]. by apply wf_entered; [apply Hi|]. }
  destruct Ho as [[E1 E2 E3 E4 E5 E6 E7]|Hf].
  - right. split; [done|]. split; simpl; [done|done| | |done|done|done|].
    + by apply exc_sr_high.
    + change (sp_of (with_sp (u32 (ssp_of s.(cpu) - 8)) s.(cpu)) = u32 (c0.(other_a7) - 8)).
      rewrite sp_with_sp by (apply wf_a_len, Hs). unfold ssp_of, super.
      rewrite (sr_super _ _ E3). unfold super in Huser. rewrite Huser. by rewrite E4.
    + exists v, b3, b'. split; [done|]. by rewrite <-Hvbr.
  - left. split; [done..|]. by right.
Qed.

Lemma frame_user : frame UF UJ valid_mode.
Proof.
  pose proof (frame_inv bus_ok) as FI.
  split; try (intros s l Hs; intros; apply uf_upd; [intros [[] ?]; split; [by split|done]|intros []; by split|done]).
  - intros s Hs. apply Hs.
  - intros s Hs. by left.
  - intros s v Hs Hv Hh. destruct Hs as [Hs Hvb Hc Ho]. split; [by apply (fr_sr _ _ _ FI)|done|done|].
    simpl. destruct Ho as [[E1 E2 E3 E4 E5 E6 E7]|Hx]; [left|by right]. split; simpl; try done. by rewrite Hh.
  - intros p Hp. apply uf_keep; [by apply FI|]. intros s. apply rd_cpu.
  - intros p Hp. apply uf_keep; [by apply FI|]. intros s. apply rd_cpu.
  - intros p Hp. apply uf_keep; [by apply FI|]. intros s. apply rd_cpu.
  - intros p v Hp Hv. apply uf_keep; [by apply FI|]. intros s. apply wr_cpu.
  - intros p v Hp Hv. apply uf_keep; [by apply FI|]. intros s. apply wr_cpu.
  - intros p v Hp Hv. apply uf_keep; [by apply FI|]. intros s. apply wr_cpu.
  - intros op s [Hs Hvb Hc Ho]. unfold wp, try_hypercall. destruct hypercall as [h|] eqn:E; [|by split].
    destruct (hypercall_ok h s.(cpu) op s.(bus) E) as (r & c' & b' & Eh & Hw' & Hb'); [apply Hs..|].
    rewrite Eh. destruct (hypercall_confined _ _ _ _ _ _ _ E Eh) as [F1 F2 F3 F4 F5 F6 F7].
    split; [|done]. split; simpl; [done|congruence..|].
    destruct Ho as [[E1 E2 E3 E4 E5 E6 E7]|Hx]; [left; split; congruence|right; congruence].
  - apply uj_exception.
  - eapply keep_bind; [by apply uj_exception|]. intros _ _ s Hs. apply wp_mod. split; [|done].
    assert (Inv s → Inv (mk_sys (with_fault true s.(cpu)) s.(bus))) as Hi.
    { intros [[] ?]. split; [|done]. by split. }
    destruct Hs as [[]|[? []]]; (split; [auto|done|done|by right]).
  - intros mode reg Hm Hm7 Hr. by destruct Hm.
Qed.

(** Every privileged instruction is refused. *)
Lemma user_refused (k : M (cf_sys B) unit) : keep U UJ (privileged k) (λ _, True).
Proof.
  intros s Hs. apply wp_bind, wp_gets. destruct (u_conf _ Hs) as [_ _ E _ _ _ _].
  rewrite (sr_super _ _ E). unfold super in Huser. rewrite Huser.
  by apply uj_exception; [|apply U_UF].
Qed.

Lemma privileged_user : privileged_ok UF UJ valid_mode U.
Proof. split; [apply U_UF|..]; intros; apply user_refused. Qed.

(** The opcode word that the next step will fetch. *)
Definition next_op_ok s : Prop :=
  ∀ w b', read16 s.(bus) s.(cpu).(pc) = Some (w, b') → ea_valid valid_mode (u16 (w .& 0xFFFF)).

Lemma user_step b :
  Inv (mk_sys c0 b) → c0.(halted) = false → c0.(fault) = false → next_op_ok (mk_sys c0 b) →
  wp cf_step (λ _, UJ) (mk_sys c0 b).
Proof.
  intros Hi Hh Hf Hop. unfold cf_step. apply wp_bind, wp_gets. simpl. unfold stopped. rewrite Hh, Hf. simpl.
  apply wp_bind. unfold fetch16. apply wp_bind, wp_gets. simpl. apply wp_bind. unfold bus_read16. apply wp_bind.
  apply (wp_bus_rd bus_ok); [apply (read16_ok b); apply Hi || (apply wf_pc, Hi)|].
  intros w b' Ew Hw Hb'. apply wp_ret, wp_bind, wp_mod. simpl. apply wp_ret, wp_bind.
  eapply wp_mono; [apply (kp_exec _ _ _ frame_user (u16 (w .& 0xFFFF)) _ privileged_user)|].
  - by apply (Hop w b').
  - split; [|by split]. destruct Hi as [Hwf _]. pose proof (u32_in (c0.(pc) + 2)). destruct Hwf.
    split; [|done]. by split.
  - intros _ s [HJ _]. apply wp_bind, wp_mod, wp_bind, wp_gets, wp_ret.
    assert (Inv s → Inv (mk_sys (with_cycles (u64 (s.(cpu).(cycles) + 1)) s.(cpu)) s.(bus))) as Hc.
    { pose proof (u64_in (s.(cpu).(cycles) + 1)). intros [[] ?]. split; [|done]. by split. }
    destruct HJ as [[H1 H2 H3 H4]|[H1 [E1 E2 E3 E4 E5 E6 E7 E8]]]; [left|right].
    + split; [by apply Hc|done|done|]. destruct H4 as [[]|?]; [left; by split|by right].
    + split; [by apply Hc|]. by split.
Qed.
End User.
