(* ===== verification/CfFlags.v ===== *)
(** * Condition codes and shifts of the ColdFire emulator

    The status register after a comparison, an addition or a subtraction against
    the arithmetic of the operands, and the shift loops against closed forms. *)

From S2P Require Import Prelude HostFloat CfState CfOps CfInt CfExec CfFrame CfSafe.

(** ** Bits *)

Lemma nz_bit x i : 0 <= i → nz ((x >> i) .& 1) = Z.testbit x i.
Proof.
  intros Hi. rewrite <-(Z.add_0_l i) at 2. rewrite <-Z.shiftr_spec by lia.
  change 1 with (Z.ones 1). rewrite Z.land_ones by lia. rewrite Z.bit0_odd, <-Z.bit0_mod, Z.bit0_odd.
  unfold nz. by destruct (Z.odd (x >> i)).
Qed.

Lemma nz_bit0 x : nz (x .& 1) = Z.testbit x 0.
Proof. rewrite <-(nz_bit x 0) by lia. by rewrite Z.shiftr_0_r. Qed.

Lemma land_pow2 x i : 0 <= i → x .& (2 ^ i) = if Z.testbit x i then 2 ^ i else 0.
Proof.
  intros Hi. apply Z.bits_inj'. intros j Hj. rewrite Z.land_spec, Z.pow2_bits_eqb by lia.
  destruct (Z.eqb_spec i j) as [<-|Hn].
  - destruct (Z.testbit x i); [by rewrite Z.pow2_bits_true|by rewrite Z.bits_0].
  - rewrite andb_false_r. destruct (Z.testbit x i); [|by rewrite Z.bits_0].
    by rewrite Z.pow2_bits_false by lia.
Qed.

Lemma nz_pow2 x i : 0 <= i → nz (x .& (2 ^ i)) = Z.testbit x i.
Proof.
  intros Hi. rewrite land_pow2 by done. unfold nz. assert (0 < 2 ^ i) by (apply Z.pow_pos_nonneg; lia).
  case_match; [|done]. apply negb_true_iff, Z.eqb_neq. lia.
Qed.

Lemma pow2_eqb x y i : 0 <= i → (x .& 2 ^ i =? y .& 2 ^ i) = eqb (Z.testbit x i) (Z.testbit y i).
Proof.
  intros Hi. rewrite !land_pow2 by done. assert (0 < 2 ^ i) by (apply Z.pow_pos_nonneg; lia).
  destruct (Z.testbit x i), (Z.testbit y i); [apply Z.eqb_refl|apply Z.eqb_neq; lia..|done].
Qed.

(** The top bit of an integer of [w] bits. *)
Lemma sign_top_bit w x : 0 < w → inw w x → Z.testbit x (w - 1) = (2 ^ (w - 1) <=? x).
Proof.
  intros Hw [H0 Hx]. assert (2 ^ w = 2 * 2 ^ (w - 1)) as E.
  { rewrite <-Z.pow_succ_r by lia. f_equal. lia. }
  rewrite Z.testbit_odd, Z.shiftr_div_pow2 by lia. destruct (Z.leb_spec (2 ^ (w - 1)) x).
  - replace (x / 2 ^ (w - 1)) with 1; [done|].
    apply (Z.div_unique_pos x (2 ^ (w - 1)) 1 (x - 2 ^ (w - 1))); lia.
  - rewrite Z.div_small by lia. done.
Qed.

Lemma testbit_mod x w i : 0 <= i < w → Z.testbit (x mod 2 ^ w) i = Z.testbit x i.
Proof. intros. apply Z.mod_pow2_bits_low; lia. Qed.

(** ** The status register *)

(** The width of an operand. *)
Definition width (sz : Z) : Z := sz * 8.

Lemma size_msb_pow2 sz : is_size sz → size_msb sz = 2 ^ (width sz - 1).
Proof. by intros [-> | [-> | ->]]. Qed.
Lemma width_range sz : is_size sz → 8 <= width sz <= 32.
Proof. intros [-> | [-> | ->]]; by vm_compute. Qed.
Lemma size_mask_mod v sz : is_size sz → in32 v → size_mask v sz = v mod 2 ^ width sz.
Proof.
  intros [-> | [-> | ->]] Hv; unfold size_mask, width; simpl.
  - change 255 with (Z.ones 8). by rewrite Z.land_ones.
  - change 65535 with (Z.ones 16). by rewrite Z.land_ones.
  - symmetry. by apply Z.mod_small.
Qed.

(** [sr] with the flag [2 ^ i] set to [b]. *)
Definition setf (i : Z) (b : bool) (sr : Z) : Z := if b then sr .| 2 ^ i else sr .& not32 (2 ^ i).

Lemma setf_bit i b sr j :
  0 <= i < 32 → 0 <= j < 32 → Z.testbit (setf i b sr) j = if i =? j then b else Z.testbit sr j.
Proof.
  intros Hi Hj. unfold setf. destruct b.
  - rewrite Z.lor_spec, Z.pow2_bits_eqb by lia. destruct (Z.eqb_spec i j); [apply orb_true_r|apply orb_false_r].
  - assert (in32 (2 ^ i)). { split; [lia|]. apply Z.pow_lt_mono_r; lia. }
    rewrite Z.land_spec, not32_spec by done. unfold u32. change 4294967296 with (2 ^ 32).
    rewrite testbit_mod by lia. rewrite Z.lnot_spec, Z.pow2_bits_eqb by lia.
    destruct (Z.eqb_spec i j); [apply andb_false_r|apply andb_true_r].
Qed.

Section Flags.
Context {B : Type} {cb : cf_callbacks B}.
Implicit Types s : cf_sys B.

Lemma set_flag_run i b s :
  set_flag (2 ^ i) b s = Some (tt, upd (with_sr (setf i b s.(cpu).(sr))) s).
Proof. destruct b; done. Qed.

Lemma clear_run i s : clear_flags (2 ^ i) s = Some (tt, upd (with_sr (setf i false s.(cpu).(sr))) s).
Proof. done. Qed.

(** The flags N, Z, V, C as set from the sign bits [sm], [dm], [rm] of source,
    destination and result. *)
Definition nzvc (n z v c : bool) (sr : Z) : Z := setf 0 c (setf 1 v (setf 2 z (setf 3 n sr))).

Lemma with_sr_sr (x y : Z) (t : cf_cpu) : with_sr x (with_sr y t) = with_sr x t.
Proof. by destruct t. Qed.

Lemma set_nz_run r sz s :
  is_size sz → in32 r →
  set_nz r sz s = Some (tt, upd (with_sr (setf 2 (r mod 2 ^ width sz =? 0)
    (setf 3 (Z.testbit r (width sz - 1)) s.(cpu).(sr)))) s).
Proof.
  intros Hsz Hr. pose proof (width_range _ Hsz). unfold set_nz. rewrite size_mask_mod, size_msb_pow2 by done.
  rewrite nz_pow2, testbit_mod by lia. change CF_SR_N with (2 ^ 3). change CF_SR_Z with (2 ^ 2).
  rewrite (bind_run _ _ _ _ _ (set_flag_run 3 _ s)). rewrite set_flag_run. unfold upd. simpl.
  by rewrite with_sr_sr.
Qed.

Lemma flags_sub_run src dst sz s :
  is_size sz → inw (width sz) src → inw (width sz) dst →
  let w := width sz in
  let res := u32 (dst - src) in
  let r := nzvc (Z.testbit res (w - 1)) (res mod 2 ^ w =? 0)
             (negb (eqb (Z.testbit src (w - 1)) (Z.testbit dst (w - 1))) &&
              eqb (Z.testbit res (w - 1)) (Z.testbit src (w - 1)))
             ((negb (Z.testbit dst (w - 1)) && Z.testbit src (w - 1)) ||
              (Z.testbit res (w - 1) && (negb (Z.testbit dst (w - 1)) || Z.testbit src (w - 1))))
             s.(cpu).(sr) in
  set_flags_cmp src dst res sz s = Some (tt, upd (with_sr r) s).
Proof.
  intros Hsz Hs Hd w res r. pose proof (width_range _ Hsz). unfold set_flags_cmp. rewrite size_msb_pow2 by done.
  rewrite !nz_pow2, !pow2_eqb by (fold w; lia). fold w.
  rewrite (bind_run _ _ _ _ _ (set_nz_run res sz s Hsz (u32_in _))).
  change CF_SR_V with (2 ^ 1). change CF_SR_C with (2 ^ 0).
  rewrite (bind_run _ _ _ _ _ (set_flag_run 1 _ _)), set_flag_run. unfold upd. simpl. by rewrite !with_sr_sr.
Qed.

Lemma flags_add_run src dst sz s :
  is_size sz → inw (width sz) src → inw (width sz) dst →
  let w := width sz in
  let res := u32 (dst + src) in
  let c := (Z.testbit src (w - 1) && Z.testbit dst (w - 1)) ||
           (negb (Z.testbit res (w - 1)) && (Z.testbit src (w - 1) || Z.testbit dst (w - 1))) in
  let r := nzvc (Z.testbit res (w - 1)) (res mod 2 ^ w =? 0)
             (eqb (Z.testbit src (w - 1)) (Z.testbit dst (w - 1)) &&
              negb (eqb (Z.testbit res (w - 1)) (Z.testbit src (w - 1)))) c s.(cpu).(sr) in
  set_flags_add src dst res sz s = Some (tt, upd (with_sr (setf 4 c r)) s).
Proof.
  intros Hsz Hs Hd w res c r. pose proof (width_range _ Hsz). unfold set_flags_add. rewrite size_msb_pow2 by done.
  rewrite !nz_pow2, !pow2_eqb by (fold w; lia). fold w.
  rewrite (bind_run _ _ _ _ _ (set_nz_run res sz s Hsz (u32_in _))).
  change CF_SR_V with (2 ^ 1). change CF_SR_C with (2 ^ 0). change CF_SR_X with (2 ^ 4).
  rewrite (bind_run _ _ _ _ _ (set_flag_run 1 _ _)), (bind_run _ _ _ _ _ (set_flag_run 0 _ _)).
  rewrite (bind_run _ _ _ _ _ eq_refl), set_flag_run. unfold upd. simpl. rewrite !with_sr_sr.
  do 4 f_equal. fold c. change 1 with (2 ^ 0). rewrite nz_pow2 by lia.
  by rewrite setf_bit by lia.
Qed.

Lemma flags_subx_run src dst sz s :
  is_size sz → inw (width sz) src → inw (width sz) dst →
  let w := width sz in
  let res := u32 (dst - src) in
  let c := (negb (Z.testbit dst (w - 1)) && Z.testbit src (w - 1)) ||
           (Z.testbit res (w - 1) && (negb (Z.testbit dst (w - 1)) || Z.testbit src (w - 1))) in
  let r := nzvc (Z.testbit res (w - 1)) (res mod 2 ^ w =? 0)
             (negb (eqb (Z.testbit src (w - 1)) (Z.testbit dst (w - 1))) &&
              eqb (Z.testbit res (w - 1)) (Z.testbit src (w - 1))) c s.(cpu).(sr) in
  set_flags_sub src dst res sz s = Some (tt, upd (with_sr (setf 4 c r)) s).
Proof.
  intros Hsz Hs Hd w res c r. pose proof (width_range _ Hsz). unfold set_flags_sub. rewrite size_msb_pow2 by done.
  rewrite !nz_pow2, !pow2_eqb by (fold w; lia). fold w.
  rewrite (bind_run _ _ _ _ _ (set_nz_run res sz s Hsz (u32_in _))).
  change CF_SR_V with (2 ^ 1). change CF_SR_C with (2 ^ 0). change CF_SR_X with (2 ^ 4).
  rewrite (bind_run _ _ _ _ _ (set_flag_run 1 _ _)), (bind_run _ _ _ _ _ (set_flag_run 0 _ _)).
  rewrite (bind_run _ _ _ _ _ eq_refl), set_flag_run. unfold upd. simpl. rewrite !with_sr_sr.
  do 4 f_equal. fold c. change 1 with (2 ^ 0). rewrite nz_pow2 by lia.
  by rewrite setf_bit by lia.
Qed.
End Flags.

(** ** Meaning of the conditions *)

(** The signed value of an integer of [w] bits. *)
Definition signed (w x : Z) : Z := if x <? 2 ^ (w - 1) then x else x - 2 ^ w.

(** What the condition [cc] says after [dst] was compared with [src]. *)
Definition cmp_means (w cc src dst : Z) : bool :=
  let diff := signed w dst - signed w src in
  match cc with
  | 0x0 => true
  | 0x1 => false
  | 0x2 => src <? dst
  | 0x3 => dst <=? src
  | 0x4 => src <=? dst
  | 0x5 => dst <? src
  | 0x6 => negb (dst =? src)
  | 0x7 => dst =? src
  | 0x8 => (- 2 ^ (w - 1) <=? diff) && (diff <? 2 ^ (w - 1))
  | 0x9 => negb ((- 2 ^ (w - 1) <=? diff) && (diff <? 2 ^ (w - 1)))
  | 0xA => 0 <=? signed w ((dst - src) mod 2 ^ w)
  | 0xB => signed w ((dst - src) mod 2 ^ w) <? 0
  | 0xC => signed w src <=? signed w dst
  | 0xD => signed w dst <? signed w src
  | 0xE => signed w src <? signed w dst
  | 0xF => signed w dst <=? signed w src
  | _ => false
  end.

Lemma nzvc_bits n z v c sr j :
  0 <= j < 32 →
  Z.testbit (nzvc n z v c sr) j =
    if j =? 0 then c else if j =? 1 then v else if j =? 2 then z else if j =? 3 then n else Z.testbit sr j.
Proof.
  intros Hj. unfold nzvc. rewrite !setf_bit by lia. rewrite !(Z.eqb_sym _ j).
  repeat case_match; lia || done.
Qed.

Lemma res_bits w x : 0 < w <= 32 → (u32 x) mod 2 ^ w = x mod 2 ^ w ∧
  Z.testbit (u32 x) (w - 1) = (2 ^ (w - 1) <=? x mod 2 ^ w).
Proof.
  intros Hw. assert ((u32 x) mod 2 ^ w = x mod 2 ^ w) as E.
  { unfold u32. change 4294967296 with (2 ^ 32). replace 32 with (w + (32 - w)) by lia.
    rewrite Z.pow_add_r, Z.rem_mul_r by lia. rewrite Z.mul_comm, Z_mod_plus_full. apply Z.mod_mod. lia. }
  split; [done|]. rewrite <-E, <-sign_top_bit by (lia || (apply inw_mod; lia)). symmetry. apply testbit_mod. lia.
Qed.

Lemma pow2_split w : 0 < w → 2 ^ w = 2 * 2 ^ (w - 1) ∧ 0 < 2 ^ (w - 1).
Proof.
  intros. split; [|apply Z.pow_pos_nonneg; lia]. rewrite <-Z.pow_succ_r by lia. f_equal. lia.
Qed.

Lemma cmp_flags w src dst sr cc :
  8 <= w <= 32 → inw w src → inw w dst → 0 <= cc < 16 →
  let res := u32 (dst - src) in
  cond_holds
    (nzvc (Z.testbit res (w - 1)) (res mod 2 ^ w =? 0)
       (negb (eqb (Z.testbit src (w - 1)) (Z.testbit dst (w - 1))) &&
        eqb (Z.testbit res (w - 1)) (Z.testbit src (w - 1)))
       ((negb (Z.testbit dst (w - 1)) && Z.testbit src (w - 1)) ||
        (Z.testbit res (w - 1) && (negb (Z.testbit dst (w - 1)) || Z.testbit src (w - 1)))) sr) cc
  = cmp_means w cc src dst.
Proof.
  intros Hw Hs Hd Hcc res. destruct (res_bits w (dst - src)) as [E1 E2]; [lia|]. unfold res.
  rewrite E1, E2, !sign_top_bit by (done || lia). clear E1 E2 res. unfold cond_holds.
  rewrite !nz_bit, nz_bit0 by lia. rewrite !nzvc_bits by lia. simpl (_ =? _).
  destruct (pow2_split w) as [E2 Hp]; [lia|]. unfold cmp_means, signed, inw in *. rewrite E2 in *.
  generalize dependent (2 ^ (w - 1)). intros h Hs Hd E2 Hp.
  assert ((dst - src) mod (2 * h) = if src <=? dst then dst - src else dst - src + 2 * h) as ->.
  { destruct (Z.leb_spec src dst); symmetry.
    - apply (Z.mod_unique_pos _ _ 0); lia.
    - apply (Z.mod_unique_pos _ _ (-1)); lia. }
  assert (∃ n, (n < 16)%nat ∧ cc = Z.of_nat n) as (n & Hn & ->).
  { exists (Z.to_nat cc). lia. }
  clear Hcc Hw. destruct (Z.leb_spec src dst) as [Hle|Hle];
    destruct (Z.ltb_spec src h), (Z.ltb_spec dst h), (Z.ltb_spec (dst - src) h), (Z.ltb_spec (dst - src + 2 * h) h);
    try lia.
  all: let rec go n := (destruct n as [|n]; [|first [exfalso; lia|go n]]) in go n.
  all: simpl; try done.
  all: repeat match goal with |- context [?x <=? ?y] => destruct (Z.leb_spec x y)
    | |- context [?x <? ?y] => destruct (Z.ltb_spec x y)
    | |- context [?x =? ?y] => destruct (Z.eqb_spec x y) end; simpl; try done; lia.
Qed.

(** ** Carry and overflow of additions and subtractions *)

Definition fits (w z : Z) : bool := (- 2 ^ (w - 1) <=? z) && (z <? 2 ^ (w - 1)).

Lemma add_flags w src dst :
  8 <= w <= 32 → inw w src → inw w dst →
  let res := u32 (dst + src) in
  let sb x := Z.testbit x (w - 1) in
  (sb src && sb dst) || (negb (sb res) && (sb src || sb dst)) = (2 ^ w <=? dst + src) ∧
  eqb (sb src) (sb dst) && negb (eqb (sb res) (sb src)) = negb (fits w (signed w dst + signed w src)).
Proof.
  intros Hw Hs Hd res sb. destruct (res_bits w (dst + src)) as [E1 E2]; [lia|]. unfold res, sb.
  rewrite E2, !sign_top_bit by (done || lia). clear E1 E2 res sb.
  destruct (pow2_split w) as [E2 Hp]; [lia|]. unfold fits, signed, inw in *. rewrite E2 in *.
  generalize dependent (2 ^ (w - 1)). intros h Hs Hd E2 Hp.
  assert ((dst + src) mod (2 * h) = if dst + src <? 2 * h then dst + src else dst + src - 2 * h) as ->.
  { destruct (Z.ltb_spec (dst + src) (2 * h)); symmetry.
    - apply (Z.mod_unique_pos _ _ 0); lia.
    - apply (Z.mod_unique_pos _ _ 1); lia. }
  destruct (Z.ltb_spec (dst + src) (2 * h)), (Z.ltb_spec src h), (Z.ltb_spec dst h); try lia;
    repeat match goal with |- context [?x <=? ?y] => destruct (Z.leb_spec x y)
    | |- context [?x <? ?y] => destruct (Z.ltb_spec x y) end; simpl; (split; done) || lia.
Qed.

(** ** Shifts *)

Lemma lsl_spec w n val o :
  0 < w <= 32 → in32 val →
  lsl_loop (2 ^ (w - 1)) n val o =
    (u32 (val << Z.of_nat n), match n with O => o | S _ => Z.testbit val (w - Z.of_nat n) end).
Proof.
  intros Hw Hv. unfold lsl_loop. induction n as [|n IH]; simpl Nat.iter.
  - by rewrite Z.shiftl_0_r, u32_small.
  - rewrite IH. f_equal.
    + rewrite !Z.shiftl_mul_pow2 by lia. change (2 ^ 1) with 2. unfold u32. rewrite Zmult_mod_idemp_l.
      f_equal. rewrite Nat2Z.inj_succ, Z.pow_succ_r by lia. lia.
    + rewrite nz_pow2 by lia. unfold u32. change 4294967296 with (2 ^ 32). rewrite testbit_mod by lia.
      rewrite Z.shiftl_spec by lia. f_equal. lia.
Qed.

Lemma lsr_spec n val o :
  lsr_loop n val o =
    (val >> Z.of_nat n, match n with O => o | S _ => Z.testbit val (Z.of_nat n - 1) end).
Proof.
  unfold lsr_loop. induction n as [|n IH]; simpl Nat.iter; [by rewrite Z.shiftr_0_r|].
  rewrite IH. rewrite Z.shiftr_shiftr, nz_bit0, Z.shiftr_spec by lia. f_equal; f_equal; lia.
Qed.

Lemma ror_spec w n val o :
  8 <= w <= 32 → inw w val →
  let r := ror_loop (2 ^ (w - 1)) n val o in
  inw w r.1 ∧ (∀ i, 0 <= i < w → Z.testbit r.1 i = Z.testbit val ((i + Z.of_nat n) mod w)) ∧
  r.2 = match n with O => o | S _ => Z.testbit val ((Z.of_nat n - 1) mod w) end.
Proof.
  intros Hw Hv. simpl. unfold ror_loop. induction n as [|n IH]; simpl Nat.iter.
  - split; [done|]. split; [|done]. intros i Hi. rewrite Z.add_0_r, Z.mod_small by lia. done.
  - destruct (Nat.iter n _ _) as [res o'] eqn:E. simpl in IH |- *. destruct IH as (Hr & Hb & _).
    rewrite nz_bit0. assert (inw w (if Z.testbit res 0 then 2 ^ (w - 1) else 0)) as Hc.
    { destruct (pow2_split w) as [E2 Hp]; [lia|]. unfold inw. case_match; lia. }
    split; [apply inw_lor; [apply inw_shiftr; [lia|done]|done]|]. split.
    + intros i Hi. rewrite Z.lor_spec, Z.shiftr_spec by lia. destruct (decide (i = w - 1)) as [-> |Hn].
      * rewrite (testbit_inw w res) by (done || lia). rewrite orb_false_l.
        replace (Z.testbit (if Z.testbit res 0 then 2 ^ (w - 1) else 0) (w - 1)) with (Z.testbit res 0).
        -- rewrite Hb by lia. f_equal. replace (w - 1 + Z.of_nat (S n)) with (0 + Z.of_nat n + 1 * w) by lia.
           by rewrite Z_mod_plus_full.
        -- case_match; [by rewrite Z.pow2_bits_true by lia|by rewrite Z.bits_0].
      * replace (Z.testbit (if Z.testbit res 0 then 2 ^ (w - 1) else 0) i) with false.
        -- rewrite orb_false_r, Hb by lia. f_equal. f_equal. lia.
        -- case_match; [by rewrite Z.pow2_bits_false by lia|by rewrite Z.bits_0].
    + rewrite Hb by lia. f_equal. f_equal. lia.
Qed.

(** FF1 counts the leading zeros. *)
Lemma ff1_loop_spec f v n :
  0 < v < 2 ^ 32 → 31 - Z.log2 v < Z.of_nat f → ff1_loop f v n = n + (31 - Z.log2 v).
Proof.
  revert v n. induction f as [|f IH]; intros v n Hv Hf.
  { assert (Z.log2 v < 32) by (apply Z.log2_lt_pow2; lia). lia. }
  simpl. change 0x80000000 with (2 ^ (32 - 1)). rewrite nz_pow2, sign_top_bit by (unfold inw; lia).
  destruct (Z.leb_spec (2 ^ (32 - 1)) v).
  - assert (Z.log2 v = 31); [|lia]. apply Z.log2_unique; lia.
  - rewrite Z.shiftl_mul_pow2 by lia. rewrite u32_small by (unfold inw; lia).
    rewrite IH; rewrite ?Z.log2_mul_pow2 by lia; lia.
Qed.
