(* ===== verification/CfMem.v ===== *)
(** * Exceptions on a memory

    A bus that is a big-endian memory ([RamBus]), on which an exception is
    followed by the [rte] of its handler, and a memory of that kind. *)

From S2P Require Import Prelude HostFloat CfState CfOps CfInt CfExec CfFrame CfSafe CfFlags.

(** ** Memories *)

(** The value of [n] bytes from [p] on, the highest first; addresses wrap. *)
Definition word16 (f : Z → Z) (p : Z) : Z := (f p << 8) .| f (u32 (p + 1)).
Definition word32 (f : Z → Z) (p : Z) : Z := (word16 f p << 16) .| word16 f (u32 (p + 2)).

Definition put16 (f : Z → Z) (p v q : Z) : Z :=
  if q =? p then v >> 8 else if q =? u32 (p + 1) then v .& 0xFF else f q.
Definition put32 (f : Z → Z) (p v : Z) : Z → Z :=
  put16 (put16 f p (v >> 16)) (u32 (p + 2)) (v .& 0xFFFF).

Class RamBus {B} (cb : cf_callbacks B) (bus_ok : B → Prop) (byte : B → Z → Z) : Prop := {
  ram_laws :: BusLaws cb bus_ok;
  ram_byte b q : bus_ok b → in8 (byte b q);
  ram_read16 b p : bus_ok b → in32 p → read16 b p = Some (word16 (byte b) p, b);
  ram_read32 b p : bus_ok b → in32 p → read32 b p = Some (word32 (byte b) p, b);
  ram_write16 b p v b' q : in32 p → in16 v → write16 b p v = Some b' →
    byte b' q = put16 (byte b) p v q;
  ram_write32 b p v b' q : in32 p → in32 v → write32 b p v = Some b' →
    byte b' q = put32 (byte b) p v q
}.

(** Addresses less than [2 ^ 32] apart are different. *)
Lemma u32_ne x i j : 0 <= i < 2 ^ 32 → 0 <= j < 2 ^ 32 → i ≠ j → u32 (x + i) ≠ u32 (x + j).
Proof.
  unfold u32. intros Hi Hj Hn E. apply Hn. change (2 ^ 32) with 4294967296 in *.
  Z.to_euclidean_division_equations. lia.
Qed.

Lemma u32_eqb x i j : 0 <= i < 2 ^ 32 → 0 <= j < 2 ^ 32 → (u32 (x + i) =? u32 (x + j)) = (i =? j).
Proof.
  intros Hi Hj. destruct (Z.eqb_spec i j) as [->|Hn]; [apply Z.eqb_refl|]. by apply Z.eqb_neq, u32_ne.
Qed.

Lemma u32_plus x i j : u32 (u32 (x + i) + j) = u32 (x + (i + j)).
Proof. rewrite u32_add_l. f_equal. lia. Qed.

Lemma join_bytes v : in16 v → ((v >> 8) << 8) .| (v .& 0xFF) = v.
Proof.
  intros Hv. rewrite Z.shiftl_mul_pow2, lor_low by (lia || (apply inw_land_r; by vm_compute)).
  change 0xFF with (Z.ones 8). rewrite Z.land_ones, Z.shiftr_div_pow2 by lia.
  pose proof (Z.div_mod v (2 ^ 8)). lia.
Qed.

Lemma join_words v : in32 v → ((v >> 16) << 16) .| (v .& 0xFFFF) = v.
Proof.
  intros Hv. rewrite Z.shiftl_mul_pow2, lor_low by (lia || (apply inw_land_r; by vm_compute)).
  change 0xFFFF with (Z.ones 16). rewrite Z.land_ones, Z.shiftr_div_pow2 by lia.
  pose proof (Z.div_mod v (2 ^ 16)). lia.
Qed.

(** Reading after writing, at offsets from a common base. *)
Section Offsets.
Context (f : Z → Z) (x : Z).
Abbreviation at_ i := (u32 (x + i)).

Lemma put16_same i v : 0 <= i < 2 ^ 31 → in16 v → word16 (put16 f (at_ i) v) (at_ i) = v.
Proof.
  intros Hi Hv. unfold word16, put16. rewrite u32_plus, !u32_eqb by lia.
  destruct (Z.eqb_spec (i + 1) i); [lia|]. rewrite !Z.eqb_refl. by apply join_bytes.
Qed.

Lemma put16_other i j v :
  0 <= i < 2 ^ 31 → 0 <= j < 2 ^ 31 → j + 2 <= i ∨ i + 2 <= j →
  word16 (put16 f (at_ i) v) (at_ j) = word16 f (at_ j).
Proof.
  intros Hi Hj Hd. unfold word16, put16. rewrite !u32_plus, !u32_eqb by lia.
  destruct (Z.eqb_spec j i), (Z.eqb_spec j (i + 1)), (Z.eqb_spec (j + 1) i), (Z.eqb_spec (j + 1) (i + 1)); (lia || done).
Qed.

Lemma put32_other i j v :
  0 <= i < 2 ^ 30 → 0 <= j < 2 ^ 31 → j + 2 <= i ∨ i + 4 <= j →
  word16 (put32 f (at_ i) v) (at_ j) = word16 f (at_ j).
Proof.
  intros Hi Hj Hd. unfold word16, put32, put16. rewrite !u32_plus, !u32_eqb by lia.
  by repeat match goal with |- context [?p =? ?q] => destruct (Z.eqb_spec p q); [lia|] end.
Qed.

Lemma put32_same i v : 0 <= i < 2 ^ 30 → in32 v → word32 (put32 f (at_ i) v) (at_ i) = v.
Proof.
  intros Hi Hv. unfold word32, put32. rewrite u32_plus.
  unfold word16, put16. rewrite !u32_plus, !u32_eqb by lia.
  repeat match goal with |- context [?p =? ?q] => destruct (Z.eqb_spec p q); [try lia|try lia] end.
  rewrite !join_bytes; [by apply join_words|auto with word|].
  unfold inw in *. rewrite Z.shiftr_div_pow2 by lia. split; [apply Z.div_pos; lia|]. apply Z.div_lt_upper_bound; lia.
Qed.
End Offsets.

(** ** Exception and return *)

Section Return.
Context {B : Type} {cb : cf_callbacks B} {C : CImpl} `{!CTotal C}.
Context (bus_ok : B → Prop) (byte : B → Z → Z) `{RB : !RamBus cb bus_ok byte}.
Implicit Types s : cf_sys B.

Abbreviation Inv := (Inv bus_ok).

Lemma exc_fmt_range c v : 0x4000 <= exc_fmt c v < 0x5000.
Proof.
  unfold exc_fmt. change (4 << 12) with (4 * 2 ^ 12).
  assert (inw 12 ((v .& 0xFF) << 2)) as H1 by (apply inw_shiftl; [lia|]; apply inw_land_r; by vm_compute).
  assert (inw 12 ((c.(fault_status) .& 0x3) << 10)) as H2 by (apply inw_shiftl; [lia|]; apply inw_land_r; by vm_compute).
  assert (∀ y, inw 12 y → u16 ((4 * 2 ^ 12) .| y) = 4 * 2 ^ 12 + y) as Hu.
  { intros y Hy. rewrite lor_low by (lia || done). unfold u16, inw in *. apply Z.mod_small. lia. }
  cbv zeta. rewrite Hu by done. case_match; [|unfold inw in H1; lia].
  rewrite <-lor_low, <-Z.lor_assoc, Hu by (lia || done || by apply inw_lor).
  pose proof (inw_lor _ _ _ H1 H2) as H3. unfold inw in H3. lia.
Qed.

Lemma word16_ext f g p : (∀ q, f q = g q) → word16 f p = word16 g p.
Proof. intros E. unfold word16. by rewrite !E. Qed.
Lemma word32_ext f g p : (∀ q, f q = g q) → word32 f p = word32 g p.
Proof. intros E. unfold word32. by rewrite !(word16_ext f g). Qed.

(** What an exception leaves below the supervisor stack pointer. *)
Record exc_frame (v base : Z) (c : cf_cpu) (b b' : B) : Prop := {
  ef_fmt : word16 (byte b') base = exc_fmt c v;
  ef_sr : word16 (byte b') (u32 (base + 2)) = c.(sr);
  ef_pc : word32 (byte b') (u32 (base + 4)) = c.(pc);
  ef_rest q : (∀ i, 0 <= i < 8 → q ≠ u32 (base + i)) → byte b' q = byte b q
}.

Lemma put16_rest f p v q : q ≠ p → q ≠ u32 (p + 1) → put16 f p v q = f q.
Proof. intros H1 H2. unfold put16. by rewrite (proj2 (Z.eqb_neq _ _) H1), (proj2 (Z.eqb_neq _ _) H2). Qed.

Lemma pushed_frame v c b b1 b2 b3 :
  wf_cpu c →
  let x := u32 (ssp_of c - 8) in
  write32 b (u32 (ssp_of c - 4)) c.(pc) = Some b1 →
  write16 b1 (u32 (ssp_of c - 6)) ((c.(sr) .& 0xFFFF) .& 0xFFFF) = Some b2 →
  write16 b2 x (exc_fmt c v .& 0xFFFF) = Some b3 →
  exc_frame v x c b b3.
Proof.
  intros Hw x E1 E2 E3.
  assert (∀ n, u32 (ssp_of c - 8 + n) = u32 (x + n)) as Hx by (intros; unfold x; by rewrite u32_add_l).
  replace (u32 (ssp_of c - 4)) with (u32 (x + 4)) in E1 by (rewrite <-Hx; f_equal; lia).
  replace (u32 (ssp_of c - 6)) with (u32 (x + 2)) in E2 by (rewrite <-Hx; f_equal; lia).
  assert (x = u32 (x + 0)) as Hx0 by (rewrite Z.add_0_r; unfold x; by rewrite u32_u32).
  assert (∀ z, in16 z → z .& 0xFFFF = z) as Hm.
  { intros z Hz. change 0xFFFF with (Z.ones 16). rewrite Z.land_ones by lia. by apply Z.mod_small. }
  pose proof (exc_fmt_range c v) as Hf.
  rewrite !(Hm c.(sr)) in E2 by (by apply wf_sr). rewrite Hm in E3 by (unfold inw; lia). rewrite Hx0 in E3.
  assert (∀ q, byte b1 q = put32 (byte b) (u32 (x + 4)) c.(pc) q) as F1.
  { intros q. apply (ram_write32 b); [apply u32_in|by apply wf_pc|done]. }
  assert (∀ q, byte b2 q = put16 (byte b1) (u32 (x + 2)) c.(sr) q) as F2.
  { intros q. apply (ram_write16 b1); [apply u32_in|by apply wf_sr|done]. }
  assert (∀ q, byte b3 q = put16 (byte b2) (u32 (x + 0)) (exc_fmt c v) q) as F3.
  { intros q. apply (ram_write16 b2); [apply u32_in|unfold inw; lia|done]. }
  split.
  - rewrite Hx0. rewrite (word16_ext _ _ _ F3). apply put16_same; [lia|unfold inw; lia].
  - rewrite (word16_ext _ _ _ F3), put16_other, (word16_ext _ _ _ F2) by lia.
    apply put16_same; [lia|by apply wf_sr].
  - unfold word32. rewrite u32_plus.
    rewrite !(word16_ext _ _ _ F3), !put16_other, !(word16_ext _ _ _ F2), !put16_other, !(word16_ext _ _ _ F1) by lia.
    rewrite <-u32_plus. apply put32_same; [lia|by apply wf_pc].
  - intros q Hq. rewrite F3, put16_rest, F2, put16_rest, F1.
    + unfold put32. rewrite !put16_rest; [done|..]; rewrite ?u32_plus; apply Hq; lia.
    + apply Hq; lia.
    + rewrite u32_plus. apply Hq. lia.
    + apply Hq; lia.
    + rewrite u32_plus. apply Hq. lia.
Qed.

Lemma wp_ram16 p (Q : Z → cf_sys B → Prop) s :
  bus_ok s.(bus) → in32 p → in16 (word16 (byte s.(bus)) p) →
  Q (word16 (byte s.(bus)) p) s → wp (bus_read16 p) Q s.
Proof.
  intros Hb Hp Hw HQ. unfold bus_read16, wp, mbind, M_bind, bus_rd. rewrite (ram_read16 s.(bus)) by done.
  unfold mret, M_ret. destruct s as [c b]. change 0xFFFF with (Z.ones 16).
  rewrite Z.land_ones by lia. by rewrite Z.mod_small.
Qed.

Lemma wp_ram32 p (Q : Z → cf_sys B → Prop) s :
  bus_ok s.(bus) → in32 p → Q (word32 (byte s.(bus)) p) s → wp (bus_read32 p) Q s.
Proof.
  intros Hb Hp HQ. unfold bus_read32, wp, bus_rd. rewrite (ram_read32 s.(bus)) by done. by destruct s.
Qed.

(** Popping [n] bytes of a frame. *)
Lemma pop_again x n v c :
  length c.(a) = 8%nat →
  with_sp (u32 (sp_of (with_sp (u32 (x + v)) c) + n)) (with_sp (u32 (x + v)) c) =
  with_sp (u32 (x + (v + n))) c.
Proof. intros Hl. by rewrite sp_with_sp, with_sp_sp, u32_plus by done. Qed.

(** The return pops the frame and switches the stacks back. *)
Lemma returned c :
  wf_cpu c →
  with_pc c.(pc) (with_sr c.(sr) (switched c.(sr)
    (with_sp (u32 (u32 (ssp_of c - 8) + 8)) (with_sr (exc_sr c) (with_other_a7 (usp_of c) c))))) = c.
Proof.
  intros Hw. pose proof (wf_a_len _ Hw) as Hl.
  assert (in32 (ssp_of c)) as Hssp.
  { unfold ssp_of. case_match; [by apply sp_in|by apply wf_other]. }
  replace (u32 (u32 (ssp_of c - 8) + 8)) with (ssp_of c).
  2: { rewrite u32_add_l. replace (ssp_of c - 8 + 8) with (ssp_of c) by lia. by rewrite u32_small. }
  unfold switched.
  assert (super (with_sp (ssp_of c) (with_sr (exc_sr c) (with_other_a7 (usp_of c) c))) = true) as ->
    by apply exc_sr_super.
  change (nz (c.(sr) .& CF_SR_S)) with (super c). unfold ssp_of, usp_of.
  destruct (super c) eqn:E; cbn [eqb].
  - unfold with_sp. simpl. rewrite list_insert_id by (by apply sp_lookup). by destruct c.
  - rewrite with_sp_sp, sp_with_sp by done. unfold with_sp. simpl.
    rewrite list_insert_id by (by apply sp_lookup). by destruct c.
Qed.

Lemma wp_rte v h c b b' (Q : unit → cf_sys B → Prop) :
  wf_cpu c → bus_ok b' → exc_frame v (u32 (ssp_of c - 8)) c b b' →
  Q tt (mk_sys (with_in_exception false (with_halted false c)) b') →
  wp exec_rte Q (mk_sys (entered h c) b').
Proof.
  intros Hw Hb [Hfmt Hsr Hpc _] HQ. pose proof (wf_a_len _ Hw) as Hl. pose proof (exc_fmt_range c v) as Hf.
  set (x := u32 (ssp_of c - 8)) in *. unfold exec_rte, privileged. apply wp_bind, wp_gets. cbn [cpu].
  assert (nz (sr (entered h c) .& CF_SR_S) = true) as -> by apply exc_sr_super.
  unfold entered. fold x. set (c1 := with_sr (exc_sr c) (with_other_a7 (usp_of c) c)).
  set (c2 := with_in_exception false (with_halted false (with_pc h c1))).
  change (with_in_exception false (with_halted false (with_pc h (with_sp x c1)))) with (with_sp x c2).
  assert (length c2.(a) = 8%nat) as Hl2 by done.
  assert (∀ y, length (a (with_sp y c2)) = 8%nat) as Hly by (intros; simpl; by rewrite length_insert).
  assert (in32 x) as Hx by apply u32_in.
  assert (x = u32 (x + 0)) as Hx0 by (by rewrite Z.add_0_r, u32_small).
  apply wp_bind, wp_sp; [apply Hly|]. cbn [cpu bus]. rewrite sp_with_sp by done.
  apply wp_bind, wp_ram16; cbn [bus]; [done|done|rewrite Hfmt; unfold inw; lia|]. rewrite Hfmt. cbv zeta.
  assert ((exc_fmt c v >> 12) .& 0xF = 4) as ->.
  { rewrite Z.shiftr_div_pow2 by lia. replace (exc_fmt c v / 2 ^ 12) with 4; [done|].
    apply (Z.div_unique_pos _ _ 4 (exc_fmt c v - 0x4000)); lia. }
  cbn [negb Z.eqb Pos.eqb]. rewrite Hx0.
  apply wp_bind, wp_add_sp; [apply Hly|]. unfold upd. cbn [cpu bus]. rewrite pop_again by done.
  apply wp_bind, wp_sp; [apply Hly|]. cbn [cpu bus]. rewrite sp_with_sp by done.
  apply wp_bind, wp_ram16; cbn [bus]; [done|apply u32_in|change (0 + 2) with 2; rewrite Hsr; by apply wf_sr|].
  change (0 + 2) with 2. rewrite Hsr.
  apply wp_bind, wp_add_sp; [apply Hly|]. unfold upd. cbn [cpu bus]. rewrite pop_again by done.
  apply wp_bind, wp_sp; [apply Hly|]. cbn [cpu bus]. rewrite sp_with_sp by done.
  apply wp_bind, wp_ram32; cbn [bus]; [done|apply u32_in|]. change (2 + 2) with 4. rewrite Hpc.
  apply wp_bind, wp_add_sp; [apply Hly|]. unfold upd. cbn [cpu bus]. rewrite pop_again by done.
  apply wp_bind, wp_update_sp; [apply Hly|]. unfold upd. cbn [cpu bus].
  apply wp_bind, wp_mod, wp_mod. cbn [cpu bus]. change (4 + 4) with 8.
  pose proof (returned c Hw) as Hr. fold x c1 in Hr.
  replace (with_pc c.(pc) (with_sr c.(sr) (switched c.(sr) (with_sp (u32 (x + 8)) c2))))
    with (with_in_exception false (with_halted false
      (with_pc c.(pc) (with_sr c.(sr) (switched c.(sr) (with_sp (u32 (x + 8)) c1)))))); [by rewrite Hr|].
  unfold switched. change (super (with_sp (u32 (x + 8)) c2)) with (super (with_sp (u32 (x + 8)) c1)).
  by case_match.
Qed.

(** An exception, and its return at the entry of the handler. *)
Lemma exception_return v s :
  Inv s → s.(cpu).(in_exception) = false → inw 8 v →
  ∃ s1 s2 t, cf_exception v s = Some (tt, s1) ∧ exec_rte s1 = Some (tt, s2) ∧
    s2.(cpu) = with_halted false (with_trace t s.(cpu)) ∧
    s1.(cpu).(pc) = word32 (byte s1.(bus)) (u32 (s.(cpu).(vbr) + u32 (v * 4))) ∧
    super s1.(cpu) = true ∧
    exc_frame v (sp_of s1.(cpu)) s.(cpu) s.(bus) s1.(bus) ∧ s2.(bus) = s1.(bus).
Proof.
  intros Hs Hx Hv.
  assert (wp (cf_exception v) (λ _ s1, wp exec_rte (λ _ s2, ∃ t,
    s2.(cpu) = with_halted false (with_trace t s.(cpu)) ∧
    s1.(cpu).(pc) = word32 (byte s1.(bus)) (u32 (s.(cpu).(vbr) + u32 (v * 4))) ∧
    super s1.(cpu) = true ∧
    exc_frame v (sp_of s1.(cpu)) s.(cpu) s.(bus) s1.(bus) ∧ s2.(bus) = s1.(bus)) s1) s) as H.
  { apply (wp_exception bus_ok); [done..|]. intros t b Hi Hpk. rewrite Hx.
    assert (b = s.(bus)) as ->.
    { destruct Hpk as [->|(p & w & Hp & E)]; [done|]. rewrite (ram_read16 s.(bus)) in E by (done || apply Hs).
      by simplify_eq. }
    apply (wp_enter_exception bus_ok); [done..|]. intros b1 b2 b3 h b' E1 E2 E3 E4 Hh Hb'. cbn [cpu bus] in *.
    assert (bus_ok b1 ∧ bus_ok b2 ∧ bus_ok b3) as (Hb1 & Hb2 & Hb3).
    { destruct Hi as [Hw Hb]. cbn [cpu bus] in *.
      destruct (write32_ok s.(bus) (u32 (ssp_of (with_trace t s.(cpu)) - 4)) (pc (with_trace t s.(cpu)))) as (? & F1 & ?);
        [done|apply u32_in|by apply wf_pc|]. rewrite F1 in E1. simplify_eq.
      destruct (write16_ok b1 (u32 (ssp_of (with_trace t s.(cpu)) - 6)) ((sr (with_trace t s.(cpu)) .& 0xFFFF) .& 0xFFFF)) as (? & F2 & ?);
        [done|apply u32_in|auto with word|]. rewrite F2 in E2. simplify_eq.
      destruct (write16_ok b2 (u32 (ssp_of (with_trace t s.(cpu)) - 8)) (exc_fmt (with_trace t s.(cpu)) v .& 0xFFFF)) as (? & F3 & ?);
        [done|apply u32_in|auto with word|]. rewrite F3 in E3. by simplify_eq. }
    rewrite (ram_read32 b3) in E4 by (done || apply u32_in). simplify_eq.
    pose proof (pushed_frame v (with_trace t s.(cpu)) s.(bus) _ _ _ (inv_wf _ _ Hi) E1 E2 E3) as Hfr.
    eapply wp_rte; [apply Hi|done|exact Hfr|]. exists t. cbn [cpu bus]. split_and!; try done.
    - destruct s as [c b]. destruct c. simpl in *. by subst.
    - apply exc_sr_super.
    - unfold sp_of, entered, with_sp. simpl. rewrite list_lookup_insert_eq by (rewrite (wf_a_len _ (inv_wf _ _ Hs)); lia).
      destruct Hfr as [G1 G2 G3 G4]. by split. }
  apply wp_run in H as ([] & s1 & E1 & H). apply wp_run in H as ([] & s2 & E2 & t & H). by exists s1, s2, t.
Qed.
End Return.

(** ** A memory of 4 GB *)

#[local] Instance ram : cf_callbacks (Z → Z) := {|
  read8 b p := Some (b p, b);
  read16 b p := Some (word16 b p, b);
  read32 b p := Some (word32 b p, b);
  write8 b p v := Some (λ q, if q =? p then v .& 0xFF else b q);
  write16 b p v := Some (put16 b p (v .& 0xFFFF));
  write32 b p v := Some (put32 b p v);
  hypercall := None
|}.

Definition bytes_ok (b : Z → Z) : Prop := ∀ q, in8 (b q).

Lemma put16_ok b p v : bytes_ok b → in16 v → bytes_ok (put16 b p v).
Proof.
  intros Hb Hv q. unfold put16. case_match; [|case_match; [auto with word|done]].
  unfold inw in *. rewrite Z.shiftr_div_pow2 by lia. split; [apply Z.div_pos; lia|]. apply Z.div_lt_upper_bound; lia.
Qed.

Lemma word16_in b p : bytes_ok b → in16 (word16 b p).
Proof. intros Hb. apply inw_lor; [apply inw_shiftl; [lia|apply Hb]|]. apply (inw_mono 8); [lia|apply Hb]. Qed.

Lemma word32_in b p : bytes_ok b → in32 (word32 b p).
Proof.
  intros Hb. apply inw_lor; [apply inw_shiftl; [lia|by apply word16_in]|].
  apply (inw_mono 16); [lia|by apply word16_in].
Qed.

#[global] Instance ram_ok : RamBus ram bytes_ok (λ b, b).
Proof.
  assert (∀ v, in32 v → in16 (v >> 16)) as Hh.
  { unfold inw. intros v Hv. rewrite Z.shiftr_div_pow2 by lia. split; [apply Z.div_pos; lia|]. apply Z.div_lt_upper_bound; lia. }
  split; [split|..]; simpl.
  - intros b p Hb Hp. exists (b p), b. split; [done|]. split; [|done]. apply (inw_mono 8); [lia|apply Hb].
  - intros b p Hb Hp. exists (word16 b p), b. split; [done|]. split; [|done].
    apply (inw_mono 16); [lia|by apply word16_in].
  - intros b p Hb Hp. exists (word32 b p), b. split; [done|]. split; [by apply word32_in|done].
  - intros b p v Hb Hp Hv. eexists. split; [done|]. intros q. case_match; [auto with word|apply Hb].
  - intros b p v Hb Hp Hv. eexists. split; [done|]. apply put16_ok; [done|auto with word].
  - intros b p v Hb Hp Hv. eexists. split; [done|]. apply put16_ok; [|auto with word]. apply put16_ok; auto.
  - done.
  - by intros b q Hb.
  - done.
  - done.
  - intros b p v b' q Hp Hv [= <-]. f_equal. change 0xFFFF with (Z.ones 16). rewrite Z.land_ones by lia.
    by apply Z.mod_small.
  - by intros b p v b' q Hp Hv [= <-].
Qed.
