(* ===== verification/CfEmac.v ===== *)
(** * The multiply-accumulate unit of the ColdFire emulator

    What an accumulation stores, and the flags it leaves, against the 48-bit
    arithmetic of the accumulators. *)

From S2P Require Import Prelude HostFloat CfState CfOps CfInt CfExec CfFrame CfSafe CfFlags.

(** The integer of [w] bits congruent to [z]. *)
Definition wrap (w z : Z) : Z := (z + 2 ^ (w - 1)) mod 2 ^ w - 2 ^ (w - 1).

Lemma wrap_small w z : - 2 ^ (w - 1) <= z < 2 ^ (w - 1) → 0 < w → wrap w z = z.
Proof.
  intros Hz Hw. destruct (pow2_split w Hw) as [E Hp]. unfold wrap. rewrite Z.mod_small; lia.
Qed.

(** Sign extension by a shift to the left and back. *)
Lemma shift_back k v : 0 < k < 64 → s64 (u64 (u64 v << k)) >> k = wrap (64 - k) v.
Proof.
  intros Hk. rewrite Z.shiftr_div_pow2, Z.shiftl_mul_pow2 by lia. unfold s64.
  assert (∀ z, u64 (u64 z) = u64 z) as -> by (intros; apply Z.mod_small, u64_in).
  set (w := 64 - k). destruct (pow2_split w) as [E Hp]; [lia|].
  assert (2 ^ 64 = 2 ^ w * 2 ^ k) as E64 by (rewrite <-Z.pow_add_r by lia; f_equal; lia).
  assert (0 < 2 ^ k) as Hk2 by (apply Z.pow_pos_nonneg; lia).
  assert (u64 (u64 v * 2 ^ k) = (v mod 2 ^ w) * 2 ^ k) as ->.
  { unfold u64. change 18446744073709551616 with (2 ^ 64). rewrite E64, Zmult_mod_distr_r.
    rewrite Z.rem_mul_r, (Z.mul_comm (2 ^ w) ((v / 2 ^ w) mod 2 ^ k)) by lia.
    by rewrite Z_mod_plus_full, Z.mod_mod by lia. }
  assert (2 ^ 63 = 2 ^ (w - 1) * 2 ^ k) as E63 by (rewrite <-Z.pow_add_r by lia; f_equal; lia).
  rewrite E63, E64. pose proof (Z.mod_pos_bound v (2 ^ w)) as Hm.
  unfold wrap. rewrite <-Zplus_mod_idemp_l. set (r := v mod 2 ^ w) in *.
  destruct (Z.ltb_spec (r * 2 ^ k) (2 ^ (w - 1) * 2 ^ k)) as [Hl|Hl].
  - rewrite Z.div_mul, Z.mod_small by nia. lia.
  - replace (r * 2 ^ k - 2 ^ w * 2 ^ k) with ((r - 2 ^ w) * 2 ^ k) by lia. rewrite Z.div_mul by lia.
    replace (r + 2 ^ (w - 1)) with (r - 2 ^ (w - 1) + 1 * 2 ^ w) by lia.
    rewrite Z_mod_plus_full, Z.mod_small by nia. lia.
Qed.

Lemma sign_extend48_wrap v : sign_extend48 v = wrap 48 v.
Proof. unfold sign_extend48. rewrite shift_back by lia. reflexivity. Qed.
Lemma sign_extend40_wrap v : sign_extend40 v = wrap 40 v.
Proof. unfold sign_extend40. rewrite shift_back by lia. reflexivity. Qed.

(** What an accumulator holds after the exact result [r], in the mode of
    [macsr]: saturated or wrapped to 48 bits. *)
Definition acc_of (macsr r : Z) : Z :=
  if fits 48 r then r
  else if Z.testbit macsr 7 then (if 0 <? r then 2 ^ 47 - 1 else - 2 ^ 47)
  else wrap 48 r.

(** The value has outgrown the low part of the accumulator. *)
Definition extended (macsr v : Z) : bool :=
  if Z.testbit macsr 5 then negb (fits 40 v)
  else if Z.testbit macsr 6 then negb ((0 <=? v) && (v <? 2 ^ 32))
  else negb (fits 32 v).

(** The flags after the accumulator [i] took [v] for the exact result [r]. *)
Definition mac_flag (macsr i r v j : Z) : bool :=
  let pav := Z.testbit macsr (12 + i) || negb (fits 48 r) in
  if j =? 0 then extended macsr v
  else if j =? 1 then pav
  else if j =? 2 then v =? 0
  else if j =? 3 then v <? 0
  else if j =? 12 + i then pav
  else Z.testbit macsr j.

Lemma fits_wrap w v : 0 < w → (v =? wrap w v) = fits w v.
Proof.
  intros Hw. destruct (pow2_split w Hw) as [E Hp]. unfold fits.
  destruct (Z.leb_spec (- 2 ^ (w - 1)) v), (Z.ltb_spec v (2 ^ (w - 1))); cbn [andb].
  1: rewrite wrap_small by lia; apply Z.eqb_refl.
  all: apply Z.eqb_neq; unfold wrap; pose proof (Z.mod_pos_bound (v + 2 ^ (w - 1)) (2 ^ w)); lia.
Qed.

Lemma s32_wrap v : s32 v = wrap 32 v.
Proof.
  unfold s32, wrap, u32. change 4294967296 with (2 ^ 32). change (2 ^ (32 - 1)) with 2147483648.
  change (2 ^ 32) with 4294967296. Z.to_euclidean_division_equations. case_match; lia.
Qed.

Lemma acc_of_in m r : in48s (acc_of m r).
Proof.
  unfold acc_of, fits, in48s. change (48 - 1) with 47. repeat case_match; try lia.
  unfold wrap. change (48 - 1) with 47. pose proof (Z.mod_pos_bound (r + 2 ^ 47) (2 ^ 48)). lia.
Qed.

Section Mac.
Context {B : Type} {cb : cf_callbacks B} {C : CImpl}.
Implicit Types s : cf_sys B.

Definition orf (b : bool) (x m : Z) : Z := if b then m .| x else m.

Lemma or_macsr_run b x s : or_macsr b x s = Some (tt, upd (λ c, with_macsr (orf b x c.(macsr)) c) s).
Proof. destruct b; [done|]. unfold upd, orf. destruct s as [[] ?]. done. Qed.

Lemma orf_bit b i m j :
  0 <= i → 0 <= j → Z.testbit (orf b (2 ^ i) m) j = if i =? j then b || Z.testbit m j else Z.testbit m j.
Proof.
  intros Hi Hj. unfold orf. destruct b; [|by destruct (i =? j)].
  rewrite Z.lor_spec, Z.pow2_bits_eqb by lia. destruct (i =? j); [apply orb_true_r|apply orb_false_r].
Qed.

Lemma clear15_bit m j : 0 <= j < 32 → Z.testbit (m .& not32 15) j = negb (j <? 4) && Z.testbit m j.
Proof.
  intros Hj. rewrite Z.land_spec, not32_spec by (by vm_compute). unfold u32. change 4294967296 with (2 ^ 32).
  rewrite testbit_mod, Z.lnot_spec by lia. change 15 with (Z.ones 4). rewrite Z.testbit_ones by lia.
  rewrite (proj2 (Z.leb_le 0 j)) by lia. apply andb_comm.
Qed.

(** The status register after an overflow is recorded for the accumulator [i],
    and after the flags of the stored value [v] as well. *)
Definition recorded (i r m : Z) : Z := orf (negb (fits 48 r)) (2 ^ (12 + i)) m.
Definition flagged (i r m v : Z) : Z :=
  let m2 := recorded i r m .& not32 15 in
  orf (v <? 0) (2 ^ 3) (orf (v =? 0) (2 ^ 2) (orf (extended m v) (2 ^ 0) (orf (Z.testbit m2 (12 + i)) (2 ^ 1) m2))).

Lemma recorded_bit i r m j : 0 <= i → 0 <= j < 12 → Z.testbit (recorded i r m) j = Z.testbit m j.
Proof. intros Hi Hj. unfold recorded. rewrite orf_bit by lia. destruct (Z.eqb_spec (12 + i) j); [lia|done]. Qed.

Lemma flagged_bit i r m v j : 0 <= i < 4 → 0 <= j < 32 → Z.testbit (flagged i r m v) j = mac_flag m i r v j.
Proof.
  intros Hi Hj. unfold flagged, mac_flag. rewrite !orf_bit by lia. rewrite !clear15_bit by lia.
  unfold recorded. rewrite !orf_bit by lia. rewrite Z.eqb_refl. rewrite !(Z.eqb_sym _ j).
  rewrite (orb_comm (negb (fits 48 r))).
  destruct (Z.ltb_spec (12 + i) 4); [lia|]. cbn [negb andb].
  destruct (Z.eqb_spec j 0), (Z.eqb_spec j 1), (Z.eqb_spec j 2), (Z.eqb_spec j 3), (Z.eqb_spec j (12 + i)),
    (Z.ltb_spec j 4); try lia; cbn [negb andb orb]; rewrite ?orb_false_r; try done; subst.
  apply orb_comm.
Qed.

(** The comparison of the exact result with the limits. *)
Lemma over48 r : ((1 << 47) - 1 <? r) || (r <? - (1 << 47)) = negb (fits 48 r).
Proof.
  unfold fits. change (48 - 1) with 47. change (1 << 47) with (2 ^ 47). rewrite negb_andb, orb_comm. f_equal; lia.
Qed.

Lemma clamp_run i r s :
  0 <= i < 4 →
  (if negb (fits 48 r) then or_macsr true (2 ^ (12 + i));; m ← getc macsr;
     mret (if nz (m .& MACSR_OMC) then (if (1 << 47) - 1 <? r then (1 << 47) - 1 else - (1 << 47))
           else sign_extend48 r) else mret r) s =
  Some (acc_of s.(cpu).(macsr) r, upd (with_macsr (recorded i r s.(cpu).(macsr))) s).
Proof.
  intros Hi. unfold recorded, acc_of. destruct (fits 48 r) eqn:Hf; cbn [negb].
  { unfold orf, upd. destruct s as [[] ?]. done. }
  rewrite (bind_run _ _ _ _ _ (or_macsr_run true _ s)), (bind_run _ _ _ _ _ eq_refl).
  unfold mret, M_ret. do 2 f_equal. unfold upd. cbn [cpu]. set (m := s.(cpu).(macsr)).
  change (macsr (with_macsr (orf true (2 ^ (12 + i)) m) s.(cpu))) with (orf true (2 ^ (12 + i)) m).
  change MACSR_OMC with (2 ^ 7). rewrite nz_pow2, orf_bit by lia.
  destruct (Z.eqb_spec (12 + i) 7); [lia|]. rewrite sign_extend48_wrap.
  change (1 << 47) with (2 ^ 47). unfold fits in Hf. change (48 - 1) with 47 in Hf.
  destruct (Z.testbit m 7); [|done]. destruct (Z.ltb_spec (2 ^ 47 - 1) r), (Z.ltb_spec 0 r); (lia || done).
Qed.

(** The test of the source for an extension overflow. *)
Lemma extended_eq i r m v :
  0 <= i → in48s v →
  (if nz (recorded i r m .& MACSR_FI) then negb (v =? sign_extend40 v)
   else if nz (recorded i r m .& MACSR_SU) then 0xFFFFFFFF <? u64 v else negb (v =? s32 v)) = extended m v.
Proof.
  intros Hi Hin. change MACSR_FI with (2 ^ 5). change MACSR_SU with (2 ^ 6).
  rewrite !nz_pow2, !recorded_bit by lia. unfold extended. rewrite sign_extend40_wrap, s32_wrap, !fits_wrap by lia.
  destruct (Z.testbit m 5); [done|]. destruct (Z.testbit m 6); [|done]. unfold in48s in Hin. unfold u64.
  destruct (Z.leb_spec 0 v) as [H0|H0]; cbn [andb].
  - rewrite Z.mod_small by lia. lia.
  - replace (v mod 18446744073709551616) with (v + 18446744073709551616); [cbn [negb]; lia|].
    apply (Z.mod_unique_pos _ _ (-1)); lia.
Qed.

(** Storing an accumulation. *)
Lemma mac_store_run i r s :
  0 <= i < 4 → wf_cpu s.(cpu) →
  let m := s.(cpu).(macsr) in
  let v := acc_of m r in
  mac_store i r s =
    Some (tt, upd (λ c, with_macsr (flagged i r m v) (with_acc (<[Z.to_nat i := v]> c.(acc)) c)) s).
Proof.
  intros Hi Hw m v. assert (MACSR_PAV0 << i = 2 ^ (12 + i)) as Hpav.
  { unfold MACSR_PAV0. rewrite Z.shiftl_shiftl, Z.shiftl_1_l by lia. done. }
  unfold mac_store. rewrite Hpav, over48. cbv zeta. rewrite (bind_run _ _ _ _ _ (clamp_run i r s Hi)). fold m v.
  set (s1 := upd (with_macsr (recorded i r m)) s).
  assert (setacc i v s1 = Some (tt, upd (with_acc (<[Z.to_nat i := v]> s1.(cpu).(acc))) s1)) as E.
  { unfold setacc. rewrite (bind_run _ _ _ _ _ eq_refl). unfold getc, mgets.
    change (acc (cpu s1)) with (acc (cpu s)). rewrite aset_in by (rewrite (wf_acc_len _ Hw); lia). done. }
  do 4 rewrite (bind_run _ _ _ _ _ E) || rewrite (bind_run _ _ _ _ _ eq_refl).
  do 3 rewrite (bind_run _ _ _ _ _ (or_macsr_run _ _ _)). rewrite or_macsr_run.
  unfold flagged. rewrite <-(extended_eq i r m v), <-nz_pow2 by (lia || apply acc_of_in). reflexivity.
Qed.
End Mac.
