(* ===== verification/CfAlu.v ===== *)
(** * Instructions between data registers of the ColdFire emulator

    [cmp], [add] and the shifts as instruction words: the register they leave
    and the meaning of the condition codes. *)

From S2P Require Import Prelude HostFloat CfState CfOps CfInt CfExec CfFrame CfSafe CfFlags.

(** ** Encoding *)

(** The instruction of group [g] with data registers [x] (destination) and [y]
    (source) and the size [m]: byte, word, long. *)
Definition reg_op (g x m y : Z) : Z := (g << 12) .| (x << 9) .| (m << 6) .| y.

Definition fields_ok (g x m y : Z) : bool :=
  let op := reg_op g x m y in
  ((op >> 12) .& 0xF =? g) && ((op >> 9) .& 7 =? x) && ((op >> 6) .& 7 =? m) &&
  ((op >> 3) .& 7 =? 0) && (op .& 7 =? y).

Lemma all_upto n (f : Z → bool) : forallb f (upto n) = true → ∀ i, 0 <= i < n → f i = true.
Proof.
  intros H i Hi. apply (proj1 (forallb_forall f (upto n)) H).
  apply list_elem_of_In. unfold upto. rewrite elem_of_seqZ. lia.
Qed.

Lemma reg_op_fields g x m y :
  0 <= g < 16 → 0 <= x < 8 → 0 <= m < 3 → 0 <= y < 8 →
  let op := reg_op g x m y in
  (op >> 12) .& 0xF = g ∧ (op >> 9) .& 7 = x ∧ (op >> 6) .& 7 = m ∧ (op >> 3) .& 7 = 0 ∧ op .& 7 = y.
Proof.
  intros Hg Hx Hm Hy.
  assert (forallb (λ g, forallb (λ x, forallb (λ m, forallb (fields_ok g x m) (upto 8)) (upto 3)) (upto 8))
    (upto 16) = true) as H by (vm_compute; reflexivity).
  pose proof (all_upto 8 _ (all_upto 3 _ (all_upto 8 _ (all_upto 16 _ H g Hg) x Hx) m Hm) y Hy) as F.
  unfold fields_ok in F. rewrite !andb_true_iff, !Z.eqb_eq in F. intros op. unfold op. tauto.
Qed.

Definition dreg (c : cf_cpu) (i : Z) : Z := default 0 (c.(d) !! Z.to_nat i).

Definition dregs_ok (c : cf_cpu) : Prop := length c.(d) = 8%nat ∧ Forall in32 c.(d).

Lemma wf_dregs c : wf_cpu c → dregs_ok c.
Proof. intros Hw. split; apply Hw. Qed.

Section Alu.
Context {B : Type} {cb : cf_callbacks B} {C : CImpl}.
Implicit Types s : cf_sys B.

Lemma getd_run i s : dregs_ok s.(cpu) → 0 <= i < 8 → getd i s = Some (dreg s.(cpu) i, s) ∧ in32 (dreg s.(cpu) i).
Proof.
  intros [Hl Hd] Hi. unfold getd. rewrite (bind_run _ _ _ _ _ eq_refl). unfold dreg, must.
  destruct (aget_in s.(cpu).(d) i) as (x & E1 & E2); [rewrite Hl; lia|].
  simpl. rewrite E1, E2. split; [done|]. rewrite Forall_lookup in Hd. by eapply Hd.
Qed.

Lemma decode_size_ok m : 0 <= m < 3 → decode_size (m .& 3) = 2 ^ m ∧ is_size (2 ^ m).
Proof.
  intros Hm. assert (m = 0 ∨ m = 1 ∨ m = 2) as [-> | [-> | ->]] by lia; (split; [done|]); unfold is_size; auto.
Qed.

(** The value of the data register [i] as an operand of size [sz]. *)
Definition opnd (sz : Z) (c : cf_cpu) (i : Z) : Z := dreg c i mod 2 ^ width sz.

Lemma opnd_in sz c i : is_size sz → inw (width sz) (opnd sz c i).
Proof. intros Hs. apply inw_mod. pose proof (width_range _ Hs). lia. Qed.

Lemma opnd_run sz i s (k : Z → M (cf_sys B) unit) :
  wf_cpu s.(cpu) → 0 <= i < 8 → is_size sz →
  (v ← getd i; k (size_mask v sz)) s = k (opnd sz s.(cpu) i) s.
Proof.
  intros Hw Hi Hs. destruct (getd_run i s (wf_dregs _ Hw) Hi) as [E H]. rewrite (bind_run _ _ _ _ _ E).
  by rewrite size_mask_mod.
Qed.

Lemma ea_read_reg sz i s :
  wf_cpu s.(cpu) → 0 <= i < 8 → is_size sz → ea_read 0 i sz s = Some (opnd sz s.(cpu) i, s).
Proof.
  intros Hw Hi Hs. unfold ea_read. rewrite (bind_run _ _ _ _ _ eq_refl). unfold read_ea. cbn [ltype lreg].
  destruct (getd_run i s (wf_dregs _ Hw) Hi) as [E H]. rewrite (bind_run _ _ _ _ _ E). by rewrite size_mask_mod.
Qed.

(** [cmp Dy,Dx]. *)
Lemma cmp_run x m y s :
  0 <= x < 8 → 0 <= m < 3 → 0 <= y < 8 → wf_cpu s.(cpu) →
  exec (reg_op 0xB x m y) s =
    set_flags_cmp (opnd (2 ^ m) s.(cpu) y) (opnd (2 ^ m) s.(cpu) x)
      (u32 (opnd (2 ^ m) s.(cpu) x - opnd (2 ^ m) s.(cpu) y)) (2 ^ m) s.
Proof.
  intros Hx Hm Hy Hw. destruct (reg_op_fields 0xB x m y) as (F1 & F2 & F3 & F4 & F5); [lia..|].
  destruct (decode_size_ok m Hm) as [Es Hs].
  unfold exec. rewrite F1. cbv iota. unfold exec_groupB. rewrite F2, F3, F4, F5, Es.
  rewrite !(proj2 (Z.eqb_neq _ _)), (proj2 (Z.leb_gt 4 m)) by lia. cbn [andb].
  rewrite (bind_run _ _ _ _ _ (ea_read_reg _ _ _ Hw Hy Hs)).
  rewrite (opnd_run (2 ^ m) x s (λ dst, set_flags_cmp _ dst (u32 (dst - _)) _)) by done. done.
Qed.

(** The register [v] with its low part replaced by [r]. *)
Definition merge (w v r : Z) : Z := v - v mod 2 ^ w + r mod 2 ^ w.

Lemma land_high n v : 0 <= n <= 32 → in32 v → v .& (Z.ones (32 - n) << n) = v - v mod 2 ^ n.
Proof.
  intros Hn Hv. assert (v - v mod 2 ^ n = (v >> n) << n) as ->.
  { rewrite Z.shiftl_mul_pow2, Z.shiftr_div_pow2 by lia. pose proof (Z.div_mod v (2 ^ n)). lia. }
  apply Z.bits_inj'. intros i Hi. rewrite Z.land_spec, !Z.shiftl_spec by lia.
  destruct (Z.ltb_spec i n); [by rewrite !(Z.testbit_neg_r _ (i - n)), andb_false_r by lia|].
  rewrite Z.shiftr_spec, Z.testbit_ones by lia. replace (i - n + n) with i by lia.
  rewrite (proj2 (Z.leb_le 0 (i - n))) by lia. simpl. destruct (Z.ltb_spec (i - n) (32 - n)).
  - apply andb_true_r.
  - rewrite andb_false_r. symmetry. apply (testbit_inw 32); [done|lia].
Qed.

Lemma merge_bits n v r :
  0 <= n <= 32 → in32 v → (v .& (Z.ones (32 - n) << n)) .| (r .& Z.ones n) = merge n v r.
Proof.
  intros Hn Hv. rewrite land_high, Z.land_ones by (lia || done). unfold merge.
  replace (v - v mod 2 ^ n) with (v / 2 ^ n * 2 ^ n) by (pose proof (Z.div_mod v (2 ^ n)); lia).
  apply lor_low; [lia|]. apply inw_mod. lia.
Qed.

Lemma put_d_run sz i r s :
  dregs_ok s.(cpu) → 0 <= i < 8 → is_size sz → in32 r →
  put_d i sz r s =
    Some (tt, upd (with_d (<[Z.to_nat i := merge (width sz) (dreg s.(cpu) i) r]> s.(cpu).(d))) s).
Proof.
  intros Hw Hi Hs Hr. destruct (getd_run i s Hw Hi) as [E Hv].
  assert (∀ z, setd i z s = Some (tt, upd (with_d (<[Z.to_nat i := z]> s.(cpu).(d))) s)) as Hset.
  { intros z. unfold setd. rewrite (bind_run _ _ _ _ _ eq_refl). rewrite aset_in by (rewrite (proj1 Hw); lia).
    done. }
  unfold put_d, merge. destruct Hs as [-> | [-> | ->]]; cbn [Z.eqb Pos.eqb SZ_BYTE SZ_WORD SZ_LONG].
  - rewrite (bind_run _ _ _ _ _ E), Hset. do 5 f_equal. by apply (merge_bits 8).
  - rewrite (bind_run _ _ _ _ _ E), Hset. do 5 f_equal. by apply (merge_bits 16).
  - rewrite Hset. do 5 f_equal. unfold inw in *. change (width SZ_LONG) with 32.
    rewrite !Z.mod_small by lia. lia.
Qed.

Lemma exec_alu_run g f fl x m y s :
  0 <= g < 16 → 0 <= x < 8 → 0 <= m < 3 → 0 <= y < 8 → wf_cpu s.(cpu) → (∀ u v, in32 (f u v)) →
  let src := opnd (2 ^ m) s.(cpu) y in
  let dst := opnd (2 ^ m) s.(cpu) x in
  exec_alu f fl (reg_op g x m y) s =
    fl src dst (f dst src) (2 ^ m)
      (upd (with_d (<[Z.to_nat x := merge (width (2 ^ m)) (dreg s.(cpu) x) (f dst src)]> s.(cpu).(d))) s).
Proof.
  intros Hg Hx Hm Hy Hw Hf src dst. destruct (reg_op_fields g x m y) as (F1 & F2 & F3 & F4 & F5); [lia..|].
  destruct (decode_size_ok m Hm) as [Es Hs].
  unfold exec_alu. rewrite F2, F3, F4, F5, Es. rewrite (proj2 (Z.eqb_neq (2 ^ m) 0)) by lia.
  replace ((m >> 2) .& 1) with 0 by (assert (m = 0 ∨ m = 1 ∨ m = 2) as [-> | [-> | ->]] by lia; done).
  cbn [Z.eqb]. rewrite (bind_run _ _ _ _ _ (ea_read_reg _ _ _ Hw Hy Hs)).
  rewrite (opnd_run (2 ^ m) x s (λ dst, put_d x _ (f dst _);; fl _ dst (f dst _) _)) by done.
  by rewrite (bind_run _ _ _ _ _ (put_d_run _ _ _ _ (wf_dregs _ Hw) Hx Hs (Hf _ _))).
Qed.

Lemma merge_u32 w v r : 0 < w <= 32 → merge w v (u32 r) = merge w v r.
Proof. intros Hw. unfold merge. by rewrite (proj1 (res_bits w r Hw)). Qed.

(** The low part of [Dx] set to [r]. *)
Definition set_low (sz x r : Z) (c : cf_cpu) : cf_cpu :=
  with_d (<[Z.to_nat x := merge (width sz) (dreg c x) r]> c.(d)) c.

Lemma add_run x m y s :
  0 <= x < 8 → 0 <= m < 3 → 0 <= y < 8 → wf_cpu s.(cpu) →
  let src := opnd (2 ^ m) s.(cpu) y in
  let dst := opnd (2 ^ m) s.(cpu) x in
  exec (reg_op 0xD x m y) s =
    set_flags_add src dst (u32 (dst + src)) (2 ^ m) (upd (set_low (2 ^ m) x (dst + src)) s).
Proof.
  intros Hx Hm Hy Hw src dst. destruct (reg_op_fields 0xD x m y) as (F1 & F2 & F3 & F4 & F5); [lia..|].
  destruct (decode_size_ok m Hm) as [_ Hs]. pose proof (width_range _ Hs).
  unfold exec. rewrite F1. cbv iota. unfold exec_groupD. rewrite F3, F4.
  replace (m .& 4) with 0 by (assert (m = 0 ∨ m = 1 ∨ m = 2) as [-> | [-> | ->]] by lia; done).
  rewrite !(proj2 (Z.eqb_neq m _)) by lia. cbn [andb Z.eqb].
  rewrite exec_alu_run by (lia || done || (intros; apply u32_in)).
  fold src dst. unfold set_low. by rewrite merge_u32 by lia.
Qed.

Lemma sub_run x m y s :
  0 <= x < 8 → 0 <= m < 3 → 0 <= y < 8 → wf_cpu s.(cpu) →
  let src := opnd (2 ^ m) s.(cpu) y in
  let dst := opnd (2 ^ m) s.(cpu) x in
  exec (reg_op 0x9 x m y) s =
    set_flags_sub src dst (u32 (dst - src)) (2 ^ m) (upd (set_low (2 ^ m) x (dst - src)) s).
Proof.
  intros Hx Hm Hy Hw src dst. destruct (reg_op_fields 0x9 x m y) as (F1 & F2 & F3 & F4 & F5); [lia..|].
  destruct (decode_size_ok m Hm) as [_ Hs]. pose proof (width_range _ Hs).
  unfold exec. rewrite F1. cbv iota. unfold exec_group9. rewrite F3, F4.
  replace (m .& 4) with 0 by (assert (m = 0 ∨ m = 1 ∨ m = 2) as [-> | [-> | ->]] by lia; done).
  rewrite !(proj2 (Z.eqb_neq m _)) by lia. cbn [andb Z.eqb].
  rewrite exec_alu_run by (lia || done || (intros; apply u32_in)).
  fold src dst. unfold set_low. by rewrite merge_u32 by lia.
Qed.
End Alu.

(** ** Condition codes *)

Lemma cond_holds_x b sr cc : cond_holds (setf 4 b sr) cc = cond_holds sr cc.
Proof. unfold cond_holds. by rewrite !nz_bit, !nz_bit0, !setf_bit by lia. Qed.

Section Codes.
Context {B : Type} {cb : cf_callbacks B} {C : CImpl} (s : cf_sys B) (x m y : Z).
Hypothesis (Hx : 0 <= x < 8) (Hm : 0 <= m < 3) (Hy : 0 <= y < 8) (Hw : wf_cpu s.(cpu)).
Abbreviation sz := (2 ^ m).
Abbreviation w := (width (2 ^ m)).
Abbreviation src := (opnd (2 ^ m) s.(cpu) y).
Abbreviation dst := (opnd (2 ^ m) s.(cpu) x).

Lemma cmp_codes :
  ∃ r, exec (reg_op 0xB x m y) s = Some (tt, upd (with_sr r) s) ∧
    (∀ cc, 0 <= cc < 16 → cond_holds r cc = cmp_means w cc src dst) ∧
    ∀ j, 4 <= j < 32 → Z.testbit r j = Z.testbit s.(cpu).(sr) j.
Proof.
  destruct (decode_size_ok m Hm) as [_ Hs]. pose proof (width_range _ Hs).
  pose proof (opnd_in _ s.(cpu) x Hs). pose proof (opnd_in _ s.(cpu) y Hs).
  rewrite cmp_run by done. rewrite flags_sub_run by done. eexists. split; [done|]. split.
  - intros cc Hcc. by apply cmp_flags.
  - intros j Hj. rewrite nzvc_bits by lia. repeat case_match; lia || done.
Qed.

Lemma sub_codes :
  ∃ r, exec (reg_op 0x9 x m y) s = Some (tt, upd (λ c, with_sr r (set_low sz x (dst - src) c)) s) ∧
    (∀ cc, 0 <= cc < 16 → cond_holds r cc = cmp_means w cc src dst) ∧
    Z.testbit r 4 = (dst <? src) ∧
    ∀ j, 5 <= j < 32 → Z.testbit r j = Z.testbit s.(cpu).(sr) j.
Proof.
  destruct (decode_size_ok m Hm) as [_ Hs]. pose proof (width_range _ Hs).
  pose proof (opnd_in _ s.(cpu) x Hs). pose proof (opnd_in _ s.(cpu) y Hs).
  rewrite sub_run by done. rewrite flags_subx_run by done. eexists. split; [done|]. split_and!.
  - intros cc Hcc. rewrite cond_holds_x. by apply cmp_flags.
  - rewrite setf_bit by lia. cbn [Z.eqb Pos.eqb].
    pose proof (cmp_flags w src dst 0 5) as Hc. cbv zeta in Hc. unfold cond_holds in Hc.
    rewrite !nz_bit0, !nzvc_bits in Hc by lia. by apply Hc.
  - intros j Hj. rewrite setf_bit by lia. destruct (Z.eqb_spec 4 j); [lia|].
    rewrite nzvc_bits by lia. repeat case_match; lia || done.
Qed.

Lemma add_codes :
  ∃ r, exec (reg_op 0xD x m y) s = Some (tt, upd (λ c, with_sr r (set_low sz x (dst + src) c)) s) ∧
    (∀ j, 0 <= j < 32 → Z.testbit r j =
      if (j =? 0) || (j =? 4) then 2 ^ w <=? dst + src
      else if j =? 1 then negb (fits w (signed w dst + signed w src))
      else if j =? 2 then (dst + src) mod 2 ^ w =? 0
      else if j =? 3 then signed w ((dst + src) mod 2 ^ w) <? 0
      else Z.testbit s.(cpu).(sr) j).
Proof.
  destruct (decode_size_ok m Hm) as [_ Hs]. pose proof (width_range _ Hs).
  pose proof (opnd_in _ s.(cpu) x Hs). pose proof (opnd_in _ s.(cpu) y Hs).
  rewrite add_run by done. rewrite flags_add_run by done. eexists. split; [done|].
  intros j Hj. destruct (add_flags w src dst) as [E1 E2]; [done..|]. cbv zeta in E1, E2. rewrite E1, E2.
  destruct (res_bits w (dst + src)) as [E3 E4]; [lia|]. rewrite E3, E4.
  destruct (pow2_split w) as [Ep Hp]; [lia|].
  rewrite setf_bit, nzvc_bits by lia. rewrite (Z.eqb_sym 4 j).
  destruct (Z.eqb_spec j 4), (Z.eqb_spec j 0), (Z.eqb_spec j 1), (Z.eqb_spec j 2), (Z.eqb_spec j 3); try lia; try done.
  cbn [orb]. unfold signed. pose proof (Z.mod_pos_bound (dst + src) (2 ^ w)).
  destruct (Z.ltb_spec ((dst + src) mod 2 ^ w) (2 ^ (w - 1))); lia.
Qed.
End Codes.

(** ** Shifts and rotates *)

(** The result, the carry and whether X takes it, without loops; the type 0 is
    arithmetic, 1 logical and 3 a rotation. *)
Definition shift_ref (type : Z) (left : bool) (w val n : Z) : option (Z * bool * bool) :=
  match type, left with
  | 0, true | 1, true => Some ((val * 2 ^ n) mod 2 ^ w, Z.testbit val (w - n), true)
  | 0, false => Some ((signed w val / 2 ^ n) mod 2 ^ w, Z.testbit (signed w val) (n - 1), true)
  | 1, false => Some (val / 2 ^ n, Z.testbit val (n - 1), true)
  | 3, false =>
      Some (((val >> (n mod w)) .| (val << (w - n mod w))) mod 2 ^ w, Z.testbit val ((n - 1) mod w), false)
  | _, _ => None
  end.

Lemma shift_mask sz v : is_size sz → v .& (if sz =? SZ_LONG then 0xFFFFFFFF else (1 << (sz * 8)) - 1) = v mod 2 ^ width sz.
Proof.
  intros Hs. rewrite <-Z.land_ones by (pose proof (width_range _ Hs); lia).
  destruct Hs as [-> | [-> | ->]]; reflexivity.
Qed.

Lemma sign_extend_signed sz v : is_size sz → inw (width sz) v → sign_extend v sz = signed (width sz) v.
Proof.
  intros Hs Hv. unfold sign_extend. destruct Hs as [-> | [-> | ->]]; cbn [Z.eqb Pos.eqb SZ_BYTE SZ_WORD SZ_LONG].
  - change 0xFF with (Z.ones 8). rewrite Z.land_ones, Z.mod_small by (lia || done).
    unfold s8, u8. by rewrite (Z.mod_small v) by exact Hv.
  - change 0xFFFF with (Z.ones 16). rewrite Z.land_ones, Z.mod_small by (lia || done).
    unfold s16, u16. by rewrite (Z.mod_small v) by exact Hv.
  - unfold s32. by rewrite (u32_small v).
Qed.

Lemma rotate_bits w k val i :
  0 <= k < w → inw w val → 0 <= i < w →
  Z.testbit (((val >> k) .| (val << (w - k))) mod 2 ^ w) i = Z.testbit val ((i + k) mod w).
Proof.
  intros Hk Hv Hi. rewrite testbit_mod, Z.lor_spec, Z.shiftr_spec, Z.shiftl_spec by lia.
  destruct (Z.ltb_spec (i + k) w).
  - rewrite (Z.mod_small (i + k)), (Z.testbit_neg_r val (i - (w - k))) by lia. apply orb_false_r.
  - rewrite (testbit_inw w val (i + k)) by (done || lia). cbn [orb]. f_equal.
    apply (Z.mod_unique_pos _ _ 1); lia.
Qed.

Lemma shift_result_ref type left val sz n :
  is_size sz → inw (width sz) val → 0 < n →
  shift_result type left val sz n = shift_ref type left (width sz) val n.
Proof.
  intros Hs Hv Hn. pose proof (width_range _ Hs) as Hw. unfold shift_result.
  assert (∃ k, Z.to_nat n = S k) as [k Ek] by (exists (Z.to_nat (n - 1)); lia).
  assert (Z.of_nat (S k) = n) as En by lia.
  assert (lsl_loop (size_msb sz) (Z.to_nat n) val false = (u32 (val << n), Z.testbit val (width sz - n))) as El.
  { rewrite size_msb_pow2, lsl_spec by (lia || done || (apply (inw_mono (width sz)); [lia|done])). by rewrite Ek, En. }
  assert (∀ v, asr_loop (Z.to_nat n) v false = (v >> n, Z.testbit v (n - 1))) as Ea.
  { intros v. change asr_loop with lsr_loop. rewrite lsr_spec. by rewrite Ek, En. }
  assert (∀ v, lsr_loop (Z.to_nat n) v false = (v >> n, Z.testbit v (n - 1))) as Er by exact Ea.
  assert (u32 (val << n) .& (if sz =? SZ_LONG then 0xFFFFFFFF else (1 << (sz * 8)) - 1) = (val * 2 ^ n) mod 2 ^ width sz) as Em.
  { rewrite shift_mask by done. rewrite (proj1 (res_bits (width sz) _ ltac:(lia))). by rewrite Z.shiftl_mul_pow2 by lia. }
  unfold shift_ref. rewrite El, Ea, Er, Em, shift_mask by done.
  rewrite (proj1 (res_bits (width sz) _ ltac:(lia))), sign_extend_signed, !Z.shiftr_div_pow2 by (lia || done).
  destruct type as [|[[]|[]|]|]; destruct left; try done.
  rewrite size_msb_pow2 by done.
  destruct (ror_spec (width sz) (Z.to_nat n) val false) as (Hr & Hb & Ho); [lia|done|].
  destruct (ror_loop _ _ _ _) as [r o]. cbn [fst snd] in *. rewrite Ek, En in Ho. rewrite Ho.
  rewrite shift_mask by done. do 3 f_equal. rewrite Z.mod_small by done. apply Z.bits_inj'. intros i Hi.
  pose proof (Z.mod_pos_bound n (width sz)).
  destruct (Z.ltb_spec i (width sz)).
  - rewrite Hb, rotate_bits by (done || lia). f_equal. rewrite Zplus_mod_idemp_r. f_equal. lia.
  - rewrite (testbit_inw (width sz) r) by (done || lia). symmetry. apply (testbit_inw (width sz)); [|lia].
    apply inw_mod. lia.
Qed.

(** With the count 0 the value is unchanged, and so is X. *)
Definition shift_spec (type : Z) (left : bool) (w val n : Z) : option (Z * bool * bool) :=
  if n =? 0 then Some (val, false, false) else shift_ref type left w val n.

(** The shift of type [t] of the data register [y], to the left when [dir] is 1,
    by the field or the data register [c]. *)
Definition shift_op (c dir m ir t y : Z) : Z :=
  (0xE << 12) .| (c << 9) .| (dir << 8) .| (m << 6) .| (ir << 5) .| (t << 3) .| y.

Definition shift_fields_ok (c dir m ir t y : Z) : bool :=
  let op := shift_op c dir m ir t y in
  ((op >> 12) .& 0xF =? 0xE) && ((op >> 9) .& 7 =? c) && ((op >> 8) .& 1 =? dir) && ((op >> 6) .& 3 =? m) &&
  ((op >> 5) .& 1 =? ir) && ((op >> 3) .& 3 =? t) && (op .& 7 =? y).

Lemma shift_op_fields c dir m ir t y :
  0 <= c < 8 → 0 <= dir < 2 → 0 <= m < 3 → 0 <= ir < 2 → 0 <= t < 4 → 0 <= y < 8 →
  shift_fields_ok c dir m ir t y = true.
Proof.
  intros Hc Hd Hm Hi Ht Hy.
  assert (forallb (λ c, forallb (λ dir, forallb (λ m, forallb (λ ir, forallb (λ t,
    forallb (shift_fields_ok c dir m ir t) (upto 8)) (upto 4)) (upto 2)) (upto 3)) (upto 2)) (upto 8) = true) as H
    by (vm_compute; reflexivity).
  exact (all_upto 8 _ (all_upto 4 _ (all_upto 2 _ (all_upto 3 _ (all_upto 2 _ (all_upto 8 _ H c Hc) dir Hd) m Hm)
    ir Hi) t Ht) y Hy).
Qed.

Lemma clear_vc_bit sr j :
  0 <= j < 32 → Z.testbit (sr .& not32 (CF_SR_V .| CF_SR_C)) j = negb (j <? 2) && Z.testbit sr j.
Proof.
  intros Hj. rewrite Z.land_spec, not32_spec by (by vm_compute). unfold u32. change 4294967296 with (2 ^ 32).
  rewrite testbit_mod, Z.lnot_spec by lia. change (CF_SR_V .| CF_SR_C) with (Z.ones 2).
  rewrite Z.testbit_ones by lia. rewrite (proj2 (Z.leb_le 0 j)) by lia. apply andb_comm.
Qed.

Lemma shift_spec_in type left sz val n res o b :
  is_size sz → inw (width sz) val → 0 <= n →
  shift_spec type left (width sz) val n = Some (res, o, b) → inw (width sz) res.
Proof.
  intros Hs Hv Hn. pose proof (width_range _ Hs). unfold shift_spec. destruct (n =? 0); [by intros [= <- _ _]|].
  unfold shift_ref. assert (∀ z, inw (width sz) (z mod 2 ^ width sz)) by (intros; apply inw_mod; lia).
  assert (inw (width sz) (val / 2 ^ n)).
  { assert (0 < 2 ^ n) by (apply Z.pow_pos_nonneg; lia). unfold inw in *. split; [apply Z.div_pos; lia|].
    apply Z.div_lt_upper_bound; nia. }
  repeat case_match; intros [= <- _ _]; auto.
Qed.

Section Shift.
Context {B : Type} {cb : cf_callbacks B} {C : CImpl} (s : cf_sys B) (c dir m ir t y : Z).
Hypothesis (Hc : 0 <= c < 8) (Hd : 0 <= dir < 2) (Hm : 0 <= m < 3) (Hi : 0 <= ir < 2) (Ht : 0 <= t < 4)
  (Hy : 0 <= y < 8) (Hw : wf_cpu s.(cpu)).
Abbreviation w := (width (2 ^ m)).
Abbreviation val := (opnd (2 ^ m) s.(cpu) y).

(** The count: from a register modulo 64, or the field with 0 for 8. *)
Definition shift_count : Z :=
  if ir =? 1 then dreg s.(cpu) c mod 64 else if c =? 0 then 8 else c.

(** The condition codes after a shift. *)
Definition shift_bit (res : Z) (carry x : bool) (j : Z) : bool :=
  if j =? 0 then carry else if j =? 1 then false else if j =? 2 then res =? 0
  else if j =? 3 then signed w res <? 0 else if (j =? 4) && x then carry
  else Z.testbit s.(cpu).(sr) j.

Lemma nz_bits res sr j :
  inw w res → 0 <= j < 32 →
  Z.testbit (setf 2 (res mod 2 ^ w =? 0) (setf 3 (Z.testbit res (w - 1)) sr)) j =
  if j =? 2 then res =? 0 else if j =? 3 then signed w res <? 0 else Z.testbit sr j.
Proof.
  intros Hr Hj. destruct (decode_size_ok m Hm) as [_ Hs]. pose proof (width_range _ Hs).
  destruct (pow2_split w) as [Ep Hp]; [lia|].
  rewrite !setf_bit, (Z.mod_small res), sign_top_bit, !(Z.eqb_sym _ j) by (lia || done).
  destruct (j =? 2); [done|]. destruct (j =? 3); [|done]. unfold signed. unfold inw in Hr.
  destruct (Z.ltb_spec res (2 ^ (w - 1))); lia.
Qed.

Lemma shift_count_run :
  (if nz ir then v ← getd c; mret (v .& 63) else mret (if nz c then c else 8)) s = Some (shift_count, s) ∧
  0 <= shift_count.
Proof.
  split.
  - unfold shift_count, nz. destruct (Z.eqb_spec ir 0) as [->|]; cbn [negb].
    + by destruct (Z.eqb_spec c 0).
    + rewrite (proj2 (Z.eqb_eq ir 1)) by lia. rewrite (bind_run _ _ _ _ _ (proj1 (getd_run c s (wf_dregs _ Hw) Hc))).
      change 63 with (Z.ones 6). by rewrite Z.land_ones.
  - unfold shift_count. repeat case_match; try lia. by apply Z.mod_pos_bound.
Qed.

(** The stores of a shift after its flags. *)
Lemma shift_put res sr' :
  inw w res → put_d y (2 ^ m) res (upd (with_sr sr') s) =
    Some (tt, upd (λ cc, with_sr sr' (set_low (2 ^ m) y res cc)) s).
Proof.
  intros Hr. destruct (decode_size_ok m Hm) as [_ Hs]. pose proof (width_range _ Hs).
  rewrite put_d_run; [done|exact (wf_dregs _ Hw)|done|done|]. apply (inw_mono w); [lia|done].
Qed.

Lemma shift_none : inw w val → ∃ r,
  (set_nz val (2 ^ m);; clear_flags (CF_SR_V .| CF_SR_C);; put_d y (2 ^ m) val) s =
    Some (tt, upd (λ cc, with_sr r (set_low (2 ^ m) y val cc)) s) ∧
  ∀ j, 0 <= j < 32 → Z.testbit r j = shift_bit val false false j.
Proof.
  intros Hv. destruct (decode_size_ok m Hm) as [_ Hs]. pose proof (width_range _ Hs).
  eexists. rewrite (bind_run _ _ _ _ _ (set_nz_run val (2 ^ m) s Hs ltac:(apply (inw_mono w); [lia|done]))).
  rewrite (bind_run _ _ _ _ _ eq_refl). split; [apply shift_put, Hv|]. intros j Hj.
  rewrite clear_vc_bit by lia. simpl. rewrite nz_bits by done. unfold shift_bit.
  destruct (Z.ltb_spec j 2), (Z.eqb_spec j 0), (Z.eqb_spec j 1), (Z.eqb_spec j 2), (Z.eqb_spec j 3); try lia; try done.
  by rewrite andb_false_r.
Qed.

Lemma shift_some res o (b : bool) : inw w res → ∃ r,
  (set_nz res (2 ^ m);; set_flag CF_SR_C o;; (if b then set_flag CF_SR_X o else mret tt);;
   clear_flags CF_SR_V;; put_d y (2 ^ m) res) s =
    Some (tt, upd (λ cc, with_sr r (set_low (2 ^ m) y res cc)) s) ∧
  ∀ j, 0 <= j < 32 → Z.testbit r j = shift_bit res o b j.
Proof.
  intros Hr. destruct (decode_size_ok m Hm) as [_ Hs]. pose proof (width_range _ Hs).
  rewrite (bind_run _ _ _ _ _ (set_nz_run res (2 ^ m) s Hs ltac:(apply (inw_mono w); [lia|done]))).
  change CF_SR_C with (2 ^ 0). change CF_SR_X with (2 ^ 4). change CF_SR_V with (2 ^ 1).
  rewrite (bind_run _ _ _ _ _ (set_flag_run 0 _ _)).
  set (sr1 := setf 0 o (setf 2 (res mod 2 ^ w =? 0) (setf 3 (Z.testbit res (w - 1)) s.(cpu).(sr)))).
  assert ((if b then set_flag (2 ^ 4) o else mret tt) (upd (with_sr sr1) s) =
    Some (tt, upd (with_sr (if b then setf 4 o sr1 else sr1)) s)) as Ex
    by (destruct b; [exact (set_flag_run 4 o (upd (with_sr sr1) s))|done]).
  eexists. rewrite (bind_run _ _ _ _ _ Ex). rewrite (bind_run _ _ _ _ _ (clear_run 1 _)).
  split; [apply shift_put, Hr|]. intros j Hj. cbn [cpu upd]. change (sr (with_sr ?z _)) with z.
  assert (Z.testbit (if b then setf 4 o sr1 else sr1) j = if (j =? 4) && b then o else Z.testbit sr1 j) as Eb.
  { destruct b; [|by rewrite andb_false_r]. rewrite setf_bit, (Z.eqb_sym 4 j) by lia. by rewrite andb_true_r. }
  rewrite setf_bit by lia. rewrite Eb. unfold sr1. rewrite (setf_bit 0) by lia. rewrite nz_bits by done.
  unfold shift_bit. rewrite (Z.eqb_sym 1 j), (Z.eqb_sym 0 j).
  destruct (Z.eqb_spec j 4), (Z.eqb_spec j 0), (Z.eqb_spec j 1), (Z.eqb_spec j 2), (Z.eqb_spec j 3); try lia; done.
Qed.

Lemma shift_run :
  match shift_spec t (dir =? 1) w val shift_count with
  | Some (res, carry, x) => ∃ r,
      exec (shift_op c dir m ir t y) s = Some (tt, upd (λ cc, with_sr r (set_low (2 ^ m) y res cc)) s) ∧
      ∀ j, 0 <= j < 32 → Z.testbit r j = shift_bit res carry x j
  | None => exec (shift_op c dir m ir t y) s = illegal s
  end.
Proof.
  pose proof (shift_op_fields c dir m ir t y Hc Hd Hm Hi Ht Hy) as F. unfold shift_fields_ok in F.
  rewrite !andb_true_iff, !Z.eqb_eq in F. destruct F as [[[[[[F1 F2] F3] F4] F5] F6] F7].
  destruct (decode_size_ok m Hm) as [Es Hs]. pose proof (width_range _ Hs).
  pose proof (opnd_in _ s.(cpu) y Hs) as Hv. destruct shift_count_run as [Ec Hcnt].
  unfold exec. rewrite F1. cbv iota. unfold exec_groupE. rewrite F2, F3, F4, F5, F6, F7.
  replace (decode_size m) with (2 ^ m) by (rewrite <-Es; assert (m = 0 ∨ m = 1 ∨ m = 2) as [-> | [-> | ->]] by lia; done).
  rewrite (proj2 (Z.eqb_neq m 3)), (proj2 (Z.eqb_neq (2 ^ m) 0)) by lia. rewrite (bind_run _ _ _ _ _ Ec).
  replace (nz dir) with (dir =? 1) by (unfold nz; destruct (Z.eqb_spec dir 0), (Z.eqb_spec dir 1); lia || done).
  destruct (getd_run y s (wf_dregs _ Hw) Hy) as [Ey Hyv]. rewrite (bind_run _ _ _ _ _ Ey). rewrite size_mask_mod by done.
  change (dreg s.(cpu) y mod 2 ^ w) with val. cbv zeta.
  pose proof (shift_spec_in t (dir =? 1) (2 ^ m) val shift_count) as Hin. unfold shift_spec in *.
  destruct (Z.eqb_spec shift_count 0) as [E0|E0]; [by apply shift_none|].
  rewrite shift_result_ref by (done || lia). destruct (shift_ref _ _ _ _ _) as [[[res o] b]|]; [|done].
  apply shift_some. by eapply Hin.
Qed.
End Shift.
