(* ===== verification/Triton.v ===== *)
(** * The Triton console: src/triton-system-emulator/demo/triton.c, triton.h

    The memory map around the ColdFire processor: RAM, video RAM, flash, the GPU
    registers and the serial port, as the callbacks the processor is given, and
    the start of the machine.  An array of C is a function with its size; an
    access outside of it is undefined behaviour ([None]). *)

From S2P Require Import Prelude HostFloat CfState CfOps CfInt CfExec CfFrame CfSafe CfFlags CfMem.

(** ** Memory map *)

Definition TRITON_RAM_SIZE : Z := 8 * 1024 * 1024.
Definition TRITON_RAM_END : Z := TRITON_RAM_SIZE.
Definition TRITON_VRAM_BASE : Z := 0x00800000.
Definition TRITON_VRAM_SIZE : Z := 8 * 1024 * 1024.
Definition TRITON_VRAM_END : Z := TRITON_VRAM_BASE + TRITON_VRAM_SIZE.
Definition TRITON_GPU_BASE : Z := 0x01000000.
Definition TRITON_GPU_SIZE : Z := 0x00010000.
Definition TRITON_GPU_END : Z := TRITON_GPU_BASE + TRITON_GPU_SIZE.
Definition TRITON_UART_BASE : Z := 0x01150000.
Definition TRITON_UART_SIZE : Z := 0x00000100.
Definition TRITON_UART_END : Z := TRITON_UART_BASE + TRITON_UART_SIZE.
Definition TRITON_FLASH_BASE : Z := 0x01200000.
Definition TRITON_FLASH_SIZE : Z := 4 * 1024 * 1024.
Definition TRITON_FLASH_END : Z := TRITON_FLASH_BASE + TRITON_FLASH_SIZE.

Definition UART_TX_DATA : Z := 0x00.
Definition UART_TX_STATUS : Z := 0x04.
Definition UART_RX_DATA : Z := 0x08.
Definition UART_RX_STATUS : Z := 0x0C.
Definition GPU_STATUS : Z := 0x00.
Definition GPU_VID_PROC_CFG : Z := 0x04.
Definition GPU_FB_BASE : Z := 0x08.
Definition GPU_STATUS_IDLE : Z := 1 << 0.
Definition GPU_STATUS_VBLANK : Z := 1 << 1.

(** A [uint8_t] array. *)
Record carray : Type := mk_array { asize : Z; abytes : Z → Z }.

(** The state of the console without the processor; [uart_tx] are the bytes
    that [putchar] has written. *)
Record triton_sys : Type := mk_triton {
  t_ram : carray;
  t_vram : carray;
  t_flash : carray;
  t_gpu_regs : carray;
  uart_rx_data : Z;
  uart_rx_ready : Z;
  uart_tx : list Z
}.

(** ** Big-endian memory helpers *)

Definition rd (m : carray) (off : Z) : option Z :=
  if (0 <=? off) && (off <? m.(asize)) then Some (m.(abytes) off) else None.
Definition wr (m : carray) (off v : Z) : option carray :=
  if (0 <=? off) && (off <? m.(asize))
  then Some (mk_array m.(asize) (λ q, if q =? off then v else m.(abytes) q)) else None.

Definition rd8 (m : carray) (off : Z) : option Z := rd m off.
Definition rd16 (m : carray) (off : Z) : option Z :=
  x ← rd m off;
  y ← rd m (u32 (off + 1));
  Some (u32 (x << 8) .| y).
Definition rd32 (m : carray) (off : Z) : option Z :=
  x ← rd m off;
  y ← rd m (u32 (off + 1));
  z ← rd m (u32 (off + 2));
  w ← rd m (u32 (off + 3));
  Some (u32 (x << 24) .| u32 (y << 16) .| u32 (z << 8) .| w).

Definition wr8 (m : carray) (off val : Z) : option carray := wr m off (val .& 0xFF).
Definition wr16 (m : carray) (off val : Z) : option carray :=
  m ← wr m off ((val >> 8) .& 0xFF);
  wr m (u32 (off + 1)) (val .& 0xFF).
Definition wr32 (m : carray) (off val : Z) : option carray :=
  m ← wr m off ((val >> 24) .& 0xFF);
  m ← wr m (u32 (off + 1)) ((val >> 16) .& 0xFF);
  m ← wr m (u32 (off + 2)) ((val >> 8) .& 0xFF);
  wr m (u32 (off + 3)) (val .& 0xFF).

(** ** Assignments [sys->field = v] *)

Definition set_ram (m : carray) (t : triton_sys) : triton_sys :=
  mk_triton m t.(t_vram) t.(t_flash) t.(t_gpu_regs) t.(uart_rx_data) t.(uart_rx_ready) t.(uart_tx).
Definition set_vram (m : carray) (t : triton_sys) : triton_sys :=
  mk_triton t.(t_ram) m t.(t_flash) t.(t_gpu_regs) t.(uart_rx_data) t.(uart_rx_ready) t.(uart_tx).
Definition set_gpu_regs (m : carray) (t : triton_sys) : triton_sys :=
  mk_triton t.(t_ram) t.(t_vram) t.(t_flash) m t.(uart_rx_data) t.(uart_rx_ready) t.(uart_tx).
Definition set_rx_ready (v : Z) (t : triton_sys) : triton_sys :=
  mk_triton t.(t_ram) t.(t_vram) t.(t_flash) t.(t_gpu_regs) t.(uart_rx_data) v t.(uart_tx).
Definition put_char (v : Z) (t : triton_sys) : triton_sys :=
  mk_triton t.(t_ram) t.(t_vram) t.(t_flash) t.(t_gpu_regs) t.(uart_rx_data) t.(uart_rx_ready)
    (t.(uart_tx) ++ [v]).

(** ** Peripherals *)

Definition uart_read (t : triton_sys) (offset : Z) : Z * triton_sys :=
  if offset =? UART_TX_STATUS then (1, t)
  else if offset =? UART_RX_DATA then (t.(uart_rx_data), set_rx_ready 0 t)
  else if offset =? UART_RX_STATUS then (Z.b2z (nz t.(uart_rx_ready)), t)
  else (0, t).

Definition uart_write (t : triton_sys) (offset val : Z) : triton_sys :=
  if offset =? UART_TX_DATA then put_char (val .& 0xFF) t else t.

Definition gpu_read (t : triton_sys) (offset : Z) : option Z :=
  if offset =? GPU_STATUS then Some (GPU_STATUS_IDLE .| GPU_STATUS_VBLANK)
  else if (offset =? GPU_VID_PROC_CFG) || (offset =? GPU_FB_BASE) then rd32 t.(t_gpu_regs) offset
  else if u32 (offset + 3) <? TRITON_GPU_SIZE then rd32 t.(t_gpu_regs) offset
  else Some 0.

Definition gpu_write (t : triton_sys) (offset val : Z) : option triton_sys :=
  if u32 (offset + 3) <? TRITON_GPU_SIZE then
    m ← wr32 t.(t_gpu_regs) offset val;
    Some (set_gpu_regs m t)
  else Some t.

(** ** Memory bus dispatch

    The three widths differ in the last byte [n] that the comparisons look at,
    in the helper and in the mask of the GPU value. *)

Definition ret_same (t : triton_sys) (o : option Z) : option (Z * triton_sys) :=
  v ← o; Some (v, t).

Definition read_bus (n : Z) (rdn : carray → Z → option Z) (gpu_mask : Z → Z)
    (t : triton_sys) (addr : Z) : option (Z * triton_sys) :=
  if u32 (addr + n) <? TRITON_RAM_END then ret_same t (rdn t.(t_ram) addr)
  else if (TRITON_VRAM_BASE <=? addr) && (u32 (addr + n) <? TRITON_VRAM_END) then
    ret_same t (rdn t.(t_vram) (addr - TRITON_VRAM_BASE))
  else if (TRITON_UART_BASE <=? addr) && (addr <? TRITON_UART_END) then
    Some (uart_read t (addr - TRITON_UART_BASE))
  else if (TRITON_GPU_BASE <=? addr) && (u32 (addr + n) <? TRITON_GPU_END) then
    v ← gpu_read t (addr - TRITON_GPU_BASE); Some (gpu_mask v, t)
  else if (TRITON_FLASH_BASE <=? addr) && (u32 (addr + n) <? TRITON_FLASH_END) then
    ret_same t (rdn t.(t_flash) (addr - TRITON_FLASH_BASE))
  else Some (0, t).

Definition write_bus (n : Z) (wrn : carray → Z → Z → option carray)
    (t : triton_sys) (addr val : Z) : option triton_sys :=
  if u32 (addr + n) <? TRITON_RAM_END then m ← wrn t.(t_ram) addr val; Some (set_ram m t)
  else if (TRITON_VRAM_BASE <=? addr) && (u32 (addr + n) <? TRITON_VRAM_END) then
    m ← wrn t.(t_vram) (addr - TRITON_VRAM_BASE) val; Some (set_vram m t)
  else if (TRITON_UART_BASE <=? addr) && (addr <? TRITON_UART_END) then
    Some (uart_write t (addr - TRITON_UART_BASE) val)
  else if (TRITON_GPU_BASE <=? addr) && (u32 (addr + n) <? TRITON_GPU_END) then
    gpu_write t (addr - TRITON_GPU_BASE) val
  else Some t.

Definition triton_read8 : triton_sys → Z → option (Z * triton_sys) := read_bus 0 rd8 (λ v, v .& 0xFF).
Definition triton_read16 : triton_sys → Z → option (Z * triton_sys) := read_bus 1 rd16 (λ v, v .& 0xFFFF).
Definition triton_read32 : triton_sys → Z → option (Z * triton_sys) := read_bus 3 rd32 (λ v, v).
Definition triton_write8 : triton_sys → Z → Z → option triton_sys := write_bus 0 wr8.
Definition triton_write16 : triton_sys → Z → Z → option triton_sys := write_bus 1 wr16.
Definition triton_write32 : triton_sys → Z → Z → option triton_sys := write_bus 3 wr32.

Definition triton_bus : cf_callbacks triton_sys := {|
  read8 := triton_read8; read16 := triton_read16; read32 := triton_read32;
  write8 := triton_write8; write16 := triton_write16; write32 := triton_write32;
  hypercall := None
|}.

(** ** Start of the machine

    The part of [main] up to the emulation loop, for a guest that is loaded from
    the file [elf]: the monitor [rom] is put into flash and the guest into RAM,
    and the processor starts with its vectors in flash. *)

Definition zeroed (n : Z) : carray := mk_array n (λ _, 0).

(** The array after [src] was copied to [m + off]. *)
Definition copy_in (m : carray) (off : Z) (src : list Z) : option carray :=
  if (0 <=? off) && (off + Z.of_nat (length src) <=? m.(asize)) then
    Some (mk_array m.(asize) (λ q, default (m.(abytes) q)
      (if off <=? q then src !! Z.to_nat (q - off) else None)))
  else None.

Definition TRITON_ELF_STAGE : Z := 0x00001000.

(** [inl] is the exit for a ROM or a program that does not fit. *)
Definition triton_boot {C : CImpl} (rom elf : list Z) : option (unit + cf_sys triton_sys) :=
  if TRITON_FLASH_SIZE <? Z.of_nat (length rom) then Some (inl tt)
  else
    flash ← copy_in (zeroed TRITON_FLASH_SIZE) 0 rom;
    if (Z.of_nat (length elf) <=? 0) || (TRITON_RAM_SIZE - TRITON_ELF_STAGE <? Z.of_nat (length elf))
    then Some (inl tt)
    else
      ram ← copy_in (zeroed TRITON_RAM_SIZE) TRITON_ELF_STAGE elf;
      let t := mk_triton ram (zeroed TRITON_VRAM_SIZE) flash (zeroed TRITON_GPU_SIZE) 0 0 [] in
      match cf_reset (cb := triton_bus) (mk_sys (with_vbr TRITON_FLASH_BASE cf_init) t) with
      | Some (_, s) => Some (inr s)
      | None => None
      end.

(** The headless loop: whether to run another frame after [cf_run] returned. *)
Definition CYCLES_PER_FRAME : Z := 3333333.

Definition triton_frame {C : CImpl} (s : cf_sys triton_sys) : option (bool * cf_sys triton_sys) :=
  match cf_run (cb := triton_bus) CYCLES_PER_FRAME s with
  | Some (n, s) => Some (negb ((n =? 0) || s.(cpu).(halted)), s)
  | None => None
  end.

(** ** Arrays *)

Record array_ok (n : Z) (m : carray) : Prop := {
  ao_size : m.(asize) = n;
  ao_bytes q : in8 (m.(abytes) q)
}.

Lemma rd_in n m off : array_ok n m → 0 <= off < n → rd m off = Some (m.(abytes) off).
Proof. intros [<- _] H. unfold rd. rewrite (proj2 (Z.leb_le _ _)), (proj2 (Z.ltb_lt _ _)) by lia. done. Qed.

Lemma rd_out n m off : array_ok n m → n <= off → rd m off = None.
Proof. intros [<- _] H. unfold rd. rewrite (proj2 (Z.ltb_ge _ _)) by lia. by rewrite andb_false_r. Qed.

Lemma wr_in n m off v :
  array_ok n m → 0 <= off < n → in8 v →
  ∃ m', wr m off v = Some m' ∧ array_ok n m' ∧
    ∀ q, m'.(abytes) q = if q =? off then v else m.(abytes) q.
Proof.
  intros [<- Hb] H Hv. unfold wr. rewrite (proj2 (Z.leb_le _ _)), (proj2 (Z.ltb_lt _ _)) by lia. simpl.
  eexists. split; [done|]. split; [|done]. split; [done|]. intros q. simpl. case_match; auto.
Qed.

Lemma wr_out n m off v : array_ok n m → n <= off → wr m off v = None.
Proof. intros [<- _] H. unfold wr. rewrite (proj2 (Z.ltb_ge _ _)) by lia. by rewrite andb_false_r. Qed.

(** What the bus needs of the helpers of one width, whose last byte is [n]. *)
Record width_ok (n : Z) (rdn : carray → Z → option Z) (wrn : carray → Z → Z → option carray) : Prop := {
  wo_rd sz m off : array_ok sz m → sz < 2 ^ 32 → 0 <= off → off + n < sz → ∃ v, rdn m off = Some v ∧ in32 v;
  wo_rd_out sz m off : array_ok sz m → sz <= off → rdn m off = None;
  wo_wr sz m off v : array_ok sz m → sz < 2 ^ 32 → 0 <= off → off + n < sz → in32 v →
    ∃ m', wrn m off v = Some m' ∧ array_ok sz m' ∧ rdn m' off = Some (v mod 2 ^ (8 * (n + 1)));
  wo_wr_out sz m off v : array_ok sz m → sz <= off → wrn m off v = None
}.

Lemma land_u8 v : v .& 0xFF = u8 v.
Proof. change 0xFF with (Z.ones 8). by rewrite Z.land_ones. Qed.

Lemma u32_off off i sz : 0 <= off → 0 <= i → off + i < sz → sz < 2 ^ 32 → u32 (off + i) = off + i.
Proof. intros. apply u32_small. unfold inw. lia. Qed.

Lemma width8 : width_ok 0 rd8 wr8.
Proof.
  split; unfold rd8, wr8.
  - intros sz m off Hm Hs Ho Hn. rewrite (rd_in sz) by (done || lia). eexists. split; [done|].
    apply (inw_mono 8); [lia|apply Hm].
  - intros. by eapply rd_out.
  - intros sz m off v Hm Hs Ho Hn Hv.
    destruct (wr_in sz m off (v .& 0xFF)) as (m' & E & Hm' & Hq); [done|lia|auto with word|].
    exists m'. split; [done|]. split; [done|]. rewrite (rd_in sz) by (done || lia). rewrite Hq, Z.eqb_refl.
    by rewrite land_u8.
  - intros. by eapply wr_out.
Qed.

Lemma width16 : width_ok 1 rd16 wr16.
Proof.
  split; unfold rd16, wr16.
  - intros sz m off Hm Hs Ho Hn. rewrite (u32_off off 1 sz), !(rd_in sz) by (done || lia). simpl.
    eexists. split; [done|]. apply inw_lor; [apply u32_in|]. apply (inw_mono 8); [lia|apply Hm].
  - intros sz m off Hm Ho. by rewrite (rd_out sz m off).
  - intros sz m off v Hm Hs Ho Hn Hv. rewrite (u32_off off 1 sz) by lia.
    destruct (wr_in sz m off ((v >> 8) .& 0xFF)) as (m1 & E1 & Hm1 & Hq1); [done|lia|auto with word|].
    destruct (wr_in sz m1 (off + 1) (v .& 0xFF)) as (m2 & E2 & Hm2 & Hq2); [done|lia|auto with word|].
    exists m2. rewrite E1. simpl. split; [done|]. split; [done|].
    rewrite !(rd_in sz) by (done || lia). simpl. f_equal. rewrite !Hq2, !Hq1.
    rewrite !Z.eqb_refl, (proj2 (Z.eqb_neq off (off + 1))) by lia. rewrite !land_u8.
    rewrite u32_small by (apply inw_shiftl; [lia|]; apply (inw_mono 8); [lia|apply u8_in]).
    change (v mod _) with (u16 v). rewrite <-(join16 v). symmetry. apply Z.mod_small. apply (inw_lor 16).
    + apply inw_shiftl; [lia|apply u8_in].
    + apply (inw_mono 8); [lia|apply u8_in].
  - intros sz m off v Hm Ho. by rewrite (wr_out sz m off).
Qed.

Lemma width32 : width_ok 3 rd32 wr32.
Proof.
  split; unfold rd32, wr32.
  - intros sz m off Hm Hs Ho Hn. rewrite (u32_off off 1 sz), (u32_off off 2 sz), (u32_off off 3 sz) by lia.
    rewrite !(rd_in sz) by (done || lia). simpl.
    eexists. split; [done|]. repeat apply inw_lor; try apply u32_in. apply (inw_mono 8); [lia|apply Hm].
  - intros sz m off Hm Ho. by rewrite (rd_out sz m off).
  - intros sz m off v Hm Hs Ho Hn Hv. rewrite (u32_off off 1 sz), (u32_off off 2 sz), (u32_off off 3 sz) by lia.
    destruct (wr_in sz m off ((v >> 24) .& 0xFF)) as (m1 & E1 & Hm1 & Hq1); [done|lia|auto with word|].
    destruct (wr_in sz m1 (off + 1) ((v >> 16) .& 0xFF)) as (m2 & E2 & Hm2 & Hq2); [done|lia|auto with word|].
    destruct (wr_in sz m2 (off + 2) ((v >> 8) .& 0xFF)) as (m3 & E3 & Hm3 & Hq3); [done|lia|auto with word|].
    destruct (wr_in sz m3 (off + 3) (v .& 0xFF)) as (m4 & E4 & Hm4 & Hq4); [done|lia|auto with word|].
    exists m4. rewrite E1. simpl. rewrite E2. simpl. rewrite E3. simpl. split; [done|]. split; [done|].
    rewrite !(rd_in sz) by (done || lia). simpl. f_equal. rewrite !Hq4, !Hq3, !Hq2, !Hq1. rewrite !Z.eqb_refl.
    rewrite !(proj2 (Z.eqb_neq _ _)) by lia. rewrite !land_u8.
    change (v mod _) with (u32 v). rewrite <-(join32 v).
    rewrite (u32_small (_ << 16)), (u32_small (_ << 8))
      by (apply inw_shiftl; [lia|]; apply (inw_mono 8); [lia|apply u8_in]). done.
  - intros sz m off v Hm Ho. by rewrite (wr_out sz m off).
Qed.

(** ** The bus *)

Record wf_triton (t : triton_sys) : Prop := {
  wt_ram : array_ok TRITON_RAM_SIZE t.(t_ram);
  wt_vram : array_ok TRITON_VRAM_SIZE t.(t_vram);
  wt_flash : array_ok TRITON_FLASH_SIZE t.(t_flash);
  wt_gpu : array_ok TRITON_GPU_SIZE t.(t_gpu_regs);
  wt_data : in8 t.(uart_rx_data);
  wt_ready : in8 t.(uart_rx_ready)
}.

Ltac bus_consts :=
  unfold TRITON_RAM_END, TRITON_RAM_SIZE, TRITON_VRAM_END, TRITON_VRAM_BASE, TRITON_VRAM_SIZE,
    TRITON_UART_END, TRITON_UART_BASE, TRITON_UART_SIZE, TRITON_GPU_END, TRITON_GPU_BASE, TRITON_GPU_SIZE,
    TRITON_FLASH_END, TRITON_FLASH_BASE, TRITON_FLASH_SIZE, GPU_VID_PROC_CFG, GPU_FB_BASE in *.

(** The comparisons of a dispatch, in order. *)
Ltac bus_case :=
  match goal with
  | |- context [if ?b then _ else _] => let E := fresh "E" in destruct b eqn:E
  end.
Ltac bool_hyps :=
  repeat match goal with
  | H : (_ && _) = true |- _ => apply andb_true_iff in H as [? ?]
  | H : (_ <? _) = true |- _ => apply Z.ltb_lt in H
  | H : (_ <=? _) = true |- _ => apply Z.leb_le in H
  | H : (_ =? _) = true |- _ => apply Z.eqb_eq in H
  | H : (_ <? _) = false |- _ => apply Z.ltb_ge in H
  end.

(** What a read may change: a received byte is taken. *)
Definition same_memory (t t' : triton_sys) : Prop :=
  t'.(t_ram) = t.(t_ram) ∧ t'.(t_vram) = t.(t_vram) ∧ t'.(t_flash) = t.(t_flash) ∧
  t'.(t_gpu_regs) = t.(t_gpu_regs) ∧ t'.(uart_tx) = t.(uart_tx).

Lemma gpu_read_ok t off :
  wf_triton t → 0 <= off → off < TRITON_GPU_SIZE → ∃ v, gpu_read t off = Some v ∧ in32 v.
Proof.
  intros Ht H0 H1. unfold gpu_read. bus_case; [by eexists|].
  assert (off + 3 < TRITON_GPU_SIZE → ∃ v, rd32 t.(t_gpu_regs) off = Some v ∧ in32 v) as Hrd.
  { intros. eapply wo_rd; [apply width32|apply Ht|done|lia|lia]. }
  bus_case. { apply Hrd. apply orb_true_iff in E0. bus_consts. lia. }
  rewrite u32_small by (unfold inw; bus_consts; lia).
  bus_case; bool_hyps; [by apply Hrd|]. by eexists.
Qed.

Lemma gpu_write_ok t off v :
  wf_triton t → 0 <= off → off < TRITON_GPU_SIZE → in32 v →
  ∃ m, gpu_write t off v = Some (set_gpu_regs m t) ∧ array_ok TRITON_GPU_SIZE m.
Proof.
  intros Ht H0 H1 Hv. unfold gpu_write. rewrite u32_small by (unfold inw; bus_consts; lia).
  bus_case; bool_hyps.
  - destruct (wo_wr _ _ _ width32 TRITON_GPU_SIZE t.(t_gpu_regs) off v) as (m & Em & Hm & _);
      [apply Ht|done|lia|lia|done|]. rewrite Em. simpl. eauto.
  - exists t.(t_gpu_regs). split; [by destruct t|apply Ht].
Qed.

Section Width.
Context {n : Z} {rdn : carray → Z → option Z} {wrn : carray → Z → Z → option carray} {mask : Z → Z}.
Hypothesis (Hw : width_ok n rdn wrn) (Hn : 0 <= n < 4) (Hmask : ∀ v, in32 v → in32 (mask v)).

Lemma read_bus_ok t p :
  wf_triton t → 0 <= p → p + n < 2 ^ 32 →
  ∃ v t', read_bus n rdn mask t p = Some (v, t') ∧ in32 v ∧ wf_triton t' ∧ same_memory t t'.
Proof.
  intros Ht H0 H1. unfold read_bus. rewrite u32_small by (unfold inw; lia).
  assert (∀ sz m off, array_ok sz m → sz < 2 ^ 32 → 0 <= off → off + n < sz →
    ∃ v t', ret_same t (rdn m off) = Some (v, t') ∧ in32 v ∧ wf_triton t' ∧ same_memory t t') as Hrd.
  { intros sz m off Hm Hs Ho Hlt. destruct (wo_rd _ _ _ Hw sz m off) as (v & -> & Hv); [done..|].
    by exists v, t. }
  bus_case; [bool_hyps; eapply Hrd; [apply Ht|done|done|done]|].
  bus_case; [bool_hyps; eapply Hrd; [apply Ht|done|bus_consts; lia|bus_consts; lia]|].
  bus_case. { unfold uart_read. do 2 (bus_case; [eexists _, _; split; [done|]; split;
      [first [done|apply (inw_mono 8); [lia|apply Ht]]|]; split; [destruct Ht; by split|done]|]).
    bus_case; eexists _, _; (split; [done|]); [|done]. split; [|done]. destruct (nz _); done. }
  bus_case. { bool_hyps. destruct (gpu_read_ok t (p - TRITON_GPU_BASE)) as (v & -> & Hv);
    [done|bus_consts; lia..|]. exists (mask v), t. specialize (Hmask v Hv). done. }
  bus_case; [bool_hyps; eapply Hrd; [apply Ht|done|bus_consts; lia|bus_consts; lia]|].
  by exists 0, t.
Qed.

Lemma read_bus_wrap t p :
  wf_triton t → p < 2 ^ 32 → 2 ^ 32 <= p + n → read_bus n rdn mask t p = None.
Proof.
  intros Ht H0 H1. unfold read_bus.
  replace (u32 (p + n)) with (p + n - 2 ^ 32) by (unfold u32; rewrite <-(Z.mod_add _ (-1)), Z.mod_small; lia).
  rewrite (proj2 (Z.ltb_lt _ _)) by (bus_consts; lia).
  rewrite (wo_rd_out _ _ _ Hw TRITON_RAM_SIZE); [done|apply Ht|bus_consts; lia].
Qed.

(** The addresses of an access that lies in one of the two memories. *)
Definition in_memory (p : Z) : Prop :=
  p + n < TRITON_RAM_END ∨ TRITON_VRAM_BASE <= p ∧ p + n < TRITON_VRAM_END.

Lemma write_bus_ok t p v :
  wf_triton t → 0 <= p → p + n < 2 ^ 32 → in32 v →
  ∃ t', write_bus n wrn t p v = Some t' ∧ wf_triton t' ∧ t'.(t_flash) = t.(t_flash) ∧
    (in_memory p → read_bus n rdn mask t' p = Some (v mod 2 ^ (8 * (n + 1)), t')).
Proof.
  intros Ht H0 H1 Hv. unfold write_bus, read_bus, in_memory. rewrite u32_small by (unfold inw; lia).
  destruct (p + n <? TRITON_RAM_END) eqn:E; bool_hyps.
  { destruct (wo_wr _ _ _ Hw TRITON_RAM_SIZE t.(t_ram) p v) as (m & -> & Hm & Hr); [apply Ht|done..|].
    eexists. split; [done|]. destruct Ht. split; [by split|]. split; [done|]. simpl. by rewrite Hr. }
  destruct ((TRITON_VRAM_BASE <=? p) && (p + n <? TRITON_VRAM_END)) eqn:E1; bool_hyps.
  { destruct (wo_wr _ _ _ Hw TRITON_VRAM_SIZE t.(t_vram) (p - TRITON_VRAM_BASE) v) as (m & -> & Hm & Hr);
      [apply Ht|done|bus_consts; lia|bus_consts; lia|done|].
    eexists. split; [done|]. destruct Ht. split; [by split|]. split; [done|]. simpl. by rewrite Hr. }
  assert (∀ P : Prop, p + n < TRITON_RAM_END ∨ TRITON_VRAM_BASE <= p ∧ p + n < TRITON_VRAM_END → P) as Hno.
  { intros P [?|[? ?]]; [lia|]. apply andb_false_iff in E1 as [?%Z.leb_gt|?%Z.ltb_ge]; lia. }
  bus_case. { unfold uart_write. bus_case; eexists; (split; [done|]); (split; [destruct Ht; by split|]);
    (split; [done|]); apply Hno. }
  bus_case. { bool_hyps. destruct (gpu_write_ok t (p - TRITON_GPU_BASE) v) as (m & -> & Hm); [done|bus_consts; lia..|done|].
    eexists. split; [done|]. split; [destruct Ht; by split|]. split; [done|]. apply Hno. }
  eexists. split; [done|]. split; [done|]. split; [done|]. apply Hno.
Qed.

Lemma write_bus_wrap t p v :
  wf_triton t → p < 2 ^ 32 → 2 ^ 32 <= p + n → write_bus n wrn t p v = None.
Proof.
  intros Ht H0 H1. unfold write_bus.
  replace (u32 (p + n)) with (p + n - 2 ^ 32) by (unfold u32; rewrite <-(Z.mod_add _ (-1)), Z.mod_small; lia).
  rewrite (proj2 (Z.ltb_lt _ _)) by (bus_consts; lia).
  rewrite (wo_wr_out _ _ _ Hw TRITON_RAM_SIZE); [done|apply Ht|bus_consts; lia].
Qed.
End Width.

(** ** Start *)

Lemma copy_in_ok n m off src :
  array_ok n m → 0 <= off → off + Z.of_nat (length src) <= n → Forall in8 src →
  ∃ m', copy_in m off src = Some m' ∧ array_ok n m' ∧
    ∀ i x, src !! i = Some x → m'.(abytes) (off + Z.of_nat i) = x.
Proof.
  intros [<- Hb] Ho Hl Hs. unfold copy_in.
  rewrite (proj2 (Z.leb_le _ _)), (proj2 (Z.leb_le _ _)) by lia. eexists. split; [done|]. split; [split; [done|]|]; simpl.
  - intros q. destruct (off <=? q); [|apply Hb]. destruct (src !! _) as [x|] eqn:E; [|apply Hb].
    simpl. rewrite Forall_lookup in Hs. by eapply Hs.
  - intros i x Hi. destruct (Z.leb_spec off (off + Z.of_nat i)); [|lia].
    replace (Z.to_nat (off + Z.of_nat i - off)) with i by lia. by rewrite Hi.
Qed.

Lemma zeroed_ok n : array_ok n (zeroed n).
Proof. by split. Qed.

(** The big-endian word of the bytes of [l] from [i] on. *)
Definition word_at (l : list Z) (i : nat) : Z :=
  let byte k := default 0 (l !! (i + k)%nat) in
  (byte 0%nat << 24) .| (byte 1%nat << 16) .| (byte 2%nat << 8) .| byte 3%nat.

Lemma rom_byte (l : list Z) i : (i < length l)%nat → l !! i = Some (default 0 (l !! i)).
Proof. intros H. destruct (lookup_lt_is_Some_2 l i H) as [x E]. by rewrite E. Qed.

(** The reset vectors are the first two words of the flash. *)
Lemma read_flash t rom i :
  wf_triton t → Forall in8 rom → (i + 4 <= length rom)%nat → Z.of_nat (length rom) <= TRITON_FLASH_SIZE →
  (∀ k x, rom !! k = Some x → t.(t_flash).(abytes) (Z.of_nat k) = x) →
  triton_read32 t (TRITON_FLASH_BASE + Z.of_nat i) = Some (word_at rom i, t).
Proof.
  intros Ht Hr Hi Hl Hb. unfold triton_read32, read_bus.
  rewrite u32_small by (unfold inw; bus_consts; lia).
  rewrite !(proj2 (Z.ltb_ge _ _)) by (bus_consts; lia). rewrite ?andb_false_r.
  rewrite (proj2 (Z.leb_le _ _)), (proj2 (Z.ltb_lt _ _)) by (bus_consts; lia). cbn [andb].
  replace (TRITON_FLASH_BASE + Z.of_nat i - TRITON_FLASH_BASE) with (Z.of_nat i) by lia.
  unfold rd32. rewrite !u32_small by (unfold inw; bus_consts; lia).
  assert (∀ k, (k < 4)%nat → rd t.(t_flash) (Z.of_nat i + Z.of_nat k) = Some (default 0 (rom !! (i + k)%nat)) ∧
    in8 (default 0 (rom !! (i + k)%nat))) as Hk.
  { intros k Hk. rewrite (rd_in TRITON_FLASH_SIZE) by (apply Ht || lia).
    pose proof (rom_byte rom (i + k) ltac:(lia)) as E. split.
    - f_equal. rewrite <-(Hb _ _ E). f_equal. lia.
    - rewrite Forall_lookup in Hr. by eapply Hr. }
  destruct (Hk 0%nat) as [E0 H0], (Hk 1%nat) as [E1 H1], (Hk 2%nat) as [E2 H2], (Hk 3%nat) as [E3 H3]; try lia.
  rewrite Z.add_0_r in E0. change (Z.of_nat 1) with 1 in E1. change (Z.of_nat 2) with 2 in E2.
  change (Z.of_nat 3) with 3 in E3. rewrite E0, E1, E2, E3. simpl. unfold word_at.
  rewrite !u32_small; [done|..]; apply inw_shiftl; try lia; apply (inw_mono 8); done || lia.
Qed.

(** The processor after the reset. *)
Definition boot_cpu (sp start : Z) : cf_cpu :=
  with_a (<[7%nat := sp]> (replicate 8 0)) (with_pc start (with_sr (CF_SR_S .| (7 << 8))
    (with_mask 0xFFFFFFFF (with_vbr TRITON_FLASH_BASE cf_init)))).

Lemma reset_run t sp start :
  triton_read32 t TRITON_FLASH_BASE = Some (sp, t) →
  triton_read32 t (TRITON_FLASH_BASE + 4) = Some (start, t) →
  cf_reset (cb := triton_bus) (mk_sys (with_vbr TRITON_FLASH_BASE cf_init) t) =
    Some (tt, mk_sys (boot_cpu sp start) t).
Proof.
  intros E1 E2. unfold cf_reset. do 2 rewrite (bind_run _ _ _ _ _ eq_refl).
  assert (∀ q v c b', triton_read32 t q = Some (v, b') → bus_read32 (cb := triton_bus) q (mk_sys c t) = Some (v, mk_sys c b')) as Hr.
  { intros q v c b' E. unfold bus_read32, bus_rd. simpl. by rewrite E. }
  rewrite (bind_run _ _ _ _ _ (Hr _ _ _ _ E1)).
  set (c2 := with_a (<[7%nat := sp]> (replicate 8 0))
    (with_sr (CF_SR_S .| (7 << 8)) (with_vbr TRITON_FLASH_BASE cf_init))).
  rewrite (bind_run _ _ _ tt (mk_sys c2 t)) by reflexivity.
  rewrite (bind_run _ _ _ TRITON_FLASH_BASE (mk_sys c2 t)) by reflexivity.
  rewrite (bind_run _ _ _ _ _ (Hr _ _ _ _ E2)). reflexivity.
Qed.

Lemma boot_run {C : CImpl} rom elf :
  (8 <= length rom)%nat → Z.of_nat (length rom) <= TRITON_FLASH_SIZE → Forall in8 rom →
  0 < Z.of_nat (length elf) <= TRITON_RAM_SIZE - TRITON_ELF_STAGE → Forall in8 elf →
  ∃ t, triton_boot rom elf = Some (inr (mk_sys (boot_cpu (word_at rom 0) (word_at rom 4)) t)) ∧ wf_triton t ∧
    (∀ i x, rom !! i = Some x → t.(t_flash).(abytes) (Z.of_nat i) = x) ∧
    (∀ i x, elf !! i = Some x → t.(t_ram).(abytes) (TRITON_ELF_STAGE + Z.of_nat i) = x) ∧ t.(uart_tx) = [].
Proof.
  intros H8 Hrl Hr [He0 Hel] He. unfold triton_boot. rewrite (proj2 (Z.ltb_ge _ _)) by lia.
  destruct (copy_in_ok TRITON_FLASH_SIZE (zeroed TRITON_FLASH_SIZE) 0 rom) as (flash & -> & Hf & Hfb);
    [apply zeroed_ok|lia|lia|done|]. cbn [mbind option_bind].
  rewrite (proj2 (Z.leb_gt _ _)), (proj2 (Z.ltb_ge _ _)) by lia. cbn [orb].
  destruct (copy_in_ok TRITON_RAM_SIZE (zeroed TRITON_RAM_SIZE) TRITON_ELF_STAGE elf) as (ram & -> & Hm & Hmb);
    [apply zeroed_ok|done|lia|done|]. cbn [mbind option_bind].
  set (t := mk_triton _ _ _ _ _ _ _).
  assert (wf_triton t) as Ht by (split; done || apply zeroed_ok).
  rewrite (reset_run t (word_at rom 0) (word_at rom 4)).
  - exists t. done.
  - rewrite <-(Z.add_0_r TRITON_FLASH_BASE). apply (read_flash t rom 0); done || lia.
  - apply (read_flash t rom 4); done || lia.
Qed.
