(* ===== verification/CfTheorems.v ===== *)
(** * What is shown of the ColdFire emulator and the Triton bus *)

From S2P Require Import Prelude HostFloat CfState CfOps CfInt CfExec CfFrame CfSafe CfUser CfFlags CfMem CfEmac CfAlu Triton.

(** ** Programs for the witnesses *)

(** A memory of zeros with the bytes [l] at [p]. *)
Definition image (p : Z) (l : list Z) : Z → Z :=
  λ q, if p <=? q then default 0 (l !! Z.to_nat (q - p)) else 0.

Lemma image_ok p l : Forall in8 l → bytes_ok (image p l).
Proof.
  intros Hl q. unfold image. case_match; [|done]. destruct (l !! _) eqn:E; [|done].
  simpl. rewrite Forall_lookup in Hl. by eapply Hl.
Qed.

Lemma wf_cf_init : wf_cpu cf_init.
Proof. split; try done; repeat constructor; done. Qed.

(** [moveq #5,d0; moveq #7,d1; add.l d1,d0; halt] at [0x1000]. *)
Definition add_program : list Z := [0x70; 5; 0x72; 7; 0xD0; 0x81; 0x4A; 0xC8].
Definition add_machine : cf_sys (Z → Z) := mk_sys (with_pc 0x1000 cf_init) (image 0x1000 add_program).

Lemma add_machine_inv : Inv bytes_ok add_machine.
Proof.
  split; simpl; [|apply image_ok; repeat constructor; done].
  destruct wf_cf_init. split; try done.
Qed.

(** The same program in user mode, with the stacks of the two modes. *)
Definition user_cpu : cf_cpu :=
  with_other_a7 0x8000 (with_sp 0x4000 (with_sr 0 (with_pc 0x1000 cf_init))).
Definition user_machine : cf_sys (Z → Z) := mk_sys user_cpu (image 0x1000 add_program).

Lemma user_machine_inv : Inv bytes_ok user_machine.
Proof.
  split; simpl; [|apply image_ok; repeat constructor; done].
  split; try done; repeat constructor; done.
Qed.

(** ** Runs *)

Section Run.
Context {B : Type} {cb : cf_callbacks B} {C : CImpl}.
Implicit Types s : cf_sys B.

(** A step that reports a stop leaves a stopped processor. *)
Lemma step_stops r s s' : cf_step s = Some (r, s') → r < 0 → stopped s'.(cpu) = true.
Proof.
  unfold cf_step, mbind, M_bind, getc, mgets, mret, M_ret. destruct (stopped s.(cpu)) eqn:E.
  { intros [= <- <-] _. done. }
  destruct (fetch16 s) as [[op s1]|]; [|done].
  destruct (exec op s1) as [[[] s2]|]; [|done].
  destruct (modc _ s2) as [[[] s3]|]; [|done]. intros [= <- <-]. by destruct (stopped s3.(cpu)).
Qed.

Lemma run_loop_stops n i r s s' :
  cf_run_loop n i s = Some (r, s') → r = i + Z.of_nat n ∨ stopped s'.(cpu) = true.
Proof.
  revert i s. induction n as [|n IH]; intros i s; simpl.
  - intros [= <- <-]. left. lia.
  - unfold mbind, M_bind. destruct (cf_step s) as [[q s1]|] eqn:E; [|done].
    destruct (Z.ltb_spec q 0); [intros [= <- <-]; right; by eapply step_stops|].
    intros [->|?]%IH; [left; lia|by right].
Qed.
End Run.



(** ** Privilege *)

(** C14: A program in user mode is confined.  After any instruction whose
    addressing modes exist, on a bus and with hypercalls that keep their laws,
    the vector base and the cache control register are unchanged and either the
    processor has faulted, or it is still in user mode with the system byte of
    the status register and the supervisor stack pointer as they were, or it is
    at the start of an exception handler: the address that was read from the
    vector table, with the supervisor stack 8 bytes lower and the system byte
    that exceptions set. *)
Theorem user_step_confined {B} {cb : cf_callbacks B} {C : CImpl} `{!CTotal C} (bus_ok : B → Prop)
    `{!BusLaws cb bus_ok} `{!HypercallConfined cb} (s : cf_sys B) :
  wf_cpu s.(cpu) → bus_ok s.(bus) →
  nz (s.(cpu).(sr) .& CF_SR_S) = false →
  s.(cpu).(halted) = false → s.(cpu).(fault) = false →
  (∀ w b, read16 s.(bus) s.(cpu).(pc) = Some (w, b) → ea_valid valid_mode (u16 (w .& 0xFFFF))) →
  ∃ r s', cf_step s = Some (r, s') ∧ wf_cpu s'.(cpu) ∧ bus_ok s'.(bus) ∧
    s'.(cpu).(vbr) = s.(cpu).(vbr) ∧ s'.(cpu).(cacr) = s.(cpu).(cacr) ∧
    (s'.(cpu).(fault) = true ∨ confined s.(cpu) s'.(cpu) ∨ handler_entered cb s.(cpu) s'.(cpu)).
Proof.
  intros Hw Hb Hu Hh Hf Hop. destruct s as [c b].
  destruct (proj1 (wp_run _ _ _) (user_step bus_ok c Hu b (Build_Inv _ (mk_sys c b) Hw Hb) Hh Hf Hop))
    as (r & s' & E & [[[H1 H2] H3 H4 H5]|[[H1 H2] H3]]); exists r, s'; split_and!; try done.
  - destruct H5; auto.
  - apply H3.
  - apply H3.
  - auto.
Qed.

#[local] Instance ram_confined : HypercallConfined ram.
Proof. intros h c op b r c' b' Hh. done. Qed.

Lemma user_step_confined_witness :
  ∃ r s', cf_step (cb := ram) (C := wrap_c) user_machine = Some (r, s') ∧ wf_cpu s'.(cpu) ∧ bytes_ok s'.(bus) ∧
    s'.(cpu).(vbr) = 0 ∧ s'.(cpu).(cacr) = 0 ∧
    (s'.(cpu).(fault) = true ∨ confined user_cpu s'.(cpu) ∨ handler_entered ram user_cpu s'.(cpu)).
Proof.
  apply (user_step_confined (cb := ram) bytes_ok user_machine); try reflexivity; try apply user_machine_inv.
  intros w b E. assert (w = 0x7005) as -> by (injection E; intros _ <-; reflexivity). vm_compute. done.
Defined.

(** For the addressing modes 7.5 to 7.7 the emulator raises the exception and
    then goes on with the instruction, in supervisor mode: the user program
    [movea.l <7.5>,a7] sets the supervisor stack pointer to its [d0]. *)
Definition escape_machine : cf_sys (Z → Z) :=
  mk_sys (with_d (<[0%nat := 0xDEAD0000]> user_cpu.(d)) user_cpu) (image 0x1000 [0x2E; 0x7D]).

Lemma invalid_mode_escapes :
  super escape_machine.(cpu) = false ∧
  match cf_step (cb := ram) (C := wrap_c) escape_machine with
  | Some (_, s') => super s'.(cpu) = true ∧ sp_of s'.(cpu) = 0xDEAD0000
  | None => False
  end.
Proof. split; [done|]. vm_compute. done. Qed.

(** ** Exceptions *)

(** C15: An exception and the return from it.  On a bus that is a memory, an
    exception with vector [v] pushes a frame of format word, status register
    and program counter on the supervisor stack, changes no other byte, and
    starts the handler of the vector in supervisor mode; [rte] executed there
    restores the interrupted processor in full: both stack pointers, the status
    register and the program counter (only the diagnostic trace has an event
    more, and a halted processor is running). *)
Theorem exception_rte {B} {cb : cf_callbacks B} {C : CImpl} `{!CTotal C} (bus_ok : B → Prop)
    (byte : B → Z → Z) `{!RamBus cb bus_ok byte} (v : Z) (s : cf_sys B) :
  wf_cpu s.(cpu) → bus_ok s.(bus) → s.(cpu).(in_exception) = false → inw 8 v →
  ∃ s1 s2 t, cf_exception v s = Some (tt, s1) ∧ exec_rte s1 = Some (tt, s2) ∧
    s2.(cpu) = with_halted false (with_trace t s.(cpu)) ∧
    s1.(cpu).(pc) = word32 (byte s1.(bus)) (u32 (s.(cpu).(vbr) + u32 (v * 4))) ∧
    super s1.(cpu) = true ∧
    exc_frame byte v (sp_of s1.(cpu)) s.(cpu) s.(bus) s1.(bus) ∧ s2.(bus) = s1.(bus).
Proof. intros Hw Hb Hx Hv. apply (exception_return bus_ok byte); [by split|done..]. Qed.

Lemma exception_rte_witness :
  ∃ s1 s2 t, cf_exception (cb := ram) 32 user_machine = Some (tt, s1) ∧
    exec_rte (cb := ram) s1 = Some (tt, s2) ∧
    s2.(cpu) = with_halted false (with_trace t user_cpu) ∧
    s1.(cpu).(pc) = word32 s1.(bus) (u32 (0 + u32 (32 * 4))) ∧ super s1.(cpu) = true ∧
    exc_frame (λ b, b) 32 (sp_of s1.(cpu)) user_cpu user_machine.(bus) s1.(bus) ∧ s2.(bus) = s1.(bus).
Proof.
  apply (exception_rte (cb := ram) (C := wrap_c) bytes_ok (λ b, b) 32 user_machine); try apply user_machine_inv; done.
Defined.

(** ** The multiply-accumulate unit *)

(** C16: An accumulation is exact, saturates or wraps.  Storing the exact result
    [r] leaves [r] in the accumulator when it fits 48 bits, and otherwise the
    nearest 48-bit value (saturation mode) or the one congruent to it; no other
    accumulator changes.  The flags are those of the stored value: zero,
    negative, extension overflow for the mode, and the overflow of the product
    bit of this accumulator, which is sticky. *)
Theorem mac_store_exact {B} (i r : Z) (s : cf_sys B) :
  0 <= i < 4 → wf_cpu s.(cpu) →
  let m := s.(cpu).(macsr) in
  let v := acc_of m r in
  ∃ m', mac_store i r s =
      Some (tt, mk_sys (with_macsr m' (with_acc (<[Z.to_nat i := v]> s.(cpu).(acc)) s.(cpu))) s.(bus)) ∧
    (∀ j, 0 <= j < 32 → Z.testbit m' j = mac_flag m i r v j) ∧ in48s v.
Proof.
  intros Hi Hw m v. exists (flagged i r m v). split; [by apply mac_store_run|]. split; [|apply acc_of_in].
  intros j Hj. by apply flagged_bit.
Qed.

Lemma mac_store_exact_witness :
  let m := (user_machine).(cpu).(macsr) in
  let v := acc_of m (2 ^ 47) in
  ∃ m', mac_store 2 (2 ^ 47) user_machine =
      Some (tt, mk_sys (with_macsr m' (with_acc (<[Z.to_nat 2 := v]> user_cpu.(acc)) user_cpu)) user_machine.(bus)) ∧
    (∀ j, 0 <= j < 32 → Z.testbit m' j = mac_flag m 2 (2 ^ 47) v j) ∧ in48s v.
Proof. apply (mac_store_exact 2 (2 ^ 47) user_machine); [lia|apply user_machine_inv]. Defined.

(** ** Arithmetic and shifts *)

(** C10: [cmp], [sub] and [add] between data registers, of byte, word and long
    operands: the register has the result in its low part, and the condition
    codes mean what the conditions of [Bcc] and [Scc] are named after.  After a
    comparison or a subtraction the 16 conditions are the comparisons of the
    operands, unsigned or signed; X is the borrow.  After an addition C and X
    are the unsigned carry, V the signed overflow, Z and N the zero and the sign
    of the result. *)
Theorem alu_condition_codes {B} {cb : cf_callbacks B} {C : CImpl} (s : cf_sys B) (x m y : Z) :
  0 <= x < 8 → 0 <= m < 3 → 0 <= y < 8 → wf_cpu s.(cpu) →
  let sz := 2 ^ m in
  let w := width sz in
  let src := opnd sz s.(cpu) y in
  let dst := opnd sz s.(cpu) x in
  (∃ r, exec (reg_op 0xB x m y) s = Some (tt, upd (with_sr r) s) ∧
    (∀ cc, 0 <= cc < 16 → cond_holds r cc = cmp_means w cc src dst) ∧
    ∀ j, 4 <= j < 32 → Z.testbit r j = Z.testbit s.(cpu).(sr) j) ∧
  (∃ r, exec (reg_op 0x9 x m y) s = Some (tt, upd (λ c, with_sr r (set_low sz x (dst - src) c)) s) ∧
    (∀ cc, 0 <= cc < 16 → cond_holds r cc = cmp_means w cc src dst) ∧
    Z.testbit r 4 = (dst <? src) ∧
    ∀ j, 5 <= j < 32 → Z.testbit r j = Z.testbit s.(cpu).(sr) j) ∧
  (∃ r, exec (reg_op 0xD x m y) s = Some (tt, upd (λ c, with_sr r (set_low sz x (dst + src) c)) s) ∧
    (∀ j, 0 <= j < 32 → Z.testbit r j =
      if (j =? 0) || (j =? 4) then 2 ^ w <=? dst + src
      else if j =? 1 then negb (fits w (signed w dst + signed w src))
      else if j =? 2 then (dst + src) mod 2 ^ w =? 0
      else if j =? 3 then signed w ((dst + src) mod 2 ^ w) <? 0
      else Z.testbit s.(cpu).(sr) j)).
Proof.
  intros Hx Hm Hy Hw. split; [by apply cmp_codes|]. split; [by apply sub_codes|by apply add_codes].
Qed.

Lemma alu_condition_codes_witness :
  ∃ r, exec (cb := ram) (C := wrap_c) (reg_op 0xB 0 2 1) user_machine = Some (tt, upd (with_sr r) user_machine) ∧
    (∀ cc, 0 <= cc < 16 → cond_holds r cc = cmp_means (width (2 ^ 2)) cc (opnd (2 ^ 2) user_cpu 1) (opnd (2 ^ 2) user_cpu 0)) ∧
    ∀ j, 4 <= j < 32 → Z.testbit r j = Z.testbit user_cpu.(sr) j.
Proof.
  apply (alu_condition_codes (cb := ram) (C := wrap_c) user_machine 0 2 1); [lia..|apply user_machine_inv].
Defined.

(** C18: The shift instructions.  The loops that shift one bit at a time compute
    the arithmetic: a multiplication or a division by a power of two, signed or
    unsigned, in the width of the operand, or a rotation, for counts from the
    instruction and from a register (modulo 64); the carry is the last bit
    shifted out.  X takes it except in rotations and for the count 0, V is
    cleared, and types that do not exist are illegal instructions. *)
Theorem shifts_correct {B} {cb : cf_callbacks B} {C : CImpl} (s : cf_sys B) (c dir m ir t y : Z) :
  0 <= c < 8 → 0 <= dir < 2 → 0 <= m < 3 → 0 <= ir < 2 → 0 <= t < 4 → 0 <= y < 8 → wf_cpu s.(cpu) →
  match shift_spec t (dir =? 1) (width (2 ^ m)) (opnd (2 ^ m) s.(cpu) y) (shift_count s c ir) with
  | Some (res, carry, x) => ∃ r,
      exec (shift_op c dir m ir t y) s = Some (tt, upd (λ cc, with_sr r (set_low (2 ^ m) y res cc)) s) ∧
      ∀ j, 0 <= j < 32 → Z.testbit r j = shift_bit s m res carry x j
  | None => exec (shift_op c dir m ir t y) s = illegal s
  end.
Proof. intros. by apply shift_run. Qed.

(** [ror.w #3,d0] *)
Lemma shifts_correct_witness :
  ∃ r, exec (cb := ram) (C := wrap_c) (shift_op 3 0 1 0 3 0) user_machine =
      Some (tt, upd (λ cc, with_sr r (set_low (2 ^ 1) 0 0 cc)) user_machine) ∧
    ∀ j, 0 <= j < 32 → Z.testbit r j = shift_bit user_machine 1 0 false false j.
Proof.
  pose proof (shifts_correct (cb := ram) (C := wrap_c) user_machine 3 0 1 0 3 0) as H.
  apply H; [lia..|apply user_machine_inv].
Defined.

(** ** The Triton bus *)

(** What an access of the bytes [p .. p + n] does, by the callbacks [rd] and
    [wr]. *)
Definition access_ok (n : Z) (rd : triton_sys → Z → option (Z * triton_sys))
    (wr : triton_sys → Z → Z → option triton_sys) (t : triton_sys) (p v : Z) : Prop :=
  (p + n < 2 ^ 32 → ∃ r t', rd t p = Some (r, t') ∧ in32 r ∧ wf_triton t' ∧ same_memory t t') ∧
  (p + n < 2 ^ 32 → ∃ t', wr t p v = Some t' ∧ wf_triton t' ∧ t'.(t_flash) = t.(t_flash) ∧
     (@in_memory n p → rd t' p = Some (v mod 2 ^ (8 * (n + 1)), t'))) ∧
  (2 ^ 32 <= p + n → rd t p = None ∧ wr t p v = None).

(** C27: The bounds of the bus.  An access of 8, 16 or 32 bits that does not run
    past the end of the address space stays inside the arrays of the console,
    keeps them, and never changes the flash; reads change no memory; what was
    written to RAM or video RAM is read back.  An access that does run past the
    end passes the test of the RAM, whose sum wraps around, and indexes the
    array out of bounds: the last address for 16 bits, the last three for 32. *)
Theorem triton_bus_bounds (t : triton_sys) (p v : Z) :
  wf_triton t → in32 p → in32 v →
  access_ok 0 triton_read8 triton_write8 t p v ∧
  access_ok 1 triton_read16 triton_write16 t p v ∧
  access_ok 3 triton_read32 triton_write32 t p v.
Proof.
  intros Ht Hp Hv.
  assert (∀ n rdn wrn mask, width_ok n rdn wrn → 0 <= n < 4 → (∀ z, in32 z → in32 (mask z)) →
    access_ok n (read_bus n rdn mask) (write_bus n wrn) t p v) as H.
  { intros n rdn wrn mask Hw Hn Hm. unfold inw in Hp. split; [|split]; intros Hlt.
    - apply (read_bus_ok Hw Hn Hm); done || lia.
    - apply (write_bus_ok Hw Hn); done || lia.
    - split; [apply (read_bus_wrap Hw Hn)|apply (write_bus_wrap Hw Hn)]; done || lia. }
  split; [|split]; apply H; try lia; auto using width8, width16, width32; intros; auto with word.
Qed.

Definition empty_triton : triton_sys :=
  mk_triton (zeroed TRITON_RAM_SIZE) (zeroed TRITON_VRAM_SIZE) (zeroed TRITON_FLASH_SIZE) (zeroed TRITON_GPU_SIZE) 0 0 [].

Lemma triton_bus_bounds_witness :
  access_ok 0 triton_read8 triton_write8 empty_triton 0xFFFFFFFF 1 ∧
  access_ok 1 triton_read16 triton_write16 empty_triton 0xFFFFFFFF 1 ∧
  access_ok 3 triton_read32 triton_write32 empty_triton 0xFFFFFFFF 1.
Proof. apply (triton_bus_bounds empty_triton 0xFFFFFFFF 1); [split; apply zeroed_ok || done|done|done]. Defined.

(** C34: The console starts at its monitor.  With a ROM that has at least its
    two reset vectors and a guest that fits, both within their memories, the
    start of the machine copies the ROM to the start of the flash and the guest
    to its staging address, and resets the processor through the bus: in
    supervisor mode with interrupts masked, with the stack pointer and the
    program counter of the first two words of the ROM and the vectors in
    flash. *)
Theorem triton_boot_starts {C : CImpl} (rom elf : list Z) :
  (8 <= length rom)%nat → Z.of_nat (length rom) <= TRITON_FLASH_SIZE → Forall in8 rom →
  0 < Z.of_nat (length elf) <= TRITON_RAM_SIZE - TRITON_ELF_STAGE → Forall in8 elf →
  ∃ s, triton_boot rom elf = Some (inr s) ∧
    wf_triton s.(bus) ∧ s.(cpu).(pc) = word_at rom 4 ∧ sp_of s.(cpu) = word_at rom 0 ∧
    s.(cpu).(sr) = 0x2700 ∧ s.(cpu).(vbr) = TRITON_FLASH_BASE ∧ stopped s.(cpu) = false ∧
    (∀ i x, rom !! i = Some x → s.(bus).(t_flash).(abytes) (Z.of_nat i) = x) ∧
    (∀ i x, elf !! i = Some x → s.(bus).(t_ram).(abytes) (TRITON_ELF_STAGE + Z.of_nat i) = x).
Proof.
  intros H1 H2 H3 H4 H5. destruct (boot_run rom elf H1 H2 H3 H4 H5) as (t & E & Ht & Hr & He & _).
  eexists. split; [exact E|]. split; [exact Ht|]. do 5 (split; [reflexivity|]). split; [exact Hr|exact He].
Qed.

Lemma triton_boot_starts_witness :
  let rom := [0; 0x7F; 0xFF; 0xFC; 0x01; 0x20; 0; 0x08; 0x4A; 0xC8] in
  ∃ s, triton_boot (C := wrap_c) rom [0x7F; 0x45] = Some (inr s) ∧
    wf_triton s.(bus) ∧ s.(cpu).(pc) = word_at rom 4 ∧ sp_of s.(cpu) = word_at rom 0 ∧
    s.(cpu).(sr) = 0x2700 ∧ s.(cpu).(vbr) = TRITON_FLASH_BASE ∧ stopped s.(cpu) = false ∧
    (∀ i x, rom !! i = Some x → s.(bus).(t_flash).(abytes) (Z.of_nat i) = x) ∧
    (∀ i x, [0x7F; 0x45] !! i = Some x → s.(bus).(t_ram).(abytes) (TRITON_ELF_STAGE + Z.of_nat i) = x).
Proof.
  apply (triton_boot_starts (C := wrap_c) [0; 0x7F; 0xFF; 0xFC; 0x01; 0x20; 0; 0x08; 0x4A; 0xC8] [0x7F; 0x45]);
    try (repeat constructor; done); simpl; unfold TRITON_FLASH_SIZE, TRITON_RAM_SIZE, TRITON_ELF_STAGE; lia.
Defined.

(** ** Deviations from the instruction set *)

(** The comparison of an infinity with itself, by subtraction, is unordered. *)
Lemma fcmp_infinities :
  let inf := 0x7FF0000000000000 in
  let c := with_fp (<[0%nat := inf]> (<[1%nat := inf]> cf_init.(fp))) (with_pc 0x1000 cf_init) in
  match cf_step (cb := ram) (C := wrap_c) (mk_sys c (image 0x1000 [0xF2; 0x00; 0x00; 0xB8])) with
  | Some (_, s) => Z.testbit s.(cpu).(fpsr) 24 = true ∧ Z.testbit s.(cpu).(fpsr) 26 = false
  | None => False
  end.
Proof. vm_compute. done. Qed.

(** A quotient of [divu.w] that does not fit 16 bits is cut off, with V clear:
    [0x20000 / 1] gives 0. *)
Lemma divu_overflow :
  let c := with_d (<[0%nat := 0x20000]> (<[1%nat := 1]> cf_init.(d))) (with_pc 0x1000 cf_init) in
  match cf_step (cb := ram) (C := wrap_c) (mk_sys c (image 0x1000 [0x80; 0xC1])) with
  | Some (_, s) => dreg s.(cpu) 0 = 0 ∧ Z.testbit s.(cpu).(sr) 1 = false
  | None => False
  end.
Proof. vm_compute. done. Qed.

(** The product of [muls.l] is computed with signed operands: where it overflows
    the standard does not define it. *)
Lemma muls_overflow :
  let c := with_d (<[0%nat := 0x10000]> (<[1%nat := 0x10000]> cf_init.(d))) (with_pc 0x1000 cf_init) in
  cf_step (cb := ram) (C := std_c) (mk_sys c (image 0x1000 [0x4C; 0x01; 0x08; 0x00])) = None.
Proof. vm_compute. reflexivity. Qed.
